(* ===== verification/_CoqProject ===== *)
-Q . S2P
Prelude.v
Text.v
Value.v
Memcomparable.v
Tuple.v
Common.v
Errors.v
LockManager.v
WalRecord.v
Device.v
SegmentStore.v
Log.v
LogInv.v
LogReopen.v
VersionStore.v
TxnManager.v
Snapshot.v
SqlLexer.v
SqlLexerSpec.v
Fingerprint.v
SqlParser.v
SqlParserSpec.v
SqlPrint.v
Catalog.v
Planner.v
Expression.v
BinderSpec.v
OptimizerSpec.v
Page.v
Header.v
Slots.v
Heap.v
HeapPage.v
HeapSpec.v
Replacer.v
Disk.v
Dwb.v
Buffer.v
BufferInv.v
BufferFlush.v
BufferSpec.v
BufferLaws.v
BufferDurable.v
StorageSpec.v
DiskSpec.v
BtreeNode.v
Btree.v
BtreePage.v
BtreeWrites.v
BtreeTree.v
BtreeSpec.v
BtreeInsert.v
BtreeScan.v
BtreeProps.v
CatalogStore.v
Executor.v
ExecutorReads.v
Database.v
Queries.v
DatabaseFrames.v
Inserts.v
CatalogSpec.v
CatalogReload.v
Recovery.v
Journal.v
Parameters.v
Explain.v
SqlRender.v
Selects.v
Engine.v
EngineSpec.v
Sessions.v
EngineProps.v
Runtime.v
SessionsOwn.v
Rollback.v
