(* ===== verification/Prelude.v ===== *)
(** * simple_rdbms: a verification development

    simple_rdbms is a small relational database: a PostgreSQL-speaking server over an engine that
    parses SQL, binds and plans it, executes plans against heaps and B-tree indexes kept in pages of
    a buffer pool, and makes changes durable with a write-ahead log, a double-write buffer and
    ARIES-style recovery. Transactions use strict two-phase locking together with version chains for
    snapshot reads. This development models those parts as executable definitions translated from
    the sources under src/crates and proves what they promise to each other.

    ** How code is translated
    Fallible code returns [outcome E A]: [Ok], [Err], or [Panic] for an out-of-range index, a failed
    [unreachable!] or a lock the thread already holds. Stateful code is in the monad [M S E A]
    (explicit state passing; an error keeps the state reached so far). Machine integers are [Z] with
    the wrap-around written out ([wrapu], [wraps], [saturating_sub]); bytes are [list byte] with
    Z-indexed slices ([sub], [splice], [index]); hash maps are [gmap], hash sets [gset]. Metrics,
    tracing and test hooks are left out everywhere.

    ** The parts, bottom up
    - Prelude, Text: outcomes, the monad, slices, integer codecs, the order of byte strings; decimal
      and hexadecimal text.
    - Value, Memcomparable, Tuple (crates/types): values and their comparison, order-preserving index
      keys, the row codec.
    - Common, Errors (crates/common, storage/src/error.rs, txn/src/error.rs): ids, CRC-32, the error
      enums with message, SQLSTATE, severity, redaction.
    - LockManager (txn/src/lock_manager.rs): a step per critical section; waiting is the pause between
      steps, so every interleaving of wake-ups, time-outs and releases is a sequence of steps.
    - WalRecord, Device, SegmentStore, Log, LogInv, LogReopen (storage/src/wal.rs, block_device.rs):
      record codec, block devices whose calls may fail or tear, segments, the log manager, and what
      survives a crash.
    - VersionStore, TxnManager, Snapshot (txn/src/mvcc.rs, version_store.rs, manager.rs,
      transaction.rs): version chains, begin/commit/abort over an interface for the pool and log calls,
      and snapshot isolation as a refinement.
    - SqlLexer, SqlLexerSpec, SqlParser, SqlParserSpec, SqlPrint, Fingerprint (crates/sql): tokens,
      recursive-descent parser (fuel: the number of tokens bounds the depth), printing, fingerprints.
    - Catalog (crates/catalog): the in-memory state with every lookup, and the codecs of catalog rows.
    - Planner, Expression, BinderSpec, OptimizerSpec (crates/planner, executor/src/expression.rs):
      binder, logical and physical plans, the index-scan rule, evaluation with three-valued logic.
    - Page, Slots (storage/src/page.rs): the page layout, and the guard interface [PageStore] with its
      laws [PageStoreLaws], against which heaps and indexes are proved; [triple] is the form of their
      specifications, with credits that bound the log records and pages an operation may use.
    - Heap, HeapPage, HeapSpec (storage/src/heap.rs): slotted pages, heaps, the scan iterator.
    - Replacer, Disk, Dwb, Buffer, BufferInv, BufferFlush, BufferSpec, BufferLaws, BufferDurable
      (storage/src/replacer.rs, disk.rs, dwb.rs, buffer.rs): the replacement policy as a class with
      laws and LRU-K as its instance, the disk manager, the double-write buffer, the buffer pool as one
      thread uses it, its invariant, and the proof that it satisfies [PageStoreLaws].
    - StorageSpec, DiskSpec: the theorems about the storage stack put together.
    - BtreeNode, Btree (storage/src/btree.rs): node pages, search, insertion with splits
      up to a new root, lookups and range scans over the leaves. BtreePage, BtreeWrites, BtreeTree,
      BtreeSpec, BtreeInsert, BtreeScan: what the pages of a tree hold and what each operation does to
      it; BtreeProps: the theorems.
    - CatalogStore, CatalogSpec, CatalogReload (catalog/src/catalog.rs): the catalog's rows in its two
      heaps, creating tables and indexes, moving an index's root, reading the catalog back.
    - Executor, ExecutorReads, Queries, Selects, Inserts (crates/executor): scans, filters, projections
      and inserts as iterators over the catalog, the pool, the locks and the versions.
    - Database, DatabaseFrames: [db_ok], the invariant of a whole database: tables, indexes and catalog
      rows on pages of their own, an index entry for each row, the header pointing at the catalog.
    - Recovery (storage/src/recovery.rs, txn/src/checkpoint.rs): torn pages restored from the
      double-write buffer, analysis, redo and undo, checkpoints. Journal, Rollback: the log's records
      since a transaction began make the present pages from those at its beginning, so its undo puts
      them back, and ROLLBACK restores the database.
    - Parameters, Explain, SqlRender (planner/src/parameters.rs, explain.rs, sql/src/error.rs):
      substitution and type inference of statement parameters, EXPLAIN, syntax errors as text.
    - Engine (engine/src/runtime.rs): opening, statements of a session, its transaction slot,
      autocommit, idle time-outs, checkpoints. EngineSpec, Sessions, EngineProps: what the
      text of each statement does to a database, whatever faults the devices have.
    - Runtime, SessionsOwn (engine/src/runtime.rs, database.rs, worker_pool.rs): the
      engine thread as a machine that takes one message after another, its handles, the worker pool,
      and who owns which transaction.

    ** What the theorems show
    Storage: the pool refines a map of pages under any device faults and any replacement policy, obeys
    the write-ahead rule and makes everything durable on [flush_all]; a heap over it refines a map of
    tuples and a scan returns every tuple once; a B-tree refines a multiset of entries and lookups find
    exactly those of a key; checksums catch any one-byte corruption. Statements: SELECT returns exactly
    the rows its transaction sees, INSERT adds its rows to the table and to every index, CREATE TABLE and
    CREATE INDEX extend the database and keep the rest, ROLLBACK gives back the database of BEGIN; each
    keeps [db_ok], never panics and says what holds after an error. Sessions never share a transaction.
    Log: layout invariant, durability of flushed records, reopening after any torn write, reading and iterating by
    LSN, truncation, record codec both ways. Transactions: locks exclude, the wait-for graph stays
    acyclic and the deadlock search is exact, a blocked transaction waits for a running one; snapshots
    see exactly the rows committed before them. SQL: lexing and parsing are total and invert printing;
    bound statements evaluate without error to values of their types; the optimizer keeps the rows of
    a query. Codecs: index keys preserve order, rows, keys, catalog rows and headers round-trip. The
    theorems with "error" in the manifest are counterexamples: what the code does where its
    documentation promises something else.

    ** Bounds and fuel
    Recursion on fuel is used where the code loops on data outside the call (tokens, page chains,
    segments, wait-for edges); every such theorem says how much fuel is enough, and running out of it
    is a [Panic] that the theorems exclude. Credits ([store_ok n], [pool_ok n]) keep LSNs and page ids
    below their machine widths for the next [n] records and pages.

    ** Not modelled
    The network server (crates/server), the command line client and the process around them are input
    and output over sockets, HTTP and signals. Left out of modelled parts: dropping tables, B-tree
    deletion and nested-loop joins (all unimplemented in the code), the consistency checker of trees, messages and accessors
    compiled for tests only, the fault-injecting device and the Windows read and write loops. Threads:
    the lock manager, version store and transaction manager are modelled as atomic steps of their
    critical sections, the engine as its one thread handling messages, the buffer pool as one thread
    uses it. The session counter, a static of the code, starts at one. *)
From stdpp Require Export base option list numbers gmap fin_maps strings.
From Stdlib Require Export ZArith Lia.
From Stdlib Require Import Strings.Byte.

Global Open Scope Z_scope.
Global Set Default Goal Selector "!".
Global Set Warnings "-clear-no-such-hyp".

(** ** Outcomes

    A fallible Rust operation returns [Ok] or [Err]; an out-of-range index or
    slice, or a failed [unreachable!], is a [Panic]. *)
Inductive outcome (E A : Type) : Type :=
| Ok (a : A)
| Err (e : E)
| Panic.
Arguments Ok {E A} a.
Arguments Err {E A} e.
Arguments Panic {E A}.

#[export] Instance outcome_ret (E : Type) : MRet (outcome E) := fun A a => Ok a.
#[export] Instance outcome_bind (E : Type) : MBind (outcome E) :=
  fun A B f m => match m with Ok a => f a | Err e => Err e | Panic => Panic end.
#[export] Instance outcome_fmap (E : Type) : FMap (outcome E) :=
  fun A B f m => match m with Ok a => Ok (f a) | Err e => Err e | Panic => Panic end.

(** [o.ok_or(e)] *)
Definition ok_or {E A} (o : option A) (e : E) : outcome E A :=
  match o with Some a => Ok a | None => Err e end.
(** An index or slice expression: out of range panics. *)
Definition or_panic {E A} (o : option A) : outcome E A :=
  match o with Some a => Ok a | None => Panic end.

(** ** Stateful fallible code

    State changes made before an [Err] is returned persist, as the mutations of
    a Rust method on [&mut self] do. *)
Definition M (S E A : Type) : Type := S -> outcome E A * S.

#[export] Instance M_ret (S E : Type) : MRet (M S E) := fun A a s => (Ok a, s).
#[export] Instance M_bind (S E : Type) : MBind (M S E) :=
  fun A B f m s => match m s with
                   | (Ok a, s') => f a s'
                   | (Err e, s') => (Err e, s')
                   | (Panic, s') => (Panic, s')
                   end.
Definition gets {S E A} (f : S -> A) : M S E A := fun s => (Ok (f s), s).
Definition modify {S E} (f : S -> S) : M S E unit := fun s => (Ok tt, f s).
Definition throw {S E A} (e : E) : M S E A := fun s => (Err e, s).
Definition lift {S E A} (o : outcome E A) : M S E A := fun s => (o, s).

(** ** Machine integers *)
Definition u8_max : Z := 255.
Definition u16_max : Z := 65535.
Definition u32_max : Z := 4294967295.
Definition u64_max : Z := 18446744073709551615.
(** [x as uN] *)
Definition wrapu (w z : Z) : Z := z mod 2 ^ w.
(** [x as iN] *)
Definition wraps (w z : Z) : Z := (z + 2 ^ (w - 1)) mod 2 ^ w - 2 ^ (w - 1).
Definition in_u (w z : Z) : Prop := 0 <= z < 2 ^ w.
Definition in_s (w z : Z) : Prop := - 2 ^ (w - 1) <= z < 2 ^ (w - 1).
Definition saturating_sub (a b : Z) : Z := Z.max 0 (a - b).

#[export] Instance in_u_dec w z : Decision (in_u w z).
Proof. unfold in_u. apply _. Defined.
#[export] Instance in_s_dec w z : Decision (in_s w z).
Proof. unfold in_s. apply _. Defined.

(** ** Bytes *)
Abbreviation byte := Init.Byte.byte.
Abbreviation bytes := (list Init.Byte.byte).
#[export] Instance byte_eq_dec : EqDecision byte := Byte.byte_eq_dec.

Definition Z_of_byte (b : byte) : Z := Z.of_N (Byte.to_N b).
Definition byte_of_Z (z : Z) : byte :=
  default Byte.x00 (Byte.of_N (Z.to_N (z mod 256))).

(** [s.len()] of a slice, as a [usize] *)
Definition len {A} (l : list A) : Z := Z.of_nat (length l).
(** [v[i]] *)
Definition index {A} (l : list A) (i : Z) : option A :=
  if 0 <=? i then l !! Z.to_nat i else None.
(** [s.get(off..off + n)] *)
Definition sub {A} (l : list A) (off n : Z) : option (list A) :=
  if (0 <=? off) && (0 <=? n) && (off + n <=? len l)
  then Some (take (Z.to_nat n) (drop (Z.to_nat off) l)) else None.
(** [s[off..off + new.len()].copy_from_slice(new)] where the range is inside *)
Definition splice {A} (l : list A) (off : Z) (new : list A) : list A :=
  take (Z.to_nat off) l ++ new ++ drop (Z.to_nat off + length new) l.

(** [x.to_le_bytes()] and [T::from_le_bytes(b)] for an [n]-byte integer, and the
    big-endian pair. *)
Fixpoint to_le (n : nat) (z : Z) : bytes :=
  match n with O => [] | S n => byte_of_Z z :: to_le n (z / 256) end.
Fixpoint from_le (bs : bytes) : Z :=
  match bs with [] => 0 | b :: bs => Z_of_byte b + 256 * from_le bs end.
Definition to_be (n : nat) (z : Z) : bytes := reverse (to_le n z).
Definition from_be (bs : bytes) : Z := from_le (reverse bs).

(** The order of [[u8]]: lexicographic, a proper prefix first. *)
Definition byte_compare (a b : byte) : comparison := Z.compare (Z_of_byte a) (Z_of_byte b).
Fixpoint lex_compare (a b : bytes) : comparison :=
  match a, b with
  | [], [] => Eq
  | [], _ => Lt
  | _, [] => Gt
  | x :: a, y :: b => match byte_compare x y with Eq => lex_compare a b | c => c end
  end.

(** A Rust string literal as its bytes. *)
Definition str (s : String.string) : bytes := String.list_byte_of_string s.

(** ** Automation *)
Create HintDb rdbms.
Create Rewrite HintDb len.

Ltac simplify_outcome :=
  repeat match goal with
  | H : Ok _ = Ok _ |- _ => injection H as H; subst
  | H : Err _ = Err _ |- _ => injection H as H; subst
  | H : Some _ = Some _ |- _ => injection H as H; subst
  | H : Ok _ = Err _ |- _ => discriminate H
  | H : Err _ = Ok _ |- _ => discriminate H
  | H : Panic = _ |- _ => discriminate H
  | H : _ = Panic |- _ => discriminate H
  | H : None = Some _ |- _ => discriminate H
  | H : Some _ = None |- _ => discriminate H
  | H : (_, _) = (_, _) |- _ => injection H as ? ?; subst
  end.

(** Boolean tests of the code as facts for [lia]. *)
Ltac to_prop :=
  repeat match goal with
  | H : (_ && _)%bool = true |- _ => apply andb_true_iff in H as [? ?]
  | H : (_ || _)%bool = false |- _ => apply orb_false_iff in H as [? ?]
  | H : (_ <=? _) = true |- _ => apply Z.leb_le in H
  | H : (_ <=? _) = false |- _ => apply Z.leb_gt in H
  | H : (_ <? _) = true |- _ => apply Z.ltb_lt in H
  | H : (_ <? _) = false |- _ => apply Z.ltb_ge in H
  | H : (_ =? _) = true |- _ => apply Z.eqb_eq in H
  | H : (_ =? _) = false |- _ => apply Z.eqb_neq in H
  | H : negb _ = true |- _ => apply negb_true_iff in H
  | H : negb _ = false |- _ => apply negb_false_iff in H
  end.

(** Case analysis on the integer tests of the goal. *)
Ltac zcase :=
  repeat match goal with
  | |- context [?a <=? ?b] => destruct (Z.leb_spec a b)
  | |- context [?a <? ?b] => destruct (Z.ltb_spec a b)
  | |- context [?a =? ?b] => destruct (Z.eqb_spec a b)
  end.

(** ** Lengths, slices and splices *)
Lemma len_nonneg {A} (l : list A) : 0 <= len l.
Proof. unfold len. lia. Qed.
Lemma len_app {A} (l k : list A) : len (l ++ k) = len l + len k.
Proof. unfold len. rewrite length_app. lia. Qed.
Lemma len_cons {A} (x : A) l : len (x :: l) = 1 + len l.
Proof. unfold len. simpl. lia. Qed.
Lemma len_nil {A} : len (@nil A) = 0.
Proof. reflexivity. Qed.
Lemma len_reverse {A} (l : list A) : len (reverse l) = len l.
Proof. unfold len. by rewrite length_reverse. Qed.
Lemma len_fmap {A B} (f : A -> B) l : len (f <$> l) = len l.
Proof. unfold len. by rewrite length_fmap. Qed.
Lemma len_replicate {A} n (x : A) : len (replicate n x) = Z.of_nat n.
Proof. unfold len. by rewrite length_replicate. Qed.
Lemma to_nat_len {A} (l : list A) : Z.to_nat (len l) = length l.
Proof. apply Nat2Z.id. Qed.
Lemma len_zero_inv {A} (l : list A) : len l = 0 -> l = [].
Proof. destruct l; [done |]. unfold len. simpl. lia. Qed.

#[export] Hint Rewrite @len_app @len_cons @len_nil @len_reverse @len_fmap @len_replicate : len.

Lemma sub_Some {A} (l : list A) off n s :
  sub l off n = Some s <->
  0 <= off /\ 0 <= n /\ off + n <= len l /\ s = take (Z.to_nat n) (drop (Z.to_nat off) l).
Proof.
  unfold sub. destruct (_ && _) eqn:E.
  - to_prop. naive_solver.
  - split; [done |]. intros (? & ? & ? & ->).
    rewrite !andb_false_iff, !Z.leb_gt in E. lia.
Qed.

Lemma sub_len {A} (l : list A) off n s : sub l off n = Some s -> len s = n.
Proof.
  intros (? & ? & Hl & ->)%sub_Some. unfold len in *.
  rewrite length_take, length_drop. lia.
Qed.

Lemma sub_None {A} (l : list A) off n :
  0 <= off -> 0 <= n -> sub l off n = None <-> len l < off + n.
Proof.
  intros. unfold sub. destruct (_ && _) eqn:E.
  - to_prop. split; [done | lia].
  - rewrite !andb_false_iff, !Z.leb_gt in E. split; [lia | done].
Qed.

(** The slice at the seam of an append. *)
Lemma sub_app_mid {A} (pre mid post : list A) :
  sub (pre ++ mid ++ post) (len pre) (len mid) = Some mid.
Proof.
  apply sub_Some. rewrite !len_app.
  pose proof (len_nonneg pre); pose proof (len_nonneg mid); pose proof (len_nonneg post).
  repeat split; try lia. unfold len. rewrite !Nat2Z.id.
  by rewrite drop_app_length, take_app_length.
Qed.

Lemma sub_app_prefix {A} (a b : list A) n : len a = n -> sub (a ++ b) 0 n = Some a.
Proof. intros <-. apply (sub_app_mid [] a b). Qed.

Lemma sub_app_l {A} (l k : list A) off n s :
  sub l off n = Some s -> sub (l ++ k) off n = Some s.
Proof.
  intros (? & ? & Hl & ->)%sub_Some. apply sub_Some. rewrite len_app.
  pose proof (len_nonneg k). repeat split; try lia.
  unfold len in *. rewrite drop_app_le by lia. rewrite take_app_le; [done |].
  rewrite length_drop. lia.
Qed.

Lemma sub_app_r {A} (l k : list A) off n :
  0 <= off -> sub (l ++ k) (len l + off) n = sub k off n.
Proof.
  intros. pose proof (len_nonneg l). unfold sub. rewrite len_app.
  replace (0 <=? len l + off) with (0 <=? off) by lia.
  replace (len l + off + n <=? len l + len k) with (off + n <=? len k) by lia.
  destruct (_ && _); [| done]. do 2 f_equal. unfold len.
  replace (Z.to_nat (Z.of_nat (length l) + off)) with (length l + Z.to_nat off)%nat by lia.
  by rewrite drop_app_add.
Qed.

Lemma sub_all {A} (l : list A) : sub l 0 (len l) = Some l.
Proof.
  apply sub_Some. pose proof (len_nonneg l). repeat split; try lia.
  rewrite drop_0. unfold len. rewrite Nat2Z.id. by rewrite firstn_all.
Qed.

Lemma len_splice {A} (l : list A) off new :
  0 <= off -> off + len new <= len l -> len (splice l off new) = len l.
Proof.
  intros. unfold splice, len in *. rewrite !length_app, length_take, length_drop. lia.
Qed.

Lemma sub_splice_eq {A} (l : list A) off new :
  0 <= off -> off + len new <= len l -> sub (splice l off new) off (len new) = Some new.
Proof.
  intros. unfold splice.
  assert (Hl : len (take (Z.to_nat off) l) = off).
  { unfold len in *. rewrite length_take. lia. }
  pose proof (sub_app_mid (take (Z.to_nat off) l) new (drop (Z.to_nat off + length new) l)) as Hm.
  by rewrite Hl in Hm.
Qed.

Lemma take_drop_splice_l {A} (l : list A) off new :
  0 <= off -> off + len new <= len l ->
  take (Z.to_nat off) (splice l off new) = take (Z.to_nat off) l.
Proof.
  intros. unfold splice, len in *. rewrite take_app_le.
  - by rewrite take_idemp.
  - rewrite length_take. lia.
Qed.

Lemma splice_lookup {A} (l : list A) off new (i : nat) :
  0 <= off -> off + len new <= len l ->
  splice l off new !! i =
    if decide (off <= Z.of_nat i < off + len new)
    then new !! (i - Z.to_nat off)%nat else l !! i.
Proof.
  intros. unfold splice, len in *.
  assert (Hlt : length (take (Z.to_nat off) l) = Z.to_nat off) by (rewrite length_take; lia).
  case_decide.
  - rewrite lookup_app_r by lia. rewrite Hlt. rewrite lookup_app_l by lia. done.
  - destruct (decide (Z.of_nat i < off)).
    + rewrite lookup_app_l by lia. by rewrite lookup_take_lt by lia.
    + rewrite lookup_app_r by lia. rewrite Hlt. rewrite lookup_app_r by lia.
      rewrite lookup_drop. f_equal. lia.
Qed.

Lemma sub_lookup {A} (l : list A) off n s (i : nat) :
  sub l off n = Some s -> Z.of_nat i < n -> s !! i = l !! (Z.to_nat off + i)%nat.
Proof.
  intros (? & ? & ? & ->)%sub_Some ?. rewrite lookup_take_lt by lia. by rewrite lookup_drop.
Qed.

(** Two slices agree when the bytes under them do. *)
Lemma sub_ext {A} (l k : list A) off n :
  len l = len k ->
  (forall i : nat, off <= Z.of_nat i < off + n -> l !! i = k !! i) ->
  sub l off n = sub k off n.
Proof.
  intros Hl Hext. unfold sub. rewrite Hl. destruct (_ && _) eqn:E; [| done]. to_prop.
  f_equal. apply list_eq. intros i. destruct (decide (Z.of_nat i < n)).
  - rewrite !lookup_take_lt by lia. rewrite !lookup_drop. apply Hext. lia.
  - rewrite !lookup_take_ge by lia. done.
Qed.

Lemma sub_splice_ne {A} (l : list A) off new off' n :
  0 <= off -> off + len new <= len l ->
  (off' + n <= off \/ off + len new <= off') ->
  sub (splice l off new) off' n = sub l off' n.
Proof.
  intros. apply sub_ext; [by apply len_splice |].
  intros i Hi. rewrite splice_lookup by done. case_decide; [lia | done].
Qed.

(** A slice inside the overwritten range, and a slice of a slice. *)
Lemma sub_splice_in {A} (l : list A) off new k n :
  0 <= off -> off + len new <= len l -> 0 <= k -> k + n <= len new ->
  sub (splice l off new) (off + k) n = sub new k n.
Proof.
  intros Ho Hl Hk Hn. destruct (Z.ltb_spec n 0).
  { unfold sub. rewrite (proj2 (Z.leb_gt 0 n)) by lia. by rewrite !andb_false_r. }
  destruct (sub new k n) as [s |] eqn:E; [| apply sub_None in E; lia].
  destruct (sub (splice l off new) (off + k) n) as [s' |] eqn:E'.
  - f_equal. apply list_eq. intros i. pose proof (sub_len _ _ _ _ E). pose proof (sub_len _ _ _ _ E').
    destruct (decide (Z.of_nat i < n)).
    + rewrite (sub_lookup _ _ _ _ _ E), (sub_lookup _ _ _ _ _ E') by lia.
      rewrite splice_lookup by done. rewrite decide_True by lia. f_equal. lia.
    + unfold len in *. rewrite !lookup_ge_None_2; [done | lia | lia].
  - apply sub_None in E'; [| lia..]. rewrite len_splice in E' by done. lia.
Qed.

Lemma sub_concat {A} (l : list A) p n m x y :
  sub l p n = Some x -> sub l (p + n) m = Some y -> sub l p (n + m) = Some (x ++ y).
Proof.
  intros (H1 & H2 & H3 & ->)%sub_Some (H4 & H5 & H6 & ->)%sub_Some. apply sub_Some.
  split; [lia |]. split; [lia |]. split; [lia |]. rewrite !Z2Nat.inj_add by lia.
  by rewrite <- drop_drop, take_take_drop.
Qed.
Lemma sub_sub {A} (l : list A) off n s k m :
  sub l off n = Some s -> 0 <= k -> k + m <= n -> sub s k m = sub l (off + k) m.
Proof.
  intros Hs Hk Hm. pose proof (sub_len _ _ _ _ Hs) as Hl. pose proof Hs as (Ho & _ & Hb & _)%sub_Some.
  destruct (Z.ltb_spec m 0).
  { unfold sub. rewrite (proj2 (Z.leb_gt 0 m)) by lia. by rewrite !andb_false_r. }
  destruct (sub s k m) as [x |] eqn:E; [| apply sub_None in E; lia].
  destruct (sub l (off + k) m) as [y |] eqn:E'; [| apply sub_None in E'; lia].
  f_equal. apply list_eq. intros i. pose proof (sub_len _ _ _ _ E). pose proof (sub_len _ _ _ _ E').
  destruct (decide (Z.of_nat i < m)).
  - rewrite (sub_lookup _ _ _ _ _ E), (sub_lookup _ _ _ _ _ E') by lia.
    rewrite (sub_lookup _ _ _ _ _ Hs) by lia. f_equal. lia.
  - unfold len in *. rewrite !lookup_ge_None_2; [done | lia | lia].
Qed.
(** A window that contains the whole patch. *)
Lemma sub_splice_window {A} (l : list A) o n s k new :
  sub l o n = Some s -> 0 <= k -> k + len new <= n ->
  sub (splice l (o + k) new) o n = Some (splice s k new).
Proof.
  intros Hs Hk Hn. pose proof (sub_len _ _ _ _ Hs) as Hl. pose proof Hs as (Ho & Hn0 & Hb & _)%sub_Some.
  assert (Hfit : o + k + len new <= len l) by lia. pose proof (len_nonneg new).
  destruct (sub (splice l (o + k) new) o n) as [s' |] eqn:E.
  2: { apply sub_None in E; [| lia..]. rewrite len_splice in E by lia. lia. }
  f_equal. apply list_eq. intros i. pose proof (sub_len _ _ _ _ E).
  destruct (decide (Z.of_nat i < n)).
  - rewrite (sub_lookup _ _ _ _ _ E), !splice_lookup by lia. repeat case_decide; try lia.
    + f_equal. lia.
    + by rewrite (sub_lookup _ _ _ _ _ Hs) by lia.
  - assert (len (splice s k new) = n) by (rewrite len_splice; lia). unfold len in *.
    rewrite !lookup_ge_None_2; [done | lia..].
Qed.

(** ** Indexing *)
Lemma index_Some {A} (l : list A) i x : index l i = Some x <-> 0 <= i /\ l !! Z.to_nat i = Some x.
Proof. unfold index. destruct (Z.leb_spec 0 i); [naive_solver |]. split; [done |]. lia. Qed.
Lemma index_range {A} (l : list A) i x : index l i = Some x -> 0 <= i < len l.
Proof. intros [? ?%lookup_lt_Some]%index_Some. unfold len. lia. Qed.
Lemma index_lt {A} (l : list A) i : 0 <= i < len l -> exists x, index l i = Some x.
Proof.
  intros [H1 H2]. destruct (lookup_lt_is_Some_2 l (Z.to_nat i)) as [x Hx]; [unfold len in *; lia |].
  exists x. by apply index_Some.
Qed.
Lemma index_insert {A} (l : list A) i j x : 0 <= i < len l ->
  index (<[Z.to_nat i := x]> l) j = if decide (j = i) then Some x else index l j.
Proof.
  intros Hi. unfold index. destruct (Z.leb_spec 0 j).
  - case_decide as Hd; [subst; apply list_lookup_insert_eq; unfold len in *; lia |].
    rewrite list_lookup_insert_ne; [done | lia].
  - rewrite decide_False; [done | lia].
Qed.
Lemma len_insert {A} (l : list A) i x : len (<[i := x]> l) = len l.
Proof. unfold len. by rewrite length_insert. Qed.
#[export] Hint Rewrite @len_insert : len.

Lemma filter_none {A} (P : A -> Prop) `{!forall x, Decision (P x)} (l : list A) :
  Forall (fun x => ~ P x) l -> filter P l = [].
Proof.
  induction 1 as [| x l Hx _ IH]; [done |]. by rewrite filter_cons_False.
Qed.
Lemma filter_all {A} (P : A -> Prop) `{!forall x, Decision (P x)} (l : list A) :
  Forall P l -> filter P l = l.
Proof.
  induction 1 as [| x l Hx _ IH]; [done |]. by rewrite filter_cons_True, IH.
Qed.

Lemma filter_ext_Forall {A} (P Q : A -> Prop) `{!forall x, Decision (P x), !forall x, Decision (Q x)}
  (l : list A) : Forall (fun x => P x <-> Q x) l -> filter P l = filter Q l.
Proof.
  induction 1 as [| x l Hx _ IH]; [done |]. rewrite !filter_cons, IH.
  destruct (decide (P x)), (decide (Q x)); naive_solver.
Qed.

(** ** Bytes and integers *)
Lemma Z_of_byte_range b : 0 <= Z_of_byte b < 256.
Proof. unfold Z_of_byte. pose proof (Byte.to_N_bounded b). lia. Qed.

Lemma Z_of_byte_of_Z z : Z_of_byte (byte_of_Z z) = z mod 256.
Proof.
  unfold byte_of_Z, Z_of_byte. pose proof (Z.mod_pos_bound z 256 ltac:(lia)).
  destruct (Byte.of_N _) as [b |] eqn:E; simpl.
  - apply Byte.to_of_N in E. lia.
  - apply Byte.of_N_None_iff in E. lia.
Qed.

Lemma byte_of_Z_of_byte b : byte_of_Z (Z_of_byte b) = b.
Proof.
  unfold byte_of_Z. pose proof (Z_of_byte_range b). rewrite Z.mod_small by lia.
  unfold Z_of_byte. rewrite N2Z.id. by rewrite Byte.of_to_N.
Qed.

Lemma Z_of_byte_inj a b : Z_of_byte a = Z_of_byte b -> a = b.
Proof. intros H. by rewrite <- (byte_of_Z_of_byte a), H, byte_of_Z_of_byte. Qed.

Lemma length_to_le n z : length (to_le n z) = n.
Proof. revert z. induction n; simpl; auto. Qed.
Lemma len_to_le n z : len (to_le n z) = Z.of_nat n.
Proof. unfold len. by rewrite length_to_le. Qed.
Lemma length_to_be n z : length (to_be n z) = n.
Proof. unfold to_be. rewrite length_reverse. apply length_to_le. Qed.
Lemma len_to_be n z : len (to_be n z) = Z.of_nat n.
Proof. unfold len. by rewrite length_to_be. Qed.
#[export] Hint Rewrite len_to_le len_to_be : len.

Lemma from_le_to_le n z : from_le (to_le n z) = z mod 256 ^ Z.of_nat n.
Proof.
  revert z. induction n as [| n IH]; intros z; simpl from_le.
  - by rewrite Z.mod_1_r.
  - rewrite Z_of_byte_of_Z, IH, Nat2Z.inj_succ, Z.pow_succ_r by lia.
    rewrite Z.rem_mul_r by lia. lia.
Qed.

Lemma from_le_bound bs : 0 <= from_le bs < 256 ^ len bs.
Proof.
  induction bs as [| b bs IH]; simpl; [done |].
  rewrite len_cons, Z.pow_add_r by (pose proof (len_nonneg bs); lia).
  pose proof (Z_of_byte_range b). lia.
Qed.

Lemma to_le_from_le bs n : length bs = n -> to_le n (from_le bs) = bs.
Proof.
  intros <-. induction bs as [| b bs IH]; simpl; [done |].
  pose proof (Z_of_byte_range b). f_equal.
  - apply Z_of_byte_inj. rewrite Z_of_byte_of_Z.
    rewrite Z.mul_comm, Z.mod_add by lia. by apply Z.mod_small.
  - rewrite Z.mul_comm, Z.div_add by lia. rewrite Z.div_small by lia. done.
Qed.

Lemma from_le_app a b : from_le (a ++ b) = from_le a + 256 ^ len a * from_le b.
Proof.
  induction a as [| x a IH]; cbn [from_le app]; [change (len (@nil byte)) with 0; lia |].
  rewrite IH, len_cons, Z.pow_add_r by (pose proof (len_nonneg a); lia). lia.
Qed.

Lemma from_le_inj a b : length a = length b -> from_le a = from_le b -> a = b.
Proof.
  intros Hl He. rewrite <- (to_le_from_le a _ eq_refl), He, Hl. by apply to_le_from_le.
Qed.

Lemma pow256 n : 256 ^ Z.of_nat n = 2 ^ (8 * Z.of_nat n).
Proof. rewrite Z.pow_mul_r by lia. done. Qed.

(** The round trip of an unsigned integer that fits. *)
Lemma from_le_to_le_id n z : in_u (8 * Z.of_nat n) z -> from_le (to_le n z) = z.
Proof.
  intros H. rewrite from_le_to_le, pow256. unfold in_u in H. by apply Z.mod_small.
Qed.

Lemma from_be_to_be n z : from_be (to_be n z) = z mod 256 ^ Z.of_nat n.
Proof. unfold from_be, to_be. rewrite reverse_involutive. apply from_le_to_le. Qed.
Lemma from_be_to_be_id n z : in_u (8 * Z.of_nat n) z -> from_be (to_be n z) = z.
Proof. intros. unfold from_be, to_be. rewrite reverse_involutive. by apply from_le_to_le_id. Qed.

Lemma wraps_wrapu w z : 0 < w -> in_s w z -> wraps w (wrapu w z) = z.
Proof.
  intros Hw [H1 H2]. unfold wraps, wrapu.
  assert (2 ^ w = 2 * 2 ^ (w - 1)) by (rewrite <- Z.pow_succ_r by lia; f_equal; lia).
  rewrite Zplus_mod_idemp_l. rewrite Z.mod_small; lia.
Qed.

Lemma wrapu_range w z : 0 <= w -> in_u w (wrapu w z).
Proof. intros. apply Z.mod_pos_bound. lia. Qed.

Lemma wraps_range w z : 0 < w -> in_s w (wraps w z).
Proof.
  intros. unfold in_s, wraps. pose proof (Z.mod_pos_bound (z + 2 ^ (w - 1)) (2 ^ w) ltac:(lia)).
  assert (2 ^ w = 2 * 2 ^ (w - 1)) by (rewrite <- Z.pow_succ_r by lia; f_equal; lia). lia.
Qed.

(** ** The lexicographic order *)
Lemma byte_compare_eq a b : byte_compare a b = Eq <-> a = b.
Proof.
  unfold byte_compare. rewrite Z.compare_eq_iff. split; [apply Z_of_byte_inj | by intros ->].
Qed.

Lemma lex_compare_eq a b : lex_compare a b = Eq <-> a = b.
Proof.
  revert b. induction a as [| x a IH]; intros [| y b]; simpl; try done.
  destruct (byte_compare x y) eqn:E.
  - apply byte_compare_eq in E as ->. rewrite IH. naive_solver.
  - split; [done |]. intros [= -> ->]. by rewrite (proj2 (byte_compare_eq y y) eq_refl) in E.
  - split; [done |]. intros [= -> ->]. by rewrite (proj2 (byte_compare_eq y y) eq_refl) in E.
Qed.

Lemma lex_compare_refl a : lex_compare a a = Eq.
Proof. by apply lex_compare_eq. Qed.

Lemma lex_compare_antisym a b : lex_compare b a = CompOpp (lex_compare a b).
Proof.
  revert b. induction a as [| x a IH]; intros [| y b]; simpl; try done.
  unfold byte_compare. rewrite (Z.compare_antisym (Z_of_byte x)).
  destruct (Z_of_byte x ?= Z_of_byte y); simpl; auto.
Qed.

Lemma lex_compare_trans a b c :
  lex_compare a b = Lt -> lex_compare b c = Lt -> lex_compare a c = Lt.
Proof.
  revert b c. induction a as [| x a IH]; intros [| y b] [| z c]; simpl; try done.
  destruct (byte_compare x y) eqn:E1, (byte_compare y z) eqn:E2; try done;
    repeat match goal with H : byte_compare _ _ = Eq |- _ => apply byte_compare_eq in H as -> end;
    rewrite ?E1, ?E2, ?(proj2 (byte_compare_eq z z) eq_refl); eauto.
  unfold byte_compare in *. rewrite Z.compare_lt_iff in *.
  rewrite (proj2 (Z.compare_lt_iff _ _)) by lia. done.
Qed.

Lemma lex_compare_app_l p a b : lex_compare (p ++ a) (p ++ b) = lex_compare a b.
Proof.
  induction p as [| x p IH]; simpl; [done |].
  by rewrite (proj2 (byte_compare_eq x x) eq_refl).
Qed.

(** Appending to strings of equal length: the first difference decides. *)
Lemma lex_compare_app a b c d :
  length a = length b ->
  lex_compare (a ++ c) (b ++ d) = match lex_compare a b with Eq => lex_compare c d | r => r end.
Proof.
  revert b. induction a as [| x a IH]; intros [| y b]; simpl; try done.
  intros [= H]. rewrite IH by done. by destruct (byte_compare x y).
Qed.

(** Big-endian encoding turns the order of unsigned integers into the byte order. *)
Lemma lex_compare_reverse_from_le a b :
  length a = length b ->
  lex_compare (reverse a) (reverse b) = Z.compare (from_le a) (from_le b).
Proof.
  revert b. induction a as [| x a IH]; intros [| y b]; simpl; try done.
  intros [= H]. rewrite !reverse_cons, lex_compare_app by (rewrite !length_reverse; lia).
  rewrite IH by done. pose proof (Z_of_byte_range x); pose proof (Z_of_byte_range y).
  simpl. unfold byte_compare.
  destruct (Z.compare_spec (from_le a) (from_le b)) as [-> | |]; symmetry.
  - destruct (Z.compare_spec (Z_of_byte x) (Z_of_byte y)) as [-> | |].
    + apply Z.compare_refl.
    + apply Z.compare_lt_iff. lia.
    + apply Z.compare_gt_iff. lia.
  - apply Z.compare_lt_iff. lia.
  - apply Z.compare_gt_iff. lia.
Qed.

Lemma lex_compare_to_be n a b :
  in_u (8 * Z.of_nat n) a -> in_u (8 * Z.of_nat n) b ->
  lex_compare (to_be n a) (to_be n b) = Z.compare a b.
Proof.
  intros. unfold to_be. rewrite lex_compare_reverse_from_le by (by rewrite !length_to_le).
  by rewrite !from_le_to_le_id.
Qed.

(** ** Bit operations at a width *)
(** [!x] on a [w]-bit unsigned integer *)
Definition notu (w z : Z) : Z := Z.lxor z (Z.ones w).

Lemma land_pow2 z k : 0 <= k -> Z.land z (2 ^ k) = if Z.testbit z k then 2 ^ k else 0.
Proof.
  intros Hk. apply Z.bits_inj'. intros n Hn. rewrite Z.land_spec, Z.pow2_bits_eqb by done.
  destruct (Z.eqb_spec k n) as [-> | Hne].
  - rewrite andb_true_r. destruct (Z.testbit z n).
    + symmetry. by apply Z.pow2_bits_true.
    + by rewrite Z.bits_0.
  - rewrite andb_false_r. destruct (Z.testbit z k).
    + symmetry. by apply Z.pow2_bits_false.
    + by rewrite Z.bits_0.
Qed.

Lemma land_pow2_nonzero z k : 0 <= k -> negb (Z.land z (2 ^ k) =? 0) = Z.testbit z k.
Proof.
  intros Hk. rewrite land_pow2 by done. destruct (Z.testbit z k); [| done].
  by destruct (Z.eqb_spec (2 ^ k) 0); [lia |].
Qed.

Lemma testbit_small z k n : 0 <= z < 2 ^ k -> 0 <= k <= n -> Z.testbit z n = false.
Proof.
  intros Hz Hk. rewrite <- (Z.mod_small z (2 ^ k)) by done. by apply Z.mod_pow2_bits_high.
Qed.

Lemma testbit_top z w : 0 <= w -> in_u (w + 1) z -> Z.testbit z w = (2 ^ w <=? z).
Proof.
  intros Hw [H1 H2]. rewrite Z.pow_add_r in H2 by lia.
  rewrite Z.testbit_odd, Z.shiftr_div_pow2 by done.
  destruct (Z.leb_spec (2 ^ w) z).
  - replace (z / 2 ^ w) with 1; [done |]. apply (Z.div_unique _ _ _ (z - 2 ^ w)); lia.
  - by rewrite Z.div_small.
Qed.

(** Flipping the top bit shifts the range by half. *)
Lemma lxor_top z w :
  0 <= w -> in_u (w + 1) z ->
  Z.lxor z (2 ^ w) = if 2 ^ w <=? z then z - 2 ^ w else z + 2 ^ w.
Proof.
  intros Hw Hz.
  assert (Hsmall : forall y, 0 <= y < 2 ^ w -> Z.lxor y (2 ^ w) = y + 2 ^ w).
  { intros y Hy. symmetry. apply Z.add_nocarry_lxor. rewrite land_pow2 by done.
    by rewrite (testbit_small y w w) by lia. }
  pose proof Hz as [H1 H2]. rewrite Z.pow_add_r in H2 by lia.
  destruct (Z.leb_spec (2 ^ w) z).
  - replace z with ((z - 2 ^ w) + 2 ^ w) at 1 by lia.
    rewrite <- Hsmall by lia. rewrite Z.lxor_assoc, Z.lxor_nilpotent. apply Z.lxor_0_r.
  - apply Hsmall. lia.
Qed.

Lemma lor_top z w : 0 <= w -> 0 <= z < 2 ^ w -> Z.lor z (2 ^ w) = z + 2 ^ w.
Proof.
  intros Hw Hz. assert (Hland : Z.land z (2 ^ w) = 0).
  { rewrite land_pow2 by done. by rewrite (testbit_small z w w) by lia. }
  rewrite <- Z.lxor_lor by done. symmetry. by apply Z.add_nocarry_lxor.
Qed.

Lemma notu_spec w z : 0 <= w -> in_u w z -> notu w z = 2 ^ w - 1 - z.
Proof.
  intros Hw [H1 H2]. unfold notu.
  assert (Hx : Z.lxor z (Z.ones w) = Z.ldiff (Z.ones w) z).
  { apply Z.bits_inj'. intros n Hn. rewrite Z.lxor_spec, Z.ldiff_spec.
    destruct (Z.ltb_spec n w).
    - rewrite Z.ones_spec_low by lia. by destruct (Z.testbit z n).
    - rewrite Z.ones_spec_high by lia. by rewrite (testbit_small z w n) by lia. }
  rewrite Hx, <- Z.sub_nocarry_ldiff.
  - rewrite Z.ones_equiv. lia.
  - apply Z.bits_inj'. intros n Hn. rewrite Z.ldiff_spec, Z.bits_0.
    destruct (Z.ltb_spec n w).
    + rewrite Z.ones_spec_low by lia. by rewrite andb_false_r.
    + by rewrite (testbit_small z w n) by lia.
Qed.

Lemma compare_add_r a b c : Z.compare (a + c) (b + c) = Z.compare a b.
Proof. rewrite !(Z.add_comm _ c). apply Z.add_compare_mono_l. Qed.

(** The unsigned value of a signed integer. *)
Lemma wrapu_signed w z :
  0 < w -> in_s w z -> wrapu w z = if z <? 0 then z + 2 ^ w else z.
Proof.
  intros Hw [H1 H2]. unfold wrapu.
  assert (2 ^ w = 2 * 2 ^ (w - 1)) by (rewrite <- Z.pow_succ_r by lia; f_equal; lia).
  destruct (Z.ltb_spec z 0).
  - symmetry. apply (Z.mod_unique _ _ (-1)); lia.
  - apply Z.mod_small. lia.
Qed.

#[global] Arguments to_le : simpl never.
#[global] Arguments to_be : simpl never.
#[global] Arguments from_le : simpl never.
#[global] Arguments from_be : simpl never.
#[global] Arguments len : simpl never.
#[global] Arguments sub : simpl never.
#[global] Arguments splice : simpl never.

(** ** Outcomes that are not panics *)
(** An outcome that is never a panic and, when it succeeds, satisfies [Q] *)
Definition no_panic {E A} (m : outcome E A) (Q : A -> Prop) : Prop :=
  match m with Ok a => Q a | Err _ => True | Panic => False end.

Lemma no_panic_bind {E A B} (m : outcome E A) (k : A -> outcome E B) Q R :
  no_panic m Q -> (forall a, Q a -> no_panic (k a) R) -> no_panic (m ≫= k) R.
Proof. destruct m; simpl; auto. Qed.
Lemma no_panic_mono {E A} (m : outcome E A) (Q R : A -> Prop) :
  no_panic m Q -> (forall a, Q a -> R a) -> no_panic m R.
Proof. destruct m; simpl; auto. Qed.
Lemma no_panic_ok_or {E A} (o : option A) (e : E) : no_panic (ok_or o e) (fun a => o = Some a).
Proof. by destruct o. Qed.

(** ** The order of byte strings, as relations *)
Definition blt (a b : bytes) : Prop := lex_compare a b = Lt.
Definition ble (a b : bytes) : Prop := lex_compare a b <> Gt.

Lemma ble_lt_eq a b : ble a b <-> blt a b \/ a = b.
Proof.
  unfold ble, blt. rewrite <- lex_compare_eq. destruct (lex_compare a b); intuition congruence.
Qed.
Lemma not_blt a b : ~ blt a b <-> ble b a.
Proof.
  unfold ble, blt. rewrite (lex_compare_antisym a b). destruct (lex_compare a b); simpl; intuition congruence.
Qed.
Lemma blt_trans a b c : blt a b -> blt b c -> blt a c.
Proof. apply lex_compare_trans. Qed.
Lemma ble_blt_trans a b c : ble a b -> blt b c -> blt a c.
Proof. rewrite ble_lt_eq. intros [? | ->]; [by apply blt_trans | done]. Qed.
Lemma blt_ble_trans a b c : blt a b -> ble b c -> blt a c.
Proof. rewrite ble_lt_eq. intros ? [? | <-]; [by eapply blt_trans | done]. Qed.
Lemma ble_trans a b c : ble a b -> ble b c -> ble a c.
Proof.
  intros H1 H2. rewrite ble_lt_eq in *. destruct H1 as [? | ->]; [left | done].
  destruct H2 as [? | <-]; [by eapply blt_trans | done].
Qed.
Lemma blt_ble a b : blt a b -> ble a b.
Proof. rewrite ble_lt_eq. auto. Qed.
Lemma ble_refl a : ble a a.
Proof. rewrite ble_lt_eq. auto. Qed.
Lemma blt_irrefl a : ~ blt a a.
Proof. unfold blt. by rewrite lex_compare_refl. Qed.

(** ** Specifications of stateful code

    [spec m s Q R]: from state [s], [m] does not panic; when it succeeds its result and the state
    after it satisfy [Q], and when it reports an error the state after it satisfies [R]. *)
Definition spec {S E A} (m : M S E A) (s : S) (Q : A -> S -> Prop) (R : S -> Prop) : Prop :=
  match m s with
  | (Ok a, s') => Q a s'
  | (Err _, s') => R s'
  | (Panic, _) => False
  end.

Lemma spec_bind {S E A B} (m : M S E A) (k : A -> M S E B) s Q R Q' :
  spec m s Q R -> (forall a s', Q a s' -> spec (k a) s' Q' R) -> spec (m ≫= k) s Q' R.
Proof.
  unfold spec, mbind, M_bind. destruct (m s) as [[a | e |] s']; [| done..]. intros HQ Hk. by apply Hk.
Qed.

Lemma spec_mono {S E A} (m : M S E A) s (Q Q' : A -> S -> Prop) (R R' : S -> Prop) :
  spec m s Q R -> (forall a s', Q a s' -> Q' a s') -> (forall s', R s' -> R' s') -> spec m s Q' R'.
Proof. unfold spec. destruct (m s) as [[a | e |] s']; auto. Qed.

Lemma spec_ret {S E A} (a : A) (s : S) (Q : A -> S -> Prop) R :
  Q a s -> spec (E := E) (mret a) s Q R.
Proof. done. Qed.

Lemma spec_lift {S E A} (o : outcome E A) (s : S) (Q : A -> S -> Prop) R :
  no_panic o (fun a => Q a s) -> R s -> spec (lift o) s Q R.
Proof. unfold spec, lift. by destruct o. Qed.

Lemma spec_throw {S E A} (e : E) (s : S) (Q : A -> S -> Prop) (R : S -> Prop) : R s -> spec (throw e) s Q R.
Proof. done. Qed.
