(* ===== verification/Text.v ===== *)
(** * Text: formatting and parsing of ASCII

    What the program uses of the standard library's formatting of integers, parsing of digits
    and classification of ASCII bytes, with the round trips between them. *)
From S2P Require Import Prelude.

(** ** ASCII *)
Definition between (lo hi : Z) (b : byte) : bool := (lo <=? Z_of_byte b) && (Z_of_byte b <=? hi).
Definition is_ascii_digit (b : byte) : bool := between 48 57 b.
Definition is_ascii_lowercase (b : byte) : bool := between 97 122 b.
Definition is_ascii_uppercase (b : byte) : bool := between 65 90 b.
Definition is_ascii_alphabetic (b : byte) : bool := is_ascii_lowercase b || is_ascii_uppercase b.
Definition is_ascii_alphanumeric (b : byte) : bool := is_ascii_alphabetic b || is_ascii_digit b.
(** space, tab, line feed, form feed, carriage return *)
Definition is_ascii_whitespace (b : byte) : bool :=
  bool_decide (Z_of_byte b ∈ [32; 9; 10; 12; 13]).
Definition ascii_lower (b : byte) : byte :=
  if is_ascii_uppercase b then byte_of_Z (Z_of_byte b + 32) else b.
Definition ascii_upper (b : byte) : byte :=
  if is_ascii_lowercase b then byte_of_Z (Z_of_byte b - 32) else b.
Definition to_ascii_uppercase (s : bytes) : bytes := ascii_upper <$> s.
Definition eq_ignore_ascii_case (a b : bytes) : bool :=
  bool_decide (ascii_lower <$> a = ascii_lower <$> b).

(** ** Formatting of unsigned integers, [{}] and [{:#010x}] *)
Fixpoint digits (base : Z) (digit : Z -> byte) (fuel : nat) (z : Z) (acc : bytes) : bytes :=
  match fuel with
  | O => acc
  | S fuel =>
      let acc := digit (z mod base) :: acc in
      if z <? base then acc else digits base digit fuel (z / base) acc
  end.
Definition dec_digit (z : Z) : byte := byte_of_Z (48 + z).
Definition hex_digit (z : Z) : byte := byte_of_Z (if z <? 10 then 48 + z else 87 + z).
(** Twenty digits hold every [u64]. *)
Definition fmt_u (z : Z) : bytes := digits 10 dec_digit 20 z [].
Definition pad0 (n : nat) (s : bytes) : bytes := replicate (n - length s) (byte_of_Z 48) ++ s.
Definition fmt_hex010 (z : Z) : bytes := str "0x" ++ pad0 8 (digits 16 hex_digit 16 z []).

(** [str::parse] on a string of digits, before its range check *)
Definition parse_digits (s : bytes) : Z := fold_left (fun a b => 10 * a + (Z_of_byte b - 48)) s 0.

(** ** Round trips *)
Definition parse_from (a : Z) (s : bytes) : Z := fold_left (fun a b => 10 * a + (Z_of_byte b - 48)) s a.

Lemma dec_digit_value z : 0 <= z < 10 -> Z_of_byte (dec_digit z) = 48 + z.
Proof. intros. unfold dec_digit. rewrite Z_of_byte_of_Z. apply Z.mod_small. lia. Qed.

Lemma parse_digits_fmt fuel z acc :
  0 <= z < 10 ^ Z.of_nat fuel -> parse_from 0 (digits 10 dec_digit fuel z acc) = parse_from z acc.
Proof.
  revert z acc. induction fuel as [| fuel IH]; intros z acc Hz.
  - cbn [digits]. by replace z with 0 by (change (10 ^ Z.of_nat 0) with 1 in Hz; lia).
  - cbn [digits]. pose proof (Z.div_mod z 10 ltac:(lia)). pose proof (Z.mod_pos_bound z 10 ltac:(lia)).
    destruct (Z.ltb_spec z 10).
    + unfold parse_from. cbn [fold_left]. rewrite dec_digit_value by lia. f_equal.
      rewrite Z.mod_small; lia.
    + rewrite IH.
      * unfold parse_from. cbn [fold_left]. rewrite dec_digit_value by lia. f_equal. lia.
      * rewrite Nat2Z.inj_succ, Z.pow_succ_r in Hz by lia. split; [apply Z.div_pos; lia |].
        apply Z.div_lt_upper_bound; lia.
Qed.

Lemma length_digits_le fuel z acc k :
  0 <= z < 10 ^ Z.of_nat (S k) -> (length (digits 10 dec_digit fuel z acc) <= S k + length acc)%nat.
Proof.
  revert z acc k. induction fuel as [| fuel IH]; intros z acc k Hz; cbn [digits]; [lia |].
  destruct (Z.ltb_spec z 10); [simpl; lia |]. destruct k as [| k].
  { change (10 ^ Z.of_nat 1) with 10 in Hz. lia. }
  etransitivity; [apply (IH (z / 10) _ k) | simpl; lia].
  rewrite (Nat2Z.inj_succ (S k)), Z.pow_succ_r in Hz by lia.
  split; [apply Z.div_pos; lia | apply Z.div_lt_upper_bound; lia].
Qed.

Lemma length_digits_ge fuel z acc k :
  10 ^ Z.of_nat k <= z < 10 ^ Z.of_nat fuel ->
  (S k + length acc <= length (digits 10 dec_digit fuel z acc))%nat.
Proof.
  revert z acc k. induction fuel as [| fuel IH]; intros z acc k Hz; cbn [digits].
  { change (10 ^ Z.of_nat 0) with 1 in Hz. pose proof (Z.pow_pos_nonneg 10 (Z.of_nat k)). lia. }
  rewrite Nat2Z.inj_succ, Z.pow_succ_r in Hz by lia.
  destruct k as [| k].
  - destruct (Z.ltb_spec z 10); [simpl; lia |].
    etransitivity; [| apply (IH (z / 10) _ 0%nat)]; [simpl; lia |].
    change (10 ^ Z.of_nat 0) with 1.
    split; [apply Z.div_le_lower_bound; lia | apply Z.div_lt_upper_bound; lia].
  - rewrite Nat2Z.inj_succ, Z.pow_succ_r in Hz by lia.
    pose proof (Z.pow_pos_nonneg 10 (Z.of_nat k)).
    destruct (Z.ltb_spec z 10); [lia |].
    etransitivity; [| apply (IH (z / 10) _ k)]; [simpl; lia |].
    split; [apply Z.div_le_lower_bound; lia | apply Z.div_lt_upper_bound; lia].
Qed.

Lemma digits_are_digits fuel z acc :
  0 <= z -> forallb is_ascii_digit acc = true ->
  forallb is_ascii_digit (digits 10 dec_digit fuel z acc) = true.
Proof.
  revert z acc. induction fuel as [| fuel IH]; intros z acc Hz Ha; cbn [digits]; [done |].
  pose proof (Z.mod_pos_bound z 10 ltac:(lia)).
  assert (forallb is_ascii_digit (dec_digit (z mod 10) :: acc) = true).
  { cbn [forallb]. rewrite Ha, andb_true_r. unfold is_ascii_digit, between. rewrite dec_digit_value by lia. lia. }
  destruct (z <? 10); [done |]. apply IH; [apply Z.div_pos; lia | done].
Qed.

Lemma parse_zeroes n s : parse_from 0 (replicate n (byte_of_Z 48) ++ s) = parse_from 0 s.
Proof. induction n; [done |]. cbn [replicate app]. unfold parse_from in *. cbn [fold_left]. done. Qed.

Lemma forallb_zeroes n : forallb is_ascii_digit (replicate n (byte_of_Z 48)) = true.
Proof. induction n; [done |]. simpl. rewrite IHn. reflexivity. Qed.
