(* ===== verification/Value.v ===== *)
(** * SQL values: crates/types (data_type.rs, value.rs)

    [DataType] and [Value] with the source's constructors, UTF-8 validity of a
    Rust [String], IEEE-754 doubles kept as their 64-bit pattern, and the
    three-valued [Value::compare]. *)
From Stdlib Require Import SpecFloat.
From S2P Require Import Prelude.

Module DataType.
Inductive t : Type :=
| Boolean
| Integer
| BigInt
| Double
| Varchar (n : Z).

Definition fixed_width (d : t) : option Z :=
  match d with
  | Boolean => Some 1
  | Integer => Some 4
  | BigInt => Some 8
  | Double => Some 8
  | Varchar _ => None
  end.

#[global] Instance eq_dec : EqDecision t.
Proof. solve_decision. Defined.
End DataType.

(** ** Rust strings

    A [String] is a byte vector that is valid UTF-8; [from_utf8] is the check
    [String::from_utf8] makes. *)
Module Utf8.
Definition between (lo hi : Z) (b : byte) : bool :=
  (lo <=? Z_of_byte b) && (Z_of_byte b <=? hi).
Definition cont (b : byte) : bool := between 128 191 b.

Definition second_of_three (b0 b1 : byte) : bool :=
  (between 224 224 b0 && between 160 191 b1)
  || (between 225 236 b0 && cont b1)
  || (between 237 237 b0 && between 128 159 b1)
  || (between 238 239 b0 && cont b1).
Definition second_of_four (b0 b1 : byte) : bool :=
  (between 240 240 b0 && between 144 191 b1)
  || (between 241 243 b0 && cont b1)
  || (between 244 244 b0 && between 128 143 b1).

Fixpoint valid (bs : bytes) : bool :=
  match bs with
  | [] => true
  | b0 :: r0 =>
      if Z_of_byte b0 <? 128 then valid r0
      else match r0 with
      | [] => false
      | b1 :: r1 =>
          if between 194 223 b0 then cont b1 && valid r1
          else match r1 with
          | [] => false
          | b2 :: r2 =>
              if between 224 239 b0 then second_of_three b0 b1 && cont b2 && valid r2
              else match r2 with
              | [] => false
              | b3 :: r3 =>
                  if between 240 244 b0
                  then second_of_four b0 b1 && cont b2 && cont b3 && valid r3
                  else false
              end
          end
      end
  end.

Definition from_utf8 (bs : bytes) : option bytes := if valid bs then Some bs else None.
End Utf8.

(** ** [f64]

    A double is its bit pattern ([to_bits]/[from_bits] are the identity on the
    model); its meaning is the [spec_float] the pattern denotes, and comparison is
    the IEEE comparison of those. *)
Module F64.
Definition sign (b : Z) : bool := Z.testbit b 63.
Definition expo (b : Z) : Z := (b / 2 ^ 52) mod 2 ^ 11.
Definition frac (b : Z) : Z := b mod 2 ^ 52.

Definition to_spec (b : Z) : spec_float :=
  if expo b =? 2047 then
    if frac b =? 0 then S754_infinity (sign b) else S754_nan
  else if expo b =? 0 then
    match frac b with
    | Zpos m => S754_finite (sign b) m (-1074)
    | _ => S754_zero (sign b)
    end
  else match frac b + 2 ^ 52 with
       | Zpos m => S754_finite (sign b) m (expo b - 1075)
       | _ => S754_nan
       end.

Definition is_nan (b : Z) : bool :=
  match to_spec b with S754_nan => true | _ => false end.
Definition partial_cmp (a b : Z) : option comparison := SFcompare (to_spec a) (to_spec b).
(** [a == b] on floats *)
Definition eqb (a b : Z) : bool :=
  match partial_cmp a b with Some Eq => true | _ => false end.
Definition zero : Z := 0.
End F64.

Module Value.
Inductive t : Type :=
| Null
| Boolean (b : bool)
| Integer (v : Z)
| BigInt (v : Z)
| Double (bits : Z)
| Varchar (s : bytes).

(** What the Rust types guarantee of a value. *)
Definition wf (v : t) : Prop :=
  match v with
  | Null | Boolean _ => True
  | Integer v => in_s 32 v
  | BigInt v => in_s 64 v
  | Double b => in_u 64 b
  | Varchar s => Utf8.valid s = true
  end.

Definition data_type (v : t) : option DataType.t :=
  match v with
  | Null => None
  | Boolean _ => Some DataType.Boolean
  | Integer _ => Some DataType.Integer
  | BigInt _ => Some DataType.BigInt
  | Double _ => Some DataType.Double
  | Varchar s => Some (DataType.Varchar (wrapu 32 (len s)))
  end.

Definition is_null (v : t) : bool := match v with Null => true | _ => false end.

Definition type_name (v : t) : bytes :=
  match v with
  | Null => str "Null"
  | Boolean _ => str "Boolean"
  | Integer _ => str "Integer"
  | BigInt _ => str "BigInt"
  | Double _ => str "Double"
  | Varchar _ => str "Varchar"
  end.

(** [value.rs: ValueError]; a [reason] is kept as the message's bytes. *)
Inductive Error : Type :=
| TypeMismatch (lhs rhs : bytes)
| UnorderableValue (reason : bytes)
| InvalidEncoding (reason : bytes).

Definition bool_cmp (a b : bool) : comparison :=
  match a, b with
  | false, true => Lt
  | true, false => Gt
  | _, _ => Eq
  end.

Definition compare (a b : t) : outcome Error (option comparison) :=
  if is_null a || is_null b then Ok None else
  match a, b with
  | Boolean a, Boolean b => Ok (Some (bool_cmp a b))
  | Integer a, Integer b => Ok (Some (Z.compare a b))
  | BigInt a, BigInt b => Ok (Some (Z.compare a b))
  | Double a, Double b => Ok (F64.partial_cmp a b)
  | Varchar a, Varchar b => Ok (Some (lex_compare a b))
  | _, _ => Err (TypeMismatch (type_name a) (type_name b))
  end.

(** A value a column of type [d] may hold: the declared length of a [Varchar] is
    not part of the check, as the codec ignores it. *)
Definition has_type (d : DataType.t) (v : t) : bool :=
  match v, d with
  | Null, _ => true
  | Boolean _, DataType.Boolean => true
  | Integer _, DataType.Integer => true
  | BigInt _, DataType.BigInt => true
  | Double _, DataType.Double => true
  | Varchar _, DataType.Varchar _ => true
  | _, _ => false
  end.

#[global] Instance eq_dec : EqDecision t.
Proof. solve_decision. Defined.

#[global] Instance wf_dec v : Decision (wf v).
Proof. destruct v; simpl; apply _. Defined.
End Value.

(** ** Facts about doubles *)
Module F64Facts.
Import F64.

Lemma expo_range b : 0 <= expo b < 2 ^ 11.
Proof. apply Z.mod_pos_bound. lia. Qed.
Lemma frac_range b : 0 <= frac b < 2 ^ 52.
Proof. apply Z.mod_pos_bound. lia. Qed.

(** A 64-bit pattern is its sign, exponent and fraction. *)
Lemma bits_split b :
  in_u 64 b -> b = (if sign b then 2 ^ 63 else 0) + expo b * 2 ^ 52 + frac b.
Proof.
  intros [H1 H2]. unfold sign, expo, frac.
  rewrite Z.testbit_odd, Z.shiftr_div_pow2 by lia.
  assert (Hq : 0 <= b / 2 ^ 63 < 2) by (split; [apply Z.div_pos; lia | apply Z.div_lt_upper_bound; lia]).
  assert (Hb : b / 2 ^ 52 = b / 2 ^ 63 * 2 ^ 11 + (b / 2 ^ 52) mod 2 ^ 11).
  { rewrite (Z.div_mod (b / 2 ^ 52) (2 ^ 11)) at 1 by lia.
    rewrite Z.div_div by lia. change (2 ^ 52 * 2 ^ 11) with (2 ^ 63). lia. }
  pose proof (Z.div_mod b (2 ^ 52) ltac:(lia)) as Hd.
  assert (b / 2 ^ 63 = 0 \/ b / 2 ^ 63 = 1) as [Hs | Hs] by lia; rewrite Hs in *; simpl Z.odd; lia.
Qed.

Lemma sign_false b : in_u 64 b -> sign b = false -> b < 2 ^ 63.
Proof.
  intros Hb Hs. pose proof (bits_split b Hb) as E. rewrite Hs in E.
  pose proof (expo_range b); pose proof (frac_range b). lia.
Qed.
Lemma sign_true b : in_u 64 b -> sign b = true -> 2 ^ 63 <= b.
Proof.
  intros Hb Hs. pose proof (bits_split b Hb) as E. rewrite Hs in E.
  pose proof (expo_range b); pose proof (frac_range b). lia.
Qed.

(** The magnitude of a pattern orders non-NaN doubles of one sign. *)
Definition mag (b : Z) : Z := expo b * 2 ^ 52 + frac b.

Lemma is_nan_spec b : is_nan b = (expo b =? 2047) && negb (frac b =? 0).
Proof.
  unfold is_nan, to_spec. pose proof (frac_range b). pose proof (expo_range b).
  destruct (expo b =? 2047) eqn:E1; simpl.
  - by destruct (frac b =? 0).
  - destruct (expo b =? 0).
    + destruct (frac b) eqn:E; [done | done | lia].
    + destruct (frac b + 2 ^ 52) eqn:E; [lia | done | lia].
Qed.

(** The signed magnitude: an integer whose order is the IEEE order. *)
Definition smag (b : Z) : Z := if sign b then - mag b else mag b.

Definition finite_key (m : positive) (e : Z) : Z := Zpos m + (e + 1074) * 2 ^ 52.

(** Every non-NaN pattern is an infinity, a zero or a canonical finite number. *)
Lemma to_spec_cases b :
  is_nan b = false ->
  (to_spec b = S754_infinity (sign b) /\ mag b = 2047 * 2 ^ 52)
  \/ (to_spec b = S754_zero (sign b) /\ mag b = 0)
  \/ (exists m e, to_spec b = S754_finite (sign b) m e /\ mag b = finite_key m e
        /\ -1074 <= e /\ Zpos m < 2 ^ 53 /\ (e = -1074 \/ 2 ^ 52 <= Zpos m)
        /\ 0 < mag b < 2047 * 2 ^ 52).
Proof.
  rewrite is_nan_spec. unfold to_spec, mag, finite_key. intros Hn.
  pose proof (frac_range b); pose proof (expo_range b).
  destruct (Z.eqb_spec (expo b) 2047) as [E | E]; simpl in Hn; to_prop.
  - left. rewrite Hn, E. simpl. done.
  - right. destruct (Z.eqb_spec (expo b) 0) as [E0 | E0].
    + destruct (frac b) as [| m | m] eqn:Ef; [left | right | lia].
      * rewrite E0. done.
      * exists m, (-1074). rewrite E0. repeat split; try lia.
    + right. destruct (frac b + 2 ^ 52) as [| m | m] eqn:Ef; try lia.
      exists m, (expo b - 1075). repeat split; lia.
Qed.

Lemma finite_key_compare m1 e1 m2 e2 :
  -1074 <= e1 -> -1074 <= e2 -> Zpos m1 < 2 ^ 53 -> Zpos m2 < 2 ^ 53 ->
  (e1 = -1074 \/ 2 ^ 52 <= Zpos m1) -> (e2 = -1074 \/ 2 ^ 52 <= Zpos m2) ->
  Z.compare (finite_key m1 e1) (finite_key m2 e2) =
    match Z.compare e1 e2 with Eq => Pos.compare m1 m2 | c => c end.
Proof.
  unfold finite_key. intros. destruct (Z.compare_spec e1 e2) as [-> | |].
  - change (Pos.compare m1 m2) with (Z.compare (Zpos m1) (Zpos m2)).
    destruct (Z.compare_spec (Zpos m1) (Zpos m2)) as [-> | |].
    + apply Z.compare_refl.
    + apply Z.compare_lt_iff. lia.
    + apply Z.compare_gt_iff. lia.
  - apply Z.compare_lt_iff. lia.
  - apply Z.compare_gt_iff. lia.
Qed.

Lemma compare_opp a b : Z.compare (- a) (- b) = CompOpp (Z.compare a b).
Proof. rewrite Z.compare_opp. apply Z.compare_antisym. Qed.

Ltac solve_compare :=
  symmetry; first [ apply Z.compare_refl | apply Z.compare_lt_iff; lia
                  | apply Z.compare_gt_iff; lia | apply Z.compare_eq_iff; lia ].

(** The IEEE comparison of non-NaN doubles is the order of signed magnitudes. *)
Lemma partial_cmp_smag a b :
  is_nan a = false -> is_nan b = false ->
  partial_cmp a b = Some (Z.compare (smag a) (smag b)).
Proof.
  intros Ha Hb. unfold partial_cmp, smag.
  destruct (to_spec_cases a Ha) as [[-> Ea] | [[-> Ea] | (m1 & e1 & -> & Ea & ? & ? & ? & ?)]],
           (to_spec_cases b Hb) as [[-> Eb] | [[-> Eb] | (m2 & e2 & -> & Eb & ? & ? & ? & ?)]];
    cbn [SFcompare]; destruct (sign a), (sign b); f_equal; try solve_compare.
  all: rewrite Ea, Eb, ?compare_opp, finite_key_compare by done.
  all: by destruct (Z.compare e1 e2).
Qed.

Lemma partial_cmp_nan a b :
  is_nan a || is_nan b = true -> partial_cmp a b = None.
Proof.
  unfold is_nan, partial_cmp. intros H.
  destruct (to_spec a), (to_spec b); simpl in *; done.
Qed.

Lemma is_nan_zero : is_nan zero = false.
Proof. reflexivity. Qed.

Lemma mag_smag_zero : smag zero = 0.
Proof. reflexivity. Qed.

(** [v == 0.0] holds exactly of the two zeros. *)
Lemma eqb_zero b : eqb b zero = (mag b =? 0).
Proof.
  unfold eqb. destruct (is_nan b) eqn:En.
  - rewrite partial_cmp_nan by (by rewrite En). rewrite is_nan_spec in En. to_prop.
    unfold mag. pose proof (frac_range b). lia.
  - rewrite partial_cmp_smag, mag_smag_zero by done. unfold smag.
    destruct (Z.compare_spec (if sign b then - mag b else mag b) 0); destruct (sign b); lia.
Qed.
End F64Facts.

(** ** Facts about comparison *)
Section compare_facts.
Import Value.

(** [compare] errs exactly when both sides are values of different types. *)
Lemma compare_err a b :
  (exists e, compare a b = Err e) <->
  is_null a = false /\ is_null b = false /\ type_name a <> type_name b.
Proof.
  split.
  - intros [e H]. destruct a, b; simpl in *; try done; repeat split; done.
  - intros (H1 & H2 & H3). destruct a, b; simpl in *; try done; by eexists.
Qed.

Lemma compare_null a b : is_null a || is_null b = true -> compare a b = Ok None.
Proof. unfold compare. by intros ->. Qed.

Lemma compare_refl v :
  is_null v = false -> (forall b, v = Double b -> F64.is_nan b = false) ->
  compare v v = Ok (Some Eq).
Proof.
  intros Hn Hd. destruct v as [| b | | | |]; try done; unfold compare; cbn [is_null orb].
  - by destruct b.
  - by rewrite Z.compare_refl.
  - by rewrite Z.compare_refl.
  - rewrite F64Facts.partial_cmp_smag, Z.compare_refl by auto. done.
  - by rewrite lex_compare_refl.
Qed.
End compare_facts.
