(* ===== verification/Memcomparable.v ===== *)
(** * Order-preserving keys: crates/types/src/memcomparable.rs

    The byte encoding index keys are compared under, its decoder, and the proof
    that byte order is value order. *)
From S2P Require Import Prelude Value.

Definition NULL_TAG : byte := byte_of_Z 0.
Definition VALUE_TAG : byte := byte_of_Z 1.
Definition SIGN_BIT_32 : Z := 2 ^ 31.
Definition SIGN_BIT_64 : Z := 2 ^ 63.

Definition order_preserving_bits (v : Z) : Z :=
  let v := if F64.eqb v F64.zero then F64.zero else v in
  if negb (Z.land v SIGN_BIT_64 =? 0) then notu 64 v else Z.lor v SIGN_BIT_64.

Definition nan_reason : bytes :=
  str "NaN cannot be encoded as a memcomparable key: it has no defined ordering".

(** [encode_memcomparable(&self, buf)]: the buffer after the call. *)
Definition encode_memcomparable (v : Value.t) (buf : bytes) : outcome Value.Error bytes :=
  match v with
  | Value.Null => Ok (buf ++ [NULL_TAG])
  | Value.Boolean v => Ok (buf ++ [VALUE_TAG] ++ [byte_of_Z (Z.b2z v)])
  | Value.Integer v =>
      Ok (buf ++ [VALUE_TAG] ++ to_be 4 (Z.lxor (wrapu 32 v) SIGN_BIT_32))
  | Value.BigInt v =>
      Ok (buf ++ [VALUE_TAG] ++ to_be 8 (Z.lxor (wrapu 64 v) SIGN_BIT_64))
  | Value.Double v =>
      if F64.is_nan v then Err (Value.UnorderableValue nan_reason)
      else Ok (buf ++ [VALUE_TAG] ++ to_be 8 (order_preserving_bits v))
  | Value.Varchar s => Ok (buf ++ [VALUE_TAG] ++ s)
  end.

(** [{:#04x}] of a byte *)
Definition hex_digit (z : Z) : byte := byte_of_Z (if z <? 10 then 48 + z else 87 + z).
Definition hex04 (b : byte) : bytes :=
  str "0x" ++ [hex_digit (Z_of_byte b / 16); hex_digit (Z_of_byte b mod 16)].

Definition read_be_u32 (bs : bytes) : option Z := b ← sub bs 0 4; Some (from_be b).
Definition read_be_u64 (bs : bytes) : option Z := b ← sub bs 0 8; Some (from_be b).

Definition invalid {A} (reason : bytes) : outcome Value.Error A :=
  Err (Value.InvalidEncoding reason).

Definition decode_memcomparable (bs : bytes) (d : DataType.t)
    : outcome Value.Error (Value.t * Z) :=
  match bs with
  | [] => invalid (str "empty buffer, expected a tag byte")
  | tag :: rest =>
    if decide (tag = NULL_TAG) then Ok (Value.Null, 1)
    else if decide (tag <> VALUE_TAG) then
      invalid (str "unknown tag byte " ++ hex04 tag ++ str ", expected "
               ++ hex04 NULL_TAG ++ str " or " ++ hex04 VALUE_TAG)
    else match d with
    | DataType.Boolean =>
        match rest with
        | [] => invalid (str "truncated boolean value")
        | b :: _ => Ok (Value.Boolean (negb (Z_of_byte b =? 0)), 2)
        end
    | DataType.Integer =>
        match read_be_u32 rest with
        | None => invalid (str "truncated integer value")
        | Some bits => Ok (Value.Integer (wraps 32 (Z.lxor bits SIGN_BIT_32)), 5)
        end
    | DataType.BigInt =>
        match read_be_u64 rest with
        | None => invalid (str "truncated bigint value")
        | Some bits => Ok (Value.BigInt (wraps 64 (Z.lxor bits SIGN_BIT_64)), 9)
        end
    | DataType.Double =>
        match read_be_u64 rest with
        | None => invalid (str "truncated double value")
        | Some bits =>
            let original := if negb (Z.land bits SIGN_BIT_64 =? 0)
                            then Z.land bits (notu 64 SIGN_BIT_64) else notu 64 bits in
            Ok (Value.Double original, 9)
        end
    | DataType.Varchar _ =>
        match Utf8.from_utf8 rest with
        | None => invalid (str "invalid utf-8 in varchar key")
        | Some s => Ok (Value.Varchar s, 1 + len s)
        end
    end
  end.

(** What a value becomes through a key: [-0.0] is normalised to [0.0]. *)
Definition key_canonical (v : Value.t) : Value.t :=
  match v with
  | Value.Double b => Value.Double (if F64.eqb b F64.zero then F64.zero else b)
  | v => v
  end.

Definition encodable (v : Value.t) : bool :=
  match v with Value.Double b => negb (F64.is_nan b) | _ => true end.

(** ** The integers under the bytes *)
Lemma flip_sign w z :
  0 < w -> in_s (w + 1) z -> Z.lxor (wrapu (w + 1) z) (2 ^ w) = z + 2 ^ w.
Proof.
  intros Hw Hz. rewrite lxor_top by (lia || apply wrapu_range; lia).
  rewrite wrapu_signed by (lia || done). destruct Hz as [H1 H2].
  replace (w + 1 - 1) with w in * by lia. rewrite Z.pow_add_r by lia.
  destruct (Z.ltb_spec z 0); zcase; lia.
Qed.

Lemma unflip_sign w z :
  0 < w -> in_s (w + 1) z -> wraps (w + 1) (Z.lxor (z + 2 ^ w) (2 ^ w)) = z.
Proof.
  intros Hw Hz. rewrite <- (flip_sign w z) by done.
  rewrite Z.lxor_assoc, Z.lxor_nilpotent, Z.lxor_0_r. apply wraps_wrapu; [lia | done].
Qed.

Lemma canonical_bits v :
  in_u 64 v -> F64.is_nan v = false ->
  let v' := if F64.eqb v F64.zero then F64.zero else v in
  in_u 64 v' /\ F64Facts.smag v' = F64Facts.smag v
  /\ (F64.sign v' = true -> 0 < F64Facts.mag v').
Proof.
  intros Hv Hn. rewrite F64Facts.eqb_zero. destruct (Z.eqb_spec (F64Facts.mag v) 0) as [E | E].
  - split; [done | split; [| done]]. unfold F64Facts.smag at 2. rewrite E. by destruct (F64.sign v).
  - pose proof (F64Facts.frac_range v); pose proof (F64Facts.expo_range v).
    unfold F64Facts.mag in *. split; [done | split; [done | lia]].
Qed.

(** The key of a double is its signed magnitude, shifted to be unsigned. *)
Lemma order_preserving_bits_spec v :
  in_u 64 v -> F64.is_nan v = false ->
  order_preserving_bits v =
    if F64Facts.smag v <? 0 then F64Facts.smag v + 2 ^ 63 - 1 else F64Facts.smag v + 2 ^ 63.
Proof.
  intros Hv Hn. destruct (canonical_bits v Hv Hn) as (Hv' & <- & Hpos).
  unfold order_preserving_bits. revert Hv' Hpos.
  generalize (if F64.eqb v F64.zero then F64.zero else v). intros u Hu Hpos.
  unfold SIGN_BIT_64. rewrite land_pow2_nonzero by lia. fold (F64.sign u).
  pose proof (F64Facts.bits_split u Hu) as Hs. fold (F64Facts.mag u) in Hs.
  unfold F64Facts.smag. pose proof (F64Facts.frac_range u); pose proof (F64Facts.expo_range u).
  assert (Hmag : 0 <= F64Facts.mag u < 2 ^ 63) by (unfold F64Facts.mag; lia).
  assert (Hsum : u = (if F64.sign u then 2 ^ 63 else 0) + F64Facts.mag u)
    by (unfold F64Facts.mag; lia).
  destruct (F64.sign u).
  - specialize (Hpos eq_refl). rewrite notu_spec by (lia || done).
    destruct (Z.ltb_spec (- F64Facts.mag u) 0); lia.
  - rewrite lor_top by lia. destruct (Z.ltb_spec (F64Facts.mag u) 0); lia.
Qed.

Lemma order_preserving_bits_range v :
  in_u 64 v -> F64.is_nan v = false -> in_u 64 (order_preserving_bits v).
Proof.
  intros Hv Hn. rewrite order_preserving_bits_spec by done.
  pose proof (F64Facts.frac_range v); pose proof (F64Facts.expo_range v).
  unfold F64Facts.smag, F64Facts.mag, in_u.
  destruct (F64.sign v); zcase; lia.
Qed.

Lemma order_preserving_bits_compare a b :
  in_u 64 a -> in_u 64 b -> F64.is_nan a = false -> F64.is_nan b = false ->
  F64.partial_cmp a b = Some (Z.compare (order_preserving_bits a) (order_preserving_bits b)).
Proof.
  intros. rewrite F64Facts.partial_cmp_smag, !order_preserving_bits_spec by done. f_equal.
  destruct (Z.compare_spec (F64Facts.smag a) (F64Facts.smag b)); symmetry; zcase;
    rewrite ?Z.compare_eq_iff, ?Z.compare_lt_iff, ?Z.compare_gt_iff; lia.
Qed.

(** Decoding a double key undoes its encoding up to the sign of zero. *)
Lemma decode_double_bits v :
  in_u 64 v -> F64.is_nan v = false ->
  (let bits := order_preserving_bits v in
   if negb (Z.land bits SIGN_BIT_64 =? 0) then Z.land bits (notu 64 SIGN_BIT_64)
   else notu 64 bits) = if F64.eqb v F64.zero then F64.zero else v.
Proof.
  intros Hv Hn. destruct (canonical_bits v Hv Hn) as (Hu & _ & _).
  unfold order_preserving_bits. revert Hu.
  generalize (if F64.eqb v F64.zero then F64.zero else v). clear v Hv Hn. intros u Hu.
  unfold SIGN_BIT_64. rewrite (land_pow2_nonzero u) by lia. cbv zeta.
  rewrite land_pow2_nonzero by lia.
  rewrite (testbit_top u 63) by (lia || done).
  destruct (Z.leb_spec (2 ^ 63) u); destruct Hu as [H1 H2].
  - rewrite notu_spec by (unfold in_u; lia).
    rewrite testbit_top by (unfold in_u; lia). zcase; [lia |].
    rewrite notu_spec by (unfold in_u; lia). lia.
  - rewrite lor_top, testbit_top by (unfold in_u; lia). zcase; [| lia].
    replace (notu 64 (2 ^ 63)) with (Z.ones 63) by reflexivity.
    rewrite Z.land_ones by lia. replace (u + 2 ^ 63) with (u + 1 * 2 ^ 63) by lia.
    rewrite Z.mod_add by lia. apply Z.mod_small. lia.
Qed.

(** ** Properties *)

Lemma encode_memcomparable_app v buf :
  encode_memcomparable v buf =
    match encode_memcomparable v [] with Ok k => Ok (buf ++ k) | Err e => Err e | Panic => Panic end.
Proof. destruct v; simpl; try done. by destruct (F64.is_nan bits). Qed.

(** Encoding succeeds on everything but NaN. *)
Lemma encode_memcomparable_ok v :
  encodable v = true <-> exists k, encode_memcomparable v [] = Ok k.
Proof.
  destruct v; simpl; split; intros H; eauto.
  - apply negb_true_iff in H. rewrite H. by eexists.
  - destruct H as [k H]. by destruct (F64.is_nan bits).
Qed.

Ltac split_tag :=
  cbn [lex_compare app]; rewrite (proj2 (byte_compare_eq VALUE_TAG VALUE_TAG) eq_refl).

Lemma encode_compare a b ka kb c :
  Value.wf a -> Value.wf b ->
  encode_memcomparable a [] = Ok ka -> encode_memcomparable b [] = Ok kb ->
  Value.compare a b = Ok (Some c) ->
  lex_compare ka kb = c.
Proof.
  intros Ha Hb Hka Hkb Hc. unfold Value.compare in Hc.
  destruct a, b; try discriminate Hc; cbn [Value.is_null orb] in Hc; simplify_outcome;
    cbn [encode_memcomparable app] in *.
  - simplify_outcome. split_tag. by destruct b, b0.
  - simplify_outcome. split_tag. simpl in Ha, Hb.
    unfold SIGN_BIT_32. rewrite !(flip_sign 31) by (lia || done). destruct Ha, Hb.
    rewrite lex_compare_to_be by (unfold in_u; lia). apply compare_add_r.
  - simplify_outcome. split_tag. simpl in Ha, Hb.
    unfold SIGN_BIT_64. rewrite !(flip_sign 63) by (lia || done). destruct Ha, Hb.
    rewrite lex_compare_to_be by (unfold in_u; lia). apply compare_add_r.
  - destruct (F64.is_nan bits) eqn:E1, (F64.is_nan bits0) eqn:E2; try done. simplify_outcome.
    split_tag. simpl in Ha, Hb.
    rewrite (order_preserving_bits_compare bits bits0) in Hc by done. simplify_outcome.
    by rewrite lex_compare_to_be by (by apply order_preserving_bits_range).
  - simplify_outcome. by split_tag.
Qed.

(** C18: Byte order of two keys of one column is SQL order of the values. For any two
    values that compare (same type, neither NULL, no NaN), the lexicographic order of
    their memcomparable encodings is exactly [Value::compare]. *)
Theorem memcomparable_order_preserving a b ka kb c :
  Value.wf a -> Value.wf b ->
  encode_memcomparable a [] = Ok ka -> encode_memcomparable b [] = Ok kb ->
  Value.compare a b = Ok (Some c) ->
  lex_compare ka kb = c.
Proof. apply encode_compare. Qed.

Lemma memcomparable_order_preserving_witness :
  lex_compare [VALUE_TAG; byte_of_Z 127; byte_of_Z 255; byte_of_Z 255; byte_of_Z 255]
              [VALUE_TAG; byte_of_Z 128; byte_of_Z 0; byte_of_Z 0; byte_of_Z 5] = Lt.
Proof.
  apply (memcomparable_order_preserving (Value.Integer (-1)) (Value.Integer 5) _ _ Lt);
    [simpl; unfold in_s; lia | simpl; unfold in_s; lia | reflexivity | reflexivity | reflexivity].
Defined.

Lemma read_be_u32_app z rest : in_u 32 z -> read_be_u32 (to_be 4 z ++ rest) = Some z.
Proof.
  intros. unfold read_be_u32. rewrite sub_app_prefix by apply len_to_be.
  cbn [mbind option_bind]. by rewrite from_be_to_be_id.
Qed.
Lemma read_be_u64_app z rest : in_u 64 z -> read_be_u64 (to_be 8 z ++ rest) = Some z.
Proof.
  intros. unfold read_be_u64. rewrite sub_app_prefix by apply len_to_be.
  cbn [mbind option_bind]. by rewrite from_be_to_be_id.
Qed.

(** Decoding a key gives back the value and the whole key is consumed; the one
    normalisation is [-0.0], which comes back as [0.0]. *)
Theorem memcomparable_roundtrip v d k :
  Value.wf v -> Value.has_type d v = true ->
  encode_memcomparable v [] = Ok k ->
  decode_memcomparable k d = Ok (key_canonical v, len k).
Proof.
  intros Hv Hd Hk. destruct v; destruct d; try discriminate Hd;
    cbn [encode_memcomparable app] in Hk; simplify_outcome; try reflexivity;
    unfold decode_memcomparable; rewrite ?decide_False by (by vm_compute).
  - by destruct b.
  - rewrite <- (app_nil_r (to_be 4 _)). rewrite read_be_u32_app.
    + unfold SIGN_BIT_32. rewrite (flip_sign 31), (unflip_sign 31) by (lia || done). done.
    + unfold SIGN_BIT_32. rewrite (flip_sign 31) by (lia || done). destruct Hv. unfold in_u. lia.
  - rewrite <- (app_nil_r (to_be 8 _)). rewrite read_be_u64_app.
    + unfold SIGN_BIT_64. rewrite (flip_sign 63), (unflip_sign 63) by (lia || done). done.
    + unfold SIGN_BIT_64. rewrite (flip_sign 63) by (lia || done). destruct Hv. unfold in_u. lia.
  - destruct (F64.is_nan bits) eqn:En; [done |]. simplify_outcome.
    rewrite decide_False, decide_False by (by vm_compute).
    rewrite <- (app_nil_r (to_be 8 _)), read_be_u64_app by (by apply order_preserving_bits_range).
    pose proof (decode_double_bits bits Hv En) as Hdec. cbv zeta in Hdec |- *. by rewrite Hdec.
  - unfold Utf8.from_utf8. simpl in Hv. rewrite Hv. by rewrite len_cons.
Qed.

Lemma memcomparable_roundtrip_witness :
  decode_memcomparable (VALUE_TAG :: str "abc") (DataType.Varchar 10)
  = Ok (Value.Varchar (str "abc"), 4).
Proof.
  apply (memcomparable_roundtrip (Value.Varchar (str "abc")) (DataType.Varchar 10));
    [reflexivity | reflexivity | reflexivity].
Defined.

(** NULL keys sort before every other key, and the only value without a key is
    NaN, which is refused with [UnorderableValue] and leaves the buffer alone. *)
Lemma memcomparable_null_first_nan_refused v :
  (forall k, Value.is_null v = false -> encode_memcomparable v [] = Ok k ->
             lex_compare [NULL_TAG] k = Lt)
  /\ ((exists k, encode_memcomparable v [] = Ok k) \/
      (exists b, v = Value.Double b /\ F64.is_nan b = true
                 /\ encode_memcomparable v [] = Err (Value.UnorderableValue nan_reason))).
Proof.
  split.
  - intros k Hn Hk. destruct v; try discriminate Hn; cbn [encode_memcomparable app] in Hk.
    1-3,5: simplify_outcome; reflexivity.
    destruct (F64.is_nan bits); [done |]. simplify_outcome. reflexivity.
  - destruct v; try (left; by eexists). simpl. destruct (F64.is_nan bits) eqn:E.
    + right. exists bits. by rewrite E.
    + left. by eexists.
Qed.

(** The decoder is total on arbitrary bytes: it never panics, what it accepts is a
    well-formed value of the column's type, and it never claims to have consumed more
    bytes than it was given. *)
Theorem decode_memcomparable_sound bs d :
  match decode_memcomparable bs d with
  | Ok (v, n) => Value.wf v /\ Value.has_type d v = true /\ 0 < n <= len bs
  | Err e => exists r, e = Value.InvalidEncoding r
  | Panic => False
  end.
Proof.
  unfold decode_memcomparable. destruct bs as [| tag rest]; [by eexists |].
  pose proof (len_nonneg rest) as Hr. rewrite len_cons.
  case_decide; [repeat split; lia |]. case_decide; [by eexists |].
  destruct d.
  - destruct rest; [by eexists |]. rewrite len_cons in *. pose proof (len_nonneg rest).
    repeat split; lia.
  - unfold read_be_u32. destruct (sub rest 0 4) as [b |] eqn:E; [| by eexists].
    apply sub_Some in E as (_ & _ & ? & _). cbn [mbind option_bind].
    split; [by apply wraps_range | split; [done | lia]].
  - unfold read_be_u64. destruct (sub rest 0 8) as [b |] eqn:E; [| by eexists].
    apply sub_Some in E as (_ & _ & ? & _). cbn [mbind option_bind].
    split; [by apply wraps_range | split; [done | lia]].
  - unfold read_be_u64. destruct (sub rest 0 8) as [b |] eqn:E; [| by eexists].
    pose proof (sub_len _ _ _ _ E) as Hl. apply sub_Some in E as (_ & _ & ? & _).
    cbn [mbind option_bind]. cbv zeta.
    assert (Hb : in_u 64 (from_be b)).
    { unfold from_be. pose proof (from_le_bound (reverse b)) as Hb.
      rewrite len_reverse, Hl in Hb. done. }
    split; [| split; [done | lia]]. simpl. destruct (negb _).
    + replace (notu 64 SIGN_BIT_64) with (Z.ones 63) by reflexivity.
      rewrite Z.land_ones by lia. unfold in_u.
      pose proof (Z.mod_pos_bound (from_be b) (2 ^ 63) ltac:(lia)). lia.
    + rewrite notu_spec by (lia || done). destruct Hb. unfold in_u. lia.
  - unfold Utf8.from_utf8. destruct (Utf8.valid rest) eqn:E; [| by eexists].
    split; [done | split; [done | lia]].
Qed.
