(* ===== verification/Tuple.v ===== *)
(** * Row format: crates/types/src/tuple.rs

    A NULL bitmap followed by the non-NULL values in order. *)
From S2P Require Import Prelude Value.

Abbreviation Tuple := (list Value.t).

Inductive TupleError : Type :=
| Truncated (expected found : Z)
| InvalidUtf8 (bs : bytes).

Definition div_ceil (a b : Z) : Z := (a + b - 1) / b.
Definition byte_or (b : byte) (m : Z) : byte := byte_of_Z (Z.lor (Z_of_byte b) m).

(** [Encode for Tuple]: one iteration of the loop over [values.iter().enumerate()].
    The bitmap byte is inside the buffer, so the update is a list [alter]. *)
Definition encode_value (bitmap_start i : Z) (v : Value.t) (buf : bytes) : bytes :=
  match v with
  | Value.Null =>
      alter (fun b => byte_or b (2 ^ (i mod 8))) (Z.to_nat (bitmap_start + i / 8)) buf
  | Value.Boolean b => buf ++ [byte_of_Z (Z.b2z b)]
  | Value.Integer v => buf ++ to_le 4 (wrapu 32 v)
  | Value.BigInt v => buf ++ to_le 8 (wrapu 64 v)
  | Value.Double v => buf ++ to_le 8 v
  | Value.Varchar s => buf ++ to_le 4 (wrapu 32 (len s)) ++ s
  end.

Fixpoint encode_values (bitmap_start i : Z) (vs : Tuple) (buf : bytes) : bytes :=
  match vs with
  | [] => buf
  | v :: vs => encode_values bitmap_start (i + 1) vs (encode_value bitmap_start i v buf)
  end.

Definition encode (values : Tuple) (buf : bytes) : bytes :=
  let bitmap_len := div_ceil (len values) 8 in
  let bitmap_start := len buf in
  encode_values bitmap_start 0 values (buf ++ replicate (Z.to_nat bitmap_len) Byte.x00).

Definition take (buf : bytes) (offset n : Z) : outcome TupleError bytes :=
  ok_or (sub buf offset n) (Truncated (offset + n) (len buf)).

(** The value a column holds, and the offset after it. *)
Definition decode_value (buf : bytes) (offset : Z) (d : DataType.t)
    : outcome TupleError (Value.t * Z) :=
  match d with
  | DataType.Boolean =>
      bs ← take buf offset 1;
      b0 ← or_panic (index bs 0);
      Ok (Value.Boolean (negb (Z_of_byte b0 =? 0)), offset + 1)
  | DataType.Integer =>
      bs ← take buf offset 4; Ok (Value.Integer (wraps 32 (from_le bs)), offset + 4)
  | DataType.BigInt =>
      bs ← take buf offset 8; Ok (Value.BigInt (wraps 64 (from_le bs)), offset + 8)
  | DataType.Double =>
      bs ← take buf offset 8; Ok (Value.Double (from_le bs), offset + 8)
  | DataType.Varchar _ =>
      len_bytes ← take buf offset 4;
      let n := from_le len_bytes in
      let offset := offset + 4 in
      str_bytes ← take buf offset n;
      let offset := offset + n in
      s ← ok_or (Utf8.from_utf8 str_bytes) (InvalidUtf8 str_bytes);
      Ok (Value.Varchar s, offset)
  end.

Fixpoint decode_columns (buf bitmap : bytes) (i offset : Z) (types : list DataType.t)
    : outcome TupleError Tuple :=
  match types with
  | [] => Ok []
  | d :: types =>
      b ← or_panic (index bitmap (i / 8));
      if negb (Z.land (Z_of_byte b) (2 ^ (i mod 8)) =? 0) then
        vs ← decode_columns buf bitmap (i + 1) offset types;
        Ok (Value.Null :: vs)
      else
        '(v, offset) ← decode_value buf offset d;
        vs ← decode_columns buf bitmap (i + 1) offset types;
        Ok (v :: vs)
  end.

Definition decode (buf : bytes) (column_types : list DataType.t) : outcome TupleError Tuple :=
  let bitmap_len := div_ceil (len column_types) 8 in
  bitmap ← take buf 0 bitmap_len;
  decode_columns buf bitmap 0 bitmap_len column_types.

(** ** What a row looks like *)

(** The bytes a value contributes after the bitmap. *)
Definition payload (v : Value.t) : bytes :=
  match v with
  | Value.Null => []
  | Value.Boolean b => [byte_of_Z (Z.b2z b)]
  | Value.Integer v => to_le 4 (wrapu 32 v)
  | Value.BigInt v => to_le 8 (wrapu 64 v)
  | Value.Double v => to_le 8 v
  | Value.Varchar s => to_le 4 (wrapu 32 (len s)) ++ s
  end.

(** Bit [i] of a bitmap. *)
Definition bit_at (bitmap : bytes) (i : Z) : bool :=
  match index bitmap (i / 8) with
  | Some b => Z.testbit (Z_of_byte b) (i mod 8)
  | None => false
  end.

(** The bitmap after the loop has seen [vs] from column [i] on. *)
Fixpoint mark_nulls (i : Z) (vs : Tuple) (bitmap : bytes) : bytes :=
  match vs with
  | [] => bitmap
  | Value.Null :: vs =>
      mark_nulls (i + 1) vs (alter (fun b => byte_or b (2 ^ (i mod 8))) (Z.to_nat (i / 8)) bitmap)
  | _ :: vs => mark_nulls (i + 1) vs bitmap
  end.

Lemma encode_value_shape pre bitmap data i v :
  0 <= i -> i / 8 < len bitmap ->
  encode_value (len pre) i v (pre ++ bitmap ++ data) =
    pre ++ (match v with
            | Value.Null => alter (fun b => byte_or b (2 ^ (i mod 8))) (Z.to_nat (i / 8)) bitmap
            | _ => bitmap
            end) ++ data ++ payload v.
Proof.
  intros Hi Hb. pose proof (Z.div_pos i 8 Hi ltac:(lia)).
  destruct v; simpl; rewrite ?app_assoc, ?app_nil_r; try reflexivity.
  rewrite <- !app_assoc. unfold len in *.
  replace (Z.to_nat (Z.of_nat (length pre) + i / 8)) with (length pre + Z.to_nat (i / 8))%nat by lia.
  rewrite alter_app_r. f_equal. apply alter_app_l. lia.
Qed.

Lemma length_mark_nulls vs i bitmap : length (mark_nulls i vs bitmap) = length bitmap.
Proof.
  revert i bitmap. induction vs as [| v vs IH]; intros i bitmap; simpl; [done |].
  destruct v; rewrite IH; try done. apply length_alter.
Qed.

(** A bitmap with room for columns [i ..= i + n] has room for column [i] and for the rest. *)
Lemma bitmap_room i n k :
  0 <= i -> 0 <= n -> (i + (1 + n) + 7) / 8 <= k ->
  0 <= i / 8 < k /\ (i + 1 + n + 7) / 8 <= k.
Proof.
  intros Hi Hn Hk. replace (i + 1 + n + 7) with (i + (1 + n) + 7) by lia.
  split; [| done]. split; [apply Z.div_pos; lia |].
  apply Z.lt_le_trans with ((i + 1 * 8) / 8).
  - rewrite Z.div_add by lia. lia.
  - etransitivity; [| exact Hk]. apply Z.div_le_mono; lia.
Qed.

Lemma encode_values_shape vs pre bitmap data i :
  0 <= i -> (i + len vs + 7) / 8 <= len bitmap ->
  encode_values (len pre) i vs (pre ++ bitmap ++ data) =
    pre ++ mark_nulls i vs bitmap ++ data ++ concat (payload <$> vs).
Proof.
  revert i bitmap data. induction vs as [| v vs IH]; intros i bitmap data Hi Hb.
  - simpl. by rewrite app_nil_r.
  - rewrite len_cons in Hb. pose proof (len_nonneg vs).
    destruct (bitmap_room i (len vs) (len bitmap)) as [[_ Hi8] Hb']; [done.. |].
    cbn [encode_values]. rewrite encode_value_shape by done. rewrite IH.
    + rewrite fmap_cons. cbn [concat]. rewrite <- (app_assoc data). by destruct v.
    + lia.
    + destruct v; try done. unfold len in *. by rewrite length_alter.
Qed.

Lemma div_ceil_8 n : div_ceil n 8 = (n + 7) / 8.
Proof. unfold div_ceil. f_equal. lia. Qed.

(** An encoded row is its NULL bitmap and then the payloads in column order. *)
Lemma encode_shape vs buf :
  encode vs buf =
    buf ++ mark_nulls 0 vs (replicate (Z.to_nat (div_ceil (len vs) 8)) Byte.x00)
        ++ concat (payload <$> vs).
Proof.
  unfold encode. pose proof (encode_values_shape vs buf
    (replicate (Z.to_nat (div_ceil (len vs) 8)) Byte.x00) [] 0 ltac:(lia)) as H.
  rewrite app_nil_r in H. apply H. rewrite len_replicate, div_ceil_8.
  pose proof (len_nonneg vs). pose proof (Z.div_pos (len vs + 7) 8). rewrite Z.add_0_l. lia.
Qed.

(** ** The NULL bitmap *)
Lemma testbit_byte_or b k n :
  0 <= k < 8 -> 0 <= n < 8 ->
  Z.testbit (Z_of_byte (byte_or b (2 ^ k))) n = (k =? n) || Z.testbit (Z_of_byte b) n.
Proof.
  intros Hk Hn. unfold byte_or. rewrite Z_of_byte_of_Z. change 256 with (2 ^ 8).
  rewrite Z.mod_pow2_bits_low by lia. rewrite Z.lor_spec, Z.pow2_bits_eqb by lia.
  apply orb_comm.
Qed.

Lemma bit_at_alter bitmap i j :
  0 <= i -> 0 <= j -> i / 8 < len bitmap ->
  bit_at (alter (fun b => byte_or b (2 ^ (i mod 8))) (Z.to_nat (i / 8)) bitmap) j
  = (i =? j) || bit_at bitmap j.
Proof.
  intros Hi Hj Hb. unfold bit_at, index.
  pose proof (Z.div_pos i 8 Hi ltac:(lia)). pose proof (Z.div_pos j 8 Hj ltac:(lia)).
  pose proof (Z.mod_pos_bound i 8 ltac:(lia)). pose proof (Z.mod_pos_bound j 8 ltac:(lia)).
  rewrite (proj2 (Z.leb_le 0 (j / 8))) by done.
  destruct (decide (i / 8 = j / 8)) as [E | E].
  - rewrite E, list_lookup_alter_eq.
    destruct (bitmap !! Z.to_nat (j / 8)) as [b |] eqn:Hl; simpl.
    + rewrite testbit_byte_or by done. f_equal.
      pose proof (Z.div_mod i 8 ltac:(lia)). pose proof (Z.div_mod j 8 ltac:(lia)).
      zcase; lia.
    + apply lookup_ge_None in Hl. unfold len in Hb. lia.
  - rewrite list_lookup_alter_ne by lia. destruct (Z.eqb_spec i j); [by subst | done].
Qed.

Definition null_at (vs : Tuple) (k : Z) : bool :=
  match index vs k with Some Value.Null => true | _ => false end.

Lemma null_at_cons v vs k :
  null_at (v :: vs) k = if k =? 0 then Value.is_null v else null_at vs (k - 1).
Proof.
  unfold null_at, index. destruct (Z.eqb_spec k 0) as [-> | Hk]; [by destruct v |].
  destruct (Z.leb_spec 0 k), (Z.leb_spec 0 (k - 1)); try lia.
  by replace (Z.to_nat k) with (S (Z.to_nat (k - 1))) by lia.
Qed.

Lemma bit_at_mark_nulls vs i j bitmap :
  0 <= i -> 0 <= j -> (i + len vs + 7) / 8 <= len bitmap ->
  bit_at (mark_nulls i vs bitmap) j = null_at vs (j - i) || bit_at bitmap j.
Proof.
  revert i bitmap. induction vs as [| v vs IH]; intros i bitmap Hi Hj Hb.
  - simpl. unfold null_at, index. by destruct (0 <=? j - i).
  - rewrite len_cons in Hb. pose proof (len_nonneg vs).
    destruct (bitmap_room i (len vs) (len bitmap)) as [[_ Hi8] Hb']; [done.. |].
    assert (Halt : null_at vs (j - (i + 1)) = true -> j <> i).
    { unfold null_at, index. destruct (Z.leb_spec 0 (j - (i + 1))); [lia | done]. }
    rewrite null_at_cons. replace (j - i - 1) with (j - (i + 1)) by lia.
    destruct v; cbn [mark_nulls Value.is_null].
    1: { rewrite IH by (try lia; unfold len in *; by rewrite length_alter).
         rewrite bit_at_alter by done.
         destruct (Z.eqb_spec (j - i) 0), (Z.eqb_spec i j); try lia; by rewrite ?orb_true_r. }
    all: rewrite IH by (done || lia); destruct (Z.eqb_spec (j - i) 0); [| done];
      destruct (null_at vs (j - (i + 1))); [by specialize (Halt eq_refl); lia | done].
Qed.

Lemma bit_at_zeros n j : bit_at (replicate n Byte.x00) j = false.
Proof.
  unfold bit_at, index. destruct (0 <=? j / 8); [| done].
  destruct (replicate n Byte.x00 !! _) as [b |] eqn:E; [| done].
  apply lookup_replicate in E as [-> _]. apply Z.bits_0.
Qed.

(** ** Decoding what was encoded *)
Definition fits (v : Value.t) : bool :=
  match v with Value.Varchar s => len s <? 2 ^ 32 | _ => true end.

Lemma take_mid pre mid post n :
  len mid = n -> take (pre ++ mid ++ post) (len pre) n = Ok mid.
Proof. intros <-. unfold take. by rewrite sub_app_mid. Qed.

Lemma decode_value_payload pre v post d :
  Value.wf v -> Value.has_type d v = true -> fits v = true -> Value.is_null v = false ->
  decode_value (pre ++ payload v ++ post) (len pre) d = Ok (v, len pre + len (payload v)).
Proof.
  intros Hv Hd Hf Hn. destruct v, d; try discriminate; cbn [payload decode_value].
  - rewrite take_mid by done. by destruct b.
  - rewrite take_mid by (by rewrite len_to_le). cbn [mbind outcome_bind].
    rewrite from_le_to_le_id by (apply wrapu_range; lia). rewrite wraps_wrapu by (lia || done).
    by rewrite len_to_le.
  - rewrite take_mid by (by rewrite len_to_le). cbn [mbind outcome_bind].
    rewrite from_le_to_le_id by (apply wrapu_range; lia). rewrite wraps_wrapu by (lia || done).
    by rewrite len_to_le.
  - rewrite take_mid by (by rewrite len_to_le). cbn [mbind outcome_bind].
    rewrite from_le_to_le_id by done. by rewrite len_to_le.
  - simpl in Hf, Hv. to_prop. pose proof (len_nonneg s).
    unfold wrapu. rewrite Z.mod_small by lia.
    rewrite <- app_assoc. rewrite take_mid by (by rewrite len_to_le). cbn [mbind outcome_bind].
    rewrite from_le_to_le_id by (unfold in_u; simpl; lia).
    replace (len pre + 4) with (len (pre ++ to_le 4 (len s))) by (by autorewrite with len).
    rewrite (app_assoc pre). rewrite take_mid by done. cbn [mbind outcome_bind].
    unfold Utf8.from_utf8. rewrite Hv. simpl. autorewrite with len. do 2 f_equal. lia.
Qed.

Lemma bit_test bitmap i b :
  index bitmap (i / 8) = Some b ->
  negb (Z.land (Z_of_byte b) (2 ^ (i mod 8)) =? 0) = bit_at bitmap i.
Proof.
  intros H. unfold bit_at. rewrite H. apply land_pow2_nonzero.
  apply Z.mod_pos_bound. lia.
Qed.

Lemma index_in_range {A} (l : list A) i : 0 <= i < len l -> exists x, index l i = Some x.
Proof.
  intros. unfold index. rewrite (proj2 (Z.leb_le 0 i)) by lia.
  apply lookup_lt_is_Some_2. unfold len in *. lia.
Qed.

Lemma decode_columns_payloads vs types pre post bitmap i :
  0 <= i -> (i + len types + 7) / 8 <= len bitmap ->
  Forall Value.wf vs -> Forall (fun v => fits v = true) vs ->
  Forall2 (fun d v => Value.has_type d v = true) types vs ->
  (forall k, 0 <= k < len vs -> bit_at bitmap (i + k) = null_at vs k) ->
  decode_columns (pre ++ concat (payload <$> vs) ++ post) bitmap i (len pre) types = Ok vs.
Proof.
  intros Hi Hb Hwf Hfit Hty. revert i pre Hi Hb Hwf Hfit.
  induction Hty as [| d v types vs Hd Hty IH]; intros i pre Hi Hb Hwf Hfit Hbits; [done |].
  apply Forall_cons in Hwf as [Hv Hwf]. apply Forall_cons in Hfit as [Hf Hfit].
  rewrite len_cons in Hb. pose proof (len_nonneg types); pose proof (len_nonneg vs).
  destruct (bitmap_room i (len types) (len bitmap)) as [Hi8 Hb']; [done.. |].
  destruct (index_in_range bitmap (i / 8) Hi8) as [b Hbm].
  cbn [decode_columns]. rewrite Hbm. cbn [or_panic mbind outcome_bind].
  rewrite (bit_test bitmap i b Hbm).
  assert (Hbit : bit_at bitmap i = Value.is_null v).
  { rewrite <- (Z.add_0_r i), Hbits by (rewrite len_cons; lia). by rewrite null_at_cons. }
  assert (Hrec : forall pre', decode_columns (pre' ++ concat (payload <$> vs) ++ post)
                                bitmap (i + 1) (len pre') types = Ok vs).
  { intros pre'. apply IH; try done; [lia |].
    intros k Hk. replace (i + 1 + k) with (i + (k + 1)) by lia.
    rewrite Hbits by (rewrite len_cons; lia). rewrite null_at_cons.
    destruct (Z.eqb_spec (k + 1) 0); [lia |]. by replace (k + 1 - 1) with k by lia. }
  rewrite Hbit, fmap_cons. cbn [concat]. destruct (Value.is_null v) eqn:En.
  - destruct v; try done. cbn [payload app]. by rewrite Hrec.
  - rewrite <- app_assoc. rewrite decode_value_payload by done. cbn [mbind outcome_bind].
    rewrite app_assoc, <- len_app. by rewrite Hrec.
Qed.

(** A row that a table with these columns may store. *)
Definition row_ok (types : list DataType.t) (vs : Tuple) : Prop :=
  Forall Value.wf vs /\ Forall (fun v => fits v = true) vs
  /\ Forall2 (fun d v => Value.has_type d v = true) types vs.

Lemma decode_encode types vs post :
  row_ok types vs -> decode (encode vs [] ++ post) types = Ok vs.
Proof.
  intros (Hwf & Hfit & Hty). pose proof (Forall2_length _ _ _ Hty) as Hlen.
  rewrite encode_shape. cbn [app]. unfold decode.
  assert (Hlt : len types = len vs) by (unfold len; lia). rewrite Hlt.
  set (bitmap := mark_nulls 0 vs _).
  assert (Hbl : len bitmap = div_ceil (len vs) 8).
  { unfold bitmap, len at 1. rewrite length_mark_nulls, length_replicate, div_ceil_8.
    pose proof (len_nonneg vs). pose proof (Z.div_pos (len vs + 7) 8). lia. }
  rewrite <- app_assoc. unfold take.
  rewrite sub_app_prefix by done. cbn [ok_or mbind outcome_bind]. rewrite <- Hbl.
  apply decode_columns_payloads; try done.
  - rewrite Hbl, Hlt, div_ceil_8, Z.add_0_l. done.
  - intros k Hk. unfold bitmap. rewrite bit_at_mark_nulls, bit_at_zeros, orb_false_r.
    + f_equal. lia.
    + lia.
    + lia.
    + rewrite len_replicate, div_ceil_8, Z.add_0_l.
      pose proof (Z.div_pos (len vs + 7) 8). lia.
Qed.

(** C24: Decoding an encoded row gives back the row: every value, every NULL, whatever
    bytes follow it, for any number of columns of any types. *)
Theorem tuple_roundtrip types vs post :
  row_ok types vs -> decode (encode vs [] ++ post) types = Ok vs.
Proof. apply decode_encode. Qed.

Lemma tuple_roundtrip_witness :
  decode (encode [Value.Integer (-7); Value.Null; Value.Varchar (str "Bob"); Value.Boolean true] []
            ++ [Byte.xff])
         [DataType.Integer; DataType.BigInt; DataType.Varchar 0; DataType.Boolean]
  = Ok [Value.Integer (-7); Value.Null; Value.Varchar (str "Bob"); Value.Boolean true].
Proof.
  apply tuple_roundtrip. split; [| split].
  - repeat constructor; simpl; unfold in_s; lia.
  - repeat constructor.
  - repeat constructor.
Defined.

Lemma take_ok buf off n bs : take buf off n = Ok bs -> len bs = n /\ off + n <= len buf.
Proof.
  unfold take. destruct (sub buf off n) eqn:E; [| done]. intros [= <-].
  split; [by eapply sub_len |]. by apply sub_Some in E as (_ & _ & ? & _).
Qed.

Lemma take_cases buf off n :
  0 <= off -> 0 <= n ->
  (exists bs, take buf off n = Ok bs /\ len bs = n /\ off + n <= len buf)
  \/ (take buf off n = Err (Truncated (off + n) (len buf)) /\ len buf < off + n).
Proof.
  intros Ho Hn. unfold take. destruct (sub buf off n) as [bs |] eqn:Es; cbn [ok_or].
  - left. exists bs. split; [done |]. split; [by eapply sub_len |].
    by apply sub_Some in Es as (_ & _ & ? & _).
  - right. split; [done |]. by apply sub_None in Es.
Qed.

Lemma from_le_range bs n : len bs = n -> 0 <= n -> in_u (8 * n) (from_le bs).
Proof.
  intros Hl Hn. pose proof (from_le_bound bs) as H. rewrite Hl in H. unfold in_u.
  rewrite Z.pow_mul_r by lia. done.
Qed.

(** What [decode_value] can return: a value of the column's type, with the offset
    advanced inside the buffer, or one of the two errors; never a panic. *)
Lemma decode_value_sound buf off d :
  0 <= off ->
  match decode_value buf off d with
  | Ok (v, off') =>
      Value.wf v /\ fits v = true /\ Value.has_type d v = true /\ off < off' <= len buf
  | Err (Truncated e f) => f = len buf /\ f < e
  | Err (InvalidUtf8 bs) => Utf8.valid bs = false
  | Panic => False
  end.
Proof.
  intros Hoff. pose proof (take_cases buf) as Herr.
  destruct d; cbn [decode_value].
  - destruct (Herr off 1) as [(bs & -> & Hl & ?) | [-> ?]]; [lia.. | |]; cbn [mbind outcome_bind].
    + destruct bs as [| b bs]; [done |]. cbn. repeat split; lia.
    + split; [done | lia].
  - destruct (Herr off 4) as [(bs & -> & Hl & ?) | [-> ?]]; [lia.. | |]; cbn [mbind outcome_bind].
    + repeat split; try lia; by apply wraps_range.
    + split; [done | lia].
  - destruct (Herr off 8) as [(bs & -> & Hl & ?) | [-> ?]]; [lia.. | |]; cbn [mbind outcome_bind].
    + repeat split; try lia; by apply wraps_range.
    + split; [done | lia].
  - destruct (Herr off 8) as [(bs & -> & Hl & ?) | [-> ?]]; [lia.. | |]; cbn [mbind outcome_bind].
    + pose proof (from_le_range bs 8 Hl ltac:(lia)) as []. repeat split; try lia; done.
    + split; [done | lia].
  - destruct (Herr off 4) as [(bs & -> & Hl & ?) | [-> ?]]; [lia.. | |]; cbn [mbind outcome_bind].
    2: { split; [done | lia]. }
    pose proof (from_le_range bs 4 Hl ltac:(lia)) as [Hn1 Hn2].
    destruct (Herr (off + 4) (from_le bs)) as [(sb & -> & Hls & ?) | [-> ?]]; [lia.. | |];
      cbn [mbind outcome_bind].
    2: { split; [done | lia]. }
    unfold Utf8.from_utf8. destruct (Utf8.valid sb) eqn:Hu; cbn [ok_or mbind outcome_bind]; [| done].
    simpl. rewrite Hls. change (2 ^ (8 * 4)) with 4294967296 in Hn2. zcase; lia || (repeat split; lia || done).
Qed.

Lemma decode_columns_sound types buf bitmap i off :
  0 <= i -> 0 <= off -> (i + len types + 7) / 8 <= len bitmap ->
  match decode_columns buf bitmap i off types with
  | Ok vs => row_ok types vs
  | Err (Truncated e f) => f = len buf /\ f < e
  | Err (InvalidUtf8 bs) => Utf8.valid bs = false
  | Panic => False
  end.
Proof.
  revert i off. induction types as [| d types IH]; intros i off Hi Hoff Hb.
  - by repeat constructor.
  - rewrite len_cons in Hb. pose proof (len_nonneg types).
    destruct (bitmap_room i (len types) (len bitmap)) as [Hi8 Hb']; [done.. |].
    destruct (index_in_range bitmap (i / 8) Hi8) as [b Hbm].
    cbn [decode_columns]. rewrite Hbm. cbn [or_panic mbind outcome_bind].
    destruct (negb _).
    + specialize (IH (i + 1) off ltac:(lia) Hoff Hb').
      destruct (decode_columns _ _ _ _ _) as [vs | e |]; cbn [mbind outcome_bind]; [| done | done].
      destruct IH as (? & ? & ?). split; [| split]; by constructor.
    + pose proof (decode_value_sound buf off d Hoff) as Hv.
      destruct (decode_value buf off d) as [[v off'] | e |]; cbn [mbind outcome_bind]; [| done | done].
      destruct Hv as (Hv & Hf & Hd & Ho). specialize (IH (i + 1) off' ltac:(lia) ltac:(lia) Hb').
      destruct (decode_columns _ _ _ _ _) as [vs | e |]; cbn [mbind outcome_bind]; [| done | done].
      destruct IH as (? & ? & ?). split; [| split]; by constructor.
Qed.

(** Decoding arbitrary (possibly corrupt) bytes never panics. What it accepts is a
    row of the table's type; what it refuses is refused as [Truncated], with the buffer's
    real length below the length it needed, or as invalid UTF-8. *)
Theorem tuple_decode_sound buf types :
  match decode buf types with
  | Ok vs => row_ok types vs
  | Err (Truncated e f) => f = len buf /\ f < e
  | Err (InvalidUtf8 bs) => Utf8.valid bs = false
  | Panic => False
  end.
Proof.
  unfold decode. pose proof (len_nonneg types).
  assert (0 <= div_ceil (len types) 8) by (rewrite div_ceil_8; apply Z.div_pos; lia).
  destruct (take_cases buf 0 (div_ceil (len types) 8)) as [(bm & -> & Hl & Hb) | [-> Hb]];
    [lia.. | |]; cbn [mbind outcome_bind].
  - apply decode_columns_sound; try lia. by rewrite Hl, div_ceil_8.
  - split; [done | lia].
Qed.

(** The size of a row on disk: one bitmap byte per eight columns, the fixed width of
    each non-NULL fixed-width value, and four bytes plus its length for each string. *)
Lemma tuple_encoded_size vs buf :
  len (encode vs buf) =
    len buf + (len vs + 7) / 8
    + foldr (fun v acc =>
               match v with
               | Value.Null => 0
               | Value.Varchar s => 4 + len s
               | _ => default 0 (Value.data_type v ≫= DataType.fixed_width)
               end + acc) 0 vs.
Proof.
  rewrite encode_shape, !len_app. unfold len at 2. rewrite length_mark_nulls, length_replicate.
  rewrite div_ceil_8. pose proof (len_nonneg vs).
  pose proof (Z.div_pos (len vs + 7) 8 ltac:(lia) ltac:(lia)).
  rewrite <- Z.add_assoc. f_equal. f_equal; [lia |]. clear.
  induction vs as [| v vs IH]; [done |]. rewrite fmap_cons. cbn [concat foldr].
  rewrite len_app, IH. f_equal. destruct v; cbn [payload]; autorewrite with len; done.
Qed.
