(* ===== verification/Common.v ===== *)
(** * Shared vocabulary: crates/common (ids.rs, crc.rs, sql_state.rs, config.rs)

    Identifiers, the CRC-32 every on-disk structure is sealed with, SQLSTATE codes
    and the configuration defaults the other components read. *)
From S2P Require Import Prelude.

(** ** ids.rs: newtypes over unsigned integers *)
Abbreviation PageId := Z.
Abbreviation FrameId := Z.
Abbreviation TxnId := Z.
Abbreviation TableId := Z.
Abbreviation IndexId := Z.
Abbreviation ColumnId := Z.
Abbreviation Lsn := Z.

Record Rid : Type := mkRid { page_id : PageId; slot : Z }.

#[export] Instance Rid_eq_dec : EqDecision Rid.
Proof. solve_decision. Defined.
#[export] Instance Rid_countable : Countable Rid.
Proof.
  apply (inj_countable' (fun r => (page_id r, slot r)) (fun p => mkRid p.1 p.2)).
  by intros [].
Defined.

(** ** crc.rs *)
Definition POLYNOMIAL : Z := 3988292384.

(** One iteration of the inner loop of [table()]. *)
Definition crc_step (crc : Z) : Z :=
  if negb (Z.land crc 1 =? 0) then Z.lxor POLYNOMIAL (Z.shiftr crc 1) else Z.shiftr crc 1.

(** The entry of one byte: eight iterations. *)
Definition crc_entry (byte : Z) : Z := Nat.iter 8 crc_step byte.

Definition table : list Z := crc_entry <$> seqZ 0 256.

Definition crc_update (crc : Z) (b : byte) : Z :=
  Z.lxor (nth (Z.to_nat (Z.land (Z.lxor crc (Z_of_byte b)) 255)) table 0) (Z.shiftr crc 8).

Definition crc32 (data : bytes) : Z :=
  Z.lxor (fold_left crc_update data 4294967295) 4294967295.

(** The reference: the bitwise CRC, one message bit at a time through the shift
    register, with no table. *)
Definition crc32_bitwise (data : bytes) : Z :=
  Z.lxor (fold_left (fun crc b => Nat.iter 8 crc_step (Z.lxor crc (Z_of_byte b))) data 4294967295)
         4294967295.

(** ** sql_state.rs *)
Definition SqlState : Type := bytes.
Definition sqlstate (s : String.string) : SqlState := str s.
Definition sqlstate_class (s : SqlState) : bytes := take 2 s.

(** ** config.rs *)
Record DbConfig : Type := mkDbConfig {
  page_size : Z;
  buffer_pool_size : Z;
  checkpoint_byte_threshold : Z;
  dwb_capacity : Z;
  slow_query_warn_threshold_ms : Z;
  lock_wait_timeout_ms : Z;
  idle_in_transaction_timeout_ms : Z;
}.

(** [DbConfig::new], the path apart. *)
Definition DbConfig_new : DbConfig :=
  mkDbConfig 4096 64 (4 * 1024 * 1024) 64 100 5000 60000.

(** ** CRC facts *)
Lemma crc_step_spec c : crc_step c = if Z.odd c then Z.lxor POLYNOMIAL (Z.shiftr c 1) else Z.shiftr c 1.
Proof.
  unfold crc_step. change 1 with (2 ^ 0) at 1. rewrite land_pow2_nonzero by lia.
  by rewrite Z.bit0_odd.
Qed.

Lemma odd_lxor a b : Z.odd (Z.lxor a b) = xorb (Z.odd a) (Z.odd b).
Proof. by rewrite <- !Z.bit0_odd, Z.lxor_spec. Qed.

(** The register step is linear over exclusive or. *)
Lemma crc_step_lxor a b : crc_step (Z.lxor a b) = Z.lxor (crc_step a) (crc_step b).
Proof.
  rewrite !crc_step_spec, odd_lxor, Z.shiftr_lxor.
  destruct (Z.odd a), (Z.odd b); simpl xorb; cbv iota.
  - rewrite (Z.lxor_comm POLYNOMIAL (Z.shiftr a 1)), Z.lxor_assoc, <- (Z.lxor_assoc POLYNOMIAL).
    by rewrite Z.lxor_nilpotent, Z.lxor_0_l.
  - by rewrite Z.lxor_assoc.
  - rewrite <- !Z.lxor_assoc. f_equal. apply Z.lxor_comm.
  - done.
Qed.

Lemma crc_iter_lxor n a b :
  Nat.iter n crc_step (Z.lxor a b) = Z.lxor (Nat.iter n crc_step a) (Nat.iter n crc_step b).
Proof. induction n as [| n IH]; simpl; [done |]. by rewrite IH, crc_step_lxor. Qed.

(** Bits that are still to the left of the register's low end are only shifted. *)
Lemma crc_iter_shift n y :
  Nat.iter n crc_step (Z.shiftl y (Z.of_nat n)) = y.
Proof.
  revert y. induction n as [| n IH]; intros y; simpl; [by rewrite Z.shiftl_0_r |].
  replace (Z.shiftl y (Z.of_nat (S n))) with (Z.shiftl (Z.shiftl y 1) (Z.of_nat n))
    by (rewrite Z.shiftl_shiftl by lia; f_equal; lia).
  rewrite IH, crc_step_spec, Z.shiftl_mul_pow2, Z.pow_1_r by lia.
  rewrite Z.mul_comm, Z.odd_mul. cbn [Z.odd andb].
  rewrite Z.shiftr_div_pow2, Z.pow_1_r by lia. rewrite Z.mul_comm. by apply Z.div_mul.
Qed.

Lemma split_low_byte x : x = Z.lxor (Z.land x 255) (Z.shiftl (Z.shiftr x 8) 8).
Proof.
  change 255 with (Z.ones 8). apply Z.bits_inj'. intros n Hn.
  rewrite Z.lxor_spec, Z.land_spec, Z.shiftl_spec by done.
  destruct (Z.ltb_spec n 8).
  - rewrite Z.ones_spec_low by lia. rewrite (Z.testbit_neg_r _ (n - 8)) by lia.
    by rewrite andb_true_r, xorb_false_r.
  - rewrite Z.ones_spec_high by lia. rewrite Z.shiftr_spec by lia.
    replace (n - 8 + 8) with n by lia. by rewrite andb_false_r.
Qed.

Lemma table_lookup i : 0 <= i < 256 -> nth (Z.to_nat i) table 0 = crc_entry i.
Proof.
  intros Hi. unfold table. rewrite nth_lookup, list_lookup_fmap, lookup_seqZ_lt by lia.
  cbn -[crc_entry]. f_equal. lia.
Qed.

Lemma byte_shiftr_8 b : Z.shiftr (Z_of_byte b) 8 = 0.
Proof.
  pose proof (Z_of_byte_range b). rewrite Z.shiftr_div_pow2 by lia. by apply Z.div_small.
Qed.

(** One table lookup is eight register steps. *)
Lemma crc_update_spec crc b :
  crc_update crc b = Nat.iter 8 crc_step (Z.lxor crc (Z_of_byte b)).
Proof.
  unfold crc_update. set (x := Z.lxor crc (Z_of_byte b)).
  rewrite table_lookup.
  - rewrite (split_low_byte x) at 2. rewrite crc_iter_lxor.
    change 8 with (Z.of_nat 8) at 3. rewrite crc_iter_shift. f_equal.
    unfold x. by rewrite Z.shiftr_lxor, byte_shiftr_8, Z.lxor_0_r.
  - change 255 with (Z.ones 8). rewrite Z.land_ones by lia. apply Z.mod_pos_bound. lia.
Qed.

(** The table-driven CRC-32 is the bitwise CRC-32 of the same polynomial on every
    input. *)
Theorem crc32_table_correct data : crc32 data = crc32_bitwise data.
Proof.
  unfold crc32, crc32_bitwise. f_equal. generalize 4294967295 as c.
  induction data as [| b data IH]; intros c; simpl fold_left; [done |].
  rewrite crc_update_spec. apply IH.
Qed.

(** ** Error detection *)
Lemma crc_step_range c : in_u 32 c -> in_u 32 (crc_step c).
Proof.
  intros [H1 H2]. rewrite crc_step_spec. unfold in_u.
  assert (Hs : 0 <= Z.shiftr c 1 < 2 ^ 31).
  { rewrite Z.shiftr_div_pow2 by lia. split; [apply Z.div_pos; lia | apply Z.div_lt_upper_bound; lia]. }
  destruct (Z.odd c); [| lia].
  destruct (Z.eq_dec (Z.lxor POLYNOMIAL (Z.shiftr c 1)) 0) as [-> | Hne]; [lia |].
  assert (0 <= Z.lxor POLYNOMIAL (Z.shiftr c 1)).
  { apply Z.lxor_nonneg. unfold POLYNOMIAL. lia. }
  split; [done |]. apply Z.log2_lt_pow2; [lia |].
  eapply Z.le_lt_trans; [apply Z.log2_lxor; unfold POLYNOMIAL; lia |].
  apply Z.max_lub_lt; [by vm_compute |].
  destruct (Z.eq_dec (Z.shiftr c 1) 0) as [-> | Hz]; [by vm_compute |].
  apply Z.log2_lt_pow2; lia.
Qed.

(** The bit shifted out reappears as the top bit of the register, so a step loses nothing. *)
Lemma crc_step_top c : in_u 32 c -> Z.testbit (crc_step c) 31 = Z.odd c.
Proof.
  intros [H1 H2]. rewrite crc_step_spec.
  assert (Hs : Z.testbit (Z.shiftr c 1) 31 = false).
  { rewrite Z.shiftr_spec by lia. apply (testbit_small c 32); lia. }
  destruct (Z.odd c); [| done]. rewrite Z.lxor_spec, Hs. reflexivity.
Qed.

Lemma crc_step_inj a b : in_u 32 a -> in_u 32 b -> crc_step a = crc_step b -> a = b.
Proof.
  intros Ha Hb E. assert (Ho : Z.odd a = Z.odd b) by (by rewrite <- !crc_step_top, E).
  rewrite !crc_step_spec, Ho in E.
  assert (Hs : Z.shiftr a 1 = Z.shiftr b 1).
  { destruct (Z.odd b); [| done]. apply (f_equal (Z.lxor POLYNOMIAL)) in E.
    by rewrite <- !Z.lxor_assoc, Z.lxor_nilpotent, !Z.lxor_0_l in E. }
  rewrite !Z.shiftr_div_pow2, Z.pow_1_r in Hs by lia.
  pose proof (Z.div_mod a 2 ltac:(lia)). pose proof (Z.div_mod b 2 ltac:(lia)).
  rewrite !Zmod_odd, Ho in *. lia.
Qed.

Lemma crc_iter_inj n a b :
  in_u 32 a -> in_u 32 b -> Nat.iter n crc_step a = Nat.iter n crc_step b -> a = b.
Proof.
  revert a b. induction n as [| n IH]; intros a b Ha Hb E; [done |].
  rewrite !Nat.iter_succ_r in E. apply crc_step_inj; [done.. |].
  apply IH; [by apply crc_step_range.. | done].
Qed.

Lemma crc_iter_range n a : in_u 32 a -> in_u 32 (Nat.iter n crc_step a).
Proof. intros. induction n; simpl; [done | by apply crc_step_range]. Qed.

Lemma lxor_range w a b : 0 <= w -> in_u w a -> in_u w b -> in_u w (Z.lxor a b).
Proof.
  intros Hw [? Ha] [? Hb]. unfold in_u.
  assert (E : Z.lxor a b = Z.lxor a b mod 2 ^ w); [| rewrite E; apply Z.mod_pos_bound; lia].
  symmetry. rewrite <- Z.land_ones by done. apply Z.bits_inj'. intros n Hn.
  rewrite Z.land_spec, Z.lxor_spec. destruct (Z.ltb_spec n w).
  - rewrite Z.ones_spec_low by lia. apply andb_true_r.
  - rewrite Z.ones_spec_high by lia.
    by rewrite (testbit_small a w n), (testbit_small b w n) by lia.
Qed.

Lemma byte_range_32 b : in_u 32 (Z_of_byte b).
Proof. pose proof (Z_of_byte_range b). unfold in_u. lia. Qed.
#[export] Hint Resolve lxor_range byte_range_32 crc_iter_range : rdbms.

Lemma crc_update_range c b : in_u 32 c -> in_u 32 (crc_update c b).
Proof. intros. rewrite crc_update_spec. auto with rdbms lia. Qed.

Lemma crc_fold_range data c : in_u 32 c -> in_u 32 (fold_left crc_update data c).
Proof.
  revert c. induction data; intros c Hc; simpl; [done |]. by apply IHdata, crc_update_range.
Qed.

Lemma crc32_range data : in_u 32 (crc32 data).
Proof.
  unfold crc32. apply lxor_range; [lia | | unfold in_u; lia].
  apply crc_fold_range. unfold in_u. lia.
Qed.

Lemma lxor_cancel_r a b c : Z.lxor a c = Z.lxor b c -> a = b.
Proof.
  intros E. apply (f_equal (fun x => Z.lxor x c)) in E.
  by rewrite !Z.lxor_assoc, Z.lxor_nilpotent, !Z.lxor_0_r in E.
Qed.

(** A fixed suffix maps different registers to different registers. *)
Lemma crc_fold_inj data c d :
  in_u 32 c -> in_u 32 d ->
  fold_left crc_update data c = fold_left crc_update data d -> c = d.
Proof.
  revert c d. induction data as [| b data IH]; intros c d Hc Hd E; simpl in E; [done |].
  apply IH in E; [| by apply crc_update_range..].
  rewrite !crc_update_spec in E. apply crc_iter_inj in E; [| auto with rdbms lia..].
  by apply lxor_cancel_r in E.
Qed.

Lemma crc32_byte_inj pre post b b' :
  crc32 (pre ++ b :: post) = crc32 (pre ++ b' :: post) -> b = b'.
Proof.
  unfold crc32. intros E%lxor_cancel_r. rewrite !fold_left_app in E. simpl in E.
  set (c := fold_left crc_update pre 4294967295) in E.
  assert (Hc : in_u 32 c) by (apply crc_fold_range; unfold in_u; lia).
  apply crc_fold_inj in E; [| by apply crc_update_range..].
  rewrite !crc_update_spec in E. apply crc_iter_inj in E; [| auto with rdbms lia..].
  rewrite !(Z.lxor_comm c) in E. by apply lxor_cancel_r, Z_of_byte_inj in E.
Qed.

(** Any corruption confined to one byte changes the CRC: two messages that differ in a
    single byte never collide, wherever the byte is and whatever surrounds it. *)
Theorem crc32_detects_byte_corruption pre post b b' :
  b <> b' -> crc32 (pre ++ b :: post) <> crc32 (pre ++ b' :: post).
Proof. intros Hb E. by apply crc32_byte_inj in E. Qed.

Lemma crc32_detects_byte_corruption_witness :
  crc32 (str "page" ++ Byte.x41 :: str "tail") <> crc32 (str "page" ++ Byte.x42 :: str "tail").
Proof. apply (crc32_detects_byte_corruption (str "page") (str "tail")). discriminate. Defined.

Example crc32_check : crc32 (str "123456789") = 3421780262.
Proof. vm_compute. reflexivity. Qed.
