(* ===== verification/Errors.v ===== *)
(** * Error types and their SQLSTATE mapping

    crates/common/src/error.rs, crates/storage/src/error.rs, crates/txn/src/error.rs:
    the errors a client can be told about, the storage and transaction errors they come
    from, and what is shown, logged and retried. *)
From S2P Require Import Prelude Text Common Value.

(** [std::io::Error], by its message *)
Definition IoError : Type := bytes.

(** ** storage/src/error.rs *)
Module Storage.
Inductive Error : Type :=
| Io (e : IoError)
| BufferPoolExhausted
| BufferPoolWaitTimedOut (waited_ms : Z)
| CorruptPage (page_id : Z) (reason : bytes)
| PageNotFound (page_id : Z)
| TruncatedFile (actual expected page_size : Z)
| TupleTooLarge (size max : Z)
| KeyTooLarge (size max : Z)
| CorruptLogHeader (reason : bytes)
| ChecksumMismatch (page_id expected actual : Z)
| DoubleWriteRestoreFailed (page_id : Z)
| InvalidDwbCapacity
| UnorderableKey (e : Value.Error)
| InPlaceUpdateOutOfBounds (page_id slot tuple_len offset patch_len : Z)
| NodeOverflow (page_id required capacity : Z)
| DatabaseLocked (path : bytes)
| FlushPoisoned.
End Storage.

(** ** common/src/error.rs *)
Module Db.
Inductive Severity : Type := SError | SFatal | SPanic.
#[global] Instance Severity_eq_dec : EqDecision Severity.
Proof. solve_decision. Defined.

Inductive Error : Type :=
| Io (e : IoError)
| ChecksumMismatch (page_id expected actual : Z)
| CorruptPage (page_id : Z) (reason : bytes)
| CorruptLog (reason : bytes)
| TruncatedFile (actual expected page_size : Z)
| PageNotFound (page_id : Z)
| DoubleWriteRestoreFailed (page_id : Z)
| BufferPoolExhausted
| BufferPoolWaitTimedOut (waited_ms : Z)
| TupleTooLarge (size max : Z)
| KeyTooLarge (size max : Z)
| InvalidConfiguration (detail : bytes)
| Syntax (message : bytes) (offset : Z)
| ColumnCountMismatch (expected found : Z)
| ParameterCountMismatch (expected found : Z)
| UndefinedTable (name : bytes)
| UndefinedColumn (name : bytes)
| UndefinedFunction (name : bytes)
| UndefinedParameter (index : Z)
| AmbiguousColumn (name : bytes)
| DuplicateTable (name : bytes)
| UndefinedIndex (name : bytes)
| DuplicateIndex (name : bytes)
| DatatypeMismatch (detail : bytes)
| NumericValueOutOfRange (column value data_type : bytes)
| DataCorrupted (detail : bytes)
| SerializationFailure (detail : bytes)
| DeadlockDetected (detail : bytes)
| Internal (detail : bytes)
| NestedTransaction
| NoActiveTransaction (statement : bytes)
| TransactionAborted
| NotSupported (what : bytes)
| DatabaseLocked (path : bytes)
| FlushPoisoned
| EngineUnavailable (detail : bytes)
| LockTimeout (detail : bytes)
| IdleInTransactionTimeout
| UnknownSession (detail : bytes).

(** [sql_state.rs]: the codes [sql_state] uses. *)
Definition CONNECTION_DOES_NOT_EXIST := sqlstate "08003".
Definition CONNECTION_FAILURE := sqlstate "08006".
Definition PROTOCOL_VIOLATION := sqlstate "08P01".
Definition NUMERIC_VALUE_OUT_OF_RANGE := sqlstate "22003".
Definition NO_ACTIVE_SQL_TRANSACTION := sqlstate "25P01".
Definition IN_FAILED_SQL_TRANSACTION := sqlstate "25P02".
Definition IDLE_IN_TRANSACTION_SESSION_TIMEOUT := sqlstate "25P03".
Definition LOCK_NOT_AVAILABLE := sqlstate "55P03".
Definition SERIALIZATION_FAILURE := sqlstate "40001".
Definition DEADLOCK_DETECTED := sqlstate "40P01".
Definition STATEMENT_COMPLETION_UNKNOWN := sqlstate "40003".
Definition SYNTAX_ERROR := sqlstate "42601".
Definition AMBIGUOUS_COLUMN := sqlstate "42702".
Definition UNDEFINED_COLUMN := sqlstate "42703".
Definition UNDEFINED_PARAMETER := sqlstate "42P02".
Definition UNDEFINED_TABLE := sqlstate "42P01".
Definition DUPLICATE_TABLE := sqlstate "42P07".
Definition DATATYPE_MISMATCH := sqlstate "42804".
Definition UNDEFINED_OBJECT := sqlstate "42704".
Definition UNDEFINED_FUNCTION := sqlstate "42883".
Definition DUPLICATE_OBJECT := sqlstate "42710".
Definition FEATURE_NOT_SUPPORTED := sqlstate "0A000".
Definition OUT_OF_MEMORY := sqlstate "53200".
Definition PROGRAM_LIMIT_EXCEEDED := sqlstate "54000".
Definition IO_ERROR := sqlstate "58030".
Definition INTERNAL_ERROR := sqlstate "XX000".
Definition DATA_CORRUPTED := sqlstate "XX001".

Definition sql_state (e : Error) : SqlState :=
  match e with
  | Io _ => IO_ERROR
  | ChecksumMismatch _ _ _ => DATA_CORRUPTED
  | CorruptPage _ _ => DATA_CORRUPTED
  | CorruptLog _ => DATA_CORRUPTED
  | TruncatedFile _ _ _ => DATA_CORRUPTED
  | PageNotFound _ => DATA_CORRUPTED
  | DoubleWriteRestoreFailed _ => IO_ERROR
  | BufferPoolExhausted => OUT_OF_MEMORY
  | BufferPoolWaitTimedOut _ => OUT_OF_MEMORY
  | TupleTooLarge _ _ => PROGRAM_LIMIT_EXCEEDED
  | KeyTooLarge _ _ => PROGRAM_LIMIT_EXCEEDED
  | InvalidConfiguration _ => CONNECTION_FAILURE
  | Syntax _ _ => SYNTAX_ERROR
  | ColumnCountMismatch _ _ => SYNTAX_ERROR
  | ParameterCountMismatch _ _ => PROTOCOL_VIOLATION
  | UndefinedTable _ => UNDEFINED_TABLE
  | UndefinedColumn _ => UNDEFINED_COLUMN
  | UndefinedFunction _ => UNDEFINED_FUNCTION
  | UndefinedParameter _ => UNDEFINED_PARAMETER
  | AmbiguousColumn _ => AMBIGUOUS_COLUMN
  | DuplicateTable _ => DUPLICATE_TABLE
  | UndefinedIndex _ => UNDEFINED_OBJECT
  | DuplicateIndex _ => DUPLICATE_OBJECT
  | DatatypeMismatch _ => DATATYPE_MISMATCH
  | NumericValueOutOfRange _ _ _ => NUMERIC_VALUE_OUT_OF_RANGE
  | DataCorrupted _ => DATA_CORRUPTED
  | SerializationFailure _ => SERIALIZATION_FAILURE
  | DeadlockDetected _ => DEADLOCK_DETECTED
  | Internal _ => INTERNAL_ERROR
  | NestedTransaction => NO_ACTIVE_SQL_TRANSACTION
  | NoActiveTransaction _ => NO_ACTIVE_SQL_TRANSACTION
  | TransactionAborted => IN_FAILED_SQL_TRANSACTION
  | NotSupported _ => FEATURE_NOT_SUPPORTED
  | DatabaseLocked _ => LOCK_NOT_AVAILABLE
  | FlushPoisoned => IO_ERROR
  | EngineUnavailable _ => CONNECTION_FAILURE
  | LockTimeout _ => LOCK_NOT_AVAILABLE
  | IdleInTransactionTimeout => IDLE_IN_TRANSACTION_SESSION_TIMEOUT
  | UnknownSession _ => CONNECTION_DOES_NOT_EXIST
  end.

Definition severity (e : Error) : Severity :=
  match e with
  | Io _ | ChecksumMismatch _ _ _ | CorruptPage _ _ | CorruptLog _ | TruncatedFile _ _ _
  | PageNotFound _ | DoubleWriteRestoreFailed _ | InvalidConfiguration _ | DataCorrupted _
  | Internal _ | DatabaseLocked _ | FlushPoisoned | EngineUnavailable _ | UnknownSession _ => SFatal
  | BufferPoolExhausted | BufferPoolWaitTimedOut _ | TupleTooLarge _ _ | KeyTooLarge _ _
  | Syntax _ _ | ColumnCountMismatch _ _ | ParameterCountMismatch _ _ | UndefinedTable _
  | UndefinedColumn _ | UndefinedFunction _ | UndefinedParameter _ | AmbiguousColumn _
  | DuplicateTable _ | UndefinedIndex _ | DuplicateIndex _ | DatatypeMismatch _
  | NumericValueOutOfRange _ _ _ | SerializationFailure _ | DeadlockDetected _
  | NestedTransaction | NoActiveTransaction _ | TransactionAborted | NotSupported _
  | LockTimeout _ | IdleInTransactionTimeout => SError
  end.

Definition is_retryable (e : Error) : bool :=
  bool_decide (sql_state e = SERIALIZATION_FAILURE \/ sql_state e = DEADLOCK_DETECTED
               \/ sql_state e = STATEMENT_COMPLETION_UNKNOWN \/ sql_state e = LOCK_NOT_AVAILABLE).

(** [Display], from the [#[error(..)]] attributes *)
Definition to_string (e : Error) : bytes :=
  match e with
  | Io e => str "io error: " ++ e
  | ChecksumMismatch page_id expected actual =>
      str "checksum mismatch on page " ++ fmt_u page_id ++ str ": expected "
      ++ fmt_hex010 expected ++ str ", got " ++ fmt_hex010 actual
  | CorruptPage page_id reason => str "corrupt page " ++ fmt_u page_id ++ str ": " ++ reason
  | CorruptLog reason => str "corrupt write-ahead log: " ++ reason
  | TruncatedFile actual expected page_size =>
      str "database file length " ++ fmt_u actual ++ str " bytes is not a multiple of the "
      ++ fmt_u page_size ++ str "-byte page size (expected " ++ fmt_u expected
      ++ str " bytes for a whole number of pages)"
  | PageNotFound page_id => str "page " ++ fmt_u page_id ++ str " not found"
  | DoubleWriteRestoreFailed page_id =>
      str "double-write restore for page " ++ fmt_u page_id
      ++ str " did not survive its own write; the batch is left in place for a retry"
  | BufferPoolExhausted => str "buffer pool exhausted: no evictable frame available"
  | BufferPoolWaitTimedOut ms =>
      str "timed out after waiting " ++ fmt_u ms ++ str "ms for a free buffer pool frame"
  | TupleTooLarge size max =>
      str "tuple of " ++ fmt_u size ++ str " bytes exceeds the " ++ fmt_u max
      ++ str "-byte maximum for a single page"
  | KeyTooLarge size max =>
      str "index key of " ++ fmt_u size ++ str " bytes exceeds the " ++ fmt_u max
      ++ str "-byte maximum a single node can hold"
  | InvalidConfiguration detail => str "invalid configuration: " ++ detail
  | Syntax message _ => message
  | ColumnCountMismatch expected found =>
      str "column count mismatch: expected " ++ fmt_u expected ++ str ", found " ++ fmt_u found
  | ParameterCountMismatch expected found =>
      str "parameter count mismatch: expected " ++ fmt_u expected ++ str ", found " ++ fmt_u found
  | UndefinedTable name => str "undefined table: " ++ name
  | UndefinedColumn name => str "undefined column: " ++ name
  | UndefinedFunction name => str "undefined function: " ++ name
  | UndefinedParameter index => str "undefined parameter: $" ++ fmt_u index
  | AmbiguousColumn name => str "ambiguous column reference: " ++ name
  | DuplicateTable name => str "table already exists: " ++ name
  | UndefinedIndex name => str "undefined index: " ++ name
  | DuplicateIndex name => str "index already exists: " ++ name
  | DatatypeMismatch detail => str "datatype mismatch: " ++ detail
  | NumericValueOutOfRange column value data_type =>
      str "value " ++ value ++ str " out of range for column " ++ column ++ str " (" ++ data_type ++ str ")"
  | DataCorrupted detail => str "data corrupted: " ++ detail
  | SerializationFailure detail => str "serialization failure: " ++ detail
  | DeadlockDetected detail => str "deadlock detected: " ++ detail
  | Internal detail => str "internal error: " ++ detail
  | NestedTransaction => str "already inside a transaction; nested BEGIN is not allowed"
  | NoActiveTransaction statement => str "no active transaction to " ++ statement
  | TransactionAborted => str "current transaction is aborted; statements are ignored until ROLLBACK"
  | NotSupported what => str "not supported: " ++ what
  | DatabaseLocked path => str "another process has this database open: " ++ path
  | FlushPoisoned =>
      str "buffer pool is poisoned: a previous flush failed after its double-write buffer batch was synced but before it was cleared, and writing a new batch now would overwrite a backup copy recovery still needs; reopen the database to let recovery repair it before any further page can be flushed"
  | EngineUnavailable detail => str "the database engine is not running: " ++ detail
  | LockTimeout detail => str "timed out waiting for the engine's transaction slot: " ++ detail
  | IdleInTransactionTimeout =>
      str "the previous transaction was aborted after sitting idle past the configured timeout"
  | UnknownSession detail =>
      str "the requested session is no longer registered with the engine: " ++ detail
  end.

(** What a log line may show of an error. *)
Definition redacted (e : Error) : bytes :=
  match e with
  | Syntax _ offset => str "syntax error at offset " ++ fmt_u offset ++ str ": ?"
  | DatatypeMismatch _ => str "datatype mismatch: ?"
  | NumericValueOutOfRange column _ data_type =>
      str "value ? out of range for column " ++ column ++ str " (" ++ data_type ++ str ")"
  | e => to_string e
  end.
End Db.

(** [Display] of a [ValueError]; type names are quoted by [{:?}]. *)
Definition quoted (s : bytes) : bytes := [byte_of_Z 34] ++ s ++ [byte_of_Z 34].
Definition value_error_to_string (e : Value.Error) : bytes :=
  match e with
  | Value.TypeMismatch lhs rhs =>
      str "type mismatch: cannot compare " ++ quoted lhs ++ str " with " ++ quoted rhs
  | Value.UnorderableValue reason => reason
  | Value.InvalidEncoding reason => str "malformed memcomparable encoding: " ++ reason
  end.

(** [Display] of a [StorageError] *)
Definition storage_error_to_string (e : Storage.Error) : bytes :=
  match e with
  | Storage.Io e => str "disk io error: " ++ e
  | Storage.BufferPoolExhausted => str "buffer pool exhausted: no evictable frame available"
  | Storage.BufferPoolWaitTimedOut ms =>
      str "timed out after waiting " ++ fmt_u ms ++ str "ms for a free buffer pool frame"
  | Storage.CorruptPage page_id reason =>
      str "corrupt page " ++ fmt_u page_id ++ str ": " ++ reason
  | Storage.PageNotFound page_id => str "page " ++ fmt_u page_id ++ str " not found"
  | Storage.TruncatedFile actual expected page_size =>
      str "database file length " ++ fmt_u actual ++ str " bytes is not a multiple of the "
      ++ fmt_u page_size ++ str "-byte page size (expected " ++ fmt_u expected
      ++ str " bytes for a whole number of pages)"
  | Storage.TupleTooLarge size max =>
      str "tuple of " ++ fmt_u size ++ str " bytes exceeds the " ++ fmt_u max
      ++ str "-byte maximum for a single page"
  | Storage.KeyTooLarge size max =>
      str "index key of " ++ fmt_u size ++ str " bytes exceeds the " ++ fmt_u max
      ++ str "-byte maximum a single node can hold"
  | Storage.CorruptLogHeader reason => str "corrupt write-ahead log header: " ++ reason
  | Storage.ChecksumMismatch page_id expected actual =>
      str "checksum mismatch on page " ++ fmt_u page_id ++ str ": expected "
      ++ fmt_hex010 expected ++ str ", got " ++ fmt_hex010 actual
  | Storage.DoubleWriteRestoreFailed page_id =>
      str "double-write restore for page " ++ fmt_u page_id
      ++ str " did not survive its own write; the batch is left in place for a retry"
  | Storage.InvalidDwbCapacity => str "double-write buffer capacity must be at least 1, got 0"
  | Storage.UnorderableKey e => str "index key cannot be encoded: " ++ value_error_to_string e
  | Storage.InPlaceUpdateOutOfBounds page_id slot tuple_len offset patch_len =>
      str "in-place update of slot " ++ fmt_u slot ++ str " on page " ++ fmt_u page_id
      ++ str " would write " ++ fmt_u patch_len ++ str " bytes at offset " ++ fmt_u offset
      ++ str ", past its " ++ fmt_u tuple_len ++ str "-byte tuple"
  | Storage.NodeOverflow page_id required capacity =>
      str "index node " ++ fmt_u page_id ++ str " would need " ++ fmt_u required
      ++ str " bytes to hold its rebuilt entries but only has " ++ fmt_u capacity
      ++ str "; rebuild refused rather than overflow the page"
  | Storage.DatabaseLocked path => str "another process has this database open: " ++ path
  | Storage.FlushPoisoned =>
      str "buffer pool is poisoned: a previous flush failed after its double-write buffer batch was synced but before it was cleared, and writing a new batch now would overwrite a backup copy recovery still needs; reopen the database to let recovery repair it before any further page can be flushed"
  end.

(** [impl From<StorageError> for common::Error] *)
Definition of_storage_error (e : Storage.Error) : Db.Error :=
  let message := storage_error_to_string e in
  match e with
  | Storage.Io e => Db.Io e
  | Storage.BufferPoolExhausted => Db.BufferPoolExhausted
  | Storage.BufferPoolWaitTimedOut ms => Db.BufferPoolWaitTimedOut ms
  | Storage.CorruptPage page_id reason => Db.CorruptPage page_id reason
  | Storage.PageNotFound page_id => Db.PageNotFound page_id
  | Storage.TruncatedFile actual expected page_size => Db.TruncatedFile actual expected page_size
  | Storage.TupleTooLarge size max => Db.TupleTooLarge size max
  | Storage.KeyTooLarge size max => Db.KeyTooLarge size max
  | Storage.CorruptLogHeader reason => Db.CorruptLog reason
  | Storage.ChecksumMismatch page_id expected actual => Db.ChecksumMismatch page_id expected actual
  | Storage.DoubleWriteRestoreFailed page_id => Db.DoubleWriteRestoreFailed page_id
  | Storage.InvalidDwbCapacity => Db.InvalidConfiguration message
  | Storage.UnorderableKey _ => Db.DatatypeMismatch message
  | Storage.InPlaceUpdateOutOfBounds _ _ _ _ _ => Db.Internal message
  | Storage.NodeOverflow _ _ _ => Db.Internal message
  | Storage.DatabaseLocked path => Db.DatabaseLocked path
  | Storage.FlushPoisoned => Db.FlushPoisoned
  end.

(** ** txn/src/error.rs *)
Module Txn.
Inductive Error : Type :=
| DeadlockVictim (t : Z)
| LockTimeout (t : Z)
| LockAfterUnlock (t : Z)
| UnknownTransaction (t : Z)
| AbortInProgress (t : Z)
| Storage (e : Storage.Error).

Definition to_string (e : Error) : bytes :=
  match e with
  | DeadlockVictim t => str "deadlock detected, transaction " ++ fmt_u t ++ str " aborted"
  | LockTimeout t => str "transaction " ++ fmt_u t ++ str " timed out waiting for a lock"
  | LockAfterUnlock t =>
      str "transaction " ++ fmt_u t
      ++ str " may not acquire new locks after release_all was already called for it"
  | UnknownTransaction t => str "unknown transaction " ++ fmt_u t
  | AbortInProgress t => str "transaction " ++ fmt_u t ++ str " is already being aborted"
  | Storage e => storage_error_to_string e
  end.

Definition into_db (e : Error) : Db.Error :=
  let detail := to_string e in
  match e with
  | DeadlockVictim _ => Db.DeadlockDetected detail
  | LockTimeout _ => Db.LockTimeout detail
  | LockAfterUnlock _ | UnknownTransaction _ | AbortInProgress _ => Db.Internal detail
  | Storage e => of_storage_error e
  end.
End Txn.

(** ** Properties *)

(** A client is told to retry exactly for serialization failures, deadlocks, lock
    time-outs and a database held by another process; of these only the last is fatal. *)
Theorem retryable_errors e :
  (Db.is_retryable e = true <->
   match e with
   | Db.SerializationFailure _ | Db.DeadlockDetected _ | Db.LockTimeout _ | Db.DatabaseLocked _ => True
   | _ => False
   end)
  /\ (Db.is_retryable e && bool_decide (Db.severity e = Db.SFatal))
     = match e with Db.DatabaseLocked _ => true | _ => false end.
Proof.
  unfold Db.is_retryable. rewrite bool_decide_eq_true.
  split; [destruct e; vm_compute; intuition discriminate | by destruct e].
Qed.

(** Redaction hides what the client typed: the logged form of a syntax error, a type
    mismatch (an unorderable index key included) or an out-of-range value does not depend
    on the message, the detail or the offending value; every other error is logged as it
    is shown. *)
Theorem redaction_hides_user_data :
  (forall m m' off, Db.redacted (Db.Syntax m off) = Db.redacted (Db.Syntax m' off))
  /\ (forall d d', Db.redacted (Db.DatatypeMismatch d) = Db.redacted (Db.DatatypeMismatch d'))
  /\ (forall c v v' t, Db.redacted (Db.NumericValueOutOfRange c v t)
                       = Db.redacted (Db.NumericValueOutOfRange c v' t))
  /\ (forall v v', Db.redacted (of_storage_error (Storage.UnorderableKey v))
                   = Db.redacted (of_storage_error (Storage.UnorderableKey v')))
  /\ (forall e, match e with
                | Db.Syntax _ _ | Db.DatatypeMismatch _ | Db.NumericValueOutOfRange _ _ _ => True
                | _ => Db.redacted e = Db.to_string e
                end).
Proof.
  split; [done |]. split; [done |]. split; [done |]. split; [done |].
  by intros [].
Qed.
