(* ===== verification/LockManager.v ===== *)
(** * Two-phase locking: crates/txn/src/lock_manager.rs

    The lock table is a state; each critical section of the source (everything done
    while [LockManager.state] is locked) is one function on it. [acquire] blocks on a
    condition variable, so it is a sequence of critical sections: one when it is
    called, one after each wake-up, and one when its deadline has passed. The step
    relation [step] interleaves them freely between transactions. *)
From S2P Require Import Prelude Common.

Inductive LockMode : Type := Shared | Exclusive.
#[export] Instance LockMode_eq_dec : EqDecision LockMode.
Proof. solve_decision. Defined.

Definition conflicts_with (self other : LockMode) : bool :=
  negb (match self, other with Shared, Shared => true | _, _ => false end).

Inductive Resource : Type := Row (r : Rid) | Table (t : TableId).
#[export] Instance Resource_eq_dec : EqDecision Resource.
Proof. solve_decision. Defined.
#[export] Instance Resource_countable : Countable Resource.
Proof.
  apply (inj_countable' (fun r => match r with Row r => inl r | Table t => inr t end)
                        (fun s => match s with inl r => Row r | inr t => Table t end)).
  by intros [].
Defined.

Record State : Type := mkState {
  holders : gmap Resource (list (TxnId * LockMode));
  held_by : gmap TxnId (gset Resource);
  waiting_for : gmap TxnId (Resource * LockMode);
  finished : gset TxnId;
}.

Definition State_default : State := mkState ∅ ∅ ∅ ∅.

(** [txn::TxnError] as the lock manager raises it *)
Inductive LockError : Type :=
| DeadlockVictim (t : TxnId)
| LockTimeout (t : TxnId)
| LockAfterUnlock (t : TxnId).

(** The entries of a resource: [holders.get(&resource).into_iter().flatten()] *)
Definition holders_of (s : State) (r : Resource) : list (TxnId * LockMode) :=
  default [] (holders s !! r).

Definition conflicting_holders (s : State) (r : Resource) (mode : LockMode) (exclude : TxnId)
    : list TxnId :=
  fst <$> filter (fun e => e.1 <> exclude /\ conflicts_with e.2 mode = true) (holders_of s r).

(** Where the wait-for graph leads from [t]. *)
Definition waits_on (s : State) (t : TxnId) : list TxnId :=
  match waiting_for s !! t with
  | Some (r, mode) => conflicting_holders s r mode t
  | None => []
  end.

(** The depth-first search of [would_deadlock]. The [Vec] used as a stack is the list
    reversed, so [pop] takes the head and [extend] puts the new entries, reversed, on it. *)
Fixpoint deadlock_search (fuel : nat) (s : State) (start : TxnId) (stack : list TxnId)
    (visited : gset TxnId) : option bool :=
  match fuel with
  | O => None
  | S fuel =>
      match stack with
      | [] => Some false
      | t :: stack =>
          if decide (t = start) then Some true
          else if decide (t ∈ visited) then deadlock_search fuel s start stack visited
          else deadlock_search fuel s start (reverse (waits_on s t) ++ stack) ({[t]} ∪ visited)
      end
  end.

(** Stack pushes the search can still make: everything the unvisited waiters point to. *)
Definition pending_edges (s : State) (visited : gset TxnId) : nat :=
  sum_list_with (fun t => if decide (t ∈ visited) then O else length (waits_on s t))
                (elements (dom (waiting_for s))).

Definition search_fuel (s : State) (stack : list TxnId) (visited : gset TxnId) : nat :=
  S (length stack + pending_edges s visited).

Definition would_deadlock (s : State) (start : TxnId) (blockers : list TxnId) : bool :=
  default false (deadlock_search (search_fuel s (reverse blockers) ∅) s start (reverse blockers) ∅).

Definition set_waiting (w : gmap TxnId (Resource * LockMode)) (s : State) : State :=
  mkState (holders s) (held_by s) w (finished s).

(** [held_mode]: the mode [t] holds [r] in. *)
Definition held_mode (s : State) (r : Resource) (t : TxnId) : option LockMode :=
  snd <$> (list_find (fun e => e.1 = t) (holders_of s r) ≫= fun p => Some p.2).

Inductive Attempt : Type :=
| Granted
| Refused (e : LockError)
| Blocked.

Definition grant (s : State) (t : TxnId) (r : Resource) (mode : LockMode) : State :=
  mkState (<[r := filter (fun e => e.1 <> t) (holders_of s r) ++ [(t, mode)]]> (holders s))
          (<[t := {[r]} ∪ default ∅ (held_by s !! t)]> (held_by s))
          (waiting_for s) (finished s).

(** One iteration of the loop in [acquire], up to the wait. *)
Definition acquire_iteration (s : State) (t : TxnId) (r : Resource) (mode : LockMode)
    : Attempt * State :=
  let s := set_waiting (delete t (waiting_for s)) s in
  let held := held_mode s r t in
  if decide (held = Some Exclusive \/ held = Some mode) then (Granted, s) else
  let blockers := conflicting_holders s r mode t in
  if decide (blockers = []) then (Granted, grant s t r mode) else
  if would_deadlock s t blockers then (Refused (DeadlockVictim t), s) else
  (Blocked, set_waiting (<[t := (r, mode)]> (waiting_for s)) s).

(** The call itself: the [finished] check, then the first iteration. *)
Definition acquire (s : State) (t : TxnId) (r : Resource) (mode : LockMode) : Attempt * State :=
  if decide (t ∈ finished s) then (Refused (LockAfterUnlock t), s)
  else acquire_iteration s t r mode.

(** The deadline has passed when the waiter wakes up. *)
Definition acquire_timed_out (s : State) (t : TxnId) : Attempt * State :=
  (Refused (LockTimeout t), set_waiting (delete t (waiting_for s)) s).

Definition lock (s : State) (t : TxnId) (rid : Rid) (mode : LockMode) : Attempt * State :=
  acquire s t (Row rid) mode.
Definition lock_table (s : State) (t : TxnId) (table : TableId) (mode : LockMode)
    : Attempt * State :=
  acquire s t (Table table) mode.

(** [holders.retain(..)] on one resource of [release_all], the entry dropped when empty. *)
Definition release_one (t : TxnId) (r : Resource) (h : gmap Resource (list (TxnId * LockMode)))
    : gmap Resource (list (TxnId * LockMode)) :=
  match h !! r with
  | Some l =>
      let l := filter (fun e => e.1 <> t) l in
      if decide (l = []) then delete r h else <[r := l]> h
  | None => h
  end.

Definition release_all (s : State) (t : TxnId) : State :=
  let h := match held_by s !! t with
           | Some rs => foldr (release_one t) (holders s) (elements rs)
           | None => holders s
           end in
  mkState h (delete t (held_by s)) (delete t (waiting_for s)) ({[t]} ∪ finished s).

Definition prune_finished (s : State) (watermark : TxnId) : State :=
  mkState (holders s) (held_by s) (waiting_for s) (filter (fun id => watermark <= id) (finished s)).

(** Any critical section by any transaction may be the next one. *)
Inductive step : State -> State -> Prop :=
| step_acquire s t r mode : step s (acquire s t r mode).2
| step_wakeup s t r mode : step s (acquire_iteration s t r mode).2
| step_timeout s t : step s (acquire_timed_out s t).2
| step_release s t : step s (release_all s t)
| step_prune s w : step s (prune_finished s w).

Definition reachable (s : State) : Prop := rtc step State_default s.

(** ** Invariants *)

(** Holders of one resource: one entry per transaction, and no two in conflict. *)
Definition compatible (l : list (TxnId * LockMode)) : Prop :=
  NoDup (fst <$> l) /\
  forall t m t' m', (t, m) ∈ l -> (t', m') ∈ l -> t <> t' -> conflicts_with m m' = false.

Record Inv (s : State) : Prop := mkInv {
  inv_compatible : forall r l, holders s !! r = Some l -> l <> [] /\ compatible l;
  inv_index : forall t r, (exists m, (t, m) ∈ holders_of s r) <-> r ∈ default ∅ (held_by s !! t);
}.

(** An edge of the wait-for graph. *)
Definition waits_for (s : State) (t u : TxnId) : Prop := u ∈ waits_on s t.

Definition acyclic (s : State) : Prop := forall t, ~ tc (waits_for s) t t.

(** ** The deadlock search is reachability *)
Section search.
Context (s : State).

Lemma search_sound fuel start stack visited :
  deadlock_search fuel s start stack visited = Some true ->
  exists x, x ∈ stack /\ rtc (waits_for s) x start.
Proof.
  revert stack visited. induction fuel as [| fuel IH]; intros stack visited H; [done |].
  simpl in H. destruct stack as [| t stack]; [done |].
  destruct (decide (t = start)) as [-> | Hts].
  - exists start. split; [set_solver | done].
  - destruct (decide (t ∈ visited)).
    + apply IH in H as (x & Hx & Hr). exists x. split; [set_solver | done].
    + apply IH in H as (x & Hx & Hr). rewrite elem_of_app, elem_of_reverse in Hx.
      destruct Hx as [Hx | Hx].
      * exists t. split; [set_solver |]. by eapply rtc_l.
      * exists x. split; [set_solver | done].
Qed.

(** Every edge out of a visited node leads to a node that is visited or stacked. *)
Definition closed (stack : list TxnId) (visited : gset TxnId) : Prop :=
  forall x y, x ∈ visited -> waits_for s x y -> y ∈ visited \/ y ∈ stack.

Lemma search_complete fuel start stack visited :
  deadlock_search fuel s start stack visited = Some false ->
  closed stack visited -> start ∉ visited ->
  forall x, x ∈ visited \/ x ∈ stack -> ~ rtc (waits_for s) x start.
Proof.
  revert stack visited. induction fuel as [| fuel IH]; intros stack visited H Hc Hs x Hx; [done |].
  simpl in H. destruct stack as [| t stack].
  - destruct Hx as [Hx | Hx]; [| set_solver]. intros Hr.
    assert (Hcl : forall a b, rtc (waits_for s) a b -> a ∈ visited -> b ∈ visited).
    { induction 1 as [| a b c Hab _ IHr]; [done |]. intros Ha. apply IHr.
      destruct (Hc a b Ha Hab); [done | set_solver]. }
    by apply Hs, (Hcl x).
  - destruct (decide (t = start)) as [-> | Hts]; [done |].
    destruct (decide (t ∈ visited)) as [Hv | Hv].
    + apply (IH _ _ H); [| done | set_solver].
      intros a b Ha Hab. destruct (Hc a b Ha Hab); set_solver.
    + apply (IH _ _ H); [| set_solver | set_solver].
      intros a b Ha Hab. rewrite elem_of_app, elem_of_reverse.
      rewrite elem_of_union, elem_of_singleton in Ha. destruct Ha as [-> | Ha].
      * right. left. exact Hab.
      * destruct (Hc a b Ha Hab); set_solver.
Qed.

Lemma sum_remove (l : list TxnId) (f : TxnId -> nat) t visited :
  t ∉ visited -> t ∈ l ->
  (sum_list_with (fun x => if decide (x ∈ ({[t]} ∪ visited : gset TxnId)) then O else f x) l + f t
   <= sum_list_with (fun x => if decide (x ∈ visited) then O else f x) l)%nat.
Proof.
  intros Ht. assert (Hmono : forall l : list TxnId,
    (sum_list_with (fun x => if decide (x ∈ ({[t]} ∪ visited : gset TxnId)) then O else f x) l
     <= sum_list_with (fun x => if decide (x ∈ visited) then O else f x) l)%nat).
  { clear l. induction l as [| x l IH]; simpl; [done |].
    destruct (decide (x ∈ {[t]} ∪ visited)), (decide (x ∈ visited)); lia || set_solver. }
  induction l as [| x l IH]; intros Hl; [set_solver |]. simpl.
  destruct (decide (x = t)) as [-> | Hxt].
  - rewrite decide_True by set_solver. rewrite decide_False by done. specialize (Hmono l). lia.
  - assert (Htl : t ∈ l) by set_solver. specialize (IH Htl).
    destruct (decide (x ∈ {[t]} ∪ visited)), (decide (x ∈ visited)); lia || set_solver.
Qed.

Lemma pending_edges_visit t visited :
  t ∉ visited ->
  (pending_edges s ({[t]} ∪ visited) + length (waits_on s t) <= pending_edges s visited)%nat.
Proof.
  intros Ht. unfold pending_edges.
  destruct (decide (t ∈ dom (waiting_for s))) as [Hd | Hd].
  - apply (sum_remove _ (fun t => length (waits_on s t))); [done |]. by apply elem_of_elements.
  - assert (Hw : waits_on s t = []).
    { unfold waits_on. by rewrite (proj1 (not_elem_of_dom _ _) Hd). }
    rewrite Hw. simpl. rewrite Nat.add_0_r. induction (elements _) as [| x l IH]; simpl; [done |].
    destruct (decide (x ∈ {[t]} ∪ visited)), (decide (x ∈ visited)); lia || set_solver.
Qed.

(** The search always ends: each iteration consumes a stack entry or an edge. *)
Lemma search_terminates fuel start stack visited :
  (search_fuel s stack visited <= fuel)%nat ->
  is_Some (deadlock_search fuel s start stack visited).
Proof.
  unfold search_fuel. revert stack visited.
  induction fuel as [| fuel IH]; intros stack visited Hf; [lia |].
  simpl. destruct stack as [| t stack]; [by eexists |].
  destruct (decide (t = start)); [by eexists |]. simpl in Hf.
  destruct (decide (t ∈ visited)) as [Hv | Hv].
  - apply IH. lia.
  - apply IH. rewrite length_app, length_reverse. pose proof (pending_edges_visit t visited Hv). lia.
Qed.

Lemma would_deadlock_spec start blockers :
  would_deadlock s start blockers = true <->
  exists b, b ∈ blockers /\ rtc (waits_for s) b start.
Proof.
  unfold would_deadlock.
  destruct (search_terminates (search_fuel s (reverse blockers) ∅) start (reverse blockers) ∅)
    as [b Hb]; [done |]. rewrite Hb. simpl. destruct b.
  - apply search_sound in Hb as (x & Hx & Hr). split; [| done]. intros _.
    exists x. by rewrite elem_of_reverse in Hx.
  - split; [done |]. intros (x & Hx & Hr). exfalso. revert Hr.
    apply (search_complete _ _ _ _ Hb); [intros ? ? ?; set_solver | set_solver |].
    right. by rewrite elem_of_reverse.
Qed.
End search.

(** C23: The deadlock check is exact and always terminates: the search finishes within the
    fuel it is given, and answers [true] exactly when following the wait-for graph from
    one of the blockers leads back to the requesting transaction. *)
Theorem would_deadlock_exact s start blockers :
  is_Some (deadlock_search (search_fuel s (reverse blockers) ∅) s start (reverse blockers) ∅)
  /\ (would_deadlock s start blockers = true <->
      exists b, b ∈ blockers /\ rtc (waits_for s) b start).
Proof. split; [by apply search_terminates | apply would_deadlock_spec]. Qed.

(** ** Acyclicity of the wait-for graph *)
Lemma acyclic_mono s s' :
  (forall x y, waits_for s' x y -> waits_for s x y) -> acyclic s -> acyclic s'.
Proof.
  intros Hsub Ha.
  assert (Htc : forall x y, tc (waits_for s') x y -> tc (waits_for s) x y).
  { induction 1 as [x y H | x y z H _ IH]; [by apply tc_once, Hsub |].
    eapply tc_l; [by apply Hsub | done]. }
  intros t Ht. by apply (Ha t), Htc.
Qed.

Lemma waits_for_delete s t x y :
  waits_for (set_waiting (delete t (waiting_for s)) s) x y -> x <> t /\ waits_for s x y.
Proof.
  unfold waits_for, waits_on. simpl. destruct (decide (x = t)) as [-> | Hne].
  - rewrite lookup_delete_eq. set_solver.
  - rewrite lookup_delete_ne by done. done.
Qed.

Lemma holders_of_grant s t r mode r' :
  holders_of (grant s t r mode) r' =
    if decide (r' = r) then filter (fun e => e.1 <> t) (holders_of s r) ++ [(t, mode)]
    else holders_of s r'.
Proof.
  unfold holders_of, grant. simpl. destruct (decide (r' = r)) as [-> | Hne].
  - by rewrite lookup_insert_eq.
  - by rewrite lookup_insert_ne.
Qed.

Lemma elem_of_conflicting_holders s r mode ex u :
  u ∈ conflicting_holders s r mode ex <->
  exists m, (u, m) ∈ holders_of s r /\ u <> ex /\ conflicts_with m mode = true.
Proof.
  unfold conflicting_holders. rewrite list_elem_of_fmap. split.
  - intros ([u' m] & -> & H). apply list_elem_of_filter in H as [[H1 H2] H3]. eauto.
  - intros (m & H1 & H2 & H3). exists (u, m). rewrite list_elem_of_filter. done.
Qed.

(** A grant only adds edges into the grantee. *)
Lemma waits_for_grant s t r mode x y :
  waits_for (grant s t r mode) x y -> waits_for s x y \/ y = t.
Proof.
  unfold waits_for, waits_on. simpl. destruct (waiting_for s !! x) as [[r' m'] |]; [| set_solver].
  rewrite !elem_of_conflicting_holders. intros (m & Hin & Hne & Hc).
  rewrite holders_of_grant in Hin. destruct (decide (r' = r)) as [-> | Hr]; [| by eauto 10].
  rewrite elem_of_app, list_elem_of_filter, list_elem_of_singleton in Hin.
  destruct Hin as [[_ Hin] | [= -> ->]]; [left; by eauto 10 | by right].
Qed.

Lemma acyclic_grant s t r mode :
  waiting_for s !! t = None -> acyclic s -> acyclic (grant s t r mode).
Proof.
  intros Hw Ha.
  assert (Hout : forall y, ~ waits_for (grant s t r mode) t y).
  { intros y. unfold waits_for, waits_on. simpl. rewrite Hw. set_solver. }
  assert (Hpath : forall x y, tc (waits_for (grant s t r mode)) x y -> y = t \/ tc (waits_for s) x y).
  { intros x y H. induction H as [x y H | x y z H Hyz IH].
    - apply waits_for_grant in H as [H | ->]; [right; by apply tc_once | by left].
    - destruct IH as [-> | IH]; [by left |].
      apply waits_for_grant in H as [H | ->]; [right; by eapply tc_l |].
      exfalso. inversion Hyz; subst; by eapply Hout. }
  intros x Hx. destruct (Hpath x x Hx) as [-> | H]; [| by apply (Ha x)].
  inversion Hx; subst; by eapply Hout.
Qed.

(** Registering a waiter that cannot be reached from its blockers closes no cycle. *)
Lemma acyclic_block s t r mode :
  waiting_for s !! t = None ->
  (forall b, b ∈ conflicting_holders s r mode t -> ~ rtc (waits_for s) b t) ->
  acyclic s -> acyclic (set_waiting (<[t := (r, mode)]> (waiting_for s)) s).
Proof.
  intros Hw Hb Ha. set (s' := set_waiting _ s).
  assert (Hedge : forall x y, waits_for s' x y ->
            (x <> t /\ waits_for s x y) \/ (x = t /\ y ∈ conflicting_holders s r mode t)).
  { intros x y. unfold waits_for, waits_on, s'. simpl. destruct (decide (x = t)) as [-> | Hne].
    - rewrite lookup_insert_eq. auto.
    - rewrite lookup_insert_ne by done. auto. }
  (* a path of the new graph is a path of the old one until it meets [t] *)
  assert (Hpath : forall x y, rtc (waits_for s') x y ->
            rtc (waits_for s) x y \/ rtc (waits_for s) x t).
  { intros x y H. induction H as [| x y z H _ IH]; [by left |].
    apply Hedge in H as [[_ H] | [-> H]]; [| by right].
    destruct IH as [IH | IH]; [left | right]; by eapply rtc_l. }
  assert (Hnt : ~ tc (waits_for s') t t).
  { intros H. assert (exists b, waits_for s' t b /\ rtc (waits_for s') b t) as (b & H1 & H2).
    { inversion H; subst; eauto using tc_rtc, rtc_refl. }
    apply Hedge in H1 as [[] | [_ H1]]; [done |].
    apply (Hb b H1). by destruct (Hpath b t H2). }
  assert (Hsplit : forall x y, tc (waits_for s') x y ->
            tc (waits_for s) x y \/ (rtc (waits_for s') x t /\ rtc (waits_for s') t y)).
  { intros x y H. induction H as [x y H | x y z H Hyz IH].
    - pose proof H as H'. apply Hedge in H as [[_ H] | [-> H]]; [left; by apply tc_once |].
      right. split; [done | by apply rtc_once].
    - pose proof H as H'. apply Hedge in H as [[_ H] | [-> H]].
      + destruct IH as [IH | [IH1 IH2]]; [left; by eapply tc_l |].
        right. split; [by eapply rtc_l | done].
      + right. split; [done |]. eapply rtc_l; [done | by apply tc_rtc]. }
  intros x Hx. destruct (Hsplit x x Hx) as [H | [H1 H2]]; [by apply (Ha x) |].
  apply Hnt. eapply tc_rtc_l; [exact H2 |]. by eapply tc_rtc_r.
Qed.

(** ** Releasing *)
Lemma release_one_lookup t r h r' :
  default [] (release_one t r h !! r') =
    if decide (r' = r) then filter (fun e => e.1 <> t) (default [] (h !! r'))
    else default [] (h !! r').
Proof.
  unfold release_one. destruct (decide (r' = r)) as [-> | Hne].
  - destruct (h !! r) as [l |] eqn:E; simpl; [| by rewrite E].
    case_decide as Hl; [by rewrite lookup_delete_eq, Hl | by rewrite lookup_insert_eq].
  - destruct (h !! r); [| done].
    case_decide; [by rewrite lookup_delete_ne | by rewrite lookup_insert_ne].
Qed.

Lemma release_fold_lookup t rs h r :
  default [] (foldr (release_one t) h rs !! r) =
    if decide (r ∈ rs) then filter (fun e => e.1 <> t) (default [] (h !! r))
    else default [] (h !! r).
Proof.
  induction rs as [| r0 rs IH]; simpl; [done |]. rewrite release_one_lookup, IH.
  destruct (decide (r = r0)) as [-> | Hne].
  - rewrite (decide_True (P := r0 ∈ r0 :: rs)) by set_solver.
    destruct (decide (r0 ∈ rs)); [| done]. rewrite list_filter_filter.
    apply list_filter_iff. naive_solver.
  - destruct (decide (r ∈ rs)), (decide (r ∈ r0 :: rs)); set_solver.
Qed.

Lemma filter_id {A} (P : A -> Prop) `{!forall x, Decision (P x)} (l : list A) :
  (forall x, x ∈ l -> P x) -> filter P l = l.
Proof.
  intros Hall. induction l as [| x l IH]; [done |].
  rewrite filter_cons_True by (apply Hall; set_solver). f_equal. apply IH. set_solver.
Qed.

(** [release_all] takes the transaction out of every resource and changes nothing else. *)
Lemma holders_of_release s t r :
  Inv s -> holders_of (release_all s t) r = filter (fun e => e.1 <> t) (holders_of s r).
Proof.
  intros [_ Hidx]. unfold holders_of, release_all. simpl.
  assert (Hno : r ∉ default ∅ (held_by s !! t) ->
                filter (fun e => e.1 <> t) (default [] (holders s !! r)) = default [] (holders s !! r)).
  { intros Hr. apply filter_id. intros [u m] Hin Heq. simpl in Heq. subst u.
    apply Hr, Hidx. by exists m. }
  destruct (held_by s !! t) as [rs |] eqn:E; simpl in *.
  - rewrite release_fold_lookup. destruct (decide (r ∈ elements rs)) as [| Hn]; [done |].
    rewrite elem_of_elements in Hn. by rewrite Hno.
  - by rewrite Hno by set_solver.
Qed.

Lemma release_fold_nonempty t rs h :
  (forall r l, h !! r = Some l -> l <> []) ->
  forall r l, foldr (release_one t) h rs !! r = Some l -> l <> [].
Proof.
  intros Hh. induction rs as [| r0 rs IH]; simpl; [done |].
  intros r l. unfold release_one at 1.
  destruct (foldr (release_one t) h rs !! r0) as [l0 |] eqn:E; [| apply IH].
  case_decide as Hl.
  - rewrite lookup_delete_Some. intros [_ H]. by eapply IH.
  - rewrite lookup_insert_Some. intros [[_ <-] | [_ H]]; [done | by eapply IH].
Qed.

(** ** Preservation *)
Lemma compatible_filter l (P : TxnId * LockMode -> Prop) `{!forall e, Decision (P e)} :
  compatible l -> compatible (filter P l).
Proof.
  intros [Hnd Hc]. split.
  - eapply sublist_NoDup; [exact Hnd |]. apply fmap_sublist, sublist_filter.
  - intros t m t' m' [_ ?]%list_elem_of_filter [_ ?]%list_elem_of_filter. by apply Hc.
Qed.

Lemma holders_of_nonempty s r e : e ∈ holders_of s r -> holders s !! r = Some (holders_of s r).
Proof. unfold holders_of. destruct (holders s !! r); simpl; [done | set_solver]. Qed.

Lemma compatible_holders_of s r : Inv s -> compatible (holders_of s r).
Proof.
  intros [H _]. unfold holders_of. destruct (holders s !! r) as [l |] eqn:E; simpl.
  - by apply (H r l).
  - split; [constructor | set_solver].
Qed.

Lemma conflicts_with_sym a b : conflicts_with a b = conflicts_with b a.
Proof. by destruct a, b. Qed.

Lemma compatible_grant l t mode :
  compatible l ->
  (forall u m, (u, m) ∈ l -> u <> t -> conflicts_with m mode = false) ->
  compatible (filter (fun e => e.1 <> t) l ++ [(t, mode)]).
Proof.
  intros Hc Hm. destruct (compatible_filter l (fun e => e.1 <> t) Hc) as [Hnd Hc'].
  split.
  - rewrite fmap_app. apply NoDup_app. repeat split; [done | | apply NoDup_singleton].
    intros u (e & -> & [He _]%list_elem_of_filter)%list_elem_of_fmap. set_solver.
  - intros u m u' m'. rewrite !elem_of_app, !list_elem_of_singleton.
    intros [H | [= -> ->]] [H' | [= -> ->]] Hne.
    + by apply (Hc' u m u' m').
    + apply list_elem_of_filter in H as [? H]. by apply (Hm u m).
    + apply list_elem_of_filter in H' as [? H']. rewrite conflicts_with_sym. by apply (Hm u' m').
    + done.
Qed.

Lemma Inv_set_waiting s w : Inv s -> Inv (set_waiting w s).
Proof. intros [H1 H2]. by split. Qed.

Lemma Inv_grant s t r mode :
  Inv s -> conflicting_holders s r mode t = [] -> Inv (grant s t r mode).
Proof.
  intros HI Hb. pose proof HI as [Hc Hidx]. split.
  - intros r' l. simpl. rewrite lookup_insert_Some. intros [[<- <-] | [_ H]]; [| by apply (Hc r')].
    split; [by destruct (filter _ _) |]. apply compatible_grant; [by apply compatible_holders_of |].
    intros u m Hu Hne. destruct (conflicts_with m mode) eqn:E; [| done].
    assert (Hin : u ∈ conflicting_holders s r mode t) by (apply elem_of_conflicting_holders; eauto).
    rewrite Hb in Hin. set_solver.
  - intros u r'. rewrite holders_of_grant. simpl.
    destruct (decide (u = t)) as [-> | Hu].
    + rewrite lookup_insert_eq. simpl. rewrite elem_of_union, elem_of_singleton, <- Hidx.
      destruct (decide (r' = r)) as [-> | Hr].
      * split; [by left |]. intros _. exists mode. set_solver.
      * naive_solver.
    + rewrite lookup_insert_ne by done. rewrite <- Hidx.
      destruct (decide (r' = r)) as [-> | Hr]; [| done].
      split; intros [m Hm]; exists m; revert Hm;
        rewrite elem_of_app, list_elem_of_filter, list_elem_of_singleton; naive_solver.
Qed.

Lemma Inv_release s t : Inv s -> Inv (release_all s t).
Proof.
  intros HI. pose proof HI as [Hc Hidx]. split.
  - intros r l Hl. assert (Hof : holders_of (release_all s t) r = l).
    { unfold holders_of. by rewrite Hl. }
    split.
    + clear Hof. revert r l Hl. simpl. destruct (held_by s !! t) as [rs |].
      * apply release_fold_nonempty. intros r l H. by apply (Hc r l).
      * intros r l H. by apply (Hc r l).
    + rewrite <- Hof, holders_of_release by done. by apply compatible_filter, compatible_holders_of.
  - intros u r. rewrite holders_of_release by done. simpl.
    destruct (decide (u = t)) as [-> | Hu].
    + rewrite lookup_delete_eq. simpl. split; [| set_solver].
      intros [m [? _]%list_elem_of_filter]. done.
    + rewrite lookup_delete_ne by done. rewrite <- Hidx.
      split; intros [m Hm]; exists m; revert Hm; rewrite list_elem_of_filter; naive_solver.
Qed.

Lemma waiting_delete_None s t :
  waiting_for (set_waiting (delete t (waiting_for s)) s) !! t = None.
Proof. apply lookup_delete_eq. Qed.

(** Every branch of one iteration of [acquire] keeps both invariants. *)
Lemma acquire_iteration_preserves s t r mode :
  Inv s -> acyclic s ->
  Inv (acquire_iteration s t r mode).2 /\ acyclic (acquire_iteration s t r mode).2.
Proof.
  intros HI Ha. unfold acquire_iteration.
  pose proof (waiting_delete_None s t) as Hw.
  set (s0 := set_waiting (delete t (waiting_for s)) s) in *. cbv zeta.
  assert (HI0 : Inv s0) by (by apply Inv_set_waiting).
  assert (Ha0 : acyclic s0).
  { eapply acyclic_mono; [| exact Ha]. intros x y H. by apply waits_for_delete in H as [_ H]. }
  case_decide; [done |]. case_decide as Hb.
  - split; [by apply Inv_grant | by apply acyclic_grant].
  - destruct (would_deadlock s0 t _) eqn:Hd; [done |]. split; [by apply Inv_set_waiting |].
    apply acyclic_block; [done | | done]. intros b Hin Hr.
    assert (would_deadlock s0 t (conflicting_holders s0 r mode t) = true); [| congruence].
    apply would_deadlock_spec. by exists b.
Qed.

Lemma acyclic_release s t : Inv s -> acyclic s -> acyclic (release_all s t).
Proof.
  intros HI. apply acyclic_mono. intros x y. unfold waits_for, waits_on. simpl.
  destruct (decide (x = t)) as [-> | Hx]; [rewrite lookup_delete_eq; set_solver |].
  rewrite lookup_delete_ne by done. destruct (waiting_for s !! x) as [[r m] |]; [| done].
  rewrite !elem_of_conflicting_holders. intros (m' & Hin & ?). exists m'.
  rewrite holders_of_release in Hin by done. apply list_elem_of_filter in Hin as [_ ?]. done.
Qed.

Lemma step_preserves s s' :
  step s s' -> Inv s -> acyclic s -> Inv s' /\ acyclic s'.
Proof.
  intros Hstep HI Ha. destruct Hstep as [s t r m | s t r m | s t | s t | s w].
  - unfold acquire. case_decide; [done | by apply acquire_iteration_preserves].
  - by apply acquire_iteration_preserves.
  - split; [by apply Inv_set_waiting |]. eapply acyclic_mono; [| exact Ha].
    intros x y H. by apply waits_for_delete in H as [_ H].
  - split; [by apply Inv_release | by apply acyclic_release].
  - split; [| done]. destruct HI. by split.
Qed.

Lemma Inv_init : Inv State_default /\ acyclic State_default.
Proof.
  split.
  - split; [intros r l H; simpl in H; by rewrite lookup_empty in H |].
    intros t r. unfold holders_of. simpl. rewrite !lookup_empty. simpl. set_solver.
  - intros t H. assert (exists u, waits_for State_default t u) as [u Hu].
    { inversion H; eauto. }
    unfold waits_for, waits_on in Hu. simpl in Hu. rewrite lookup_empty in Hu. set_solver.
Qed.

Lemma reachable_inv s : reachable s -> Inv s /\ acyclic s.
Proof.
  unfold reachable. intros H. assert (Hgen : forall a b, rtc step a b -> Inv a /\ acyclic a -> Inv b /\ acyclic b).
  { induction 1 as [| a b c Hab _ IH]; [done |]. intros [H1 H2]. apply IH. by eapply step_preserves. }
  eapply Hgen; [exact H | exact Inv_init].
Qed.

(** ** Properties *)

(** C22: Mutual exclusion. Whatever interleaving of lock calls, wake-ups, time-outs, releases
    and prunings led to the state, an exclusive lock on a row or table is held by one
    transaction alone: another holder of the same resource is that transaction. *)
Theorem exclusive_lock_excludes s r t u m :
  reachable s -> (t, Exclusive) ∈ holders_of s r -> (u, m) ∈ holders_of s r -> u = t.
Proof.
  intros Hr Ht Hu. destruct (reachable_inv s Hr) as [HI _].
  destruct (compatible_holders_of s r HI) as [_ Hc].
  destruct (decide (u = t)) as [| Hne]; [done |].
  specialize (Hc u m t Exclusive Hu Ht Hne). by destruct m.
Qed.

Definition two_grants : State :=
  (acquire (acquire State_default 1 (Table 7) Exclusive).2 2 (Table 7) Shared).2.

Lemma exclusive_lock_excludes_witness : 1 = 1.
Proof.
  apply (exclusive_lock_excludes two_grants (Table 7) 1 1 Exclusive).
  - apply (rtc_l _ _ (acquire State_default 1 (Table 7) Exclusive).2); [apply step_acquire |].
    apply rtc_once, step_acquire.
  - vm_compute. by left.
  - vm_compute. by left.
Defined.

(** C15: No deadlock ever forms. In every reachable state the wait-for graph between blocked
    transactions has no cycle, so no set of transactions waits on itself forever. *)
Theorem wait_for_graph_acyclic s t :
  reachable s -> ~ tc (waits_for s) t t.
Proof. intros Hr. by apply reachable_inv. Qed.

Lemma wait_for_graph_acyclic_witness : ~ tc (waits_for two_grants) 2 2.
Proof.
  apply (wait_for_graph_acyclic two_grants).
  apply (rtc_l _ _ (acquire State_default 1 (Table 7) Exclusive).2); [apply step_acquire |].
  apply rtc_once, step_acquire.
Defined.

(** In a graph without cycles, following the edges ends. *)
Lemma chain_ends s n (seen : gset TxnId) t :
  acyclic s -> (size (dom (waiting_for s) ∖ seen) <= n)%nat ->
  (forall x, x ∈ seen -> tc (waits_for s) x t) -> waits_on s t <> [] ->
  exists u, tc (waits_for s) t u /\ waits_on s u = [].
Proof.
  intros Ha. revert seen t. induction n as [| n IH]; intros seen t Hn Hseen Ht.
  - exfalso. assert (Htd : t ∈ dom (waiting_for s)).
    { apply elem_of_dom. unfold waits_on in Ht. destruct (waiting_for s !! t); [by eexists | done]. }
    assert (t ∈ seen); [| by apply (Ha t), Hseen].
    destruct (decide (t ∈ seen)) as [| Hns]; [done |].
    assert (Hsz : size (dom (waiting_for s) ∖ seen) = O) by lia.
    apply size_empty_iff in Hsz. set_solver.
  - assert (Htd : t ∈ dom (waiting_for s)).
    { apply elem_of_dom. unfold waits_on in Ht. destruct (waiting_for s !! t); [by eexists | done]. }
    assert (Hns : t ∉ seen) by (intros Hs; by apply (Ha t), Hseen).
    destruct (waits_on s t) as [| u l] eqn:Eu; [done |].
    assert (Htu : waits_for s t u) by (unfold waits_for; rewrite Eu; set_solver).
    destruct (decide (waits_on s u = [])) as [Hu | Hu]; [exists u; split; [by apply tc_once | done] |].
    destruct (IH ({[t]} ∪ seen) u) as (v & Hv & Hv0).
    + assert (Hlt : (size (dom (waiting_for s) ∖ ({[t]} ∪ seen))
                     < size (dom (waiting_for s) ∖ seen))%nat).
      { apply subset_size. set_solver. }
      lia.
    + intros x Hx. rewrite elem_of_union, elem_of_singleton in Hx.
      destruct Hx as [-> | Hx]; [by apply tc_once |]. eapply tc_r; [by apply Hseen | done].
    + done.
    + exists v. split; [by eapply tc_l | done].
Qed.

(** Some transaction can always run. In every reachable state, following a blocked
    transaction's blockers leads to one that is not itself held up by any lock. *)
Theorem blocked_waits_for_a_running_transaction s t :
  reachable s -> waits_on s t <> [] ->
  exists u, tc (waits_for s) t u /\ waits_on s u = [].
Proof.
  intros Hr Ht. destruct (reachable_inv s Hr) as [_ Ha].
  eapply (chain_ends s _ ∅ t Ha); [done | set_solver | done].
Qed.

Lemma blocked_waits_for_a_running_transaction_witness :
  exists u, tc (waits_for two_grants) 2 u /\ waits_on two_grants u = [].
Proof.
  apply blocked_waits_for_a_running_transaction.
  - apply (rtc_l _ _ (acquire State_default 1 (Table 7) Exclusive).2); [apply step_acquire |].
    apply rtc_once, step_acquire.
  - vm_compute. discriminate.
Defined.

Lemma held_mode_spec s r t m :
  held_mode s r t = Some m -> (t, m) ∈ holders_of s r.
Proof.
  unfold held_mode. destruct (list_find _ _) as [[i [u m']] |] eqn:E; [| done].
  simpl. intros [= ->]. apply list_find_Some in E as (Hl & Hu & _). simpl in Hu. subst u.
  by eapply list_elem_of_lookup_2.
Qed.

(** The locks other transactions hold: what an attempt by [t] must leave alone. *)
Definition others (s : State) (t : TxnId) (r : Resource) : list (TxnId * LockMode) :=
  filter (fun e => e.1 <> t) (holders_of s r).

(** Every outcome of one attempt to take a lock. Granted: the transaction now holds the
    resource in the requested mode or exclusively, and is not waiting. Blocked: it is
    registered as waiting behind at least one conflicting holder. Refused as deadlock
    victim: one of its blockers already waits, directly or not, on it. In no case do the
    locks of other transactions change, and a waiting attempt takes no lock. *)
Theorem acquire_outcome s t r mode :
  let s' := (acquire_iteration s t r mode).2 in
  (forall r', others s' t r' = others s t r') /\
  match (acquire_iteration s t r mode).1 with
  | Granted =>
      (exists m, (t, m) ∈ holders_of s' r /\ (m = Exclusive \/ m = mode))
      /\ waiting_for s' !! t = None
  | Blocked =>
      holders s' = holders s /\ waiting_for s' !! t = Some (r, mode) /\ waits_on s' t <> []
  | Refused e =>
      e = DeadlockVictim t /\ holders s' = holders s /\ waiting_for s' !! t = None
      /\ exists b, b ∈ conflicting_holders s r mode t /\ rtc (waits_for s') b t
  end.
Proof.
  unfold acquire_iteration. pose proof (waiting_delete_None s t) as Hw.
  set (s0 := set_waiting (delete t (waiting_for s)) s) in *. cbv zeta.
  case_decide as Hh; [| case_decide as Hb; [| destruct (would_deadlock s0 t _) eqn:Hd]]; simpl.
  - split; [done |]. split; [| done].
    destruct Hh as [Hh | Hh]; apply held_mode_spec in Hh; eauto.
  - split.
    + intros r'. unfold others. rewrite holders_of_grant. case_decide as Hr; [| done]. subst r'.
      rewrite filter_app, list_filter_filter_l by done.
      by rewrite filter_cons_False, filter_nil, app_nil_r by naive_solver.
    + split; [| done]. exists mode. rewrite holders_of_grant, decide_True by done. set_solver.
  - split; [done |]. repeat split; [done |]. apply would_deadlock_spec in Hd. done.
  - split; [done |]. split; [done |]. split; [by rewrite lookup_insert_eq |].
    unfold waits_on. simpl. rewrite lookup_insert_eq. done.
Qed.

(** Ending a transaction frees everything it held and nothing else: it holds no resource,
    waits for none, other transactions keep exactly their locks, and any lock it asks for
    afterwards is refused with [LockAfterUnlock]. *)
Theorem release_all_frees s t :
  reachable s ->
  let s' := release_all s t in
  (forall r, holders_of s' r = others s t r)
  /\ waiting_for s' !! t = None
  /\ (forall r mode, acquire s' t r mode = (Refused (LockAfterUnlock t), s'))
  /\ (forall u, u <> t -> waiting_for s' !! u = waiting_for s !! u).
Proof.
  intros Hr s'. destruct (reachable_inv s Hr) as [HI _]. repeat split.
  - intros r. by apply holders_of_release.
  - apply lookup_delete_eq.
  - intros r mode. unfold acquire. rewrite decide_True; [done |]. simpl. set_solver.
  - intros u Hu. simpl. by rewrite lookup_delete_ne.
Qed.

Lemma release_all_frees_witness :
  holders_of (release_all two_grants 1) (Table 7) = others two_grants 1 (Table 7).
Proof.
  apply (release_all_frees two_grants 1).
  apply (rtc_l _ _ (acquire State_default 1 (Table 7) Exclusive).2); [apply step_acquire |].
  apply rtc_once, step_acquire.
Defined.
