(* ===== verification/WalRecord.v ===== *)
(** * Write-ahead-log records: crates/storage/src/wal.rs (lines 1-244)

    The record format: a length, the body, a CRC of both and the length again.
    [decode_record] is what every reader of the log goes through, so what it accepts
    decides what recovery sees after a crash. *)
From S2P Require Import Prelude Common.

Definition CHECKPOINT_TXN : TxnId := u64_max.
Definition SEGMENT_HEADER_LEN : Z := 16.
Definition HEADER_LEN : Z := SEGMENT_HEADER_LEN.
Definition MIN_RECORD_LEN : Z := 4 + 8 + 8 + 8 + 1 + 4 + 4.

(** [LogRecordKind::End] is [EndTxn] here. *)
Inductive LogRecordKind : Type :=
| Begin
| Commit
| Abort
| EndTxn
| Update (page : PageId) (offset : Z) (before after : bytes)
| AllocPage (page : PageId)
| Clr (page : PageId) (offset : Z) (after : bytes) (undo_next_lsn : Lsn)
| CheckpointBegin
| CheckpointEnd (att : list (TxnId * Lsn)) (dpt : list (PageId * Lsn)).

Definition tag (k : LogRecordKind) : Z :=
  match k with
  | Begin => 0
  | Commit => 1
  | Abort => 2
  | EndTxn => 3
  | Update _ _ _ _ => 4
  | AllocPage _ => 5
  | Clr _ _ _ _ => 6
  | CheckpointBegin => 7
  | CheckpointEnd _ _ => 8
  end.

(** A length-prefixed byte vector, as [encode_payload] writes it. *)
Definition put_len_prefixed (bs : bytes) : bytes := to_le 4 (wrapu 32 (len bs)) ++ bs.

Definition encode_payload (k : LogRecordKind) : bytes :=
  match k with
  | Begin | Commit | Abort | EndTxn | CheckpointBegin => []
  | Update page offset before after =>
      to_le 4 page ++ to_le 2 offset ++ put_len_prefixed before ++ put_len_prefixed after
  | AllocPage page => to_le 4 page
  | Clr page offset after undo_next_lsn =>
      to_le 4 page ++ to_le 2 offset ++ put_len_prefixed after ++ to_le 8 undo_next_lsn
  | CheckpointEnd att dpt =>
      to_le 4 (wrapu 32 (len att))
      ++ concat ((fun e => to_le 8 e.1 ++ to_le 8 e.2) <$> att)
      ++ to_le 4 (wrapu 32 (len dpt))
      ++ concat ((fun e => to_le 4 e.1 ++ to_le 8 e.2) <$> dpt)
  end.

(** ** Cursor *)
Record Cursor : Type := mkCursor { cbytes : bytes; pos : Z }.

Definition Cursor_new (bs : bytes) : Cursor := mkCursor bs 0.
Definition take (c : Cursor) (n : Z) : option (bytes * Cursor) :=
  s ← sub (cbytes c) (pos c) n; Some (s, mkCursor (cbytes c) (pos c + n)).
Definition take_int (c : Cursor) (n : Z) : option (Z * Cursor) :=
  '(s, c) ← take c n; Some (from_le s, c).
Definition take_u16 (c : Cursor) : option (Z * Cursor) := take_int c 2.
Definition take_u32 (c : Cursor) : option (Z * Cursor) := take_int c 4.
Definition take_u64 (c : Cursor) : option (Z * Cursor) := take_int c 8.
Definition take_len_prefixed (c : Cursor) : option (bytes * Cursor) :=
  '(n, c) ← take_u32 c; take c n.
Definition exhausted (c : Cursor) : bool := pos c =? len (cbytes c).

(** [for _ in 0..n { let id = ..; let lsn = ..; v.push((id, lsn)) }] where the id is [w]
    bytes wide. Each turn consumes input, so the input's length bounds the turns that
    can succeed: [fuel] is that length plus one, and [take_pairs_fuel] shows no result
    depends on it. *)
Fixpoint take_pairs (fuel : nat) (w n : Z) (c : Cursor) : option (list (Z * Lsn) * Cursor) :=
  if n <=? 0 then Some ([], c) else
  match fuel with
  | O => None
  | S fuel =>
      '(id, c) ← take_int c w;
      '(lsn, c) ← take_u64 c;
      '(rest, c) ← take_pairs fuel w (n - 1) c;
      Some ((id, lsn) :: rest, c)
  end.

Definition decode_payload (tag : Z) (bs : bytes) : option LogRecordKind :=
  let fuel := S (length bs) in
  '(k, c) ←
    match tag with
    | 0 => Some (Begin, Cursor_new bs)
    | 1 => Some (Commit, Cursor_new bs)
    | 2 => Some (Abort, Cursor_new bs)
    | 3 => Some (EndTxn, Cursor_new bs)
    | 4 =>
        '(page, c) ← take_u32 (Cursor_new bs);
        '(offset, c) ← take_u16 c;
        '(before, c) ← take_len_prefixed c;
        '(after, c) ← take_len_prefixed c;
        Some (Update page offset before after, c)
    | 5 =>
        '(page, c) ← take_u32 (Cursor_new bs);
        Some (AllocPage page, c)
    | 6 =>
        '(page, c) ← take_u32 (Cursor_new bs);
        '(offset, c) ← take_u16 c;
        '(after, c) ← take_len_prefixed c;
        '(undo_next_lsn, c) ← take_u64 c;
        Some (Clr page offset after undo_next_lsn, c)
    | 7 => Some (CheckpointBegin, Cursor_new bs)
    | 8 =>
        '(att_len, c) ← take_u32 (Cursor_new bs);
        '(att, c) ← take_pairs fuel 8 att_len c;
        '(dpt_len, c) ← take_u32 c;
        '(dpt, c) ← take_pairs fuel 4 dpt_len c;
        Some (CheckpointEnd att dpt, c)
    | _ => None
    end;
  if exhausted c then Some k else None.

Record LoggedRecord : Type := mkLogged {
  lsn : Lsn;
  prev_lsn : option Lsn;
  txn_id : TxnId;
  kind : LogRecordKind;
}.

Definition encode_body (r : LoggedRecord) : bytes :=
  to_le 8 (lsn r) ++ to_le 8 (default 0 (prev_lsn r)) ++ to_le 8 (txn_id r)
  ++ [byte_of_Z (tag (kind r))] ++ encode_payload (kind r).

Definition encode_record (r : LoggedRecord) : bytes :=
  let body := encode_body r in
  let total_len := wrapu 32 (4 + len body + 4 + 4) in
  let record := to_le 4 total_len ++ body in
  record ++ to_le 4 (crc32 record) ++ to_le 4 total_len.

Definition decode_body (body : bytes) : option LoggedRecord :=
  '(lsn, c) ← take_u64 (Cursor_new body);
  '(prev_lsn_raw, c) ← take_u64 c;
  '(txn_id, c) ← take_u64 c;
  '(t, c) ← take c 1;
  t ← head t;
  '(payload, c) ← take c (len (cbytes c) - pos c);
  kind ← decode_payload (Z_of_byte t) payload;
  Some (mkLogged lsn (if prev_lsn_raw =? 0 then None else Some prev_lsn_raw) txn_id kind).

Definition decode_record (bs : bytes) (pos : Z) : option (LoggedRecord * Z) :=
  front ← sub bs pos 4;
  let total_len := from_le front in
  if total_len <? MIN_RECORD_LEN then None else
  record ← sub bs pos total_len;
  trailing ← sub record (total_len - 4) 4;
  if decide (trailing <> front) then None else
  stored ← sub record (total_len - 8) 4;
  covered ← sub record 0 (total_len - 8);
  if negb (crc32 covered =? from_le stored) then None else
  body ← sub record 4 (total_len - 12);
  r ← decode_body body;
  Some (r, total_len).

(** ** Well-formed records: what the Rust types and the callers guarantee *)
Definition kind_ok (k : LogRecordKind) : Prop :=
  match k with
  | Begin | Commit | Abort | EndTxn | CheckpointBegin => True
  | Update page offset before after =>
      in_u 32 page /\ in_u 16 offset /\ in_u 32 (len before) /\ in_u 32 (len after)
  | AllocPage page => in_u 32 page
  | Clr page offset after undo => in_u 32 page /\ in_u 16 offset /\ in_u 32 (len after) /\ in_u 64 undo
  | CheckpointEnd att dpt =>
      in_u 32 (len att) /\ Forall (fun e => in_u 64 e.1 /\ in_u 64 e.2) att
      /\ in_u 32 (len dpt) /\ Forall (fun e => in_u 32 e.1 /\ in_u 64 e.2) dpt
  end.

(** LSN 0 is never a record's: the log starts at [HEADER_LEN]; a record is shorter than 4 GiB. *)
Definition record_ok (r : LoggedRecord) : Prop :=
  in_u 64 (lsn r) /\ in_u 64 (txn_id r) /\ kind_ok (kind r)
  /\ (forall p, prev_lsn r = Some p -> in_u 64 p /\ p <> 0)
  /\ len (encode_body r) + 12 < 2 ^ 32.

(** ** Reading what was written *)

(** A cursor with [pre] behind it and [rest] ahead. *)
Definition at_cursor (pre rest : bytes) : Cursor := mkCursor (pre ++ rest) (len pre).

Lemma take_at pre x rest n :
  len x = n -> take (at_cursor pre (x ++ rest)) n = Some (x, at_cursor (pre ++ x) rest).
Proof.
  intros <-. unfold take, at_cursor. simpl. rewrite sub_app_mid. simpl.
  by rewrite len_app, app_assoc.
Qed.

Lemma take_int_at pre n z rest :
  in_u (8 * Z.of_nat n) z ->
  take_int (at_cursor pre (to_le n z ++ rest)) (Z.of_nat n)
  = Some (z, at_cursor (pre ++ to_le n z) rest).
Proof.
  intros Hz. unfold take_int. rewrite take_at by apply len_to_le. simpl.
  by rewrite from_le_to_le_id.
Qed.

Lemma take_u16_at pre z rest :
  in_u 16 z -> take_u16 (at_cursor pre (to_le 2 z ++ rest)) = Some (z, at_cursor (pre ++ to_le 2 z) rest).
Proof. apply (take_int_at pre 2). Qed.
Lemma take_u32_at pre z rest :
  in_u 32 z -> take_u32 (at_cursor pre (to_le 4 z ++ rest)) = Some (z, at_cursor (pre ++ to_le 4 z) rest).
Proof. apply (take_int_at pre 4). Qed.
Lemma take_u64_at pre z rest :
  in_u 64 z -> take_u64 (at_cursor pre (to_le 8 z ++ rest)) = Some (z, at_cursor (pre ++ to_le 8 z) rest).
Proof. apply (take_int_at pre 8). Qed.

Lemma take_len_prefixed_at pre bs rest :
  in_u 32 (len bs) ->
  take_len_prefixed (at_cursor pre (put_len_prefixed bs ++ rest))
  = Some (bs, at_cursor (pre ++ put_len_prefixed bs) rest).
Proof.
  intros Hb. unfold take_len_prefixed, put_len_prefixed.
  unfold wrapu. rewrite Z.mod_small by done. rewrite <- app_assoc, take_u32_at by done.
  simpl. rewrite take_at by done. by rewrite <- app_assoc.
Qed.

Lemma take_pairs_at (w : nat) l pre rest fuel :
  Forall (fun e => in_u (8 * Z.of_nat w) e.1 /\ in_u 64 e.2) l -> (length l < fuel)%nat ->
  take_pairs fuel (Z.of_nat w) (len l)
    (at_cursor pre (concat ((fun e => to_le w e.1 ++ to_le 8 e.2) <$> l) ++ rest))
  = Some (l, at_cursor (pre ++ concat ((fun e => to_le w e.1 ++ to_le 8 e.2) <$> l)) rest).
Proof.
  intros Hl. revert pre fuel. induction Hl as [| [id ls] l [Hid Hls] _ IH]; intros pre fuel Hf.
  - destruct fuel; [simpl in Hf; lia |]. simpl. by rewrite app_nil_r.
  - destruct fuel as [| fuel]; [simpl in Hf; lia |]. cbn [take_pairs].
    rewrite len_cons. pose proof (len_nonneg l). destruct (Z.leb_spec (1 + len l) 0); [lia |].
    rewrite fmap_cons. cbn [concat fst snd]. rewrite <- !app_assoc.
    rewrite take_int_at by done. cbn [mbind option_bind].
    rewrite take_u64_at by done. cbn [mbind option_bind].
    replace (1 + len l - 1) with (len l) by lia. rewrite IH by (simpl in Hf; lia).
    cbn [mbind option_bind]. by rewrite <- !app_assoc.
Qed.

Lemma take_rest_at pre rest :
  take (at_cursor pre rest) (len (cbytes (at_cursor pre rest)) - pos (at_cursor pre rest))
  = Some (rest, at_cursor (pre ++ rest) []).
Proof.
  unfold at_cursor at 2 3. cbn [cbytes pos]. rewrite len_app.
  replace (len pre + len rest - len pre) with (len rest) by lia.
  rewrite <- (app_nil_r rest) at 1. by apply take_at.
Qed.

Lemma Cursor_new_at bs : Cursor_new bs = at_cursor [] bs.
Proof. reflexivity. Qed.

Lemma exhausted_at pre : exhausted (at_cursor pre []) = true.
Proof. unfold exhausted, at_cursor. simpl. rewrite app_nil_r. apply Z.eqb_refl. Qed.

Lemma pairs_length_le (w : nat) (l : list (Z * Z)) :
  (length l <= length (concat ((fun e => to_le w e.1 ++ to_le 8 e.2) <$> l)))%nat.
Proof.
  induction l as [| e l IH]; [done |]. rewrite fmap_cons. cbn [concat length].
  rewrite !length_app, !length_to_le. lia.
Qed.

Lemma decode_encode_payload k :
  kind_ok k -> decode_payload (tag k) (encode_payload k) = Some k.
Proof.
  intros Hk. destruct k; cbn [tag encode_payload kind_ok] in *;
    try reflexivity; unfold decode_payload; cbv zeta iota; rewrite ?Cursor_new_at.
  - destruct Hk as (? & ? & ? & ?).
    rewrite take_u32_at by done. cbn [mbind option_bind].
    rewrite take_u16_at by done. cbn [mbind option_bind].
    rewrite take_len_prefixed_at by done. cbn [mbind option_bind].
    rewrite <- (app_nil_r (put_len_prefixed after)).
    rewrite take_len_prefixed_at by done. cbn [mbind option_bind]. by rewrite exhausted_at.
  - rewrite <- (app_nil_r (to_le 4 page)).
    rewrite take_u32_at by done. cbn [mbind option_bind]. by rewrite exhausted_at.
  - destruct Hk as (? & ? & ? & ?).
    rewrite take_u32_at by done. cbn [mbind option_bind].
    rewrite take_u16_at by done. cbn [mbind option_bind].
    rewrite take_len_prefixed_at by done. cbn [mbind option_bind].
    rewrite <- (app_nil_r (to_le 8 undo_next_lsn)).
    rewrite take_u64_at by done. cbn [mbind option_bind]. by rewrite exhausted_at.
  - destruct Hk as (? & Hatt & ? & Hdpt). unfold wrapu. rewrite !Z.mod_small by done.
    rewrite take_u32_at by done. cbn [mbind option_bind].
    rewrite (take_pairs_at 8); [| done |].
    2: { pose proof (pairs_length_le 8 att). rewrite !length_app. simpl in *. lia. }
    cbn [mbind option_bind]. rewrite take_u32_at by done. cbn [mbind option_bind].
    set (fuel := S _).
    rewrite <- (app_nil_r (concat ((fun e => to_le 4 e.1 ++ to_le 8 e.2) <$> dpt))).
    rewrite (take_pairs_at 4); [| done |].
    2: { subst fuel. pose proof (pairs_length_le 4 dpt). rewrite !length_app. simpl in *. lia. }
    cbn [mbind option_bind]. by rewrite exhausted_at.
Qed.

Lemma tag_range k : 0 <= tag k < 256.
Proof. by destruct k. Qed.

Lemma decode_encode_body r : record_ok r -> decode_body (encode_body r) = Some r.
Proof.
  intros (Hl & Ht & Hk & Hp & _). unfold decode_body, encode_body. rewrite Cursor_new_at.
  rewrite take_u64_at by done. cbn [mbind option_bind].
  rewrite take_u64_at.
  2: { destruct (prev_lsn r) as [p |] eqn:E; [by apply (Hp p) | done]. }
  cbn [mbind option_bind]. rewrite take_u64_at by done. cbn [mbind option_bind].
  rewrite take_at by done. cbn [mbind option_bind head].
  rewrite take_rest_at. cbn [mbind option_bind].
  rewrite Z_of_byte_of_Z, Z.mod_small by apply tag_range.
  rewrite decode_encode_payload by done. cbn [mbind option_bind]. f_equal.
  destruct r as [ls pv tx kd]; cbn in *. f_equal. destruct pv as [p |]; simpl; [| done].
  destruct (Hp p eq_refl) as [_ Hnz]. by destruct (Z.eqb_spec p 0).
Qed.

(** ** Whole records *)
Definition record_len (r : LoggedRecord) : Z := 4 + len (encode_body r) + 4 + 4.

Lemma len_encode_body_min r : 25 <= len (encode_body r).
Proof.
  unfold encode_body. autorewrite with len.
  pose proof (len_nonneg (encode_payload (kind r))). lia.
Qed.

Lemma len_encode_record r : len (encode_record r) = record_len r.
Proof. unfold encode_record, record_len. autorewrite with len. lia. Qed.

(** The checks of [decode_record], on a buffer known to start with a framed record:
    a length, a body, four bytes where the CRC is expected and four more where the
    length is expected again. *)
Lemma decode_record_framed pre body c4 t4 post n :
  n = 4 + len body + 4 + 4 -> MIN_RECORD_LEN <= n -> n < 2 ^ 32 -> len c4 = 4 -> len t4 = 4 ->
  decode_record (pre ++ (to_le 4 n ++ body ++ c4 ++ t4) ++ post) (len pre) =
    if decide (t4 <> to_le 4 n) then None else
    if crc32 (to_le 4 n ++ body) =? from_le c4 then r ← decode_body body; Some (r, n) else None.
Proof.
  intros Hn Hmin Hmax Hc4 Ht4. unfold decode_record.
  assert (Hn32 : in_u 32 n) by (unfold in_u, MIN_RECORD_LEN in *; lia).
  pose proof (len_nonneg body) as Hb.
  set (rec := to_le 4 n ++ body ++ c4 ++ t4).
  assert (Hrl : len rec = n) by (unfold rec; autorewrite with len; lia).
  assert (Hfront : sub (pre ++ rec ++ post) (len pre) 4 = Some (to_le 4 n)).
  { unfold rec. rewrite <- !app_assoc. apply (sub_app_mid pre (to_le 4 n)). }
  rewrite Hfront. cbn [mbind option_bind]. rewrite from_le_to_le_id by done.
  destruct (Z.ltb_spec n MIN_RECORD_LEN); [lia |].
  assert (Hwhole : sub (pre ++ rec ++ post) (len pre) n = Some rec).
  { rewrite <- Hrl. apply sub_app_mid. }
  rewrite Hwhole. cbn [mbind option_bind].
  assert (H1 : sub rec (n - 4) 4 = Some t4).
  { unfold rec. rewrite !app_assoc. rewrite <- (app_nil_r (_ ++ t4)), <- app_assoc.
    replace (n - 4) with (len ((to_le 4 n ++ body) ++ c4)) by (autorewrite with len; lia).
    rewrite <- Ht4. apply (sub_app_mid _ t4). }
  assert (H2 : sub rec (n - 8) 4 = Some c4).
  { unfold rec. rewrite app_assoc.
    replace (n - 8) with (len (to_le 4 n ++ body)) by (autorewrite with len; lia).
    rewrite <- Hc4. apply (sub_app_mid _ c4). }
  assert (H3 : sub rec 0 (n - 8) = Some (to_le 4 n ++ body)).
  { unfold rec. rewrite app_assoc. apply sub_app_prefix. autorewrite with len. lia. }
  assert (H4 : sub rec 4 (n - 12) = Some body).
  { unfold rec. replace (n - 12) with (len body) by lia. apply (sub_app_mid (to_le 4 n) body). }
  rewrite H1. cbn [mbind option_bind]. destruct (decide _); [done |].
  rewrite H2. cbn [mbind option_bind]. rewrite H3. cbn [mbind option_bind].
  destruct (crc32 _ =? from_le c4); [| done]. cbn [negb]. by rewrite H4.
Qed.

Lemma encode_record_frame r :
  record_ok r ->
  encode_record r = to_le 4 (record_len r) ++ encode_body r
                    ++ to_le 4 (crc32 (to_le 4 (record_len r) ++ encode_body r))
                    ++ to_le 4 (record_len r).
Proof.
  intros (_ & _ & _ & _ & Hlen). unfold encode_record. cbv zeta. fold (record_len r).
  pose proof (len_encode_body_min r).
  unfold wrapu. rewrite Z.mod_small by (unfold record_len; lia). by rewrite <- !app_assoc.
Qed.

Lemma decode_encode_record pre r post :
  record_ok r ->
  decode_record (pre ++ encode_record r ++ post) (len pre) = Some (r, len (encode_record r)).
Proof.
  intros Hr. rewrite len_encode_record, encode_record_frame by done.
  pose proof (len_encode_body_min r). pose proof Hr as (_ & _ & _ & _ & Hlen).
  rewrite decode_record_framed;
    [| by unfold record_len, MIN_RECORD_LEN in *; lia..| by rewrite len_to_le | by rewrite len_to_le].
  rewrite decide_False by (intros Hne; by apply Hne).
  rewrite from_le_to_le_id by apply crc32_range. by rewrite Z.eqb_refl, decode_encode_body.
Qed.

(** Reading back a log record: at the offset it was written to, whatever surrounds it,
    [decode_record] returns exactly the record, and the length it occupies. *)
Theorem log_record_roundtrip pre r post :
  record_ok r ->
  decode_record (pre ++ encode_record r ++ post) (len pre) = Some (r, len (encode_record r)).
Proof. apply decode_encode_record. Qed.

Definition sample_record : LoggedRecord :=
  mkLogged 16 (Some 99) 3 (Update 2 100 (str "old") (str "new")).

Lemma sample_record_ok : record_ok sample_record.
Proof.
  unfold record_ok, in_u. cbn [lsn txn_id prev_lsn kind sample_record kind_ok]. unfold in_u.
  split; [lia |]. split; [lia |]. split; [| split].
  - change (len (str "old")) with 3. change (len (str "new")) with 3. lia.
  - intros p [= <-]. lia.
  - replace (len (encode_body sample_record)) with 45 by (vm_compute; reflexivity). lia.
Qed.

Lemma log_record_roundtrip_witness :
  decode_record (str "xx" ++ encode_record sample_record ++ str "torn") (len (str "xx"))
  = Some (sample_record, len (encode_record sample_record)).
Proof. exact (log_record_roundtrip (str "xx") sample_record (str "torn") sample_record_ok). Defined.

(** ** What the decoder accepts *)

(** Between two cursors exactly the bytes [bs] were read. *)
Definition consumed (c c' : Cursor) (bs : bytes) : Prop :=
  cbytes c' = cbytes c /\ pos c' = pos c + len bs /\ sub (cbytes c) (pos c) (len bs) = Some bs.

Lemma consumed_app c c1 c2 a b :
  consumed c c1 a -> consumed c1 c2 b -> consumed c c2 (a ++ b).
Proof.
  intros (E1 & P1 & S1) (E2 & P2 & S2). rewrite E1, P1 in *. unfold consumed. rewrite len_app.
  split; [congruence |]. split; [lia |]. by apply sub_concat.
Qed.

Lemma consumed_nil c : 0 <= pos c <= len (cbytes c) -> consumed c c [].
Proof.
  intros H. unfold consumed. change (len (@nil byte)) with 0.
  rewrite sub_Some, take_0. intuition lia.
Qed.

Lemma take_sound c n s c' : take c n = Some (s, c') -> consumed c c' s /\ len s = n.
Proof.
  unfold take. destruct (sub (cbytes c) (pos c) n) as [s0 |] eqn:E; [| done].
  intros [= -> <-]. pose proof (sub_len _ _ _ _ E) as Hl. subst n. done.
Qed.

Lemma take_int_sound (n : nat) c z c' :
  take_int c (Z.of_nat n) = Some (z, c') ->
  consumed c c' (to_le n z) /\ in_u (8 * Z.of_nat n) z.
Proof.
  unfold take_int. destruct (take c (Z.of_nat n)) as [[s c1] |] eqn:E; [| done].
  intros [= <- <-]. apply take_sound in E as [Hc Hl]. split.
  - rewrite to_le_from_le; [done |]. unfold len in Hl. lia.
  - pose proof (from_le_bound s) as Hb. rewrite Hl, pow256 in Hb. done.
Qed.

Lemma take_u16_sound c z c' : take_u16 c = Some (z, c') -> consumed c c' (to_le 2 z) /\ in_u 16 z.
Proof. apply (take_int_sound 2). Qed.
Lemma take_u32_sound c z c' : take_u32 c = Some (z, c') -> consumed c c' (to_le 4 z) /\ in_u 32 z.
Proof. apply (take_int_sound 4). Qed.
Lemma take_u64_sound c z c' : take_u64 c = Some (z, c') -> consumed c c' (to_le 8 z) /\ in_u 64 z.
Proof. apply (take_int_sound 8). Qed.

Lemma take_len_prefixed_sound c s c' :
  take_len_prefixed c = Some (s, c') -> consumed c c' (put_len_prefixed s) /\ in_u 32 (len s).
Proof.
  unfold take_len_prefixed. destruct (take_u32 c) as [[n c1] |] eqn:E1; [| done].
  cbn [mbind option_bind]. intros E2. apply take_u32_sound in E1 as [H1 Hn].
  apply take_sound in E2 as [H2 <-]. split; [| done].
  unfold put_len_prefixed, wrapu. rewrite Z.mod_small by done. by eapply consumed_app.
Qed.

Lemma take_pairs_sound (w : nat) fuel n c l c' :
  0 <= pos c <= len (cbytes c) -> 0 <= n ->
  take_pairs fuel (Z.of_nat w) n c = Some (l, c') ->
  consumed c c' (concat ((fun e => to_le w e.1 ++ to_le 8 e.2) <$> l))
  /\ Forall (fun e => in_u (8 * Z.of_nat w) e.1 /\ in_u 64 e.2) l /\ len l = n.
Proof.
  revert n c l. induction fuel as [| fuel IH]; intros n c l Hc Hn H; cbn [take_pairs] in H.
  - destruct (Z.leb_spec n 0); [| done]. simplify_outcome.
    split; [by apply consumed_nil |]. split; [constructor | by rewrite len_nil; lia].
  - destruct (Z.leb_spec n 0).
    { simplify_outcome. split; [by apply consumed_nil |]. split; [constructor | by rewrite len_nil; lia]. }
    destruct (take_int c (Z.of_nat w)) as [[id c1] |] eqn:E1; [| done]. cbn [mbind option_bind] in H.
    destruct (take_u64 c1) as [[ls c2] |] eqn:E2; [| done]. cbn [mbind option_bind] in H.
    destruct (take_pairs fuel (Z.of_nat w) (n - 1) c2) as [[r c3] |] eqn:E3; [| done].
    cbn [mbind option_bind] in H. simplify_outcome.
    apply take_int_sound in E1 as [H1 Hid]. apply take_u64_sound in E2 as [H2 Hls].
    pose proof (consumed_app _ _ _ _ _ H1 H2) as H12.
    apply IH in E3 as (H3 & Hf & Hl); [| | lia].
    + split; [rewrite fmap_cons; cbn [concat]; by eapply consumed_app |].
      split; [by constructor | rewrite len_cons; lia].
    + destruct H12 as (Eb & Ep & (? & ? & ? & _)%sub_Some). rewrite Eb, Ep. lia.
Qed.

Lemma consumed_bounds c c' bs : consumed c c' bs -> 0 <= pos c' <= len (cbytes c').
Proof.
  intros (E & P & (? & ? & ? & _)%sub_Some). rewrite E, P. lia.
Qed.

Lemma consumed_all bs c' x :
  consumed (Cursor_new bs) c' x -> exhausted c' = true -> bs = x.
Proof.
  intros (E & P & S) Hx. unfold exhausted in Hx. rewrite E in Hx. to_prop. cbn in *.
  replace (len x) with (len bs) in S by lia. rewrite sub_all in S. congruence.
Qed.

(** Peel one step off a chain of cursor reads, keeping what it consumed. *)
Ltac decode_step :=
  match goal with
  | H : mbind _ ?m = Some _ |- _ =>
      let E := fresh "E" in
      destruct m as [[? ?] |] eqn:E; [| discriminate H]; cbn [mbind option_bind] in H
  end.
Ltac decode_steps := repeat decode_step.
Ltac collect_consumed :=
  repeat match goal with
  | E : take_u16 _ = Some _ |- _ => apply take_u16_sound in E as [? ?]
  | E : take_u32 _ = Some _ |- _ => apply take_u32_sound in E as [? ?]
  | E : take_u64 _ = Some _ |- _ => apply take_u64_sound in E as [? ?]
  | E : take_len_prefixed _ = Some _ |- _ => apply take_len_prefixed_sound in E as [? ?]
  | E : take_pairs _ 8 _ _ = Some _ |- _ =>
      apply (take_pairs_sound 8) in E as (? & ? & ?); [| by eapply consumed_bounds | unfold in_u in *; lia]
  | E : take_pairs _ 4 _ _ = Some _ |- _ =>
      apply (take_pairs_sound 4) in E as (? & ? & ?); [| by eapply consumed_bounds | unfold in_u in *; lia]
  end;
  repeat match goal with
  | H1 : consumed ?a ?b _, H2 : consumed ?b _ _ |- _ =>
      pose proof (consumed_app _ _ _ _ _ H1 H2); clear H1 H2
  end.

Ltac finish_consumed :=
  match goal with
  | Hx : exhausted ?c = true, H : consumed (Cursor_new ?bs) ?c _ |- _ =>
      etransitivity; [exact (consumed_all _ _ _ H Hx) | by rewrite <- ?app_assoc]
  end.

Lemma decode_payload_sound t bs k :
  decode_payload t bs = Some k -> t = tag k /\ bs = encode_payload k /\ kind_ok k.
Proof.
  unfold decode_payload. cbv zeta.
  match goal with |- mbind _ ?m = _ -> _ => destruct m as [[k' c'] |] eqn:E; [| done] end.
  cbn [mbind option_bind]. destruct (exhausted c') eqn:Hx; [| done]. intros [= ->].
  assert (Hnil : c' = Cursor_new bs -> bs = []).
  { intros ->. unfold exhausted in Hx. cbn [pos cbytes Cursor_new] in Hx. to_prop.
    by apply len_zero_inv. }
  assert (Ht : t = 0 \/ t = 1 \/ t = 2 \/ t = 3 \/ t = 4 \/ t = 5 \/ t = 6 \/ t = 7 \/ t = 8).
  { destruct t as [| p | p]; [by left | | done].
    do 4 (destruct p as [p | p |]; try done; try (by auto 10)). }
  destruct Ht as [-> | [-> | [-> | [-> | [-> | [-> | [-> | [-> | ->]]]]]]]]; cbv iota in E;
    try (simplify_eq; by rewrite (Hnil eq_refl)).
  - decode_steps. simplify_eq. collect_consumed.
    split; [done |]. split; [| done]. cbn [encode_payload]. finish_consumed.
  - decode_steps. simplify_eq. collect_consumed.
    split; [done |]. split; [| done]. finish_consumed.
  - decode_steps. simplify_eq. collect_consumed.
    split; [done |]. split; [| done]. cbn [encode_payload]. finish_consumed.
  - decode_steps. simplify_eq. collect_consumed. subst.
    split; [done |]. split; [| done]. cbn [encode_payload]. unfold wrapu. rewrite !Z.mod_small by done.
    finish_consumed.
Qed.

Lemma decode_body_sound body r :
  decode_body body = Some r ->
  body = encode_body r /\ in_u 64 (lsn r) /\ in_u 64 (txn_id r) /\ kind_ok (kind r)
  /\ (forall p, prev_lsn r = Some p -> in_u 64 p /\ p <> 0).
Proof.
  unfold decode_body. intros H.
  destruct (take_u64 (Cursor_new body)) as [[l c1] |] eqn:E1; [| done]. cbn [mbind option_bind] in H.
  destruct (take_u64 c1) as [[p c2] |] eqn:E2; [| done]. cbn [mbind option_bind] in H.
  destruct (take_u64 c2) as [[t c3] |] eqn:E3; [| done]. cbn [mbind option_bind] in H.
  destruct (take c3 1) as [[tg c4] |] eqn:E4; [| done]. cbn [mbind option_bind] in H.
  destruct (head tg) as [tb |] eqn:Eh; [| done]. cbn [mbind option_bind] in H.
  destruct (take c4 _) as [[pl c5] |] eqn:E5; [| done]. cbn [mbind option_bind] in H.
  destruct (decode_payload (Z_of_byte tb) pl) as [k |] eqn:E6; [| done]. cbn [mbind option_bind] in H.
  simplify_eq. collect_consumed.
  apply take_sound in E4 as [Hc4 Hl4]. apply take_sound in E5 as [Hc5 Hl5].
  apply decode_payload_sound in E6 as (Ht & -> & Hk).
  assert (Etg : tg = [byte_of_Z (tag k)]).
  { destruct tg as [| b [| b' tg]]; [done | | unfold len in Hl4; simpl in Hl4; lia].
    simpl in Eh. simplify_eq. by rewrite <- Ht, byte_of_Z_of_byte. }
  subst tg. pose proof (consumed_app _ _ _ _ _ Hc4 Hc5) as H45.
  assert (Hex : exhausted c5 = true).
  { destruct Hc5 as (Eb & Ep & _). unfold exhausted. rewrite Eb, Ep, Hl5. apply Z.eqb_eq. lia. }
  cbn [lsn prev_lsn txn_id kind]. split; [| split; [done | split; [done | split; [done |]]]].
  - match goal with Hc : consumed (Cursor_new body) c3 _ |- _ =>
      pose proof (consumed_app _ _ _ _ _ Hc H45) as Hall end.
    etransitivity; [exact (consumed_all _ _ _ Hall Hex) |].
    unfold encode_body. cbn [lsn prev_lsn txn_id kind]. rewrite <- !app_assoc.
    destruct (Z.eqb_spec p 0) as [-> | Hp]; done.
  - intros q. destruct (Z.eqb_spec p 0); [done |]. intros [= <-]. done.
Qed.

(** The slices [decode_record] takes of an accepted record, put back together. *)
Lemma record_slices (bs front rc st cov body : bytes) p m :
  sub bs p 4 = Some front -> MIN_RECORD_LEN <= m -> sub bs p m = Some rc ->
  sub rc (m - 4) 4 = Some front -> sub rc (m - 8) 4 = Some st ->
  sub rc 0 (m - 8) = Some cov -> sub rc 4 (m - 12) = Some body ->
  cov = front ++ body /\ rc = front ++ body ++ st ++ front.
Proof.
  intros Ef Hmin Er Et Es Ec Eb. pose proof (sub_len _ _ _ _ Er) as Hlr.
  assert (Hr4 : sub rc 0 4 = Some front).
  { apply sub_Some in Er as (? & ? & ? & ->). apply sub_Some in Ef as (_ & _ & ? & ->).
    unfold MIN_RECORD_LEN in *. apply sub_Some. split; [lia |]. split; [lia |]. split; [lia |].
    rewrite drop_0, take_take. f_equal. lia. }
  assert (Hcov : cov = front ++ body).
  { pose proof (sub_concat _ 0 4 (m - 12) _ _ Hr4 Eb) as E.
    replace (4 + (m - 12)) with (m - 8) in E by lia. congruence. }
  split; [done |].
  pose proof (sub_concat _ 0 (m - 8) 4 _ _ Ec Es) as E1.
  pose proof (sub_concat rc 0 (m - 8 + 4) 4 _ front E1) as E2.
  replace (0 + (m - 8 + 4)) with (m - 4) in E2 by lia. specialize (E2 Et).
  replace (m - 8 + 4 + 4) with (len rc) in E2 by lia. rewrite sub_all in E2.
  rewrite Hcov in E2. injection E2 as ->. by rewrite <- !app_assoc.
Qed.

Lemma decode_record_sound bs p r n :
  decode_record bs p = Some (r, n) ->
  record_ok r /\ n = len (encode_record r) /\ sub bs p n = Some (encode_record r).
Proof.
  unfold decode_record. intros H.
  destruct (sub bs p 4) as [front |] eqn:Ef; [| done]. cbn [mbind option_bind] in H.
  remember (from_le front) as m eqn:Em.
  destruct (Z.ltb_spec m MIN_RECORD_LEN) as [| Hmin]; [done |].
  destruct (sub bs p m) as [rc |] eqn:Er; [| done]. cbn [mbind option_bind] in H.
  destruct (sub rc (m - 4) 4) as [tr |] eqn:Et; [| done]. cbn [mbind option_bind] in H.
  destruct (decide (tr <> front)) as [| Htr]; [done |]. apply dec_stable in Htr. subst tr.
  destruct (sub rc (m - 8) 4) as [st |] eqn:Es; [| done]. cbn [mbind option_bind] in H.
  destruct (sub rc 0 (m - 8)) as [cov |] eqn:Ec; [| done]. cbn [mbind option_bind] in H.
  destruct (Z.eqb_spec (crc32 cov) (from_le st)) as [Hcrc | _]; [| done]. cbn [negb] in H.
  destruct (sub rc 4 (m - 12)) as [body |] eqn:Eb; [| done]. cbn [mbind option_bind] in H.
  destruct (decode_body body) as [r' |] eqn:Ed; [| done]. cbn [mbind option_bind] in H.
  injection H as -> Hn. subst n.
  apply decode_body_sound in Ed as (-> & H1 & H2 & H3 & H4).
  pose proof (sub_len _ _ _ _ Ef) as Hlf. pose proof (sub_len _ _ _ _ Es) as Hls.
  pose proof (sub_len _ _ _ _ Eb) as Hlb. pose proof (sub_len _ _ _ _ Er) as Hlr.
  destruct (record_slices _ _ _ _ _ _ _ _ Ef Hmin Er Et Es Ec Eb) as [Hcov Hrc].
  assert (Hm : m < 2 ^ 32).
  { pose proof (from_le_bound front) as Hb. rewrite Hlf, <- Em in Hb. apply Hb. }
  assert (Hok : record_ok r).
  { split; [done |]. split; [done |]. split; [done |]. split; [done | lia]. }
  assert (Hfront : front = to_le 4 (record_len r)).
  { replace (record_len r) with m by (unfold record_len; lia). rewrite Em. symmetry.
    apply to_le_from_le. unfold len in Hlf. lia. }
  assert (Hre : rc = encode_record r).
  { rewrite encode_record_frame, <- Hfront, <- Hcov, Hcrc by done.
    rewrite to_le_from_le by (unfold len in Hls; lia). done. }
  subst rc. split; [done |]. split; [congruence | by rewrite <- Hre].
Qed.

(** The log decoder accepts nothing but genuine records: whenever [decode_record]
    succeeds on any bytes, those bytes are exactly the encoding of the well-formed record
    it returns, inside the buffer. In particular two different records never share an
    encoding. *)
Theorem decode_record_canonical bs p r n :
  decode_record bs p = Some (r, n) ->
  record_ok r /\ n = len (encode_record r) /\ sub bs p n = Some (encode_record r).
Proof. apply decode_record_sound. Qed.

Lemma decode_record_canonical_witness : record_ok sample_record.
Proof.
  apply (decode_record_canonical (encode_record sample_record) 0 sample_record
           (len (encode_record sample_record))).
  vm_compute. reflexivity.
Defined.

(** ** Fuel of the pair loop *)
Lemma take_pairs_fuel (w : nat) f1 f2 n c :
  0 <= pos c -> len (cbytes c) - pos c < Z.of_nat f1 -> len (cbytes c) - pos c < Z.of_nat f2 ->
  take_pairs f1 (Z.of_nat w) n c = take_pairs f2 (Z.of_nat w) n c.
Proof.
  revert f2 n c. induction f1 as [| f1 IH]; intros f2 n c Hp H1 H2.
  - destruct f2; [done |]. cbn [take_pairs]. destruct (n <=? 0); [done |].
    destruct (take_int c (Z.of_nat w)) as [[? ?] |] eqn:E; [| done].
    apply take_int_sound in E as [(_ & _ & (? & ? & ? & _)%sub_Some) _]. lia.
  - destruct f2 as [| f2]; cbn [take_pairs]; destruct (n <=? 0); try done.
    + destruct (take_int c (Z.of_nat w)) as [[? ?] |] eqn:E; [| done].
      apply take_int_sound in E as [(_ & _ & (? & ? & ? & _)%sub_Some) _]. lia.
    + destruct (take_int c (Z.of_nat w)) as [[id c1] |] eqn:E1; [| done]. cbn [mbind option_bind].
      destruct (take_u64 c1) as [[ls c2] |] eqn:E2; [| done]. cbn [mbind option_bind].
      apply take_int_sound in E1 as [Hc1 _]. apply take_u64_sound in E2 as [Hc2 _].
      destruct Hc1 as (Eb1 & Ep1 & _), Hc2 as (Eb2 & Ep2 & _).
      rewrite len_to_le in Ep1, Ep2. rewrite (IH f2); [done | ..]; rewrite ?Eb2, ?Eb1; lia.
Qed.

(** ** Damage *)

(** The length field of an encoded record. *)
Lemma decode_record_len bs p r n :
  decode_record bs p = Some (r, n) -> exists front, sub bs p 4 = Some front /\ n = from_le front.
Proof.
  unfold decode_record. intros H. destruct (sub bs p 4) as [front |]; [| done].
  exists front. split; [done |]. cbn [mbind option_bind] in H.
  repeat (match type of H with
          | (if ?b then _ else _) = _ => destruct b; [done |]
          | mbind _ ?m = _ => destruct m; [| done]; cbn [mbind option_bind] in H
          end).
  by injection H as _ <-.
Qed.

Lemma encode_record_front r :
  record_ok r -> exists rest, encode_record r = to_le 4 (record_len r) ++ rest
                              /\ from_le (to_le 4 (record_len r)) = record_len r.
Proof.
  intros Hr. rewrite encode_record_frame by done. eexists. split; [done |].
  destruct Hr as (_ & _ & _ & _ & Hlen). pose proof (len_encode_body_min r).
  apply from_le_to_le_id. unfold in_u, record_len in *. lia.
Qed.

Lemma torn_record_rejected pre r k :
  record_ok r -> (k < length (encode_record r))%nat ->
  decode_record (pre ++ firstn k (encode_record r)) (len pre) = None.
Proof.
  intros Hr Hk. destruct (decode_record _ _) as [[r' n] |] eqn:E; [| done]. exfalso.
  pose proof (decode_record_sound _ _ _ _ E) as (_ & _ & Hs).
  apply decode_record_len in E as (front & Hf & ->).
  destruct (encode_record_front r Hr) as (rest & Henc & Hle).
  pose proof (len_encode_record r) as Hlen. unfold len in Hlen.
  apply sub_Some in Hs as (_ & _ & Hn & _). rewrite len_app in Hn.
  pose proof (sub_len _ _ _ _ Hf) as Hl4. apply sub_Some in Hf as (_ & _ & H4 & Ef).
  rewrite len_app in H4. unfold len in H4, Hn. rewrite length_take in H4, Hn.
  assert (front = to_le 4 (record_len r)) as ->; [| lia].
  rewrite Ef. unfold len. rewrite Nat2Z.id, drop_app_length, take_take, Nat.min_l by lia.
  rewrite Henc. apply take_app_length'. by rewrite length_to_le.
Qed.

(** The four parts of a record, one of them with a byte replaced. *)
Lemma insert_app4 (a b c d : bytes) (i : nat) (x : byte) :
  (length a <= i < length (a ++ b ++ c ++ d))%nat ->
  (exists b', <[i:=x]> (a ++ b ++ c ++ d) = a ++ b' ++ c ++ d /\ length b' = length b
     /\ exists u v y, b = u ++ y :: v /\ b' = u ++ x :: v /\ (a ++ b ++ c ++ d) !! i = Some y)
  \/ (exists c', <[i:=x]> (a ++ b ++ c ++ d) = a ++ b ++ c' ++ d /\ length c' = length c
     /\ exists j, (j < length c)%nat /\ c' = <[j:=x]> c /\ (a ++ b ++ c ++ d) !! i = c !! j)
  \/ (exists d', <[i:=x]> (a ++ b ++ c ++ d) = a ++ b ++ c ++ d' /\ length d' = length d
     /\ exists j, (j < length d)%nat /\ d' = <[j:=x]> d /\ (a ++ b ++ c ++ d) !! i = d !! j).
Proof.
  rewrite !length_app. intros Hi.
  destruct (decide (i - length a < length b)%nat) as [Hb |].
  - left. exists (<[(i - length a)%nat:=x]> b).
    destruct (lookup_lt_is_Some_2 b _ Hb) as [y Hy].
    rewrite insert_app_r_alt, insert_app_l by lia. split; [done |].
    split; [by rewrite length_insert |].
    exists (firstn (i - length a) b), (drop (S (i - length a)) b), y.
    rewrite take_drop_middle by done. split; [done |]. split.
    + by rewrite insert_take_drop.
    + by rewrite lookup_app_r, lookup_app_l by lia.
  - right. destruct (decide (i - length a - length b < length c)%nat) as [Hc |].
    + left. exists (<[(i - length a - length b)%nat:=x]> c).
      rewrite !insert_app_r_alt, insert_app_l by lia. split; [done |].
      split; [by rewrite length_insert |]. eexists. split; [exact Hc |]. split; [done |].
      by rewrite !lookup_app_r, lookup_app_l by lia.
    + right. exists (<[(i - length a - length b - length c)%nat:=x]> d).
      rewrite !insert_app_r_alt by lia. split; [done |]. split; [by rewrite length_insert |].
      exists (i - length a - length b - length c)%nat. split; [lia |]. split; [done |].
      by rewrite !lookup_app_r by lia.
Qed.

Lemma insert_changes (l : bytes) j x y : l !! j = Some y -> x <> y -> <[j:=x]> l <> l.
Proof.
  intros Hy Hx E. apply Hx. assert (Hl : <[j:=x]> l !! j = Some x).
  { apply list_lookup_insert_eq. by eapply lookup_lt_Some. }
  rewrite E in Hl. congruence.
Qed.

(** Bit rot is caught: replacing any one byte of a stored record after its length field
    (in the body, in the checksum or in the trailing length) makes it unreadable. *)
Theorem damaged_record_rejected pre r post i b b' :
  record_ok r -> (4 <= i)%nat -> encode_record r !! i = Some b -> b' <> b ->
  decode_record (pre ++ <[i:=b']> (encode_record r) ++ post) (len pre) = None.
Proof.
  intros Hr Hi Hb Hne. pose proof Hr as (_ & _ & _ & _ & Hlen).
  pose proof (len_encode_body_min r) as Hmin.
  pose proof (lookup_lt_Some _ _ _ Hb) as Hlt. revert Hb Hlt.
  rewrite encode_record_frame by done. intros Hb Hlt.
  assert (H4 : (length (to_le 4 (record_len r)) <= i)%nat) by (rewrite length_to_le; lia).
  destruct (insert_app4 _ _ _ _ i b' (conj H4 Hlt))
    as [(b2 & -> & Hl & u & v & y & Hu & -> & Hy)
       | [(c2 & -> & Hl & j & Hj & -> & Hy) | (d2 & -> & Hl & j & Hj & -> & Hy)]];
    rewrite Hb in Hy.
  - simplify_eq. assert (Hlb : len (u ++ b' :: v) = len (encode_body r)) by (unfold len; congruence).
    rewrite decode_record_framed;
      [| unfold record_len, MIN_RECORD_LEN in *; lia..| by rewrite len_to_le | by rewrite len_to_le].
    rewrite decide_False by (intros Hx; by apply Hx).
    rewrite from_le_to_le_id by apply crc32_range.
    destruct (Z.eqb_spec (crc32 (to_le 4 (record_len r) ++ u ++ b' :: v))
                (crc32 (to_le 4 (record_len r) ++ encode_body r))) as [E |]; [| done].
    rewrite Hu in E. rewrite !app_assoc in E. by apply crc32_byte_inj in E.
  - rewrite length_to_le in Hl.
    rewrite decode_record_framed; [| by unfold record_len, MIN_RECORD_LEN in *; lia..| unfold len; lia | by rewrite len_to_le].
    rewrite decide_False by (intros Hx; by apply Hx).
    destruct (Z.eqb_spec (crc32 (to_le 4 (record_len r) ++ encode_body r))
                (from_le (<[j:=b']> (to_le 4 (crc32 (to_le 4 (record_len r) ++ encode_body r))))))
      as [E |]; [| done].
    exfalso. eapply insert_changes; [symmetry; exact Hy | exact Hne |].
    apply from_le_inj; [by rewrite length_insert |].
    rewrite <- E, from_le_to_le_id by apply crc32_range. done.
  - rewrite length_to_le in Hl.
    rewrite decode_record_framed; [| by unfold record_len, MIN_RECORD_LEN in *; lia..| by rewrite len_to_le | unfold len; lia].
    rewrite decide_True; [done |]. eapply insert_changes; [symmetry; exact Hy | exact Hne].
Qed.

Lemma damaged_record_rejected_witness :
  decode_record (str "xx" ++ <[10%nat:=Byte.xff]> (encode_record sample_record) ++ str "y") (len (str "xx")) = None.
Proof.
  apply (damaged_record_rejected (str "xx") sample_record (str "y") 10 Byte.x00 Byte.xff).
  - exact sample_record_ok.
  - lia.
  - vm_compute. reflexivity.
  - discriminate.
Defined.
