(* ===== verification/Device.v ===== *)
(** * Block devices: crates/storage/src/block_device.rs

    [BlockDevice] as the storage layer sees it: a growable byte range whose operations may
    fail. A failing call carries the error the operating system reports and how much of
    the call took effect before it failed, so every theorem over a list of [Fault]s
    quantifies over which calls fail and over what each of them leaves behind. The second
    half models [FaultyDevice], the crash-injection device. *)
From S2P Require Import Prelude Common Value Errors.

(** ** One call and its fate *)

(** [Fails e landed]: the call returns [e]; [landed] bytes of a write reached the device,
    and any other mutation happened exactly when [landed] is positive. *)
Inductive Fault : Type :=
| Works
| Fails (e : IoError) (landed : Z).

Definition zeroes (n : Z) : bytes := replicate (Z.to_nat n) Byte.x00.

(** A positioned write: a gap between the end of the device and the offset reads as zeroes. *)
Definition write_content (c : bytes) (off : Z) (buf : bytes) : bytes :=
  match buf with
  | [] => c
  | _ => splice (c ++ zeroes (off + len buf - len c)) off buf
  end.

(** [File::set_len] *)
Definition resize_content (c : bytes) (n : Z) : bytes :=
  firstn (Z.to_nat n) c ++ zeroes (n - len c).

Definition unexpected_eof : Storage.Error := Storage.Io (str "failed to fill whole buffer").

Definition read_op (f : Fault) (c : bytes) (off n : Z) : outcome Storage.Error bytes :=
  match f with
  | Works => ok_or (sub c off n) unexpected_eof
  | Fails e _ => Err (Storage.Io e)
  end.

Definition write_op (f : Fault) (c : bytes) (off : Z) (buf : bytes) : outcome Storage.Error unit * bytes :=
  match f with
  | Works => (Ok tt, write_content c off buf)
  | Fails e landed => (Err (Storage.Io e), write_content c off (firstn (Z.to_nat landed) buf))
  end.

Definition set_len_op (f : Fault) (c : bytes) (n : Z) : outcome Storage.Error unit * bytes :=
  match f with
  | Works => (Ok tt, resize_content c n)
  | Fails e landed => (Err (Storage.Io e), if 0 <? landed then resize_content c n else c)
  end.

Definition sync_op (f : Fault) : outcome Storage.Error unit :=
  match f with Works => Ok tt | Fails e _ => Err (Storage.Io e) end.

Definition size_op (f : Fault) (c : bytes) : outcome Storage.Error Z :=
  match f with Works => Ok (len c) | Fails e _ => Err (Storage.Io e) end.

(** ** A device with its own schedule of faults

    Once the schedule is used up every call works. *)
Record Device : Type := mkDevice { content : bytes; faults : list Fault }.

Definition next_fault (fs : list Fault) : Fault * list Fault :=
  match fs with [] => (Works, []) | f :: fs => (f, fs) end.

Definition read_at (off n : Z) : M Device Storage.Error bytes := fun d =>
  let '(f, fs) := next_fault (faults d) in
  (read_op f (content d) off n, mkDevice (content d) fs).
Definition write_at (off : Z) (buf : bytes) : M Device Storage.Error unit := fun d =>
  let '(f, fs) := next_fault (faults d) in
  let '(o, c) := write_op f (content d) off buf in (o, mkDevice c fs).
Definition set_len (n : Z) : M Device Storage.Error unit := fun d =>
  let '(f, fs) := next_fault (faults d) in
  let '(o, c) := set_len_op f (content d) n in (o, mkDevice c fs).
Definition sync_all : M Device Storage.Error unit := fun d =>
  let '(f, fs) := next_fault (faults d) in (sync_op f, mkDevice (content d) fs).
Definition size : M Device Storage.Error Z := fun d =>
  let '(f, fs) := next_fault (faults d) in (size_op f (content d), mkDevice (content d) fs).

(** ** Contents *)
Lemma len_zeroes n : len (zeroes n) = Z.max 0 n.
Proof. unfold zeroes. rewrite len_replicate. lia. Qed.
#[export] Hint Rewrite len_zeroes : len.

Lemma zeroes_nil n : n <= 0 -> zeroes n = [].
Proof. intros. unfold zeroes. replace (Z.to_nat n) with 0%nat by lia. done. Qed.

(** Writing at the end appends. *)
Lemma write_content_end c buf : write_content c (len c) buf = c ++ buf.
Proof.
  destruct buf as [| b buf]; [by rewrite app_nil_r |]. unfold write_content, splice.
  rewrite to_nat_len, take_app_length.
  rewrite drop_ge; [by rewrite app_nil_r |].
  rewrite length_app. unfold zeroes, len. rewrite length_replicate. simpl. lia.
Qed.

(** Writing inside replaces. *)
Lemma write_content_inside c off buf :
  0 <= off -> off + len buf <= len c -> write_content c off buf = splice c off buf.
Proof.
  intros H1 H2. destruct buf as [| b buf].
  - unfold write_content, splice. simpl. rewrite Nat.add_0_r. by rewrite take_drop.
  - unfold write_content. rewrite zeroes_nil by lia. by rewrite app_nil_r.
Qed.

Lemma len_write_content c off buf :
  0 <= off -> buf <> [] -> len (write_content c off buf) = Z.max (len c) (off + len buf).
Proof.
  intros Ho Hb. destruct buf as [| b buf]; [done |].
  change (write_content c off (b :: buf))
    with (splice (c ++ zeroes (off + len (b :: buf) - len c)) off (b :: buf)).
  rewrite len_splice; autorewrite with len; pose proof (len_nonneg c);
    pose proof (len_nonneg buf); lia.
Qed.

(** What was written is read back. *)
Lemma sub_write_content c off buf :
  0 <= off -> buf <> [] -> sub (write_content c off buf) off (len buf) = Some buf.
Proof.
  intros Ho Hb. destruct buf as [| b buf]; [done |].
  change (write_content c off (b :: buf))
    with (splice (c ++ zeroes (off + len (b :: buf) - len c)) off (b :: buf)).
  apply sub_splice_eq; [done |]. autorewrite with len. lia.
Qed.

Lemma resize_content_firstn c n : 0 <= n <= len c -> resize_content c n = firstn (Z.to_nat n) c.
Proof. intros. unfold resize_content. rewrite zeroes_nil by lia. by rewrite app_nil_r. Qed.

Lemma resize_content_zero c : resize_content c 0 = [].
Proof. rewrite resize_content_firstn; [done | pose proof (len_nonneg c); lia]. Qed.

Lemma resize_content_grow c n : len c <= n -> resize_content c n = c ++ zeroes (n - len c).
Proof. intros. unfold resize_content. rewrite firstn_all2; [done |]. unfold len in *. lia. Qed.

Lemma len_resize_content c n : 0 <= n -> len (resize_content c n) = n.
Proof.
  intros. unfold resize_content. rewrite len_app, len_zeroes. unfold len.
  rewrite length_take. lia.
Qed.
