(* ===== verification/SegmentStore.v ===== *)
(** * WAL segments on disk: crates/storage/src/wal.rs (lines 243-401)

    The segment files of a log, named by a zero-padded number: [FileSegmentStore], the
    segment header, and the scans that [LogManager::open] runs over them. *)
From stdpp Require Import sorting.
From S2P Require Import Prelude Text Common Value Errors WalRecord Device.

(** ** Segment files

    The directory as the log sees it: the content of each numbered segment, and the
    schedule of faults shared by every call. *)
Record Store : Type := mkStore { segs : gmap Z bytes; store_faults : list Fault }.

(** [format!(".{id:06}")], without the dot *)
Definition segment_suffix (id : Z) : bytes := pad0 6 (fmt_u id).

(** The id [existing_segments] reads off a file name's suffix. *)
Definition parse_suffix (s : bytes) : option Z :=
  if (len s =? 6) && forallb is_ascii_digit s then Some (parse_digits s) else None.

Definition existing_segments : M Store Storage.Error (list Z) := fun st =>
  let '(f, fs) := next_fault (store_faults st) in
  match f with
  | Works =>
      (Ok (merge_sort Z.le (omap (fun id => parse_suffix (segment_suffix id)) (elements (dom (segs st))))),
       mkStore (segs st) fs)
  | Fails e _ => (Err (Storage.Io e), mkStore (segs st) fs)
  end.

(** Opening creates the file when it is missing; a failing open may have created it. *)
Definition create_if_missing (id : Z) (m : gmap Z bytes) : gmap Z bytes :=
  <[id := default [] (m !! id)]> m.
Definition open (id : Z) : M Store Storage.Error unit := fun st =>
  let '(f, fs) := next_fault (store_faults st) in
  match f with
  | Works => (Ok tt, mkStore (create_if_missing id (segs st)) fs)
  | Fails e landed =>
      (Err (Storage.Io e), mkStore (if 0 <? landed then create_if_missing id (segs st) else segs st) fs)
  end.

(** A file that is already gone is not an error. *)
Definition remove (id : Z) : M Store Storage.Error unit := fun st =>
  let '(f, fs) := next_fault (store_faults st) in
  match f with
  | Works => (Ok tt, mkStore (delete id (segs st)) fs)
  | Fails e landed =>
      (Err (Storage.Io e), mkStore (if 0 <? landed then delete id (segs st) else segs st) fs)
  end.

(** A device handle is the id of the segment it was opened for. *)
Definition on_segment {A} (id : Z) (m : M Device Storage.Error A) : M Store Storage.Error A := fun st =>
  let '(o, d) := m (mkDevice (default [] (segs st !! id)) (store_faults st)) in
  (o, mkStore (<[id := content d]> (segs st)) (faults d)).

(** ** Segment headers *)
Definition SEGMENT_MAGIC : bytes := str "FDBWAL01".

Definition segment_header (start_lsn : Z) : bytes := SEGMENT_MAGIC ++ to_le 8 start_lsn.

Definition write_segment_header (id start_lsn : Z) : M Store Storage.Error unit :=
  _ ← on_segment id (set_len 0);
  _ ← on_segment id (write_at 0 (segment_header start_lsn));
  on_segment id sync_all.

Definition bad_magic : Storage.Error :=
  Storage.CorruptLogHeader (str "bad magic in write-ahead log segment header").

Definition read_segment_header (id : Z) : M Store Storage.Error Z :=
  buf ← on_segment id (read_at 0 SEGMENT_HEADER_LEN);
  if decide (firstn 8 buf <> SEGMENT_MAGIC) then throw bad_magic
  else mret (from_le (skipn 8 buf)).

(** ** Scans *)

(** [while let Some((record, len)) = decode_record(&bytes, pos) { .. pos += len }] *)
Fixpoint scan (fuel : nat) (bs : bytes) (pos : Z) : list LoggedRecord * Z :=
  match fuel with
  | O => ([], pos)
  | S fuel =>
      match decode_record bs pos with
      | Some (r, n) => let '(rs, p) := scan fuel bs (pos + n) in (r :: rs, p)
      | None => ([], pos)
      end
  end.
(** Every record is at least [MIN_RECORD_LEN] long, so the loop ends within the bytes. *)
Definition scan_records (bs : bytes) (pos : Z) : list LoggedRecord * Z := scan (S (length bs)) bs pos.

(** [map.insert(record.txn_id, record.lsn)] for each record in turn *)
Definition last_lsns (rs : list LoggedRecord) (m : gmap TxnId Lsn) : gmap TxnId Lsn :=
  fold_left (fun m r => <[txn_id r := lsn r]> m) rs m.

Definition scan_decoded_records (id start_lsn : Z)
  : M Store Storage.Error (Z * Z * gmap TxnId Lsn) :=
  device_len ← on_segment id size;
  bs ← on_segment id (read_at 0 device_len);
  let '(rs, pos) := scan_records bs SEGMENT_HEADER_LEN in
  mret (start_lsn + (pos - SEGMENT_HEADER_LEN), pos, last_lsns rs ∅).

Definition scan_active_segment (id start_lsn : Z) : M Store Storage.Error (Z * gmap TxnId Lsn) :=
  '(next_lsn, pos, last) ← scan_decoded_records id start_lsn;
  _ ← on_segment id (set_len pos);
  mret (next_lsn, last).

Definition sealed_segment_short (start_lsn pos device_len : Z) : Storage.Error :=
  Storage.CorruptLogHeader
    (str "sealed WAL segment starting at lsn " ++ fmt_u start_lsn
     ++ str " does not decode to its full recorded length: valid records end at offset "
     ++ fmt_u pos ++ str ", but the segment is " ++ fmt_u device_len ++ str " bytes").

Definition scan_sealed_segment (id start_lsn : Z) : M Store Storage.Error (Z * gmap TxnId Lsn) :=
  device_len ← on_segment id size;
  '(next_lsn, pos, last) ← scan_decoded_records id start_lsn;
  if negb (pos =? device_len) then throw (sealed_segment_short start_lsn pos device_len)
  else mret (next_lsn, last).

Definition read_record_at (id offset : Z) : M Store Storage.Error (option LoggedRecord) :=
  device_len ← on_segment id size;
  if device_len <? offset + 4 then mret None else
  len_buf ← on_segment id (read_at offset 4);
  let total_len := from_le len_buf in
  if (total_len <? MIN_RECORD_LEN) || (device_len <? offset + total_len) then mret None else
  record_buf ← on_segment id (read_at offset total_len);
  mret (fst <$> decode_record record_buf 0).

(** ** Sequences of records *)
Definition enc_all (rs : list LoggedRecord) : bytes := concat (encode_record <$> rs).
(** A segment file holding [rs]. *)
Definition seg_bytes (start : Z) (rs : list LoggedRecord) : bytes := segment_header start ++ enc_all rs.

Lemma enc_all_app a b : enc_all (a ++ b) = enc_all a ++ enc_all b.
Proof. unfold enc_all. by rewrite fmap_app, concat_app. Qed.
Lemma enc_all_cons r rs : enc_all (r :: rs) = encode_record r ++ enc_all rs.
Proof. done. Qed.
Lemma enc_all_snoc rs r : enc_all (rs ++ [r]) = enc_all rs ++ encode_record r.
Proof. rewrite enc_all_app. unfold enc_all at 2. simpl. by rewrite app_nil_r. Qed.

Lemma len_segment_header start : len (segment_header start) = SEGMENT_HEADER_LEN.
Proof. unfold segment_header. rewrite len_app, len_to_le. reflexivity. Qed.
Lemma len_seg_bytes start rs : len (seg_bytes start rs) = SEGMENT_HEADER_LEN + len (enc_all rs).
Proof. unfold seg_bytes. by rewrite len_app, len_segment_header. Qed.
Lemma len_encode_record_min r : MIN_RECORD_LEN <= len (encode_record r).
Proof.
  rewrite len_encode_record. unfold record_len, MIN_RECORD_LEN.
  pose proof (len_encode_body_min r). lia.
Qed.

Lemma decode_record_min bs p r n : decode_record bs p = Some (r, n) -> MIN_RECORD_LEN <= n.
Proof. intros (_ & -> & _)%decode_record_sound. apply len_encode_record_min. Qed.

(** ** The scan finds exactly the records that were written *)

Lemma scan_prefix fuel pre rs post :
  Forall record_ok rs ->
  scan (length rs + fuel) (pre ++ enc_all rs ++ post) (len pre)
  = let '(more, p) := scan fuel (pre ++ enc_all rs ++ post) (len pre + len (enc_all rs)) in
    (rs ++ more, p).
Proof.
  intros Hrs. revert pre. induction Hrs as [| r rs Hr _ IH]; intros pre.
  - change (len (enc_all [])) with 0. rewrite Z.add_0_r. by destruct (scan _ _ _).
  - cbn [length Nat.add scan]. rewrite enc_all_cons, <- app_assoc, decode_encode_record by done.
    rewrite (app_assoc pre), <- len_app, IH, !len_app, Z.add_assoc. by destruct (scan _ _ _).
Qed.

Lemma scan_stop fuel bs p : decode_record bs p = None -> scan fuel bs p = ([], p).
Proof. intros H. destruct fuel; [done |]. cbn [scan]. by rewrite H. Qed.

Lemma length_enc_all rs : (length rs <= length (enc_all rs))%nat.
Proof.
  induction rs as [| r rs IH]; [done |]. rewrite enc_all_cons, length_app. simpl.
  pose proof (len_encode_record_min r). unfold len, MIN_RECORD_LEN in *. lia.
Qed.

Lemma scan_records_exact pre rs post :
  Forall record_ok rs ->
  decode_record (pre ++ enc_all rs ++ post) (len pre + len (enc_all rs)) = None ->
  scan_records (pre ++ enc_all rs ++ post) (len pre) = (rs, len pre + len (enc_all rs)).
Proof.
  intros Hrs Hstop. unfold scan_records. pose proof (length_enc_all rs) as Hl.
  replace (S (length (pre ++ enc_all rs ++ post)))
    with (length rs + (S (length (pre ++ enc_all rs ++ post)) - length rs))%nat
    by (rewrite !length_app in *; lia).
  rewrite scan_prefix by done. rewrite scan_stop by done. by rewrite app_nil_r.
Qed.

(** The loop never stops for lack of fuel, and reads only genuine records. *)
Lemma scan_sound fuel bs p :
  0 <= p <= len bs -> len bs - p < Z.of_nat fuel ->
  let '(rs, q) := scan fuel bs p in
  Forall record_ok rs /\ sub bs p (q - p) = Some (enc_all rs) /\ decode_record bs q = None.
Proof.
  revert p. induction fuel as [| fuel IH]; intros p Hp Hf; [lia |].
  cbn [scan]. destruct (decode_record bs p) as [[r n] |] eqn:E.
  - pose proof (decode_record_min _ _ _ _ E) as Hmin. unfold MIN_RECORD_LEN in Hmin.
    apply decode_record_sound in E as (Hr & Hn & Hs).
    pose proof Hs as (? & ? & ? & _)%sub_Some.
    specialize (IH (p + n) ltac:(lia) ltac:(lia)). destruct (scan fuel bs (p + n)) as [rs q].
    destruct IH as (Hrs & Hsub & Hend). split; [by constructor |]. split; [| done].
    replace (q - p) with (n + (q - (p + n))) by lia. rewrite enc_all_cons.
    by apply sub_concat.
  - split; [constructor |]. split; [| done]. rewrite Z.sub_diag.
    apply sub_Some. rewrite take_0. split; [lia |]. split; [lia |]. split; [lia | done].
Qed.

Lemma decode_record_end bs p : 0 <= p -> len bs - p < 4 -> decode_record bs p = None.
Proof.
  intros H1 H2. unfold decode_record. by rewrite (proj2 (sub_None bs p 4 H1 ltac:(lia))) by lia.
Qed.

(** A torn append leaves whole records and then a proper prefix of one. *)
Lemma firstn_enc_all rs k :
  (k <= length (enc_all rs))%nat ->
  exists whole torn rest, rs = whole ++ rest
    /\ firstn k (enc_all rs) = enc_all whole ++ torn
    /\ (torn = [] \/ exists r rest' j, rest = r :: rest' /\ torn = firstn j (encode_record r)
                                     /\ (j < length (encode_record r))%nat).
Proof.
  revert k. induction rs as [| r rs IH]; intros k Hk.
  - exists [], [], []. change (enc_all []) with (@nil byte). rewrite take_nil. auto.
  - rewrite enc_all_cons in *. rewrite length_app in Hk.
    destruct (decide (k < length (encode_record r))%nat) as [Hlt |].
    + exists [], (firstn k (encode_record r)), (r :: rs). split; [done |].
      rewrite take_app_le by lia. split; [done |]. right. by exists r, rs, k.
    + destruct (IH (k - length (encode_record r))%nat ltac:(lia)) as (w & t & rest & -> & Hf & Ht).
      exists (r :: w), t, rest. split; [done |].
      rewrite take_app_ge by lia. rewrite Hf, enc_all_cons, <- app_assoc. done.
Qed.

Lemma scan_torn pre rs torn :
  Forall record_ok rs ->
  (torn = [] \/ exists r j, record_ok r /\ torn = firstn j (encode_record r)
                            /\ (j < length (encode_record r))%nat) ->
  scan_records (pre ++ enc_all rs ++ torn) (len pre) = (rs, len pre + len (enc_all rs)).
Proof.
  intros Hrs Ht. apply scan_records_exact; [done |].
  destruct Ht as [-> | (r & j & Hr & -> & Hj)].
  - rewrite app_nil_r. apply decode_record_end.
    + pose proof (len_nonneg pre). pose proof (len_nonneg (enc_all rs)). lia.
    + rewrite len_app. lia.
  - rewrite app_assoc, <- len_app. by apply torn_record_rejected.
Qed.

(** ** Segment names *)
Lemma parse_segment_suffix id :
  0 <= id < 10 ^ 6 -> parse_suffix (segment_suffix id) = Some id.
Proof.
  intros Hid. unfold parse_suffix, segment_suffix, pad0, fmt_u.
  assert (Hl : (length (digits 10 dec_digit 20 id []) <= 6)%nat).
  { pose proof (length_digits_le 20 id [] 5 Hid) as Hle. by rewrite Nat.add_0_r in Hle. }
  rewrite len_app, len_replicate. unfold len at 1.
  destruct (Z.eqb_spec (Z.of_nat (6 - length (digits 10 dec_digit 20 id []))
                        + Z.of_nat (length (digits 10 dec_digit 20 id []))) 6); [| lia].
  rewrite forallb_app, forallb_zeroes, digits_are_digits by (done || lia). cbn [andb].
  change parse_digits with (parse_from 0). rewrite parse_zeroes, parse_digits_fmt; [done |].
  change (10 ^ 6) with 1000000 in Hid. change (10 ^ Z.of_nat 20) with 100000000000000000000. lia.
Qed.

(** Which segments a log can find again: the file name of segment [id] reads back as
    [id] exactly when [id] has at most six digits. From segment 1,000,000 on the name is
    longer than the six digits [existing_segments] looks for, so the file is written but
    never seen at the next open. *)
Theorem segment_name_roundtrip id :
  in_u 64 id -> parse_suffix (segment_suffix id) = if id <? 10 ^ 6 then Some id else None.
Proof.
  intros [H0 H1]. destruct (Z.ltb_spec id (10 ^ 6)); [by apply parse_segment_suffix |].
  unfold parse_suffix, segment_suffix, pad0, fmt_u.
  assert (Hl : (7 <= length (digits 10 dec_digit 20 id []))%nat).
  { pose proof (length_digits_ge 20 id [] 6) as Hge. rewrite Nat.add_0_r in Hge.
    apply Hge. change (10 ^ Z.of_nat 6) with (10 ^ 6).
    change (10 ^ Z.of_nat 20) with 100000000000000000000. lia. }
  rewrite len_app, len_replicate. unfold len at 1.
  destruct (Z.eqb_spec (Z.of_nat (6 - length (digits 10 dec_digit 20 id []))
                        + Z.of_nat (length (digits 10 dec_digit 20 id []))) 6); [lia | done].
Qed.

Lemma segment_name_roundtrip_witness :
  parse_suffix (segment_suffix 1000000) = None /\ parse_suffix (segment_suffix 42) = Some 42.
Proof.
  split.
  - apply (segment_name_roundtrip 1000000). unfold in_u. lia.
  - apply (segment_name_roundtrip 42). unfold in_u. lia.
Defined.
