(* ===== verification/Log.v ===== *)
(** * The log manager: crates/storage/src/wal.rs (lines 403-761)

    [LogManager]: appends into a buffer, flushes to the active segment, rolls to a new
    segment, truncates old ones, reads records by LSN and iterates over them, and opens a
    log left behind by a crash. *)
From stdpp Require Import sorting.
From S2P Require Import Prelude Common Value Errors WalRecord Device SegmentStore.

Record SegmentMeta : Type := mkMeta { meta_id : Z; meta_start_lsn : Z }.

(** [LogManager] with its [LogBufferInner]; a device handle is a segment id. *)
Record LogManager : Type := mkLog {
  store : Store;
  target_segment_size : Z;
  sealed : list SegmentMeta;
  active_id : Z;
  active_start_lsn : Z;
  buffer : bytes;
  next_lsn : Z;
  last_lsn_by_txn : gmap TxnId Lsn;
  bytes_appended : Z;
  sealed_device_cache : option Z;
  durable_lsn : Z;
}.

Definition set_store (st : Store) (s : LogManager) : LogManager :=
  mkLog st (target_segment_size s) (sealed s) (active_id s) (active_start_lsn s) (buffer s)
    (next_lsn s) (last_lsn_by_txn s) (bytes_appended s) (sealed_device_cache s) (durable_lsn s).
Definition set_cache (c : option Z) (s : LogManager) : LogManager :=
  mkLog (store s) (target_segment_size s) (sealed s) (active_id s) (active_start_lsn s) (buffer s)
    (next_lsn s) (last_lsn_by_txn s) (bytes_appended s) c (durable_lsn s).

(** A call on the segment store from inside the log manager. *)
Definition on_store {A} (m : M Store Storage.Error A) : M LogManager Storage.Error A := fun s =>
  let '(o, st) := m (store s) in (o, set_store st s).

(** ** Appending and flushing *)

Definition append (t : TxnId) (k : LogRecordKind) : M LogManager Storage.Error Lsn := fun s =>
  let lsn := next_lsn s in
  let bs := encode_record (mkLogged lsn (last_lsn_by_txn s !! t) t k) in
  (Ok lsn,
   mkLog (store s) (target_segment_size s) (sealed s) (active_id s) (active_start_lsn s)
     (buffer s ++ bs) (wrapu 64 (next_lsn s + len bs)) (<[t := lsn]> (last_lsn_by_txn s))
     (wrapu 64 (bytes_appended s + len bs)) (sealed_device_cache s) (durable_lsn s)).

(** The new segment becomes active only once its header is durable. *)
Definition roll_segment : M LogManager Storage.Error unit :=
  new_id ← gets (fun s => active_id s + 1);
  new_start_lsn ← gets next_lsn;
  _ ← on_store (open new_id);
  _ ← on_store (write_segment_header new_id new_start_lsn);
  modify (fun s =>
    mkLog (store s) (target_segment_size s)
      (sealed s ++ [mkMeta (active_id s) (active_start_lsn s)]) new_id new_start_lsn (buffer s)
      (next_lsn s) (last_lsn_by_txn s) (bytes_appended s) (sealed_device_cache s) (durable_lsn s)).

(** [if let Err(err) = m { warn!(..) }] *)
Definition ignore_error {S E} (m : M S E unit) : M S E unit := fun s =>
  match m s with
  | (Err _, s) => (Ok tt, s)
  | r => r
  end.

Definition mark_flushed (s : LogManager) : LogManager :=
  mkLog (store s) (target_segment_size s) (sealed s) (active_id s) (active_start_lsn s) []
    (next_lsn s) (last_lsn_by_txn s) (bytes_appended s) (sealed_device_cache s) (next_lsn s).

Definition flush (up_to : Lsn) : M LogManager Storage.Error unit :=
  durable ← gets durable_lsn;
  if up_to <? durable then mret tt else
  id ← gets active_id;
  offset ← on_store (on_segment id size);
  buf ← gets buffer;
  _ ← on_store (on_segment id (write_at offset buf));
  _ ← on_store (on_segment id sync_all);
  _ ← modify mark_flushed;
  active_len ← on_store (on_segment id size);
  target ← gets target_segment_size;
  if target <=? saturating_sub active_len SEGMENT_HEADER_LEN then ignore_error roll_segment
  else mret tt.

Definition flush_all : M LogManager Storage.Error unit :=
  buf ← gets buffer;
  match buf with
  | [] => mret tt
  | _ => n ← gets next_lsn; flush n
  end.

(** ** Queries *)
Definition last_lsn_for (t : TxnId) (s : LogManager) : option Lsn := last_lsn_by_txn s !! t.

Definition max_txn_id (s : LogManager) : option TxnId :=
  let ids := filter (fun t => t <> CHECKPOINT_TXN) (elements (dom (last_lsn_by_txn s))) in
  fold_left (fun acc t => Some (match acc with None => t | Some m => Z.max m t end)) ids None.

(** ** Truncation *)

(** How many leading sealed segments end at or below the bound. *)
Fixpoint keep_from (sealed : list SegmentMeta) (active_start bound : Z) : nat :=
  match sealed with
  | [] => 0
  | _ :: rest =>
      let segment_end := match rest with [] => active_start | s :: _ => meta_start_lsn s end in
      if segment_end <=? bound then S (keep_from rest active_start bound) else 0
  end.

Fixpoint remove_all (ids : list Z) : M LogManager Storage.Error unit :=
  match ids with
  | [] => mret tt
  | id :: ids => _ ← on_store (remove id); remove_all ids
  end.

Definition drop_sealed (n : nat) (s : LogManager) : LogManager :=
  let removed := meta_id <$> firstn n (sealed s) in
  let cache :=
    match sealed_device_cache s with
    | Some id => if decide (id ∈ removed) then None else Some id
    | None => None
    end in
  mkLog (store s) (target_segment_size s) (skipn n (sealed s)) (active_id s) (active_start_lsn s)
    (buffer s) (next_lsn s) (last_lsn_by_txn s) (bytes_appended s) cache (durable_lsn s).

Definition truncate_below (bound : Lsn) : M LogManager Storage.Error unit :=
  keep ← gets (fun s => keep_from (sealed s) (active_start_lsn s) bound);
  match keep with
  | O => mret tt
  | _ =>
      removed ← gets (fun s => meta_id <$> firstn keep (sealed s));
      _ ← modify (drop_sealed keep);
      remove_all removed
  end.

(** ** Reading *)

(** [iter().rev().find(|s| s.start_lsn <= offset)] *)
Definition find_sealed (sealed : list SegmentMeta) (offset : Z) : option SegmentMeta :=
  head (filter (fun m => meta_start_lsn m <= offset) (reverse sealed)).

(** The record at [lsn] of a sealed segment, through the one-entry cache of open devices. *)
Definition read_sealed (m : SegmentMeta) (lsn : Lsn) : M LogManager Storage.Error (option LoggedRecord) :=
  cache ← gets sealed_device_cache;
  _ ← (if decide (cache = Some (meta_id m)) then mret tt
       else _ ← on_store (open (meta_id m)); modify (set_cache (Some (meta_id m))));
  on_store (read_record_at (meta_id m) (SEGMENT_HEADER_LEN + (lsn - meta_start_lsn m))).

Definition read_at (lsn : Lsn) : M LogManager Storage.Error (option LoggedRecord) :=
  if lsn =? 0 then mret None else
  durable ← gets durable_lsn;
  if durable <=? lsn then gets (fun s => fst <$> decode_record (buffer s) (lsn - durable)) else
  start ← gets active_start_lsn;
  if start <=? lsn then
    id ← gets active_id;
    on_store (read_record_at id (SEGMENT_HEADER_LEN + (lsn - start)))
  else
    found ← gets (fun s => find_sealed (sealed s) lsn);
    match found with
    | None => mret None
    | Some m => read_sealed m lsn
    end.

(** [LogIterator]; the store it reads from is the log's. *)
Record LogIterator : Type := mkIter {
  pending_segments : list Z;
  tail : option bytes;
  current : bytes;
  iter_pos : Z;
  from : Lsn;
}.

(** [iter().rposition(|s| s.start_lsn <= from).unwrap_or(0)] *)
Definition start_index (sealed : list SegmentMeta) (from : Z) : nat :=
  match list_find (fun m => meta_start_lsn m <= from) (reverse sealed) with
  | Some (i, _) => length sealed - 1 - i
  | None => 0
  end.

Definition iter_from (from : Lsn) : M LogManager Storage.Error LogIterator :=
  let from := Z.max from HEADER_LEN in
  pending ← gets (fun s => meta_id <$> skipn (start_index (sealed s) from) (sealed s));
  id ← gets active_id;
  active_len ← on_store (on_segment id size);
  let durable_part := active_len - SEGMENT_HEADER_LEN in
  on_disk ← on_store (on_segment id (Device.read_at SEGMENT_HEADER_LEN durable_part));
  buf ← gets buffer;
  mret (mkIter pending (Some (on_disk ++ buf)) [] 0 from).

(** One segment read in full, for the iterator: any failure ends the iteration. *)
Definition load_segment (id : Z) : M Store Storage.Error bytes :=
  _ ← open id;
  n ← on_segment id size;
  on_segment id (Device.read_at 0 n).

(** [LogIterator::next]. The result is [None] when [fuel] ran out. *)
Fixpoint next (fuel : nat) (it : LogIterator) (st : Store)
  : option (option LoggedRecord * LogIterator * Store) :=
  match fuel with
  | O => None
  | S fuel =>
      match decode_record (current it) (iter_pos it) with
      | Some (r, n) =>
          let it := mkIter (pending_segments it) (tail it) (current it) (iter_pos it + n) (from it) in
          if from it <=? lsn r then Some (Some r, it, st) else next fuel it st
      | None =>
          match pending_segments it with
          | id :: rest =>
              match load_segment id st with
              | (Ok buf, st) => next fuel (mkIter rest (tail it) buf SEGMENT_HEADER_LEN (from it)) st
              | (_, st) => Some (None, mkIter rest (tail it) (current it) (iter_pos it) (from it), st)
              end
          | [] =>
              match tail it with
              | Some buf => next fuel (mkIter [] None buf 0 (from it)) st
              | None => Some (None, it, st)
              end
          end
      end
  end.

(** [for record in iter { .. }]: the records the loop body sees, in order. *)
Fixpoint drain (fuel : nat) (it : LogIterator) (st : Store) : option (list LoggedRecord) :=
  match fuel with
  | O => None
  | S fuel =>
      match next (S fuel) it st with
      | Some (Some r, it, st) => cons r <$> drain fuel it st
      | Some (None, _, _) => Some []
      | None => None
      end
  end.

(** ** Opening *)

Fixpoint bootstrap_sealed (ids : list Z) (sealed : list SegmentMeta) (last : gmap TxnId Lsn)
  (last_next : option Z) : M Store Storage.Error (list SegmentMeta * gmap TxnId Lsn * option Z) :=
  match ids with
  | [] => mret (sealed, last, last_next)
  | id :: ids =>
      _ ← open id;
      start_lsn ← read_segment_header id;
      '(segment_next, contributions) ← scan_sealed_segment id start_lsn;
      bootstrap_sealed ids (sealed ++ [mkMeta id start_lsn]) (contributions ∪ last) (Some segment_next)
  end.

Definition bootstrap (target active_id : Z) (sealed_ids : list Z) : M Store Storage.Error LogManager :=
  '(sealed, last, last_next) ← bootstrap_sealed sealed_ids [] ∅ None;
  active_len ← on_segment active_id size;
  '(start_lsn, next_lsn, last) ←
    (if active_len <? SEGMENT_HEADER_LEN then
       let start_lsn := default HEADER_LEN last_next in
       _ ← write_segment_header active_id start_lsn;
       mret (start_lsn, start_lsn, last)
     else
       start_lsn ← read_segment_header active_id;
       '(next_lsn, contributions) ← scan_active_segment active_id start_lsn;
       mret (start_lsn, next_lsn, contributions ∪ last));
  st ← gets id;
  mret (mkLog st target sealed active_id start_lsn [] next_lsn last 0 None next_lsn).

Definition open_with_store (target : Z) : M Store Storage.Error LogManager :=
  ids ← existing_segments;
  match reverse ids with
  | active_id :: sealed_rev => _ ← open active_id; bootstrap target active_id (reverse sealed_rev)
  | [] => _ ← open 0; bootstrap target 0 []
  end.
