(* ===== verification/LogInv.v ===== *)
(** * The log as a sequence of records

    The abstract view of [LogManager]: one sequence of records, laid out over the sealed
    segments, the active segment and the buffer, in which an LSN is a position. Every
    operation of Log.v is shown to act on that sequence as it should. *)
From stdpp Require Import sorting.
From S2P Require Import Prelude Common Value Errors WalRecord Device SegmentStore Log.

(** ** The abstraction *)

Record Segment : Type := mkSeg { seg_id : Z; seg_start : Z; seg_recs : list LoggedRecord }.

Definition all_records (gs : list Segment) (act buf : list LoggedRecord) : list LoggedRecord :=
  concat (seg_recs <$> gs) ++ act ++ buf.

(** Each record's LSN is the position at which its bytes start. *)
Fixpoint lsns_from (start : Z) (rs : list LoggedRecord) : Prop :=
  match rs with
  | [] => True
  | r :: rs => lsn r = start /\ lsns_from (start + len (encode_record r)) rs
  end.

(** Consecutive ids, and each segment starts where the one before ends. *)
Fixpoint chain (id start : Z) (gs : list Segment) (aid astart : Z) : Prop :=
  match gs with
  | [] => id = aid /\ start = astart
  | g :: gs => seg_id g = id /\ seg_start g = start
               /\ chain (id + 1) (start + len (enc_all (seg_recs g))) gs aid astart
  end.

(** The LSN of the last record of a transaction. *)
Definition last_of (t : TxnId) (rs : list LoggedRecord) : option Lsn :=
  lsn <$> last (filter (fun r => txn_id r = t) rs).

(** [o] is the last LSN of [t] in [rs], or one that has been truncated away. *)
Definition links (base : Z) (rs : list LoggedRecord) (t : TxnId) (o : option Lsn) : Prop :=
  match last_of t rs with
  | Some l => o = Some l
  | None => forall l, o = Some l -> 0 < l < base
  end.

(** The backward chain of every transaction is intact. *)
Definition prevs_ok (base : Z) (rs : list LoggedRecord) : Prop :=
  forall pre r post, rs = pre ++ r :: post -> links base pre (txn_id r) (prev_lsn r).

Record log_inv (s : LogManager) (bid base : Z) (gs : list Segment) (act buf : list LoggedRecord)
  : Prop := {
  inv_sealed : sealed s = (fun g => mkMeta (seg_id g) (seg_start g)) <$> gs;
  inv_chain : chain bid base gs (active_id s) (active_start_lsn s);
  inv_segs : Forall (fun g => segs (store s) !! seg_id g = Some (seg_bytes (seg_start g) (seg_recs g))) gs;
  inv_active : segs (store s) !! active_id s = Some (seg_bytes (active_start_lsn s) act);
  inv_buffer : buffer s = enc_all buf;
  inv_durable : durable_lsn s = active_start_lsn s + len (enc_all act);
  inv_next : next_lsn s = durable_lsn s + len (enc_all buf);
  inv_fits : next_lsn s < 2 ^ 64;
  inv_base : 0 <= bid /\ HEADER_LEN <= base;
  inv_ok : Forall record_ok (all_records gs act buf);
  inv_lsns : lsns_from base (all_records gs act buf);
  inv_last : forall t, links base (all_records gs act buf) t (last_lsn_by_txn s !! t);
  inv_prevs : prevs_ok base (all_records gs act buf);
}.

(** No scheduled faults are left: every call works. *)
Definition quiet (st : Store) : Prop := store_faults st = [].

(** The directory holds the log's segments and nothing else. *)
Definition exact (s : LogManager) (bid : Z) : Prop :=
  forall j, is_Some (segs (store s) !! j) <-> bid <= j <= active_id s.

(** ** Positions *)

Lemma lsns_from_app start a b :
  lsns_from start (a ++ b) <-> lsns_from start a /\ lsns_from (start + len (enc_all a)) b.
Proof.
  revert start. induction a as [| r a IH]; intros start; cbn [app lsns_from].
  - change (len (enc_all [])) with 0. rewrite Z.add_0_r. naive_solver.
  - rewrite IH, enc_all_cons, len_app, Z.add_assoc. naive_solver.
Qed.

Lemma lsns_from_lookup start pre r post :
  lsns_from start (pre ++ r :: post) -> lsn r = start + len (enc_all pre).
Proof. intros [_ [H _]]%lsns_from_app. done. Qed.

Lemma lsns_from_ge start rs r : lsns_from start rs -> r ∈ rs -> start <= lsn r.
Proof.
  intros H (pre & post & ->)%list_elem_of_split. rewrite (lsns_from_lookup _ _ _ _ H).
  pose proof (len_nonneg (enc_all pre)). lia.
Qed.

Lemma lsns_from_lt start rs r :
  lsns_from start rs -> r ∈ rs -> lsn r + len (encode_record r) <= start + len (enc_all rs).
Proof.
  intros H (pre & post & ->)%list_elem_of_split. rewrite (lsns_from_lookup _ _ _ _ H).
  rewrite enc_all_app, enc_all_cons, !len_app. pose proof (len_nonneg (enc_all post)). lia.
Qed.

Lemma chain_app id start gs hs aid astart :
  chain id start (gs ++ hs) aid astart <->
  exists i p, chain id start gs i p /\ chain i p hs aid astart.
Proof.
  revert id start. induction gs as [| g gs IH]; intros id start; cbn [app chain].
  - naive_solver.
  - rewrite IH. naive_solver.
Qed.

Lemma chain_end id start gs aid astart :
  chain id start gs aid astart ->
  aid = id + len gs /\ astart = start + len (enc_all (concat (seg_recs <$> gs))).
Proof.
  revert id start. induction gs as [| g gs IH]; intros id start; cbn [chain].
  - intros [-> ->]. change (enc_all (concat (seg_recs <$> []))) with (@nil byte).
    split; rewrite len_nil; lia.
  - intros (_ & _ & [-> ->]%IH). rewrite fmap_cons. cbn [concat].
    rewrite enc_all_app, len_app, len_cons. lia.
Qed.

Lemma chain_ids id start gs aid astart g :
  chain id start gs aid astart -> g ∈ gs -> id <= seg_id g < aid.
Proof.
  intros Hc (pre & post & ->)%list_elem_of_split.
  apply chain_app in Hc as (i & p & H1 & H2). cbn [chain] in H2. destruct H2 as (-> & _ & H2).
  apply chain_end in H1 as [-> _]. apply chain_end in H2 as [-> _].
  pose proof (len_nonneg pre). pose proof (len_nonneg post). lia.
Qed.

(** The transaction table after one more record. *)
Lemma last_of_snoc t rs r :
  last_of t (rs ++ [r]) = if decide (txn_id r = t) then Some (lsn r) else last_of t rs.
Proof.
  unfold last_of. rewrite filter_app. rewrite filter_cons, filter_nil.
  case_decide; [by rewrite last_snoc | by rewrite app_nil_r].
Qed.

(** Cutting a log at a record boundary keeps the chains. *)
Lemma prevs_ok_app_l base a b : prevs_ok base (a ++ b) -> prevs_ok base a.
Proof. intros H pre r post ->. apply (H pre r (post ++ b)). by rewrite <- app_assoc. Qed.

Lemma prevs_ok_snoc base rs r :
  prevs_ok base rs -> links base rs (txn_id r) (prev_lsn r) -> prevs_ok base (rs ++ [r]).
Proof.
  intros H Hr pre r' post E. destruct post as [| q post _] using rev_ind.
  - by apply app_inj_tail in E as [-> ->].
  - rewrite app_comm_cons, app_assoc in E. apply app_inj_tail in E as [-> ->]. by eapply H.
Qed.

(** ** Calls on a store where nothing fails *)
Section quiet_store.
Context (st : Store) (id : Z) (c : bytes).
Hypothesis (Hq : quiet st) (Hc : segs st !! id = Some c).

Lemma seg_size : on_segment id size st = (Ok (len c), st).
Proof.
  destruct st as [m fs]. unfold quiet in Hq. cbn in *. subst fs.
  unfold on_segment. cbn. rewrite Hc. cbn. by rewrite insert_id.
Qed.

Lemma seg_read off n b : sub c off n = Some b -> on_segment id (Device.read_at off n) st = (Ok b, st).
Proof.
  intros Hs. destruct st as [m fs]. unfold quiet in Hq. cbn in *. subst fs.
  unfold on_segment. cbn. rewrite Hc. cbn. rewrite Hs. cbn. by rewrite insert_id.
Qed.

Lemma seg_sync : on_segment id sync_all st = (Ok tt, st).
Proof.
  destruct st as [m fs]. unfold quiet in Hq. cbn in *. subst fs.
  unfold on_segment. cbn. rewrite Hc. cbn. by rewrite insert_id.
Qed.

Lemma seg_write off buf :
  on_segment id (write_at off buf) st = (Ok tt, mkStore (<[id := write_content c off buf]> (segs st)) []).
Proof.
  destruct st as [m fs]. unfold quiet in Hq. cbn in *. subst fs.
  unfold on_segment. cbn. by rewrite Hc.
Qed.

Lemma seg_set_len n :
  on_segment id (set_len n) st = (Ok tt, mkStore (<[id := resize_content c n]> (segs st)) []).
Proof.
  destruct st as [m fs]. unfold quiet in Hq. cbn in *. subst fs.
  unfold on_segment. cbn. by rewrite Hc.
Qed.

Lemma open_existing : open id st = (Ok tt, st).
Proof.
  destruct st as [m fs]. unfold quiet in Hq. cbn in *. subst fs.
  unfold open, create_if_missing. cbn. rewrite Hc. cbn. by rewrite insert_id.
Qed.

Lemma read_record_found off r n :
  0 <= off -> decode_record c off = Some (r, n) -> read_record_at id off st = (Ok (Some r), st).
Proof.
  intros Hoff Hd. pose proof (decode_record_min _ _ _ _ Hd) as Hmin.
  pose proof (decode_record_sound _ _ _ _ Hd) as (Hr & Hn & Hs).
  destruct (decode_record_len _ _ _ _ Hd) as (front & Hf & Hfn).
  pose proof Hs as (_ & _ & Hle & _)%sub_Some. unfold MIN_RECORD_LEN in Hmin.
  unfold read_record_at, mbind, M_bind. rewrite seg_size.
  destruct (Z.ltb_spec (len c) (off + 4)); [lia |].
  rewrite (seg_read _ _ _ Hf). rewrite <- Hfn.
  destruct (Z.ltb_spec n MIN_RECORD_LEN); [unfold MIN_RECORD_LEN in *; lia |].
  destruct (Z.ltb_spec (len c) (off + n)); [lia |]. cbn [orb].
  rewrite (seg_read _ _ _ Hs). unfold mret, M_ret.
  pose proof (decode_encode_record [] r [] Hr) as Hdec. rewrite app_nil_r in Hdec.
  change (len (@nil byte)) with 0 in Hdec. simpl in Hdec. by rewrite Hdec.
Qed.
End quiet_store.

(** ** Appending *)
Lemma all_records_snoc gs act buf r : all_records gs act (buf ++ [r]) = all_records gs act buf ++ [r].
Proof. unfold all_records. by rewrite <- !app_assoc. Qed.

Lemma all_records_end s bid base gs act buf :
  log_inv s bid base gs act buf -> base + len (enc_all (all_records gs act buf)) = next_lsn s.
Proof.
  intros H. destruct (chain_end _ _ _ _ _ (inv_chain _ _ _ _ _ _ H)) as [_ E].
  rewrite (inv_next _ _ _ _ _ _ H), (inv_durable _ _ _ _ _ _ H), E.
  unfold all_records. rewrite !enc_all_app, !len_app. lia.
Qed.

Lemma last_of_elem t rs l : last_of t rs = Some l -> exists r, r ∈ rs /\ lsn r = l /\ txn_id r = t.
Proof.
  unfold last_of. intros (r & Hl & ->)%fmap_Some. exists r.
  apply last_Some_elem_of in Hl. apply list_elem_of_filter in Hl as [? ?]. done.
Qed.

Lemma links_range s bid base gs act buf t l :
  log_inv s bid base gs act buf -> last_lsn_by_txn s !! t = Some l -> 0 < l < next_lsn s.
Proof.
  intros H Hl. pose proof (inv_last _ _ _ _ _ _ H t) as Hk. unfold links in Hk.
  pose proof (all_records_end _ _ _ _ _ _ H) as Hend.
  pose proof (len_nonneg (enc_all (all_records gs act buf))) as Hnn.
  destruct (inv_base _ _ _ _ _ _ H) as [_ Hbase]. unfold HEADER_LEN, SEGMENT_HEADER_LEN in Hbase.
  destruct (last_of t _) as [l' |] eqn:E.
  - assert (l' = l) by congruence. subst l'. apply last_of_elem in E as (r & Hr & <- & _).
    pose proof (lsns_from_ge _ _ _ (inv_lsns _ _ _ _ _ _ H) Hr).
    pose proof (lsns_from_lt _ _ _ (inv_lsns _ _ _ _ _ _ H) Hr).
    pose proof (len_encode_record_min r). unfold MIN_RECORD_LEN in *. lia.
  - apply Hk in Hl. lia.
Qed.

(** The record [append] writes. *)
Definition appended (s : LogManager) (t : TxnId) (k : LogRecordKind) : LoggedRecord :=
  mkLogged (next_lsn s) (last_lsn_by_txn s !! t) t k.

Lemma append_inv s bid base gs act buf t k :
  log_inv s bid base gs act buf ->
  in_u 64 t -> kind_ok k -> len (encode_body (appended s t k)) + 12 < 2 ^ 32 ->
  next_lsn s + len (encode_record (appended s t k)) < 2 ^ 64 ->
  (append t k s).1 = Ok (next_lsn s)
  /\ log_inv (append t k s).2 bid base gs act (buf ++ [appended s t k])
  /\ store (append t k s).2 = store s.
Proof.
  intros H Ht Hk Hlen Hfit. split; [done |]. split; [| done].
  pose proof (all_records_end _ _ _ _ _ _ H) as Hend.
  pose proof (len_nonneg (enc_all (all_records gs act buf))) as Hnn.
  pose proof (inv_base _ _ _ _ _ _ H) as [Hb1 Hb2]. unfold HEADER_LEN, SEGMENT_HEADER_LEN in Hb2.
  pose proof (len_nonneg (encode_record (appended s t k))) as Hnr.
  pose proof (inv_fits _ _ _ _ _ _ H) as Hfits.
  assert (Hr : record_ok (appended s t k)).
  { unfold record_ok, appended. cbn [lsn txn_id kind prev_lsn].
    split; [unfold in_u; lia |]. split; [done |]. split; [done |]. split; [| done].
    intros p Hp. pose proof (links_range _ _ _ _ _ _ _ _ H Hp). unfold in_u. lia. }
  constructor; cbn [append snd store target_segment_size sealed active_id active_start_lsn buffer
                    next_lsn last_lsn_by_txn durable_lsn]; fold (appended s t k); try apply H.
  - rewrite (inv_buffer _ _ _ _ _ _ H). by rewrite enc_all_snoc.
  - rewrite enc_all_snoc, len_app. unfold wrapu. rewrite Z.mod_small by lia.
    rewrite (inv_next _ _ _ _ _ _ H). lia.
  - unfold wrapu. rewrite Z.mod_small by lia. done.
  - rewrite all_records_snoc. apply Forall_app. split; [apply H | by constructor].
  - rewrite all_records_snoc. apply lsns_from_app. split; [apply H |]. cbn [lsns_from]. split; [| done].
    by rewrite Hend.
  - intros t'. rewrite all_records_snoc. unfold links. rewrite last_of_snoc.
    cbn [txn_id lsn appended]. case_decide as Ett.
    + subst t'. by rewrite lookup_insert_eq.
    + rewrite lookup_insert_ne by done. apply H.
  - rewrite all_records_snoc. apply prevs_ok_snoc; [apply H |]. apply H.
Qed.

(** ** Reading by LSN *)

(** A record of a segment decodes at its position in the file. *)
Lemma decode_in_segment start rs r :
  Forall record_ok rs -> lsns_from start rs -> r ∈ rs ->
  decode_record (seg_bytes start rs) (SEGMENT_HEADER_LEN + (lsn r - start))
  = Some (r, len (encode_record r)).
Proof.
  intros Hok Hl (pre & post & ->)%list_elem_of_split.
  rewrite (lsns_from_lookup _ _ _ _ Hl). apply Forall_app in Hok as [_ [Hr _]%Forall_cons].
  unfold seg_bytes. rewrite enc_all_app, enc_all_cons, app_assoc.
  replace (SEGMENT_HEADER_LEN + (start + len (enc_all pre) - start))
    with (len (segment_header start ++ enc_all pre)) by (rewrite len_app, len_segment_header; lia).
  by apply decode_encode_record.
Qed.

Lemma decode_in_buffer start rs r :
  Forall record_ok rs -> lsns_from start rs -> r ∈ rs ->
  decode_record (enc_all rs) (lsn r - start) = Some (r, len (encode_record r)).
Proof.
  intros Hok Hl (pre & post & ->)%list_elem_of_split.
  rewrite (lsns_from_lookup _ _ _ _ Hl). apply Forall_app in Hok as [_ [Hr _]%Forall_cons].
  rewrite enc_all_app, enc_all_cons.
  replace (start + len (enc_all pre) - start) with (len (enc_all pre)) by lia.
  by apply decode_encode_record.
Qed.

Lemma chain_starts id start gs aid astart g :
  chain id start gs aid astart -> g ∈ gs -> start <= seg_start g <= astart.
Proof.
  intros Hc (pre & post & ->)%list_elem_of_split.
  apply chain_app in Hc as (i & p & H1 & H2). cbn [chain] in H2. destruct H2 as (_ & -> & H2).
  apply chain_end in H1 as [_ ->]. apply chain_end in H2 as [_ ->].
  pose proof (len_nonneg (enc_all (concat (seg_recs <$> pre)))).
  pose proof (len_nonneg (enc_all (seg_recs g))).
  pose proof (len_nonneg (enc_all (concat (seg_recs <$> post)))). lia.
Qed.

(** One segment of the layout. *)
Lemma layout_segment base pre g post act buf bid aid astart :
  chain bid base (pre ++ g :: post) aid astart ->
  lsns_from base (all_records (pre ++ g :: post) act buf) ->
  lsns_from (seg_start g) (seg_recs g)
  /\ Forall (fun h => seg_start g + len (enc_all (seg_recs g)) <= seg_start h) post
  /\ seg_start g + len (enc_all (seg_recs g)) <= astart.
Proof.
  intros Hc Hl. apply chain_app in Hc as (i & p & H1 & H2). cbn [chain] in H2.
  destruct H2 as (_ & E & H2). apply chain_end in H1 as [_ ->]. split; [| split].
  - unfold all_records in Hl. rewrite fmap_app, fmap_cons, concat_app in Hl. cbn [concat] in Hl.
    rewrite <- !app_assoc in Hl. apply lsns_from_app in Hl as [_ [Hl _]%lsns_from_app].
    by rewrite <- E in Hl.
  - apply Forall_forall. intros h Hh. rewrite E. by apply (chain_starts _ _ _ _ _ h H2).
  - apply chain_end in H2 as [_ H2].
    pose proof (len_nonneg (enc_all (concat (seg_recs <$> post)))). lia.
Qed.

Lemma layout_tail s bid base gs act buf :
  log_inv s bid base gs act buf ->
  lsns_from (active_start_lsn s) act /\ lsns_from (durable_lsn s) buf.
Proof.
  intros H. pose proof (inv_lsns _ _ _ _ _ _ H) as Hl. unfold all_records in Hl.
  destruct (chain_end _ _ _ _ _ (inv_chain _ _ _ _ _ _ H)) as [_ E].
  apply lsns_from_app in Hl as [_ [Ha Hb]%lsns_from_app]. rewrite <- E in *.
  by rewrite (inv_durable _ _ _ _ _ _ H).
Qed.

Lemma find_sealed_segment pre g post l :
  seg_start g <= l -> Forall (fun h => l < seg_start h) post ->
  find_sealed ((fun g => mkMeta (seg_id g) (seg_start g)) <$> pre ++ g :: post) l
  = Some (mkMeta (seg_id g) (seg_start g)).
Proof.
  intros Hg Hp. unfold find_sealed.
  rewrite fmap_app, fmap_cons, reverse_app, reverse_cons, <- app_assoc, filter_app.
  rewrite filter_none.
  - cbn [app]. rewrite filter_cons_True by done. done.
  - apply Forall_reverse, Forall_fmap. eapply Forall_impl; [exact Hp |]. intros h Hh. unfold compose.
    cbn beta in Hh. cbn [meta_start_lsn]. lia.
Qed.

Lemma elem_of_all gs act buf r :
  r ∈ all_records gs act buf ->
  r ∈ buf \/ r ∈ act \/ exists pre g post, gs = pre ++ g :: post /\ r ∈ seg_recs g.
Proof.
  unfold all_records. rewrite !elem_of_app. intros [Hr | [Hr | Hr]]; [| by auto ..].
  apply list_elem_of_In in Hr. apply in_concat in Hr as (rs & Hrs & Hr).
  apply list_elem_of_In in Hrs, Hr. apply list_elem_of_fmap in Hrs as (g & -> & Hg).
  apply list_elem_of_split in Hg as (pre & post & ->). right. right. by exists pre, g, post.
Qed.

Lemma set_cache_id s : s = set_cache (sealed_device_cache s) s.
Proof. by destruct s. Qed.
Lemma set_store_id s : set_store (store s) s = s.
Proof. by destruct s. Qed.

(** The sealed-segment read, with a device in the cache or not. *)
Lemma read_sealed_run s m l c o :
  quiet (store s) -> segs (store s) !! meta_id m = Some c ->
  read_record_at (meta_id m) (SEGMENT_HEADER_LEN + (l - meta_start_lsn m)) (store s) = (o, store s) ->
  exists c, read_sealed m l s = (o, set_cache c s).
Proof.
  intros Hq Hc Hr. unfold read_sealed, mbind, M_bind, gets.
  assert (Hrec : forall x, store x = store s -> on_store
    (read_record_at (meta_id m) (SEGMENT_HEADER_LEN + (l - meta_start_lsn m))) x = (o, x)).
  { intros x Hx. unfold on_store. rewrite Hx, Hr. by rewrite <- Hx, set_store_id. }
  destruct (decide (sealed_device_cache s = Some (meta_id m))).
  - unfold mret, M_ret. rewrite Hrec by done. eexists. by rewrite <- set_cache_id.
  - unfold on_store at 1. rewrite (open_existing _ _ _ Hq Hc). unfold modify.
    rewrite set_store_id, Hrec by done. by eexists.
Qed.

(** Reading touches nothing but the one-entry cache of open sealed segments. *)
Lemma read_at_inv s bid base gs act buf r :
  log_inv s bid base gs act buf -> quiet (store s) -> r ∈ all_records gs act buf ->
  exists c, read_at (lsn r) s = (Ok (Some r), set_cache c s).
Proof.
  intros H Hq Hr. destruct (layout_tail _ _ _ _ _ _ H) as [Hla Hlb].
  pose proof (inv_ok _ _ _ _ _ _ H) as Hok. pose proof (lsns_from_ge _ _ _ (inv_lsns _ _ _ _ _ _ H) Hr).
  destruct (inv_base _ _ _ _ _ _ H) as [_ Hbase]. unfold HEADER_LEN, SEGMENT_HEADER_LEN in Hbase.
  unfold all_records in Hok. rewrite !Forall_app in Hok. destruct Hok as (Hoks & Hoka & Hokb).
  pose proof (len_encode_record_min r) as Hmin. unfold MIN_RECORD_LEN in Hmin.
  unfold read_at, mbind, M_bind, gets. destruct (Z.eqb_spec (lsn r) 0); [lia |].
  rewrite (inv_durable _ _ _ _ _ _ H) in *.
  destruct (elem_of_all _ _ _ _ Hr) as [Hb | [Ha | (pre & g & post & -> & Hg)]].
  - pose proof (lsns_from_ge _ _ _ Hlb Hb).
    destruct (Z.leb_spec (active_start_lsn s + len (enc_all act)) (lsn r)); [| lia].
    rewrite (inv_buffer _ _ _ _ _ _ H), (decode_in_buffer _ _ _ Hokb Hlb Hb).
    eexists. by rewrite <- set_cache_id.
  - pose proof (lsns_from_lt _ _ _ Hla Ha). pose proof (lsns_from_ge _ _ _ Hla Ha).
    destruct (Z.leb_spec (active_start_lsn s + len (enc_all act)) (lsn r)); [lia |].
    destruct (Z.leb_spec (active_start_lsn s) (lsn r)); [| lia].
    unfold on_store. erewrite read_record_found;
      [| exact Hq | apply H | unfold SEGMENT_HEADER_LEN; lia | by apply decode_in_segment].
    rewrite set_store_id. eexists. by rewrite <- set_cache_id.
  - destruct (layout_segment _ _ _ _ _ _ _ _ _ (inv_chain _ _ _ _ _ _ H) (inv_lsns _ _ _ _ _ _ H))
      as (Hlg & Hpost & Hend).
    pose proof (lsns_from_lt _ _ _ Hlg Hg). pose proof (lsns_from_ge _ _ _ Hlg Hg).
    pose proof (len_nonneg (enc_all act)).
    destruct (Z.leb_spec (active_start_lsn s + len (enc_all act)) (lsn r)); [lia |].
    destruct (Z.leb_spec (active_start_lsn s) (lsn r)); [lia |].
    rewrite (inv_sealed _ _ _ _ _ _ H), find_sealed_segment;
      [| lia | eapply Forall_impl; [exact Hpost |]; cbn; intros; lia].
    pose proof (inv_segs _ _ _ _ _ _ H) as [_ [Hseg _]%Forall_cons]%Forall_app.
    rewrite fmap_app, fmap_cons, concat_app in Hoks. cbn [concat] in Hoks.
    rewrite !Forall_app in Hoks. destruct Hoks as (_ & Hokg & _).
    apply (read_sealed_run s (mkMeta (seg_id g) (seg_start g)) _ _ _ Hq Hseg).
    eapply read_record_found; [exact Hq | exact Hseg |
      cbn [meta_start_lsn]; unfold SEGMENT_HEADER_LEN; lia | by apply decode_in_segment].
Qed.

(** ** Flushing, whatever fails around it *)

(** The next [n] calls on the store work; what happens later is not constrained. *)
Definition calls_work (n : nat) (st : Store) : Prop := Forall (eq Works) (firstn n (store_faults st)).

Lemma quiet_calls_work n st : quiet st -> calls_work n st.
Proof. unfold quiet, calls_work. intros ->. by rewrite take_nil. Qed.

Lemma calls_work_next n st :
  calls_work (S n) st ->
  exists fs, next_fault (store_faults st) = (Works, fs) /\ forall m, calls_work n (mkStore m fs).
Proof.
  unfold calls_work. destruct (store_faults st) as [| f fs].
  - exists []. split; [done |]. intros m. cbn. by rewrite take_nil.
  - cbn [firstn]. intros [<- Hfs]%Forall_cons. exists fs. split; [done |]. by intros m.
Qed.

Lemma on_segment_frame {A} id (m : M Device Storage.Error A) st j :
  j <> id -> segs (on_segment id m st).2 !! j = segs st !! j.
Proof.
  intros Hj. unfold on_segment. destruct (m _) as [o d]. cbn. by rewrite lookup_insert_ne.
Qed.

(** Writing a header touches one file, and success means the header is there. *)
Lemma write_segment_header_spec id start st :
  let '(o, st') := write_segment_header id start st in
  (forall j, j <> id -> segs st' !! j = segs st !! j)
  /\ o <> Panic /\ (o = Ok tt -> segs st' !! id = Some (segment_header start))
  /\ (quiet st -> o = Ok tt /\ quiet st').
Proof.
  unfold write_segment_header, mbind, M_bind, on_segment, set_len, write_at, sync_all, quiet.
  cbn [content faults segs store_faults].
  destruct (store_faults st) as [| [| e1 k1] [| [| e2 k2] [| [| e3 k3] fs]]]; cbn;
    (split; [intros j Hj; by rewrite ?lookup_insert_ne by done |]);
    (split; [done |]); (split; [intros Ho; try discriminate Ho | try done]).
  all: rewrite ?lookup_insert_eq; cbn [default]; rewrite ?resize_content_zero; done.
Qed.

Lemma open_spec id st :
  let '(o, st') := open id st in
  (forall j, j <> id -> segs st' !! j = segs st !! j)
  /\ o <> Panic /\ (quiet st -> o = Ok tt /\ quiet st').
Proof.
  unfold open, quiet. destruct (store_faults st) as [| [| e k] fs]; cbn [next_fault segs store_faults].
  - split; [| done]. intros j Hj. unfold create_if_missing. by rewrite lookup_insert_ne.
  - split; [| done]. intros j Hj. unfold create_if_missing. by rewrite lookup_insert_ne.
  - split; [| done]. intros j Hj. destruct (0 <? k); [| done].
    unfold create_if_missing. by rewrite lookup_insert_ne.
Qed.

(** Replacing the store by one that agrees on the log's own segments. *)
Lemma log_inv_store s bid base gs act buf st :
  log_inv s bid base gs act buf ->
  (forall j, j <= active_id s -> segs st !! j = segs (store s) !! j) ->
  log_inv (set_store st s) bid base gs act buf.
Proof.
  intros H Hst. constructor; cbn [set_store store sealed active_id active_start_lsn buffer next_lsn
    last_lsn_by_txn durable_lsn]; try apply H.
  - apply Forall_forall. intros g Hg. pose proof (inv_segs _ _ _ _ _ _ H) as Hs.
    rewrite Forall_forall in Hs. rewrite Hst; [by apply Hs |].
    pose proof (chain_ids _ _ _ _ _ _ (inv_chain _ _ _ _ _ _ H) Hg). lia.
  - rewrite Hst by lia. apply H.
Qed.

(** Rolling to a new segment, at any point of which any call may fail. *)
Lemma roll_segment_inv s bid base gs act :
  log_inv s bid base gs act [] ->
  let '(o, s') := roll_segment s in
  (exists gs' act', log_inv s' bid base gs' act' [] /\ all_records gs' act' [] = all_records gs act [])
  /\ o <> Panic /\ next_lsn s' = next_lsn s /\ durable_lsn s' = durable_lsn s
  /\ (quiet (store s) -> o = Ok tt /\ quiet (store s') /\ (exact s bid -> exact s' bid)).
Proof.
  intros H. unfold roll_segment, mbind, M_bind, gets, on_store.
  pose proof (open_spec (active_id s + 1) (store s)) as Ho.
  destruct (open (active_id s + 1) (store s)) as [o1 st1]. destruct Ho as (Hf1 & Hp1 & Hq1).
  assert (H1 : log_inv (set_store st1 s) bid base gs act []).
  { apply log_inv_store; [done |]. intros j Hj. apply Hf1. lia. }
  destruct o1 as [[] | e1 |]; [| | done].
  2: { split; [by eexists _, _ |]. split; [done |]. split; [done |]. split; [done |]. naive_solver. }
  cbn [set_store store].
  pose proof (write_segment_header_spec (active_id s + 1) (next_lsn s) st1) as Hw.
  destruct (write_segment_header (active_id s + 1) (next_lsn s) st1) as [o2 st2].
  destruct Hw as (Hf2 & Hp2 & Hok2 & Hq2).
  assert (H2 : log_inv (set_store st2 (set_store st1 s)) bid base gs act []).
  { apply log_inv_store; [done |]. cbn. intros j Hj. apply Hf2. lia. }
  destruct o2 as [[] | e2 |]; [| | done].
  2: { split; [by eexists _, _ |]. split; [done |]. split; [done |]. split; [done |]. naive_solver. }
  unfold modify. split; [| split; [done | split; [done | split; [done |]]]].
  2: { intros HQ. destruct (Hq1 HQ) as [_ HQ1]. destruct (Hq2 HQ1) as [_ HQ2].
       split; [done |]. split; [done |]. intros Hex j. cbn. specialize (Hex j).
       pose proof (chain_end _ _ _ _ _ (inv_chain _ _ _ _ _ _ H)) as [Ea _].
       pose proof (len_nonneg gs). destruct (decide (j = active_id s + 1)) as [-> | Hj].
       - rewrite (Hok2 eq_refl). split; [lia | by eexists].
       - rewrite Hf2, Hf1, Hex by done. lia. }
  exists (gs ++ [mkSeg (active_id s) (active_start_lsn s) act]), [].
  assert (Hall : all_records (gs ++ [mkSeg (active_id s) (active_start_lsn s) act]) [] []
                 = all_records gs act []).
  { unfold all_records. rewrite fmap_app, concat_app. cbn. by rewrite !app_nil_r. }
  split; [| done]. assert (Hn : next_lsn s = active_start_lsn s + len (enc_all act)).
  { rewrite (inv_next _ _ _ _ _ _ H), (inv_durable _ _ _ _ _ _ H).
    change (enc_all []) with (@nil byte). rewrite len_nil. lia. }
  constructor; rewrite ?Hall; cbn [set_store store sealed active_id active_start_lsn buffer next_lsn
    last_lsn_by_txn durable_lsn]; try apply H.
  - rewrite fmap_app. by rewrite (inv_sealed _ _ _ _ _ _ H).
  - apply chain_app. exists (active_id s), (active_start_lsn s). split; [apply H |].
    cbn. split; [done |]. split; [done |]. by rewrite Hn.
  - apply Forall_app. split; [apply H2 |]. apply Forall_singleton. apply H2.
  - rewrite (Hok2 eq_refl). unfold seg_bytes. change (enc_all []) with (@nil byte). by rewrite app_nil_r.
  - rewrite (inv_durable _ _ _ _ _ _ H), Hn. change (enc_all []) with (@nil byte). rewrite len_nil. lia.
Qed.

Section working_call.
Context (st : Store) (id : Z) (c : bytes) (fs : list Fault).
Hypothesis (Hf : next_fault (store_faults st) = (Works, fs)) (Hc : segs st !! id = Some c).

Lemma call_size : on_segment id size st = (Ok (len c), mkStore (segs st) fs).
Proof. unfold on_segment, size. cbn. rewrite Hc, Hf. cbn. by rewrite insert_id. Qed.

Lemma call_write off buf :
  on_segment id (write_at off buf) st = (Ok tt, mkStore (<[id := write_content c off buf]> (segs st)) fs).
Proof. unfold on_segment, write_at. cbn. by rewrite Hc, Hf. Qed.

Lemma call_sync : on_segment id sync_all st = (Ok tt, mkStore (segs st) fs).
Proof. unfold on_segment, sync_all. cbn. rewrite Hc, Hf. cbn. by rewrite insert_id. Qed.
End working_call.

(** The size of a segment is read without changing it. *)
Lemma on_segment_size_inv id st c :
  segs st !! id = Some c ->
  segs (on_segment id size st).2 = segs st /\ (on_segment id size st).1 <> Panic
  /\ (forall n, (on_segment id size st).1 = Ok n -> n = len c)
  /\ (quiet st -> (on_segment id size st).1 = Ok (len c) /\ quiet (on_segment id size st).2).
Proof.
  intros Hc. unfold on_segment, size, quiet. cbn. rewrite Hc.
  destruct (store_faults st) as [| [| e k] fs]; cbn; rewrite insert_id by done; naive_solver.
Qed.

Lemma log_inv_flushed s bid base gs act buf fs :
  log_inv s bid base gs act buf ->
  log_inv (mark_flushed (set_store
    (mkStore (<[active_id s := seg_bytes (active_start_lsn s) act ++ buffer s]> (segs (store s))) fs) s))
    bid base gs (act ++ buf) [].
Proof.
  intros H. assert (Hall : all_records gs (act ++ buf) [] = all_records gs act buf).
  { unfold all_records. by rewrite app_nil_r. }
  constructor; rewrite ?Hall; cbn [mark_flushed set_store store segs sealed active_id active_start_lsn
    buffer next_lsn last_lsn_by_txn durable_lsn]; try apply H.
  - apply Forall_forall. intros g Hg. pose proof (inv_segs _ _ _ _ _ _ H) as Hs.
    rewrite Forall_forall in Hs.
    pose proof (chain_ids _ _ _ _ _ _ (inv_chain _ _ _ _ _ _ H) Hg).
    rewrite lookup_insert_ne by lia. by apply Hs.
  - rewrite lookup_insert_eq, (inv_buffer _ _ _ _ _ _ H). unfold seg_bytes.
    by rewrite enc_all_app, app_assoc.
  - done.
  - rewrite (inv_next _ _ _ _ _ _ H), (inv_durable _ _ _ _ _ _ H), enc_all_app, len_app. lia.
  - change (enc_all []) with (@nil byte). rewrite len_nil. lia.
Qed.

(** What [flush] leaves behind once its write and sync went through. *)
Definition flushed_from (s : LogManager) (bid base : Z) (rs : list LoggedRecord) (s' : LogManager) : Prop :=
  (exists gs' act', log_inv s' bid base gs' act' [] /\ all_records gs' act' [] = rs)
  /\ buffer s' = [] /\ durable_lsn s' = next_lsn s /\ next_lsn s' = next_lsn s.

Lemma ignore_roll s0 s bid base gs act :
  log_inv s bid base gs act [] -> durable_lsn s = next_lsn s0 -> next_lsn s = next_lsn s0 ->
  let '(o, s') := ignore_error roll_segment s in
  flushed_from s0 bid base (all_records gs act []) s' /\ o = Ok tt
  /\ (quiet (store s) -> quiet (store s') /\ (exact s bid -> exact s' bid)).
Proof.
  intros H Hd Hn. pose proof (roll_segment_inv _ _ _ _ _ H) as Hr. unfold ignore_error.
  destruct (roll_segment s) as [o s']. destruct Hr as ((gs' & act' & Hi & Ha) & Hp & En & Ed & Hq).
  assert (Hflushed : flushed_from s0 bid base (all_records gs act []) s').
  { split; [by exists gs', act' |]. split; [by rewrite (inv_buffer _ _ _ _ _ _ Hi) |].
    split; congruence. }
  destruct o as [[] | e |]; [| | done].
  - split; [done |]. split; [done |]. intros (_ & ? & ?)%Hq. done.
  - split; [done |]. split; [done |]. intros (? & _)%Hq. done.
Qed.

Lemma flush_inv s bid base gs act buf up_to :
  log_inv s bid base gs act buf -> durable_lsn s <= up_to -> calls_work 3 (store s) ->
  let '(o, s') := flush up_to s in
  flushed_from s bid base (all_records gs act buf) s' /\ o <> Panic
  /\ (quiet (store s) -> o = Ok tt /\ quiet (store s') /\ (exact s bid -> exact s' bid)).
Proof.
  intros H Hup Hw. unfold flush, mbind, M_bind, gets.
  destruct (Z.ltb_spec up_to (durable_lsn s)); [lia |].
  destruct (calls_work_next _ _ Hw) as (fs1 & E1 & Hw1). specialize (Hw1 (segs (store s))).
  unfold on_store at 1. rewrite (call_size _ _ _ _ E1 (inv_active _ _ _ _ _ _ H)).
  cbn [set_store buffer]. unfold on_store at 1. cbn [store set_store].
  destruct (calls_work_next _ _ Hw1) as (fs2 & E2 & Hw2).
  rewrite (call_write _ _ _ _ E2 (inv_active _ _ _ _ _ _ H)), write_content_end. cbn [segs].
  match goal with |- context [mkStore ?m fs2] => specialize (Hw2 m) end.
  destruct (calls_work_next _ _ Hw2) as (fs3 & E3 & _).
  unfold on_store at 1. cbn [store set_store].
  rewrite (call_sync _ _ _ _ E3 (lookup_insert_eq _ _ _)).
  unfold modify. cbn [segs].
  pose proof (log_inv_flushed _ _ _ _ _ _ fs3 H) as Hf.
  match type of Hf with log_inv ?x _ _ _ _ _ => set (s1 := x) in * end.
  match goal with |- context [mark_flushed ?x] => change (mark_flushed x) with s1 end.
  assert (Hall : all_records gs (act ++ buf) [] = all_records gs act buf).
  { unfold all_records. by rewrite app_nil_r. }
  assert (Hq : quiet (store s) -> quiet (store s1)).
  { unfold quiet. intros Hq. rewrite Hq in E1. injection E1 as <-. injection E2 as <-.
    by injection E3 as <-. }
  pose proof (on_segment_size_inv (active_id s) (store s1) _ (inv_active _ _ _ _ _ _ Hf))
    as (Hss & Hsp & _ & Hsq).
  unfold on_store at 1. destruct (on_segment (active_id s) size (store s1)) as [o4 st4] eqn:E4.
  cbn [fst snd] in *.
  assert (Hi4 : log_inv (set_store st4 s1) bid base gs (act ++ buf) []).
  { apply log_inv_store; [done |]. intros j _. by rewrite Hss. }
  assert (Hex4 : exact s bid -> exact (set_store st4 s1) bid).
  { intros Hex j. cbn [set_store store active_id]. rewrite Hss. change (active_id s1) with (active_id s). rewrite <- (Hex j). unfold s1. cbn.
    destruct (decide (j = active_id s)) as [-> | Hj]; [| by rewrite lookup_insert_ne].
    rewrite lookup_insert_eq, (inv_active _ _ _ _ _ _ H). split; by eexists. }
  destruct o4 as [n | e |]; [| | done].
  - cbn [target_segment_size set_store].
    destruct (_ <=? _).
    + pose proof (ignore_roll s _ _ _ _ _ Hi4 eq_refl eq_refl) as Hr.
      destruct (ignore_error roll_segment (set_store st4 s1)) as [o s'].
      rewrite Hall in Hr. destruct Hr as (Hr & -> & Hq').
      split; [done |]. split; [done |]. intros HQ. split; [done |].
      destruct (Hq' (proj2 (Hsq (Hq HQ)))) as [? Hex]. auto.
    + unfold mret, M_ret. split; [| split; [done |]].
      * split; [by exists gs, (act ++ buf) | done].
      * intros HQ. split; [done |]. split; [by apply Hsq, Hq | done].
  - split; [split; [by exists gs, (act ++ buf) | done] |]. split; [done |].
    intros HQ. destruct (Hsq (Hq HQ)) as [? _]. done.
Qed.

(** ** Iterating *)

(** What is left to iterate over: the rest of the current buffer, the pending segments, and
    the snapshot of the active segment. *)
Definition remaining (rs : list LoggedRecord) (pend : list Segment) (tl : option (list LoggedRecord))
  : list LoggedRecord := rs ++ concat (seg_recs <$> pend) ++ default [] tl.

Record iter_view (st : Store) (it : LogIterator) (rs : list LoggedRecord) (pend : list Segment)
  (tl : option (list LoggedRecord)) : Prop := {
  view_current : exists pre, current it = pre ++ enc_all rs /\ iter_pos it = len pre;
  view_pending : pending_segments it = seg_id <$> pend;
  view_segs : Forall (fun g => segs st !! seg_id g = Some (seg_bytes (seg_start g) (seg_recs g))) pend;
  view_tail : tail it = enc_all <$> tl;
  view_ok : Forall record_ok (remaining rs pend tl);
}.

(** A bound on the turns of the loop in [next]. *)
Definition turns (rs : list LoggedRecord) (pend : list Segment) (tl : option (list LoggedRecord)) : nat :=
  S (length (remaining rs pend tl) + length pend + match tl with Some _ => 1 | None => 0 end).

Lemma load_segment_quiet st g :
  quiet st -> segs st !! seg_id g = Some (seg_bytes (seg_start g) (seg_recs g)) ->
  load_segment (seg_id g) st = (Ok (seg_bytes (seg_start g) (seg_recs g)), st).
Proof.
  intros Hq Hg. unfold load_segment, mbind, M_bind.
  rewrite (open_existing _ _ _ Hq Hg), (seg_size _ _ _ Hq Hg).
  by rewrite (seg_read _ _ _ Hq Hg _ _ _ (sub_all _)).
Qed.

(** What one call of [next] must return when [rem] is left: the first record at or past
    [fr], with strictly less work left, or the end. *)
Definition next_post (st : Store) (fr : Lsn) (n : nat) (rem : list LoggedRecord)
  (res : option (option LoggedRecord * LogIterator * Store)) : Prop :=
  match filter (fun r => fr <= lsn r) rem with
  | [] => exists it', res = Some (None, it', st)
  | r :: rest => exists it' rs' pend' tl', res = Some (Some r, it', st)
      /\ iter_view st it' rs' pend' tl' /\ from it' = fr
      /\ filter (fun r => fr <= lsn r) (remaining rs' pend' tl') = rest
      /\ (turns rs' pend' tl' < n)%nat
  end.

Lemma next_post_mono st fr n n' rem res :
  next_post st fr n rem res -> (n <= n')%nat -> next_post st fr n' rem res.
Proof.
  unfold next_post. intros H Hn. destruct (filter _ rem); [done |].
  destruct H as (it' & rs' & pend' & tl' & E & Hv & Hfr & Hf & Ht).
  exists it', rs', pend', tl'. split; [done |]. split; [done |]. split; [done |]. split; [done | lia].
Qed.

Lemma remaining_load g pend tl : remaining [] (g :: pend) tl = remaining (seg_recs g) pend tl.
Proof. unfold remaining. rewrite fmap_cons. cbn [concat app]. by rewrite <- app_assoc. Qed.
Lemma remaining_tail tl : remaining [] [] (Some tl) = remaining tl [] None.
Proof. unfold remaining. cbn. by rewrite app_nil_r. Qed.

Lemma next_spec fuel st it rs pend tl :
  quiet st -> iter_view st it rs pend tl -> (turns rs pend tl <= fuel)%nat ->
  next_post st (from it) (turns rs pend tl) (remaining rs pend tl) (next fuel it st).
Proof.
  intros Hq. revert it rs pend tl. induction fuel as [| fuel IH]; intros it rs pend tl Hv Hfuel.
  { unfold turns in Hfuel. lia. }
  destruct Hv as [(pre & Hcur & Hpos) Hpend Hsegs Htail Hok]. destruct rs as [| r rs].
  - assert (Hd : decode_record (current it) (iter_pos it) = None).
    { rewrite Hcur, Hpos. apply decode_record_end; [apply len_nonneg |].
      change (enc_all []) with (@nil byte). rewrite app_nil_r. lia. }
    cbn [next]. rewrite Hd, Hpend. destruct pend as [| g pend].
    + cbn [fmap list_fmap]. rewrite Htail. destruct tl as [tl |]; cbn [fmap option_fmap option_map].
      * assert (Ht : (turns tl [] None < turns [] [] (Some tl))%nat).
        { unfold turns. rewrite remaining_tail. lia. }
        rewrite remaining_tail in *. eapply next_post_mono.
        -- apply (IH (mkIter [] None (enc_all tl) 0 (from it)) tl [] None); [| lia].
           constructor; try done. by exists [].
        -- lia.
      * by eexists.
    + cbn [fmap list_fmap]. apply Forall_cons in Hsegs as [Hg Hsegs].
      rewrite (load_segment_quiet _ _ Hq Hg).
      assert (Ht : (turns (seg_recs g) pend tl < turns [] (g :: pend) tl)%nat).
      { unfold turns. rewrite remaining_load. simpl. lia. }
      rewrite remaining_load in *. eapply next_post_mono.
      * apply (IH (mkIter (seg_id <$> pend) (tail it) (seg_bytes (seg_start g) (seg_recs g))
                     SEGMENT_HEADER_LEN (from it)) (seg_recs g) pend tl); [| lia].
        constructor; try done. exists (segment_header (seg_start g)). by rewrite len_segment_header.
      * lia.
  - pose proof Hok as [Hr Hok']%Forall_cons. cbn [next].
    rewrite Hcur, Hpos, enc_all_cons, decode_encode_record by done.
    set (it1 := mkIter (pending_segments it) (tail it) (pre ++ encode_record r ++ enc_all rs)
                  (len pre + len (encode_record r)) (from it)).
    assert (Hv1 : iter_view st it1 rs pend tl).
    { constructor; try done. exists (pre ++ encode_record r). by rewrite <- app_assoc, len_app. }
    assert (Ht : (turns rs pend tl < turns (r :: rs) pend tl)%nat).
    { unfold turns. change (remaining (r :: rs) pend tl) with (r :: remaining rs pend tl).
      cbn [length]. lia. }
    change (remaining (r :: rs) pend tl) with (r :: remaining rs pend tl).
    change (from it1) with (from it). destruct (Z.leb_spec (from it) (lsn r)).
    + unfold next_post. rewrite filter_cons_True by done. by exists it1, rs, pend, tl.
    + unfold next_post. rewrite filter_cons_False by (cbn beta; lia).
      apply (next_post_mono st (from it) (turns rs pend tl)); [| lia].
      apply (IH it1 rs pend tl Hv1). lia.
Qed.

Lemma drain_spec fuel st it rs pend tl :
  quiet st -> iter_view st it rs pend tl -> (turns rs pend tl < fuel)%nat ->
  drain fuel it st = Some (filter (fun r => from it <= lsn r) (remaining rs pend tl)).
Proof.
  intros Hq. revert it rs pend tl. induction fuel as [| fuel IH]; intros it rs pend tl Hv Hf; [lia |].
  cbn [drain]. pose proof (next_spec (S fuel) st it rs pend tl Hq Hv ltac:(lia)) as Hn.
  unfold next_post in Hn.
  destruct (filter _ _) as [| r rest].
  - by destruct Hn as [it' ->].
  - destruct Hn as (it' & rs' & pend' & tl' & -> & Hv' & Hfr & Hrest & Ht).
    rewrite (IH it' rs' pend' tl' Hv') by lia. by rewrite Hfr, Hrest.
Qed.

(** Iteration skips only segments that lie wholly below the starting point. *)
Lemma start_index_spec gs l :
  let i := start_index ((fun g => mkMeta (seg_id g) (seg_start g)) <$> gs) l in
  i = 0%nat \/ exists pre g post, gs = pre ++ g :: post /\ i = length pre /\ seg_start g <= l.
Proof.
  unfold start_index. destruct (list_find _ _) as [[j m] |] eqn:E; [| by left].
  apply list_find_Some in E as (Hj & Hm & _). right. cbn beta in Hm.
  rewrite <- fmap_reverse in Hj. apply list_lookup_fmap_Some in Hj as (g & -> & Hj).
  pose proof (lookup_lt_Some _ _ _ Hj) as Hlt. rewrite length_reverse in Hlt.
  rewrite reverse_lookup in Hj by done. rewrite length_fmap.
  exists (firstn (length gs - S j) gs), g, (skipn (S (length gs - S j)) gs).
  rewrite take_drop_middle by done. rewrite length_take. split; [done |]. split; [lia | done].
Qed.

Lemma filter_all_below gs1 g post act buf bid base aid astart l :
  chain bid base (gs1 ++ g :: post) aid astart ->
  lsns_from base (all_records (gs1 ++ g :: post) act buf) -> seg_start g <= l ->
  filter (fun r => l <= lsn r) (all_records (gs1 ++ g :: post) act buf)
  = filter (fun r => l <= lsn r) (all_records (g :: post) act buf).
Proof.
  intros Hc Hl Hg. assert (E : all_records (gs1 ++ g :: post) act buf
                         = concat (seg_recs <$> gs1) ++ all_records (g :: post) act buf).
  { unfold all_records. by rewrite fmap_app, concat_app, <- app_assoc. }
  rewrite E, filter_app, filter_none; [done |].
  rewrite E in Hl. apply lsns_from_app in Hl as [Hl _].
  apply chain_app in Hc as (i & p & H1 & H2). cbn [chain] in H2. destruct H2 as (_ & Eg & _).
  apply chain_end in H1 as [_ H1]. apply Forall_forall. intros r Hr.
  pose proof (lsns_from_lt _ _ _ Hl Hr). pose proof (len_encode_record_min r).
  unfold MIN_RECORD_LEN in *. lia.
Qed.

Lemma log_inv_skip gs l act buf bid base aid astart :
  chain bid base gs aid astart -> lsns_from base (all_records gs act buf) ->
  filter (fun r => l <= lsn r)
    (all_records (skipn (start_index ((fun g => mkMeta (seg_id g) (seg_start g)) <$> gs) l) gs) act buf)
  = filter (fun r => l <= lsn r) (all_records gs act buf).
Proof.
  intros Hc Hl. destruct (start_index_spec gs l) as [-> | (pre & g & post & -> & -> & Hg)]; [done |].
  rewrite drop_app_length. symmetry. by eapply filter_all_below.
Qed.

Lemma iter_from_inv s bid base gs act buf l :
  log_inv s bid base gs act buf -> quiet (store s) ->
  exists it, iter_from l s = (Ok it, s)
    /\ exists n, forall fuel, (n < fuel)%nat ->
         drain fuel it (store s) = Some (filter (fun r => l <= lsn r) (all_records gs act buf)).
Proof.
  intros H Hq. assert (Hstore : set_store (store s) s = s) by (by destruct s).
  unfold iter_from, mbind, M_bind, gets, on_store.
  rewrite (seg_size _ _ _ Hq (inv_active _ _ _ _ _ _ H)), Hstore.
  assert (Hsub : sub (seg_bytes (active_start_lsn s) act) SEGMENT_HEADER_LEN
    (len (seg_bytes (active_start_lsn s) act) - SEGMENT_HEADER_LEN) = Some (enc_all act)).
  { rewrite len_seg_bytes. unfold seg_bytes.
    replace (SEGMENT_HEADER_LEN + len (enc_all act) - SEGMENT_HEADER_LEN) with (len (enc_all act)) by lia.
    rewrite <- (len_segment_header (active_start_lsn s)), <- (app_nil_r (enc_all act)) at 1.
    apply (sub_app_mid _ (enc_all act) []). }
  rewrite (seg_read _ _ _ Hq (inv_active _ _ _ _ _ _ H) _ _ _ Hsub), Hstore.
  eexists. split; [done |]. set (l' := Z.max l HEADER_LEN).
  rewrite (inv_sealed _ _ _ _ _ _ H).
  set (i := start_index ((fun g => mkMeta (seg_id g) (seg_start g)) <$> gs) l').
  exists (turns [] (skipn i gs) (Some (act ++ buf))). intros fuel Hfuel.
  rewrite (drain_spec fuel (store s) _ [] (skipn i gs) (Some (act ++ buf)) Hq); [| | done].
  - cbn [from]. f_equal. change (remaining [] (skipn i gs) (Some (act ++ buf)))
      with (all_records (skipn i gs) act buf).
    unfold i. rewrite (log_inv_skip _ _ _ _ _ _ _ _ (inv_chain _ _ _ _ _ _ H) (inv_lsns _ _ _ _ _ _ H)).
    apply filter_ext_Forall. apply Forall_forall. intros r Hr.
    pose proof (lsns_from_ge _ _ _ (inv_lsns _ _ _ _ _ _ H) Hr).
    pose proof (inv_base _ _ _ _ _ _ H). unfold l'. lia.
  - constructor; cbn [current iter_pos pending_segments tail].
    + by exists [].
    + by rewrite <- fmap_drop, <- list_fmap_compose.
    + apply Forall_drop, H.
    + cbn. by rewrite (inv_buffer _ _ _ _ _ _ H), enc_all_app.
    + change (remaining [] (skipn i gs) (Some (act ++ buf))) with (all_records (skipn i gs) act buf).
      pose proof (inv_ok _ _ _ _ _ _ H) as Hok. unfold all_records in *.
      rewrite Forall_app in *. split; [| apply Hok]. destruct Hok as [Hok _].
      rewrite <- (take_drop i gs), fmap_app, concat_app, Forall_app in Hok. apply Hok.
Qed.

(** ** Truncation *)
Lemma links_drop base dropped rs t o :
  0 < base -> lsns_from base dropped ->
  links base (dropped ++ rs) t o -> links (base + len (enc_all dropped)) rs t o.
Proof.
  intros Hb Hl. unfold links, last_of. rewrite filter_app, last_app.
  destruct (last (filter (fun r => txn_id r = t) rs)); [done |]. cbn [fmap option_fmap option_map].
  pose proof (len_nonneg (enc_all dropped)).
  destruct (last (filter (fun r => txn_id r = t) dropped)) as [r |] eqn:E; cbn [fmap option_fmap option_map].
  - intros -> l [= <-]. apply last_Some_elem_of in E. apply list_elem_of_filter in E as [_ Hr].
    pose proof (lsns_from_ge _ _ _ Hl Hr). pose proof (lsns_from_lt _ _ _ Hl Hr).
    pose proof (len_encode_record_min r). unfold MIN_RECORD_LEN in *. lia.
  - intros Ho l Hl'. apply Ho in Hl'. lia.
Qed.

Lemma log_inv_drop s bid base pre gs act buf c st :
  log_inv s bid base (pre ++ gs) act buf ->
  (forall j, bid + len pre <= j <= active_id s -> segs st !! j = segs (store s) !! j) ->
  log_inv (mkLog st (target_segment_size s) (skipn (length pre) (sealed s)) (active_id s)
             (active_start_lsn s) (buffer s) (next_lsn s) (last_lsn_by_txn s) (bytes_appended s) c
             (durable_lsn s))
    (bid + len pre) (base + len (enc_all (concat (seg_recs <$> pre)))) gs act buf.
Proof.
  intros H Hst. destruct (inv_base _ _ _ _ _ _ H) as [Hb1 Hb2].
  unfold HEADER_LEN, SEGMENT_HEADER_LEN in Hb2. pose proof (len_nonneg pre).
  pose proof (len_nonneg (enc_all (concat (seg_recs <$> pre)))).
  assert (E : all_records (pre ++ gs) act buf = concat (seg_recs <$> pre) ++ all_records gs act buf).
  { unfold all_records. by rewrite fmap_app, concat_app, <- app_assoc. }
  destruct (proj1 (chain_app _ _ _ _ _ _) (inv_chain _ _ _ _ _ _ H)) as (i & p & Hc1 & Hc2).
  apply chain_end in Hc1 as [-> ->].
  assert (Hl : lsns_from base (concat (seg_recs <$> pre))
               /\ lsns_from (base + len (enc_all (concat (seg_recs <$> pre)))) (all_records gs act buf)).
  { apply lsns_from_app. rewrite <- E. apply H. }
  constructor; cbn [store sealed active_id active_start_lsn buffer next_lsn last_lsn_by_txn durable_lsn];
    try apply H; try apply Hl; try done.
  - rewrite (inv_sealed _ _ _ _ _ _ H), fmap_app. apply drop_app_length'. by rewrite length_fmap.
  - pose proof (inv_segs _ _ _ _ _ _ H) as Hs. apply Forall_app in Hs as [_ Hs].
    rewrite Forall_forall in *. intros g Hg. pose proof (chain_ids _ _ _ _ _ _ Hc2 Hg).
    rewrite Hst by lia. by apply Hs.
  - pose proof (chain_end _ _ _ _ _ Hc2) as [-> _]. pose proof (len_nonneg gs).
    pose proof (chain_end _ _ _ _ _ (inv_chain _ _ _ _ _ _ H)) as [Ea _].
    rewrite len_app in Ea. rewrite Hst by lia. rewrite <- Z.add_assoc, <- Ea. apply H.
  - unfold HEADER_LEN, SEGMENT_HEADER_LEN. lia.
  - pose proof (inv_ok _ _ _ _ _ _ H) as Hok. rewrite E in Hok. apply Forall_app in Hok as [_ Hok]. done.
  - intros t. apply links_drop; [lia | apply Hl |]. rewrite <- E. apply H.
  - intros a r b Er. apply links_drop; [lia | apply Hl |].
    apply (inv_prevs _ _ _ _ _ _ H _ _ b). rewrite E, Er. by rewrite <- app_assoc.
Qed.

(** The segments [truncate_below] drops end at or below the bound. *)
Lemma keep_from_spec gs id start aid astart bound :
  chain id start gs aid astart ->
  let n := keep_from ((fun g => mkMeta (seg_id g) (seg_start g)) <$> gs) astart bound in
  exists pre post, gs = pre ++ post /\ length pre = n
    /\ (n = 0%nat \/ start + len (enc_all (concat (seg_recs <$> pre))) <= bound).
Proof.
  revert id start. induction gs as [| g gs IH]; intros id start Hc; [by exists [], []; auto |].
  cbn [chain] in Hc. destruct Hc as (_ & Eg & Hc). rewrite fmap_cons. cbn [keep_from].
  assert (Hend : match ((fun g => mkMeta (seg_id g) (seg_start g)) <$> gs) with
                 | [] => astart | s :: _ => meta_start_lsn s end
                 = start + len (enc_all (seg_recs g))).
  { destruct gs as [| h gs]; cbn [fmap list_fmap meta_start_lsn]; cbn [chain] in Hc; naive_solver. }
  rewrite Hend. destruct (Z.leb_spec (start + len (enc_all (seg_recs g))) bound).
  - destruct (IH _ _ Hc) as (pre & post & -> & Hn & Hb). exists (g :: pre), post.
    split; [done |]. split; [by simpl; f_equal |]. right. rewrite fmap_cons. cbn [concat].
    rewrite enc_all_app, len_app. destruct Hb as [Hz | Hb]; [| lia].
    rewrite Hz in Hn. apply nil_length_inv in Hn as ->. cbn.
    change (enc_all []) with (@nil byte). rewrite len_nil. lia.
  - exists [], (g :: gs). auto.
Qed.

Lemma remove_all_spec ids s :
  let '(o, s') := remove_all ids s in
  s' = set_store (store s') s /\ o <> Panic
  /\ (forall j, j ∉ ids -> segs (store s') !! j = segs (store s) !! j)
  /\ (quiet (store s) -> o = Ok tt /\ quiet (store s')
        /\ forall j, j ∈ ids -> segs (store s') !! j = None).
Proof.
  revert s. induction ids as [| id ids IH]; intros s.
  - cbn. split; [by destruct s |]. split; [done |]. split; [done |]. intros Hq.
    split; [done |]. split; [done |]. intros j Hj. by apply not_elem_of_nil in Hj.
  - cbn [remove_all]. unfold mbind, M_bind, on_store at 1, remove.
    destruct (next_fault (store_faults (store s))) as [[| e k] fs] eqn:Ef.
    + specialize (IH (set_store (mkStore (delete id (segs (store s))) fs) s)).
      destruct (remove_all ids _) as [o s']. destruct IH as (Hs & Hp & Hf & Hq).
      cbn [set_store store segs] in *. split; [by rewrite Hs |]. split; [done |]. split.
      * intros j [? ?]%not_elem_of_cons. rewrite Hf by done. by rewrite lookup_delete_ne.
      * intros HQ. rewrite HQ in Ef. injection Ef as <-. destruct (Hq eq_refl) as (-> & Hq' & Hn).
        split; [done |]. split; [done |]. intros j Hj.
        destruct (decide (j ∈ ids)); [by apply Hn |]. rewrite Hf by done.
        apply elem_of_cons in Hj as [-> | ?]; [by rewrite lookup_delete_eq | done].
    + split; [done |]. split; [done |]. split.
      * intros j [? ?]%not_elem_of_cons. cbn. destruct (0 <? k); [by rewrite lookup_delete_ne | done].
      * unfold quiet. intros HQ. rewrite HQ in Ef. discriminate Ef.
Qed.

Lemma chain_seg_ids id start gs aid astart j :
  chain id start gs aid astart -> (j ∈ seg_id <$> gs) <-> id <= j < aid.
Proof.
  revert id start. induction gs as [| g gs IH]; intros id start; cbn [chain].
  - intros [-> _]. split; [by intros ?%elem_of_nil | lia].
  - intros (Hg & _ & Hc). rewrite fmap_cons, elem_of_cons, (IH _ _ Hc).
    apply chain_end in Hc as [-> _]. pose proof (len_nonneg gs). lia.
Qed.

Lemma truncate_inv s bid base gs act buf bound :
  log_inv s bid base gs act buf ->
  let '(o, s') := truncate_below bound s in
  exists pre post, gs = pre ++ post
    /\ log_inv s' (bid + len pre) (base + len (enc_all (concat (seg_recs <$> pre)))) post act buf
    /\ (pre = [] \/ base + len (enc_all (concat (seg_recs <$> pre))) <= bound)
    /\ o <> Panic
    /\ (quiet (store s) -> exact s bid -> o = Ok tt /\ quiet (store s') /\ exact s' (bid + len pre)).
Proof.
  intros H. pose proof (inv_chain _ _ _ _ _ _ H) as Hc.
  destruct (keep_from_spec _ _ _ _ _ bound Hc) as (pre & post & -> & Hn & Hb).
  unfold truncate_below, mbind, M_bind, gets, modify. rewrite (inv_sealed _ _ _ _ _ _ H), <- Hn.
  assert (Hpre : firstn (length pre) ((fun g => mkMeta (seg_id g) (seg_start g)) <$> pre ++ post)
                 = (fun g => mkMeta (seg_id g) (seg_start g)) <$> pre).
  { rewrite fmap_app. apply take_app_length'. by rewrite length_fmap. }
  destruct (length pre) as [| n] eqn:El.
  - apply nil_length_inv in El as ->. exists [], post. cbn [app fmap list_fmap concat].
    change (enc_all []) with (@nil byte). change (len (@nil byte)) with 0.
    change (len (@nil Segment)) with 0. rewrite !Z.add_0_r. auto 10.
  - rewrite (inv_sealed _ _ _ _ _ _ H), Hpre, <- list_fmap_compose.
    pose proof (remove_all_spec (meta_id ∘ (fun g => mkMeta (seg_id g) (seg_start g)) <$> pre)
                  (drop_sealed (S n) s)) as Hr.
    destruct (remove_all _ _) as [o s']. destruct Hr as (Hs & Hp & Hf & Hq).
    destruct (proj1 (chain_app _ _ _ _ _ _) Hc) as (i & p & Hc1 & Hc2).
    pose proof (chain_end _ _ _ _ _ Hc1) as [Ei _].
    assert (Hids : forall j, j ∈ (meta_id ∘ (fun g => mkMeta (seg_id g) (seg_start g)) <$> pre)
                             <-> bid <= j < bid + len pre).
    { intros j. rewrite <- Ei. apply (chain_seg_ids _ _ _ _ _ j Hc1). }
    exists pre, post. split; [done |]. split; [| split; [| split; [done |]]].
    + rewrite Hs. unfold drop_sealed, set_store. cbn. rewrite <- El.
      apply log_inv_drop; [done |]. intros j Hj. cbn in Hf. apply Hf. rewrite Hids. lia.
    + destruct Hb as [Hz | Hb]; [lia | by right].
    + intros HQ Hex. destruct (Hq HQ) as (-> & HQ' & Hgone). split; [done |]. split; [done |].
      intros j. rewrite Hs. cbn [set_store active_id drop_sealed]. cbn in Hf.
      destruct (decide (bid <= j < bid + len pre)) as [Hin | Hout].
      * cbn [store]. rewrite Hgone by (by apply Hids). split; [by intros [? ?] | lia].
      * cbn [store]. rewrite Hf by (by rewrite Hids). rewrite (Hex j). pose proof (len_nonneg pre). lia.
Qed.

Lemma filter_truncated bid base pre post aid astart act buf bound :
  chain bid base (pre ++ post) aid astart -> lsns_from base (all_records (pre ++ post) act buf) ->
  (pre = [] \/ base + len (enc_all (concat (seg_recs <$> pre))) <= bound) ->
  filter (fun r => bound <= lsn r) (all_records (pre ++ post) act buf)
  = filter (fun r => bound <= lsn r) (all_records post act buf).
Proof.
  intros Hc Hl [-> | Hb]; [done |].
  assert (E : all_records (pre ++ post) act buf = concat (seg_recs <$> pre) ++ all_records post act buf).
  { unfold all_records. by rewrite fmap_app, concat_app, <- app_assoc. }
  rewrite E in *. apply lsns_from_app in Hl as [Hl _]. rewrite filter_app, filter_none; [done |].
  apply Forall_forall. intros r Hr. pose proof (lsns_from_lt _ _ _ Hl Hr).
  pose proof (len_encode_record_min r). unfold MIN_RECORD_LEN in *. lia.
Qed.
