(* ===== verification/LogReopen.v ===== *)
(** * Opening a log after a crash

    What a crash can leave of a log, and that [LogManager::open] turns it back into a
    well-formed log holding every durable record; then the log manager as a transition
    system, and the properties of all its reachable states. *)
From stdpp Require Import sorting.
From S2P Require Import Prelude Common Value Errors WalRecord Device SegmentStore Log LogInv.

(** ** Listing the segments *)
Lemma existing_segments_exact m ids :
  StronglySorted Z.lt ids -> Forall (fun j => 0 <= j < 10 ^ 6) ids ->
  (forall j, is_Some (m !! j) <-> j ∈ ids) ->
  existing_segments (mkStore m []) = (Ok ids, mkStore m []).
Proof.
  intros Hsort Hall Hm. unfold existing_segments. cbn [store_faults next_fault segs]. do 2 f_equal.
  assert (Hdom : forall j, j ∈ elements (dom m) <-> j ∈ ids).
  { intros j. rewrite elem_of_elements, elem_of_dom. apply Hm. }
  assert (Hp : omap (fun id => parse_suffix (segment_suffix id)) (elements (dom m)) = elements (dom m)).
  { assert (Hall' : Forall (fun j => 0 <= j < 10 ^ 6) (elements (dom m))).
    { rewrite Forall_forall in *. intros j Hj. by apply Hall, Hdom. }
    clear -Hall'. induction Hall' as [| j l Hj _ IH]; [done |].
    cbn [omap list_omap]. rewrite parse_segment_suffix by done. f_equal. exact IH. }
  rewrite Hp. apply (Sorted_unique Z.le).
  - apply Sorted_merge_sort. intros x y. lia.
  - apply StronglySorted_Sorted. clear -Hsort. induction Hsort as [| j l _ IH Hj]; constructor; [done |].
    eapply Forall_impl; [exact Hj |]. intros; cbn in *; lia.
  - rewrite merge_sort_Permutation. apply NoDup_Permutation; [apply NoDup_elements | | done].
    clear -Hsort. induction Hsort as [| j l _ IH Hj]; constructor; [| done].
    intros Hin. rewrite Forall_forall in Hj. apply Hj in Hin. lia.
Qed.

Lemma chain_sorted id start gs aid astart :
  chain id start gs aid astart -> StronglySorted Z.lt ((seg_id <$> gs) ++ [aid]).
Proof.
  revert id start. induction gs as [| g gs IH]; intros id start; cbn [chain].
  - intros _. repeat constructor.
  - intros (Hg & _ & Hc). rewrite fmap_cons. cbn [app]. constructor; [by eapply IH |].
    apply Forall_forall. intros j. rewrite elem_of_app, (chain_seg_ids _ _ _ _ _ j Hc), list_elem_of_singleton.
    apply chain_end in Hc as [-> _]. pose proof (len_nonneg gs). lia.
Qed.

(** ** Rebuilding the transaction table *)
Lemma last_lsns_union rs m0 m : last_lsns rs m0 ∪ m = last_lsns rs (m0 ∪ m).
Proof.
  revert m0. induction rs as [| r rs IH]; intros m0; [done |]. cbn [last_lsns fold_left].
  change (last_lsns rs (<[txn_id r:=lsn r]> m0) ∪ m = last_lsns rs (<[txn_id r:=lsn r]> (m0 ∪ m))).
  rewrite IH. by rewrite insert_union_l.
Qed.

Lemma last_lsns_app a b m : last_lsns (a ++ b) m = last_lsns b (last_lsns a m).
Proof. apply fold_left_app. Qed.

Lemma last_lsns_lookup rs t : last_lsns rs ∅ !! t = last_of t rs.
Proof.
  induction rs as [| r rs IH] using rev_ind; [done |].
  rewrite last_lsns_app, last_of_snoc. cbn [last_lsns fold_left].
  case_decide; [subst; apply lookup_insert_eq | by rewrite lookup_insert_ne].
Qed.

(** ** Scanning segments *)
Lemma read_header_ok st id start rest :
  quiet st -> segs st !! id = Some (segment_header start ++ rest) -> in_u 64 start ->
  read_segment_header id st = (Ok start, st).
Proof.
  intros Hq Hg Hs. unfold read_segment_header, mbind, M_bind.
  rewrite (seg_read _ _ _ Hq Hg _ _ (segment_header start)).
  - change (firstn 8 (segment_header start)) with SEGMENT_MAGIC.
    rewrite decide_False by (intros Hne; by apply Hne).
    change (skipn 8 (segment_header start)) with (to_le 8 start).
    unfold mret, M_ret. by rewrite from_le_to_le_id.
  - rewrite <- (len_segment_header start). apply (sub_app_prefix (segment_header start)). done.
Qed.

Lemma scan_decoded_ok st id start rs torn :
  quiet st -> segs st !! id = Some (seg_bytes start rs ++ torn) -> Forall record_ok rs ->
  (torn = [] \/ exists r j, record_ok r /\ torn = firstn j (encode_record r)
                            /\ (j < length (encode_record r))%nat) ->
  scan_decoded_records id start st
  = (Ok (start + len (enc_all rs), SEGMENT_HEADER_LEN + len (enc_all rs), last_lsns rs ∅), st).
Proof.
  intros Hq Hg Hok Ht. unfold scan_decoded_records, mbind, M_bind.
  rewrite (seg_size _ _ _ Hq Hg), (seg_read _ _ _ Hq Hg _ _ _ (sub_all _)).
  pose proof (scan_torn (segment_header start) rs torn Hok Ht) as Hscan.
  rewrite len_segment_header, app_assoc in Hscan. fold (seg_bytes start rs) in Hscan.
  rewrite Hscan. unfold mret, M_ret. do 4 f_equal. lia.
Qed.

Lemma scan_sealed_ok st id start rs :
  quiet st -> segs st !! id = Some (seg_bytes start rs) -> Forall record_ok rs ->
  scan_sealed_segment id start st = (Ok (start + len (enc_all rs), last_lsns rs ∅), st).
Proof.
  intros Hq Hg Hok. unfold scan_sealed_segment, mbind, M_bind.
  rewrite (seg_size _ _ _ Hq Hg).
  rewrite (scan_decoded_ok st id start rs []); [| done | by rewrite app_nil_r | done | by left].
  rewrite len_seg_bytes, Z.eqb_refl. done.
Qed.

Lemma bootstrap_sealed_ok st gs id start aid astart sealed0 last0 nx :
  quiet st -> 0 <= start -> astart < 2 ^ 64 -> chain id start gs aid astart ->
  Forall (fun g => segs st !! seg_id g = Some (seg_bytes (seg_start g) (seg_recs g))) gs ->
  Forall record_ok (concat (seg_recs <$> gs)) ->
  bootstrap_sealed (seg_id <$> gs) sealed0 last0 nx st
  = (Ok (sealed0 ++ ((fun g => mkMeta (seg_id g) (seg_start g)) <$> gs),
         last_lsns (concat (seg_recs <$> gs)) last0,
         match gs with [] => nx | _ => Some astart end), st).
Proof.
  intros Hq. revert id start sealed0 last0 nx.
  induction gs as [| g gs IH]; intros id start sealed0 last0 nx Hs Ha Hc Hg Hok.
  - cbn. by rewrite app_nil_r.
  - cbn [chain] in Hc. destruct Hc as (Eid & Est & Hc). apply Forall_cons in Hg as [Hg Hgs].
    rewrite fmap_cons in *. cbn [concat] in Hok. apply Forall_app in Hok as [Hokg Hok].
    pose proof (chain_end _ _ _ _ _ Hc) as [_ Hend].
    pose proof (len_nonneg (enc_all (seg_recs g))).
    pose proof (len_nonneg (enc_all (concat (seg_recs <$> gs)))).
    cbn [bootstrap_sealed]. unfold mbind, M_bind. rewrite (open_existing _ _ _ Hq Hg).
    rewrite (read_header_ok _ _ _ _ Hq Hg) by (unfold in_u; lia).
    rewrite (scan_sealed_ok _ _ _ _ Hq Hg Hokg).
    rewrite (IH (id + 1) (start + len (enc_all (seg_recs g))) _ _ _ ltac:(lia) Ha Hc Hgs Hok).
    rewrite !fmap_cons. cbn [concat]. rewrite <- app_assoc. cbn [app].
    rewrite last_lsns_app, last_lsns_union, map_empty_union. do 3 f_equal.
    destruct gs; [| done]. cbn [chain] in Hc. destruct Hc as [_ <-]. by rewrite Est.
Qed.

(** ** Crashes *)

(** What is on disk after a crash: everything synced, and of the append in flight any
    prefix; or, between a flush and the first use of the next segment, any prefix of the
    new segment's header. *)
Inductive crash_image (s : LogManager) : gmap Z bytes -> Prop :=
| crash_mid_flush k :
    crash_image s (<[active_id s := default [] (segs (store s) !! active_id s) ++ firstn k (buffer s)]>
                     (segs (store s)))
| crash_mid_roll k :
    buffer s = [] ->
    crash_image s (<[active_id s + 1 := firstn k (segment_header (next_lsn s))]> (segs (store s))).

Definition metas (gs : list Segment) : list SegmentMeta :=
  (fun g => mkMeta (seg_id g) (seg_start g)) <$> gs.

(** A cut of a well-formed log at a record boundary is a well-formed log. *)
Lemma reopened_inv s bid base gs act buf st target gs' act' rest aid astart :
  log_inv s bid base gs act buf ->
  all_records gs act buf = all_records gs' act' [] ++ rest ->
  chain bid base gs' aid astart ->
  Forall (fun g => segs st !! seg_id g = Some (seg_bytes (seg_start g) (seg_recs g))) gs' ->
  segs st !! aid = Some (seg_bytes astart act') ->
  log_inv (mkLog st target (metas gs') aid astart [] (astart + len (enc_all act'))
             (last_lsns (concat (seg_recs <$> gs') ++ act') ∅) 0 None (astart + len (enc_all act')))
    bid base gs' act' [].
Proof.
  intros H E Hc Hs Ha. pose proof (chain_end _ _ _ _ _ Hc) as [_ Eas].
  pose proof (all_records_end _ _ _ _ _ _ H) as Hend. rewrite E, enc_all_app, len_app in Hend.
  pose proof (len_nonneg (enc_all rest)). pose proof (inv_fits _ _ _ _ _ _ H).
  assert (Hnil : len (enc_all []) = 0) by done.
  assert (Hall : len (enc_all (all_records gs' act' []))
                 = len (enc_all (concat (seg_recs <$> gs'))) + len (enc_all act')).
  { unfold all_records. rewrite !enc_all_app, !len_app, Hnil. lia. }
  constructor; cbn [store sealed active_id active_start_lsn buffer next_lsn last_lsn_by_txn durable_lsn];
    try done; try lia.
  - apply H.
  - pose proof (inv_ok _ _ _ _ _ _ H) as Hok. rewrite E in Hok. by apply Forall_app in Hok as [? _].
  - pose proof (inv_lsns _ _ _ _ _ _ H) as Hl. rewrite E in Hl. by apply lsns_from_app in Hl as [? _].
  - intros t. rewrite last_lsns_lookup. unfold links, all_records. rewrite app_nil_r.
    by destruct (last_of t _).
  - pose proof (inv_prevs _ _ _ _ _ _ H) as Hp. rewrite E in Hp. by apply prevs_ok_app_l in Hp.
Qed.

(** Opening a store whose last segment has a header, records and a torn tail. *)
Lemma open_torn st gs bid base aid astart rs torn target :
  quiet st -> 0 <= bid -> HEADER_LEN <= base -> aid < 10 ^ 6 -> astart < 2 ^ 64 ->
  chain bid base gs aid astart ->
  Forall (fun g => segs st !! seg_id g = Some (seg_bytes (seg_start g) (seg_recs g))) gs ->
  segs st !! aid = Some (seg_bytes astart rs ++ torn) ->
  (forall j, is_Some (segs st !! j) <-> bid <= j <= aid) ->
  Forall record_ok (concat (seg_recs <$> gs) ++ rs) ->
  (torn = [] \/ exists r j, record_ok r /\ torn = firstn j (encode_record r)
                            /\ (j < length (encode_record r))%nat) ->
  let st' := mkStore (<[aid := seg_bytes astart rs]> (segs st)) [] in
  open_with_store target st =
    (Ok (mkLog st' target (metas gs) aid astart [] (astart + len (enc_all rs))
           (last_lsns (concat (seg_recs <$> gs) ++ rs) ∅) 0 None (astart + len (enc_all rs))), st').
Proof.
  intros Hq Hbid Hbase Haid Hfit Hc Hs Ha Hex Hok Ht. unfold HEADER_LEN, SEGMENT_HEADER_LEN in Hbase.
  apply Forall_app in Hok as [Hok1 Hok2]. pose proof (chain_end _ _ _ _ _ Hc) as [Eaid Eas].
  pose proof (len_nonneg gs). pose proof (len_nonneg (enc_all (concat (seg_recs <$> gs)))).
  destruct st as [m fs]. unfold quiet in Hq. cbn in Hq. subst fs. cbn [segs] in *.
  unfold open_with_store, mbind at 1, M_bind at 1.
  rewrite (existing_segments_exact m ((seg_id <$> gs) ++ [aid])).
  2: by eapply chain_sorted.
  2: { apply Forall_forall. intros j. rewrite elem_of_app, (chain_seg_ids _ _ _ _ _ j Hc).
       rewrite list_elem_of_singleton. lia. }
  2: { intros j. rewrite Hex, elem_of_app, (chain_seg_ids _ _ _ _ _ j Hc), list_elem_of_singleton. lia. }
  rewrite reverse_snoc, reverse_involutive.
  unfold mbind at 1, M_bind at 1. rewrite (open_existing (mkStore m []) aid _ eq_refl Ha).
  unfold bootstrap, mbind, M_bind.
  rewrite (bootstrap_sealed_ok _ gs bid base aid astart) by (done || lia).
  rewrite (seg_size (mkStore m []) aid _ eq_refl Ha), len_app, len_seg_bytes.
  pose proof (len_nonneg (enc_all rs)). pose proof (len_nonneg torn).
  destruct (Z.ltb_spec (SEGMENT_HEADER_LEN + len (enc_all rs) + len torn) SEGMENT_HEADER_LEN); [lia |].
  assert (Ha' : segs (mkStore m []) !! aid = Some (segment_header astart ++ enc_all rs ++ torn)).
  { cbn [segs]. rewrite Ha. unfold seg_bytes. by rewrite <- app_assoc. }
  rewrite (read_header_ok (mkStore m []) _ _ _ eq_refl Ha') by (unfold in_u; lia).
  unfold scan_active_segment, mbind, M_bind.
  rewrite (scan_decoded_ok (mkStore m []) aid astart rs torn) by done.
  rewrite (seg_set_len (mkStore m []) aid _ eq_refl Ha).
  unfold mret, M_ret, gets, id. cbn [segs app].
  rewrite resize_content_firstn by (rewrite len_app, len_seg_bytes; unfold SEGMENT_HEADER_LEN; lia).
  rewrite <- len_seg_bytes with (start := astart), to_nat_len, take_app_length.
  by rewrite last_lsns_union, map_empty_union, last_lsns_app.
Qed.

Lemma write_segment_header_quiet st id start c :
  quiet st -> segs st !! id = Some c ->
  write_segment_header id start st = (Ok tt, mkStore (<[id := segment_header start]> (segs st)) []).
Proof.
  intros Hq Hc. unfold write_segment_header, mbind, M_bind. rewrite (seg_set_len _ _ _ Hq Hc).
  rewrite (seg_write (mkStore _ []) id _ eq_refl (lookup_insert_eq _ _ _)), resize_content_zero.
  change (write_content [] 0 (segment_header start)) with (segment_header start ++ []).
  cbn [segs]. rewrite insert_insert_eq, app_nil_r.
  by rewrite (seg_sync (mkStore _ []) id (segment_header start) eq_refl (lookup_insert_eq _ _ _)).
Qed.

(** Opening a store whose last segment never got its header. *)
Lemma open_headerless st gs bid base aid astart c target :
  quiet st -> 0 <= bid -> HEADER_LEN <= base -> aid < 10 ^ 6 -> astart < 2 ^ 64 -> gs <> [] ->
  chain bid base gs aid astart ->
  Forall (fun g => segs st !! seg_id g = Some (seg_bytes (seg_start g) (seg_recs g))) gs ->
  segs st !! aid = Some c -> len c < SEGMENT_HEADER_LEN ->
  (forall j, is_Some (segs st !! j) <-> bid <= j <= aid) ->
  Forall record_ok (concat (seg_recs <$> gs)) ->
  let st' := mkStore (<[aid := segment_header astart]> (segs st)) [] in
  open_with_store target st =
    (Ok (mkLog st' target (metas gs) aid astart [] astart
           (last_lsns (concat (seg_recs <$> gs)) ∅) 0 None astart), st').
Proof.
  intros Hq Hbid Hbase Haid Hfit Hne Hc Hs Ha Hlen Hex Hok. unfold HEADER_LEN, SEGMENT_HEADER_LEN in Hbase.
  destruct st as [m fs]. unfold quiet in Hq. cbn in Hq. subst fs. cbn [segs] in *.
  unfold open_with_store, mbind at 1, M_bind at 1.
  pose proof (chain_end _ _ _ _ _ Hc) as [Eaid _]. pose proof (len_nonneg gs).
  rewrite (existing_segments_exact m ((seg_id <$> gs) ++ [aid])).
  2: by eapply chain_sorted.
  2: { apply Forall_forall. intros j. rewrite elem_of_app, (chain_seg_ids _ _ _ _ _ j Hc).
       rewrite list_elem_of_singleton. lia. }
  2: { intros j. rewrite Hex, elem_of_app, (chain_seg_ids _ _ _ _ _ j Hc), list_elem_of_singleton. lia. }
  rewrite reverse_snoc, reverse_involutive.
  unfold mbind at 1, M_bind at 1. rewrite (open_existing (mkStore m []) aid _ eq_refl Ha).
  unfold bootstrap, mbind, M_bind.
  rewrite (bootstrap_sealed_ok _ gs bid base aid astart) by (done || lia).
  rewrite (seg_size (mkStore m []) aid _ eq_refl Ha).
  destruct (Z.ltb_spec (len c) SEGMENT_HEADER_LEN); [| lia].
  replace (default HEADER_LEN match gs with [] => None | _ :: _ => Some astart end) with astart
    by (by destruct gs).
  by rewrite (write_segment_header_quiet (mkStore m []) _ _ _ eq_refl Ha).
Qed.

(** ** Recovery of the log *)
Lemma exact_insert s bid j c :
  exact s bid -> bid <= active_id s ->
  j = active_id s \/ j = active_id s + 1 ->
  forall i, is_Some (<[j := c]> (segs (store s)) !! i) <-> bid <= i <= j.
Proof.
  intros Hex Hb Hj i. destruct (decide (i = j)) as [-> | Hne].
  - rewrite lookup_insert_eq. split; [lia | by eexists].
  - rewrite lookup_insert_ne by done. rewrite (Hex i). lia.
Qed.

Lemma segs_insert s bid base gs act buf j c :
  log_inv s bid base gs act buf -> active_id s <= j ->
  Forall (fun g => <[j := c]> (segs (store s)) !! seg_id g = Some (seg_bytes (seg_start g) (seg_recs g))) gs.
Proof.
  intros H Hj. pose proof (inv_segs _ _ _ _ _ _ H) as Hs. rewrite Forall_forall in *.
  intros g Hg. pose proof (chain_ids _ _ _ _ _ _ (inv_chain _ _ _ _ _ _ H) Hg).
  rewrite lookup_insert_ne by lia. by apply Hs.
Qed.

(** The outcome of recovery: a log whose records are all the flushed ones and the first few
    of those still buffered at the crash. *)
Definition recovers (s : LogManager) (bid base : Z) (gs : list Segment) (act buf : list LoggedRecord)
  (target : Z) (m : gmap Z bytes) : Prop :=
  exists s' gs' act' survived lost,
    open_with_store target (mkStore m []) = (Ok s', store s')
    /\ log_inv s' bid base gs' act' [] /\ exact s' bid /\ quiet (store s')
    /\ buf = survived ++ lost /\ all_records gs' act' [] = all_records gs act survived.

Lemma reopen_mid_flush s bid base gs act buf target k :
  log_inv s bid base gs act buf -> exact s bid -> active_id s < 10 ^ 6 ->
  recovers s bid base gs act buf target
    (<[active_id s := default [] (segs (store s) !! active_id s) ++ firstn k (buffer s)]> (segs (store s))).
Proof.
  intros H Hex Hid. rewrite (inv_buffer _ _ _ _ _ _ H).
  replace (default [] (segs (store s) !! active_id s)) with (seg_bytes (active_start_lsn s) act)
    by (by rewrite (inv_active _ _ _ _ _ _ H)).
  rewrite <- (firstn_all (enc_all buf)), take_take.
  destruct (firstn_enc_all buf (k `min` length (enc_all buf)) ltac:(lia))
    as (whole & torn & rest & Ebuf & Ef & Ht).
  rewrite Ef, app_assoc. pose proof (inv_ok _ _ _ _ _ _ H) as Hok. unfold all_records in Hok.
  rewrite Ebuf, !Forall_app in Hok. destruct Hok as (Hok1 & Hok2 & Hok3 & Hok4).
  assert (Hseg : seg_bytes (active_start_lsn s) act ++ enc_all whole
                 = seg_bytes (active_start_lsn s) (act ++ whole)).
  { unfold seg_bytes. by rewrite enc_all_app, app_assoc. }
  rewrite Hseg. pose proof (inv_chain _ _ _ _ _ _ H) as Hc.
  pose proof (chain_end _ _ _ _ _ Hc) as [Eid _]. pose proof (len_nonneg gs).
  destruct (inv_base _ _ _ _ _ _ H) as [Hb1 Hb2]. pose proof (inv_fits _ _ _ _ _ _ H).
  pose proof (inv_next _ _ _ _ _ _ H). pose proof (inv_durable _ _ _ _ _ _ H).
  pose proof (len_nonneg (enc_all act)). pose proof (len_nonneg (enc_all buf)).
  set (c := seg_bytes (active_start_lsn s) (act ++ whole) ++ torn).
  pose proof (open_torn (mkStore (<[active_id s := c]> (segs (store s))) []) gs bid base (active_id s)
    (active_start_lsn s) (act ++ whole) torn target) as Ho.
  cbv zeta in Ho. cbn [segs] in Ho. rewrite insert_insert_eq in Ho.
  exists (mkLog (mkStore (<[active_id s := seg_bytes (active_start_lsn s) (act ++ whole)]> (segs (store s))) [])
            target (metas gs) (active_id s) (active_start_lsn s) []
            (active_start_lsn s + len (enc_all (act ++ whole)))
            (last_lsns (concat (seg_recs <$> gs) ++ act ++ whole) ∅) 0 None
            (active_start_lsn s + len (enc_all (act ++ whole)))), gs, (act ++ whole), whole, rest.
  split; [| split; [| split; [| split; [done | split; [done |]]]]].
  - apply Ho; try done; try lia.
    + by eapply segs_insert.
    + apply lookup_insert_eq.
    + apply exact_insert; [done | lia | by left].
    + rewrite !Forall_app. done.
    + destruct Ht as [-> | (r & rest' & j & -> & -> & Hj)]; [by left |]. right. exists r, j.
      by apply Forall_cons in Hok4 as [? _].
  - eapply (reopened_inv s) with (rest := rest); [done | | done | by eapply segs_insert | apply lookup_insert_eq].
    rewrite Ebuf. unfold all_records. by rewrite app_nil_r, <- !app_assoc.
  - intros j. cbn [store active_id]. apply exact_insert; [done | lia | by left].
  - unfold all_records. by rewrite app_nil_r.
Qed.

Lemma reopen_mid_roll s bid base gs act target k :
  log_inv s bid base gs act [] -> exact s bid -> active_id s + 1 < 10 ^ 6 ->
  recovers s bid base gs act [] target
    (<[active_id s + 1 := firstn k (segment_header (next_lsn s))]> (segs (store s))).
Proof.
  intros H Hex Hid. pose proof (inv_chain _ _ _ _ _ _ H) as Hc.
  pose proof (chain_end _ _ _ _ _ Hc) as [Eid Eas]. pose proof (len_nonneg gs).
  destruct (inv_base _ _ _ _ _ _ H) as [Hb1 Hb2]. pose proof (inv_fits _ _ _ _ _ _ H).
  assert (Hnil : len (enc_all []) = 0) by done.
  assert (Hn : next_lsn s = active_start_lsn s + len (enc_all act)).
  { rewrite (inv_next _ _ _ _ _ _ H), (inv_durable _ _ _ _ _ _ H), Hnil. lia. }
  set (gs' := gs ++ [mkSeg (active_id s) (active_start_lsn s) act]).
  assert (Hrecs : concat (seg_recs <$> gs') = concat (seg_recs <$> gs) ++ act).
  { unfold gs'. rewrite fmap_app, concat_app. cbn. by rewrite app_nil_r. }
  assert (Hall : all_records gs' [] [] = all_records gs act []).
  { unfold all_records. by rewrite Hrecs, !app_nil_r. }
  assert (Hc' : chain bid base gs' (active_id s + 1) (next_lsn s)).
  { apply chain_app. exists (active_id s), (active_start_lsn s). split; [done |].
    cbn. split; [done |]. split; [done |]. by rewrite Hn. }
  assert (Hsegs : forall c, Forall (fun g => <[active_id s + 1 := c]> (segs (store s)) !! seg_id g
                                   = Some (seg_bytes (seg_start g) (seg_recs g))) gs').
  { intros c. apply Forall_app. split; [eapply segs_insert; [done | lia] |].
    apply Forall_singleton. cbn. rewrite lookup_insert_ne by lia. apply H. }
  assert (Hok : Forall record_ok (concat (seg_recs <$> gs'))).
  { rewrite Hrecs. pose proof (inv_ok _ _ _ _ _ _ H) as Hok. unfold all_records in Hok.
    by rewrite app_nil_r in Hok. }
  assert (Hexi : forall c i, is_Some (<[active_id s + 1 := c]> (segs (store s)) !! i)
                             <-> bid <= i <= active_id s + 1).
  { intros c. apply exact_insert; [done | lia | by right]. }
  assert (Hhdr : seg_bytes (next_lsn s) [] = segment_header (next_lsn s)).
  { unfold seg_bytes. change (enc_all []) with (@nil byte). by rewrite app_nil_r. }
  pose proof (reopened_inv s bid base gs act []
    (mkStore (<[active_id s + 1 := segment_header (next_lsn s)]> (segs (store s))) []) target gs' [] []
    (active_id s + 1) (next_lsn s) H ltac:(by rewrite Hall, app_nil_r) Hc' (Hsegs _)
    ltac:(cbn [segs]; rewrite Hhdr; apply lookup_insert_eq)) as Hinv.
  rewrite Hnil, Z.add_0_r, app_nil_r in Hinv.
  eexists _, gs', [], [], []. split; [| split; [exact Hinv | split; [intros j; apply Hexi | done]]].
  cbn [store]. destruct (decide (len (firstn k (segment_header (next_lsn s))) < SEGMENT_HEADER_LEN)) as [Hk | Hk].
  - rewrite (open_headerless (mkStore (<[active_id s + 1 := firstn k (segment_header (next_lsn s))]> (segs (store s))) [])
               gs' bid base (active_id s + 1) (next_lsn s) (firstn k (segment_header (next_lsn s))));
      cbn [segs]; try done; [by rewrite insert_insert_eq | by destruct gs | apply lookup_insert_eq].
  - assert (Hfull : firstn k (segment_header (next_lsn s)) = seg_bytes (next_lsn s) [] ++ []).
    { rewrite Hhdr, app_nil_r. apply firstn_all2.
      pose proof (len_segment_header (next_lsn s)). unfold len in *. rewrite length_take in Hk. lia. }
    rewrite Hfull.
    rewrite (open_torn (mkStore (<[active_id s + 1 := seg_bytes (next_lsn s) [] ++ []]> (segs (store s))) [])
               gs' bid base (active_id s + 1) (next_lsn s) [] []);
      cbn [segs]; try done; [| apply lookup_insert_eq | by rewrite app_nil_r | by left].
    by rewrite insert_insert_eq, Hhdr, Hnil, Z.add_0_r, app_nil_r.
Qed.

Lemma reopen_inv s bid base gs act buf target m :
  log_inv s bid base gs act buf -> exact s bid -> active_id s + 1 < 10 ^ 6 -> crash_image s m ->
  recovers s bid base gs act buf target m.
Proof.
  intros H Hex Hid Hm. destruct Hm as [k | k Hb].
  - apply reopen_mid_flush; [done | done | lia].
  - assert (buf = []) as ->.
    { pose proof (inv_buffer _ _ _ _ _ _ H) as Eb. rewrite Hb in Eb.
      pose proof (length_enc_all buf). rewrite <- Eb in *. by destruct buf. }
    by apply reopen_mid_roll.
Qed.

(** A log opened in an empty directory. *)
Definition fresh_log (target : Z) : LogManager :=
  let st := mkStore {[0 := segment_header HEADER_LEN]} [] in
  mkLog st target [] 0 HEADER_LEN [] HEADER_LEN ∅ 0 None HEADER_LEN.

Lemma open_fresh target : open_with_store target (mkStore ∅ []) = (Ok (fresh_log target), store (fresh_log target)).
Proof. vm_compute. reflexivity. Qed.

Lemma fresh_log_inv target : log_inv (fresh_log target) 0 HEADER_LEN [] [] [].
Proof.
  constructor; try done. intros pre r post E. by destruct pre.
Qed.

Lemma fresh_log_exact target : exact (fresh_log target) 0.
Proof.
  intros j. cbn. rewrite lookup_singleton_is_Some. lia.
Qed.

(** ** The log manager as a transition system *)

Lemma read_record_at_store st id c off :
  quiet st -> segs st !! id = Some c -> 0 <= off ->
  (read_record_at id off st).2 = st /\ (read_record_at id off st).1 <> Panic.
Proof.
  intros Hq Hc Hoff. unfold read_record_at, mbind, M_bind. rewrite (seg_size _ _ _ Hq Hc).
  destruct (Z.ltb_spec (len c) (off + 4)); [done |].
  destruct (sub c off 4) as [b |] eqn:E.
  2: { apply sub_None in E; lia. }
  rewrite (seg_read _ _ _ Hq Hc _ _ _ E).
  destruct (Z.ltb_spec (from_le b) MIN_RECORD_LEN) as [| Hmin]; [done |]. cbn [orb].
  destruct (Z.ltb_spec (len c) (off + from_le b)); [done |].
  unfold MIN_RECORD_LEN in Hmin. destruct (sub c off (from_le b)) as [b' |] eqn:E'.
  2: { apply sub_None in E'; lia. }
  by rewrite (seg_read _ _ _ Hq Hc _ _ _ E').
Qed.

(** Reading at any LSN, a record's or not, changes only the cache. *)
Lemma read_at_frame s bid base gs act buf l :
  log_inv s bid base gs act buf -> quiet (store s) -> exists c, (read_at l s).2 = set_cache c s.
Proof.
  intros H Hq. unfold read_at, mbind, M_bind, gets.
  destruct (l =? 0); [eexists; apply set_cache_id |].
  destruct (Z.leb_spec (durable_lsn s) l); [eexists; apply set_cache_id |].
  destruct (Z.leb_spec (active_start_lsn s) l).
  { unfold on_store.
    pose proof (read_record_at_store _ _ _ (SEGMENT_HEADER_LEN + (l - active_start_lsn s)) Hq
                  (inv_active _ _ _ _ _ _ H) ltac:(unfold SEGMENT_HEADER_LEN; lia)) as [E _].
    destruct (read_record_at _ _ _) as [o st]. cbn in *. subst st. rewrite set_store_id.
    eexists; apply set_cache_id. }
  destruct (find_sealed (sealed s) l) as [mt |] eqn:Ef; [| eexists; apply set_cache_id].
  unfold find_sealed in Ef. apply head_Some_elem_of, list_elem_of_filter in Ef as [Hml Hin].
  rewrite elem_of_reverse, (inv_sealed _ _ _ _ _ _ H) in Hin.
  apply list_elem_of_fmap in Hin as (g & -> & Hg). cbn [meta_start_lsn] in Hml.
  pose proof (inv_segs _ _ _ _ _ _ H) as Hs. rewrite Forall_forall in Hs. specialize (Hs g Hg).
  pose proof (read_record_at_store _ _ _ (SEGMENT_HEADER_LEN + (l - seg_start g)) Hq Hs
                ltac:(unfold SEGMENT_HEADER_LEN; lia)) as [E _].
  destruct (read_record_at (seg_id g) (SEGMENT_HEADER_LEN + (l - seg_start g)) (store s)) as [o st] eqn:Er.
  cbn in E. subst st.
  destruct (read_sealed_run s (mkMeta (seg_id g) (seg_start g)) l _ o Hq Hs Er) as [c Hc].
  exists c. by rewrite Hc.
Qed.

(** The operations the rest of the system performs on a log, crashes included. Appends stay
    within [u64] LSNs and 4 GiB records; segment ids stay below the million that
    [existing_segments] can list. *)
Inductive log_step : LogManager -> LogManager -> Prop :=
| step_append s t k :
    in_u 64 t -> kind_ok k -> len (encode_body (appended s t k)) + 12 < 2 ^ 32 ->
    next_lsn s + len (encode_record (appended s t k)) < 2 ^ 64 ->
    log_step s (append t k s).2
| step_flush s l : log_step s (flush l s).2
| step_truncate s b : log_step s (truncate_below b s).2
| step_read s l : log_step s (read_at l s).2
| step_crash s m target s' st' :
    active_id s + 1 < 10 ^ 6 -> crash_image s m ->
    open_with_store target (mkStore m []) = (Ok s', st') -> log_step s s'.

Definition reachable (s : LogManager) : Prop := exists target, rtc log_step (fresh_log target) s.

Definition well_formed (s : LogManager) : Prop :=
  exists bid base gs act buf, log_inv s bid base gs act buf /\ exact s bid /\ quiet (store s).

Lemma log_inv_cache s bid base gs act buf c :
  log_inv s bid base gs act buf -> log_inv (set_cache c s) bid base gs act buf.
Proof. intros H. constructor; apply H. Qed.

Lemma log_step_wf s s' : log_step s s' -> well_formed s -> well_formed s'.
Proof.
  intros Hstep (bid & base & gs & act & buf & H & Hex & Hq). destruct Hstep.
  - destruct (append_inv _ _ _ _ _ _ t k H) as (_ & H' & Hst); [done.. |].
    exists bid, base, gs, act, (buf ++ [appended s t k]). split; [done |]. unfold exact. by rewrite Hst.
  - destruct (decide (durable_lsn s <= l)).
    + pose proof (flush_inv _ _ _ _ _ _ l H ltac:(done) (quiet_calls_work 3 _ Hq)) as Hf.
      destruct (flush l s) as [o s']. destruct Hf as (((gs' & act' & H' & _) & _) & _ & Hq').
      destruct (Hq' Hq) as (_ & ? & He). exists bid, base, gs', act', []. auto.
    + unfold flush, mbind, M_bind, gets. destruct (Z.ltb_spec l (durable_lsn s)); [| lia].
      by exists bid, base, gs, act, buf.
  - pose proof (truncate_inv _ _ _ _ _ _ b H) as Ht. destruct (truncate_below b s) as [o s'].
    destruct Ht as (pre & post & _ & H' & _ & _ & Hq'). destruct (Hq' Hq Hex) as (_ & ? & ?).
    by eexists _, _, post, act, buf.
  - destruct (read_at_frame _ _ _ _ _ _ l H Hq) as [c ->].
    exists bid, base, gs, act, buf. split; [by apply log_inv_cache | done].
  - destruct (reopen_inv _ _ _ _ _ _ target _ H Hex ltac:(done) ltac:(done))
      as (s1 & gs' & act' & w & lost & Ho & H' & Hex' & Hq' & _).
    match goal with E : open_with_store _ _ = (Ok s', _) |- _ => rewrite Ho in E; simplify_eq end.
    by exists bid, base, gs', act', [].
Qed.

Lemma reachable_wf s : reachable s -> well_formed s.
Proof.
  intros [target Hr]. assert (Hw : well_formed (fresh_log target)).
  { exists 0, HEADER_LEN, [], [], []. split; [apply fresh_log_inv |].
    split; [apply fresh_log_exact | done]. }
  induction Hr as [| s1 s2 s3 Hs _ IH]; [done |]. by apply IH, (log_step_wf _ _ Hs).
Qed.

(** ** Properties *)


(** One transaction begun, flushed, and committed in the buffer. *)
Definition begun (target : Z) : LogManager := (append 1 Begin (fresh_log target)).2.
Definition begun_flushed (target : Z) : LogManager := (flush HEADER_LEN (begun target)).2.
Definition committed (target : Z) : LogManager := (append 1 Commit (begun_flushed target)).2.

Lemma committed_reachable : reachable (committed 1000).
Proof.
  exists 1000. apply (rtc_l _ _ (begun 1000)); [| apply (rtc_l _ _ (begun_flushed 1000))].
  - apply (step_append (fresh_log 1000) 1 Begin); [unfold in_u; lia | done | vm_compute; reflexivity..].
  - apply (step_flush (begun 1000) HEADER_LEN).
  - apply rtc_once. assert (Ht : in_u 64 1) by (unfold in_u; lia).
    assert (Hl : len (encode_body (appended (begun_flushed 1000) 1 Commit)) + 12 < 2 ^ 32)
      by (vm_compute; reflexivity).
    assert (Hn : next_lsn (begun_flushed 1000)
                 + len (encode_record (appended (begun_flushed 1000) 1 Commit)) < 2 ^ 64)
      by (vm_compute; reflexivity).
    exact (step_append (begun_flushed 1000) 1 Commit Ht I Hl Hn).
Qed.


(** Appending extends the log by exactly one record, at the LSN returned, linked to the
    transaction's previous record; nothing on disk changes. *)
Theorem append_extends_log s bid base gs act buf t k :
  log_inv s bid base gs act buf ->
  in_u 64 t -> kind_ok k -> len (encode_body (appended s t k)) + 12 < 2 ^ 32 ->
  next_lsn s + len (encode_record (appended s t k)) < 2 ^ 64 ->
  (append t k s).1 = Ok (next_lsn s)
  /\ log_inv (append t k s).2 bid base gs act (buf ++ [appended s t k])
  /\ store (append t k s).2 = store s
  /\ last_lsn_for t (append t k s).2 = Some (next_lsn s).
Proof.
  intros H Ht Hk Hlen Hfit. destruct (append_inv _ _ _ _ _ _ t k H Ht Hk Hlen Hfit) as (? & ? & ?).
  split; [done |]. split; [done |]. split; [done |]. unfold last_lsn_for. cbn. apply lookup_insert_eq.
Qed.

Lemma append_extends_log_witness :
  (append 1 Begin (fresh_log 1000)).1 = Ok HEADER_LEN
  /\ log_inv (append 1 Begin (fresh_log 1000)).2 0 HEADER_LEN [] [] ([] ++ [appended (fresh_log 1000) 1 Begin])
  /\ store (append 1 Begin (fresh_log 1000)).2 = store (fresh_log 1000)
  /\ last_lsn_for 1 (append 1 Begin (fresh_log 1000)).2 = Some HEADER_LEN.
Proof.
  apply (append_extends_log (fresh_log 1000) 0 HEADER_LEN [] [] [] 1 Begin);
    [apply fresh_log_inv | unfold in_u; lia | done | vm_compute; reflexivity..].
Defined.

(** Any record of the log can be read back by its LSN, wherever it lives: the buffer,
    the active segment or any sealed segment. Only the handle cache changes. *)
Theorem read_at_every_record s bid base gs act buf r :
  log_inv s bid base gs act buf -> quiet (store s) -> r ∈ all_records gs act buf ->
  exists c, read_at (lsn r) s = (Ok (Some r), set_cache c s).
Proof. apply read_at_inv. Qed.

Lemma begun_inv : log_inv (begun 1000) 0 HEADER_LEN [] [] [appended (fresh_log 1000) 1 Begin].
Proof.
  destruct (append_inv (fresh_log 1000) 0 HEADER_LEN [] [] [] 1 Begin) as (_ & H & _);
    [apply fresh_log_inv | unfold in_u; lia | done | vm_compute; reflexivity.. | exact H].
Qed.

Lemma read_at_every_record_witness :
  exists c, read_at (lsn (appended (fresh_log 1000) 1 Begin)) (begun 1000)
            = (Ok (Some (appended (fresh_log 1000) 1 Begin)), set_cache c (begun 1000)).
Proof.
  apply (read_at_every_record (begun 1000) 0 HEADER_LEN [] [] [appended (fresh_log 1000) 1 Begin]).
  - exact begun_inv.
  - reflexivity.
  - apply list_elem_of_singleton. reflexivity.
Defined.



(** Iterating from an LSN yields exactly the records at or above it, in log order, over
    sealed segments, the active segment and the buffer; and the iteration ends. *)
Theorem iter_from_exact s bid base gs act buf l :
  log_inv s bid base gs act buf -> quiet (store s) ->
  exists it, iter_from l s = (Ok it, s)
    /\ exists n, forall fuel, (n < fuel)%nat ->
         drain fuel it (store s) = Some (filter (fun r => l <= lsn r) (all_records gs act buf)).
Proof. apply iter_from_inv. Qed.

Lemma iter_from_exact_witness :
  exists it, iter_from 0 (begun 1000) = (Ok it, begun 1000)
    /\ exists n, forall fuel, (n < fuel)%nat ->
         drain fuel it (store (begun 1000))
         = Some (filter (fun r => 0 <= lsn r) (all_records [] [] [appended (fresh_log 1000) 1 Begin])).
Proof.
  apply (iter_from_exact (begun 1000) 0 HEADER_LEN).
  - exact begun_inv.
  - reflexivity.
Defined.

(** C26: Truncation never loses a record at or above its bound, whichever removals fail, and
    leaves a well-formed log: only whole segments that end at or below the bound go. *)
Theorem truncate_keeps_from_bound s bid base gs act buf bound :
  log_inv s bid base gs act buf ->
  exists pre post, gs = pre ++ post
    /\ log_inv (truncate_below bound s).2 (bid + len pre)
         (base + len (enc_all (concat (seg_recs <$> pre)))) post act buf
    /\ filter (fun r => bound <= lsn r) (all_records post act buf)
       = filter (fun r => bound <= lsn r) (all_records gs act buf)
    /\ (truncate_below bound s).1 <> Panic.
Proof.
  intros H. pose proof (truncate_inv _ _ _ _ _ _ bound H) as Ht.
  destruct (truncate_below bound s) as [o s']. destruct Ht as (pre & post & -> & H' & Hb & Hp & _).
  exists pre, post. split; [done |]. split; [done |]. split; [| done]. symmetry.
  exact (filter_truncated _ _ _ _ _ _ _ _ _ (inv_chain _ _ _ _ _ _ H) (inv_lsns _ _ _ _ _ _ H) Hb).
Qed.

Lemma truncate_keeps_from_bound_witness :
  exists pre post, [] = pre ++ post
    /\ log_inv (truncate_below 20 (begun 1000)).2 (0 + len pre)
         (HEADER_LEN + len (enc_all (concat (seg_recs <$> pre)))) post []
         [appended (fresh_log 1000) 1 Begin]
    /\ filter (fun r => 20 <= lsn r) (all_records post [] [appended (fresh_log 1000) 1 Begin])
       = filter (fun r => 20 <= lsn r) (all_records [] [] [appended (fresh_log 1000) 1 Begin])
    /\ (truncate_below 20 (begun 1000)).1 <> Panic.
Proof. apply (truncate_keeps_from_bound (begun 1000) 0 HEADER_LEN). exact begun_inv. Defined.



(** ** Behaviour after failed calls *)
Definition with_faults (fs : list Fault) (s : LogManager) : LogManager :=
  set_store (mkStore (segs (store s)) fs) s.
Definition eio : IoError := str "Input/output error".


(** A roll that fails right after creating the next segment's file, and the torn append of a
    crash that follows. *)
Definition roll_failed_at_open : outcome Storage.Error unit * LogManager :=
  flush 16 (with_faults [Works; Works; Works; Works; Fails eio 1] (begun 1)).
Definition torn_after_failed_roll : gmap Z bytes :=
  let s := (append 1 Commit roll_failed_at_open.2).2 in
  <[0 := default [] (segs (store s) !! 0) ++ firstn 10 (buffer s)]> (segs (store s)).

(** A roll that fails at its last sync, and one more flush whose own roll fails at once. *)
Definition roll_failed_at_sync : outcome Storage.Error unit * LogManager :=
  flush 16 (with_faults [Works; Works; Works; Works; Works; Works; Works; Fails eio 0] (begun 1)).
Definition flushed_after_failed_roll : outcome Storage.Error unit * LogManager :=
  flush 53 (with_faults [Works; Works; Works; Works; Fails eio 0] (append 1 Commit roll_failed_at_sync.2).2).


(** After truncation the highest transaction id need not survive a restart. *)
Example truncation_forgets_max_txn_id :
  let s := (flush 16 (append 7 Begin (fresh_log 1)).2).2 in
  let t := (truncate_below 53 s).2 in
  max_txn_id t = Some 7
  /\ match (open_with_store 1 (mkStore (segs (store t)) [])).1 with
     | Ok s' => max_txn_id s' = None
     | _ => False
     end.
Proof. vm_compute. auto. Qed.
