(* ===== verification/VersionStore.v ===== *)
(** * Multi-version visibility: crates/txn/src/mvcc.rs and crates/txn/src/version_store.rs

    A chain of versions per row, newest first, the rows each transaction wrote, and the rows
    whose chain may have become droppable, filed under the timestamp from which to look. *)
From stdpp Require Import sorting.
From S2P Require Import Prelude Common.

(** ** mvcc.rs *)
Record VersionEntry : Type := mkEntry {
  creator_txn_id : TxnId;
  begin_ts : option Z;
  end_ts : option Z;
}.

(** [VersionChain { versions }] *)
Abbreviation VersionChain := (list VersionEntry).

Definition push (e : VersionEntry) (chain : VersionChain) : VersionChain := e :: chain.

Definition is_globally_visible (e : VersionEntry) (read_ts : Z) : bool :=
  match begin_ts e with
  | Some b =>
      if b <=? read_ts then
        match end_ts e with Some d => read_ts <? d | None => true end
      else false
  | None => false
  end.

Definition visible_version (chain : VersionChain) (read_ts : Z) : option VersionEntry :=
  List.find (fun e => is_globally_visible e read_ts) chain.

Definition visible_version_for (chain : VersionChain) (reader : TxnId) (read_ts : Z) : option VersionEntry :=
  List.find (fun e => (creator_txn_id e =? reader) || is_globally_visible e read_ts) chain.

Definition mark_committed (t : TxnId) (commit_ts : Z) (chain : VersionChain) : VersionChain :=
  (fun e => if creator_txn_id e =? t then mkEntry (creator_txn_id e) (Some commit_ts) (end_ts e) else e)
  <$> chain.

Definition remove_creator (t : TxnId) (chain : VersionChain) : VersionChain :=
  filter (fun e => creator_txn_id e <> t) chain.

Definition is_prunable (chain : VersionChain) (watermark : Z) : bool :=
  match chain with
  | [] => true
  | newest :: _ =>
      match begin_ts newest, end_ts newest with
      | Some b, None => b <=? watermark
      | _, _ => false
      end
  end.

(** ** version_store.rs *)
Record StoreState : Type := mkStoreState {
  chains : gmap Rid VersionChain;
  write_sets : gmap TxnId (list Rid);
  prune_candidates : gmap Z (list Rid);
}.

Definition StoreState_default : StoreState := mkStoreState ∅ ∅ ∅.

Definition record_insert (t : TxnId) (rid : Rid) (s : StoreState) : StoreState :=
  mkStoreState
    (<[rid := push (mkEntry t None None) (default [] (chains s !! rid))]> (chains s))
    (<[t := default [] (write_sets s !! t) ++ [rid]]> (write_sets s))
    (prune_candidates s).

(** [map.entry(ts).or_default().extend(rids)] *)
Definition enrol (ts : Z) (rids : list Rid) (m : gmap Z (list Rid)) : gmap Z (list Rid) :=
  <[ts := default [] (m !! ts) ++ rids]> m.

Definition commit_versions (t : TxnId) (commit_ts : Z) (s : StoreState) : StoreState :=
  match write_sets s !! t with
  | None => s
  | Some rids =>
      mkStoreState
        (fold_left (fun m rid => alter (mark_committed t commit_ts) rid m) rids (chains s))
        (delete t (write_sets s))
        (enrol commit_ts rids (prune_candidates s))
  end.

(** The loop of [abort_versions]: the chains, and the rows whose chain it emptied. *)
Fixpoint abort_loop (t : TxnId) (rids : list Rid) (m : gmap Rid VersionChain) (emptied : list Rid)
  : gmap Rid VersionChain * list Rid :=
  match rids with
  | [] => (m, emptied)
  | rid :: rids =>
      match m !! rid with
      | Some chain =>
          let chain := remove_creator t chain in
          abort_loop t rids (<[rid := chain]> m)
            (match chain with [] => emptied ++ [rid] | _ => emptied end)
      | None => abort_loop t rids m emptied
      end
  end.

Definition abort_versions (t : TxnId) (next_ts : Z) (s : StoreState) : StoreState :=
  match write_sets s !! t with
  | None => s
  | Some rids =>
      let '(m, emptied) := abort_loop t rids (chains s) [] in
      mkStoreState m (delete t (write_sets s))
        (match emptied with [] => prune_candidates s | _ => enrol next_ts emptied (prune_candidates s) end)
  end.

Definition prune_rid (watermark : Z) (m : gmap Rid VersionChain) (rid : Rid) : gmap Rid VersionChain :=
  match m !! rid with
  | Some chain => if is_prunable chain watermark then delete rid m else m
  | None => m
  end.

(** One due timestamp: its rows are taken off the queue and rechecked. *)
Definition prune_due (watermark : Z) (s : StoreState) (ts : Z) : StoreState :=
  match prune_candidates s !! ts with
  | None => s
  | Some rids =>
      mkStoreState (fold_left (prune_rid watermark) rids (chains s)) (write_sets s)
        (delete ts (prune_candidates s))
  end.

Definition prune (watermark : Z) (s : StoreState) : StoreState :=
  let due := merge_sort Z.le (filter (fun ts => ts <= watermark) (elements (dom (prune_candidates s)))) in
  fold_left (prune_due watermark) due s.

Definition is_visible (s : StoreState) (rid : Rid) (read_ts : Z) : bool :=
  match chains s !! rid with
  | Some chain => bool_decide (is_Some (visible_version chain read_ts))
  | None => true
  end.

Definition is_visible_to (s : StoreState) (rid : Rid) (reader : TxnId) (read_ts : Z) : bool :=
  match chains s !! rid with
  | Some chain => bool_decide (is_Some (visible_version_for chain reader read_ts))
  | None => true
  end.

(** ** What each operation does to one row *)
Lemma mark_committed_idemp t ts chain :
  mark_committed t ts (mark_committed t ts chain) = mark_committed t ts chain.
Proof.
  unfold mark_committed. rewrite <- list_fmap_compose. apply list_fmap_ext. intros _ [c b e] _.
  cbn. destruct (c =? t) eqn:E; cbn; by rewrite E.
Qed.

Lemma commit_loop_lookup t ts rids (m : gmap Rid VersionChain) rid :
  fold_left (fun m rid => alter (mark_committed t ts) rid m) rids m !! rid
  = if decide (rid ∈ rids) then mark_committed t ts <$> m !! rid else m !! rid.
Proof.
  revert m. induction rids as [| r rids IH]; intros m; [done |]. cbn [fold_left]. rewrite IH.
  destruct (decide (rid = r)) as [-> | Hne].
  - rewrite lookup_alter_eq. rewrite (decide_True (P := r ∈ r :: rids)) by (left; done).
    case_decide; [| done]. rewrite <- option_fmap_compose. apply option_fmap_ext.
    intros c. cbn. apply mark_committed_idemp.
  - rewrite lookup_alter_ne by done. destruct (decide (rid ∈ rids)).
    + by rewrite decide_True by (by right).
    + rewrite decide_False; [done |]. by intros [-> | ?]%elem_of_cons.
Qed.

Lemma remove_creator_idemp t chain : remove_creator t (remove_creator t chain) = remove_creator t chain.
Proof.
  unfold remove_creator. apply filter_all. apply Forall_forall. intros e He.
  by apply list_elem_of_filter in He as [? _].
Qed.

Lemma abort_loop_spec t rids (m : gmap Rid VersionChain) emptied :
  let '(m', emptied') := abort_loop t rids m emptied in
  (forall rid, m' !! rid = if decide (rid ∈ rids) then remove_creator t <$> m !! rid else m !! rid)
  /\ (forall rid, rid ∈ emptied' <->
        rid ∈ emptied \/ (rid ∈ rids /\ remove_creator t <$> m !! rid = Some [])).
Proof.
  revert m emptied. induction rids as [| r rids IH]; intros m emptied.
  { split; [done |]. intros rid. rewrite elem_of_nil. naive_solver. }
  cbn [abort_loop]. destruct (m !! r) as [chain |] eqn:Er.
  - specialize (IH (<[r := remove_creator t chain]> m)
      (match remove_creator t chain with [] => emptied ++ [r] | _ => emptied end)).
    destruct (abort_loop _ _ _ _) as [m' emptied']. destruct IH as [H1 H2]. split.
    + intros rid. rewrite H1. destruct (decide (rid = r)) as [-> | Hne].
      * rewrite lookup_insert_eq, Er. rewrite (decide_True (P := r ∈ r :: rids)) by (left; done).
        cbn. case_decide; [by rewrite remove_creator_idemp | done].
      * rewrite lookup_insert_ne by done. destruct (decide (rid ∈ rids)).
        -- by rewrite decide_True by (by right).
        -- rewrite decide_False; [done |]. by intros [-> | ?]%elem_of_cons.
    + intros rid. rewrite H2, elem_of_cons. destruct (decide (rid = r)) as [-> | Hne].
      * rewrite lookup_insert_eq, Er. cbn. rewrite remove_creator_idemp.
        destruct (remove_creator t chain) as [| e c]; [| naive_solver].
        rewrite elem_of_app, list_elem_of_singleton. naive_solver.
      * rewrite lookup_insert_ne by done.
        assert (Hin : rid ∈ match remove_creator t chain with [] => emptied ++ [r] | _ => emptied end
                      <-> rid ∈ emptied).
        { destruct (remove_creator t chain); [| done].
          rewrite elem_of_app, list_elem_of_singleton. naive_solver. }
        rewrite Hin. naive_solver.
  - specialize (IH m emptied). destruct (abort_loop _ _ _ _) as [m' emptied'].
    destruct IH as [H1 H2]. split.
    + intros rid. rewrite H1. destruct (decide (rid = r)) as [-> | Hne].
      * rewrite Er. by repeat case_decide.
      * destruct (decide (rid ∈ rids)).
        -- by rewrite decide_True by (by right).
        -- rewrite decide_False; [done |]. by intros [-> | ?]%elem_of_cons.
    + intros rid. rewrite H2, elem_of_cons. destruct (decide (rid = r)) as [-> | Hne]; [| naive_solver].
      rewrite Er. naive_solver.
Qed.

Lemma prune_rids_lookup w rids m rid :
  fold_left (prune_rid w) rids m !! rid
  = if decide (rid ∈ rids) then (m !! rid ≫= fun c => if is_prunable c w then None else Some c)
    else m !! rid.
Proof.
  assert (Hone : forall m r, prune_rid w m r !! rid
    = if decide (rid = r) then (m !! rid ≫= fun c => if is_prunable c w then None else Some c) else m !! rid).
  { intros m' r. unfold prune_rid. destruct (decide (rid = r)) as [-> | Hne].
    - destruct (m' !! r) as [c |] eqn:E; [| by rewrite E]. cbn.
      destruct (is_prunable c w); [apply lookup_delete_eq | done].
    - destruct (m' !! r) as [c |]; [| done]. destruct (is_prunable c w); [by rewrite lookup_delete_ne | done]. }
  revert m. induction rids as [| r rids IH]; intros m; [done |]. cbn [fold_left]. rewrite IH, Hone.
  destruct (decide (rid = r)) as [-> | Hne].
  - rewrite (decide_True (P := r ∈ r :: rids)) by (left; done). case_decide; [| done].
    destruct (m !! r) as [c |]; [| done]. cbn. destruct (is_prunable c w) eqn:Ep; [done |]. cbn. by rewrite Ep.
  - destruct (decide (rid ∈ rids)).
    + by rewrite decide_True by (by right).
    + rewrite decide_False; [done |]. by intros [-> | ?]%elem_of_cons.
Qed.

(** [rid] waits under a timestamp at or below the watermark. *)
Definition due_at (s : StoreState) (w : Z) (rid : Rid) : Prop :=
  exists ts l, ts <= w /\ prune_candidates s !! ts = Some l /\ rid ∈ l.

Lemma prune_fold_spec w due s :
  let s' := fold_left (prune_due w) due s in
  write_sets s' = write_sets s
  /\ (forall ts, prune_candidates s' !! ts = if decide (ts ∈ due) then None else prune_candidates s !! ts)
  /\ (forall rid, chains s' !! rid = chains s !! rid
        \/ (chains s' !! rid = None /\ exists c, chains s !! rid = Some c /\ is_prunable c w = true
              /\ exists ts l, ts ∈ due /\ prune_candidates s !! ts = Some l /\ rid ∈ l))
  /\ (forall rid ts l, ts ∈ due -> prune_candidates s !! ts = Some l -> rid ∈ l ->
        forall c, chains s' !! rid = Some c -> is_prunable c w = false).
Proof.
  revert s. induction due as [| ts due IH]; intros s; cbn [fold_left].
  { split; [done |]. split; [done |]. split; [by left |]. by intros ? ? ? ?%elem_of_nil. }
  specialize (IH (prune_due w s ts)). cbv zeta in IH. destruct IH as (Hw & Hc & Hch & Hd). cbv zeta.
  assert (Hstep : write_sets (prune_due w s ts) = write_sets s
    /\ prune_candidates (prune_due w s ts) = delete ts (prune_candidates s)
    /\ forall rid, chains (prune_due w s ts) !! rid
         = if decide (rid ∈ default [] (prune_candidates s !! ts))
           then (chains s !! rid ≫= fun c => if is_prunable c w then None else Some c) else chains s !! rid).
  { unfold prune_due. destruct (prune_candidates s !! ts) as [l |] eqn:E.
    - split; [done |]. split; [done |]. intros rid. cbn [chains]. apply prune_rids_lookup.
    - split; [done |]. split; [by rewrite delete_id |]. intros rid. cbn. by rewrite decide_False by apply not_elem_of_nil. }
  destruct Hstep as (Sw & Sc & Sch). rewrite Sc in *. split; [congruence |]. split; [| split].
  - intros ts'. rewrite Hc. destruct (decide (ts' = ts)) as [-> | Hne].
    + rewrite lookup_delete_eq. rewrite (decide_True (P := ts ∈ ts :: due)) by (left; done). by case_decide.
    + rewrite lookup_delete_ne by done. destruct (decide (ts' ∈ due)).
      * by rewrite decide_True by (by right).
      * rewrite decide_False; [done |]. by intros [-> | ?]%elem_of_cons.
  - intros rid. destruct (Hch rid) as [E | (E & c & Hcc & Hp & ts' & l & Hin & Hl & Hr)].
    + rewrite E, Sch. case_decide as Hin; [| by left].
      destruct (chains s !! rid) as [c |]; [| by left]. cbn. destruct (is_prunable c w) eqn:Ep; [| by left].
      right. split; [done |]. exists c. split; [done |]. split; [done |].
      destruct (prune_candidates s !! ts) as [l |] eqn:El; [| by apply elem_of_nil in Hin].
      exists ts, l. split; [left; done | done].
    + right. split; [done |]. exists c. rewrite Sch in Hcc.
      assert (Hs : chains s !! rid = Some c).
      { case_decide; [| done]. destruct (chains s !! rid) as [c' |]; [| done]. cbn in Hcc.
        destruct (is_prunable c' w); [done | by simplify_eq]. }
      split; [done |]. split; [done |]. exists ts', l.
      destruct (decide (ts' = ts)) as [-> | Hne]; [by rewrite lookup_delete_eq in Hl |].
      rewrite lookup_delete_ne in Hl by done. split; [by right | done].
  - intros rid ts' l Hin Hl Hr c Hcc. destruct (decide (ts' = ts)) as [-> | Hne].
    + destruct (Hch rid) as [E | (E & _)]; [| congruence]. rewrite E, Sch, Hl in Hcc.
      rewrite decide_True in Hcc by done. destruct (chains s !! rid) as [c' |]; [| done]. cbn in Hcc.
      destruct (is_prunable c' w) eqn:Ep; [done | by simplify_eq].
    + apply (Hd rid ts' l); [| by rewrite lookup_delete_ne | done | done].
      apply elem_of_cons in Hin as [? | ?]; [congruence | done].
Qed.

Lemma prune_spec w s :
  let s' := prune w s in
  write_sets s' = write_sets s
  /\ (forall ts, prune_candidates s' !! ts = if decide (ts <= w) then None else prune_candidates s !! ts)
  /\ (forall rid, chains s' !! rid = chains s !! rid
        \/ (chains s' !! rid = None /\ exists c, chains s !! rid = Some c /\ is_prunable c w = true /\ due_at s w rid))
  /\ (forall rid, due_at s w rid -> forall c, chains s' !! rid = Some c -> is_prunable c w = false).
Proof.
  unfold prune.
  set (due := merge_sort Z.le (filter (fun ts => ts <= w) (elements (dom (prune_candidates s))))).
  assert (Hdue : forall ts, ts ∈ due <-> ts <= w /\ is_Some (prune_candidates s !! ts)).
  { intros ts. unfold due. rewrite merge_sort_Permutation, list_elem_of_filter, elem_of_elements, elem_of_dom. done. }
  destruct (prune_fold_spec w due s) as (H1 & H2 & H3 & H4). cbv zeta. split; [done |]. split; [| split].
  - intros ts. rewrite H2. destruct (decide (ts ∈ due)) as [Hin | Hin]; rewrite Hdue in Hin; case_decide; try done; [naive_solver |].
    destruct (prune_candidates s !! ts) eqn:E; [| done]. exfalso. apply Hin. split; [done | by eexists].
  - intros rid. destruct (H3 rid) as [? | (E & c & Hc & Hp & ts & l & Hin & Hl & Hr)]; [by left | right].
    split; [done |]. exists c. split; [done |]. split; [done |]. apply Hdue in Hin as [? _]. by exists ts, l.
  - intros rid (ts & l & Hle & Hl & Hr). apply (H4 rid ts l); [| done | done]. apply Hdue. by split; [| eexists].
Qed.
