(* ===== verification/TxnManager.v ===== *)
(** * Transactions: crates/txn/src/manager.rs, transaction.rs, isolation.rs

    The transaction manager over any buffer pool and log that offer the four operations it
    calls ([PoolOps]): beginning, committing and the two-phase abort, with the version store
    and the lock manager it owns. *)
From S2P Require Import Prelude Common Value Errors LockManager WalRecord VersionStore.

(** ** The interface to the buffer pool and the log

    What the manager relies on: a record can always be appended (it only goes to a buffer). *)
Class PoolOps (P : Type) : Type := {
  append_log : TxnId -> LogRecordKind -> M P Storage.Error Lsn;
  flush_log : Lsn -> M P Storage.Error unit;
  last_lsn : P -> TxnId -> option Lsn;
  undo_transaction : TxnId -> Lsn -> M P Storage.Error unit;
  append_log_works : forall t k p, exists lsn p', append_log t k p = (Ok lsn, p');
}.

(** ** Transactions *)
Inductive IsolationLevel : Type :=
| ReadUncommitted
| ReadCommitted
| RepeatableRead
| SnapshotIsolation
| Serializable.
#[global] Instance IsolationLevel_eq_dec : EqDecision IsolationLevel.
Proof. solve_decision. Defined.

Inductive TransactionState : Type := Growing | Aborted.
#[global] Instance TransactionState_eq_dec : EqDecision TransactionState.
Proof. solve_decision. Defined.

Record Transaction : Type := mkTxn {
  txn_txn_id : TxnId;
  isolation_level : IsolationLevel;
  state : TransactionState;
  begin_lsn : Lsn;
  read_ts : Z;
}.

Definition Transaction_new (t : TxnId) (level : IsolationLevel) (lsn : Lsn) (ts : Z) : Transaction :=
  mkTxn t level Growing lsn ts.
Definition set_state (st : TransactionState) (x : Transaction) : Transaction :=
  mkTxn (txn_txn_id x) (isolation_level x) st (begin_lsn x) (read_ts x).

(** ** The manager *)
Record TransactionManager : Type := mkManager {
  active : gmap TxnId Transaction;
  next_txn_id : Z;
  lock_manager : LockManager.State;
  version_store : StoreState;
  next_ts : Z;
}.

Definition TransactionManager_new (highest_seen : option TxnId) : TransactionManager :=
  mkManager ∅ (match highest_seen with Some id => wrapu 64 (id + 1) | None => 0 end)
    State_default StoreState_default 0.

(** [iter().min().unwrap_or(d)] *)
Definition min_or (d : Z) (l : list Z) : Z :=
  match l with [] => d | x :: l => fold_left Z.min l x end.

Definition oldest_active_read_ts (m : TransactionManager) : Z :=
  min_or (next_ts m) ((fun e => read_ts e.2) <$> map_to_list (active m)).
Definition oldest_active_txn_id (m : TransactionManager) : TxnId :=
  min_or (next_txn_id m) (fst <$> map_to_list (active m)).
Definition earliest_active_begin_lsn (m : TransactionManager) : option Lsn :=
  match (fun e => begin_lsn e.2) <$> map_to_list (active m) with
  | [] => None
  | x :: l => Some (fold_left Z.min l x)
  end.

Record PendingAbort : Type := mkPending { pending_txn_id : TxnId; pending_last_lsn : option Lsn }.

Section manager.
Context {P : Type} `{!PoolOps P}.

(** The manager and the pool it is called with. *)
Record Sys : Type := mkSys { mgr : TransactionManager; pool : P }.

Definition on_pool {A} (m : M P Storage.Error A) : M Sys Txn.Error A := fun s =>
  match m (pool s) with
  | (Ok a, p) => (Ok a, mkSys (mgr s) p)
  | (Err e, p) => (Err (Txn.Storage e), mkSys (mgr s) p)
  | (Panic, p) => (Panic, mkSys (mgr s) p)
  end.
Definition on_mgr (f : TransactionManager -> TransactionManager) : M Sys Txn.Error unit :=
  modify (fun s => mkSys (f (mgr s)) (pool s)).

Definition set_active (a : gmap TxnId Transaction) (m : TransactionManager) : TransactionManager :=
  mkManager a (next_txn_id m) (lock_manager m) (version_store m) (next_ts m).
Definition set_versions (v : StoreState) (m : TransactionManager) : TransactionManager :=
  mkManager (active m) (next_txn_id m) (lock_manager m) v (next_ts m).
Definition set_locks (l : LockManager.State) (m : TransactionManager) : TransactionManager :=
  mkManager (active m) (next_txn_id m) l (version_store m) (next_ts m).
(** [next_timestamp]: the timestamp, and the counter behind it *)
Definition bump_ts (m : TransactionManager) : TransactionManager :=
  mkManager (active m) (next_txn_id m) (lock_manager m) (version_store m) (wrapu 64 (next_ts m + 1)).
Definition bump_txn_id (m : TransactionManager) : TransactionManager :=
  mkManager (active m) (wrapu 64 (next_txn_id m + 1)) (lock_manager m) (version_store m) (next_ts m).

Definition next_timestamp : M Sys Txn.Error Z :=
  ts ← gets (fun s => next_ts (mgr s));
  _ ← on_mgr bump_ts;
  mret ts.

Definition begin (level : IsolationLevel) : M Sys Txn.Error TxnId :=
  t ← gets (fun s => next_txn_id (mgr s));
  _ ← on_mgr bump_txn_id;
  ts ← next_timestamp;
  lsn ← on_pool (append_log t Begin);
  _ ← on_mgr (fun m => set_active (<[t := Transaction_new t level lsn ts]> (active m)) m);
  mret t.

(** What both ways of ending a transaction do last. *)
Definition retire (t : TxnId) (m : TransactionManager) : TransactionManager :=
  let m := set_versions (prune (oldest_active_read_ts m) (version_store m)) m in
  let m := set_locks (release_all (lock_manager m) t) m in
  set_locks (prune_finished (lock_manager m) (oldest_active_txn_id m)) m.

Definition commit (t : TxnId) : M Sys Txn.Error unit :=
  found ← gets (fun s => active (mgr s) !! t);
  match found with
  | None => throw (Txn.UnknownTransaction t)
  | Some x =>
      if decide (state x = Aborted) then throw (Txn.AbortInProgress t) else
      lsn ← on_pool (append_log t Commit);
      _ ← on_pool (flush_log lsn);
      ts ← next_timestamp;
      _ ← on_mgr (fun m => set_versions (commit_versions t ts (version_store m)) m);
      _ ← on_pool (append_log t EndTxn);
      _ ← on_mgr (fun m => set_active (delete t (active m)) m);
      on_mgr (retire t)
  end.

Definition begin_abort (t : TxnId) : M Sys Txn.Error PendingAbort :=
  found ← gets (fun s => active (mgr s) !! t);
  match found with
  | None => throw (Txn.UnknownTransaction t)
  | Some x =>
      if decide (state x = Aborted) then throw (Txn.AbortInProgress t) else
      _ ← on_mgr (fun m => set_active (<[t := set_state Aborted x]> (active m)) m);
      last ← gets (fun s => last_lsn (pool s) t);
      mret (mkPending t last)
  end.

Definition undo (p : PendingAbort) : M Sys Txn.Error unit :=
  match pending_last_lsn p with
  | Some lsn => on_pool (undo_transaction (pending_txn_id p) lsn)
  | None => mret tt
  end.

Definition finish_abort (p : PendingAbort) : M Sys Txn.Error unit :=
  let t := pending_txn_id p in
  found ← gets (fun s => active (mgr s) !! t);
  match found with
  | None => throw (Txn.UnknownTransaction t)
  | Some _ =>
      _ ← on_mgr (fun m => set_active (delete t (active m)) m);
      _ ← on_mgr (fun m => set_versions (abort_versions t (next_ts m) (version_store m)) m);
      on_mgr (retire t)
  end.

Definition cancel_abort (p : PendingAbort) : M Sys Txn.Error unit :=
  on_mgr (fun m => set_active (alter (set_state Growing) (pending_txn_id p) (active m)) m).

(** [match pending.undo(pool) { Ok(()) => finish, Err(err) => cancel }] *)
Definition undo_then_finish (p : PendingAbort) : M Sys Txn.Error unit := fun s =>
  match undo p s with
  | (Ok _, s) => finish_abort p s
  | (Err e, s) => (Err e, (cancel_abort p s).2)
  | (Panic, s) => (Panic, s)
  end.

Definition abort (t : TxnId) : M Sys Txn.Error unit :=
  p ← begin_abort t;
  undo_then_finish p.

Definition active_snapshot (s : Sys) : list (TxnId * Lsn) :=
  omap (fun t => pair t <$> last_lsn (pool s) t) (fst <$> map_to_list (active (mgr s))).

(** The insert executor's call, while the row's page is latched. *)
Definition record_row (t : TxnId) (rid : Rid) (s : Sys) : Sys :=
  mkSys (set_versions (record_insert t rid (version_store (mgr s))) (mgr s)) (pool s).
End manager.
Arguments Sys : clear implicits.
