(* ===== verification/Snapshot.v ===== *)
(** * Snapshot isolation

    What a transaction sees, independently of version chains, timestamps queues and pruning:
    each row this process inserted is pending, committed at a timestamp, or aborted. The
    transaction manager and its version store are shown to implement this view, in every
    state reachable through interleaved begins, inserts, commits and aborts. *)
From S2P Require Import Prelude Common Value Errors LockManager WalRecord VersionStore TxnManager.

(** ** The specification *)

(** [clean]: no earlier abort of the same slot was still queued for pruning when the row was
    inserted. *)
Inductive RowStatus : Type :=
| Pending (t : TxnId) (clean : bool)
| Committed (t : TxnId) (ts : Z)
| RolledBack (ts : Z) (clean : bool).

Abbreviation Rows := (gmap Rid RowStatus).

Definition end_rows (t : TxnId) (f : bool -> RowStatus) (g : Rows) : Rows :=
  (fun st => match st with Pending u c => if decide (u = t) then f c else st | _ => st end) <$> g.

(** Does a reader with this snapshot see the row? *)
Definition sees (st : RowStatus) (reader : TxnId) (read_ts : Z) : bool :=
  match st with
  | Pending t _ => t =? reader
  | Committed _ ts => ts <=? read_ts
  | RolledBack _ _ => false
  end.

(** ** The system *)
Section snapshot.
Context {P : Type} `{!PoolOps P}.

Definition queued (v : StoreState) (rid : Rid) (k : Z) : Prop :=
  exists l, prune_candidates v !! k = Some l /\ rid ∈ l.

Definition unqueued (v : StoreState) (rid : Rid) : bool :=
  forallb (fun kl : Z * list Rid => negb (bool_decide (rid ∈ kl.2))) (map_to_list (prune_candidates v)).

(** A state of the system with the status of every row. Rows are inserted by running
    transactions into slots that hold no live row, as the table lock and the heap ensure. *)
Inductive step : Sys P * Rows -> Sys P * Rows -> Prop :=
| step_begin s g level :
    next_txn_id (mgr s) + 1 < 2 ^ 64 -> next_ts (mgr s) + 1 < 2 ^ 64 ->
    step (s, g) ((begin level s).2, g)
| step_insert s g t rid x :
    active (mgr s) !! t = Some x -> state x = Growing ->
    (forall st, g !! rid = Some st -> exists a c, st = RolledBack a c) ->
    step (s, g) (record_row t rid s, <[rid := Pending t (unqueued (version_store (mgr s)) rid)]> g)
| step_commit s g t s' :
    next_ts (mgr s) + 1 < 2 ^ 64 -> commit t s = (Ok tt, s') ->
    step (s, g) (s', end_rows t (fun _ => Committed t (next_ts (mgr s))) g)
| step_commit_fails s g t e s' : commit t s = (Err e, s') -> step (s, g) (s', g)
| step_begin_abort s g t : step (s, g) ((begin_abort t s).2, g)
| step_undo s g p : step (s, g) ((undo p s).2, g)
| step_finish_abort s g p x :
    active (mgr s) !! pending_txn_id p = Some x -> state x = Aborted ->
    step (s, g) ((finish_abort p s).2,
                 end_rows (pending_txn_id p) (RolledBack (next_ts (mgr s))) g)
| step_cancel_abort s g p : step (s, g) ((cancel_abort p s).2, g).

(** ** The invariant *)
Definition before_all (m : TransactionManager) (ts : Z) : Prop :=
  forall t x, active m !! t = Some x -> ts <= read_ts x.

Definition row_inv (m : TransactionManager) (rid : Rid) (st : option RowStatus) : Prop :=
  let v := version_store m in
  match st with
  | None => chains v !! rid = None
  | Some (Pending t clean) =>
      is_Some (active m !! t) /\ chains v !! rid = Some [mkEntry t None None]
      /\ (exists l, write_sets v !! t = Some l /\ rid ∈ l)
      /\ (clean = true -> forall k, ~ queued v rid k)
  | Some (Committed c ts) =>
      c < next_txn_id m /\ active m !! c = None /\ ts < next_ts m
      /\ ((chains v !! rid = Some [mkEntry c (Some ts) None] /\ queued v rid ts)
          \/ (chains v !! rid = None /\ before_all m ts))
  | Some (RolledBack a clean) =>
      a <= next_ts m
      /\ ((chains v !! rid = Some [] /\ queued v rid a)
          \/ (chains v !! rid = None /\ (clean = true -> before_all m a)))
      /\ (clean = true -> forall k, queued v rid k -> a <= k)
  end.

Record Inv (m : TransactionManager) (g : Rows) : Prop := {
  inv_ids : forall t x, active m !! t = Some x -> t < next_txn_id m /\ 0 <= read_ts x < next_ts m;
  inv_counters : 0 <= next_txn_id m /\ 0 <= next_ts m;
  inv_write_sets : forall t l rid, write_sets (version_store m) !! t = Some l -> rid ∈ l ->
                     exists c, g !! rid = Some (Pending t c);
  inv_rows : forall rid, row_inv m rid (g !! rid);
}.

Lemma unqueued_spec v rid : unqueued v rid = true <-> forall k, ~ queued v rid k.
Proof.
  unfold unqueued, queued. rewrite forallb_forall. split.
  - intros H k (l & Hl & Hr). apply elem_of_map_to_list, list_elem_of_In, H in Hl. cbn in Hl.
    by rewrite bool_decide_eq_true_2 in Hl.
  - intros H [k l] Hin. apply list_elem_of_In, elem_of_map_to_list in Hin. cbn.
    rewrite bool_decide_eq_false_2; [done |]. intros Hr. apply (H k). by exists l.
Qed.

(** ** Watermarks *)
Lemma fold_min_le l x y : y = x \/ y ∈ l -> fold_left Z.min l x <= y.
Proof.
  revert x y. induction l as [| z l IH]; intros x y Hy; cbn [fold_left].
  - destruct Hy as [-> | Hy]; [lia | by apply elem_of_nil in Hy].
  - destruct Hy as [-> | [-> | Hy]%elem_of_cons].
    + etransitivity; [apply (IH (Z.min x z) (Z.min x z)); by left | lia].
    + etransitivity; [apply (IH (Z.min x z) (Z.min x z)); by left | lia].
    + apply IH. by right.
Qed.

Lemma fold_min_elem l x : fold_left Z.min l x = x \/ fold_left Z.min l x ∈ l.
Proof.
  revert x. induction l as [| z l IH]; intros x; cbn [fold_left]; [by left |].
  destruct (IH (Z.min x z)) as [E | Hin]; [| right; by right].
  rewrite E. destruct (Z.min_spec x z) as [[_ ->] | [_ ->]]; [by left | right; left; done].
Qed.

Lemma min_or_le d l y : y ∈ l -> min_or d l <= y.
Proof. destruct l as [| x l]; [by intros ?%elem_of_nil |]. intros [-> | Hy]%elem_of_cons; apply fold_min_le; auto. Qed.

Lemma min_or_bound d l b : (forall y, y ∈ l -> y <= b) -> d <= b -> min_or d l <= b.
Proof.
  intros Hl Hd. destruct l as [| x l]; [done |]. cbn [min_or].
  destruct (fold_min_elem l x) as [-> | Hin]; apply Hl; [left; done | by right].
Qed.

Lemma oldest_read_ts_le m t x : active m !! t = Some x -> oldest_active_read_ts m <= read_ts x.
Proof.
  intros Hx. apply min_or_le. apply list_elem_of_fmap. exists (t, x). split; [done |].
  by apply elem_of_map_to_list.
Qed.

(** ** Preservation *)
Lemma queued_enrol v ts rids m w rid k :
  queued (mkStoreState m w (enrol ts rids (prune_candidates v))) rid k
  <-> queued v rid k \/ (k = ts /\ rid ∈ rids).
Proof.
  unfold queued, enrol. cbn. destruct (decide (k = ts)) as [-> | Hne].
  - rewrite lookup_insert_eq. split.
    + intros (l & [= <-] & [Hr | Hr]%elem_of_app); [| by right]. left.
      destruct (prune_candidates v !! ts) as [l |]; [by exists l | by apply elem_of_nil in Hr].
    + intros [(l & Hl & Hr) | [_ Hr]]; eexists; (split; [done |]); rewrite elem_of_app; [left | by right].
      by rewrite Hl.
  - rewrite lookup_insert_ne by done. naive_solver.
Qed.

Lemma end_rows_lookup t f g rid :
  end_rows t f g !! rid =
  match g !! rid with
  | Some (Pending u c) => Some (if decide (u = t) then f c else Pending u c)
  | o => o
  end.
Proof. unfold end_rows. rewrite lookup_fmap. by destruct (g !! rid) as [[] |]. Qed.

Lemma inv_set_locks m g l : Inv m g -> Inv (set_locks l m) g.
Proof. intros [H1 H2 H3 H4]. by constructor. Qed.

(** Pruning up to the oldest snapshot drops only rows every running transaction can do
    without. *)
Lemma inv_prune m g : Inv m g -> Inv (set_versions (prune (oldest_active_read_ts m) (version_store m)) m) g.
Proof.
  intros [H1 H2 H3 H4]. set (w := oldest_active_read_ts m).
  destruct (prune_spec w (version_store m)) as (Pw & Pc & Pch & Pd). cbv zeta in *.
  assert (Hw : before_all m w) by (intros t x; apply oldest_read_ts_le).
  assert (Hq : forall rid k, queued (prune w (version_store m)) rid k <-> w < k /\ queued (version_store m) rid k).
  { intros rid k. unfold queued. rewrite Pc. case_decide; naive_solver lia. }
  assert (Hdue : forall rid k, k <= w -> queued (version_store m) rid k -> due_at (version_store m) w rid).
  { intros rid k Hk (l & Hl & Hr). by exists k, l. }
  constructor; cbn [set_versions active next_txn_id next_ts version_store];
    [exact H1 | exact H2 | rewrite Pw; exact H3 |].
  intros rid. specialize (H4 rid). unfold row_inv in *. cbv zeta in *.
  cbn [set_versions active next_txn_id next_ts version_store]. rewrite Pw.
  destruct (Pch rid) as [E | (E & c & Hc & Hp & ts & l & Hle & Hl & Hr)].
  - destruct (g !! rid) as [[t cl | c ts | a cl] |]; rewrite E; [| | | done].
    + destruct H4 as (Ha & Hch & Hws & Hcl). split; [done |]. split; [done |]. split; [done |].
      intros Hc k Hk. apply Hq in Hk as [_ Hk]. by apply (Hcl Hc k).
    + destruct H4 as (Hc & Ha & Ht & Hor). split; [done |]. split; [done |]. split; [done |].
      destruct Hor as [[Hch Hqd] | Hor]; [| by right]. left. split; [done |]. apply Hq. split; [| done].
      destruct (Z.le_gt_cases ts w); [| lia]. exfalso.
      assert (Hf : is_prunable [mkEntry c (Some ts) None] w = false).
      { apply (Pd rid); [by eapply Hdue |]. by rewrite E. }
      cbn in Hf. apply Z.leb_gt in Hf. lia.
    + destruct H4 as (Ha & Hor & Hcl). split; [done |]. split.
      * destruct Hor as [[Hch Hqd] | Hor]; [| by right]. left. split; [done |]. apply Hq. split; [| done].
        destruct (Z.le_gt_cases a w); [| lia]. exfalso.
        assert (Hf : is_prunable [] w = false); [| done].
        apply (Pd rid); [by eapply Hdue |]. by rewrite E.
      * intros Hc k [_ Hk]%Hq. by apply Hcl.
  - destruct (g !! rid) as [[t cl | c' ts' | a cl] |]; rewrite E; [| | | done].
    + destruct H4 as (_ & Hch & _). rewrite Hc in Hch. by simplify_eq.
    + destruct H4 as (Hc' & Ha & Ht & [[Hch Hqd] | [Hch _]]); [| congruence].
      split; [done |]. split; [done |]. split; [done |]. right. split; [done |].
      rewrite Hc in Hch. simplify_eq. cbn in Hp. apply Z.leb_le in Hp. intros t x Hx.
      specialize (Hw t x Hx). lia.
    + destruct H4 as (Ha & _ & Hcl). split; [done |]. split.
      * right. split; [done |]. intros Hc'. intros t x Hx. specialize (Hw t x Hx).
        assert (a <= ts); [| lia]. apply Hcl; [done |]. by exists l.
      * intros Hc' k [_ Hk]%Hq. by apply Hcl.
Qed.

Lemma inv_new h : Inv (TransactionManager_new h) ∅.
Proof.
  constructor; try done. cbn. split; [| lia]. destruct h as [id |]; [| lia]. unfold wrapu.
  apply Z.mod_pos_bound. lia.
Qed.

(** A transaction that begins now has a snapshot after everything decided so far. *)
Lemma inv_begin m g t lvl lsn :
  Inv m g -> t = next_txn_id m -> next_txn_id m + 1 < 2 ^ 64 -> next_ts m + 1 < 2 ^ 64 ->
  Inv (set_active (<[t := Transaction_new t lvl lsn (next_ts m)]> (active m)) (bump_ts (bump_txn_id m))) g.
Proof.
  intros [H1 [H2 H2'] H3 H4] -> Hid Hts.
  assert (Ei : next_txn_id (bump_txn_id m) = next_txn_id m + 1).
  { cbn. unfold wrapu. by rewrite Z.mod_small by lia. }
  assert (Et : wrapu 64 (next_ts m + 1) = next_ts m + 1).
  { unfold wrapu. by rewrite Z.mod_small by lia. }
  assert (Hb : forall ts, ts <= next_ts m -> before_all m ts ->
    before_all (set_active (<[next_txn_id m := Transaction_new (next_txn_id m) lvl lsn (next_ts m)]> (active m))
                  (bump_ts (bump_txn_id m))) ts).
  { intros ts Hle Hbe t x. cbn. destruct (decide (t = next_txn_id m)) as [-> | Hne].
    - rewrite lookup_insert_eq. by intros [= <-].
    - rewrite lookup_insert_ne by done. apply Hbe. }
  constructor; cbn [set_active bump_ts bump_txn_id active next_txn_id next_ts version_store] in *; rewrite ?Ei, ?Et in *.
  - intros t x. destruct (decide (t = next_txn_id m)) as [-> | Hne].
    + rewrite lookup_insert_eq. intros [= <-]. cbn. lia.
    + rewrite lookup_insert_ne by done. intros Hx. destruct (H1 t x Hx). lia.
  - lia.
  - done.
  - intros rid. specialize (H4 rid). unfold row_inv in *. cbv zeta in *.
    cbn [set_active bump_ts bump_txn_id active next_txn_id next_ts version_store].
    destruct (g !! rid) as [[t cl | c ts | a cl] |]; [| | | done].
    + destruct H4 as ([x Hx] & Hch & Hws & Hcl). split; [| done].
      destruct (decide (t = next_txn_id m)) as [-> |]; [rewrite lookup_insert_eq | rewrite lookup_insert_ne by done]; by eexists.
    + destruct H4 as (Hc & Ha & Ht & Hor). rewrite Ei, Et. split; [lia |].
      split; [rewrite lookup_insert_ne by lia; done |]. split; [lia |].
      destruct Hor as [? | [? ?]]; [by left | right]. split; [done |]. apply Hb; [lia | done].
    + destruct H4 as (Ha & Hor & Hcl). rewrite Et. split; [lia |]. split; [| done].
      destruct Hor as [? | [? ?]]; [by left | right]. split; [done |]. intros Hc. apply Hb; [lia | auto].
Qed.

(** Changing the state of running transactions only. *)
Lemma inv_set_state m g st t :
  Inv m g -> Inv (set_active (alter (set_state st) t (active m)) m) g.
Proof.
  intros [H1 H2 H3 H4].
  assert (Hl : forall u x, alter (set_state st) t (active m) !! u = Some x ->
                 exists y, active m !! u = Some y /\ read_ts x = read_ts y).
  { intros u x Hx. destruct (decide (u = t)) as [-> | Hne].
    - rewrite lookup_alter_eq in Hx. apply fmap_Some in Hx as (y & ? & ->). by exists y.
    - rewrite lookup_alter_ne in Hx by done. by exists x. }
  assert (Hs : forall u, is_Some (active m !! u) <-> is_Some (alter (set_state st) t (active m) !! u)).
  { intros u. destruct (decide (u = t)) as [-> |]; [rewrite lookup_alter_eq, fmap_is_Some; done |].
    by rewrite lookup_alter_ne. }
  assert (Hb : forall ts, before_all m ts -> before_all (set_active (alter (set_state st) t (active m)) m) ts).
  { intros ts Hbe u x (y & Hy & ->)%Hl. by eapply Hbe. }
  constructor; cbn [set_active active next_txn_id next_ts version_store]; [| done | done |].
  - intros u x (y & Hy & ->)%Hl. by apply H1.
  - intros rid. specialize (H4 rid). unfold row_inv in *. cbv zeta in *.
    cbn [set_active active next_txn_id next_ts version_store].
    destruct (g !! rid) as [[u cl | c ts | a cl] |]; [| | | done].
    + destruct H4 as (Ha & Hr). split; [by apply Hs | done].
    + destruct H4 as (Hc & Ha & Ht & Hor). split; [done |]. split.
      { apply eq_None_not_Some. rewrite <- Hs. by rewrite Ha, <- eq_None_not_Some. }
      split; [done |]. naive_solver.
    + destruct H4 as (Ha & Hor & Hcl). split; [done |]. split; [| done]. naive_solver.
Qed.

Lemma queued_record v t rid r k : queued (record_insert t rid v) r k <-> queued v r k.
Proof. done. Qed.

Lemma inv_insert m g t rid x :
  Inv m g -> active m !! t = Some x ->
  (forall st, g !! rid = Some st -> exists a c, st = RolledBack a c) ->
  Inv (set_versions (record_insert t rid (version_store m)) m)
      (<[rid := Pending t (unqueued (version_store m) rid)]> g).
Proof.
  intros [H1 H2 H3 H4] Hx Hfree.
  assert (Hchain : default [] (chains (version_store m) !! rid) = []).
  { specialize (H4 rid). destruct (g !! rid) as [st |] eqn:E.
    - destruct (Hfree st eq_refl) as (a & c & ->). cbn in H4. destruct H4 as (_ & [[-> _] | [-> _]] & _); done.
    - cbn in H4. by rewrite H4. }
  constructor; cbn [set_versions active next_txn_id next_ts version_store]; [done | done | |].
  - intros u l r Hl Hr. cbn in Hl. destruct (decide (r = rid)) as [-> | Hne].
    + rewrite lookup_insert_eq. destruct (decide (u = t)) as [-> | Hu]; [by eexists |].
      rewrite lookup_insert_ne in Hl by done. destruct (H3 u l rid Hl Hr) as [c Hc].
      destruct (Hfree _ Hc) as (? & ? & ?). done.
    + rewrite lookup_insert_ne by done. destruct (decide (u = t)) as [-> | Hu].
      * rewrite lookup_insert_eq in Hl. injection Hl as <-. apply elem_of_app in Hr as [Hr | Hr].
        -- destruct (write_sets (version_store m) !! t) as [l |] eqn:E; [by eapply H3 | by apply elem_of_nil in Hr].
        -- by apply list_elem_of_singleton in Hr.
      * rewrite lookup_insert_ne in Hl by done. by eapply H3.
  - intros r. destruct (decide (r = rid)) as [-> | Hne].
    + rewrite lookup_insert_eq. unfold row_inv. cbv zeta. cbn. split; [by eexists |].
      split; [rewrite lookup_insert_eq; unfold push; by rewrite Hchain |].
      split; [eexists; split; [apply lookup_insert_eq |]; rewrite elem_of_app; right; by apply list_elem_of_singleton |].
      intros Hu k Hk. by apply (proj1 (unqueued_spec _ _) Hu k).
    + rewrite lookup_insert_ne by done. specialize (H4 r). unfold row_inv in *. cbv zeta in *.
      cbn [set_versions active next_txn_id next_ts version_store record_insert chains write_sets].
      rewrite lookup_insert_ne by done. destruct (g !! r) as [[u cl | c ts | a cl] |]; [| | | done].
      * destruct H4 as (Ha & Hch & (l & Hl & Hr) & Hcl). split; [done |]. split; [done |]. split; [| done].
        destruct (decide (u = t)) as [-> | Hu].
        -- eexists. rewrite lookup_insert_eq. split; [done |]. rewrite Hl. apply elem_of_app. by left.
        -- exists l. by rewrite lookup_insert_ne.
      * done.
      * done.
Qed.

(** Ending a transaction, either way: its rows leave their pending state together, and no
    other row is touched. *)
Lemma inv_end m g t x v' f ts nts :
  let rids := default [] (write_sets (version_store m) !! t) in
  let m' := mkManager (delete t (active m)) (next_txn_id m) (lock_manager m) v' nts in
  Inv m g -> active m !! t = Some x -> next_ts m <= nts ->
  (forall rid, rid ∉ rids -> chains v' !! rid = chains (version_store m) !! rid) ->
  (forall u, write_sets v' !! u = if decide (u = t) then None else write_sets (version_store m) !! u) ->
  (forall rid k, queued v' rid k <-> queued (version_store m) rid k \/ (k = ts /\ rid ∈ rids)) ->
  (forall rid c, g !! rid = Some (Pending t c) -> rid ∈ rids -> row_inv m' rid (Some (f c))) ->
  Inv m' (end_rows t f g).
Proof.
  intros rids m' [H1 H2 H3 H4] Hx Hts Hch Hws Hq Hend. subst m'.
  assert (Hrids : forall rid, rid ∈ rids -> exists c, g !! rid = Some (Pending t c)).
  { intros rid Hr. unfold rids in Hr. destruct (write_sets (version_store m) !! t) as [l |] eqn:E.
    - by eapply H3.
    - by apply elem_of_nil in Hr. }
  assert (Hb : forall a, before_all m a ->
    before_all (mkManager (delete t (active m)) (next_txn_id m) (lock_manager m) v' nts) a).
  { intros a Hbe u y. cbn. intros [_ Hy]%lookup_delete_Some. by eapply Hbe. }
  constructor; cbn [active next_txn_id next_ts version_store].
  - intros u y [_ Hy]%lookup_delete_Some. destruct (H1 u y Hy). lia.
  - lia.
  - intros u l rid Hl Hr. rewrite Hws in Hl. case_decide as Hu; [done |].
    destruct (H3 u l rid Hl Hr) as [c Hc]. exists c. rewrite end_rows_lookup, Hc. by rewrite decide_False.
  - intros rid. rewrite end_rows_lookup. pose proof (H4 rid) as Hrow.
    destruct (g !! rid) as [[u cl | c tc | a cl] |] eqn:Eg.
    + destruct Hrow as (Ha & Hc & (l & Hl & Hr) & Hcl). destruct (decide (u = t)) as [-> | Hu].
      * apply Hend; [done |]. unfold rids. by rewrite Hl.
      * assert (Hn : rid ∉ rids) by (intros (c & ?)%Hrids; congruence).
        unfold row_inv. cbv zeta. cbn [active version_store]. rewrite lookup_delete_ne, Hch by done.
        split; [done |]. split; [done |]. split; [exists l; rewrite Hws; by rewrite decide_False |].
        intros Hc' k [Hk | [_ ?]]%Hq; [by apply (Hcl Hc' k) | done].
    + assert (Hn : rid ∉ rids) by (intros (? & ?)%Hrids; congruence).
      destruct Hrow as (Hc & Ha & Ht & Hor). unfold row_inv. cbv zeta. cbn [active version_store next_txn_id next_ts].
      rewrite Hch by done. split; [done |]. split; [rewrite lookup_delete_ne by congruence; done |].
      split; [lia |]. destruct Hor as [[? ?] | [? ?]]; [left | right; auto].
      split; [done |]. apply Hq. by left.
    + assert (Hn : rid ∉ rids) by (intros (? & ?)%Hrids; congruence).
      destruct Hrow as (Ha & Hor & Hcl). unfold row_inv. cbv zeta. cbn [active version_store next_ts].
      rewrite Hch by done. split; [lia |]. split.
      * destruct Hor as [[? ?] | [? ?]]; [left; split; [done | apply Hq; by left] | right; auto].
      * intros Hc k [Hk | [_ ?]]%Hq; [by apply Hcl | done].
    + assert (Hn : rid ∉ rids) by (intros (? & ?)%Hrids; congruence).
      unfold row_inv. cbv zeta. cbn [version_store]. by rewrite Hch.
Qed.

Lemma inv_commit m g t x :
  Inv m g -> active m !! t = Some x -> next_ts m + 1 < 2 ^ 64 ->
  Inv (set_active (delete t (active m)) (set_versions (commit_versions t (next_ts m) (version_store m)) (bump_ts m)))
      (end_rows t (fun _ => Committed t (next_ts m)) g).
Proof.
  intros H Hx Hts. pose proof (inv_counters _ _ H) as [_ Hn].
  assert (Et : wrapu 64 (next_ts m + 1) = next_ts m + 1) by (unfold wrapu; by rewrite Z.mod_small by lia).
  unfold set_active, set_versions, bump_ts. cbn [active next_txn_id lock_manager version_store next_ts].
  rewrite Et. set (v := version_store m). set (rids := default [] (write_sets v !! t)).
  assert (Hq : forall rid k, queued (commit_versions t (next_ts m) v) rid k
                 <-> queued v rid k \/ (k = next_ts m /\ rid ∈ rids)).
  { intros rid k. unfold commit_versions, rids. destruct (write_sets v !! t) as [l |]; [apply queued_enrol |].
    rewrite elem_of_nil. naive_solver. }
  assert (Hch : forall rid, chains (commit_versions t (next_ts m) v) !! rid
    = if decide (rid ∈ rids) then mark_committed t (next_ts m) <$> chains v !! rid else chains v !! rid).
  { intros rid. unfold commit_versions, rids. destruct (write_sets v !! t) as [l |]; [apply commit_loop_lookup |].
    rewrite decide_False; [done | apply not_elem_of_nil]. }
  apply (inv_end m g t x _ _ (next_ts m)); [done | done | lia | | | exact Hq |].
  - intros rid Hr. rewrite Hch. by rewrite decide_False.
  - intros u. unfold commit_versions. fold v. destruct (write_sets v !! t) as [l |] eqn:E; cbn [write_sets].
    + case_decide; [subst; apply lookup_delete_eq | by rewrite lookup_delete_ne].
    + case_decide; [by subst | done].
  - intros rid c Hc Hr. pose proof (inv_rows _ _ H rid) as Hrow. rewrite Hc in Hrow.
    destruct Hrow as (_ & Hchain & _). unfold row_inv. cbv zeta. cbn [active version_store next_txn_id next_ts].
    split; [by apply (inv_ids _ _ H t x) |]. split; [apply lookup_delete_eq |]. split; [lia |]. left.
    rewrite Hch, decide_True by done. fold v in Hchain. rewrite Hchain. cbn. rewrite Z.eqb_refl.
    split; [done |]. apply Hq. by right.
Qed.

Lemma inv_abort m g t x :
  Inv m g -> active m !! t = Some x ->
  Inv (set_versions (abort_versions t (next_ts m) (version_store m)) (set_active (delete t (active m)) m))
      (end_rows t (RolledBack (next_ts m)) g).
Proof.
  intros H Hx. unfold set_active, set_versions. cbn [active next_txn_id lock_manager version_store next_ts].
  set (v := version_store m). set (rids := default [] (write_sets v !! t)).
  assert (Hpend : forall rid, rid ∈ rids -> exists c, g !! rid = Some (Pending t c)
                    /\ chains v !! rid = Some [mkEntry t None None]).
  { intros rid Hr. unfold rids in Hr. destruct (write_sets v !! t) as [l |] eqn:E; [| by apply elem_of_nil in Hr].
    destruct (inv_write_sets _ _ H t l rid E Hr) as [c Hc]. exists c. split; [done |].
    pose proof (inv_rows _ _ H rid) as Hrow. rewrite Hc in Hrow. by destruct Hrow as (_ & ? & _). }
  assert (Hone : remove_creator t [mkEntry t None None] = []).
  { unfold remove_creator. by rewrite filter_cons_False by (cbn; congruence). }
  assert (Hfacts : (forall rid, chains (abort_versions t (next_ts m) v) !! rid
                     = if decide (rid ∈ rids) then Some [] else chains v !! rid)
    /\ (forall rid k, queued (abort_versions t (next_ts m) v) rid k
          <-> queued v rid k \/ (k = next_ts m /\ rid ∈ rids))
    /\ (forall u, write_sets (abort_versions t (next_ts m) v) !! u
          = if decide (u = t) then None else write_sets v !! u)).
  { unfold abort_versions, rids in *. destruct (write_sets v !! t) as [l |] eqn:E.
    - change (default [] (Some l)) with l in *. pose proof (abort_loop_spec t l (chains v) []) as Ha.
      destruct (abort_loop t l (chains v) []) as [mm emptied]. destruct Ha as [Hm He].
      cbn [chains write_sets prune_candidates]. split; [| split].
      + intros rid. rewrite Hm. case_decide as Hin; [| done].
        destruct (Hpend rid Hin) as (c & _ & ->). cbn [fmap option_fmap option_map]. by rewrite Hone.
      + assert (Hem : forall rid, rid ∈ emptied <-> rid ∈ l).
        { intros rid. rewrite He, elem_of_nil. split; [naive_solver |]. intros Hin. right. split; [done |].
          destruct (Hpend rid Hin) as (c & _ & ->). cbn [fmap option_fmap option_map]. by rewrite Hone. }
        intros rid k. rewrite <- Hem. destruct emptied as [| r emptied]; [| apply queued_enrol].
        rewrite elem_of_nil. naive_solver.
      + intros u. case_decide; [subst; apply lookup_delete_eq | by rewrite lookup_delete_ne].
    - split; [| split].
      + intros rid. rewrite decide_False; [done | apply not_elem_of_nil].
      + intros rid k. rewrite elem_of_nil. naive_solver.
      + intros u. case_decide; [by subst | done]. }
  destruct Hfacts as (Hch & Hq & Hws).
  apply (inv_end m g t x _ _ (next_ts m)); [done | done | lia | | exact Hws | exact Hq |].
  - intros rid Hr. rewrite Hch. by rewrite decide_False.
  - intros rid c Hc Hr. pose proof (inv_rows _ _ H rid) as Hrow. rewrite Hc in Hrow.
    destruct Hrow as (_ & _ & _ & Hcl). unfold row_inv. cbv zeta. cbn [active version_store next_ts].
    split; [lia |]. rewrite Hch, decide_True by done. split; [left; split; [done | apply Hq; by right] |].
    intros Hc' k [Hk | [-> _]]%Hq; [| lia]. by destruct (Hcl Hc' k).
Qed.

(** ** Every reachable state *)

(** The manager after a successful commit. *)
Definition committed_mgr (t : TxnId) (m : TransactionManager) : TransactionManager :=
  retire t (set_active (delete t (active m))
    (set_versions (commit_versions t (next_ts m) (version_store m)) (bump_ts m))).

Lemma append_works t k (s : Sys P) :
  exists lsn p, on_pool (append_log t k) s = (Ok lsn, mkSys (mgr s) p).
Proof.
  unfold on_pool. destruct (append_log_works t k (pool s)) as (lsn & p & ->). by exists lsn, p.
Qed.

Lemma on_pool_mgr {A} (f : M P Storage.Error A) (s : Sys P) o s' : on_pool f s = (o, s') -> mgr s' = mgr s.
Proof. unfold on_pool. destruct (f (pool s)) as [[] p]; by intros [= <- <-]. Qed.

(** A commit either succeeds as a whole or leaves the manager alone. *)
Lemma commit_cases t (s : Sys P) :
  (exists x p, active (mgr s) !! t = Some x /\ state x = Growing
     /\ commit t s = (Ok tt, mkSys (committed_mgr t (mgr s)) p))
  \/ (exists o p, o <> Ok tt /\ commit t s = (o, mkSys (mgr s) p)).
Proof.
  unfold commit, mbind, M_bind, gets, throw. destruct (active (mgr s) !! t) as [x |] eqn:Ex.
  2: { right. eexists _, (pool s). split; [| by destruct s]. done. }
  destruct (decide (state x = Aborted)) as [Ea | Ea].
  { right. eexists _, (pool s). split; [| by destruct s]. done. }
  destruct (append_works t Commit s) as (lsn & p & ->).
  destruct (on_pool (flush_log lsn) (mkSys (mgr s) p)) as [o s'] eqn:Ef.
  apply on_pool_mgr in Ef. destruct s' as [m p']. cbn [mgr] in Ef. subst m.
  destruct o as [[] | e |]; [| right; eexists _, p'; split; [| reflexivity]; done .. ].
  unfold next_timestamp, mbind, M_bind, gets, on_mgr, modify, mret, M_ret. cbn [mgr pool].
  match goal with |- context [on_pool (append_log t EndTxn) ?x] =>
    destruct (append_works t EndTxn x) as (lsn' & p'' & ->) end.
  left. exists x, p''. split; [done |]. split; [by destruct (state x) | done].
Qed.

Lemma inv_retire m g t : Inv m g -> Inv (retire t m) g.
Proof. intros H. unfold retire. by apply inv_set_locks, inv_set_locks, inv_prune. Qed.

Lemma step_inv s g s' g' : step (s, g) (s', g') -> Inv (mgr s) g -> Inv (mgr s') g'.
Proof.
  intros Hstep H. inversion Hstep; subst; clear Hstep.
  - unfold begin, next_timestamp, mbind, M_bind, gets, on_mgr, modify, mret, M_ret. cbn [mgr pool].
    match goal with |- context [on_pool (append_log ?t Begin) ?x] =>
      destruct (append_works t Begin x) as (lsn & p & ->) end.
    cbn. by apply (inv_begin (mgr s) g').
  - cbn. by eapply inv_insert.
  - destruct (commit_cases t s) as [(x & p & Hx & Hs & E) | (o & p & Ho & E)];
      match goal with Hc : commit t s = (_, s') |- _ => rewrite E in Hc; simplify_eq end.
    cbn. by eapply inv_retire, inv_commit.
  - destruct (commit_cases t s) as [(x & p & Hx & Hs & E) | (o & p & Ho & E)];
      match goal with Hc : commit t s = (_, s') |- _ => rewrite E in Hc; simplify_eq end.
    done.
  - unfold begin_abort, mbind, M_bind, gets, throw. destruct (active (mgr s) !! t) as [x |] eqn:Ex; [| done].
    destruct (decide (state x = Aborted)); [done |]. cbn.
    replace (<[t := set_state Aborted x]> (active (mgr s))) with (alter (set_state Aborted) t (active (mgr s)));
      [by apply inv_set_state |].
    apply map_eq. intros u. destruct (decide (u = t)) as [-> | Hne].
    + by rewrite lookup_alter_eq, lookup_insert_eq, Ex.
    + by rewrite lookup_alter_ne, lookup_insert_ne.
  - unfold undo. destruct (pending_last_lsn p); [| done]. unfold on_pool.
    by destruct (undo_transaction _ _ _) as [[] ?].
  - unfold finish_abort, mbind, M_bind, gets.
    match goal with Hx : active (mgr s) !! pending_txn_id p = Some x |- _ => rewrite Hx end.
    cbn. eapply inv_retire, inv_abort; done.
  - cbn. by apply inv_set_state.
Qed.

Definition reachable (s : Sys P) (g : Rows) : Prop :=
  exists h p, rtc step (mkSys (TransactionManager_new h) p, ∅) (s, g).

Lemma reached_inv s g : reachable s g -> Inv (mgr s) g.
Proof.
  intros (h & p & Hr).
  remember (mkSys (TransactionManager_new h) p, ∅) as a eqn:Ea. remember (s, g) as b eqn:Eb.
  assert (Hi : Inv (mgr a.1) a.2) by (subst a; by apply inv_new). clear Ea. revert s g Eb.
  induction Hr as [| [s1 g1] [s2 g2] c Hs _ IH]; intros s g ->; [done |].
  apply IH; [| done]. by eapply step_inv.
Qed.

(** ** What happens later *)

Lemma queued_commit t ts v rid k : queued (commit_versions t ts v) rid k -> queued v rid k \/ k = ts.
Proof.
  unfold commit_versions. destruct (write_sets v !! t); [| by left].
  rewrite queued_enrol. naive_solver.
Qed.

Lemma queued_abort t ts v rid k : queued (abort_versions t ts v) rid k -> queued v rid k \/ k = ts.
Proof.
  unfold abort_versions. destruct (write_sets v !! t); [| by left].
  destruct (abort_loop _ _ _ _) as [m [| r rids]]; [by left |]. rewrite queued_enrol. naive_solver.
Qed.

(** What a step does to the counters, the running transactions, the prune queue and the
    rows: a transaction begins, ends (and then the queue is pruned), or neither. *)
Inductive effect (m : TransactionManager) (g : Rows) : TransactionManager -> Rows -> Prop :=
| effect_begin m' level lsn :
    active m' = <[next_txn_id m := Transaction_new (next_txn_id m) level lsn (next_ts m)]> (active m) ->
    next_txn_id m' = next_txn_id m + 1 -> next_ts m' = next_ts m + 1 ->
    version_store m' = version_store m -> effect m g m' g
| effect_run m' g' :
    next_txn_id m' = next_txn_id m -> next_ts m' = next_ts m ->
    prune_candidates (version_store m') = prune_candidates (version_store m) ->
    (forall t, read_ts <$> active m' !! t = read_ts <$> active m !! t) ->
    (g' = g \/ exists t rid c, g' = <[rid := Pending t c]> g
                 /\ forall st, g !! rid = Some st -> exists a c, st = RolledBack a c) ->
    effect m g m' g'
| effect_end t f v n :
    next_ts m <= n ->
    (forall rid k, queued v rid k -> queued (version_store m) rid k \/ k = next_ts m) ->
    (forall b, f b = RolledBack (next_ts m) b \/ f b = Committed t (next_ts m)) ->
    effect m g (retire t (mkManager (delete t (active m)) (next_txn_id m) (lock_manager m) v n)) (end_rows t f g).

Lemma read_ts_alter st t (a : gmap TxnId Transaction) u :
  read_ts <$> alter (set_state st) t a !! u = read_ts <$> a !! u.
Proof.
  destruct (decide (u = t)) as [-> | Hne]; [| by rewrite lookup_alter_ne].
  rewrite lookup_alter_eq. by destruct (a !! t).
Qed.

Lemma bump_small n : 0 <= n -> n + 1 < 2 ^ 64 -> wrapu 64 (n + 1) = n + 1.
Proof. intros ??. unfold wrapu. by rewrite Z.mod_small by lia. Qed.

Lemma step_effect s g s' g' :
  step (s, g) (s', g') -> Inv (mgr s) g -> effect (mgr s) g (mgr s') g'.
Proof.
  intros Hstep H. pose proof (inv_counters _ _ H) as [Hi Ht]. inversion Hstep; subst; clear Hstep.
  - unfold begin, next_timestamp, mbind, M_bind, gets, on_mgr, modify, mret, M_ret. cbn [mgr pool].
    match goal with |- context [on_pool (append_log ?t Begin) ?x] =>
      destruct (append_works t Begin x) as (lsn & p & ->) end.
    eapply (effect_begin _ _ _ level lsn); cbn; [done | by apply bump_small .. | done].
  - apply effect_run; try done. right. by eexists _, _, _.
  - destruct (commit_cases t s) as [(x & p & Hx & Hs & E) | (o & p & Ho & E)];
      match goal with Hc : commit t s = (_, s') |- _ => rewrite E in Hc; simplify_eq end.
    unfold committed_mgr, set_active, set_versions, bump_ts.
    cbn [mgr active next_txn_id lock_manager version_store next_ts].
    apply (effect_end _ _ t _ (commit_versions t (next_ts (mgr s)) (version_store (mgr s))) (wrapu 64 (next_ts (mgr s) + 1))).
    + rewrite bump_small; lia.
    + intros rid k. apply queued_commit.
    + by right.
  - destruct (commit_cases t s) as [(x & p & Hx & Hs & E) | (o & p & Ho & E)];
      match goal with Hc : commit t s = (_, s') |- _ => rewrite E in Hc; simplify_eq end.
    apply effect_run; try done. by left.
  - unfold begin_abort, mbind, M_bind, gets, throw. destruct (active (mgr s) !! t) as [x |] eqn:Ex.
    2: { apply effect_run; try done. by left. }
    destruct (decide (state x = Aborted)); [apply effect_run; try done; by left |].
    apply effect_run; try done; [| by left]. intros u. cbn. destruct (decide (u = t)) as [-> | Hne].
    + by rewrite lookup_insert_eq, Ex.
    + by rewrite lookup_insert_ne.
  - assert (E : mgr (undo p s).2 = mgr s).
    { unfold undo. destruct (pending_last_lsn p); [| done].
      destruct (on_pool _ s) as [o s'] eqn:E. by apply on_pool_mgr in E. }
    rewrite E. apply effect_run; try done. by left.
  - unfold finish_abort, mbind, M_bind, gets.
    match goal with Hx : active (mgr s) !! pending_txn_id p = Some x |- _ => rewrite Hx end.
    unfold on_mgr, modify, set_active, set_versions. cbn [mgr pool snd active next_txn_id lock_manager version_store next_ts].
    apply (effect_end _ _ _ _ (abort_versions (pending_txn_id p) (next_ts (mgr s)) (version_store (mgr s))) (next_ts (mgr s))).
    + lia.
    + intros rid k. apply queued_abort.
    + by left.
  - apply effect_run; try done; [| by left]. intros u. apply read_ts_alter.
Qed.

(** How a state relates to those that follow it. *)
Record later (m : TransactionManager) (g : Rows) (m' : TransactionManager) (g' : Rows) : Prop := {
  later_ids : next_txn_id m <= next_txn_id m';
  later_ts : next_ts m <= next_ts m';
  later_active : forall t x', active m' !! t = Some x' -> next_txn_id m <= t
                   \/ exists x, active m !! t = Some x /\ read_ts x = read_ts x';
  later_committed : forall rid c ts, g !! rid = Some (Committed c ts) -> g' !! rid = Some (Committed c ts);
  later_new : forall rid c ts, g' !! rid = Some (Committed c ts) ->
                g !! rid = Some (Committed c ts) \/ next_ts m <= ts;
}.

Lemma later_refl m g : later m g m g.
Proof. constructor; try done; [| by left]. intros t x Hx. right. by exists x. Qed.

Lemma later_trans m g m1 g1 m2 g2 : later m g m1 g1 -> later m1 g1 m2 g2 -> later m g m2 g2.
Proof.
  intros [A1 A2 A3 A4 A5] [B1 B2 B3 B4 B5]. constructor; [lia | lia | | by auto |].
  - intros t x [Hle | (y & Hy & <-)]%B3; [left; lia | by apply A3].
  - intros rid c ts [Hc | Hle]%B5; [by apply A5 | right; lia].
Qed.

Lemma effect_later m g m' g' : effect m g m' g' -> later m g m' g'.
Proof.
  intros [m1 level lsn Ha Hi Ht Hv | m1 g1 Hi Ht Hv Ha Hg | t f v n Hn Hq Hf].
  - constructor; try lia; [| done | by left]. intros t x. rewrite Ha.
    intros [[<- <-] | [Hne Hx]]%lookup_insert_Some; [left; lia | right; by exists x].
  - constructor; try lia.
    + intros t x Hx. right. specialize (Ha t). rewrite Hx in Ha. cbn in Ha.
      symmetry in Ha. apply fmap_Some in Ha as (y & Hy & E). by exists y.
    + intros rid c ts Hc. destruct Hg as [-> | (t & r & b & -> & Hfree)]; [done |].
      rewrite lookup_insert_ne; [done |]. intros ->. by destruct (Hfree _ Hc) as (? & ? & ?).
    + intros rid c ts. destruct Hg as [-> | (t & r & b & -> & Hfree)]; [by left |].
      intros [[_ ?] | [_ ?]]%lookup_insert_Some; [done | by left].
  - constructor; cbn [retire set_locks set_versions next_txn_id next_ts active]; try lia.
    + intros u x [_ Hx]%lookup_delete_Some. right. by exists x.
    + intros rid c ts Hc. by rewrite end_rows_lookup, Hc.
    + intros rid c ts. rewrite end_rows_lookup. destruct (g !! rid) as [[u b | c' ts' | a b] |]; try done; [| by left].
      case_decide; [| done]. intros [= E]. destruct (Hf b) as [E' | E']; rewrite E' in E; simplify_eq. right. lia.
Qed.

Lemma steps_later s g s' g' : rtc step (s, g) (s', g') -> Inv (mgr s) g ->
  later (mgr s) g (mgr s') g' /\ Inv (mgr s') g'.
Proof.
  intros Hr. remember (s, g) as a eqn:Ea. remember (s', g') as b eqn:Eb. revert s g Ea.
  induction Hr as [? | ? [s1 g1] ? Hs _ IH]; intros s g -> Hi.
  - simplify_eq. split; [apply later_refl | done].
  - destruct (IH Eb s1 g1 eq_refl) as [Hl Hi']; [by eapply step_inv |]. split; [| done].
    eapply later_trans; [by apply effect_later, step_effect | done].
Qed.

(** ** Nothing is left behind *)
Lemma oldest_read_ts_attained m :
  oldest_active_read_ts m = next_ts m
  \/ exists t x, active m !! t = Some x /\ read_ts x = oldest_active_read_ts m.
Proof.
  unfold oldest_active_read_ts. destruct ((fun e => read_ts e.2) <$> map_to_list (active m)) as [| y l] eqn:E; [by left |].
  right. cbn [min_or].
  assert (Hin : fold_left Z.min l y ∈ (fun e : TxnId * Transaction => read_ts e.2) <$> map_to_list (active m)).
  { rewrite E. destruct (fold_min_elem l y) as [-> | ?]; [left; done | by right]. }
  apply list_elem_of_fmap in Hin as ([t x] & E' & Hx%elem_of_map_to_list). by exists t, x.
Qed.

Definition queue_inv (m : TransactionManager) : Prop :=
  forall rid k, queued (version_store m) rid k -> oldest_active_read_ts m < k <= next_ts m.

Lemma queue_inv_keep m m' :
  queue_inv m -> next_ts m <= next_ts m' ->
  prune_candidates (version_store m') = prune_candidates (version_store m) ->
  (forall t x, active m !! t = Some x -> exists x', active m' !! t = Some x' /\ read_ts x' = read_ts x) ->
  queue_inv m'.
Proof.
  intros H Ht Hq Ha rid k Hk. unfold queued in Hk. rewrite Hq in Hk. specialize (H rid k Hk).
  split; [| lia]. destruct (oldest_read_ts_attained m) as [? | (t & x & Hx & E)]; [lia |].
  destruct (Ha t x Hx) as (x' & Hx' & E'). pose proof (oldest_read_ts_le m' t x' Hx'). lia.
Qed.

Lemma effect_queue m g m' g' : effect m g m' g' -> Inv m g -> queue_inv m -> queue_inv m'.
Proof.
  intros [m1 level lsn Ha Hi Ht Hv | m1 g1 Hi Ht Hv Ha Hg | t f v n Hn Hq Hf] H Hinv.
  - apply (queue_inv_keep m); [done | lia | by rewrite Hv |]. intros t x Hx. exists x. split; [| done].
    rewrite Ha, lookup_insert_ne; [done |]. destruct (inv_ids _ _ H t x Hx). lia.
  - apply (queue_inv_keep m); [done | lia | done |]. intros t x Hx. specialize (Ha t). rewrite Hx in Ha.
    by apply fmap_Some in Ha as (y & Hy & E); exists y.
  - intros rid k (l & Hl & Hr). unfold retire in Hl. cbn [set_locks set_versions version_store] in Hl.
    set (w := oldest_active_read_ts _) in Hl.
    destruct (prune_spec w v) as (_ & Hp & _). rewrite Hp in Hl. case_decide as Hw; [done |].
    assert (Hk : queued v rid k) by (by exists l).
    cbn [retire set_locks set_versions next_ts]. split.
    + change (oldest_active_read_ts _) with w. lia.
    + apply Hq in Hk as [Hk%Hinv | ->]; lia.
Qed.

Lemma reachable_queue s g : reachable s g -> queue_inv (mgr s).
Proof.
  intros (h & p & Hr).
  assert (Hgen : forall a b, rtc step a b -> Inv (mgr a.1) a.2 -> queue_inv (mgr a.1) -> queue_inv (mgr b.1)).
  { intros a b Hab. induction Hab as [| [s1 g1] [s2 g2] c Hs _ IH]; [done |]. cbn. intros Hi Hq.
    apply IH; [by eapply step_inv |]. by eapply effect_queue; [apply step_effect |..]. }
  apply (Hgen _ _ Hr); [by apply inv_new |]. intros rid k (l & Hl & _). done.
Qed.
End snapshot.

(** ** Properties *)
Lemma inv_visibility m g reader x rid :
  Inv m g -> active m !! reader = Some x ->
  let seen := is_visible_to (version_store m) rid reader (read_ts x) in
  match g !! rid with
  | None => seen = true
  | Some (RolledBack a clean) =>
      seen = false \/ (chains (version_store m) !! rid = None /\ (clean = true -> before_all m a))
  | Some st => seen = sees st reader (read_ts x)
  end.
Proof.
  intros Hi Hx. cbv zeta. pose proof (inv_rows _ _ Hi rid) as Hrow. unfold is_visible_to.
  destruct (g !! rid) as [[t c | t ts | a c] |]; cbn [row_inv sees] in Hrow |- *.
  - destruct Hrow as (_ & -> & _). unfold visible_version_for. cbn. by destruct (t =? reader).
  - destruct Hrow as (_ & Ha & _ & [[-> _] | [-> Hb]]).
    + unfold visible_version_for. cbn. destruct (Z.eqb_spec t reader) as [-> | _]; [congruence |]. cbn.
      by destruct (ts <=? read_ts x).
    + symmetry. apply Z.leb_le. by eapply Hb.
  - by destruct Hrow as (_ & [[-> _] | [-> Hb]] & _); [left | right].
  - by rewrite Hrow.
Qed.

Section properties.
Context {P : Type} `{!PoolOps P}.



(** Nothing accumulates: whenever no transaction is running, the version store holds no
    chain and no row waits to be pruned or belongs to a write set. *)
Theorem idle_store_is_empty (s : Sys P) g :
  reachable s g -> active (mgr s) = ∅ ->
  chains (version_store (mgr s)) = ∅
  /\ (forall rid k, ~ queued (version_store (mgr s)) rid k)
  /\ (forall t l rid, write_sets (version_store (mgr s)) !! t = Some l -> rid ∉ l).
Proof.
  intros Hr Ha. pose proof (reached_inv _ _ Hr) as Hi. pose proof (reachable_queue _ _ Hr) as Hq.
  assert (Ho : oldest_active_read_ts (mgr s) = next_ts (mgr s)).
  { unfold oldest_active_read_ts. by rewrite Ha, map_to_list_empty. }
  assert (Hnq : forall rid k, ~ queued (version_store (mgr s)) rid k) by (intros rid k Hk%Hq; lia).
  split; [| split; [done |]].
  - apply map_eq. intros rid. rewrite lookup_empty. pose proof (inv_rows _ _ Hi rid) as Hrow.
    destruct (g !! rid) as [[t c | t ts | a c] |]; cbn in Hrow.
    + destruct Hrow as ([x Hx] & _). by rewrite Ha in Hx.
    + destruct Hrow as (_ & _ & _ & [[_ ?%Hnq] | [? _]]); done.
    + destruct Hrow as (_ & [[_ ?%Hnq] | [? _]] & _); done.
    + done.
  - intros t l rid Hl Hrid. destruct (inv_write_sets _ _ Hi t l rid Hl Hrid) as [c Hc].
    pose proof (inv_rows _ _ Hi rid) as Hrow. rewrite Hc in Hrow. destruct Hrow as ([x Hx] & _).
    by rewrite Ha in Hx.
Qed.

End properties.

(** ** A sample run *)

(** The least pool: a log that only counts its records. *)
#[refine] Instance counting_pool : PoolOps Z := {|
  append_log _ _ p := (Ok p, p + 1);
  flush_log _ p := (Ok tt, p);
  last_lsn _ _ := None;
  undo_transaction _ _ p := (Ok tt, p);
|}.
Proof. intros t k p. by exists p, (p + 1). Defined.

Definition row_a : Rid := mkRid 1 0.
Definition row_b : Rid := mkRid 1 1.

(** Transaction 0 inserts [row_a] and commits; 1 then begins; 2 inserts [row_b] and commits
    while 1 runs. *)
Definition run1 : Sys Z := (begin SnapshotIsolation (mkSys (TransactionManager_new None) 0)).2.
Definition run2 : Sys Z := record_row 0 row_a run1.
Definition run3 : Sys Z := (commit 0 run2).2.
Definition run4 : Sys Z := (begin SnapshotIsolation run3).2.
Definition run5 : Sys Z := (begin SnapshotIsolation run4).2.
Definition run6 : Sys Z := record_row 2 row_b run5.
Definition run7 : Sys Z := (commit 2 run6).2.
Definition rows2 : Rows := <[row_a := Pending 0 (unqueued (version_store (mgr run1)) row_a)]> ∅.
Definition rows3 : Rows := end_rows 0 (fun _ => Committed 0 (next_ts (mgr run2))) rows2.
Definition rows6 : Rows := <[row_b := Pending 2 (unqueued (version_store (mgr run5)) row_b)]> rows3.
Definition rows7 : Rows := end_rows 2 (fun _ => Committed 2 (next_ts (mgr run6))) rows6.

Lemma run4_reachable : reachable run4 rows3.
Proof.
  exists None, 0.
  eapply rtc_l; [apply step_begin; vm_compute; done |].
  eapply rtc_l; [eapply (step_insert run1 _ 0 row_a); [vm_compute; reflexivity | done | done] |].
  eapply rtc_l; [apply (step_commit run2 _ 0 run3); [vm_compute; done | vm_compute; reflexivity] |].
  eapply rtc_l; [apply (step_begin run3 _ SnapshotIsolation); vm_compute; done |].
  apply rtc_refl.
Qed.

Lemma run7_later : rtc step (run4, rows3) (run7, rows7).
Proof.
  eapply rtc_l; [apply (step_begin run4 _ SnapshotIsolation); vm_compute; done |].
  eapply rtc_l; [eapply (step_insert run5 _ 2 row_b); [vm_compute; reflexivity | done |] |].
  { intros st. replace (rows3 !! row_b) with (@None RowStatus) by (vm_compute; reflexivity). done. }
  eapply rtc_l; [apply (step_commit run6 _ 2 run7); [vm_compute; done | vm_compute; reflexivity] |].
  apply rtc_refl.
Qed.

Lemma run7_reachable : reachable run7 rows7.
Proof.
  destruct run4_reachable as (h & p & Hr). exists h, p.
  etrans; [exact Hr | exact run7_later].
Qed.



Lemma idle_store_is_empty_witness : chains (version_store (mgr run3)) = ∅.
Proof.
  apply (idle_store_is_empty run3 rows3); [| vm_compute; reflexivity].
  exists None, 0.
  eapply rtc_l; [apply step_begin; vm_compute; done |].
  eapply rtc_l; [eapply (step_insert run1 _ 0 row_a); [vm_compute; reflexivity | done | done] |].
  eapply rtc_l; [apply (step_commit run2 _ 0 run3); [vm_compute; done | vm_compute; reflexivity] |].
  apply rtc_refl.
Defined.

(** ** A slot rolled back twice *)

(** 1 and 3 insert into the same slot and roll back, with 0 and 2 reading; then 0 ends. *)
Definition abort_now (t : TxnId) (s : Sys Z) : Sys Z := (finish_abort (mkPending t None) (begin_abort t s).2).2.
Definition twice2 : Sys Z := (begin SnapshotIsolation run1).2.
Definition twice3 : Sys Z := record_row 1 row_a twice2.
Definition twice4 : Sys Z := abort_now 1 twice3.
Definition twice6 : Sys Z := (begin SnapshotIsolation (begin SnapshotIsolation twice4).2).2.
Definition twice7 : Sys Z := record_row 3 row_a twice6.
Definition twice8 : Sys Z := abort_now 3 twice7.
Definition twice9 : Sys Z := (commit 0 twice8).2.
Definition twice_rows4 : Rows :=
  end_rows 1 (RolledBack (next_ts (mgr (begin_abort 1 twice3).2)))
    (<[row_a := Pending 1 (unqueued (version_store (mgr twice2)) row_a)]> ∅).
Definition twice_rows8 : Rows :=
  end_rows 3 (RolledBack (next_ts (mgr (begin_abort 3 twice7).2)))
    (<[row_a := Pending 3 (unqueued (version_store (mgr twice6)) row_a)]> twice_rows4).

Lemma rtc_step_to (a b b' c : Sys Z * Rows) : step a b -> b = b' -> rtc step b' c -> rtc step a c.
Proof. intros H <- Hr. by eapply rtc_l. Qed.

Lemma twice4_reached : rtc step (run1, ∅) (twice4, twice_rows4).
Proof.
  eapply (rtc_step_to _ _ (twice2, ∅)); [apply (step_begin run1 _ SnapshotIsolation); vm_compute; done | done |].
  eapply rtc_l; [eapply (step_insert twice2 _ 1 row_a); [vm_compute; reflexivity | done | done] |].
  eapply rtc_l; [apply (step_begin_abort twice3 _ 1) |].
  eapply (rtc_step_to _ _ (twice4, twice_rows4));
    [eapply (step_finish_abort (begin_abort 1 twice3).2 _ (mkPending 1 None)); vm_compute; reflexivity
    | vm_compute; reflexivity | apply rtc_refl].
Qed.

Lemma twice8_reached : rtc step (twice4, twice_rows4) (twice8, twice_rows8).
Proof.
  eapply rtc_l; [apply (step_begin twice4 _ SnapshotIsolation); vm_compute; done |].
  eapply (rtc_step_to _ _ (twice6, twice_rows4));
    [apply (step_begin (begin SnapshotIsolation twice4).2 _ SnapshotIsolation); vm_compute; done | done |].
  eapply rtc_l; [eapply (step_insert twice6 _ 3 row_a); [vm_compute; reflexivity | done |] |].
  { intros st. replace (twice_rows4 !! row_a) with (Some (RolledBack 2 true)) by (vm_compute; reflexivity).
    intros [= <-]. by eexists _, _. }
  eapply rtc_l; [apply (step_begin_abort twice7 _ 3) |].
  eapply (rtc_step_to _ _ (twice8, twice_rows8));
    [eapply (step_finish_abort (begin_abort 3 twice7).2 _ (mkPending 3 None)); vm_compute; reflexivity
    | vm_compute; reflexivity | apply rtc_refl].
Qed.

(** C30: The queue entry of an earlier rollback makes the store forget a later one of the same
    slot too soon: here transaction 2, whose snapshot (2) precedes the second rollback (4),
    is told that the rolled-back row is visible. *)
Theorem stale_candidate_forgets_rollback :
  exists s g x, @reachable Z counting_pool s g /\ active (mgr s) !! 2 = Some x
    /\ g !! row_a = Some (RolledBack 4 false) /\ read_ts x < 4
    /\ is_visible_to (version_store (mgr s)) row_a 2 (read_ts x) = true.
Proof.
  exists twice9, (end_rows 0 (fun _ => Committed 0 (next_ts (mgr twice8))) twice_rows8), (mkTxn 2 SnapshotIsolation Growing 2 2).
  split; [| split; [vm_compute; reflexivity |]; split; [vm_compute; reflexivity |]; split; [done | vm_compute; reflexivity]].
  exists None, 0.
  eapply rtc_l; [apply step_begin; vm_compute; done |].
  etrans; [exact twice4_reached |]. etrans; [exact twice8_reached |].
  apply rtc_once, (step_commit twice8 _ 0 twice9); vm_compute; done.
Qed.
