(* ===== verification/SqlLexer.v ===== *)
(** * SQL tokens: crates/sql/src/token.rs, error.rs, lexer.rs, fingerprint.rs

    A statement's text is a valid UTF-8 byte list; the lexer holds the offset it has reached
    and the text from there on. Loops that are not structural take fuel, and running out of
    it is a [Panic], as is slicing the text inside a character: that neither happens is a
    theorem. *)
From Stdlib Require Import SpecFloat Strings.Byte.
From S2P Require Import Prelude Text Value Errors.

(** ** Numbers *)
(** [text.parse()] of a non-empty run of digits as an integer with this maximum *)
Definition parse_int (max : Z) (ds : bytes) : option Z :=
  if parse_digits ds <=? max then Some (parse_digits ds) else None.

(** The bit pattern of the double a [spec_float] of that format denotes. *)
Definition bits_of_spec (f : spec_float) : Z :=
  match f with
  | S754_zero s => if s then 2 ^ 63 else 0
  | S754_infinity s => (if s then 2 ^ 63 else 0) + 2047 * 2 ^ 52
  | S754_nan => 2047 * 2 ^ 52 + 2 ^ 51
  | S754_finite s m e => (if s then 2 ^ 63 else 0) + (Zpos m + (e + 1074) * 2 ^ 52)
  end.
(** The double nearest to [m / 10 ^ k], ties to even, infinity past the range. *)
Definition f64_of_decimal (m : Z) (k : Z) : Z :=
  match m with
  | Zpos p => bits_of_spec (SFdiv 53 1024 (S754_finite false p 0) (S754_finite false (Z.to_pos (10 ^ k)) 0))
  | _ => 0
  end.
(** [text.parse()] of digits, a point and digits as a double *)
Definition parse_f64 (text : bytes) : option Z :=
  let is_point (b : byte) := Z_of_byte b = 46 in
  match list_find is_point text with
  | Some (i, _) =>
      let int := take i text in
      let frac := drop (S i) text in
      Some (f64_of_decimal (parse_digits (int ++ frac)) (len frac))
  | None => None
  end.

(** ** Tokens *)
Module Tok.
Inductive t : Type :=
| Select | TFrom | Where | Insert | Into | Values | As | Create | Table | Index | On
| And | Or | Not | Is | Null | TTrue | TFalse
| Begin | Start | Transaction | Commit | Rollback | Explain
| Identifier (name : bytes)
| IntegerLiteral (v : Z)
| FloatLiteral (bits : Z)
| StringLiteral (s : bytes)
| Param (index : Z)
| Comma | Semicolon | LParen | RParen | Star | Dot | Plus | Minus | Slash
| Eq | NotEq | Lt | LtEq | Gt | GtEq
| Eof.
#[global] Instance eq_dec : EqDecision t.
Proof. solve_decision. Defined.
End Tok.

Record Token : Type := mkToken { kind : Tok.t; tok_offset : Z }.

(** ** error.rs

    [UnexpectedToken] holds the token where the code holds its debug rendering. *)
Inductive SqlError : Type :=
| UnexpectedChar (ch : bytes) (offset : Z)
| UnterminatedString (offset : Z)
| UnexpectedToken (expected : bytes) (found : Tok.t) (offset : Z)
| UnexpectedEof (expected : bytes)
| InvalidNumericLiteral (text : bytes) (offset : Z)
| InvalidParameter (text : bytes) (offset : Z)
| ExplainOfTransactionControl (offset : Z)
| NestedExplain (offset : Z)
| WildcardWithoutFrom (offset : Z)
| UndefinedFunction (name : bytes) (offset : Z).

Definition sql_error_offset (e : SqlError) (source : bytes) : Z :=
  match e with
  | UnexpectedChar _ offset | UnterminatedString offset | UnexpectedToken _ _ offset
  | InvalidNumericLiteral _ offset | InvalidParameter _ offset
  | ExplainOfTransactionControl offset | NestedExplain offset | WildcardWithoutFrom offset
  | UndefinedFunction _ offset => offset
  | UnexpectedEof _ => len source
  end.

(** ** lexer.rs *)
Record Lexer : Type := mkLexer { offset : Z; rest : bytes }.
Definition Lexer_new (input : bytes) : Lexer := mkLexer 0 input.

Definition peek_byte (l : Lexer) : option byte := rest l !! 0%nat.
Definition peek_byte_at (l : Lexer) (delta : nat) : option byte := rest l !! delta.
(** [self.offset += n] *)
Definition skip (n : nat) (l : Lexer) : Lexer := mkLexer (offset l + Z.of_nat n) (drop n (rest l)).

(** Is this offset the start of a character, or the end? *)
Definition at_boundary (l : Lexer) : bool :=
  match rest l with b :: _ => negb (Utf8.cont b) | [] => true end.
(** [&self.input[from.offset..to.offset]] *)
Definition slice (from to : Lexer) : outcome SqlError bytes :=
  if at_boundary from && at_boundary to
  then Ok (take (Z.to_nat (offset to - offset from)) (rest from)) else Panic.
Definition len_utf8 (lead : byte) : nat :=
  if Z_of_byte lead <? 128 then 1 else if Z_of_byte lead <? 224 then 2
  else if Z_of_byte lead <? 240 then 3 else 4.
Definition char_at (l : Lexer) : outcome SqlError bytes :=
  if at_boundary l then
    match peek_byte l with Some b => Ok (take (len_utf8 b) (rest l)) | None => Panic end
  else Panic.

Fixpoint advance_while_loop (pred : byte -> bool) (off : Z) (s : bytes) : Lexer :=
  match s with
  | b :: s' => if pred b then advance_while_loop pred (off + 1) s' else mkLexer off s
  | [] => mkLexer off []
  end.
Definition advance_while (pred : byte -> bool) (l : Lexer) : Lexer :=
  advance_while_loop pred (offset l) (rest l).

Definition peeks (l : Lexer) (b : byte) : bool := bool_decide (peek_byte l = Some b).
Definition peeks_at (l : Lexer) (n : nat) (b : byte) : bool := bool_decide (peek_byte_at l n = Some b).
Definition peek_is (pred : byte -> bool) (o : option byte) : bool :=
  match o with Some b => pred b | None => false end.

Fixpoint skip_trivia (fuel : nat) (l : Lexer) : outcome SqlError Lexer :=
  match fuel with
  | O => Panic
  | S fuel =>
      if peek_is is_ascii_whitespace (peek_byte l) then skip_trivia fuel (skip 1 l)
      else if peeks l "-"%byte && peeks_at l 1 "-"%byte
      then skip_trivia fuel (advance_while (fun b => negb (Z_of_byte b =? 10)) l)
      else Ok l
  end.

Definition lex_number : M Lexer SqlError Tok.t :=
  start ← gets id;
  _ ← modify (advance_while is_ascii_digit);
  l ← gets id;
  let is_float := peeks l "."%byte && peek_is is_ascii_digit (peek_byte_at l 1) in
  _ ← modify (fun l => if is_float then advance_while is_ascii_digit (skip 1 l) else l);
  l ← gets id;
  text ← lift (slice start l);
  let invalid := InvalidNumericLiteral text (offset start) in
  if is_float then v ← lift (ok_or (parse_f64 text) invalid); mret (Tok.FloatLiteral v)
  else v ← lift (ok_or (parse_int (2 ^ 63 - 1) text) invalid); mret (Tok.IntegerLiteral v).

Fixpoint lex_string_loop (fuel : nat) (start : Z) (value : bytes) : M Lexer SqlError Tok.t :=
  match fuel with
  | O => lift Panic
  | S fuel =>
      l ← gets id;
      match peek_byte l with
      | None => throw (UnterminatedString start)
      | Some b =>
          if decide (b = "'"%byte) then
            if peeks_at l 1 "'"%byte then
              _ ← modify (skip 2);
              lex_string_loop fuel start (value ++ ["'"%byte])
            else
              _ ← modify (skip 1);
              mret (Tok.StringLiteral value)
          else
            ch ← lift (char_at l);
            _ ← modify (skip (length ch));
            lex_string_loop fuel start (value ++ ch)
      end
  end.
Definition lex_string (start : Z) : M Lexer SqlError Tok.t :=
  _ ← modify (skip 1);
  l ← gets id;
  lex_string_loop (S (length (rest l))) start [].

Definition lex_dollar (start : Lexer) : M Lexer SqlError Tok.t :=
  _ ← modify (skip 1);
  digits_start ← gets id;
  _ ← modify (advance_while is_ascii_digit);
  l ← gets id;
  text ← lift (slice start l);
  if offset digits_start =? offset l then throw (InvalidParameter text (offset start)) else
  digits ← lift (slice digits_start l);
  index ← lift (ok_or (parse_int u32_max digits) (InvalidParameter text (offset start)));
  if index =? 0 then throw (InvalidParameter text (offset start)) else
  mret (Tok.Param index).

Definition keywords : list (bytes * Tok.t) :=
  [(str "SELECT", Tok.Select); (str "FROM", Tok.TFrom); (str "WHERE", Tok.Where);
   (str "INSERT", Tok.Insert); (str "INTO", Tok.Into); (str "VALUES", Tok.Values);
   (str "AS", Tok.As); (str "CREATE", Tok.Create); (str "TABLE", Tok.Table);
   (str "INDEX", Tok.Index); (str "ON", Tok.On); (str "AND", Tok.And); (str "OR", Tok.Or);
   (str "NOT", Tok.Not); (str "IS", Tok.Is); (str "NULL", Tok.Null); (str "TRUE", Tok.TTrue);
   (str "FALSE", Tok.TFalse); (str "BEGIN", Tok.Begin); (str "START", Tok.Start);
   (str "TRANSACTION", Tok.Transaction); (str "COMMIT", Tok.Commit);
   (str "ROLLBACK", Tok.Rollback); (str "EXPLAIN", Tok.Explain)].
Definition keyword (text : bytes) : option Tok.t :=
  snd <$> List.find (fun e => bool_decide (e.1 = to_ascii_uppercase text)) keywords.

Definition is_ident_start (b : byte) : bool := bool_decide (b = "_"%byte) || is_ascii_alphabetic b.
Definition is_ident (b : byte) : bool := bool_decide (b = "_"%byte) || is_ascii_alphanumeric b.

Definition lex_ident_or_keyword : M Lexer SqlError Tok.t :=
  start ← gets id;
  _ ← modify (advance_while is_ident);
  l ← gets id;
  text ← lift (slice start l);
  mret (default (Tok.Identifier text) (keyword text)).

(** The token, and how many bytes it takes. *)
Definition punct (l : Lexer) (b : byte) : option (Tok.t * nat) :=
  match b with
  | "," => Some (Tok.Comma, 1)
  | ";" => Some (Tok.Semicolon, 1)
  | "(" => Some (Tok.LParen, 1)
  | ")" => Some (Tok.RParen, 1)
  | "*" => Some (Tok.Star, 1)
  | "." => Some (Tok.Dot, 1)
  | "+" => Some (Tok.Plus, 1)
  | "-" => Some (Tok.Minus, 1)
  | "/" => Some (Tok.Slash, 1)
  | "=" => Some (Tok.Eq, 1)
  | "<" =>
      if peeks_at l 1 "="%byte then Some (Tok.LtEq, 2)
      else if peeks_at l 1 ">"%byte then Some (Tok.NotEq, 2)
      else Some (Tok.Lt, 1)
  | ">" => if peeks_at l 1 "="%byte then Some (Tok.GtEq, 2) else Some (Tok.Gt, 1)
  | "!" => if peeks_at l 1 "="%byte then Some (Tok.NotEq, 2) else None
  | _ => None
  end%byte%nat.
Definition lex_punct : M Lexer SqlError Tok.t :=
  l ← gets id;
  match peek_byte l with
  | None => lift Panic
  | Some b =>
      match punct l b with
      | Some (k, n) => _ ← modify (skip n); mret k
      | None => ch ← lift (char_at l); throw (UnexpectedChar ch (offset l))
      end
  end.

Definition lex_token : M Lexer SqlError Tok.t :=
  l ← gets id;
  match peek_byte l with
  | None => mret Tok.Eof
  | Some b =>
      if is_ascii_digit b then lex_number
      else if bool_decide (b = "'"%byte) then lex_string (offset l)
      else if bool_decide (b = "$"%byte) then lex_dollar l
      else if is_ident_start b then lex_ident_or_keyword
      else lex_punct
  end.

Fixpoint tokenize_loop (fuel : nat) (l : Lexer) (tokens : list Token) : outcome SqlError (list Token) :=
  match fuel with
  | O => Panic
  | S fuel =>
      l ← skip_trivia (S (length (rest l))) l;
      match lex_token l with
      | (Ok Tok.Eof, _) => Ok (tokens ++ [mkToken Tok.Eof (offset l)])
      | (Ok kind, l') => tokenize_loop fuel l' (tokens ++ [mkToken kind (offset l)])
      | (Err e, _) => Err e
      | (Panic, _) => Panic
      end
  end.
Definition tokenize (input : bytes) : outcome SqlError (list Token) :=
  tokenize_loop (S (length input)) (Lexer_new input) [].

Definition RESERVED_WORDS : list bytes :=
  str <$> ["ORDER"; "BY"; "GROUP"; "HAVING"; "LIMIT"; "OFFSET"; "JOIN"; "INNER"; "LEFT"; "RIGHT";
           "FULL"; "OUTER"; "CROSS"; "ON"; "USING"; "UNION"; "INTERSECT"; "EXCEPT"; "RETURNING";
           "SET"; "WHERE"; "FROM"]%string.
Definition is_reserved_word (word : bytes) : bool := existsb (eq_ignore_ascii_case word) RESERVED_WORDS.
