(* ===== verification/SqlLexerSpec.v ===== *)
(** * Correctness of the lexer

    The lexer is total on valid UTF-8, its tokens are well formed and cover the text in
    order, and it reads back every rendering of a token sequence. *)
From Stdlib Require Import SpecFloat Strings.Byte Sorting.Sorted.
From S2P Require Import Prelude Text Value Errors SqlLexer.

(** ** Doubles *)
Lemma digits2_bound p : Zpos p < 2 ^ Zpos (digits2_pos p).
Proof.
  induction p as [p IH | p IH |]; cbn [digits2_pos]; [| | reflexivity].
  - rewrite Pos2Z.inj_succ, Z.pow_succ_r by lia. lia.
  - rewrite Pos2Z.inj_succ, Z.pow_succ_r by lia. lia.
Qed.
Lemma shr_1_le r : 0 < shr_m (shr_1 r) -> shr_m (shr_1 r) * 2 <= shr_m r.
Proof. destruct r as [m r s]. destruct m as [| [p | p |] | [p | p |]]; cbn; lia. Qed.
Lemma shr_iter_le (p : positive) : forall r : shr_record, 0 < shr_m (SpecFloat.iter_pos shr_1 p r) -> shr_m (SpecFloat.iter_pos shr_1 p r) * 2 ^ Zpos p <= shr_m r.
Proof.
  induction p as [p IH | p IH |]; intros r H; cbn [SpecFloat.iter_pos] in *.
  - pose proof (IH _ H) as H1. assert (H2 : 0 < shr_m (SpecFloat.iter_pos shr_1 p (shr_1 r))) by nia. pose proof (IH _ H2) as H3.
    assert (H4 : 0 < shr_m (shr_1 r)) by nia. pose proof (shr_1_le r H4). replace (2 ^ Zpos p~1) with (2 ^ Zpos p * 2 ^ Zpos p * 2) by (rewrite <- Z.pow_add_r, Z.mul_comm, <- Z.pow_succ_r by lia; f_equal; lia). nia.
  - pose proof (IH _ H) as H1. assert (H2 : 0 < shr_m (SpecFloat.iter_pos shr_1 p r)) by nia. pose proof (IH _ H2) as H3.
    replace (2 ^ Zpos p~0) with (2 ^ Zpos p * 2 ^ Zpos p) by (rewrite <- Z.pow_add_r by lia; f_equal; lia). nia.
  - pose proof (shr_1_le r H). lia.
Qed.
Lemma shr_record_of_loc_m m l : shr_m (shr_record_of_loc m l) = m.
Proof. destruct l as [| []]; reflexivity. Qed.
Lemma shr_fexp_bounds m e l r e' : shr_fexp 53 1024 m e l = (r, e') -> 0 < shr_m r -> -1074 <= e' /\ shr_m r < 2 ^ 53.
Proof.
  unfold shr_fexp, shr, fexp. change (emin 53 1024) with (-1074). set (n := Z.max (Zdigits2 m + e - 53) (-1074) - e). intros H Hr.
  assert (Hm : 0 < m -> m < 2 ^ Zdigits2 m) by (destruct m; try lia; intros _; apply digits2_bound).
  destruct n as [| p | p] eqn:En; injection H as <- <-; rewrite ?shr_record_of_loc_m in *.
  - split; [lia |]. eapply Z.lt_le_trans; [apply Hm; assumption |]. apply Z.pow_le_mono_r; lia.
  - split; [lia |]. pose proof (shr_iter_le p _ Hr) as Hi. rewrite shr_record_of_loc_m in Hi. assert (0 < m) by nia. specialize (Hm H).
    assert (2 ^ Zdigits2 m <= 2 ^ 53 * 2 ^ Zpos p) by (rewrite <- Z.pow_add_r by lia; apply Z.pow_le_mono_r; lia). nia.
  - split; [lia |]. eapply Z.lt_le_trans; [apply Hm; assumption |]. apply Z.pow_le_mono_r; lia.
Qed.
Lemma round_bounds m e l :
  match binary_round_aux 53 1024 false m e l with
  | S754_finite s m' e' => s = false /\ Zpos m' < 2 ^ 53 /\ -1074 <= e' <= 971
  | _ => True end.
Proof.
  unfold binary_round_aux. destruct (shr_fexp 53 1024 m e l) as [r e1]. set (m1 := round_nearest_even _ _).
  destruct (shr_fexp 53 1024 m1 e1 loc_Exact) as [r' e2] eqn:E. destruct (shr_m r') as [| p | p] eqn:Em; [exact I | | exact I].
  destruct (shr_fexp_bounds _ _ _ _ _ E) as [H1 H2]; [rewrite Em; lia |]. rewrite Em in H2.
  destruct (Z.leb_spec e2 (1024 - 53)); [| exact I]. lia.
Qed.

(** The double a decimal number is read as has 64 bits. *)
Lemma f64_of_decimal_range m k : in_u 64 (f64_of_decimal m k).
Proof.
  unfold f64_of_decimal. destruct m as [| p | p]; [by unfold in_u | | by unfold in_u]. cbn [SFdiv xorb].
  destruct (SFdiv_core_binary _ _ _ _ _ _) as [[mz ez] lz]. pose proof (round_bounds mz ez lz) as H.
  destruct (binary_round_aux 53 1024 false mz ez lz) as [[] | [] | | s m e]; try (by unfold in_u). destruct H as (-> & H1 & H2).
  unfold in_u, bits_of_spec. lia.
Qed.

(** ** UTF-8 *)
Definition ascii (b : byte) : Prop := Z_of_byte b < 128.

Ltac u8 := unfold Utf8.second_of_three, Utf8.second_of_four, Utf8.cont, Utf8.between in *.

Lemma valid_cons_ascii b r : ascii b -> Utf8.valid (b :: r) = Utf8.valid r.
Proof. intros H. cbn [Utf8.valid]. by rewrite (proj2 (Z.ltb_lt _ _) H). Qed.

Lemma valid_ascii_app a r : Forall ascii a -> Utf8.valid (a ++ r) = Utf8.valid r.
Proof. induction 1; [done |]. cbn [app]. by rewrite valid_cons_ascii. Qed.

Lemma valid_boundary b r : Utf8.valid (b :: r) = true -> Utf8.cont b = false.
Proof.
  cbn [Utf8.valid]. u8. pose proof (Z_of_byte_range b).
  destruct (Z.ltb_spec (Z_of_byte b) 128); [intros _; zcase; cbn; lia |].
  destruct r as [| b1 r]; [done |].
  destruct (Z.leb_spec 194 (Z_of_byte b)); [intros _; zcase; cbn; lia |].
  cbn. destruct r as [| b2 r]; [done |].
  destruct (Z.leb_spec 224 (Z_of_byte b)); [lia |]. cbn. destruct r as [| b3 r]; [done |].
  destruct (Z.leb_spec 240 (Z_of_byte b)); [lia |]. done.
Qed.

Lemma valid_char b r : Utf8.valid (b :: r) = true ->
  exists c s, r = c ++ s /\ S (length c) = len_utf8 b /\ Utf8.valid s = true
    /\ forall k, Utf8.valid (b :: c ++ k) = Utf8.valid k.
Proof.
  cbn [Utf8.valid]. unfold len_utf8. pose proof (Z_of_byte_range b).
  destruct (Z.ltb_spec (Z_of_byte b) 128) as [Ha | Ha].
  { intros Hv. exists [], r. split; [done |]. split; [done |]. split; [done |]. done. }
  destruct r as [| b1 r]; [done |]. destruct (Utf8.between 194 223 b) eqn:E2.
  { intros [H1 Hv]%andb_true_iff. exists [b1], r. split; [done |]. pose proof E2 as R2.
    apply andb_true_iff in R2 as [?%Z.leb_le ?%Z.leb_le]. rewrite (proj2 (Z.ltb_lt (Z_of_byte b) 224)) by lia.
    split; [done |]. split; [done |]. intros k. cbn [app]. by rewrite H1. }
  destruct r as [| b2 r]; [done |]. destruct (Utf8.between 224 239 b) eqn:E3.
  { intros [H1 Hv]%andb_true_iff. exists [b1; b2], r. split; [done |]. pose proof E3 as R3.
    apply andb_true_iff in R3 as [?%Z.leb_le ?%Z.leb_le]. rewrite (proj2 (Z.ltb_ge (Z_of_byte b) 224)) by lia.
    rewrite (proj2 (Z.ltb_lt (Z_of_byte b) 240)) by lia.
    split; [done |]. split; [done |]. intros k. cbn [app]. by rewrite H1. }
  destruct r as [| b3 r]; [done |]. destruct (Utf8.between 240 244 b) eqn:E4; [| done].
  intros [H1 Hv]%andb_true_iff. exists [b1; b2; b3], r. split; [done |]. pose proof E4 as R4.
  apply andb_true_iff in R4 as [?%Z.leb_le ?%Z.leb_le]. rewrite (proj2 (Z.ltb_ge (Z_of_byte b) 224)) by lia.
  rewrite (proj2 (Z.ltb_ge (Z_of_byte b) 240)) by lia.
  split; [done |]. split; [done |]. intros k. cbn [app]. by rewrite H1.
Qed.

(** The bytes of a character after the first are not ASCII. *)
Lemma valid_char_tail b c s : Utf8.valid (b :: c ++ s) = true -> S (length c) = len_utf8 b ->
  Forall (fun x => 128 <= Z_of_byte x) c.
Proof.
  cbn [Utf8.valid]. unfold len_utf8.
  destruct (Z.ltb_spec (Z_of_byte b) 128) as [Ha | Ha]; [by destruct c |].
  destruct (Z.ltb_spec (Z_of_byte b) 224) as [Ha2 | Ha2].
  { destruct c as [| b1 [|]]; try done. cbn [app].
    destruct (Utf8.between 194 223 b) eqn:E.
    - intros [H _]%andb_true_iff _. u8. to_prop. by repeat constructor.
    - destruct s as [| b2 s]; [done |]. u8. rewrite (proj2 (Z.leb_gt 224 _)) by done. cbn.
      destruct s as [| b3 s]; [done |]. rewrite (proj2 (Z.leb_gt 240 _)) by lia. done. }
  assert (E : Utf8.between 194 223 b = false) by (u8; apply andb_false_iff; right; apply Z.leb_gt; lia).
  destruct (Z.ltb_spec (Z_of_byte b) 240) as [Ha3 | Ha3].
  { destruct c as [| b1 [| b2 [|]]]; try done. cbn [app]. rewrite E.
    assert (E3 : Utf8.between 224 239 b = true) by (u8; apply andb_true_iff; rewrite !Z.leb_le; lia).
    rewrite E3. rewrite !andb_true_iff. intros [[H1 H2] _] _. u8.
    rewrite !orb_true_iff, !andb_true_iff, !Z.leb_le in *. constructor; [lia |]. constructor; [lia | done]. }
  destruct c as [| b1 [| b2 [| b3 [|]]]]; try done. cbn [app]. rewrite E.
  assert (E3 : Utf8.between 224 239 b = false) by (u8; apply andb_false_iff; right; apply Z.leb_gt; lia).
  rewrite E3. destruct (Utf8.between 240 244 b); [| done]. rewrite !andb_true_iff. intros [[[H1 H2] H3] _] _. u8.
  rewrite !orb_true_iff, !andb_true_iff, !Z.leb_le in *. constructor; [lia |]. constructor; [lia |].
  constructor; [lia | done].
Qed.

(** Cutting a valid text before an ASCII byte, or at its end, leaves valid texts. *)
Lemma valid_cut a r : Utf8.valid (a ++ r) = true -> (forall b s, r = b :: s -> ascii b) -> Utf8.valid r = true.
Proof.
  remember (length a) as n eqn:E. revert a E. induction (lt_wf n) as [n _ IH]. intros a -> Hv Hr.
  destruct a as [| x a]; [done |]. cbn [app] in Hv.
  destruct (valid_char x (a ++ r) Hv) as (c & s & Ec & Hl & Hs & _).
  assert (Ht : Forall (fun x => 128 <= Z_of_byte x) c).
  { eapply (valid_char_tail x c s); [by rewrite <- Ec | done]. }
  apply app_eq_inv in Ec as [(k & -> & ->) | (k & -> & ->)].
  - apply (IH (length k)) with (a := k); [cbn; rewrite length_app; lia | done | done | done].
  - destruct k as [| y k]; [done |]. exfalso.
    apply Forall_app in Ht as [_ Ht]. inversion Ht; subst. specialize (Hr y (k ++ s) eq_refl). unfold ascii in Hr. lia.
Qed.

Lemma valid_app a b : Utf8.valid a = true -> Utf8.valid (a ++ b) = Utf8.valid b.
Proof.
  remember (length a) as n eqn:E. revert a E. induction (lt_wf n) as [n _ IH]. intros a -> Hv.
  destruct a as [| x a]; [done |]. destruct (valid_char x a Hv) as (c & s & -> & _ & Hs & Hk).
  cbn [app]. rewrite <- (assoc_L app), Hk. apply (IH (length s)); [| done | done].
  cbn. rewrite length_app. lia.
Qed.

(** ** Moving forward *)
Definition ahead (l l' : Lexer) : Prop := exists a, rest l = a ++ rest l' /\ offset l' = offset l + len a.
Definition good (l : Lexer) : Prop := Utf8.valid (rest l) = true.

Lemma ahead_refl l : ahead l l.
Proof. exists []. rewrite len_nil. split; [done | lia]. Qed.

Lemma ahead_trans l1 l2 l3 : ahead l1 l2 -> ahead l2 l3 -> ahead l1 l3.
Proof.
  intros (a & E1 & O1) (b & E2 & O2). exists (a ++ b). rewrite E1, E2, O2, O1, len_app, (assoc_L app).
  split; [done | lia].
Qed.

Lemma skip_ahead n l : (n <= length (rest l))%nat -> ahead l (skip n l).
Proof.
  intros H. exists (take n (rest l)). cbn [skip rest offset]. rewrite take_drop. split; [done |].
  unfold len. rewrite length_take. lia.
Qed.

Lemma advance_while_spec p l :
  exists a, rest l = a ++ rest (advance_while p l) /\ offset (advance_while p l) = offset l + len a
    /\ Forall (fun b => p b = true) a /\ peek_is p (peek_byte (advance_while p l)) = false.
Proof.
  unfold advance_while, peek_byte. generalize (offset l). induction (rest l) as [| b s IH]; intros off; cbn.
  { exists []. rewrite len_nil. split; [done |]. split; [lia |]. by split. }
  destruct (p b) eqn:E.
  - destruct (IH (off + 1)) as (a & E1 & E2 & E3 & E4). exists (b :: a). cbn. rewrite <- E1, E2, len_cons.
    split; [done |]. split; [lia |]. split; [by constructor | done].
  - exists []. cbn. rewrite len_nil. split; [done |]. split; [lia |]. by split.
Qed.

Lemma good_boundary l : good l -> at_boundary l = true.
Proof.
  unfold good, at_boundary. destruct (rest l) as [| b r]; [done |]. intros Hv.
  by rewrite (valid_boundary b r Hv).
Qed.

Lemma slice_ahead l l' a :
  good l -> good l' -> rest l = a ++ rest l' -> offset l' = offset l + len a -> slice l l' = Ok a.
Proof.
  intros H H' E O. unfold slice. rewrite !good_boundary by done. cbn [andb]. rewrite E, O.
  replace (offset l + len a - offset l) with (len a) by lia. rewrite to_nat_len. by rewrite take_app_length.
Qed.

Lemma good_ascii l l' a : good l -> rest l = a ++ rest l' -> Forall ascii a -> good l'.
Proof. unfold good. intros H E Ha. by rewrite E, valid_ascii_app in H. Qed.

Lemma peek_is_cons p l : peek_is p (peek_byte l) = true -> exists b r, rest l = b :: r /\ p b = true.
Proof. unfold peek_byte. destruct (rest l) as [| b r]; [done |]. cbn. intros H. by exists b, r. Qed.

(** A predicate on ASCII bytes. *)
Definition on_ascii (p : byte -> bool) : Prop := forall b, p b = true -> ascii b.

Lemma digit_ascii : on_ascii is_ascii_digit.
Proof. intros b. unfold is_ascii_digit, between, ascii. intros; to_prop; lia. Qed.
Lemma ident_ascii : on_ascii is_ident.
Proof.
  intros b. unfold is_ident, is_ascii_alphanumeric, is_ascii_alphabetic, is_ascii_lowercase, is_ascii_uppercase,
    is_ascii_digit, between, ascii.
  rewrite !orb_true_iff, !andb_true_iff, !Z.leb_le, bool_decide_eq_true.
  intros [-> | H]; [done |]. lia.
Qed.
Lemma ident_start_ident b : is_ident_start b = true -> is_ident b = true.
Proof.
  unfold is_ident, is_ident_start, is_ascii_alphanumeric. rewrite !orb_true_iff. tauto.
Qed.
Lemma whitespace_ascii : on_ascii is_ascii_whitespace.
Proof.
  intros b. unfold is_ascii_whitespace, ascii. rewrite bool_decide_eq_true, !elem_of_cons, elem_of_nil. lia.
Qed.

(** Advancing over ASCII from a good state: the text passed, and a good state again. *)
Lemma advance_good p l : good l -> on_ascii p ->
  exists a, rest l = a ++ rest (advance_while p l) /\ offset (advance_while p l) = offset l + len a
    /\ Forall (fun b => p b = true) a /\ good (advance_while p l)
    /\ peek_is p (peek_byte (advance_while p l)) = false.
Proof.
  intros H Hp. destruct (advance_while_spec p l) as (a & E & O & F & S). exists a.
  split; [done |]. split; [done |]. split; [done |]. split; [| done].
  eapply good_ascii; [done | done |]. eapply Forall_impl; [done |]. done.
Qed.

Lemma advance_nonempty p l a : rest l = a ++ rest (advance_while p l) ->
  peek_is p (peek_byte l) = true -> peek_is p (peek_byte (advance_while p l)) = false -> a <> [].
Proof.
  intros E H1 H2 ->. cbn in E. unfold peek_byte in *. rewrite <- E in H2. congruence.
Qed.

(** ** Tokens *)
Definition is_name (name : bytes) : bool :=
  match name with b :: _ => is_ident_start b | [] => false end
  && forallb is_ident name && bool_decide (keyword name = None).

Definition wf_tok (k : Tok.t) : Prop :=
  match k with
  | Tok.Identifier name => is_name name = true
  | Tok.IntegerLiteral v => 0 <= v < 2 ^ 63
  | Tok.StringLiteral s => Utf8.valid s = true
  | Tok.Param i => 1 <= i < 2 ^ 32
  | Tok.FloatLiteral b => in_u 64 b
  | _ => True
  end.

Definition lexes (l : Lexer) (r : outcome SqlError Tok.t * Lexer) : Prop :=
  match r with
  | (Ok k, l') => k <> Tok.Eof /\ wf_tok k /\ good l' /\ ahead l l' /\ (length (rest l') < length (rest l))%nat
  | (Err e, _) => forall src, sql_error_offset e src = offset l
  | (Panic, _) => False
  end.

Lemma decimal_acc ds acc : Forall (fun b => is_ascii_digit b = true) ds -> 0 <= acc ->
  0 <= parse_from acc ds.
Proof.
  revert acc. induction ds as [| d ds IH]; intros acc H Ha; [done |]. cbn [fold_left].
  inversion H as [| ? ? Hd Hds]; subst. apply IH; [done |].
  unfold is_ascii_digit, between in Hd. to_prop. lia.
Qed.

Lemma parse_int_range max ds v :
  Forall (fun b => is_ascii_digit b = true) ds -> parse_int max ds = Some v -> 0 <= v <= max.
Proof.
  intros H. unfold parse_int. destruct (Z.leb_spec (parse_digits ds) max); [| done]. intros [= <-].
  split; [| done]. by apply decimal_acc.
Qed.

Lemma skip_1 l b r : rest l = b :: r -> skip 1 l = mkLexer (offset l + 1) r.
Proof. intros E. unfold skip. by rewrite E. Qed.

Lemma ahead_length l l' a : rest l = a ++ rest l' -> a <> [] -> (length (rest l') < length (rest l))%nat.
Proof. intros -> Ha. rewrite length_app. destruct a; [done | cbn; lia]. Qed.

Ltac step_m := unfold mbind, M_bind, gets, modify, lift, throw, mret, M_ret, id; cbn beta iota.

Lemma lex_number_spec l : good l -> peek_is is_ascii_digit (peek_byte l) = true -> lexes l (lex_number l).
Proof.
  intros H Hd. unfold lex_number. step_m. set (l1 := advance_while is_ascii_digit l).
  destruct (advance_good is_ascii_digit l H digit_ascii) as (a & E & O & F & G & Sp). fold l1 in E, O, G, Sp.
  assert (Ha : a <> []) by (by eapply advance_nonempty).
  destruct (peeks l1 "." && peek_is is_ascii_digit (peek_byte_at l1 1)) eqn:Ef.
  - apply andb_true_iff in Ef as [Ep%bool_decide_eq_true Edig].
    unfold peek_byte in Ep. destruct (rest l1) as [| b r] eqn:Er; [done |]. cbn in Ep. injection Ep as ->.
    rewrite (skip_1 l1 _ _ Er). set (l2 := mkLexer (offset l1 + 1) r).
    assert (G2 : good l2).
    { unfold good in *. rewrite Er in G. by rewrite (valid_cons_ascii "."%byte r) in G. }
    destruct (advance_good is_ascii_digit l2 G2 digit_ascii) as (a' & E' & O' & F' & G' & Sp').
    set (l3 := advance_while is_ascii_digit l2) in *. cbn [rest offset l2] in E', O'.
    assert (Ea : rest l = (a ++ "."%byte :: a') ++ rest l3).
    { rewrite E, E'. by rewrite <- (assoc_L app). }
    assert (Oa : offset l3 = offset l + len (a ++ "."%byte :: a')) by (rewrite O', O, len_app, len_cons; lia).
    rewrite (slice_ahead _ _ _ H G' Ea Oa).
    assert (Hpf : exists v, parse_f64 (a ++ "."%byte :: a') = Some v /\ in_u 64 v).
    { unfold parse_f64. destruct (list_find _ _) as [[i x] |] eqn:El; [eexists; split; [done | apply f64_of_decimal_range] |].
      apply list_find_None in El. rewrite Forall_app, Forall_cons in El. by destruct El as (_ & [] & _). }
    destruct Hpf as (v & -> & Hv). cbn [ok_or]. split; [done |]. split; [exact Hv |]. split; [done |].
    split; [by eexists |]. eapply ahead_length; [done |]. by destruct a.
  - rewrite (slice_ahead _ _ _ H G E O). destruct (parse_int (2 ^ 63 - 1) a) as [v |] eqn:Ev; cbn [ok_or].
    + apply parse_int_range in Ev; [| done]. split; [done |]. split; [cbn; lia |]. split; [done |].
      split; [by eexists |]. by eapply ahead_length.
    + done.
Qed.

Lemma lex_string_loop_spec fuel start value l :
  good l -> Utf8.valid value = true -> (length (rest l) < fuel)%nat ->
  match lex_string_loop fuel start value l with
  | (Ok k, l') => (exists s, k = Tok.StringLiteral s /\ Utf8.valid s = true) /\ good l' /\ ahead l l'
  | (Err e, _) => e = UnterminatedString start
  | (Panic, _) => False
  end.
Proof.
  revert value l. induction fuel as [| fuel IH]; intros value l H Hv Hf; [lia |].
  cbn [lex_string_loop]. step_m. unfold peek_byte. destruct (rest l) as [| b r] eqn:E; [done |]. cbn.
  cbn in Hf. destruct (decide (b = "'"%byte)) as [-> | Hne].
  - assert (Hr : Utf8.valid r = true).
    { unfold good in H. rewrite E in H. by rewrite (valid_cons_ascii "'"%byte r) in H. }
    unfold peeks_at, peek_byte_at. rewrite E. case_bool_decide as Hq.
    + destruct r as [| b2 r]; [done |]. injection Hq as ->. cbn in Hf.
      assert (Es : skip 2 l = mkLexer (offset l + 2) r) by (unfold skip; by rewrite E). rewrite Es.
      specialize (IH (value ++ ["'"%byte]) (mkLexer (offset l + 2) r)).
      destruct (lex_string_loop _ _ _ _) as [[k | e |] l']; cbn in IH.
      * destruct IH as (Hk & Hg & Ha); [| | lia |].
        { unfold good. by rewrite (valid_cons_ascii "'"%byte r) in Hr. }
        { by rewrite valid_app. }
        split; [done |]. split; [done |]. eapply ahead_trans; [| exact Ha].
        exists ["'"%byte; "'"%byte]. by rewrite E.
      * apply IH; [| by rewrite valid_app | lia]. unfold good. by rewrite (valid_cons_ascii "'"%byte r) in Hr.
      * apply IH; [| by rewrite valid_app | lia]. unfold good. by rewrite (valid_cons_ascii "'"%byte r) in Hr.
    + rewrite (skip_1 _ _ _ E). split; [by eexists |]. split; [done |]. exists ["'"%byte]. by rewrite E.
  - unfold char_at. rewrite good_boundary by done. unfold peek_byte. rewrite E. cbn [lookup list_lookup].
    pose proof H as H'. unfold good in H'. rewrite E in H'. destruct (valid_char b r H') as (c & s & -> & Hl & Hs & Hk).
    rewrite <- Hl. cbn [take]. rewrite take_app_length. cbn [length].
    assert (Es : skip (S (length c)) l = mkLexer (offset l + Z.of_nat (S (length c))) s).
    { unfold skip. rewrite E. cbn [drop]. by rewrite drop_app_length. }
    rewrite Es. specialize (IH (value ++ b :: c) (mkLexer (offset l + Z.of_nat (S (length c))) s)).
    assert (Hvc : Utf8.valid (value ++ b :: c) = true).
    { rewrite valid_app by done. specialize (Hk []). rewrite app_nil_r in Hk. by rewrite Hk. }
    assert (Hf' : (length s < fuel)%nat) by (rewrite length_app in Hf; lia).
    destruct (lex_string_loop _ _ _ _) as [[k | e |] l']; cbn in IH; [| by apply IH ..].
    destruct IH as (Hk' & Hg & Ha); [done .. |]. split; [done |]. split; [done |].
    eapply ahead_trans; [| exact Ha]. exists (b :: c). cbn [rest offset]. rewrite E. by split.
Qed.

Lemma lex_string_spec l : good l -> peek_byte l = Some "'"%byte -> lexes l (lex_string (offset l) l).
Proof.
  intros H Hq. unfold peek_byte in Hq. destruct (rest l) as [| b r] eqn:E; [done |]. injection Hq as ->.
  unfold lex_string. step_m. rewrite (skip_1 _ _ _ E). cbn [rest].
  assert (G : good (mkLexer (offset l + 1) r)).
  { unfold good in *. rewrite E in H. by rewrite (valid_cons_ascii "'"%byte r) in H. }
  pose proof (lex_string_loop_spec (S (length r)) (offset l) [] _ G eq_refl) as Hl.
  destruct (lex_string_loop _ _ _ _) as [[k | e |] l']; cbn [rest] in Hl.
  - destruct Hl as ((s & -> & Hs) & Hg & Ha); [lia |]. split; [done |]. split; [done |]. split; [done |].
    destruct Ha as (a & Ea & Oa). cbn [rest offset] in Ea, Oa. split.
    + exists ("'"%byte :: a). rewrite E, Ea, len_cons. split; [done | lia].
    + rewrite E, Ea. cbn. rewrite length_app. lia.
  - rewrite Hl by lia. done.
  - apply Hl. lia.
Qed.

Lemma lex_dollar_spec l : good l -> peek_byte l = Some "$"%byte -> lexes l (lex_dollar l l).
Proof.
  intros H Hq. unfold peek_byte in Hq. destruct (rest l) as [| b r] eqn:E; [done |]. injection Hq as ->.
  unfold lex_dollar. step_m. rewrite (skip_1 _ _ _ E). set (l1 := mkLexer (offset l + 1) r).
  assert (G1 : good l1).
  { unfold good in *. rewrite E in H. by rewrite (valid_cons_ascii "$"%byte r) in H. }
  destruct (advance_good is_ascii_digit l1 G1 digit_ascii) as (a & Ea & Oa & F & G & _).
  set (l2 := advance_while is_ascii_digit l1) in *. cbn [rest offset l1] in Ea, Oa.
  assert (Es : rest l = ("$"%byte :: a) ++ rest l2) by (by rewrite E, Ea).
  rewrite (slice_ahead _ _ _ H G Es) by (rewrite Oa, len_cons; lia).
  destruct (offset l1 =? offset l2); [done |]. rewrite (slice_ahead _ _ _ G1 G Ea Oa).
  destruct (parse_int u32_max a) as [v |] eqn:Ev; cbn [ok_or]; [| done].
  destruct (Z.eqb_spec v 0); [done |]. apply parse_int_range in Ev; [| done].
  split; [done |]. split; [cbn; unfold u32_max in Ev; lia |]. split; [done |].
  split; [exists ("$"%byte :: a); rewrite len_cons; split; [done | lia] |]. by eapply ahead_length.
Qed.

Lemma keyword_wf text k : keyword text = Some k -> k <> Tok.Eof /\ wf_tok k.
Proof.
  unfold keyword. destruct (List.find _ keywords) as [[w k'] |] eqn:E; [| done]. intros [= <-].
  apply find_some in E as [E _]. repeat (destruct E as [[= <- <-] | E]; [done |]). destruct E.
Qed.

Lemma lex_ident_spec l :
  good l -> peek_is is_ident_start (peek_byte l) = true -> lexes l (lex_ident_or_keyword l).
Proof.
  intros H Hi. unfold lex_ident_or_keyword. step_m.
  destruct (advance_good is_ident l H ident_ascii) as (a & E & O & F & G & Sp).
  rewrite (slice_ahead _ _ _ H G E O). apply peek_is_cons in Hi as (b & r & Eb & Hb).
  assert (Hne : exists a', a = b :: a').
  { destruct a as [| x a'].
    - cbn in E. unfold peek_byte in Sp. rewrite <- E, Eb in Sp. cbn in Sp. by rewrite ident_start_ident in Sp.
    - rewrite Eb in E. injection E as <- _. by eexists. }
  destruct Hne as [a' ->]. split; [| split; [| split; [done |]; split; [by eexists | by eapply ahead_length]]].
  - destruct (keyword (b :: a')) as [k |] eqn:Ek; [by apply (keyword_wf _ _ Ek) | done].
  - destruct (keyword (b :: a')) as [k |] eqn:Ek; [by apply (keyword_wf _ _ Ek) |].
    cbn [default wf_tok]. unfold is_name. rewrite Hb, Ek. cbn [andb].
    rewrite bool_decide_eq_true_2, andb_true_r by done. apply forallb_forall. intros x Hx%list_elem_of_In.
    by eapply Forall_forall in F.
Qed.

Lemma punct_spec l b r k n : rest l = b :: r -> punct l b = Some (k, n) ->
  k <> Tok.Eof /\ wf_tok k
  /\ exists a, rest l = a ++ drop n (rest l) /\ len a = Z.of_nat n /\ Forall ascii a /\ a <> [].
Proof.
  intros E Hp.
  assert (H1 : ascii b -> exists a, rest l = a ++ drop 1 (rest l) /\ len a = Z.of_nat 1 /\ Forall ascii a /\ a <> []).
  { intros Hb. exists [b]. rewrite E. by repeat constructor. }
  assert (H2 : forall c, ascii b -> ascii c -> peeks_at l 1 c = true ->
     exists a, rest l = a ++ drop 2 (rest l) /\ len a = Z.of_nat 2 /\ Forall ascii a /\ a <> []).
  { intros c Hb Hc Hpk%bool_decide_eq_true. unfold peek_byte_at in Hpk. rewrite E in Hpk |- *.
    destruct r as [| c' r]; [done |]. injection Hpk as ->. exists [b; c]. by repeat constructor. }
  destruct b; try discriminate Hp; cbn [punct] in Hp;
    repeat (match type of Hp with context [if ?c then _ else _] => destruct c eqn:? end);
    try discriminate Hp; injection Hp as <- <-; (split; [done |]); (split; [done |]);
    first [by apply H1 | eapply H2; [| | eassumption]; done].
Qed.

Lemma lex_punct_spec l : good l -> rest l <> [] -> lexes l (lex_punct l).
Proof.
  intros H Hne. unfold lex_punct. step_m. unfold peek_byte. destruct (rest l) as [| b r] eqn:E; [done |].
  cbn [lookup list_lookup]. destruct (punct l b) as [[k n] |] eqn:Ep.
  - destruct (punct_spec _ _ _ _ _ E Ep) as (Hk & Hw & a & Ea & Hl & Ha & Hnil).
    split; [done |]. split; [done |]. split; [by eapply (good_ascii l (skip n l)) |]. split.
    + exists a. cbn [skip rest offset]. split; [done | lia].
    + by eapply (ahead_length l (skip n l)).
  - unfold char_at. rewrite good_boundary by done. unfold peek_byte. by rewrite E.
Qed.

(** What lexing one token does, from any position in a valid text. *)
Lemma lex_token_spec l : good l ->
  (rest l = [] /\ lex_token l = (Ok Tok.Eof, l)) \/ (rest l <> [] /\ lexes l (lex_token l)).
Proof.
  intros H. unfold lex_token. step_m. destruct (peek_byte l) as [b |] eqn:Eb; unfold peek_byte in Eb.
  2: { left. split; [| done]. by destruct (rest l). }
  right. assert (Hne : rest l <> []) by (by destruct (rest l)). split; [done |].
  destruct (is_ascii_digit b) eqn:E1; [apply lex_number_spec; [done |]; unfold peek_byte; by rewrite Eb |].
  case_bool_decide; [subst; by apply lex_string_spec |].
  case_bool_decide; [subst; by apply lex_dollar_spec |].
  destruct (is_ident_start b) eqn:E2; [apply lex_ident_spec; [done |]; unfold peek_byte; by rewrite Eb |].
  by apply lex_punct_spec.
Qed.

Lemma skip_trivia_spec fuel l : good l -> (length (rest l) < fuel)%nat ->
  exists l', skip_trivia fuel l = Ok l' /\ good l' /\ ahead l l'.
Proof.
  revert l. induction fuel as [| fuel IH]; intros l H Hf; [lia |]. cbn [skip_trivia].
  destruct (peek_is is_ascii_whitespace (peek_byte l)) eqn:Ew.
  - apply peek_is_cons in Ew as (b & r & E & Hb). rewrite (skip_1 _ _ _ E).
    assert (Ha : ahead l (mkLexer (offset l + 1) r)) by (exists [b]; by rewrite E).
    destruct (IH (mkLexer (offset l + 1) r)) as (l' & E' & G' & A').
    + unfold good in *. rewrite E, valid_cons_ascii in H by (by apply whitespace_ascii). done.
    + rewrite E in Hf. cbn in *. lia.
    + exists l'. split; [done |]. split; [done |]. by eapply ahead_trans.
  - destruct (peeks l "-" && peeks_at l 1 "-") eqn:Ec.
    2: { exists l. split; [done |]. split; [done | apply ahead_refl]. }
    apply andb_true_iff in Ec as [Ec%bool_decide_eq_true _].
    destruct (advance_while_spec (fun b => negb (Z_of_byte b =? 10)) l) as (a & E & O & F & Sp).
    set (l1 := advance_while _ l) in *.
    assert (Ha : a <> []).
    { eapply advance_nonempty; [exact E | by rewrite Ec | exact Sp]. }
    assert (G1 : good l1).
    { unfold good in *. rewrite E in H. apply (valid_cut a); [done |]. intros b s Eb. unfold peek_byte in Sp.
      rewrite Eb in Sp. cbn in Sp. apply negb_false_iff, Z.eqb_eq in Sp. unfold ascii. lia. }
    pose proof (ahead_length _ _ _ E Ha). destruct (IH l1) as (l' & E' & G' & A'); [done | lia |].
    exists l'. split; [done |]. split; [done |]. eapply ahead_trans; [by exists a | done].
Qed.

(** ** The whole text *)
Definition tokens_ok (from to : Z) (ts : list Token) : Prop :=
  exists new, ts = new ++ [mkToken Tok.Eof to]
    /\ Forall (fun t => wf_tok (kind t) /\ kind t <> Tok.Eof) new
    /\ Forall (fun t => from <= tok_offset t < to) new
    /\ StronglySorted (fun a b => tok_offset a < tok_offset b) new.

Definition error_within (from to : Z) (e : SqlError) : Prop :=
  exists off, from <= off < to /\ forall src, sql_error_offset e src = off.

Lemma ahead_end l l' : ahead l l' -> offset l' + len (rest l') = offset l + len (rest l).
Proof. intros (a & -> & ->). rewrite len_app. lia. Qed.

Lemma ahead_offset l l' : ahead l l' -> offset l <= offset l'.
Proof. intros (a & _ & ->). pose proof (len_nonneg a). lia. Qed.

Lemma tokenize_loop_spec fuel l acc : good l -> (length (rest l) < fuel)%nat ->
  match tokenize_loop fuel l acc with
  | Ok ts => exists ts', ts = acc ++ ts' /\ tokens_ok (offset l) (offset l + len (rest l)) ts'
  | Err e => error_within (offset l) (offset l + len (rest l)) e
  | Panic => False
  end.
Proof.
  revert l acc. induction fuel as [| fuel IH]; intros l acc H Hf; [lia |]. cbn [tokenize_loop].
  destruct (skip_trivia_spec (S (length (rest l))) l H) as (l1 & -> & G1 & A1); [lia |].
  cbn [mbind outcome_bind]. pose proof (ahead_end _ _ A1) as Ee. pose proof (ahead_offset _ _ A1) as Eo.
  rewrite <- Ee. destruct (lex_token_spec l1 G1) as [[Er ->] | [Er Hl]].
  { exists [mkToken Tok.Eof (offset l1)]. split; [done |]. exists []. rewrite Er, len_nil, Z.add_0_r.
    by repeat constructor. }
  destruct (lex_token l1) as [[k | e |] l2]; [| | destruct Hl].
  - destruct Hl as (Hk & Hw & G2 & A2 & Hlt). pose proof (ahead_end _ _ A2) as Ee2.
    assert (Hlen : (length (rest l2) < fuel)%nat).
    { destruct A1 as (a & Ea & _). rewrite Ea, length_app in Hf. lia. }
    specialize (IH l2 (acc ++ [mkToken k (offset l1)]) G2 Hlen).
    assert (Ho : offset l1 < offset l2) by (unfold len in Ee2; lia).
    pose proof (len_nonneg (rest l2)).
    destruct k; try done; destruct (tokenize_loop _ _ _) as [ts | e |]; try done;
      rewrite Ee2 in IH;
      first [ destruct IH as (ts' & -> & new & -> & F1 & F2 & S1);
              eexists; split; [by rewrite <- (assoc_L app) |]; eexists (_ :: new); split; [done |];
              split; [by constructor |]; split;
              [ constructor; [cbn; lia | eapply Forall_impl; [exact F2 |]; cbn; lia]
              | constructor; [done |]; eapply Forall_impl; [exact F2 |]; cbn; lia ]
            | destruct IH as (off & Hoff & Hs); exists off; split; [lia | done] ].
  - exists (offset l1). split; [| done]. assert (0 < len (rest l1)); [| lia].
    unfold len. destruct (rest l1); [done | cbn; lia].
Qed.

(** Lexing is total: on any Rust string it returns tokens or an error, never a panic (no
    slice inside a character, no unreachable branch, and the loops end). The tokens are well
    formed, at strictly increasing offsets, and end in exactly one [Eof] at the end of the
    text; an error points at an offset inside the text. *)
Theorem tokenize_total input : Utf8.valid input = true ->
  match tokenize input with
  | Ok ts => tokens_ok 0 (len input) ts
  | Err e => error_within 0 (len input) e
  | Panic => False
  end.
Proof.
  intros H. pose proof (tokenize_loop_spec (S (length input)) (Lexer_new input) [] H) as Hl.
  unfold tokenize. destruct (tokenize_loop _ _ _) as [ts | e |]; cbn in Hl; [| by apply Hl; lia ..].
  by destruct Hl as (ts' & -> & Ht); [lia |].
Qed.

Lemma tokenize_total_witness :
  match tokenize (str "SELECT a FROM t WHERE b = 'it' -- done") with
  | Ok ts => tokens_ok 0 38 ts
  | Err e => error_within 0 38 e
  | Panic => False
  end.
Proof. apply (tokenize_total (str "SELECT a FROM t WHERE b = 'it' -- done")). reflexivity. Defined.

(** ** Rendering tokens

    Every token followed by a space. Doubles are left out: their text is not a function of
    their value. *)
Definition escape (s : bytes) : bytes :=
  s ≫= fun b => if decide (b = "'"%byte) then ["'"%byte; "'"%byte] else [b].

Definition keyword_text (k : Tok.t) : bytes :=
  default [] (fst <$> List.find (fun e => bool_decide (e.2 = k)) keywords).

Definition token_text (k : Tok.t) : bytes :=
  match k with
  | Tok.Identifier name => name
  | Tok.IntegerLiteral v => fmt_u v
  | Tok.FloatLiteral _ | Tok.Eof => []
  | Tok.StringLiteral s => "'"%byte :: escape s ++ ["'"%byte]
  | Tok.Param i => "$"%byte :: fmt_u i
  | Tok.Comma => str "," | Tok.Semicolon => str ";" | Tok.LParen => str "(" | Tok.RParen => str ")"
  | Tok.Star => str "*" | Tok.Dot => str "." | Tok.Plus => str "+" | Tok.Minus => str "-"
  | Tok.Slash => str "/" | Tok.Eq => str "=" | Tok.NotEq => str "<>" | Tok.Lt => str "<"
  | Tok.LtEq => str "<=" | Tok.Gt => str ">" | Tok.GtEq => str ">="
  | k => keyword_text k
  end.

Definition printable (k : Tok.t) : bool :=
  match k with
  | Tok.FloatLiteral _ | Tok.Eof => false
  | Tok.Identifier name => is_name name
  | Tok.IntegerLiteral v => (0 <=? v) && (v <? 2 ^ 63)
  | Tok.StringLiteral s => Utf8.valid s
  | Tok.Param i => (1 <=? i) && (i <? 2 ^ 32)
  | _ => true
  end.

Definition space : byte := " "%byte.
Definition render (ks : list Tok.t) : bytes := ks ≫= fun k => token_text k ++ [space].

Lemma advance_while_app p o a r :
  Forall (fun b => p b = true) a -> peek_is p (r !! 0%nat) = false ->
  advance_while p (mkLexer o (a ++ r)) = mkLexer (o + len a) r.
Proof.
  intros F Hr. unfold advance_while. cbn [offset rest]. revert o.
  induction F as [| b a Hb F IH]; intros o; cbn [app advance_while_loop].
  - rewrite len_nil, Z.add_0_r. destruct r as [| b r]; [done |]. cbn in Hr |- *. by rewrite Hr.
  - rewrite Hb, IH, len_cons. f_equal. lia.
Qed.

Lemma slice_text o a r : at_boundary (mkLexer o (a ++ space :: r)) = true ->
  slice (mkLexer o (a ++ space :: r)) (mkLexer (o + len a) (space :: r)) = Ok a.
Proof.
  intros Hb. unfold slice. rewrite Hb. cbn [andb at_boundary rest offset].
  change (negb (Utf8.cont space)) with true. cbn iota.
  replace (o + len a - o) with (len a) by lia. rewrite to_nat_len. by rewrite take_app_length.
Qed.

Lemma boundary_ascii o b r : ascii b -> at_boundary (mkLexer o (b :: r)) = true.
Proof.
  unfold ascii, at_boundary, Utf8.cont, Utf8.between. cbn [rest]. intros H.
  rewrite (proj2 (Z.leb_gt 128 _)) by done. done.
Qed.

Lemma lex_name_text o b a r : is_ident_start b = true -> Forall (fun b => is_ident b = true) a ->
  lex_token (mkLexer o ((b :: a) ++ space :: r))
  = (Ok (default (Tok.Identifier (b :: a)) (keyword (b :: a))), mkLexer (o + len (b :: a)) (space :: r)).
Proof.
  intros Hb Ha. assert (Hi : is_ident b = true) by (by apply ident_start_ident).
  assert (Hd : is_ascii_digit b = false).
  { revert Hb. unfold is_ident_start, is_ascii_digit, is_ascii_alphabetic, is_ascii_lowercase, is_ascii_uppercase, between.
    rewrite orb_true_iff, bool_decide_eq_true, orb_true_iff, !andb_true_iff, !Z.leb_le, andb_false_iff, !Z.leb_gt.
    intros [-> | ?]; [vm_compute; auto | lia]. }
  unfold lex_token, gets. unfold mbind at 1, M_bind at 1. unfold id, peek_byte. cbn [rest app lookup list_lookup].
  rewrite Hd. rewrite (bool_decide_eq_false_2 (b = "'"%byte)) by (by intros ->).
  rewrite (bool_decide_eq_false_2 (b = "$"%byte)) by (by intros ->). rewrite Hb.
  unfold lex_ident_or_keyword. step_m. change (b :: a ++ space :: r) with ((b :: a) ++ space :: r).
  rewrite advance_while_app by (done || by constructor). rewrite slice_text; [done |].
  apply boundary_ascii. by apply ident_ascii.
Qed.

Lemma lex_digits_text o ds r : Forall (fun b => is_ascii_digit b = true) ds -> ds <> [] ->
  lex_token (mkLexer o (ds ++ space :: r))
  = (match parse_int (2 ^ 63 - 1) ds with
     | Some v => Ok (Tok.IntegerLiteral v)
     | None => Err (InvalidNumericLiteral ds o)
     end, mkLexer (o + len ds) (space :: r)).
Proof.
  intros F Hne. destruct ds as [| d ds]; [done |]. inversion F as [| ? ? Hd F']; subst.
  unfold lex_token, gets. unfold mbind at 1, M_bind at 1. unfold id, peek_byte. cbn [rest app lookup list_lookup].
  rewrite Hd. unfold lex_number. step_m. change (d :: ds ++ space :: r) with ((d :: ds) ++ space :: r).
  rewrite advance_while_app by done. cbn [peeks peek_byte rest lookup list_lookup].
  change (peeks (mkLexer (o + len (d :: ds)) (space :: r)) ".") with false. cbn [andb].
  rewrite slice_text by (apply boundary_ascii; by apply digit_ascii).
  by destruct (parse_int _ (d :: ds)).
Qed.

Lemma lex_dollar_text o ds r : Forall (fun b => is_ascii_digit b = true) ds -> ds <> [] ->
  lex_token (mkLexer o (("$"%byte :: ds) ++ space :: r))
  = (match parse_int u32_max ds with
     | Some v => if v =? 0 then Err (InvalidParameter ("$"%byte :: ds) o) else Ok (Tok.Param v)
     | None => Err (InvalidParameter ("$"%byte :: ds) o)
     end, mkLexer (o + len ("$"%byte :: ds)) (space :: r)).
Proof.
  intros F Hne. unfold lex_token, gets. unfold mbind at 1, M_bind at 1. unfold id, peek_byte.
  cbn [rest app lookup list_lookup]. change (is_ascii_digit "$") with false. cbn iota.
  rewrite bool_decide_eq_false_2 by done. rewrite bool_decide_eq_true_2 by done.
  unfold lex_dollar. step_m. rewrite (skip_1 _ "$"%byte (ds ++ space :: r)) by done. cbn [offset].
  rewrite (advance_while_app _ _ ds) by done.
  assert (Eo : o + 1 + len ds = o + len ("$"%byte :: ds)) by (rewrite len_cons; lia). rewrite Eo.
  change ("$"%byte :: ds ++ space :: r) with (("$"%byte :: ds) ++ space :: r).
  rewrite slice_text by done. cbn [offset].
  destruct (Z.eqb_spec (o + 1) (o + len ("$"%byte :: ds))) as [E | _].
  { rewrite len_cons in E. destruct ds; [done |]. rewrite len_cons in E. pose proof (len_nonneg ds). lia. }
  rewrite <- Eo. rewrite slice_text.
  2: { destruct ds as [| d ds]; [done |]. apply boundary_ascii. inversion F; subst. by apply digit_ascii. }
  destruct (parse_int u32_max ds) as [v |]; [| done]. cbn [ok_or]. by destruct (v =? 0).
Qed.

Lemma escape_app a b : escape (a ++ b) = escape a ++ escape b.
Proof. unfold escape. apply bind_app. Qed.

Lemma escape_cons b s : escape (b :: s) = (if decide (b = "'"%byte) then ["'"%byte; "'"%byte] else [b]) ++ escape s.
Proof. done. Qed.

Lemma escape_high c : Forall (fun x => 128 <= Z_of_byte x) c -> escape c = c.
Proof.
  induction 1 as [| b c Hb _ IH]; [done |]. rewrite escape_cons, IH.
  rewrite decide_False; [done |]. intros ->. vm_compute in Hb. by destruct Hb.
Qed.

Lemma char_at_text o b c k : Utf8.cont b = false -> S (length c) = len_utf8 b ->
  char_at (mkLexer o (b :: c ++ k)) = Ok (b :: c).
Proof.
  intros Hb Hl. unfold char_at, at_boundary, peek_byte. cbn [rest lookup list_lookup]. rewrite Hb. cbn.
  rewrite <- Hl. cbn [take firstn]. by rewrite take_app_length.
Qed.

Lemma lex_string_loop_text fuel start value o s r :
  Utf8.valid s = true -> (length (escape s) < fuel)%nat ->
  lex_string_loop fuel start value (mkLexer o (escape s ++ "'"%byte :: space :: r))
  = (Ok (Tok.StringLiteral (value ++ s)), mkLexer (o + len (escape s) + 1) (space :: r)).
Proof.
  revert value o s. induction fuel as [| fuel IH]; intros value o s Hv Hf; [lia |].
  destruct s as [| b s]; cbn [lex_string_loop]; step_m.
  { rewrite app_nil_r. change (escape []) with (@nil byte). rewrite len_nil, Z.add_0_r. done. }
  destruct (decide (b = "'"%byte)) as [-> | Hne].
  - rewrite (valid_cons_ascii "'"%byte s) in Hv by done.
    rewrite (escape_cons "'"), decide_True in * by done.
    rewrite length_app in Hf. cbn [length] in Hf. cbn [peek_byte rest app lookup list_lookup].
    rewrite decide_True by done.
    match goal with |- context [peeks_at ?l 1 "'"] => change (peeks_at l 1 "'") with true end. cbn iota.
    unfold skip. cbn [rest offset skipn]. rewrite drop_0, IH by (done || lia).
    rewrite <- (assoc_L app), !len_cons. cbn [app]. do 2 f_equal. lia.
  - destruct (valid_char b s Hv) as (c & s' & -> & Hl & Hs & _).
    pose proof (valid_char_tail _ _ _ Hv Hl) as Ht.
    assert (Ee : escape (b :: c ++ s') = b :: c ++ escape s').
    { by rewrite escape_cons, decide_False, escape_app, (escape_high c). }
    rewrite Ee in *. cbn [length] in Hf. rewrite length_app in Hf. cbn [peek_byte rest app lookup list_lookup].
    rewrite decide_False by done. rewrite <- (assoc_L app).
    rewrite char_at_text by (done || by eapply valid_boundary). unfold skip. cbn [length rest offset skipn].
    rewrite drop_app_length, IH by (done || lia). rewrite <- (assoc_L app). cbn [app].
    rewrite len_cons, len_app. unfold len. do 2 f_equal. lia.
Qed.

Lemma lex_string_text o s r : Utf8.valid s = true ->
  lex_token (mkLexer o (token_text (Tok.StringLiteral s) ++ space :: r))
  = (Ok (Tok.StringLiteral s), mkLexer (o + len (token_text (Tok.StringLiteral s))) (space :: r)).
Proof.
  intros Hv. unfold lex_token, gets. unfold mbind at 1, M_bind at 1. unfold id, peek_byte. cbn [token_text rest app lookup list_lookup].
  change (is_ascii_digit "'") with false. cbn iota. rewrite bool_decide_eq_true_2 by done.
  unfold lex_string. step_m. rewrite (skip_1 _ "'"%byte (escape s ++ "'"%byte :: space :: r))
    by (cbn [rest]; by rewrite <- (assoc_L app)).
  cbn [rest offset].
  rewrite lex_string_loop_text; [| done |].
  - rewrite len_cons, len_app. cbn [app]. do 2 f_equal. rewrite len_cons, len_nil. lia.
  - rewrite length_app. lia.
Qed.

Lemma fmt_u_digits v : 0 <= v < 10 ^ 20 ->
  Forall (fun b => is_ascii_digit b = true) (fmt_u v) /\ fmt_u v <> [] /\ parse_digits (fmt_u v) = v.
Proof.
  intros Hv. unfold fmt_u. split; [| split].
  - apply Forall_forall. intros x Hx. eapply (forallb_forall is_ascii_digit); [| by apply list_elem_of_In].
    apply digits_are_digits; [lia | done].
  - destruct (decide (v = 0)) as [-> | Hne]; [done |]. intros E.
    pose proof (length_digits_ge 20 v [] 0) as Hl. rewrite E in Hl. change (10 ^ Z.of_nat 0) with 1 in Hl.
    change (10 ^ Z.of_nat 20) with (10 ^ 20) in Hl. assert (1 <= 0)%nat; [apply Hl; lia | lia].
  - change (parse_from 0 (digits 10 dec_digit 20 v []) = v). by rewrite parse_digits_fmt.
Qed.

Lemma keyword_text_lex k o r : keyword (keyword_text k) = Some k ->
  is_name (keyword_text k) = false -> forallb is_ident (keyword_text k) = true ->
  match keyword_text k with b :: _ => is_ident_start b | [] => false end = true ->
  lex_token (mkLexer o (keyword_text k ++ space :: r))
  = (Ok k, mkLexer (o + len (keyword_text k)) (space :: r)).
Proof.
  intros Hk _ Hi Hs. destruct (keyword_text k) as [| b a] eqn:E; [done |].
  cbn [forallb] in Hi. apply andb_true_iff in Hi as [_ Hi].
  rewrite lex_name_text; [by rewrite Hk | done |].
  apply Forall_forall. intros x Hx. eapply forallb_forall; [exact Hi |]. by apply list_elem_of_In.
Qed.

(** Lexing the text of a printable token gives it back and stops at the space. *)
Lemma lex_token_text k o r : printable k = true ->
  lex_token (mkLexer o (token_text k ++ space :: r))
  = (Ok k, mkLexer (o + len (token_text k)) (space :: r)).
Proof.
  intros Hp. destruct k; try done; try (by apply keyword_text_lex); try (by apply lex_string_text).
  - cbn [token_text printable] in *. unfold is_name in Hp. apply andb_true_iff in Hp as [[Hb Hi]%andb_true_iff Hk].
    apply bool_decide_eq_true in Hk. destruct name as [| b a]; [done |]. rewrite lex_name_text; [by rewrite Hk | done |].
    cbn [forallb] in Hi. apply andb_true_iff in Hi as [_ Hi].
    apply Forall_forall. intros x Hx. eapply forallb_forall; [exact Hi |]. by apply list_elem_of_In.
  - cbn [token_text printable] in *. to_prop. destruct (fmt_u_digits v) as (F & Hne & Hd); [lia |].
    rewrite lex_digits_text by done. unfold parse_int. rewrite Hd. by rewrite (proj2 (Z.leb_le v (2 ^ 63 - 1))) by lia.
  - cbn [token_text printable] in *. to_prop. destruct (fmt_u_digits index) as (F & Hne & Hd); [lia |].
    rewrite lex_dollar_text by done. unfold parse_int. rewrite Hd. unfold u32_max.
    rewrite (proj2 (Z.leb_le index _)) by lia. by rewrite (proj2 (Z.eqb_neq index 0)) by lia.
Qed.

(** Text at which trivia ends. *)
Definition no_trivia (r : bytes) : Prop :=
  peek_is is_ascii_whitespace (r !! 0%nat) = false
  /\ (r !! 0%nat = Some "-"%byte -> r !! 1%nat <> Some "-"%byte).

Lemma skip_spaces fuel n o r : no_trivia r -> (n < fuel)%nat ->
  skip_trivia fuel (mkLexer o (replicate n space ++ r)) = Ok (mkLexer (o + Z.of_nat n) r).
Proof.
  intros [Hw Hc]. revert o n. induction fuel as [| fuel IH]; intros o n Hf; [lia |]. cbn [skip_trivia].
  destruct n as [| n].
  - cbn [replicate app]. unfold peek_byte. cbn [rest]. rewrite Hw.
    assert (E : peeks (mkLexer o r) "-" && peeks_at (mkLexer o r) 1 "-" = false).
    { unfold peeks, peeks_at, peek_byte, peek_byte_at. cbn [rest]. apply andb_false_iff.
      destruct (decide (r !! 0%nat = Some "-"%byte)) as [E0 | E0].
      - right. apply bool_decide_eq_false_2. by apply Hc.
      - left. by apply bool_decide_eq_false_2. }
    rewrite E. do 2 f_equal. lia.
  - cbn [replicate app]. change (peek_is is_ascii_whitespace (peek_byte (mkLexer o (space :: replicate n space ++ r)))) with true.
    cbn iota. rewrite (skip_1 _ space (replicate n space ++ r)) by done. cbn [offset]. rewrite IH by lia. do 2 f_equal. lia.
Qed.

Lemma name_no_trivia b r : is_ident b = true -> no_trivia (b :: r).
Proof.
  intros Hb. split.
  - cbn. revert Hb. unfold is_ident, is_ascii_alphanumeric, is_ascii_alphabetic, is_ascii_lowercase, is_ascii_uppercase,
      is_ascii_digit, is_ascii_whitespace, between.
    rewrite !orb_true_iff, !andb_true_iff, !Z.leb_le, bool_decide_eq_true, bool_decide_eq_false, !not_elem_of_cons.
    intros [-> | H]; [vm_compute; repeat split; try done; by intros ?%elem_of_nil |].
    repeat split; try lia. apply not_elem_of_nil.
  - intros [= ->]. done.
Qed.

Lemma token_no_trivia k r : printable k = true -> no_trivia (token_text k ++ space :: r).
Proof.
  intros Hp. destruct k; try discriminate Hp; try (by split).
  - cbn [token_text printable] in *. unfold is_name in Hp. destruct name as [| b a]; [done |].
    apply name_no_trivia. apply andb_true_iff in Hp as [[Hb _]%andb_true_iff _]. by apply ident_start_ident.
  - cbn [token_text printable] in *. to_prop. destruct (fmt_u_digits v) as (F & Hne & _); [lia |].
    destruct (fmt_u v) as [| d ds]; [done |]. inversion F; subst. apply name_no_trivia.
    unfold is_ident, is_ascii_alphanumeric. rewrite !orb_true_iff. auto.
Qed.

Lemma token_text_nonempty k : printable k = true -> token_text k <> [].
Proof.
  intros Hp. destruct k; try discriminate Hp; try done.
  - by destruct name.
  - cbn [printable] in Hp. to_prop. by destruct (fmt_u_digits v) as (_ & Hne & _); [lia |].
Qed.

(** Where the lexer finds the rendered tokens. *)
Fixpoint place (o : Z) (ks : list Tok.t) : list Token :=
  match ks with
  | [] => [mkToken Tok.Eof o]
  | k :: ks => mkToken k o :: place (o + len (token_text k) + 1) ks
  end.

Lemma render_cons k ks : render (k :: ks) = token_text k ++ space :: render ks.
Proof. unfold render. cbn. by rewrite <- (assoc_L app). Qed.

Lemma tokenize_loop_render fuel n o ks acc :
  forallb printable ks = true -> (length ks < fuel)%nat ->
  tokenize_loop fuel (mkLexer o (replicate n space ++ render ks)) acc
  = Ok (acc ++ place (o + Z.of_nat n) ks).
Proof.
  revert n o ks acc. induction fuel as [| fuel IH]; intros n o ks acc Hp Hf; [lia |].
  cbn [tokenize_loop rest]. destruct ks as [| k ks].
  - rewrite skip_spaces; [done | by split |]. rewrite length_app, length_replicate. lia.
  - cbn [forallb] in Hp. apply andb_true_iff in Hp as [Hk Hp]. rewrite render_cons.
    rewrite skip_spaces; [| by apply token_no_trivia | rewrite length_app, length_replicate; lia].
    cbn [mbind outcome_bind]. rewrite lex_token_text by done. cbn [offset].
    specialize (IH 1%nat (o + Z.of_nat n + len (token_text k)) ks (acc ++ [mkToken k (o + Z.of_nat n)]) Hp).
    cbn [length] in Hf. change (replicate 1 space ++ render ks) with (space :: render ks) in IH.
    cbn [place]. change (Z.of_nat 1) with 1 in IH.
    destruct k; try discriminate Hk; rewrite IH by lia; by rewrite <- (assoc_L app).
Qed.

Lemma length_render ks : forallb printable ks = true -> (length ks <= length (render ks))%nat.
Proof.
  induction ks as [| k ks IH]; [cbn; lia |]. cbn [forallb]. intros [_ Hp]%andb_true_iff.
  rewrite render_cons, length_app. cbn. specialize (IH Hp). lia.
Qed.

(** The lexer reads back what was rendered. *)
Lemma tokenize_render ks : forallb printable ks = true -> tokenize (render ks) = Ok (place 0 ks).
Proof.
  intros Hp. unfold tokenize, Lexer_new. pose proof (length_render ks Hp).
  apply (tokenize_loop_render _ 0 0 ks []); [done | lia].
Qed.

Lemma place_kinds o ks : kind <$> place o ks = ks ++ [Tok.Eof].
Proof. revert o. induction ks as [| k ks IH]; intros o; [done |]. cbn. by rewrite IH. Qed.
