(* ===== verification/Fingerprint.v ===== *)
(** * Statement fingerprints: crates/sql/src/fingerprint.rs

    What is logged of a statement: its text with every literal replaced by a question mark. *)
From Stdlib Require Import Strings.Byte.
From S2P Require Import Prelude Text Value Errors SqlLexer SqlLexerSpec.

Definition is_literal (k : Tok.t) : bool :=
  match k with
  | Tok.IntegerLiteral _ | Tok.FloatLiteral _ | Tok.StringLiteral _ => true
  | _ => false
  end.

Definition is_char_boundary (s : bytes) (i : Z) : bool :=
  (i =? len s) || match index s i with Some b => negb (Utf8.cont b) | None => false end.
(** [&s[a..b]] *)
Definition str_slice (s : bytes) (a b : Z) : outcome SqlError bytes :=
  if (a <=? b) && is_char_boundary s a && is_char_boundary s b then or_panic (sub s a (b - a)) else Panic.

(** [while end > start && bytes[end - 1].is_ascii_whitespace() { end -= 1 }], with [n] bytes
    between [start] and [end] *)
Fixpoint trim_end (sql : bytes) (start : Z) (n : nat) : outcome SqlError Z :=
  match n with
  | O => Ok start
  | S n' =>
      b ← or_panic (index sql (start + Z.of_nat n'));
      if is_ascii_whitespace b then trim_end sql start n' else Ok (start + Z.of_nat n)
  end.

(** The loop over [i], which looks at each token and the next. *)
Fixpoint fingerprint_loop (sql : bytes) (tokens : list Token) (out : bytes) (cursor : Z)
  : outcome SqlError (bytes * Z) :=
  match tokens with
  | [] => Ok (out, cursor)
  | t :: rest =>
      match rest with
      | [] => Ok (out, cursor)
      | t' :: _ =>
          let start := tok_offset t in
          gap ← str_slice sql cursor start;
          end_ ← trim_end sql start (Z.to_nat (tok_offset t' - start));
          piece ← (if is_literal (kind t) then Ok ["?"%byte] else str_slice sql start end_);
          fingerprint_loop sql rest (out ++ gap ++ piece) end_
      end
  end.

Definition fingerprint (sql : bytes) : outcome SqlError bytes :=
  match tokenize sql with
  | Err _ => Ok (str "?")
  | Panic => Panic
  | Ok tokens =>
      '(out, cursor) ← fingerprint_loop sql tokens [] 0;
      last ← str_slice sql cursor (len sql);
      mret (out ++ last)
  end.

(** ** Redaction *)
Definition redacted_text (k : Tok.t) : bytes := if is_literal k then ["?"%byte] else token_text k.
Definition redacted (ks : list Tok.t) : bytes := ks ≫= fun k => redacted_text k ++ [space].

Lemma ident_not_space b : is_ident b = true -> is_ascii_whitespace b = false.
Proof. intros Hb. by destruct (name_no_trivia b [] Hb) as [H _]. Qed.

Lemma digit_ident b : is_ascii_digit b = true -> is_ident b = true.
Proof. intros H. unfold is_ident, is_ascii_alphanumeric. rewrite H. by rewrite !orb_true_r. Qed.

Lemma ident_last s : s <> [] -> Forall (fun b => is_ident b = true) s ->
  exists t b, s = t ++ [b] /\ is_ascii_whitespace b = false.
Proof.
  intros Hne F. destruct s as [| b t] using rev_ind; [done |]. exists t, b. split; [done |].
  apply ident_not_space. apply Forall_app in F as [_ F]. by inversion F.
Qed.

(** A token's text starts with an ASCII byte and ends in one that is not white space. *)
Lemma token_text_ends k : printable k = true ->
  (exists b t, token_text k = b :: t /\ ascii b)
  /\ (exists t b, token_text k = t ++ [b] /\ is_ascii_whitespace b = false).
Proof.
  intros Hp.
  assert (Hid : forall s, s <> [] -> Forall (fun b => is_ident b = true) s ->
    (exists b t, s = b :: t /\ ascii b) /\ (exists t b, s = t ++ [b] /\ is_ascii_whitespace b = false)).
  { intros s Hne F. split; [| by apply ident_last]. destruct s as [| b s]; [done |]. exists b, s. split; [done |].
    apply ident_ascii. by inversion F. }
  assert (Hfmt : forall v, 0 <= v < 10 ^ 20 -> fmt_u v <> [] /\ Forall (fun b => is_ident b = true) (fmt_u v)).
  { intros v Hv. destruct (fmt_u_digits v Hv) as (F & Hne & _). split; [done |]. eapply Forall_impl; [exact F |].
    intros b Hb. by apply digit_ident. }
  destruct k; try discriminate Hp;
    try (solve [apply Hid; [done |]; repeat constructor]); cbn [printable] in Hp; to_prop.
  - cbn [token_text]. unfold is_name in Hp. apply andb_true_iff in Hp as [[Hb Hi]%andb_true_iff _].
    apply Hid; [by destruct name |]. apply Forall_forall. intros x Hx.
    eapply forallb_forall; [exact Hi |]. by apply list_elem_of_In.
  - cbn [token_text]. apply Hid; apply Hfmt; lia.
  - split; [by eexists _, _ |]. exists ("'"%byte :: escape s), "'"%byte. done.
  - split; [by eexists _, _ |]. cbn [token_text]. destruct (Hfmt index) as [Hne F]; [lia |].
    destruct (ident_last _ Hne F) as (t & b & -> & Hb). by exists ("$"%byte :: t), b.
  - split; [by eexists _, _ |]; by exists [], ","%byte.
  - split; [by eexists _, _ |]; by exists [], ";"%byte.
  - split; [by eexists _, _ |]; by exists [], "("%byte.
  - split; [by eexists _, _ |]; by exists [], ")"%byte.
  - split; [by eexists _, _ |]; by exists [], "*"%byte.
  - split; [by eexists _, _ |]; by exists [], "."%byte.
  - split; [by eexists _, _ |]; by exists [], "+"%byte.
  - split; [by eexists _, _ |]; by exists [], "-"%byte.
  - split; [by eexists _, _ |]; by exists [], "/"%byte.
  - split; [by eexists _, _ |]; by exists [], "="%byte.
  - split; [by eexists _, _ |]; by exists ["<"%byte], ">"%byte.
  - split; [by eexists _, _ |]; by exists [], "<"%byte.
  - split; [by eexists _, _ |]; by exists ["<"%byte], "="%byte.
  - split; [by eexists _, _ |]; by exists [], ">"%byte.
  - split; [by eexists _, _ |]; by exists [">"%byte], "="%byte.
Qed.

Lemma boundary_at pre b r : ascii b -> is_char_boundary (pre ++ b :: r) (len pre) = true.
Proof.
  intros Hb. unfold is_char_boundary, index. rewrite (proj2 (Z.leb_le 0 (len pre))) by apply len_nonneg.
  rewrite to_nat_len, lookup_app_r, Nat.sub_diag by lia. cbn.
  apply orb_true_iff. right. unfold ascii, Utf8.cont, Utf8.between in *.
  by rewrite (proj2 (Z.leb_gt 128 _)) by done.
Qed.

Lemma boundary_end s : is_char_boundary s (len s) = true.
Proof. unfold is_char_boundary. by rewrite Z.eqb_refl. Qed.

Lemma str_slice_mid pre mid post a b :
  a = len pre -> b = len pre + len mid ->
  is_char_boundary (pre ++ mid ++ post) a = true -> is_char_boundary (pre ++ mid ++ post) b = true ->
  str_slice (pre ++ mid ++ post) a b = Ok mid.
Proof.
  intros -> -> Ha Hb. unfold str_slice. rewrite Ha, Hb. pose proof (len_nonneg mid).
  rewrite (proj2 (Z.leb_le _ _)) by lia. cbn [andb]. replace (len pre + len mid - len pre) with (len mid) by lia.
  by rewrite sub_app_mid.
Qed.

Lemma index_at {A} (pre : list A) b post : index (pre ++ b :: post) (len pre) = Some b.
Proof.
  unfold index. rewrite (proj2 (Z.leb_le 0 (len pre))) by apply len_nonneg.
  rewrite to_nat_len, lookup_app_r, Nat.sub_diag by lia. done.
Qed.

Lemma trim_end_text pre t b r :
  is_ascii_whitespace b = false ->
  trim_end (pre ++ (t ++ [b]) ++ space :: r) (len pre) (S (length (t ++ [b]))) = Ok (len pre + len (t ++ [b])).
Proof.
  intros Hb. cbn [trim_end]. rewrite (assoc_L app). change (Z.of_nat (length (t ++ [b]))) with (len (t ++ [b])).
  rewrite <- len_app, index_at. cbn [or_panic mbind outcome_bind].
  change (is_ascii_whitespace space) with true. cbn iota.
  rewrite length_app, Nat.add_1_r. cbn [trim_end].
  replace ((pre ++ t ++ [b]) ++ space :: r) with ((pre ++ t) ++ b :: space :: r) by (by rewrite <- !(assoc_L app)).
  change (Z.of_nat (length t)) with (len t). rewrite <- len_app, index_at. cbn [or_panic mbind outcome_bind].
  rewrite Hb. f_equal. rewrite !len_app. unfold len. cbn. lia.
Qed.

Lemma place_cons o k ks : exists t' ts, place o (k :: ks) = mkToken k o :: t' :: ts
  /\ place (o + len (token_text k) + 1) ks = t' :: ts /\ tok_offset t' = o + len (token_text k) + 1.
Proof. cbn [place]. destruct ks; cbn [place]; by eexists _, _. Qed.

Lemma redacted_cons k ks : redacted (k :: ks) = redacted_text k ++ space :: redacted ks.
Proof. unfold redacted. cbn. by rewrite <- (assoc_L app). Qed.

Lemma fingerprint_loop_cons sql t t' ts out cursor :
  fingerprint_loop sql (t :: t' :: ts) out cursor =
  (gap ← str_slice sql cursor (tok_offset t);
   end_ ← trim_end sql (tok_offset t) (Z.to_nat (tok_offset t' - tok_offset t));
   piece ← (if is_literal (kind t) then Ok ["?"%byte] else str_slice sql (tok_offset t) end_);
   fingerprint_loop sql (t' :: ts) (out ++ gap ++ piece) end_).
Proof. done. Qed.

(** The loop over the tokens of a rendering, from any token on. *)
Lemma fingerprint_loop_render n pre ks out :
  forallb printable ks = true ->
  let sql := pre ++ replicate n space ++ render ks in
  is_char_boundary sql (len pre) = true ->
  exists x y c, fingerprint_loop sql (place (len pre + Z.of_nat n) ks) out (len pre) = Ok (out ++ x, c)
    /\ str_slice sql c (len sql) = Ok y /\ x ++ y = replicate n space ++ redacted ks.
Proof.
  revert n pre out. induction ks as [| k ks IH]; intros n pre out Hp sql Hb.
  - exists [], (replicate n space), (len pre). cbn [place fingerprint_loop]. rewrite app_nil_r. split; [done |].
    split; [| by rewrite app_nil_r]. unfold sql in *. cbn [render mbind list_bind] in *.
    apply str_slice_mid; [done | | done | apply boundary_end]. rewrite !len_app, len_nil. lia.
  - cbn [forallb] in Hp. apply andb_true_iff in Hp as [Hk Hp].
    destruct (token_text_ends k Hk) as [(b0 & t0 & Eb & Hb0) (t1 & b1 & Et & Hb1)].
    destruct (place_cons (len pre + Z.of_nat n) k ks) as (t' & ts & -> & Ets & Eo).
    assert (Hn : Z.of_nat n = len (replicate n space)) by (by rewrite len_replicate).
    set (gap := replicate n space) in *. rewrite Hn in *.
    assert (Es : sql = (pre ++ gap) ++ token_text k ++ space :: render ks).
    { unfold sql. by rewrite render_cons, <- !(assoc_L app). }
    assert (B1 : is_char_boundary sql (len pre + len gap) = true).
    { rewrite Es, Eb, <- len_app. by apply boundary_at. }
    assert (B2 : is_char_boundary sql (len pre + len gap + len (token_text k)) = true).
    { rewrite Es, (assoc_L app), <- !len_app. by apply boundary_at. }
    rewrite fingerprint_loop_cons. cbn [tok_offset kind]. rewrite Eo.
    replace (Z.to_nat _) with (S (length (token_text k))) by (unfold len; lia).
    rewrite (str_slice_mid pre gap (render (k :: ks)) _ _ eq_refl eq_refl Hb B1 : str_slice sql _ _ = _).
    cbn [mbind outcome_bind].
    assert (Htrim : trim_end sql (len pre + len gap) (S (length (token_text k)))
                    = Ok (len pre + len gap + len (token_text k))).
    { rewrite Es, <- len_app, Et. by apply trim_end_text. }
    rewrite Htrim. cbn [mbind outcome_bind].
    assert (Hpiece : (if is_literal k then Ok ["?"%byte]
      else str_slice sql (len pre + len gap) (len pre + len gap + len (token_text k))) = Ok (redacted_text k)).
    { unfold redacted_text. destruct (is_literal k); [done |]. rewrite Es in B1, B2 |- *. rewrite <- len_app in *.
      by apply str_slice_mid. }
    rewrite Hpiece. cbn [mbind outcome_bind].
    specialize (IH 1%nat ((pre ++ gap) ++ token_text k) (out ++ gap ++ redacted_text k) Hp). cbv zeta in IH.
    change (replicate 1 space ++ render ks) with (space :: render ks) in IH. rewrite <- (assoc_L app _ (token_text k)), <- Es in IH.
    rewrite !len_app in IH. destruct IH as (x & y & c & El & Ey & Exy); [done |].
    change (Z.of_nat 1) with 1 in El. rewrite Ets in El.
    exists (gap ++ redacted_text k ++ x), y, c. rewrite El. split; [by rewrite <- !(assoc_L app) |]. split; [done |].
    rewrite redacted_cons, <- !(assoc_L app), Exy. done.
Qed.



(** A comment is not white space to the lexer only: after a token that is not a literal it
    is copied into the fingerprint, user text included, and after a literal it is swallowed
    with it. *)
Theorem fingerprint_copies_comments :
  fingerprint (str "SELECT a -- 'secret'") = Ok (str "SELECT a -- 'secret'")
  /\ fingerprint (str "SELECT 1 -- note") = Ok (str "SELECT ?").
Proof. vm_compute. done. Qed.
