(* ===== verification/SqlParser.v ===== *)
(** * SQL statements: crates/sql/src/ast.rs and parser.rs

    The syntax tree and the recursive-descent parser. The parser's state is the list of
    tokens from the current one on (never past the last); recursion takes fuel, and running
    out of it, like indexing past the tokens, is a [Panic]. *)
From Stdlib Require Import Strings.Byte.
From S2P Require Import Prelude Text Value Errors SqlLexer.

(** ** ast.rs *)
Module BinaryOperator.
Inductive t : Type := Eq | NotEq | Lt | LtEq | Gt | GtEq | And | Or | Plus | Minus | Multiply | Divide.
#[global] Instance eq_dec : EqDecision t.
Proof. solve_decision. Defined.
End BinaryOperator.

Module UnaryOperator.
Inductive t : Type := Not | Negate.
#[global] Instance eq_dec : EqDecision t.
Proof. solve_decision. Defined.
End UnaryOperator.

Module SessionContextName.
Inductive t : Type := CurrentCatalog | CurrentSchema | CurrentUser | SessionUser | Version.

Definition keyword (word : bytes) : option t :=
  if eq_ignore_ascii_case word (str "current_catalog") then Some CurrentCatalog
  else if eq_ignore_ascii_case word (str "current_schema") then Some CurrentSchema
  else if eq_ignore_ascii_case word (str "current_user") || eq_ignore_ascii_case word (str "user")
  then Some CurrentUser
  else if eq_ignore_ascii_case word (str "session_user") then Some SessionUser
  else None.

Definition function (word : bytes) : option t :=
  if eq_ignore_ascii_case word (str "current_database") then Some CurrentCatalog
  else if eq_ignore_ascii_case word (str "version") then Some Version
  else keyword word.

Definition column_name (n : t) : bytes :=
  match n with
  | CurrentCatalog => str "current_catalog"
  | CurrentSchema => str "current_schema"
  | CurrentUser => str "current_user"
  | SessionUser => str "session_user"
  | Version => str "version"
  end.
End SessionContextName.

Module Expr.
Inductive t : Type :=
| Literal (v : Value.t)
| SessionContext (name : SessionContextName.t)
| Column (table : option bytes) (name : bytes)
| BinaryOp (left : t) (op : BinaryOperator.t) (right : t)
| UnaryOp (op : UnaryOperator.t) (expr : t)
| IsNull (expr : t) (negated : bool)
| Param (index : Z).
End Expr.

Record TableRef : Type := mkTableRef { table_name : bytes; alias : option bytes }.
Inductive SelectItem : Type := Wildcard | ItemExpr (e : Expr.t).
Record SelectStatement : Type := mkSelect {
  items : list SelectItem;
  from : option TableRef;
  where_clause : option Expr.t;
}.
Record InsertStatement : Type := mkInsert {
  insert_table : bytes;
  insert_columns : list bytes;
  values : list (list Expr.t);
}.
Record ColumnDef : Type := mkColumnDef { col_name : bytes; col_type : DataType.t; nullable : bool }.
Record CreateTableStatement : Type := mkCreateTable { create_table : bytes; create_columns : list ColumnDef }.
Record CreateIndexStatement : Type := mkCreateIndex { index_name : bytes; index_table : bytes; index_column : bytes }.

Module Statement.
Inductive t : Type :=
| Select (s : SelectStatement)
| Insert (s : InsertStatement)
| CreateTable (s : CreateTableStatement)
| CreateIndex (s : CreateIndexStatement)
| Begin
| Commit
| Rollback
| Explain (verbose : bool) (inner : t).
End Statement.

(** ** parser.rs: looking at the tokens *)
Abbreviation P := (M (list Token) SqlError).

Definition current : P Token := fun ts => match ts with t :: _ => (Ok t, ts) | [] => (Panic, ts) end.
Definition current_kind : P Tok.t := t ← current; mret (kind t).
Definition peek_kind (ahead : nat) : P Tok.t := fun ts =>
  match ts !! Nat.min ahead (length ts - 1) with Some t => (Ok (kind t), ts) | None => (Panic, ts) end.
(** Stays on the last token. *)
Definition advance : P Token := fun ts =>
  match ts with
  | [] => (Panic, [])
  | [t] => (Ok t, [t])
  | t :: ts => (Ok t, ts)
  end.

Definition unexpected {A} (expected : bytes) : P A :=
  token ← current;
  if decide (kind token = Tok.Eof) then throw (UnexpectedEof expected)
  else throw (UnexpectedToken expected (kind token) (tok_offset token)).

Definition expect_kind (k : Tok.t) (expected : bytes) : P Token :=
  c ← current_kind;
  if decide (c = k) then advance else unexpected expected.

Definition expect_identifier : P bytes :=
  c ← current_kind;
  match c with
  | Tok.Identifier name => _ ← advance; mret name
  | _ => unexpected (str "an identifier")
  end.

(** [if matches!(self.current().kind, k) { self.advance(); .. }] *)
Definition eats (k : Tok.t) : P bool :=
  c ← current_kind;
  if decide (c = k) then _ ← advance; mret true else mret false.

(** ** Expressions *)
Definition comparison_op (k : Tok.t) : option BinaryOperator.t :=
  match k with
  | Tok.Eq => Some BinaryOperator.Eq
  | Tok.NotEq => Some BinaryOperator.NotEq
  | Tok.Lt => Some BinaryOperator.Lt
  | Tok.LtEq => Some BinaryOperator.LtEq
  | Tok.Gt => Some BinaryOperator.Gt
  | Tok.GtEq => Some BinaryOperator.GtEq
  | _ => None
  end.

Definition consume_empty_argument_list (name : bytes) (offset : Z) : P unit :=
  _ ← advance;
  closed ← eats Tok.RParen;
  if closed : bool then mret tt else throw (UndefinedFunction name offset).

(** [parse_primary] after an identifier *)
Definition parse_name (name : bytes) (offset : Z) : P Expr.t :=
  _ ← advance;
  c ← current_kind;
  if decide (c = Tok.Dot) then
    _ ← advance;
    column ← expect_identifier;
    mret (Expr.Column (Some name) column)
  else if decide (c = Tok.LParen) then
    match SessionContextName.function name with
    | None => throw (UndefinedFunction name offset)
    | Some session_name => _ ← consume_empty_argument_list name offset; mret (Expr.SessionContext session_name)
    end
  else match SessionContextName.keyword name with
       | Some session_name => mret (Expr.SessionContext session_name)
       | None => mret (Expr.Column None name)
       end.

Definition literal (v : Value.t) : P Expr.t := _ ← advance; mret (Expr.Literal v).

Fixpoint is_loop (n : nat) (expr : Expr.t) : P Expr.t :=
  match n with
  | O => lift Panic
  | S n =>
      more ← eats Tok.Is;
      if more : bool then
        negated ← eats Tok.Not;
        _ ← expect_kind Tok.Null (str "NULL");
        is_loop n (Expr.IsNull expr negated)
      else mret expr
  end.

Fixpoint parse_or (n : nat) : P Expr.t :=
  match n with
  | O => lift Panic
  | S n => left ← parse_and n; or_loop n left
  end
with or_loop (n : nat) (left : Expr.t) : P Expr.t :=
  match n with
  | O => lift Panic
  | S n =>
      more ← eats Tok.Or;
      if more : bool then right ← parse_and n; or_loop n (Expr.BinaryOp left BinaryOperator.Or right)
      else mret left
  end
with parse_and (n : nat) : P Expr.t :=
  match n with
  | O => lift Panic
  | S n => left ← parse_not n; and_loop n left
  end
with and_loop (n : nat) (left : Expr.t) : P Expr.t :=
  match n with
  | O => lift Panic
  | S n =>
      more ← eats Tok.And;
      if more : bool then right ← parse_not n; and_loop n (Expr.BinaryOp left BinaryOperator.And right)
      else mret left
  end
with parse_not (n : nat) : P Expr.t :=
  match n with
  | O => lift Panic
  | S n =>
      negated ← eats Tok.Not;
      if negated : bool then expr ← parse_not n; mret (Expr.UnaryOp UnaryOperator.Not expr)
      else parse_is_null n
  end
with parse_is_null (n : nat) : P Expr.t :=
  match n with
  | O => lift Panic
  | S n => expr ← parse_comparison n; is_loop n expr
  end
with parse_comparison (n : nat) : P Expr.t :=
  match n with
  | O => lift Panic
  | S n => left ← parse_unary n; comparison_loop n left
  end
with comparison_loop (n : nat) (left : Expr.t) : P Expr.t :=
  match n with
  | O => lift Panic
  | S n =>
      c ← current_kind;
      match comparison_op c with
      | None => mret left
      | Some op => _ ← advance; right ← parse_unary n; comparison_loop n (Expr.BinaryOp left op right)
      end
  end
with parse_unary (n : nat) : P Expr.t :=
  match n with
  | O => lift Panic
  | S n =>
      minus ← eats Tok.Minus;
      if minus : bool then expr ← parse_unary n; mret (Expr.UnaryOp UnaryOperator.Negate expr)
      else parse_primary n
  end
with parse_primary (n : nat) : P Expr.t :=
  match n with
  | O => lift Panic
  | S n =>
      token ← current;
      match kind token with
      | Tok.IntegerLiteral v => literal (Value.BigInt v)
      | Tok.FloatLiteral v => literal (Value.Double v)
      | Tok.StringLiteral s => literal (Value.Varchar s)
      | Tok.TTrue => literal (Value.Boolean true)
      | Tok.TFalse => literal (Value.Boolean false)
      | Tok.Null => literal Value.Null
      | Tok.Param index => _ ← advance; mret (Expr.Param index)
      | Tok.Identifier name => parse_name name (tok_offset token)
      | Tok.LParen =>
          _ ← advance;
          expr ← parse_or n;
          _ ← expect_kind Tok.RParen (str ")");
          mret expr
      | _ => unexpected (str "an expression")
      end
  end.
Definition parse_expr (n : nat) : P Expr.t := parse_or n.

(** ** Statements *)

(** [while matches!(self.current().kind, TokenKind::Comma) { self.advance(); items.push(..) }] *)
Fixpoint comma_loop {A} (n : nat) (item : P A) (items : list A) : P (list A) :=
  match n with
  | O => lift Panic
  | S n =>
      more ← eats Tok.Comma;
      if more : bool then x ← item; comma_loop n item (items ++ [x]) else mret items
  end.
Definition comma_list {A} (n : nat) (item : P A) : P (list A) :=
  first ← item; comma_loop n item [first].

Definition parse_optional_table_alias : P (option bytes) :=
  as_ ← eats Tok.As;
  if as_ : bool then name ← expect_identifier; mret (Some name) else
  c ← current_kind;
  match c with
  | Tok.Identifier name =>
      if is_reserved_word name then mret None else _ ← advance; mret (Some name)
  | _ => mret None
  end.

Definition parse_table_ref : P TableRef :=
  name ← expect_identifier;
  alias ← parse_optional_table_alias;
  mret (mkTableRef name alias).

Definition parse_select_list (n : nat) : P (list SelectItem) :=
  star ← eats Tok.Star;
  if star : bool then mret [Wildcard] else
  comma_list n (e ← parse_expr n; mret (ItemExpr e)).

Definition is_wildcard (i : SelectItem) : bool := match i with Wildcard => true | _ => false end.

Definition parse_select (n : nat) : P SelectStatement :=
  _ ← expect_kind Tok.Select (str "SELECT");
  t ← current;
  let list_offset := tok_offset t in
  items ← parse_select_list n;
  has_from ← eats Tok.TFrom;
  from ← (if has_from : bool then r ← parse_table_ref; mret (Some r)
          else if existsb is_wildcard items then throw (WildcardWithoutFrom list_offset)
          else mret None);
  has_where ← eats Tok.Where;
  where_clause ← (if has_where : bool then e ← parse_expr n; mret (Some e) else mret None);
  mret (mkSelect items from where_clause).

Definition parse_value_row (n : nat) : P (list Expr.t) :=
  _ ← expect_kind Tok.LParen (str "(");
  exprs ← comma_list n (parse_expr n);
  _ ← expect_kind Tok.RParen (str ")");
  mret exprs.

Definition parse_insert (n : nat) : P InsertStatement :=
  _ ← expect_kind Tok.Insert (str "INSERT");
  _ ← expect_kind Tok.Into (str "INTO");
  table ← expect_identifier;
  has_columns ← eats Tok.LParen;
  columns ← (if has_columns : bool then
               cs ← comma_list n expect_identifier;
               _ ← expect_kind Tok.RParen (str ")");
               mret cs
             else mret []);
  _ ← expect_kind Tok.Values (str "VALUES");
  values ← comma_list n (parse_value_row n);
  mret (mkInsert table columns values).

Definition EXPECTED_TYPE : bytes := str "INTEGER, INT, BIGINT, DOUBLE, TEXT, or BOOLEAN".
Definition type_of_name (name : bytes) : option DataType.t :=
  let upper := to_ascii_uppercase name in
  if decide (upper = str "INTEGER") then Some DataType.Integer
  else if decide (upper = str "INT") then Some DataType.Integer
  else if decide (upper = str "BIGINT") then Some DataType.BigInt
  else if decide (upper = str "DOUBLE") then Some DataType.Double
  else if decide (upper = str "TEXT") then Some (DataType.Varchar u32_max)
  else if decide (upper = str "BOOLEAN") then Some DataType.Boolean
  else None.
Definition parse_type_name : P DataType.t :=
  c ← current_kind;
  match c with
  | Tok.Identifier name =>
      match type_of_name name with
      | Some data_type => _ ← advance; mret data_type
      | None => unexpected EXPECTED_TYPE
      end
  | _ => unexpected EXPECTED_TYPE
  end.

Definition parse_col_def : P ColumnDef :=
  name ← expect_identifier;
  data_type ← parse_type_name;
  mret (mkColumnDef name data_type true).

Definition parse_create_table (n : nat) : P CreateTableStatement :=
  _ ← expect_kind Tok.Create (str "CREATE");
  _ ← expect_kind Tok.Table (str "TABLE");
  table ← expect_identifier;
  _ ← expect_kind Tok.LParen (str "(");
  columns ← comma_list n parse_col_def;
  _ ← expect_kind Tok.RParen (str ")");
  mret (mkCreateTable table columns).

Definition parse_create_index : P CreateIndexStatement :=
  _ ← expect_kind Tok.Create (str "CREATE");
  _ ← expect_kind Tok.Index (str "INDEX");
  index_name ← expect_identifier;
  _ ← expect_kind Tok.On (str "ON");
  table ← expect_identifier;
  _ ← expect_kind Tok.LParen (str "(");
  column ← expect_identifier;
  _ ← expect_kind Tok.RParen (str ")");
  mret (mkCreateIndex index_name table column).

Definition consume_verbose_keyword : P bool :=
  c ← current_kind;
  match c with
  | Tok.Identifier name =>
      if eq_ignore_ascii_case name (str "VERBOSE") then _ ← advance; mret true else mret false
  | _ => mret false
  end.

Definition EXPECTED_STATEMENT : bytes :=
  str "SELECT, INSERT, CREATE, BEGIN, START, COMMIT, ROLLBACK, or EXPLAIN".

(** [parse_explain], given [parse_statement] *)
Definition parse_explain (parse_statement : P Statement.t) : P Statement.t :=
  t ← current;
  let explain_offset := tok_offset t in
  _ ← expect_kind Tok.Explain (str "EXPLAIN");
  verbose ← consume_verbose_keyword;
  inner ← parse_statement;
  match inner with
  | Statement.Begin | Statement.Commit | Statement.Rollback => throw (ExplainOfTransactionControl explain_offset)
  | Statement.Explain _ _ => throw (NestedExplain explain_offset)
  | _ => mret (Statement.Explain verbose inner)
  end.

Fixpoint parse_statement (n : nat) : P Statement.t :=
  match n with
  | O => lift Panic
  | S n =>
      c ← current_kind;
      match c with
      | Tok.Select => s ← parse_select n; mret (Statement.Select s)
      | Tok.Insert => s ← parse_insert n; mret (Statement.Insert s)
      | Tok.Create =>
          k ← peek_kind 1;
          match k with
          | Tok.Index => s ← parse_create_index; mret (Statement.CreateIndex s)
          | _ => s ← parse_create_table n; mret (Statement.CreateTable s)
          end
      | Tok.Begin => _ ← advance; mret Statement.Begin
      | Tok.Start => _ ← advance; _ ← expect_kind Tok.Transaction (str "TRANSACTION"); mret Statement.Begin
      | Tok.Commit => _ ← advance; mret Statement.Commit
      | Tok.Rollback => _ ← advance; mret Statement.Rollback
      | Tok.Explain => parse_explain (parse_statement n)
      | _ => unexpected EXPECTED_STATEMENT
      end
  end.

(** Each token is behind at most eight calls and loop iterations. *)
Definition parser_fuel (ts : list Token) : nat := 8 * length ts + 16.

Definition parse : P Statement.t :=
  ts ← gets id;
  statement ← parse_statement (parser_fuel ts);
  _ ← eats Tok.Semicolon;
  c ← current_kind;
  match c with
  | Tok.Eof => mret statement
  | _ => unexpected (str "end of statement")
  end.

(** [Parser::new(Lexer::new(sql).tokenize()?).parse()] *)
Definition parse_sql (sql : bytes) : outcome SqlError Statement.t :=
  tokens ← tokenize sql;
  (parse tokens).1.
