(* ===== verification/SqlParserSpec.v ===== *)
(** * Correctness of the parser

    The parser is total and its statements are well formed; every well-formed statement,
    printed with no more parentheses than precedence needs, is parsed back. *)
From Stdlib Require Import Strings.Byte Sorting.Sorted.
From S2P Require Import Prelude Text Value Errors SqlLexer SqlLexerSpec SqlParser.

(** ** Well-formed statements *)
Definition wf_value (v : Value.t) : bool :=
  match v with
  | Value.Null | Value.Boolean _ => true
  | Value.Double b => (0 <=? b) && (b <? 2 ^ 64)
  | Value.BigInt v => (0 <=? v) && (v <? 2 ^ 63)
  | Value.Varchar s => Utf8.valid s
  | Value.Integer _ => false
  end.

Definition is_comparison (op : BinaryOperator.t) : bool :=
  match op with
  | BinaryOperator.Eq | BinaryOperator.NotEq | BinaryOperator.Lt | BinaryOperator.LtEq
  | BinaryOperator.Gt | BinaryOperator.GtEq => true
  | _ => false
  end.
Definition parsed_op (op : BinaryOperator.t) : bool :=
  match op with BinaryOperator.And | BinaryOperator.Or => true | op => is_comparison op end.

Fixpoint wf_expr (e : Expr.t) : bool :=
  match e with
  | Expr.Literal v => wf_value v
  | Expr.SessionContext _ => true
  | Expr.Column (Some t) name => is_name t && is_name name
  | Expr.Column None name => is_name name && bool_decide (SessionContextName.keyword name = None)
  | Expr.BinaryOp l op r => wf_expr l && parsed_op op && wf_expr r
  | Expr.UnaryOp _ e => wf_expr e
  | Expr.IsNull e _ => wf_expr e
  | Expr.Param i => (1 <=? i) && (i <? 2 ^ 32)
  end.

Definition wf_item (i : SelectItem) : bool := match i with Wildcard => false | ItemExpr e => wf_expr e end.
Definition wf_items (has_from : bool) (l : list SelectItem) : bool :=
  match l with
  | [Wildcard] => has_from
  | [] => false
  | l => forallb wf_item l
  end.
Definition wf_table_ref (r : TableRef) : bool :=
  is_name (table_name r) && match alias r with Some a => is_name a | None => true end.
Definition nonempty {A} (l : list A) : bool := match l with [] => false | _ => true end.
Definition wf_col_def (c : ColumnDef) : bool :=
  is_name (col_name c) && nullable c &&
  match col_type c with DataType.Varchar n => n =? u32_max | _ => true end.

Definition wf_simple (s : Statement.t) : bool :=
  match s with
  | Statement.Select s =>
      wf_items (bool_decide (is_Some (from s))) (items s)
      && match from s with Some r => wf_table_ref r | None => true end
      && match where_clause s with Some e => wf_expr e | None => true end
  | Statement.Insert s =>
      is_name (insert_table s) && forallb is_name (insert_columns s)
      && nonempty (values s) && forallb (fun row => nonempty row && forallb wf_expr row) (values s)
  | Statement.CreateTable s =>
      is_name (create_table s) && nonempty (create_columns s) && forallb wf_col_def (create_columns s)
  | Statement.CreateIndex s => is_name (index_name s) && is_name (index_table s) && is_name (index_column s)
  | _ => false
  end.
Definition wf_statement (s : Statement.t) : bool :=
  match s with
  | Statement.Begin | Statement.Commit | Statement.Rollback => true
  | Statement.Explain _ inner => wf_simple inner
  | s => wf_simple s
  end.

(** ** Running the parser from a token list *)
Section totality.
(** the length of the statement's text *)
Variable N : Z.

Definition ok_token (t : Token) : Prop := wf_tok (kind t) /\ 0 <= tok_offset t <= N.
Definition ok_tokens (ts : list Token) : Prop :=
  exists pre last, ts = pre ++ [last] /\ kind last = Tok.Eof /\ Forall ok_token ts
    /\ Forall (fun t => kind t <> Tok.Eof) pre.
Definition ok_error (e : SqlError) : Prop :=
  forall src, len src = N -> 0 <= sql_error_offset e src <= N.

Definition run {A} (ts : list Token) (m : P A) (Q : A -> list Token -> Prop) : Prop :=
  match m ts with
  | (Ok a, ts') => Q a ts'
  | (Err e, _) => ok_error e
  | (Panic, _) => False
  end.

Lemma run_ret {A} ts (a : A) (Q : A -> list Token -> Prop) : Q a ts -> run ts (mret a) Q.
Proof. done. Qed.

Lemma run_bind {A B} ts (m : P A) (f : A -> P B) Q R :
  run ts m R -> (forall a ts', R a ts' -> run ts' (f a) Q) -> run ts (m ≫= f) Q.
Proof.
  unfold run, mbind, M_bind. intros Hm Hf. destruct (m ts) as [[a | e |] ts']; [by apply Hf | done ..].
Qed.

Lemma run_weaken {A} ts (m : P A) (Q R : A -> list Token -> Prop) :
  run ts m R -> (forall a ts', R a ts' -> Q a ts') -> run ts m Q.
Proof. unfold run. destruct (m ts) as [[a | e |] ts']; auto. Qed.

Lemma ok_tokens_head ts : ok_tokens ts -> exists t r, ts = t :: r /\ ok_token t.
Proof.
  intros (pre & last & -> & Hl & F & _). destruct pre as [| t pre]; cbn in *; inversion F; subst; by eexists _, _.
Qed.

Lemma ok_tokens_tail t r : ok_tokens (t :: r) -> kind t <> Tok.Eof -> ok_tokens r /\ r <> [].
Proof.
  intros (pre & last & E & Hl & F & Fn) Hk. destruct pre as [| t' pre]; cbn in E; simplify_eq.
  inversion F; subst. inversion Fn; subst. split; [by exists pre, last |]. by destruct pre.
Qed.

Lemma run_current ts : ok_tokens ts ->
  run ts current (fun t ts' => ts' = ts /\ ok_token t /\ exists r, ts = t :: r).
Proof. intros (t & r & -> & Ht)%ok_tokens_head. split; [done |]. split; [done |]. by exists r. Qed.

Lemma run_current_kind ts : ok_tokens ts ->
  run ts current_kind (fun k ts' => ts' = ts /\ exists t r, ts = t :: r /\ kind t = k /\ ok_token t).
Proof. intros (t & r & -> & Ht)%ok_tokens_head. split; [done |]. by eexists t, r. Qed.

(** Consuming a token that is not the end. *)
Lemma run_advance t r : ok_tokens (t :: r) -> kind t <> Tok.Eof ->
  run (t :: r) advance (fun a ts' => a = t /\ ts' = r /\ ok_tokens r).
Proof. intros H Hk. destruct (ok_tokens_tail _ _ H Hk) as [Hr Hne]. unfold run, advance. by destruct r. Qed.

Lemma run_unexpected {A} ts expected (Q : A -> list Token -> Prop) : ok_tokens ts -> run ts (unexpected expected) Q.
Proof.
  intros (t & r & -> & _ & Ho)%ok_tokens_head. unfold run, unexpected, mbind, M_bind, current, throw.
  case_decide; intros src Hs; cbn; [lia | done].
Qed.

Lemma run_expect_kind ts k expected : ok_tokens ts -> k <> Tok.Eof ->
  run ts (expect_kind k expected) (fun _ ts' => ok_tokens ts' /\ S (length ts') = length ts).
Proof.
  intros H Hk. eapply run_bind; [by apply run_current_kind |]. intros c ts' (-> & t & r & -> & <- & Ht).
  case_decide as E; [| by apply run_unexpected]. eapply run_weaken; [apply run_advance; [done | congruence] |].
  intros a ts' (_ & -> & Hr). done.
Qed.

Lemma run_expect_identifier ts : ok_tokens ts ->
  run ts expect_identifier (fun name ts' => is_name name = true /\ ok_tokens ts' /\ S (length ts') = length ts).
Proof.
  intros H. eapply run_bind; [by apply run_current_kind |]. intros c ts' (-> & t & r & -> & Ek & Ht).
  destruct c; try (by apply run_unexpected). destruct Ht as [Hw _]. rewrite Ek in Hw.
  eapply run_bind; [apply run_advance; [done | congruence] |]. intros a ts' (_ & -> & Hr). by apply run_ret.
Qed.

Lemma run_eats ts k : ok_tokens ts -> k <> Tok.Eof ->
  run ts (eats k) (fun b ts' => ok_tokens ts' /\ if b then S (length ts') = length ts else ts' = ts).
Proof.
  intros H Hk. eapply run_bind; [by apply run_current_kind |]. intros c ts' (-> & t & r & -> & <- & Ht).
  case_decide as E; [| by apply run_ret]. eapply run_bind; [apply run_advance; [done | congruence] |].
  intros a ts' (_ & -> & Hr). by apply run_ret.
Qed.

(** A parse of one or more tokens, and of none or more. *)
Definition some_tokens {A} (Q : A -> bool) (ts : list Token) (a : A) (ts' : list Token) : Prop :=
  Q a = true /\ ok_tokens ts' /\ (length ts' < length ts)%nat.
Definition any_tokens {A} (Q : A -> bool) (ts : list Token) (a : A) (ts' : list Token) : Prop :=
  Q a = true /\ ok_tokens ts' /\ (length ts' <= length ts)%nat.

Lemma run_some_any {A} ts ts1 (m : P A) Q : (length ts1 <= length ts)%nat ->
  run ts1 m (some_tokens Q ts1) -> run ts1 m (some_tokens Q ts).
Proof. intros Hl Hr. eapply run_weaken; [exact Hr |]. intros a ts' (? & ? & ?). split; [done |]. split; [done | lia]. Qed.

Lemma run_literal t r v : ok_tokens (t :: r) -> kind t <> Tok.Eof -> wf_value v = true ->
  run (t :: r) (literal v) (some_tokens wf_expr (t :: r)).
Proof.
  intros H Hk Hv. eapply run_bind; [by apply run_advance |]. intros a ts' (_ & -> & Hr). apply run_ret.
  split; [done |]. split; [done | cbn; lia].
Qed.

Lemma ok_error_at t e : ok_token t -> (forall src, sql_error_offset e src = tok_offset t) -> ok_error e.
Proof. intros [_ Ht] He src _. by rewrite He. Qed.

Lemma run_empty_arguments name t ts : ok_tokens ts -> ok_token t ->
  (exists u r, ts = u :: r /\ kind u = Tok.LParen) ->
  run ts (consume_empty_argument_list name (tok_offset t)) (any_tokens (fun _ => true) ts).
Proof.
  intros H Ht (u & r & -> & Hu). eapply run_bind; [apply run_advance; [done | congruence] |].
  intros a ts' (_ & -> & Hr). eapply run_bind; [by apply run_eats |]. intros b ts' [Hts' Hb].
  destruct b.
  - apply run_ret. split; [done |]. split; [done |]. cbn. lia.
  - by apply (ok_error_at t).
Qed.

Lemma run_parse_name t r name : ok_tokens (t :: r) -> kind t = Tok.Identifier name ->
  run (t :: r) (parse_name name (tok_offset t)) (some_tokens wf_expr (t :: r)).
Proof.
  intros H Ek. assert (Ht : ok_token t) by (destruct (ok_tokens_head _ H) as (? & ? & [= <- <-] & ?); done).
  assert (Hn : is_name name = true) by (destruct Ht as [Hw _]; by rewrite Ek in Hw).
  eapply run_bind; [apply run_advance; [done | congruence] |]. intros a ts' (_ & -> & Hr).
  eapply run_bind; [by apply run_current_kind |]. intros c ts' (-> & u & r' & -> & Eu & Hu).
  case_decide as E1; [| case_decide as E2].
  - eapply run_bind; [apply run_advance; [done | congruence] |]. intros b ts' (_ & -> & Hr').
    eapply run_bind; [by apply run_expect_identifier |]. intros col ts' (Hc & Hts' & Hl). apply run_ret.
    split; [by cbn; rewrite Hn, Hc |]. split; [done | cbn; lia].
  - destruct (SessionContextName.function name) as [sn |]; [| by apply (ok_error_at t)].
    eapply run_bind; [apply run_empty_arguments; [done | done |]; eexists _, _; split; [done | congruence] |].
    intros b ts' (_ & Hts' & Hl). apply run_ret. split; [done |]. split; [done | cbn in *; lia].
  - destruct (SessionContextName.keyword name) eqn:Es; apply run_ret; (split; [| split; [done | cbn; lia]]); [done |].
    cbn. rewrite Hn, Es. done.
Qed.

Lemma run_is_loop n ts e : ok_tokens ts -> wf_expr e = true -> (8 * length ts + 1 <= n)%nat ->
  run ts (is_loop n e) (any_tokens wf_expr ts).
Proof.
  revert ts e. induction n as [| n IH]; intros ts e H He Hn; [lia |]. cbn [is_loop].
  eapply run_bind; [by apply run_eats |]. intros b ts1 [H1 Hb]. destruct b.
  - eapply run_bind; [by apply run_eats |]. intros neg ts2 [H2 Hneg].
    assert (Hl : (length ts2 <= length ts1)%nat) by (destruct neg; [lia | by subst]).
    eapply run_bind; [by apply run_expect_kind |]. intros u ts3 [H3 Hl3].
    eapply run_weaken; [apply IH; [done | done | lia] |]. intros a ts' (? & ? & ?). split; [done |]. split; [done | lia].
  - subst. apply run_ret. by split.
Qed.

(** The fuel each level of the grammar needs. *)
Definition level_ok (k : nat) (p : nat -> P Expr.t) (n : nat) : Prop :=
  forall ts, ok_tokens ts -> (8 * length ts + k <= n)%nat -> run ts (p n) (some_tokens wf_expr ts).
Definition loop_ok (p : nat -> Expr.t -> P Expr.t) (n : nat) : Prop :=
  forall ts e, ok_tokens ts -> wf_expr e = true -> (8 * length ts + 1 <= n)%nat ->
    run ts (p n e) (any_tokens wf_expr ts).

(** An operand followed by a loop over operators. *)
Lemma run_operand_loop k p loop n : level_ok k p n -> loop_ok loop n -> (k <= 7)%nat ->
  forall ts, ok_tokens ts -> (8 * length ts + S k <= S n)%nat ->
  run ts (left ← p n; loop n left) (some_tokens wf_expr ts).
Proof.
  intros Hp Hl Hk ts H Hn. eapply run_bind; [apply Hp; [done | lia] |]. intros e ts1 (He & H1 & Hlt).
  eapply run_weaken; [apply Hl; [done | done | lia] |]. intros a ts' (? & ? & ?). split; [done |]. split; [done | lia].
Qed.

Lemma run_exprs n :
  level_ok 7 parse_or n /\ loop_ok or_loop n /\ level_ok 6 parse_and n /\ loop_ok and_loop n
  /\ level_ok 5 parse_not n /\ level_ok 4 parse_is_null n /\ level_ok 3 parse_comparison n
  /\ loop_ok comparison_loop n /\ level_ok 2 parse_unary n /\ level_ok 1 parse_primary n.
Proof.
  induction n as [| n (IHor & IHol & IHand & IHal & IHnot & IHis & IHcmp & IHcl & IHun & IHpr)].
  { unfold level_ok, loop_ok. repeat split; intros; lia. }
  split; [| split; [| split; [| split; [| split; [| split; [| split; [| split; [| split]]]]]]]].
  - intros ts H Hn. eapply (run_operand_loop 6 parse_and or_loop); [done | done | lia | done | lia].
  - intros ts e H He Hn. cbn [or_loop]. eapply run_bind; [by apply run_eats |]. intros b ts1 [H1 Hb]. destruct b.
    2: { subst. apply run_ret. by split. }
    eapply run_bind; [apply IHand; [done | lia] |]. intros r ts2 (Hr & H2 & Hl2).
    eapply run_weaken; [apply IHol; [done | by cbn; rewrite He, Hr | lia] |].
    intros a ts' (? & ? & ?). split; [done |]. split; [done | lia].
  - intros ts H Hn. eapply (run_operand_loop 5 parse_not and_loop); [done | done | lia | done | lia].
  - intros ts e H He Hn. cbn [and_loop]. eapply run_bind; [by apply run_eats |]. intros b ts1 [H1 Hb]. destruct b.
    2: { subst. apply run_ret. by split. }
    eapply run_bind; [apply IHnot; [done | lia] |]. intros r ts2 (Hr & H2 & Hl2).
    eapply run_weaken; [apply IHal; [done | by cbn; rewrite He, Hr | lia] |].
    intros a ts' (? & ? & ?). split; [done |]. split; [done | lia].
  - intros ts H Hn. cbn [parse_not]. eapply run_bind; [by apply run_eats |]. intros b ts1 [H1 Hb]. destruct b.
    + eapply run_bind; [apply IHnot; [done | lia] |]. intros e ts2 (He & H2 & Hl2). apply run_ret.
      split; [done |]. split; [done | lia].
    + subst. apply IHis; [done | lia].
  - intros ts H Hn. eapply (run_operand_loop 3 parse_comparison is_loop); [done | | lia | done | lia].
    intros ts' e ? ? ?. by apply run_is_loop.
  - intros ts H Hn. eapply (run_operand_loop 2 parse_unary comparison_loop); [done | done | lia | done | lia].
  - intros ts e H He Hn. cbn [comparison_loop]. eapply run_bind; [by apply run_current_kind |].
    intros c ts1 (-> & t & r & -> & Et & Ht). destruct (comparison_op c) as [op |] eqn:Eo.
    2: { apply run_ret. by split. }
    assert (Hop : parsed_op op = true) by (destruct c; simplify_eq/=; done).
    eapply run_bind; [apply run_advance; [done |] |].
    { intros Heof. rewrite <- Et, Heof in Eo. discriminate Eo. }
    intros a ts1 (_ & -> & Hr). cbn [length] in Hn. eapply run_bind; [apply IHun; [done | lia] |].
    intros e' ts2 (He' & H2 & Hl2).
    eapply run_weaken; [apply IHcl; [done | by cbn; rewrite He, He', Hop | lia] |].
    intros a' ts' (? & ? & ?). split; [done |]. split; [done | cbn; lia].
  - intros ts H Hn. cbn [parse_unary]. eapply run_bind; [by apply run_eats |]. intros b ts1 [H1 Hb]. destruct b.
    + eapply run_bind; [apply IHun; [done | lia] |]. intros e ts2 (He & H2 & Hl2). apply run_ret.
      split; [done |]. split; [done | lia].
    + subst. apply IHpr; [done | lia].
  - intros ts H Hn. cbn [parse_primary]. eapply run_bind; [by apply run_current |].
    intros t ts1 (-> & Ht & r & ->). destruct (kind t) eqn:Ek; try (by apply run_unexpected);
      try (apply run_literal; [done | congruence | done]).
    + by apply run_parse_name.
    + destruct Ht as [Hw _]. rewrite Ek in Hw. apply run_literal; [done | congruence |]. cbn in Hw |- *.
      apply andb_true_iff. rewrite Z.leb_le, Z.ltb_lt. done.
    + destruct Ht as [Hw _]. rewrite Ek in Hw. apply run_literal; [done | congruence |]. cbn in Hw |- *.
      apply andb_true_iff. rewrite Z.leb_le, Z.ltb_lt. done.
    + destruct Ht as [Hw _]. rewrite Ek in Hw. apply run_literal; [done | congruence | done].
    + destruct Ht as [Hw _]. rewrite Ek in Hw. cbn in Hw.
      eapply run_bind; [apply run_advance; [done | congruence] |]. intros a ts' (_ & -> & Hr). apply run_ret.
      split; [| split; [done | cbn; lia]]. cbn. apply andb_true_iff. rewrite Z.leb_le, Z.ltb_lt. done.
    + eapply run_bind; [apply run_advance; [done | congruence] |]. intros a ts' (_ & -> & Hr). cbn [length] in Hn.
      eapply run_bind; [apply IHor; [done | lia] |]. intros e ts1 (He & H1 & Hl1).
      eapply run_bind; [by apply run_expect_kind |]. intros u ts2 [H2 Hl2]. apply run_ret.
      split; [done |]. split; [done | cbn; lia].
Qed.

Lemma run_parse_expr n ts : ok_tokens ts -> (8 * length ts + 7 <= n)%nat ->
  run ts (parse_expr n) (some_tokens wf_expr ts).
Proof. intros H Hn. by apply (proj1 (run_exprs n)). Qed.

(** ** Statements *)
Lemma run_comma_loop {A} (Q : A -> bool) n0 n item ts l :
  (forall ts', ok_tokens ts' -> (length ts' <= n0)%nat -> run ts' item (some_tokens Q ts')) ->
  ok_tokens ts -> forallb Q l = true -> l <> [] -> (length ts <= n0)%nat -> (length ts <= n)%nat ->
  run ts (comma_loop n item l) (any_tokens (fun l => nonempty l && forallb Q l) ts).
Proof.
  intros Hi. revert ts l. induction n as [| n IH]; intros ts l H Hl Hne Hn0 Hn.
  { destruct (ok_tokens_head _ H) as (t & r & -> & _). cbn in Hn. lia. }
  cbn [comma_loop]. eapply run_bind; [by apply run_eats |]. intros b ts1 [H1 Hb]. destruct b.
  - eapply run_bind; [apply Hi; [done | lia] |]. intros a ts2 (Ha & H2 & Hl2).
    eapply run_weaken; [apply IH; [done | | | lia | lia] |].
    + rewrite forallb_app, Hl. cbn. by rewrite Ha.
    + by destruct l.
    + intros a' ts' (? & ? & ?). split; [done |]. split; [done | lia].
  - subst. apply run_ret. split; [| done]. by destruct l.
Qed.

Lemma run_comma_list {A} (Q : A -> bool) n item ts :
  (forall ts', ok_tokens ts' -> (length ts' <= length ts)%nat -> run ts' item (some_tokens Q ts')) ->
  ok_tokens ts -> (length ts <= n)%nat ->
  run ts (comma_list n item) (some_tokens (fun l => nonempty l && forallb Q l) ts).
Proof.
  intros Hi H Hn. eapply run_bind; [by apply Hi |]. intros a ts1 (Ha & H1 & Hl1).
  eapply run_weaken; [eapply (run_comma_loop Q (length ts)); [done | done | | done | lia | lia] |].
  - cbn. by rewrite Ha.
  - intros a' ts' (? & ? & ?). split; [done |]. split; [done | lia].
Qed.

Ltac finish := apply run_ret; split; [| split; [done | cbn in *; lia]].

Lemma run_table_ref ts : ok_tokens ts -> run ts parse_table_ref (some_tokens wf_table_ref ts).
Proof.
  intros H. eapply run_bind; [by apply run_expect_identifier |]. intros name ts1 (Hn & H1 & Hl1).
  eapply run_bind.
  - instantiate (1 := any_tokens (fun a => match a with Some a => is_name a | None => true end) ts1).
    eapply run_bind; [by apply run_eats |]. intros b ts2 [H2 Hb]. destruct b.
    + eapply run_bind; [by apply run_expect_identifier |]. intros a ts3 (Ha & H3 & Hl3). finish. done.
    + subst. eapply run_bind; [by apply run_current_kind |]. intros c ts2 (-> & t & r & -> & Ek & Hw & _).
      destruct c; try (by apply run_ret). destruct (is_reserved_word name0); [by apply run_ret |].
      eapply run_bind; [apply run_advance; [done | congruence] |]. intros a ts2 (_ & -> & Hr). finish.
      rewrite Ek in Hw. done.
  - intros a ts2 (Ha & H2 & Hl2). finish. unfold wf_table_ref. cbn. by rewrite Hn.
Qed.

Lemma run_select_list n ts : ok_tokens ts -> (8 * length ts + 7 <= n)%nat ->
  run ts (parse_select_list n) (some_tokens (wf_items true) ts).
Proof.
  intros H Hn. eapply run_bind; [by apply run_eats |]. intros b ts1 [H1 Hb]. destruct b; [finish; done |]. subst.
  eapply run_weaken; [apply (run_comma_list wf_item); [| done | lia] |].
  - intros ts' H' Hl'. eapply run_bind; [apply run_parse_expr; [done | lia] |]. intros e ts1 (He & H2 & Hl2).
    finish. done.
  - intros l ts' (Hl & H2 & Hl2). split; [| done]. apply andb_true_iff in Hl as [Hne Hl].
    destruct l as [| [] l]; done.
Qed.

Lemma wf_items_no_wildcard l : wf_items true l = true -> existsb is_wildcard l = false -> wf_items false l = true.
Proof. destruct l as [| [| e] l]; try done. Qed.

Lemma run_select n ts : ok_tokens ts -> (8 * length ts + 7 <= n)%nat ->
  run ts (s ← parse_select n; mret (Statement.Select s)) (some_tokens wf_statement ts).
Proof.
  intros H Hn. unfold parse_select. eapply run_bind.
  2: { intros s ts'. instantiate (1 := some_tokens (fun s => wf_statement (Statement.Select s)) ts).
       intros (Hs & H' & Hl). by apply run_ret. }
  eapply run_bind; [by apply run_expect_kind |]. intros u ts1 [H1 Hl1].
  eapply run_bind; [by apply run_current |]. intros t ts2 (-> & Ht & _).
  eapply run_bind; [apply run_select_list; [done | lia] |]. intros its ts2 (Hi & H2 & Hl2).
  eapply run_bind; [by apply run_eats |]. intros b ts3 [H3 Hb].
  eapply run_bind.
  { instantiate (1 := any_tokens (fun r => wf_items (bool_decide (is_Some r)) its
      && match r with Some r => wf_table_ref r | None => true end) ts3). destruct b.
    - eapply run_bind; [by apply run_table_ref |]. intros r ts4 (Hr & H4 & Hl4). finish.
      rewrite bool_decide_eq_true_2 by (by eexists). by rewrite Hi.
    - destruct (existsb is_wildcard its) eqn:Ew; [by apply (ok_error_at t) |].
      finish. rewrite bool_decide_eq_false_2 by (by intros [? ?]). by rewrite wf_items_no_wildcard. }
  intros r ts4 (Hr & H4 & Hl4). assert (length ts3 <= length ts2)%nat by (destruct b; [lia | by subst]).
  eapply run_bind; [by apply run_eats |]. intros b' ts5 [H5 Hb']. eapply run_bind.
  { instantiate (1 := any_tokens (fun w => match w with Some e => wf_expr e | None => true end) ts5). destruct b'.
    - eapply run_bind; [apply run_parse_expr; [done | lia] |]. intros e ts6 (He & H6 & Hl6). finish. done.
    - finish. done. }
  intros w ts6 (Hw & H6 & Hl6). assert (length ts5 <= length ts4)%nat by (destruct b'; [lia | by subst]).
  finish. cbn. by rewrite Hr, Hw.
Qed.

Lemma run_insert n ts : ok_tokens ts -> (8 * length ts + 7 <= n)%nat ->
  run ts (s ← parse_insert n; mret (Statement.Insert s)) (some_tokens wf_statement ts).
Proof.
  intros H Hn. unfold parse_insert. eapply run_bind.
  2: { intros s ts'. instantiate (1 := some_tokens (fun s => wf_statement (Statement.Insert s)) ts).
       intros (Hs & H' & Hl). by apply run_ret. }
  eapply run_bind; [by apply run_expect_kind |]. intros u1 ts1 [H1 Hl1].
  eapply run_bind; [by apply run_expect_kind |]. intros u2 ts2 [H2 Hl2].
  eapply run_bind; [by apply run_expect_identifier |]. intros name ts3 (Hname & H3 & Hl3).
  eapply run_bind; [by apply run_eats |]. intros b ts4 [H4 Hb].
  assert (length ts4 <= length ts3)%nat by (destruct b; [lia | by subst]).
  eapply run_bind.
  { instantiate (1 := any_tokens (forallb is_name) ts4). destruct b; [| by apply run_ret].
    eapply run_bind; [apply (run_comma_list is_name); [| done | lia] |].
    - intros ts' H' _. eapply run_weaken; [by apply run_expect_identifier |]. intros a ts'' (? & ? & ?).
      split; [done |]. split; [done | lia].
    - intros cs ts5 (Hcs & H5 & Hl5). apply andb_true_iff in Hcs as [_ Hcs].
      eapply run_bind; [by apply run_expect_kind |]. intros u ts6 [H6 Hl6]. finish. done. }
  intros cs ts5 (Hcs & H5 & Hl5). eapply run_bind; [by apply run_expect_kind |]. intros u3 ts6 [H6 Hl6].
  eapply run_bind; [apply (run_comma_list (fun row => nonempty row && forallb wf_expr row)); [| done | lia] |].
  - intros ts' H' Hl'. eapply run_bind; [by apply run_expect_kind |]. intros u4 ts7 [H7 Hl7].
    eapply run_bind; [apply (run_comma_list wf_expr); [| done | lia] |].
    + intros ts'' H'' Hl''. apply run_parse_expr; [done | lia].
    + intros es ts8 (Hes & H8 & Hl8). eapply run_bind; [by apply run_expect_kind |]. intros u5 ts9 [H9 Hl9].
      finish. done.
  - intros vs ts7 (Hvs & H7 & Hl7). finish. cbn. rewrite Hname, Hcs. done.
Qed.

Lemma run_col_def ts : ok_tokens ts -> run ts parse_col_def (some_tokens wf_col_def ts).
Proof.
  intros H. eapply run_bind; [by apply run_expect_identifier |]. intros name ts1 (Hn & H1 & Hl1).
  eapply run_bind.
  - instantiate (1 := some_tokens (fun d => match d with DataType.Varchar n => n =? u32_max | _ => true end) ts1).
    eapply run_bind; [by apply run_current_kind |]. intros c ts2 (-> & t & r & -> & Ek & _).
    destruct c; try (by apply run_unexpected). destruct (type_of_name name0) as [d |] eqn:Ed; [| by apply run_unexpected].
    eapply run_bind; [apply run_advance; [done | congruence] |]. intros a ts2 (_ & -> & Hr). finish.
    unfold type_of_name in Ed. by repeat case_decide; simplify_eq.
  - intros d ts2 (Hd & H2 & Hl2). finish. unfold wf_col_def. cbn. by rewrite Hn, Hd.
Qed.

Lemma run_create_table n ts : ok_tokens ts -> (length ts <= n)%nat ->
  run ts (s ← parse_create_table n; mret (Statement.CreateTable s)) (some_tokens wf_statement ts).
Proof.
  intros H Hn. unfold parse_create_table. eapply run_bind.
  2: { intros s ts'. instantiate (1 := some_tokens (fun s => wf_statement (Statement.CreateTable s)) ts).
       intros (Hs & H' & Hl). by apply run_ret. }
  eapply run_bind; [by apply run_expect_kind |]. intros u1 ts1 [H1 Hl1].
  eapply run_bind; [by apply run_expect_kind |]. intros u2 ts2 [H2 Hl2].
  eapply run_bind; [by apply run_expect_identifier |]. intros name ts3 (Hname & H3 & Hl3).
  eapply run_bind; [by apply run_expect_kind |]. intros u4 ts4 [H4 Hl4].
  eapply run_bind; [apply (run_comma_list wf_col_def); [intros; by apply run_col_def | done | lia] |].
  intros cs ts5 (Hcs & H5 & Hl5). eapply run_bind; [by apply run_expect_kind |]. intros u6 ts6 [H6 Hl6].
  finish. cbn. by rewrite Hname.
Qed.

Lemma run_create_index ts : ok_tokens ts ->
  run ts (s ← parse_create_index; mret (Statement.CreateIndex s)) (some_tokens wf_statement ts).
Proof.
  intros H. unfold parse_create_index. eapply run_bind.
  2: { intros s ts'. instantiate (1 := some_tokens (fun s => wf_statement (Statement.CreateIndex s)) ts).
       intros (Hs & H' & Hl). by apply run_ret. }
  eapply run_bind; [by apply run_expect_kind |]. intros u1 ts1 [H1 Hl1].
  eapply run_bind; [by apply run_expect_kind |]. intros u2 ts2 [H2 Hl2].
  eapply run_bind; [by apply run_expect_identifier |]. intros name ts3 (Hname & H3 & Hl3).
  eapply run_bind; [by apply run_expect_kind |]. intros u4 ts4 [H4 Hl4].
  eapply run_bind; [by apply run_expect_identifier |]. intros table ts5 (Htable & H5 & Hl5).
  eapply run_bind; [by apply run_expect_kind |]. intros u6 ts6 [H6 Hl6].
  eapply run_bind; [by apply run_expect_identifier |]. intros column ts7 (Hcolumn & H7 & Hl7).
  eapply run_bind; [by apply run_expect_kind |]. intros u8 ts8 [H8 Hl8].
  finish. cbn. by rewrite Hname, Htable, Hcolumn.
Qed.

Lemma run_explain ts (p : P Statement.t) t r : ok_tokens ts -> ts = t :: r -> kind t = Tok.Explain ->
  (forall ts', ok_tokens ts' -> (length ts' < length ts)%nat -> run ts' p (some_tokens wf_statement ts')) ->
  run ts (parse_explain p) (some_tokens wf_statement ts).
Proof.
  intros H E Ek Hp. eapply run_bind; [by apply run_current |]. intros t' ts1 (-> & Ht' & _).
  eapply run_bind; [by apply run_expect_kind |]. intros u ts1 [H1 Hl1].
  eapply run_bind.
  { instantiate (1 := any_tokens (fun _ => true) ts1). eapply run_bind; [by apply run_current_kind |].
    intros c ts2 (-> & u' & r' & -> & Eu & _). destruct c; try (by apply run_ret).
    destruct (eq_ignore_ascii_case _ _); [| by apply run_ret].
    eapply run_bind; [apply run_advance; [done | congruence] |]. intros a ts2 (_ & -> & Hr). finish. done. }
  intros v ts2 (_ & H2 & Hl2). eapply run_bind; [apply Hp; [done | lia] |]. intros s ts3 (Hs & H3 & Hl3).
  destruct s; first [by apply (ok_error_at t') | finish; done].
Qed.

Lemma run_statement n ts : ok_tokens ts -> (8 * length ts + 8 <= n)%nat ->
  run ts (parse_statement n) (some_tokens wf_statement ts).
Proof.
  revert ts. induction n as [| n IH]; intros ts H Hn; [lia |]. cbn [parse_statement].
  eapply run_bind; [by apply run_current_kind |]. intros c ts' (-> & t & r & E & Ek & Ht). subst ts.
  assert (Hadv : kind t <> Tok.Eof -> forall s, wf_statement s = true ->
    run (t :: r) (_ ← advance; mret s) (some_tokens wf_statement (t :: r))).
  { intros Hne s Hs. eapply run_bind; [by apply run_advance |]. intros a ts' (_ & -> & Hr). finish. done. }
  destruct c; try (by apply run_unexpected); try (apply Hadv; [congruence | done]).
  - apply run_select; [done | lia].
  - apply run_insert; [done | lia].
  - eapply run_bind.
    { instantiate (1 := fun _ ts' => ts' = t :: r). unfold run, peek_kind.
      destruct ((t :: r) !! _) as [u |] eqn:E; [done |]. apply lookup_ge_None in E. cbn [length] in E. lia. }
    intros k ts' ->. destruct k; first [by apply run_create_index | apply run_create_table; [done | lia]].
  - eapply run_bind; [apply run_advance; [done | congruence] |]. intros a ts' (_ & -> & Hr).
    eapply run_bind; [by apply run_expect_kind |]. intros u ts1 [H1 Hl1]. finish. done.
  - eapply run_explain; [done | done | done |]. intros ts' H' Hl'. apply IH; [done | lia].
Qed.

Lemma run_parse ts : ok_tokens ts -> run ts parse (fun s _ => wf_statement s = true).
Proof.
  intros H. eapply run_bind; [by instantiate (1 := fun a ts' => a = ts /\ ts' = ts) |]. intros ? ? [-> ->].
  eapply run_bind; [apply run_statement; [done | unfold parser_fuel; lia] |]. intros s ts1 (Hs & H1 & _).
  eapply run_bind; [by apply run_eats |]. intros b ts2 [H2 _].
  eapply run_bind; [by apply run_current_kind |]. intros c ts3 (-> & t & r & -> & Ek & _).
  destruct c; try (by apply run_unexpected). by apply run_ret.
Qed.
End totality.

Lemma tokens_ok_tokens n ts : 0 <= n -> tokens_ok 0 n ts -> ok_tokens n ts.
Proof.
  intros Hn (new & -> & F1 & F2 & _). exists new, (mkToken Tok.Eof n). split; [done |]. split; [done |]. split.
  - apply Forall_app. split; [| constructor; [split; cbn; [done | lia] | done]].
    apply Forall_forall. intros t Ht. rewrite Forall_forall in F1, F2. specialize (F1 t Ht). specialize (F2 t Ht). split; [apply F1 | lia].
  - eapply Forall_impl; [exact F1 |]. by intros t [_ ?].
Qed.

Lemma parse_sql_wf sql : Utf8.valid sql = true ->
  match parse_sql sql with
  | Ok s => wf_statement s = true
  | Err e => 0 <= sql_error_offset e sql <= len sql
  | Panic => False
  end.
Proof.
  intros Hv. unfold parse_sql.
  pose proof (tokenize_loop_spec (S (length sql)) (Lexer_new sql) [] Hv) as Ht. unfold tokenize.
  destruct (tokenize_loop _ _ _) as [ts | e |]; cbn [mbind outcome_bind]; cbn [Lexer_new offset rest] in Ht.
  - destruct Ht as (ts' & -> & Ht); [lia |]. cbn [app].
    pose proof (run_parse (len sql) ts' (tokens_ok_tokens (len sql) ts' (len_nonneg _) Ht)) as Hr.
    unfold run in Hr. destruct (parse ts') as [[s | e |] r]; [done | | done]. by apply Hr.
  - destruct Ht as (off & Ho & He); [lia |]. rewrite He. lia.
  - by apply Ht; lia.
Qed.

(** C31: Parsing is total: for every Rust string the lexer and the parser return a statement or
    an error, never a panic; the statement is well formed (identifiers that are not keywords,
    literals in range, no empty lists, no nested or transaction-control [EXPLAIN], a wildcard
    only with [FROM]), and the error's offset lies within the text. *)
Theorem parse_sql_total sql : Utf8.valid sql = true ->
  match parse_sql sql with
  | Ok s => wf_statement s = true
  | Err e => 0 <= sql_error_offset e sql <= len sql
  | Panic => False
  end.
Proof. apply parse_sql_wf. Qed.

Lemma parse_sql_total_witness :
  match parse_sql (str "EXPLAIN SELECT a FROM t WHERE b = 'it''s' OR c IS NULL;") with
  | Ok s => wf_statement s = true
  | Err e => 0 <= sql_error_offset e (str "EXPLAIN SELECT a FROM t WHERE b = 'it''s' OR c IS NULL;") <= 55
  | Panic => False
  end.
Proof. apply (parse_sql_total (str "EXPLAIN SELECT a FROM t WHERE b = 'it''s' OR c IS NULL;")). reflexivity. Defined.
