(* ===== verification/SqlPrint.v ===== *)
(** * Printing statements and parsing them back

    A printer that writes only the parentheses that precedence and associativity require, and
    the proof that the lexer and parser invert it: so the precedence levels, the left
    associativity of the binary operators and every statement form are those of the grammar. *)
From Stdlib Require Import Strings.Byte.
From S2P Require Import Prelude Text Value Errors SqlLexer SqlLexerSpec SqlParser SqlParserSpec.

(** ** The printer *)

(** From loosest to tightest: OR, AND, NOT, IS NULL, comparisons, negation, the rest. *)
Definition level (e : Expr.t) : nat :=
  match e with
  | Expr.BinaryOp _ BinaryOperator.Or _ => 0
  | Expr.BinaryOp _ BinaryOperator.And _ => 1
  | Expr.UnaryOp UnaryOperator.Not _ => 2
  | Expr.IsNull _ _ => 3
  | Expr.BinaryOp _ _ _ => 4
  | Expr.UnaryOp UnaryOperator.Negate _ => 5
  | _ => 6
  end.

Definition op_token (op : BinaryOperator.t) : Tok.t :=
  match op with
  | BinaryOperator.Eq => Tok.Eq
  | BinaryOperator.NotEq => Tok.NotEq
  | BinaryOperator.Lt => Tok.Lt
  | BinaryOperator.LtEq => Tok.LtEq
  | BinaryOperator.Gt => Tok.Gt
  | BinaryOperator.GtEq => Tok.GtEq
  | BinaryOperator.And => Tok.And
  | BinaryOperator.Or => Tok.Or
  | BinaryOperator.Plus => Tok.Plus
  | BinaryOperator.Minus => Tok.Minus
  | BinaryOperator.Multiply => Tok.Star
  | BinaryOperator.Divide => Tok.Slash
  end.
Definition op_level (op : BinaryOperator.t) : nat :=
  match op with BinaryOperator.Or => 0 | BinaryOperator.And => 1 | _ => 4 end.

Definition print_value (v : Value.t) : Tok.t :=
  match v with
  | Value.Null => Tok.Null
  | Value.Boolean true => Tok.TTrue
  | Value.Boolean false => Tok.TFalse
  | Value.Integer v | Value.BigInt v => Tok.IntegerLiteral v
  | Value.Double b => Tok.FloatLiteral b
  | Value.Varchar s => Tok.StringLiteral s
  end.

Definition print_session (n : SessionContextName.t) : list Tok.t :=
  match n with
  | SessionContextName.Version => [Tok.Identifier (SessionContextName.column_name n); Tok.LParen; Tok.RParen]
  | n => [Tok.Identifier (SessionContextName.column_name n)]
  end.

Definition parens (b : bool) (ks : list Tok.t) : list Tok.t :=
  if b then Tok.LParen :: ks ++ [Tok.RParen] else ks.

(** [e] where an expression of at least this level is expected *)
Fixpoint print (k : nat) (e : Expr.t) : list Tok.t :=
  parens (level e <? k)%nat
    match e with
    | Expr.Literal v => [print_value v]
    | Expr.SessionContext n => print_session n
    | Expr.Column None name => [Tok.Identifier name]
    | Expr.Column (Some t) name => [Tok.Identifier t; Tok.Dot; Tok.Identifier name]
    | Expr.BinaryOp l op r => print (op_level op) l ++ op_token op :: print (S (op_level op)) r
    | Expr.UnaryOp UnaryOperator.Not e => Tok.Not :: print 2 e
    | Expr.UnaryOp UnaryOperator.Negate e => Tok.Minus :: print 5 e
    | Expr.IsNull e negated => print 3 e ++ Tok.Is :: (if negated then [Tok.Not] else []) ++ [Tok.Null]
    | Expr.Param i => [Tok.Param i]
    end.

(** ** Following tokens *)

(** The level of the operator a token continues an expression with. *)
Definition operator_level (k : Tok.t) : option nat :=
  match k with
  | Tok.Or => Some 0
  | Tok.And => Some 1
  | Tok.Is => Some 3
  | Tok.Eq | Tok.NotEq | Tok.Lt | Tok.LtEq | Tok.Gt | Tok.GtEq => Some 4
  | Tok.Dot | Tok.LParen => Some 9
  | _ => None
  end%nat.
(** An expression of level [k] ends before this token. *)
Definition follow (k : nat) (rest : list Token) : Prop :=
  match rest with
  | [] => False
  | t :: _ => match operator_level (kind t) with Some j => (j < k /\ j < 9)%nat | None => True end
  end.

Lemma follow_mono j k rest : (j <= k)%nat -> follow j rest -> follow k rest.
Proof. intros Hjk. unfold follow. destruct rest as [| t r]; [done |]. destruct (operator_level _); [lia | done]. Qed.

Lemma follow_nonempty k rest : follow k rest -> rest <> [].
Proof. by destruct rest. Qed.

Lemma app_nonempty_r {A} (l r : list A) : r <> [] -> l ++ r <> [].
Proof. by destruct l, r. Qed.

(** ** Steps of the parser *)
Lemma advance_cons t r : r <> [] -> advance (t :: r) = (Ok t, r).
Proof. by destruct r. Qed.

Lemma eats_yes k t r : kind t = k -> r <> [] -> eats k (t :: r) = (Ok true, r).
Proof.
  intros E Hr. unfold eats, current_kind, mbind, M_bind, current, mret, M_ret. rewrite E, decide_True by done.
  by rewrite advance_cons.
Qed.

Lemma eats_no k t r : kind t <> k -> eats k (t :: r) = (Ok false, t :: r).
Proof. intros E. unfold eats, current_kind, mbind, M_bind, current, mret, M_ret. by rewrite decide_False. Qed.

Lemma expect_yes k x t r : kind t = k -> r <> [] -> expect_kind k x (t :: r) = (Ok t, r).
Proof.
  intros E Hr. unfold expect_kind, current_kind, mbind, M_bind, current, mret, M_ret. rewrite E, decide_True by done.
  by rewrite advance_cons.
Qed.

Lemma expect_identifier_yes name t r : kind t = Tok.Identifier name -> r <> [] -> expect_identifier (t :: r) = (Ok name, r).
Proof.
  intros E Hr. unfold expect_identifier, current_kind, mbind, M_bind, current, mret, M_ret. rewrite E.
  by rewrite advance_cons.
Qed.

Lemma bind_ok {A B} (m : P A) (f : A -> P B) ts a ts' : m ts = (Ok a, ts') -> (m ≫= f) ts = f a ts'.
Proof. intros E. unfold mbind, M_bind. by rewrite E. Qed.

(** ** Expressions *)
Definition parse_at (k n : nat) : P Expr.t :=
  match k with
  | 0 => parse_or n
  | 1 => parse_and n
  | 2 => parse_not n
  | 3 => parse_is_null n
  | 4 => parse_comparison n
  | 5 => parse_unary n
  | _ => parse_primary n
  end%nat.
Definition loop_at (k m : nat) (e : Expr.t) : P Expr.t :=
  match k with
  | 0 => or_loop m e
  | 1 => and_loop m e
  | 3 => is_loop m e
  | 4 => comparison_loop m e
  | _ => mret e
  end%nat.

(** Parsing [e] at level [k] reaches the loop of that level with [e] in hand. *)
Definition reads (k : nat) (e : Expr.t) : Prop :=
  forall n ts rest, kind <$> ts = print k e -> follow (S k) rest ->
    (8 * (length ts + length rest) + (7 - k) <= n)%nat ->
    exists m, (8 * length rest + 1 <= m)%nat /\ parse_at k n (ts ++ rest) = loop_at k m e rest.

Lemma loop_stops k m e rest : follow k rest -> (1 <= m)%nat -> loop_at k m e rest = (Ok e, rest).
Proof.
  intros Hf Hm. destruct rest as [| t r]; [done |]. cbn in Hf. destruct m as [| m]; [lia |].
  assert (Hop : (k <= 4)%nat -> comparison_op (kind t) = None).
  { intros Hk. destruct (kind t); try done; cbn in Hf; lia. }
  assert (Hno : forall j, operator_level j = Some k -> kind t <> j).
  { intros j Hj E. rewrite E, Hj in Hf. lia. }
  destruct k as [| [| [| [| [|]]]]]; cbn [loop_at or_loop and_loop is_loop comparison_loop]; try done.
  - erewrite bind_ok by (by apply eats_no, Hno). done.
  - erewrite bind_ok by (by apply eats_no, Hno). done.
  - erewrite bind_ok by (by apply eats_no, Hno). done.
  - unfold current_kind, mbind, M_bind, current, mret, M_ret. by rewrite Hop by lia.
Qed.

Lemma reads_closed k e n ts rest : reads k e -> kind <$> ts = print k e -> follow k rest ->
  (8 * (length ts + length rest) + (7 - k) <= n)%nat -> parse_at k n (ts ++ rest) = (Ok e, rest).
Proof.
  intros Hr Hts Hf Hn. destruct (Hr n ts rest Hts) as (m & Hm & ->); [| done |].
  - eapply follow_mono; [| exact Hf]. lia.
  - apply loop_stops; [done | lia].
Qed.

Lemma print_nonempty k e : exists t ks, print k e = t :: ks.
Proof.
  assert (Hp : forall b l, (exists t ks, l = t :: ks) -> exists t ks, parens b l = t :: ks).
  { intros [] l (t & ks & ->); by eexists _, _. }
  revert k. induction e as [v | n | [t |] name | l IHl op r IHr | [] e IH | e IH neg | i]; intros k;
    cbn [print]; apply Hp; try (by eexists _, _).
  - by destruct n; eexists _, _.
  - destruct (IHl (op_level op)) as (t & ks & ->). by eexists _, _.
  - destruct (IH 3%nat) as (t & ks & ->). by eexists _, _.
Qed.

(** What an expression cannot start with at the levels above NOT and above negation. *)
Lemma print_first k e t ks : print k e = t :: ks ->
  ((3 <= k)%nat -> t <> Tok.Not) /\ ((6 <= k)%nat -> t <> Tok.Minus).
Proof.
  revert k t ks. induction e as [v | n | [tb |] name | l IHl op r IHr | [] e IH | e IH neg | i]; intros k t ks;
    cbn [print]; unfold parens.
  - destruct (_ <? _)%nat; intros [= <- <-]; destruct v as [| [] | | | |]; done.
  - destruct (_ <? _)%nat; [by intros [= <- <-] |]. by destruct n; intros [= <- <-].
  - destruct (_ <? _)%nat; by intros [= <- <-].
  - destruct (_ <? _)%nat; by intros [= <- <-].
  - destruct (Nat.ltb_spec (level (Expr.BinaryOp l op r)) k) as [Hlt | Hge]; [by intros [= <- <-] |].
    destruct (print_nonempty (op_level op) l) as (t' & ks' & E). rewrite E. intros [= <- _].
    destruct (IHl _ _ _ E) as [H1 H2]. destruct op; cbn [level op_level] in *; split; intros; first [apply H1; lia | lia].
  - destruct (Nat.ltb_spec (level (Expr.UnaryOp UnaryOperator.Not e)) k) as [Hlt | Hge]; intros [= <- <-]; [done |].
    cbn in Hge. split; [lia | done].
  - destruct (Nat.ltb_spec (level (Expr.UnaryOp UnaryOperator.Negate e)) k) as [Hlt | Hge]; intros [= <- <-]; [done |].
    cbn in Hge. split; [done | lia].
  - destruct (Nat.ltb_spec (level (Expr.IsNull e neg)) k) as [Hlt | Hge]; [by intros [= <- <-] |].
    destruct (print_nonempty 3 e) as (t' & ks' & E). rewrite E. intros [= <- _].
    destruct (IH _ _ _ E) as [H1 H2]. cbn in Hge. split; intros; [apply H1; lia | lia].
  - destruct (_ <? _)%nat; by intros [= <- <-].
Qed.

Lemma print_same k e : level e <> k -> print k e = print (S k) e.
Proof.
  intros H. assert (E : (level e <? k)%nat = (level e <? S k)%nat).
  { destruct (Nat.ltb_spec (level e) k), (Nat.ltb_spec (level e) (S k)); lia || done. }
  destruct e; cbn [print]; by rewrite E.
Qed.

(** Levels that an expression does not use are passed through. *)
Lemma reads_down k e : (k < 6)%nat -> level e <> k -> reads (S k) e -> reads k e.
Proof.
  intros Hk Hl Hr n ts rest Hts Hf Hn. rewrite print_same in Hts by done.
  destruct n as [| n]; [lia |].
  assert (Hc : parse_at (S k) n (ts ++ rest) = (Ok e, rest)).
  { apply reads_closed; [done | done | done | lia]. }
  exists n. split; [lia |].
  assert (Hhd : exists t r, ts ++ rest = t :: r /\ ((3 <= S k)%nat -> kind t <> Tok.Not) /\ ((6 <= S k)%nat -> kind t <> Tok.Minus)).
  { destruct (print_nonempty (S k) e) as (t' & ks & E). rewrite E in Hts. destruct ts as [| t ts]; [done |].
    cbn in Hts. injection Hts as Et _. exists t, (ts ++ rest). split; [done |]. rewrite Et. by eapply print_first. }
  destruct Hhd as (t & r & E & H1 & H2).
  destruct k as [| [| [| [| [| [|]]]]]]; [..| lia]; cbn [parse_at loop_at parse_or parse_and parse_not parse_is_null parse_comparison parse_unary] in *.
  - by rewrite (bind_ok _ _ _ _ _ Hc).
  - by rewrite (bind_ok _ _ _ _ _ Hc).
  - rewrite E in *. erewrite bind_ok by (apply eats_no, H1; lia). done.
  - by rewrite (bind_ok _ _ _ _ _ Hc).
  - by rewrite (bind_ok _ _ _ _ _ Hc).
  - rewrite E in *. erewrite bind_ok by (apply eats_no, H2; lia). done.
Qed.

Lemma reads_below k e : (k <= level e)%nat -> reads (level e) e -> reads k e.
Proof.
  intros Hk Hr. assert (Hl : (level e <= 6)%nat) by (destruct e as [| | | ? [] | [] | |]; cbn; lia).
  remember (level e - k)%nat as d eqn:Ed. revert k Hk Ed. induction d as [| d IH]; intros k Hk Ed.
  - by replace k with (level e) by lia.
  - apply reads_down; [lia | lia |]. apply IH; lia.
Qed.

(** In parentheses. *)
Lemma reads_parens e : (level e < 6)%nat -> reads 0 e -> reads 6 e.
Proof.
  intros Hl Hr n ts rest Hts Hf Hn.
  assert (E6 : print 6 e = Tok.LParen :: print 0 e ++ [Tok.RParen]).
  { assert (E : (level e <? 6)%nat = true) by (by apply Nat.ltb_lt). destruct e; cbn [print]; by rewrite E. }
  rewrite E6 in Hts. destruct ts as [| t ts]; [done |]. cbn in Hts. injection Hts as Et Hts.
  apply fmap_app_inv in Hts as (ts1 & ts2 & E1 & E2 & ->). destruct ts2 as [| t2 [| ? ?]]; try done.
  cbn in E2. injection E2 as E2. destruct n as [| n]; [lia |]. exists n. cbn [length] in Hn. rewrite length_app in Hn. cbn [length] in Hn.
  split; [lia |]. cbn [parse_at loop_at parse_primary app]. rewrite <- (assoc_L app). cbn [app].
  unfold current. erewrite bind_ok by reflexivity. rewrite Et.
  erewrite bind_ok by (apply advance_cons; by apply app_nonempty_r).
  assert (Hc : parse_at 0 n (ts1 ++ t2 :: rest) = (Ok e, t2 :: rest)).
  { apply reads_closed; [done | done | cbn; by rewrite <- E2 | cbn [length]; lia]. }
  cbn [parse_at] in Hc. rewrite (bind_ok _ _ _ _ _ Hc).
  erewrite bind_ok by (apply expect_yes; [done | by eapply follow_nonempty]). done.
Qed.

Lemma reads_all e : reads (level e) e -> forall k, (k <= 6)%nat -> reads k e.
Proof.
  intros Hr k Hk. destruct (decide (k <= level e)%nat) as [Hle | Hgt]; [by apply reads_below |].
  assert (H6 : reads 6 e) by (apply reads_parens; [lia | apply reads_below; [lia | done]]).
  remember (6 - k)%nat as d eqn:Ed. revert k Hk Hgt Ed. induction d as [| d IH]; intros k Hk Hgt Ed.
  - by replace k with 6%nat by lia.
  - apply reads_down; [lia | lia |]. apply IH; lia.
Qed.

(** A left-associative operator of level [k]: its left operand is read up to the loop, which
    takes the operator and the right operand. *)
Lemma reads_binary l op r : parsed_op op = true ->
  reads (op_level op) l -> reads (S (op_level op)) r -> reads (op_level op) (Expr.BinaryOp l op r).
Proof.
  intros Hop Hl Hr n ts rest Hts Hf Hn.
  assert (E : print (op_level op) (Expr.BinaryOp l op r) = print (op_level op) l ++ op_token op :: print (S (op_level op)) r).
  { by destruct op. }
  rewrite E in Hts. apply fmap_app_inv in Hts as (ts1 & ts2 & E1 & E2 & ->).
  destruct ts2 as [| t ts2]; [done |]. cbn in E2. injection E2 as Et E2.
  rewrite length_app in Hn. cbn [length] in Hn.
  destruct (Hl n ts1 (t :: ts2 ++ rest)) as (m & Hm & Ep).
  { done. }
  { cbn. rewrite <- Et. by destruct op; cbn; try done; lia. }
  { cbn [length]. rewrite length_app. lia. }
  rewrite <- (assoc_L app). cbn [app]. rewrite Ep. cbn [length] in Hm. rewrite length_app in Hm.
  destruct m as [| m]; [lia |]. exists m. split; [lia |].
  assert (Hc : parse_at (S (op_level op)) m (ts2 ++ rest) = (Ok r, rest)).
  { apply reads_closed; [done | done | done | lia]. }
  assert (Hne : ts2 ++ rest <> []) by (by eapply app_nonempty_r, follow_nonempty).
  destruct op; try discriminate Hop; cbn [op_level loop_at parse_at or_loop and_loop comparison_loop op_token] in *;
    first [ erewrite bind_ok by (apply eats_yes; [by symmetry | done]); cbn iota; by rewrite (bind_ok _ _ _ _ _ Hc)
          | unfold current_kind, current; erewrite bind_ok by reflexivity; rewrite <- Et; cbn [comparison_op];
            erewrite bind_ok by (by apply advance_cons); by rewrite (bind_ok _ _ _ _ _ Hc) ].
Qed.

Lemma reads_not e : reads 2 e -> reads 2 (Expr.UnaryOp UnaryOperator.Not e).
Proof.
  intros Hr n ts rest Hts Hf Hn. destruct ts as [| t ts]; [done |]. cbn [print level parens Nat.ltb Nat.leb] in Hts.
  cbn in Hts. injection Hts as Et Hts. cbn [length] in Hn. destruct n as [| n]; [lia |]. exists n. split; [lia |].
  assert (Hc : parse_at 2 n (ts ++ rest) = (Ok e, rest)).
  { apply reads_closed; [done | done | | lia]. unfold follow in *. destruct rest as [| u r]; [done |].
    destruct (kind u); cbn in *; lia || done. }
  cbn [parse_at parse_not loop_at app]. erewrite bind_ok by (apply eats_yes; [done | by eapply app_nonempty_r, follow_nonempty]).
  cbn [parse_at] in Hc. cbn iota. by rewrite (bind_ok _ _ _ _ _ Hc).
Qed.

Lemma reads_negate e : reads 5 e -> reads 5 (Expr.UnaryOp UnaryOperator.Negate e).
Proof.
  intros Hr n ts rest Hts Hf Hn. destruct ts as [| t ts]; [done |]. cbn in Hts. injection Hts as Et Hts.
  cbn [length] in Hn. destruct n as [| n]; [lia |]. exists n. split; [lia |].
  assert (Hc : parse_at 5 n (ts ++ rest) = (Ok e, rest)).
  { apply reads_closed; [done | done | | lia]. unfold follow in *. destruct rest as [| u r]; [done |].
    destruct (kind u); cbn in *; lia || done. }
  cbn [parse_at parse_unary loop_at app]. erewrite bind_ok by (apply eats_yes; [done | by eapply app_nonempty_r, follow_nonempty]).
  cbn [parse_at] in Hc. cbn iota. by rewrite (bind_ok _ _ _ _ _ Hc).
Qed.

Lemma reads_is_null e negated : reads 3 e -> reads 3 (Expr.IsNull e negated).
Proof.
  intros Hr n ts rest Hts Hf Hn. cbn [print level parens Nat.ltb Nat.leb] in Hts.
  apply fmap_app_inv in Hts as (ts1 & ts2 & E1 & E2 & ->). destruct ts2 as [| t ts2]; [done |].
  cbn in E2. injection E2 as Et E2. symmetry in E2. apply fmap_app_inv in E2 as (ts3 & ts4 & E3 & E4 & ->).
  destruct ts4 as [| t4 [| ? ?]]; try done. cbn in E4. injection E4 as E4.
  rewrite !length_app in Hn. cbn [length] in Hn. rewrite length_app in Hn. cbn [length] in Hn.
  destruct (Hr n ts1 (t :: (ts3 ++ [t4]) ++ rest)) as (m & Hm & Ep).
  { done. }
  { cbn. rewrite <- Et. cbn. lia. }
  { cbn [length]. rewrite !length_app. cbn [length]. lia. }
  rewrite <- (assoc_L app). cbn [app]. rewrite Ep. cbn [length] in Hm. rewrite !length_app in Hm. cbn [length] in Hm.
  destruct m as [| m]; [lia |]. exists m. split; [lia |]. cbn [loop_at is_loop].
  assert (Hne : rest <> []) by (by eapply follow_nonempty).
  erewrite bind_ok by (apply eats_yes; [done | by destruct ts3]).
  destruct negated.
  - destruct ts3 as [| t3 [| ? ?]]; try done. cbn in E3. injection E3 as E3. cbn [app].
    erewrite bind_ok by (apply eats_yes; done). by erewrite bind_ok by (apply expect_yes; done).
  - destruct ts3; [| done]. cbn [app]. erewrite bind_ok by (apply eats_no; by rewrite <- E4).
    by erewrite bind_ok by (apply expect_yes; done).
Qed.

Definition no_float (v : Value.t) : bool := match v with Value.Double _ => false | _ => true end.

Lemma reads_literal v : wf_value v = true -> reads 6 (Expr.Literal v).
Proof.
  intros Hv n ts rest Hts Hf Hn. destruct ts as [| t [| ? ?]]; try done. cbn in Hts. injection Hts as Et.
  destruct n as [| n]; [lia |]. exists n. cbn [length] in Hn. split; [lia |]. cbn [parse_at parse_primary loop_at app].
  unfold current. erewrite bind_ok by reflexivity. rewrite Et. assert (Hne : rest <> []) by (by eapply follow_nonempty).
  destruct v as [| [] | | | |]; try discriminate Hv; cbn [print_value]; unfold literal;
    by erewrite bind_ok by (by apply advance_cons).
Qed.

Lemma reads_param i : reads 6 (Expr.Param i).
Proof.
  intros n ts rest Hts Hf Hn. destruct ts as [| t [| ? ?]]; try done. cbn in Hts. injection Hts as Et.
  destruct n as [| n]; [lia |]. exists n. cbn [length] in Hn. split; [lia |]. cbn [parse_at parse_primary loop_at app].
  unfold current. erewrite bind_ok by reflexivity. rewrite Et. assert (Hne : rest <> []) by (by eapply follow_nonempty).
  by erewrite bind_ok by (by apply advance_cons).
Qed.

(** A lone identifier, in a place where neither a dot nor a parenthesis follows. *)
Lemma primary_name name n t rest : kind t = Tok.Identifier name -> follow 7 rest ->
  parse_primary (S n) (t :: rest) =
  (Ok match SessionContextName.keyword name with Some s => Expr.SessionContext s | None => Expr.Column None name end, rest).
Proof.
  intros Et Hf. cbn [parse_primary]. unfold current. erewrite bind_ok by reflexivity. rewrite Et. unfold parse_name.
  erewrite bind_ok by (apply advance_cons; by eapply follow_nonempty).
  destruct rest as [| u r]; [done |]. unfold current_kind, current. erewrite bind_ok by reflexivity.
  cbn in Hf. rewrite decide_False by (intros E; rewrite E in Hf; cbn in Hf; lia).
  rewrite decide_False by (intros E; rewrite E in Hf; cbn in Hf; lia). by destruct (SessionContextName.keyword name).
Qed.

Lemma reads_column table name : wf_expr (Expr.Column table name) = true -> reads 6 (Expr.Column table name).
Proof.
  intros Hw n ts rest Hts Hf Hn. destruct n as [| n]; [lia |]. exists n. destruct table as [tb |].
  - destruct ts as [| t [| t2 [| t3 [| ? ?]]]]; try done. cbn in Hts. injection Hts as E1 E2 E3. cbn [length] in Hn.
    split; [lia |]. cbn [parse_at parse_primary loop_at app]. unfold current at 1. erewrite bind_ok by reflexivity. rewrite E1.
    unfold parse_name. erewrite bind_ok by (by apply advance_cons). unfold current_kind, current.
    erewrite bind_ok by reflexivity. rewrite E2, decide_True by done. erewrite bind_ok by (by apply advance_cons).
    by erewrite bind_ok by (apply expect_identifier_yes; [done | by eapply follow_nonempty]).
  - destruct ts as [| t [| ? ?]]; try done. cbn in Hts. injection Hts as E1. cbn [length] in Hn. split; [lia |].
    cbn [parse_at loop_at app]. rewrite (primary_name name) by done. cbn in Hw.
    apply andb_true_iff in Hw as [_ Hk%bool_decide_eq_true]. by rewrite Hk.
Qed.

Lemma reads_session s : reads 6 (Expr.SessionContext s).
Proof.
  intros n ts rest Hts Hf Hn. destruct n as [| n]; [lia |]. exists n.
  assert (Hone : forall t, kind t = Tok.Identifier (SessionContextName.column_name s) ->
    SessionContextName.keyword (SessionContextName.column_name s) = Some s ->
    parse_primary (S n) ([t] ++ rest) = (Ok (Expr.SessionContext s), rest)).
  { intros t Et Hk. cbn [app]. rewrite (primary_name _ _ _ _ Et Hf). by rewrite Hk. }
  destruct s; try (destruct ts as [| t [| ? ?]]; try done; cbn in Hts; injection Hts as Et; cbn [length] in Hn;
    split; [lia |]; apply Hone; [exact Et | vm_compute; reflexivity]).
  destruct ts as [| t [| t2 [| t3 [| ? ?]]]]; try done. cbn in Hts. injection Hts as E1 E2 E3. cbn [length] in Hn.
  split; [lia |]. cbn [parse_at parse_primary loop_at app]. unfold current at 1. erewrite bind_ok by reflexivity. rewrite E1.
  unfold parse_name. erewrite bind_ok by (by apply advance_cons). unfold current_kind at 1, current at 1.
  erewrite bind_ok by reflexivity. rewrite E2, decide_False, decide_True by done.
  change (SessionContextName.function (str "version")) with (Some SessionContextName.Version).
  assert (Hne : rest <> []) by (by eapply follow_nonempty).
  assert (Hargs : consume_empty_argument_list (str "version") (tok_offset t) (t2 :: t3 :: rest) = (Ok tt, rest)).
  { unfold consume_empty_argument_list. erewrite bind_ok by (by apply advance_cons).
    by erewrite bind_ok by (by apply eats_yes). }
  etransitivity; [apply (bind_ok _ _ _ _ _ Hargs) | done].
Qed.

(** Every well-formed expression is read back at every level. *)
Lemma reads_wf e : wf_expr e = true -> forall k, (k <= 6)%nat -> reads k e.
Proof.
  induction e as [v | n | t name | l IHl op r IHr | op e IH | e IH neg | i]; intros Hw; apply reads_all.
  - by apply reads_literal.
  - apply reads_session.
  - by apply reads_column.
  - cbn in Hw. apply andb_true_iff in Hw as [[Hl Hop]%andb_true_iff Hr].
    assert (El : level (Expr.BinaryOp l op r) = op_level op) by (by destruct op). rewrite El.
    apply reads_binary; [done | apply IHl | apply IHr]; try done; destruct op; cbn; lia.
  - destruct op; [apply reads_not | apply reads_negate]; (apply IH; [done | lia]).
  - apply reads_is_null, IH; [done | lia].
  - apply reads_param.
Qed.

(** ** Statements *)
Fixpoint sep_by {A} (pr : A -> list Tok.t) (l : list A) : list Tok.t :=
  match l with
  | [] => []
  | [a] => pr a
  | a :: l => pr a ++ Tok.Comma :: sep_by pr l
  end.

Definition print_name (name : bytes) : list Tok.t := [Tok.Identifier name].
Definition print_item (i : SelectItem) : list Tok.t :=
  match i with Wildcard => [Tok.Star] | ItemExpr e => print 0 e end.
Definition print_table_ref (r : TableRef) : list Tok.t :=
  Tok.Identifier (table_name r) :: match alias r with Some a => [Tok.As; Tok.Identifier a] | None => [] end.
Definition print_row (row : list Expr.t) : list Tok.t := Tok.LParen :: sep_by (print 0) row ++ [Tok.RParen].
Definition type_name (d : DataType.t) : bytes :=
  match d with
  | DataType.Boolean => str "BOOLEAN"
  | DataType.Integer => str "INTEGER"
  | DataType.BigInt => str "BIGINT"
  | DataType.Double => str "DOUBLE"
  | DataType.Varchar _ => str "TEXT"
  end.
Definition print_col_def (c : ColumnDef) : list Tok.t :=
  [Tok.Identifier (col_name c); Tok.Identifier (type_name (col_type c))].

Fixpoint print_statement (s : Statement.t) : list Tok.t :=
  match s with
  | Statement.Select s =>
      Tok.Select :: sep_by print_item (items s)
      ++ match from s with Some r => Tok.TFrom :: print_table_ref r | None => [] end
      ++ match where_clause s with Some e => Tok.Where :: print 0 e | None => [] end
  | Statement.Insert s =>
      Tok.Insert :: Tok.Into :: Tok.Identifier (insert_table s)
      :: match insert_columns s with [] => [] | cs => Tok.LParen :: sep_by print_name cs ++ [Tok.RParen] end
      ++ Tok.Values :: sep_by print_row (values s)
  | Statement.CreateTable s =>
      Tok.Create :: Tok.Table :: Tok.Identifier (create_table s) :: Tok.LParen
      :: sep_by print_col_def (create_columns s) ++ [Tok.RParen]
  | Statement.CreateIndex s =>
      [Tok.Create; Tok.Index; Tok.Identifier (index_name s); Tok.On; Tok.Identifier (index_table s);
       Tok.LParen; Tok.Identifier (index_column s); Tok.RParen]
  | Statement.Begin => [Tok.Begin]
  | Statement.Commit => [Tok.Commit]
  | Statement.Rollback => [Tok.Rollback]
  | Statement.Explain verbose inner =>
      Tok.Explain :: (if verbose then [Tok.Identifier (str "VERBOSE")] else []) ++ print_statement inner
  end.

Lemma tok_cons k ks ts : kind <$> ts = k :: ks -> exists t ts', ts = t :: ts' /\ kind t = k /\ kind <$> ts' = ks.
Proof. destruct ts as [| t ts]; [done |]. cbn. intros [= ? ?]. by exists t, ts. Qed.

Lemma tok_app ks1 ks2 ts : kind <$> ts = ks1 ++ ks2 ->
  exists ts1 ts2, ts = ts1 ++ ts2 /\ kind <$> ts1 = ks1 /\ kind <$> ts2 = ks2.
Proof. intros (ts1 & ts2 & E1 & E2 & ->)%fmap_app_inv. by exists ts1, ts2. Qed.

Lemma tok_nil ts : kind <$> ts = [] -> ts = [].
Proof. by destruct ts. Qed.

(** A list of items, each read up to what may follow it. *)
Section comma_list.
Context {A : Type} (pr : A -> list Tok.t) (item : P A) (F : list Token -> Prop) (bound : nat).
Context (F_comma : forall t r, kind t = Tok.Comma -> F (t :: r)) (F_nonempty : ~ F []).

Definition item_reads (a : A) : Prop := forall ts rest,
  kind <$> ts = pr a -> F rest -> (length ts + length rest <= bound)%nat -> item (ts ++ rest) = (Ok a, rest).

Lemma comma_loop_reads n l acc ts rest :
  Forall item_reads l ->
  kind <$> ts = (l ≫= fun a => Tok.Comma :: pr a) -> F rest ->
  (forall t r, rest = t :: r -> kind t <> Tok.Comma) ->
  (length ts + length rest <= bound)%nat -> (length ts + length rest <= n)%nat ->
  comma_loop n item acc (ts ++ rest) = (Ok (acc ++ l), rest).
Proof using F_comma F_nonempty.
  intros Hl. revert n acc ts. induction Hl as [| a l Ha Hl IH]; intros n acc ts Hts HF Hc Hb Hn.
  - apply tok_nil in Hts as ->. destruct rest as [| t r]; [done |]. cbn [length app] in *.
    destruct n as [| n]; [lia |]. cbn [comma_loop app]. erewrite bind_ok by (apply eats_no; by eapply Hc).
    by rewrite app_nil_r.
  - change ((a :: l) ≫= fun a => Tok.Comma :: pr a) with (Tok.Comma :: pr a ++ (l ≫= fun a => Tok.Comma :: pr a)) in Hts.
    apply tok_cons in Hts as (t & ts' & -> & Et & Hts). apply tok_app in Hts as (ts1 & ts2 & -> & E1 & E2).
    cbn [length] in *. rewrite length_app in *. destruct n as [| n]; [lia |]. cbn [comma_loop app].
    assert (Hne : ts2 ++ rest <> []) by (apply app_nonempty_r; by intros ->).
    rewrite <- (assoc_L app). erewrite bind_ok by (apply eats_yes; [done | by apply app_nonempty_r]). cbn iota.
    erewrite bind_ok.
    2: { apply Ha; [done | | rewrite length_app; lia]. destruct ts2 as [| t2 ts2]; [done |].
         apply F_comma. destruct l as [| a' l]; [done |]. cbn in E2. by injection E2. }
    rewrite IH by (done || lia). by rewrite <- (assoc_L app).
Qed.

Lemma sep_by_cons a l : sep_by pr (a :: l) = pr a ++ (l ≫= fun a => Tok.Comma :: pr a).
Proof.
  revert a. induction l as [| b l IH]; intros a; [cbn; by rewrite app_nil_r |].
  change (sep_by pr (a :: b :: l)) with (pr a ++ Tok.Comma :: sep_by pr (b :: l)). by rewrite IH.
Qed.

Lemma comma_list_reads n l ts rest :
  nonempty l = true -> Forall item_reads l -> kind <$> ts = sep_by pr l -> F rest ->
  (forall t r, rest = t :: r -> kind t <> Tok.Comma) ->
  (length ts + length rest <= bound)%nat -> (length ts + length rest <= n)%nat ->
  comma_list n item (ts ++ rest) = (Ok l, rest).
Proof using F_comma F_nonempty.
  intros Hne Hl Hts HF Hc Hb Hn. destruct l as [| a l]; [done |]. inversion Hl as [| ? ? Ha Hl']; subst.
  rewrite sep_by_cons in Hts. apply tok_app in Hts as (ts1 & ts2 & -> & E1 & E2). rewrite length_app in *.
  rewrite <- (assoc_L app). unfold comma_list. erewrite bind_ok.
  2: { apply Ha; [done | | rewrite length_app; lia]. destruct ts2 as [| t2 ts2]; [done |].
       apply F_comma. destruct l as [| a' l]; [done |]. cbn in E2. by injection E2. }
  by rewrite (comma_loop_reads n l [a]) by (done || lia).
Qed.
End comma_list.

Lemma follow_comma k t r : kind t = Tok.Comma -> follow k (t :: r).
Proof. intros E. cbn. by rewrite E. Qed.

Lemma parse_expr_reads n e ts rest : wf_expr e = true -> kind <$> ts = print 0 e -> follow 0 rest ->
  (8 * (length ts + length rest) + 7 <= n)%nat -> parse_expr n (ts ++ rest) = (Ok e, rest).
Proof. intros Hw Hts Hf Hn. apply (reads_closed 0); [apply reads_wf; [done | lia] | done | done | lia]. Qed.

Lemma forallb_Forall {A} (f : A -> bool) l : forallb f l = true -> Forall (fun a => f a = true) l.
Proof. intros H. apply Forall_forall. intros a Ha. eapply forallb_forall; [exact H |]. by apply list_elem_of_In. Qed.

Lemma exprs_read n l ts rest : nonempty l = true -> forallb wf_expr l = true ->
  kind <$> ts = sep_by (print 0) l -> follow 0 rest -> (forall t r, rest = t :: r -> kind t <> Tok.Comma) ->
  (8 * (length ts + length rest) + 7 <= n)%nat -> comma_list n (parse_expr n) (ts ++ rest) = (Ok l, rest).
Proof.
  intros Hne Hl Hts Hf Hc Hn.
  eapply (comma_list_reads (print 0) (parse_expr n) (follow 0) (length ts + length rest)); try done; try lia.
  - intros t r. apply follow_comma.
  - intros [].
  - eapply Forall_impl; [by apply forallb_Forall |]. intros e He ts' rest' Hts' Hf' Hb.
    apply parse_expr_reads; [done | done | done | lia].
Qed.

(** What ends a statement's text: a semicolon or the end. *)
Definition ends (rest : list Token) : Prop :=
  match rest with t :: _ => kind t = Tok.Semicolon \/ kind t = Tok.Eof | [] => False end.

Lemma ends_follow rest : ends rest -> follow 0 rest.
Proof. destruct rest as [| t r]; [done |]. cbn. by intros [-> | ->]. Qed.

Lemma ends_not k rest : ends rest -> k <> Tok.Semicolon -> k <> Tok.Eof -> exists t r, rest = t :: r /\ kind t <> k.
Proof. destruct rest as [| t r]; [done |]. intros [E | E] H1 H2; exists t, r; (split; [done | congruence]). Qed.

Lemma eats_not_ends k rest : ends rest -> k <> Tok.Semicolon -> k <> Tok.Eof -> eats k rest = (Ok false, rest).
Proof. intros H H1 H2. destruct (ends_not k rest H H1 H2) as (t & r & -> & Hk). by apply eats_no. Qed.

(** Names, tables and rows *)
Lemma names_read n l ts rest : nonempty l = true ->
  kind <$> ts = sep_by print_name l -> (exists t r, rest = t :: r /\ kind t = Tok.RParen) ->
  (length ts + length rest <= n)%nat -> comma_list n expect_identifier (ts ++ rest) = (Ok l, rest).
Proof.
  intros Hne Hts (t & r & -> & Et) Hn.
  eapply (comma_list_reads print_name expect_identifier (fun rest => rest <> []) n); try done.
  - tauto.
  - apply Forall_forall. intros name _ ts' rest' Hts' Hr' _. apply tok_cons in Hts' as (t' & ? & -> & Et' & ->%tok_nil).
    by apply expect_identifier_yes.
  - intros t' r' [= <- <-]. by rewrite Et.
Qed.

Lemma table_ref_reads r ts rest : kind <$> ts = print_table_ref r ->
  (exists t r, rest = t :: r /\ kind t <> Tok.As /\ forall name, kind t <> Tok.Identifier name) ->
  parse_table_ref (ts ++ rest) = (Ok r, rest).
Proof.
  destruct r as [name [a |]]; intros Hts (t0 & r0 & -> & H1 & H2); unfold print_table_ref in Hts; cbn [table_name alias] in Hts.
  - apply tok_cons in Hts as (t & ts1 & -> & Et & Hts). apply tok_cons in Hts as (t2 & ts2 & -> & Et2 & Hts).
    apply tok_cons in Hts as (t3 & ts3 & -> & Et3 & ->%tok_nil). cbn [app]. unfold parse_table_ref.
    erewrite bind_ok by (by apply expect_identifier_yes). unfold parse_optional_table_alias. erewrite bind_ok; [done |].
    erewrite bind_ok by (by apply eats_yes). cbn iota. by erewrite bind_ok by (by apply expect_identifier_yes).
  - apply tok_cons in Hts as (t & ts1 & -> & Et & ->%tok_nil). cbn [app]. unfold parse_table_ref.
    erewrite bind_ok by (by apply expect_identifier_yes). unfold parse_optional_table_alias. erewrite bind_ok; [done |].
    erewrite bind_ok by (by apply eats_no). cbn iota. unfold current_kind, current. erewrite bind_ok by reflexivity.
    destruct (kind t0) eqn:E; try done. by destruct (H2 name0).
Qed.

Lemma row_reads n row ts rest : nonempty row && forallb wf_expr row = true -> kind <$> ts = print_row row ->
  rest <> [] -> (8 * (length ts + length rest) + 7 <= n)%nat -> parse_value_row n (ts ++ rest) = (Ok row, rest).
Proof.
  intros [Hne Hw]%andb_true_iff Hts Hr Hn. unfold print_row in Hts.
  apply tok_cons in Hts as (t & ts1 & -> & Et & Hts). apply tok_app in Hts as (ts2 & ts3 & -> & E2 & E3).
  apply tok_cons in E3 as (t3 & ts4 & -> & Et3 & ->%tok_nil). cbn [length app] in *. rewrite length_app in Hn. cbn [length] in Hn.
  rewrite <- (assoc_L app). cbn [app]. unfold parse_value_row.
  erewrite bind_ok by (apply expect_yes; [done | by apply app_nonempty_r]).
  erewrite bind_ok; [by erewrite bind_ok by (by apply expect_yes) |].
  apply exprs_read; try done.
  - cbn. by rewrite Et3.
  - intros t' r' [= <- <-]. by rewrite Et3.
  - cbn [length]. lia.
Qed.

Lemma col_def_reads c ts rest : wf_col_def c = true -> kind <$> ts = print_col_def c -> rest <> [] ->
  parse_col_def (ts ++ rest) = (Ok c, rest).
Proof.
  destruct c as [name d nl]. unfold wf_col_def, print_col_def. cbn [col_name nullable col_type].
  intros [[_ Hnl]%andb_true_iff Hd]%andb_true_iff Hts Hr. subst.
  apply tok_cons in Hts as (t & ts1 & -> & Et & Hts). apply tok_cons in Hts as (t2 & ts2 & -> & Et2 & ->%tok_nil). cbn [app].
  unfold parse_col_def. erewrite bind_ok by (by apply expect_identifier_yes). erewrite bind_ok; [done |].
  unfold parse_type_name, current_kind, current. erewrite bind_ok by reflexivity. rewrite Et2.
  assert (Ht : type_of_name (type_name d) = Some d).
  { destruct d as [| | | | k]; try (vm_compute; reflexivity). cbn in Hd. apply Z.eqb_eq in Hd as ->. vm_compute. reflexivity. }
  rewrite Ht. by erewrite bind_ok by (by apply advance_cons).
Qed.

(** ** Each statement *)
Lemma items_read n has_from l ts rest : wf_items has_from l = true -> kind <$> ts = sep_by print_item l ->
  follow 0 rest -> (forall t r, rest = t :: r -> kind t <> Tok.Comma) ->
  (8 * (length ts + length rest) + 7 <= n)%nat -> parse_select_list n (ts ++ rest) = (Ok l, rest).
Proof.
  intros Hw Hts Hf Hc Hn. unfold parse_select_list.
  assert (Hcase : l = [Wildcard] \/ (nonempty l = true /\ forallb wf_item l = true)).
  { destruct l as [| [| e] [| i l]]; try done; [by left | by right ..]. }
  destruct Hcase as [-> | [Hne Hl]].
  { apply tok_cons in Hts as (t & ts1 & -> & Et & ->%tok_nil). cbn [app].
    by erewrite bind_ok by (apply eats_yes; [done | by eapply follow_nonempty]). }
  assert (Hhd : exists t r, ts ++ rest = t :: r /\ kind t <> Tok.Star).
  { destruct l as [| [| e] l]; try done. rewrite sep_by_cons in Hts. cbn [print_item] in Hts.
    apply tok_app in Hts as (ts1 & ts2 & -> & E1 & _). destruct (print_nonempty 0 e) as (k & ks & E). rewrite E in E1.
    apply tok_cons in E1 as (t & ts3 & -> & Et & _). exists t, (ts3 ++ ts2 ++ rest). cbn [app].
    split; [by rewrite <- (assoc_L app) |]. rewrite Et. intros ->.
    assert (Hs : forall e k ks, print k e <> Tok.Star :: ks).
    { clear. intros e. induction e as [v | n | [tb |] name | l IHl op r IHr | [] e IH | e IH neg | i]; intros k ks;
        cbn [print]; unfold parens; destruct (_ <? _)%nat; try done.
      - by destruct v as [| [] | | | |].
      - by destruct n.
      - destruct (print_nonempty (op_level op) l) as (t & ks' & E). rewrite E. intros [= -> _]. by eapply IHl.
      - destruct (print_nonempty 3 e) as (t & ks' & E). rewrite E. intros [= -> _]. by eapply IH. }
    by apply (Hs e 0%nat ks). }
  destruct Hhd as (t & r & E & Ht). rewrite E. erewrite bind_ok by (by apply eats_no). cbn iota. rewrite <- E.
  eapply (comma_list_reads print_item _ (follow 0) (length ts + length rest)); try done; try lia.
  - intros t' r'. apply follow_comma.
  - intros [].
  - eapply Forall_impl; [by apply forallb_Forall |]. intros [| e] He ts' rest' Hts' Hf' Hb; [done |].
    erewrite bind_ok; [done |]. apply parse_expr_reads; [done | done | done | lia].
Qed.

Lemma where_reads {A} (f : option Expr.t -> P A) n w ts rest :
  match w with Some e => wf_expr e | None => true end = true ->
  kind <$> ts = match w with Some e => Tok.Where :: print 0 e | None => [] end -> ends rest ->
  (8 * (length ts + length rest) + 7 <= n)%nat ->
  (has_where ← eats Tok.Where;
   w ← (if has_where : bool then e ← parse_expr n; mret (Some e) else mret None);
   f w) (ts ++ rest) = f w rest.
Proof.
  intros Hw Hts He Hn. pose proof (ends_follow rest He) as Hf. destruct w as [e |].
  - apply tok_cons in Hts as (t & ts1 & -> & Et & Hts). cbn [app length] in *.
    erewrite bind_ok by (apply eats_yes; [done | by eapply app_nonempty_r, follow_nonempty]). cbn iota.
    erewrite bind_ok; [done |]. erewrite bind_ok; [done |]. apply parse_expr_reads; [done | done | done | lia].
  - apply tok_nil in Hts as ->. cbn [app]. by erewrite bind_ok by (by apply eats_not_ends).
Qed.

(** After the select list or the table: WHERE or the end. *)
Definition where_or_ends (rest : list Token) : Prop :=
  match rest with t :: _ => kind t = Tok.Where \/ kind t = Tok.Semicolon \/ kind t = Tok.Eof | [] => False end.

Lemma where_tokens w ts rest :
  kind <$> ts = match w with Some e => Tok.Where :: print 0 e | None => [] end -> ends rest -> where_or_ends (ts ++ rest).
Proof.
  intros Hts He. destruct w as [e |].
  - apply tok_cons in Hts as (t & ts1 & -> & Et & _). by left.
  - apply tok_nil in Hts as ->. by destruct rest; [| right].
Qed.

Lemma from_reads {A} (f : option TableRef -> P A) off l r ts rest :
  wf_items (bool_decide (is_Some r)) l = true ->
  kind <$> ts = match r with Some r => Tok.TFrom :: print_table_ref r | None => [] end -> where_or_ends rest ->
  (has_from ← eats Tok.TFrom;
   r ← (if has_from : bool then r ← parse_table_ref; mret (Some r)
        else if existsb is_wildcard l then throw (WildcardWithoutFrom off) else mret None);
   f r) (ts ++ rest) = f r rest.
Proof.
  intros Hw Hts Hr. destruct rest as [| t0 r0]; [done |]. destruct r as [r |].
  - apply tok_cons in Hts as (t & ts1 & -> & Et & Hts). cbn [app].
    erewrite bind_ok by (apply eats_yes; [done | by apply app_nonempty_r]). cbn iota.
    erewrite bind_ok; [done |]. erewrite bind_ok; [done |]. apply table_ref_reads; [done |].
    exists t0, r0. by destruct Hr as [-> | [-> | ->]].
  - apply tok_nil in Hts as ->. cbn [app].
    erewrite bind_ok by (apply eats_no; by destruct Hr as [-> | [-> | ->]]). cbn iota.
    rewrite bool_decide_eq_false_2 in Hw by (by intros [? ?]).
    assert (Hx : existsb is_wildcard l = false).
    { assert (Hall : forall l, forallb wf_item l = true -> existsb is_wildcard l = false).
      { clear. intros l. induction l as [| [| e] l IH]; [done | done |]. cbn. intros [_ H]%andb_true_iff. by apply IH. }
      destruct l as [| [| e] l]; try done; [by destruct l |]. by apply Hall. }
    by rewrite Hx.
Qed.

Lemma select_reads n s ts rest : wf_statement (Statement.Select s) = true ->
  kind <$> ts = print_statement (Statement.Select s) -> ends rest ->
  (8 * (length ts + length rest) + 7 <= n)%nat -> parse_select n (ts ++ rest) = (Ok s, rest).
Proof.
  destruct s as [its fr wh]. cbn [wf_statement wf_simple print_statement items from where_clause].
  intros [[Hi Hf]%andb_true_iff Hw]%andb_true_iff Hts He Hn.
  apply tok_cons in Hts as (t & ts0 & -> & Et & Hts). apply tok_app in Hts as (ts1 & tsr & -> & E1 & Hts).
  apply tok_app in Hts as (ts2 & ts3 & -> & E2 & E3). cbn [app length] in *. rewrite !length_app in Hn.
  rewrite <- !(assoc_L app). pose proof (where_tokens _ _ _ E3 He) as Hwe.
  assert (Hne : ts3 ++ rest <> []) by (by intros E; rewrite E in Hwe).
  unfold parse_select. erewrite bind_ok by (apply expect_yes; [done | by apply app_nonempty_r, app_nonempty_r]).
  assert (Hcur : exists t1 r1, ts1 ++ ts2 ++ ts3 ++ rest = t1 :: r1).
  { destruct (ts1 ++ ts2 ++ ts3 ++ rest) eqn:E; [| by eexists _, _]. exfalso. by apply (app_nonempty_r ts1 (ts2 ++ ts3 ++ rest)); [apply app_nonempty_r |]. }
  destruct Hcur as (t1 & r1 & Ec). unfold current. erewrite bind_ok by (rewrite Ec; reflexivity). cbv zeta. rewrite <- Ec.
  assert (Hnext : exists u r, ts2 ++ ts3 ++ rest = u :: r /\ (kind u = Tok.TFrom \/ kind u = Tok.Where \/ kind u = Tok.Semicolon \/ kind u = Tok.Eof)).
  { destruct fr as [r |].
    - apply tok_cons in E2 as (u & ts4 & -> & Eu & _). eexists u, _. split; [done | by left].
    - apply tok_nil in E2 as ->. cbn [app]. destruct (ts3 ++ rest) as [| u r]; [done |]. eexists u, r. split; [done | by right]. }
  destruct Hnext as (u & r & Eu & Hu).
  erewrite bind_ok.
  2: { eapply items_read; [exact Hi | exact E1 | | | rewrite !length_app; lia].
       - rewrite Eu. cbn. by destruct Hu as [-> | [-> | [-> | ->]]].
       - intros t' r' E. rewrite Eu in E. injection E as <- <-. by destruct Hu as [-> | [-> | [-> | ->]]]. }
  rewrite (from_reads (fun r => has_where ← eats Tok.Where; w ← (if has_where : bool then e ← parse_expr n; mret (Some e) else mret None);
    mret (mkSelect its r w)) _ its fr) by done.
  by rewrite (where_reads (fun w => mret (mkSelect its fr w)) n wh) by (done || lia).
Qed.

Lemma insert_reads n s ts rest : wf_statement (Statement.Insert s) = true ->
  kind <$> ts = print_statement (Statement.Insert s) -> ends rest ->
  (8 * (length ts + length rest) + 7 <= n)%nat -> parse_insert n (ts ++ rest) = (Ok s, rest).
Proof.
  destruct s as [tb cs vs]. cbn [wf_statement wf_simple print_statement insert_table insert_columns values].
  intros [[[_ _]%andb_true_iff Hne]%andb_true_iff Hv]%andb_true_iff Hts He Hn.
  apply tok_cons in Hts as (t1 & ts1 & -> & E1 & Hts). apply tok_cons in Hts as (t2 & ts2 & -> & E2 & Hts).
  apply tok_cons in Hts as (t3 & ts3 & -> & E3 & Hts). apply tok_app in Hts as (tc & tsr & -> & Ec & Hts).
  apply tok_cons in Hts as (t4 & ts5 & -> & E4 & E5). cbn [app length] in *. rewrite length_app in Hn. cbn [length] in Hn.
  rewrite <- (assoc_L app). cbn [app]. pose proof (ends_follow rest He) as Hf.
  assert (Hr5 : ts5 ++ rest <> []) by (by eapply app_nonempty_r, follow_nonempty).
  unfold parse_insert. erewrite bind_ok by (by apply expect_yes). erewrite bind_ok by (by apply expect_yes).
  erewrite bind_ok by (apply expect_identifier_yes; [done | by apply app_nonempty_r]).
  assert (Hcols : (has_columns ← eats Tok.LParen;
      (if has_columns : bool then cs ← comma_list n expect_identifier; _ ← expect_kind Tok.RParen (str ")"); mret cs
       else mret [])) (tc ++ t4 :: ts5 ++ rest) = (Ok cs, t4 :: ts5 ++ rest)).
  { destruct cs as [| c cs].
    - apply tok_nil in Ec as ->. cbn [app]. by erewrite bind_ok by (apply eats_no; by rewrite E4).
    - apply tok_cons in Ec as (u & tc1 & -> & Eu & Ec). apply tok_app in Ec as (tc2 & tc3 & -> & Ec2 & Ec3).
      apply tok_cons in Ec3 as (u3 & tc4 & -> & Eu3 & ->%tok_nil). cbn [app length] in *. rewrite length_app in Hn. cbn [length] in Hn.
      rewrite <- (assoc_L app). cbn [app].
      erewrite bind_ok by (apply eats_yes; [done | by apply app_nonempty_r]). cbn iota.
      erewrite bind_ok by (apply names_read; [| exact Ec2 | by eexists _, _ | cbn [length]; rewrite length_app; lia]; done).
      by erewrite bind_ok by (by apply expect_yes). }
  unfold mbind at 1, M_bind at 1 in Hcols. unfold mbind at 1, M_bind at 1.
  destruct (eats Tok.LParen _) as [[b | e |] s]; try done. unfold mbind at 1, M_bind at 1. rewrite Hcols.
  erewrite bind_ok by (by apply expect_yes). erewrite bind_ok; [done |].
  eapply (comma_list_reads print_row (parse_value_row n) (fun rest => rest <> []) (length ts5 + length rest)); try done.
  - tauto.
  - eapply Forall_impl; [by apply forallb_Forall |]. intros row Hrow ts' rest' Hts' Hr' Hb. apply row_reads; [done | done | done | lia].
  - by destruct rest.
  - intros t r ->. by destruct He as [-> | ->].
  - lia.
Qed.

Lemma create_table_reads n s ts rest : wf_statement (Statement.CreateTable s) = true ->
  kind <$> ts = print_statement (Statement.CreateTable s) -> ends rest ->
  (length ts + length rest <= n)%nat -> parse_create_table n (ts ++ rest) = (Ok s, rest).
Proof.
  destruct s as [tb cs]. cbn [wf_statement wf_simple print_statement create_table create_columns].
  intros [[_ Hne]%andb_true_iff Hc]%andb_true_iff Hts He Hn.
  apply tok_cons in Hts as (t1 & ts1 & -> & E1 & Hts). apply tok_cons in Hts as (t2 & ts2 & -> & E2 & Hts).
  apply tok_cons in Hts as (t3 & ts3 & -> & E3 & Hts). apply tok_cons in Hts as (t4 & ts4 & -> & E4 & Hts).
  apply tok_app in Hts as (ts5 & ts6 & -> & E5 & E6). apply tok_cons in E6 as (t6 & ts7 & -> & Et6 & ->%tok_nil).
  cbn [app length] in *. rewrite length_app in Hn. cbn [length] in Hn. rewrite <- (assoc_L app). cbn [app].
  pose proof (ends_follow rest He) as Hf. assert (Hr : rest <> []) by (by eapply follow_nonempty).
  assert (Hr5 : ts5 ++ t6 :: rest <> []) by (by apply app_nonempty_r).
  unfold parse_create_table. erewrite bind_ok by (by apply expect_yes). erewrite bind_ok by (by apply expect_yes).
  erewrite bind_ok by (by apply expect_identifier_yes). erewrite bind_ok by (by apply expect_yes).
  assert (Hcols : comma_list n parse_col_def (ts5 ++ t6 :: rest) = (Ok cs, t6 :: rest)).
  { eapply (comma_list_reads print_col_def parse_col_def (fun rest => rest <> []) n); try done.
    - tauto.
    - eapply Forall_impl; [by apply forallb_Forall |]. intros c Hc' ts' rest' Hts' Hr' _. by apply col_def_reads.
    - intros t r [= <- <-]. by rewrite Et6.
    - cbn [length]. lia.
    - cbn [length]. lia. }
  rewrite (bind_ok _ _ _ _ _ Hcols). by erewrite bind_ok by (by apply expect_yes).
Qed.

Lemma create_index_reads s ts rest : kind <$> ts = print_statement (Statement.CreateIndex s) -> ends rest ->
  parse_create_index (ts ++ rest) = (Ok s, rest).
Proof.
  destruct s as [i tb c]. cbn [print_statement index_name index_table index_column]. intros Hts He.
  apply tok_cons in Hts as (t1 & ts1 & -> & E1 & Hts). apply tok_cons in Hts as (t2 & ts2 & -> & E2 & Hts).
  apply tok_cons in Hts as (t3 & ts3 & -> & E3 & Hts). apply tok_cons in Hts as (t4 & ts4 & -> & E4 & Hts).
  apply tok_cons in Hts as (t5 & ts5 & -> & E5 & Hts). apply tok_cons in Hts as (t6 & ts6 & -> & E6 & Hts).
  apply tok_cons in Hts as (t7 & ts7 & -> & E7 & Hts). apply tok_cons in Hts as (t8 & ts8 & -> & E8 & ->%tok_nil).
  cbn [app]. assert (Hr : rest <> []) by (by destruct rest).
  unfold parse_create_index. erewrite bind_ok by (by apply expect_yes). erewrite bind_ok by (by apply expect_yes).
  erewrite bind_ok by (by apply expect_identifier_yes). erewrite bind_ok by (by apply expect_yes).
  erewrite bind_ok by (by apply expect_identifier_yes). erewrite bind_ok by (by apply expect_yes).
  erewrite bind_ok by (by apply expect_identifier_yes). by erewrite bind_ok by (by apply expect_yes).
Qed.

Lemma current_kind_cons t r k : kind t = k -> current_kind (t :: r) = (Ok k, t :: r).
Proof. by intros <-. Qed.

Lemma simple_reads n s ts rest : wf_simple s = true -> kind <$> ts = print_statement s -> ends rest ->
  (8 * (length ts + length rest) + 8 <= n)%nat -> parse_statement n (ts ++ rest) = (Ok s, rest).
Proof.
  intros Hw Hts He Hn. destruct n as [| n]; [lia |].
  assert (Hne : rest <> []) by (by destruct rest).
  destruct s as [s | s | s | s | | | |]; try discriminate Hw; cbn [parse_statement].
  - pose proof Hts as Hts'. apply tok_cons in Hts' as (t & r & -> & Et & _). cbn [app].
    erewrite bind_ok by (by apply current_kind_cons). cbn iota. erewrite bind_ok; [done |].
    change (t :: r ++ rest) with ((t :: r) ++ rest). apply select_reads; [done | done | done | lia].
  - pose proof Hts as Hts'. apply tok_cons in Hts' as (t & r & -> & Et & _). cbn [app].
    erewrite bind_ok by (by apply current_kind_cons). cbn iota. erewrite bind_ok; [done |].
    change (t :: r ++ rest) with ((t :: r) ++ rest). apply insert_reads; [done | done | done | lia].
  - pose proof Hts as Hts'. apply tok_cons in Hts' as (t & r & -> & Et & Hts').
    apply tok_cons in Hts' as (t2 & r2 & -> & Et2 & _). cbn [app].
    erewrite bind_ok by (by apply current_kind_cons). cbn iota.
    erewrite bind_ok by (unfold peek_kind; cbn; rewrite Et2; reflexivity). cbn iota. erewrite bind_ok; [done |].
    change (t :: t2 :: r2 ++ rest) with ((t :: t2 :: r2) ++ rest). apply create_table_reads; [done | done | done | lia].
  - pose proof Hts as Hts'. apply tok_cons in Hts' as (t & r & -> & Et & Hts').
    apply tok_cons in Hts' as (t2 & r2 & -> & Et2 & _). cbn [app].
    erewrite bind_ok by (by apply current_kind_cons). cbn iota.
    erewrite bind_ok by (unfold peek_kind; cbn; rewrite Et2; reflexivity). cbn iota. erewrite bind_ok; [done |].
    change (t :: t2 :: r2 ++ rest) with ((t :: t2 :: r2) ++ rest). by apply create_index_reads.
Qed.

Lemma statement_reads n s ts rest : wf_statement s = true -> kind <$> ts = print_statement s -> ends rest ->
  (8 * (length ts + length rest) + 16 <= n)%nat -> parse_statement n (ts ++ rest) = (Ok s, rest).
Proof.
  intros Hw Hts He Hn. assert (Hne : rest <> []) by (by destruct rest).
  destruct s as [s | s | s | s | | | | v s]; try (apply simple_reads; [done | done | done | lia]);
    destruct n as [| n]; try lia; cbn [parse_statement].
  1-3: apply tok_cons in Hts as (t & r & -> & Et & ->%tok_nil); cbn [app];
    erewrite bind_ok by (by apply current_kind_cons); cbn iota; by erewrite bind_ok by (by apply advance_cons).
  cbn [print_statement] in Hts. apply tok_cons in Hts as (t & r & -> & Et & Hts).
  apply tok_app in Hts as (tv & tr & -> & Ev & Er). cbn [app length] in *. rewrite length_app in Hn. rewrite <- (assoc_L app).
  erewrite bind_ok by (by apply current_kind_cons). cbn iota. unfold parse_explain. unfold current at 1.
  erewrite bind_ok by reflexivity. cbv zeta.
  erewrite bind_ok by (apply expect_yes; [done | by apply app_nonempty_r, app_nonempty_r]).
  assert (Hhd : exists u r, tr ++ rest = u :: r /\ forall name, kind u <> Tok.Identifier name).
  { destruct s as [s | s | s | s | | | |]; try discriminate Hw; apply tok_cons in Er as (u & r & -> & Eu & _);
      eexists u, _; (split; [done |]); by rewrite Eu. }
  destruct Hhd as (u & r & Eu & Hu).
  assert (Hv : consume_verbose_keyword (tv ++ tr ++ rest) = (Ok v, tr ++ rest)).
  { unfold consume_verbose_keyword. destruct v.
    - apply tok_cons in Ev as (x & y & -> & Ex & ->%tok_nil). cbn [app]. erewrite bind_ok by (by apply current_kind_cons). cbn iota.
      change (eq_ignore_ascii_case (str "VERBOSE") (str "VERBOSE")) with true. cbn iota.
      by erewrite bind_ok by (apply advance_cons; by apply app_nonempty_r).
    - apply tok_nil in Ev as ->. cbn [app]. rewrite Eu. erewrite bind_ok by (by apply current_kind_cons).
      destruct (kind u) eqn:Ek; try done. by destruct (Hu name). }
  rewrite (bind_ok _ _ _ _ _ Hv). erewrite bind_ok by (apply simple_reads; [exact Hw | exact Er | exact He | lia]).
  by destruct s.
Qed.

Lemma parse_reads s ts : wf_statement s = true -> kind <$> ts = print_statement s ++ [Tok.Eof] -> (parse ts).1 = Ok s.
Proof.
  intros Hw Hts. apply tok_app in Hts as (ts1 & ts2 & -> & E1 & E2).
  apply tok_cons in E2 as (t & ts3 & -> & Et & ->%tok_nil). unfold parse.
  erewrite bind_ok by reflexivity.
  erewrite bind_ok by (apply statement_reads; [exact Hw | exact E1 | by right | unfold parser_fuel, id; rewrite length_app; lia]).
  erewrite bind_ok by (apply eats_no; by rewrite Et). by erewrite bind_ok by (by apply current_kind_cons).
Qed.

(** ** The text *)
Definition is_float (k : Tok.t) : bool := match k with Tok.FloatLiteral _ => true | _ => false end.
Definition lexable (k : Tok.t) : bool := printable k || is_float k.

Lemma lexable_parens b ks : forallb lexable (parens b ks) = forallb lexable ks.
Proof. destruct b; [| done]. cbn. rewrite forallb_app. cbn. by rewrite andb_true_r. Qed.

Lemma lexable_print k e : wf_expr e = true -> forallb lexable (print k e) = true.
Proof.
  revert k. induction e as [v | n | [tb |] name | l IHl op r IHr | [] e IH | e IH neg | i]; intros k Hw;
    cbn [print]; rewrite lexable_parens; cbn [wf_expr] in Hw.
  - destruct v as [| [] | | | |]; try done; cbn [wf_value print_value forallb lexable printable] in *; unfold lexable; cbn [printable]; by rewrite Hw.
  - by destruct n.
  - apply andb_true_iff in Hw as [H1 H2]. cbn. unfold lexable. cbn. by rewrite H1, H2.
  - apply andb_true_iff in Hw as [H1 _]. cbn. unfold lexable. cbn. by rewrite H1.
  - apply andb_true_iff in Hw as [[H1 Hop]%andb_true_iff H2]. rewrite forallb_app. cbn [forallb].
    rewrite IHl, IHr by done. destruct op; done.
  - cbn [forallb]. by rewrite IH.
  - cbn [forallb]. by rewrite IH.
  - rewrite forallb_app, IH by done. by destruct neg.
  - cbn. unfold lexable. cbn. by rewrite Hw.
Qed.

Lemma lexable_sep_by {A} (pr : A -> list Tok.t) l :
  Forall (fun a => forallb lexable (pr a) = true) l -> forallb lexable (sep_by pr l) = true.
Proof.
  destruct 1 as [| a l Ha Hl]; [done |]. rewrite sep_by_cons, forallb_app, Ha. cbn [andb].
  induction Hl as [| b l Hb Hl IH]; [done |]. cbn. by rewrite forallb_app, Hb.
Qed.

Lemma lexable_name name : is_name name = true -> lexable (Tok.Identifier name) = true.
Proof. intros H. unfold lexable. cbn. by rewrite H. Qed.

Lemma lexable_simple s : wf_simple s = true -> forallb lexable (print_statement s) = true.
Proof.
  destruct s as [[its fr wh] | [tb cs vs] | [tb cs] | [i tb c] | | | |]; try done;
    cbn [wf_simple print_statement items from where_clause insert_table insert_columns values create_table create_columns
      index_name index_table index_column]; rewrite !andb_true_iff.
  - intros ([Hi Hf] & Hw). cbn [forallb]. rewrite !forallb_app, !andb_true_iff. split; [done |]. split; [| split].
    + apply lexable_sep_by. destruct its as [| [| e] [| j its]]; try done.
      * by repeat constructor.
      * constructor; [| done]. cbn in Hi. apply andb_true_iff in Hi as [Hi _]. by apply lexable_print.
      * apply forallb_Forall in Hi. eapply Forall_impl; [exact Hi |]. intros [| e'] He'; [done |]. by apply lexable_print.
    + destruct fr as [[name [a |]] |]; [| | done]; unfold wf_table_ref in Hf; cbn in Hf |- *;
        apply andb_true_iff in Hf as [H1 H2]; rewrite !lexable_name; done.
    + destruct wh as [e |]; [| done]. cbn [forallb]. by rewrite lexable_print.
  - intros (([Hn Hc] & _) & Hv). cbn [forallb]. rewrite forallb_app, lexable_name by done. cbn [andb].
    rewrite !andb_true_iff. split; [done |]. split; [done |]. split.
    + destruct cs as [| c cs]; [done |]. cbn [forallb] in *. rewrite forallb_app. cbn [forallb].
      rewrite lexable_sep_by; [done |]. apply (forallb_Forall is_name (c :: cs)) in Hc. eapply Forall_impl; [exact Hc |].
      intros x Hx. cbn. by rewrite lexable_name.
    + cbn [forallb]. rewrite lexable_sep_by; [done |]. apply forallb_Forall in Hv. eapply Forall_impl; [exact Hv |].
      intros row [_ Hr]%andb_true_iff. unfold print_row. cbn [forallb]. rewrite forallb_app, lexable_sep_by; [done |].
      apply forallb_Forall in Hr. eapply Forall_impl; [exact Hr |]. intros e. apply lexable_print.
  - intros ([Hn _] & Hc). cbn [forallb]. rewrite forallb_app, lexable_name by done. cbn [forallb andb].
    rewrite lexable_sep_by; [done |]. apply forallb_Forall in Hc. eapply Forall_impl; [exact Hc |].
    intros [name d nl] [[H1 _]%andb_true_iff _]%andb_true_iff. cbn in H1 |- *. rewrite lexable_name by done. by destruct d.
  - intros ([H1 H2] & H3). cbn [forallb]. by rewrite !lexable_name.
Qed.

Lemma lexable_statement s : wf_statement s = true -> forallb lexable (print_statement s) = true.
Proof.
  destruct s as [s | s | s | s | | | | v s]; try done; try (by apply lexable_simple). cbn [wf_statement print_statement].
  intros Hw. cbn [forallb]. rewrite forallb_app, lexable_simple by done. by destruct v.
Qed.

Definition float_free (s : Statement.t) : bool := forallb (fun k => negb (is_float k)) (print_statement s).
Definition statement_text (s : Statement.t) : bytes := render (print_statement s).

(** C17: Parsing inverts printing: the text of every well-formed statement without a
    floating-point literal, with parentheses only where precedence and associativity need
    them, lexes and parses to that statement. *)
Theorem parse_sql_roundtrip s : wf_statement s = true -> float_free s = true -> parse_sql (statement_text s) = Ok s.
Proof.
  intros Hw Hf. unfold parse_sql, statement_text. rewrite tokenize_render.
  - cbn [mbind outcome_bind]. apply parse_reads; [done |]. apply place_kinds.
  - pose proof (lexable_statement s Hw) as Hl. unfold float_free in Hf. rewrite forallb_forall in Hl, Hf |- *.
    intros k Hk. specialize (Hl k Hk). specialize (Hf k Hk). unfold lexable in Hl. apply orb_true_iff in Hl as [? | Hl]; [done |].
    by rewrite Hl in Hf.
Qed.

Definition sample_statement : Statement.t :=
  Statement.Explain true (Statement.Select (mkSelect
    [ItemExpr (Expr.Column (Some (str "x")) (str "a")); ItemExpr (Expr.SessionContext SessionContextName.Version)]
    (Some (mkTableRef (str "t") (Some (str "x"))))
    (Some (Expr.BinaryOp
      (Expr.UnaryOp UnaryOperator.Not (Expr.BinaryOp (Expr.Column None (str "a")) BinaryOperator.Or (Expr.Param 1)))
      BinaryOperator.And
      (Expr.IsNull (Expr.BinaryOp (Expr.Literal (Value.Varchar (str "it's"))) BinaryOperator.Eq
         (Expr.UnaryOp UnaryOperator.Negate (Expr.Literal (Value.BigInt 7)))) true))))).

Lemma parse_sql_roundtrip_witness :
  parse_sql (str "EXPLAIN VERBOSE SELECT x . a , version ( ) FROM t AS x WHERE NOT ( a OR $1 ) AND 'it''s' = - 7 IS NOT NULL ")
  = Ok sample_statement.
Proof. apply (parse_sql_roundtrip sample_statement); vm_compute; reflexivity. Defined.
