(* ===== verification/Catalog.v ===== *)
(** * The catalog: crates/catalog (schema.rs, column.rs, table_info.rs, index_info.rs, persist.rs,
    and the in-memory state of catalog.rs)

    Tables and indexes by name and by id, the lookups the planner and the executor make, and the
    rows the catalog heaps store them as. Column positions ([usize]) are integers. *)
From S2P Require Import Prelude Text Value Tuple Common Errors.

(** ** Descriptions of tables and indexes *)
Record Column : Type := mkColumn { column_name : bytes; data_type : DataType.t; is_nullable : bool }.
Record Schema : Type := mkSchema { columns : list Column }.

(** [iter().position(p)], counting from [i] *)
Fixpoint position {A} (p : A -> bool) (i : Z) (l : list A) : option Z :=
  match l with
  | [] => None
  | x :: l => if p x then Some i else position p (i + 1) l
  end.

Definition column_index (s : Schema) (name : bytes) : option Z :=
  position (fun c => bool_decide (column_name c = name)) 0 (columns s).

Record TableInfo : Type := mkTableInfo {
  table_id : TableId;
  info_name : bytes;
  schema : Schema;
  first_page_id : PageId;
}.

Record IndexInfo : Type := mkIndexInfo {
  index_id : IndexId;
  index_info_name : bytes;
  index_table_id : TableId;
  index_column_index : Z;
  catalog_rid : Rid;
  root_page_id_offset : Z;
  root_page_id : PageId;
}.
Definition set_root_page_id (new_root : PageId) (i : IndexInfo) : IndexInfo :=
  mkIndexInfo (index_id i) (index_info_name i) (index_table_id i) (index_column_index i)
              (catalog_rid i) (root_page_id_offset i) new_root.

(** [CatalogError]; a corrupt row keeps the error of the row decoder, whose text the source stores. *)
Inductive CatalogError : Type :=
| TableAlreadyExists (name : bytes)
| TableNotFound (name : bytes)
| IndexAlreadyExists (name : bytes)
| IndexNotFound (name : bytes)
| ColumnNotFound (table column : bytes)
| CatalogStorage (e : Storage.Error)
| Corrupt (detail : bytes)
| CorruptRow (e : TupleError).

(** ** persist.rs *)
Definition CATALOG_ROW_SCHEMA : list DataType.t :=
  [DataType.Integer; DataType.Varchar 0; DataType.Integer; DataType.Varchar 0].
Definition INDEX_CATALOG_ROW_SCHEMA : list DataType.t :=
  [DataType.Integer; DataType.Varchar 0; DataType.Integer; DataType.Integer; DataType.Integer].

Definition type_tag (d : DataType.t) : Z :=
  match d with
  | DataType.Boolean => 0
  | DataType.Integer => 1
  | DataType.BigInt => 2
  | DataType.Double => 3
  | DataType.Varchar _ => 4
  end.

Definition tag_to_type (tag varchar_len : Z) : outcome CatalogError DataType.t :=
  if tag =? 0 then Ok DataType.Boolean
  else if tag =? 1 then Ok DataType.Integer
  else if tag =? 2 then Ok DataType.BigInt
  else if tag =? 3 then Ok DataType.Double
  else if tag =? 4 then Ok (DataType.Varchar varchar_len)
  else Err (Corrupt (str "unknown column type tag " ++ fmt_u tag)).

(** [HEX_DIGITS[(byte >> 4)]], [HEX_DIGITS[(byte & 0x0f)]] *)
Definition to_hex (bs : bytes) : bytes :=
  b ← bs; [hex_digit (Z.shiftr (Z_of_byte b) 4); hex_digit (Z.land (Z_of_byte b) 15)].

Definition hex_value (digit : byte) : outcome CatalogError Z :=
  if between 48 57 digit then Ok (Z_of_byte digit - 48)
  else if between 97 102 digit then Ok (Z_of_byte digit - 97 + 10)
  else Err (Corrupt (str "invalid hex digit in schema blob")).

(** The loop over [chunks_exact(2)] *)
Fixpoint from_hex_pairs (digits : bytes) : outcome CatalogError bytes :=
  match digits with
  | a :: b :: digits =>
      hi ← hex_value a;
      lo ← hex_value b;
      out ← from_hex_pairs digits;
      Ok (byte_of_Z (Z.lor (Z.shiftl hi 4) lo) :: out)
  | _ => Ok []
  end.

Definition from_hex (text : bytes) : outcome CatalogError bytes :=
  if negb (len text mod 2 =? 0) then Err (Corrupt (str "odd-length hex blob"))
  else from_hex_pairs text.

Definition encode_column (c : Column) : bytes :=
  to_le 4 (wrapu 32 (len (column_name c))) ++ column_name c ++ [byte_of_Z (type_tag (data_type c))]
  ++ match data_type c with DataType.Varchar n => to_le 4 n | _ => [] end
  ++ [byte_of_Z (Z.b2z (is_nullable c))].

Definition encode_schema_blob (s : Schema) : bytes :=
  to_hex (to_le 4 (wrapu 32 (len (columns s))) ++ concat (encode_column <$> columns s)).

Definition take_blob (bs : bytes) (offset n : Z) : outcome CatalogError bytes :=
  ok_or (sub bs offset n) (Corrupt (str "truncated schema blob")).

(** One iteration of the loop over the columns: the column and the offset after it. *)
Definition decode_column (bs : bytes) (offset : Z) : outcome CatalogError (Column * Z) :=
  name_len_bytes ← take_blob bs offset 4;
  let name_len := from_le name_len_bytes in
  let offset := offset + 4 in
  name_bytes ← take_blob bs offset name_len;
  name ← ok_or (Utf8.from_utf8 name_bytes) (Corrupt (str "invalid utf-8 column name"));
  let offset := offset + name_len in
  tag_bytes ← take_blob bs offset 1;
  tag ← or_panic (index tag_bytes 0);
  let offset := offset + 1 in
  '(varchar_len, offset) ←
    (if Z_of_byte tag =? 4
     then len_bytes ← take_blob bs offset 4; Ok (from_le len_bytes, offset + 4)
     else Ok (0, offset));
  d ← tag_to_type (Z_of_byte tag) varchar_len;
  nullable_bytes ← take_blob bs offset 1;
  nullable ← or_panic (index nullable_bytes 0);
  Ok (mkColumn name d (negb (Z_of_byte nullable =? 0)), offset + 1).

Fixpoint decode_schema_columns (bs : bytes) (count : nat) (offset : Z) : outcome CatalogError (list Column) :=
  match count with
  | O => Ok []
  | S count =>
      '(c, offset) ← decode_column bs offset;
      cs ← decode_schema_columns bs count offset;
      Ok (c :: cs)
  end.

Definition decode_schema_blob (blob : bytes) : outcome CatalogError Schema :=
  bs ← from_hex blob;
  count_bytes ← take_blob bs 0 4;
  cs ← decode_schema_columns bs (Z.to_nat (from_le count_bytes)) 4;
  Ok (mkSchema cs).

Definition encode_table_info (info : TableInfo) : bytes :=
  encode [Value.Integer (wraps 32 (table_id info)); Value.Varchar (info_name info);
          Value.Integer (wraps 32 (first_page_id info));
          Value.Varchar (encode_schema_blob (schema info))] [].

Definition decode_row (bs : bytes) (types : list DataType.t) : outcome CatalogError Tuple :=
  match decode bs types with Ok t => Ok t | Err e => Err (CorruptRow e) | Panic => Panic end.

Definition decode_table_info (bs : bytes) : outcome CatalogError TableInfo :=
  values ← decode_row bs CATALOG_ROW_SCHEMA;
  v0 ← or_panic (index values 0);
  v1 ← or_panic (index values 1);
  v2 ← or_panic (index values 2);
  v3 ← or_panic (index values 3);
  match v0, v1, v2, v3 with
  | Value.Integer id, Value.Varchar name, Value.Integer first_page, Value.Varchar blob =>
      s ← decode_schema_blob blob;
      Ok (mkTableInfo (wrapu 32 id) name s (wrapu 32 first_page))
  | _, _, _, _ => Err (Corrupt (str "malformed catalog row"))
  end.

Definition encode_index_row (id : IndexId) (name : bytes) (table : TableId) (column_index : Z)
    (root : PageId) : bytes :=
  encode [Value.Integer (wraps 32 id); Value.Varchar name; Value.Integer (wraps 32 table);
          Value.Integer (wraps 32 column_index); Value.Integer (wraps 32 root)] [].

Definition decode_index_row (bs : bytes) (rid : Rid) : outcome CatalogError IndexInfo :=
  values ← decode_row bs INDEX_CATALOG_ROW_SCHEMA;
  v0 ← or_panic (index values 0);
  v1 ← or_panic (index values 1);
  v2 ← or_panic (index values 2);
  v3 ← or_panic (index values 3);
  v4 ← or_panic (index values 4);
  match v0, v1, v2, v3, v4 with
  | Value.Integer id, Value.Varchar name, Value.Integer table, Value.Integer column,
    Value.Integer root =>
      Ok (mkIndexInfo (wrapu 32 id) name (wrapu 32 table) (wrapu 64 column) rid (len bs - 4)
                      (wrapu 32 root))
  | _, _, _, _, _ => Err (Corrupt (str "malformed index catalog row"))
  end.

(** ** catalog.rs: the in-memory state *)
#[export] Instance byte_countable : Countable byte :=
  inj_countable' Z_of_byte byte_of_Z byte_of_Z_of_byte.

Record CatalogState : Type := mkCatalog {
  tables_by_name : gmap bytes TableInfo;
  tables_by_id : gmap TableId bytes;
  next_table_id : Z;
  catalog_first_page : option PageId;
  indexes_by_name : gmap bytes IndexInfo;
  indexes_by_id : gmap IndexId bytes;
  indexes_by_table : gmap TableId (list IndexId);
  next_index_id : Z;
  index_catalog_first_page : option PageId;
}.
Definition empty_catalog : CatalogState := mkCatalog ∅ ∅ 0 None ∅ ∅ ∅ 0 None.

Definition insert_table (info : TableInfo) (s : CatalogState) : CatalogState :=
  mkCatalog (<[info_name info := info]> (tables_by_name s))
            (<[table_id info := info_name info]> (tables_by_id s))
            (Z.max (next_table_id s) (wrapu 32 (table_id info + 1)))
            (catalog_first_page s) (indexes_by_name s) (indexes_by_id s) (indexes_by_table s)
            (next_index_id s) (index_catalog_first_page s).

Definition insert_index (info : IndexInfo) (s : CatalogState) : CatalogState :=
  mkCatalog (tables_by_name s) (tables_by_id s) (next_table_id s) (catalog_first_page s)
            (<[index_info_name info := info]> (indexes_by_name s))
            (<[index_id info := index_info_name info]> (indexes_by_id s))
            (<[index_table_id info :=
                 default [] (indexes_by_table s !! index_table_id info) ++ [index_id info]]>
               (indexes_by_table s))
            (Z.max (next_index_id s) (wrapu 32 (index_id info + 1)))
            (index_catalog_first_page s).

Definition from_tables (tables : list TableInfo) : CatalogState :=
  fold_left (fun s info => insert_table info s) tables empty_catalog.
Definition from_tables_and_indexes (tables : list TableInfo) (indexes : list IndexInfo) : CatalogState :=
  fold_left (fun s info => insert_index info s) indexes (from_tables tables).

Definition table_by_id (s : CatalogState) (id : TableId) : outcome CatalogError TableInfo :=
  name ← ok_or (tables_by_id s !! id) (TableNotFound (str "table id " ++ fmt_u id));
  ok_or (tables_by_name s !! name) (TableNotFound name).
Definition index_by_id (s : CatalogState) (id : IndexId) : outcome CatalogError IndexInfo :=
  name ← ok_or (indexes_by_id s !! id) (IndexNotFound (str "index id " ++ fmt_u id));
  ok_or (indexes_by_name s !! name) (IndexNotFound (str "index id " ++ fmt_u id)).

Definition get_table (s : CatalogState) (name : bytes) : outcome CatalogError TableInfo :=
  ok_or (tables_by_name s !! name) (TableNotFound name).
Definition get_table_by_id (s : CatalogState) (id : TableId) : outcome CatalogError TableInfo :=
  table_by_id s id.

Fixpoint find_map {A B} (f : A -> option B) (l : list A) : option B :=
  match l with
  | [] => None
  | x :: l => match f x with Some y => Some y | None => find_map f l end
  end.

Definition index_for_column (s : CatalogState) (table : TableId) (column : Z) : option IndexInfo :=
  ids ← indexes_by_table s !! table;
  find_map (fun id =>
    name ← indexes_by_id s !! id;
    info ← indexes_by_name s !! name;
    if index_column_index info =? column then Some info else None) ids.

Definition indexes_for_table (s : CatalogState) (table : TableId) : list IndexInfo :=
  omap (fun name => indexes_by_name s !! name)
       (omap (fun id => indexes_by_id s !! id) (default [] (indexes_by_table s !! table))).

Definition index_root_page (s : CatalogState) (id : IndexId) : outcome CatalogError PageId :=
  info ← index_by_id s id; Ok (root_page_id info).

(** ** The rows of the catalog *)

#[local] Arguments decode_schema_blob : simpl never.
#[local] Arguments encode_schema_blob : simpl never.
#[local] Arguments wraps : simpl never.
#[local] Arguments wrapu : simpl never.

Lemma hex_value_digit z : 0 <= z < 16 -> hex_value (hex_digit z) = Ok z.
Proof.
  intros Hz. unfold hex_value, hex_digit, between. destruct (Z.ltb_spec z 10).
  - rewrite Z_of_byte_of_Z, Z.mod_small by lia. zcase; f_equal; lia.
  - rewrite Z_of_byte_of_Z, Z.mod_small by lia. repeat zcase; simpl; f_equal; lia.
Qed.

Lemma hex_byte b :
  byte_of_Z (Z.lor (Z.shiftl (Z.shiftr (Z_of_byte b) 4) 4) (Z.land (Z_of_byte b) 15)) = b.
Proof. destruct b; reflexivity. Qed.
Lemma hex_nibbles b : 0 <= Z.shiftr (Z_of_byte b) 4 < 16 /\ 0 <= Z.land (Z_of_byte b) 15 < 16.
Proof.
  pose proof (Z_of_byte_range b). rewrite Z.shiftr_div_pow2 by lia. change 15 with (Z.ones 4).
  rewrite Z.land_ones by lia. change (2 ^ 4) with 16.
  split; [split; [apply Z.div_pos | apply Z.div_lt_upper_bound]; lia | apply Z.mod_pos_bound; lia].
Qed.

Lemma to_hex_cons b bs :
  to_hex (b :: bs) = [hex_digit (Z.shiftr (Z_of_byte b) 4); hex_digit (Z.land (Z_of_byte b) 15)] ++ to_hex bs.
Proof. done. Qed.

Lemma from_hex_to_hex bs : from_hex (to_hex bs) = Ok bs.
Proof.
  assert (Hp : from_hex_pairs (to_hex bs) = Ok bs /\ len (to_hex bs) mod 2 = 0).
  { induction bs as [| b bs [IH IHl]]; [done |]. rewrite to_hex_cons. split.
    - cbn [from_hex_pairs app]. destruct (hex_nibbles b) as [H1 H2].
      rewrite !hex_value_digit by done. cbn [mbind outcome_bind]. rewrite IH.
      cbn [mbind outcome_bind]. by rewrite hex_byte.
    - rewrite len_app. change (len [_; _]) with 2.
      rewrite <- Z.add_mod_idemp_r, IHl by lia. done. }
  unfold from_hex. destruct Hp as [Hp ->]. done.
Qed.

Lemma valid_ascii bs : Forall (fun b => Z_of_byte b < 128) bs -> Utf8.valid bs = true.
Proof.
  induction 1 as [| b bs Hb _ IH]; [done |]. cbn [Utf8.valid].
  by rewrite (proj2 (Z.ltb_lt _ _) Hb).
Qed.
Lemma hex_digit_ascii z : 0 <= z < 16 -> Z_of_byte (hex_digit z) < 128.
Proof.
  intros Hz. unfold hex_digit. rewrite Z_of_byte_of_Z.
  rewrite Z.mod_small; destruct (z <? 10); lia.
Qed.
Lemma valid_to_hex bs : Utf8.valid (to_hex bs) = true.
Proof.
  apply valid_ascii. induction bs as [| b bs IH]; [constructor |]. rewrite to_hex_cons.
  destruct (hex_nibbles b). repeat constructor; [by apply hex_digit_ascii.. | done].
Qed.

(** ** Round trips *)
Definition wf_column (c : Column) : Prop :=
  Utf8.valid (column_name c) = true /\ len (column_name c) < 2 ^ 32
  /\ match data_type c with DataType.Varchar n => in_u 32 n | _ => True end.
Definition wf_schema (s : Schema) : Prop :=
  Forall wf_column (columns s) /\ len (columns s) < 2 ^ 32 /\ len (encode_schema_blob s) < 2 ^ 32.

Lemma take_blob_mid pre mid post n :
  len mid = n -> take_blob (pre ++ mid ++ post) (len pre) n = Ok mid.
Proof. intros <-. unfold take_blob. by rewrite sub_app_mid. Qed.

Lemma tag_to_type_tag d :
  tag_to_type (Z_of_byte (byte_of_Z (type_tag d))) (match d with DataType.Varchar n => n | _ => 0 end)
  = Ok d.
Proof. by destruct d. Qed.

(** The optional length of a [Varchar], after the type tag. *)
Definition varchar_field (d : DataType.t) : bytes :=
  match d with DataType.Varchar n => to_le 4 n | _ => [] end.
Definition varchar_len (d : DataType.t) : Z := match d with DataType.Varchar n => n | _ => 0 end.

Lemma decode_varchar_field pre d post :
  match d with DataType.Varchar n => in_u 32 n | _ => True end ->
  (if Z_of_byte (byte_of_Z (type_tag d)) =? 4
   then len_bytes ← take_blob (pre ++ varchar_field d ++ post) (len pre) 4;
        Ok (from_le len_bytes, len pre + 4)
   else Ok (0, len pre)) = Ok (varchar_len d, len (pre ++ varchar_field d)).
Proof.
  intros Hd. destruct d; cbn [varchar_field varchar_len]; try (by rewrite app_nil_r).
  change (Z_of_byte (byte_of_Z (type_tag (DataType.Varchar n))) =? 4) with true. cbn iota.
  rewrite take_blob_mid by (by rewrite len_to_le). cbn [mbind outcome_bind].
  rewrite from_le_to_le_id by done. by autorewrite with len.
Qed.

Lemma decode_column_encode pre c post :
  wf_column c ->
  decode_column (pre ++ encode_column c ++ post) (len pre) = Ok (c, len (pre ++ encode_column c)).
Proof.
  intros (Hv & Hl & Ht). destruct c as [name d nul]. cbn [column_name data_type is_nullable] in *.
  unfold decode_column, encode_column. cbn [column_name data_type is_nullable].
  pose proof (len_nonneg name). unfold wrapu. rewrite Z.mod_small by lia.
  fold (varchar_field d). set (nb := byte_of_Z (Z.b2z nul)).
  rewrite <- !app_assoc. rewrite take_blob_mid by (by rewrite len_to_le). cbn [mbind outcome_bind].
  rewrite from_le_to_le_id by (unfold in_u; simpl; lia).
  rewrite !(app_assoc pre). replace (len pre + 4) with (len (pre ++ to_le 4 (len name))) by (by autorewrite with len).
  rewrite take_blob_mid by done. cbn [mbind outcome_bind]. unfold Utf8.from_utf8. rewrite Hv.
  cbn [ok_or mbind outcome_bind]. rewrite <- len_app, !(app_assoc _ name).
  rewrite take_blob_mid by done. cbn [mbind outcome_bind].
  change (or_panic (index [byte_of_Z (type_tag d)] 0)) with (@Ok CatalogError _ (byte_of_Z (type_tag d))). cbn [mbind outcome_bind].
  set (front := (pre ++ to_le 4 (len name)) ++ name).
  replace (len front + 1) with (len (front ++ [byte_of_Z (type_tag d)])) by (by autorewrite with len).
  rewrite !(app_assoc front [byte_of_Z (type_tag d)]), decode_varchar_field by done. cbn [mbind outcome_bind].
  rewrite tag_to_type_tag. cbn [mbind outcome_bind].
  rewrite !(app_assoc _ (varchar_field d)), take_blob_mid by done. cbn [mbind outcome_bind].
  change (or_panic (index [nb] 0)) with (@Ok CatalogError _ nb). cbn [mbind outcome_bind].
  rewrite !len_app. do 3 f_equal. by destruct nul.
Qed.

Lemma decode_schema_columns_encode cs pre post :
  Forall wf_column cs ->
  decode_schema_columns (pre ++ concat (encode_column <$> cs) ++ post) (length cs) (len pre) = Ok cs.
Proof.
  intros Hcs. revert pre. induction Hcs as [| c cs Hc _ IH]; intros pre; [done |].
  cbn [decode_schema_columns length fmap list_fmap concat]. rewrite <- app_assoc.
  rewrite decode_column_encode by done. cbn [mbind outcome_bind]. rewrite app_assoc.
  by rewrite IH.
Qed.

Lemma decode_schema_blob_encode s : wf_schema s -> decode_schema_blob (encode_schema_blob s) = Ok s.
Proof.
  intros (Hcs & Hn & _). unfold decode_schema_blob, encode_schema_blob. rewrite from_hex_to_hex.
  cbn [mbind outcome_bind]. pose proof (len_nonneg (columns s)).
  unfold wrapu. rewrite Z.mod_small by lia.
  set (count := to_le 4 (len (columns s))).
  assert (Hc : len count = 4) by (unfold count; by rewrite len_to_le).
  unfold take_blob. rewrite sub_app_prefix by done. cbn [ok_or mbind outcome_bind].
  unfold count at 2. rewrite from_le_to_le_id by (unfold in_u; simpl; lia).
  rewrite <- Hc, <- (app_nil_r (concat _)). unfold len at 1. rewrite Nat2Z.id.
  rewrite decode_schema_columns_encode by done. by destruct s.
Qed.

Lemma wrapu_wraps w z : 0 < w -> in_u w z -> wrapu w (wraps w z) = z.
Proof.
  intros Hw [H1 H2]. unfold wrapu, wraps. rewrite Zminus_mod_idemp_l.
  replace (z + 2 ^ (w - 1) - 2 ^ (w - 1)) with z by lia. apply Z.mod_small. lia.
Qed.

Definition wf_table_info (i : TableInfo) : Prop :=
  in_u 32 (table_id i) /\ in_u 32 (first_page_id i) /\ Utf8.valid (info_name i) = true
  /\ len (info_name i) < 2 ^ 32 /\ wf_schema (schema i).

Ltac row_ok_tac :=
  unfold row_ok; rewrite ?Forall_cons, ?Forall_nil; split_and!;
  try done; try (by apply wraps_range); try (repeat constructor; fail);
  try (unfold fits; by apply Z.ltb_lt).

(** Evaluates [values[0]], [values[1]], ... on a literal row. *)
Ltac eval_row :=
  unfold index;
  repeat match goal with |- context [Z.to_nat ?n] => let m := eval vm_compute in (Z.to_nat n) in change (Z.to_nat n) with m end;
  cbn [Z.leb Z.compare lookup list_lookup or_panic mbind outcome_bind].

Lemma decode_row_encode types vs post : row_ok types vs -> decode_row (encode vs [] ++ post) types = Ok vs.
Proof. intros. unfold decode_row. by rewrite decode_encode. Qed.

Lemma decode_table_info_encode info :
  wf_table_info info -> decode_table_info (encode_table_info info) = Ok info.
Proof.
  intros (Hid & Hp & Hv & Hl & Hs). unfold decode_table_info, encode_table_info.
  rewrite <- (app_nil_r (encode _ _)), decode_row_encode.
  - eval_row.
    rewrite decode_schema_blob_encode by done. cbn. rewrite !wrapu_wraps by (lia || done).
    by destruct info.
  - destruct Hs as (_ & _ & Hs). row_ok_tac. apply valid_to_hex.
Qed.
(** A table written to the catalog is read back as it was: name, identifiers and every column with its
    type, its declared length and its nullability. The bounds are those of the format's 32-bit
    fields. *)
Theorem table_info_roundtrip info :
  wf_table_info info -> decode_table_info (encode_table_info info) = Ok info.
Proof. apply decode_table_info_encode. Qed.

(** ** Index rows *)
Definition wf_index_info (i : IndexInfo) : Prop :=
  in_u 32 (index_id i) /\ in_u 32 (index_table_id i) /\ 0 <= index_column_index i < 2 ^ 31
  /\ in_u 32 (root_page_id i) /\ Utf8.valid (index_info_name i) = true
  /\ len (index_info_name i) < 2 ^ 32.

Definition index_row (i : IndexInfo) : bytes :=
  encode_index_row (index_id i) (index_info_name i) (index_table_id i) (index_column_index i)
                   (root_page_id i).

Lemma decode_index_row_encode i rid :
  wf_index_info i ->
  decode_index_row (index_row i) rid =
    Ok (mkIndexInfo (index_id i) (index_info_name i) (index_table_id i) (index_column_index i) rid
                    (len (index_row i) - 4) (root_page_id i)).
Proof.
  intros (Hid & Ht & Hc & Hr & Hv & Hl). unfold decode_index_row.
  assert (Hcs : wraps 32 (index_column_index i) = index_column_index i).
  { unfold wraps. rewrite Z.mod_small by lia. lia. }
  assert (Hrow : forall vs, index_row i = encode vs [] -> decode_row (index_row i) INDEX_CATALOG_ROW_SCHEMA = decode_row (encode vs [] ++ []) INDEX_CATALOG_ROW_SCHEMA)
    by (intros vs ->; by rewrite app_nil_r).
  rewrite (Hrow _ eq_refl), decode_row_encode.
  - rewrite Hcs. eval_row. rewrite !wrapu_wraps by (lia || done). unfold wrapu. rewrite Z.mod_small by lia.
    done.
  - row_ok_tac.
Qed.

(** The root page id is the last field of the row. *)
Lemma index_row_root_last i new :
  exists front, index_row i = front ++ to_le 4 (wrapu 32 (wraps 32 (root_page_id i)))
    /\ index_row (set_root_page_id new i) = front ++ to_le 4 (wrapu 32 (wraps 32 new)).
Proof.
  unfold index_row, encode_index_row. rewrite !encode_shape.
  rewrite !fmap_cons. cbn [fmap list_fmap concat payload mark_nulls].
  cbn [set_root_page_id index_id index_info_name index_table_id index_column_index root_page_id].
  rewrite !app_nil_r, !app_assoc. eauto.
Qed.

Lemma splice_last {A} (front old new : list A) :
  length new = length old -> splice (front ++ old) (len front) new = front ++ new.
Proof.
  intros Hl. unfold splice, len. rewrite Nat2Z.id, take_app_length, Hl, <- length_app, drop_all.
  by rewrite app_nil_r.
Qed.

(** Moving the root of an index. An index row reads back as written, with the offset of its
    last four bytes as [root_page_id_offset]; and overwriting those four bytes in place, as
    [update_index_root_page] does, changes the stored root page and nothing else. *)
Theorem index_row_root_update i rid new :
  wf_index_info i -> in_u 32 new ->
  exists info,
    decode_index_row (index_row i) rid = Ok info
    /\ root_page_id info = root_page_id i
    /\ decode_index_row (splice (index_row i) (root_page_id_offset info) (to_le 4 new)) rid
       = Ok (set_root_page_id new info).
Proof.
  intros Hi Hnew. eexists. split; [by apply decode_index_row_encode |]. split; [done |].
  destruct (index_row_root_last i new) as (front & E & E'). pose proof Hi as (_ & _ & _ & Hr & _).
  rewrite !wrapu_wraps in * by (lia || done).
  assert (Hlen : len (index_row (set_root_page_id new i)) = len (index_row i))
    by (rewrite E, E'; by autorewrite with len).
  assert (Hoff : len (index_row i) - 4 = len front) by (rewrite E; autorewrite with len; lia).
  cbn [root_page_id_offset]. rewrite Hoff. rewrite E at 1.
  rewrite splice_last by done. rewrite <- E', decode_index_row_encode.
  - by rewrite Hlen, Hoff.
  - by destruct Hi as (? & ? & ? & ? & ? & ?).
Qed.

(** ** The maps of the catalog agree *)
Record catalog_ok (s : CatalogState) : Prop := {
  table_of_name : forall name info, tables_by_name s !! name = Some info ->
    info_name info = name /\ tables_by_id s !! table_id info = Some name;
  table_of_id : forall id name, tables_by_id s !! id = Some name ->
    id < next_table_id s /\ exists info, tables_by_name s !! name = Some info /\ table_id info = id;
  index_of_name : forall name info, indexes_by_name s !! name = Some info ->
    index_info_name info = name /\ indexes_by_id s !! index_id info = Some name
    /\ index_id info ∈ default [] (indexes_by_table s !! index_table_id info);
  index_of_id : forall id name, indexes_by_id s !! id = Some name ->
    id < next_index_id s /\ exists info, indexes_by_name s !! name = Some info /\ index_id info = id;
  index_of_table : forall t ids id, indexes_by_table s !! t = Some ids -> id ∈ ids ->
    exists name info, indexes_by_id s !! id = Some name /\ indexes_by_name s !! name = Some info
      /\ index_table_id info = t;
  index_once : forall t ids, indexes_by_table s !! t = Some ids -> NoDup ids;
}.

(** How [create_table] and [create_index_with_root] register what they created: under a name that
    is not taken, with the next identifier. *)
Inductive built : CatalogState -> Prop :=
| built_empty : built empty_catalog
| built_table s info : built s -> tables_by_name s !! info_name info = None ->
    table_id info = next_table_id s -> 0 <= next_table_id s < u32_max -> built (insert_table info s)
| built_index s info : built s -> indexes_by_name s !! index_info_name info = None ->
    index_id info = next_index_id s -> 0 <= next_index_id s < u32_max -> built (insert_index info s).

Lemma next_id_bump n id : id = n -> 0 <= n < u32_max -> Z.max n (wrapu 32 (id + 1)) = n + 1.
Proof. intros -> Hn. unfold wrapu, u32_max in *. rewrite Z.mod_small by lia. lia. Qed.

Lemma next_id_above n id : 0 <= id < u32_max -> Z.max n (wrapu 32 (id + 1)) = Z.max n (id + 1).
Proof. intros Hn. unfold wrapu, u32_max in *. by rewrite Z.mod_small by lia. Qed.

(** A table under a name and an identifier that are not taken. *)
Lemma add_table_ok s info :
  catalog_ok s -> tables_by_name s !! info_name info = None -> tables_by_id s !! table_id info = None ->
  0 <= table_id info < u32_max -> catalog_ok (insert_table info s).
Proof.
  intros H Hfresh Hid Hn. destruct H as [Hnm Hi Hin Hii Hit Hio]. split; simpl; try done.
  - intros name info'. rewrite lookup_insert_Some. intros [[<- <-] | [Hne Hl]].
    + by rewrite lookup_insert_eq.
    + destruct (Hnm name info' Hl) as [? Hb]. split; [done |]. rewrite lookup_insert_ne; [done |]. congruence.
  - rewrite next_id_above by done. intros id name. rewrite lookup_insert_Some.
    intros [[<- <-] | [Hne Hl]].
    + split; [lia |]. exists info. by rewrite lookup_insert_eq.
    + destruct (Hi _ _ Hl) as [? (info' & Hl' & ?)]. split; [lia |]. exists info'.
      rewrite lookup_insert_ne; [done |]. congruence.
Qed.
Lemma insert_table_ok s info :
  catalog_ok s -> tables_by_name s !! info_name info = None ->
  table_id info = next_table_id s -> 0 <= next_table_id s < u32_max -> catalog_ok (insert_table info s).
Proof.
  intros H Hfresh Hid Hn. apply add_table_ok; [done | done | | lia]. apply eq_None_not_Some. intros [name Hl].
  destruct (table_of_id s H _ _ Hl). lia.
Qed.

Lemma add_index_ok s info :
  catalog_ok s -> indexes_by_name s !! index_info_name info = None -> indexes_by_id s !! index_id info = None ->
  0 <= index_id info < u32_max -> catalog_ok (insert_index info s).
Proof.
  intros H Hfresh Hid Hn. destruct H as [Hnm Hi Hin Hii Hit Hio]. split; simpl; try done.
  - intros name info'. rewrite lookup_insert_Some. intros [[<- <-] | [Hne Hl]].
    + rewrite !lookup_insert_eq. set_solver.
    + destruct (Hin name info' Hl) as (? & Hb & Ht).
      rewrite lookup_insert_ne by congruence. split_and!; [done.. |].
      destruct (decide (index_table_id info = index_table_id info')) as [E | E].
      * rewrite E, lookup_insert_eq. set_solver.
      * by rewrite lookup_insert_ne.
  - rewrite next_id_above by done. intros id name. rewrite lookup_insert_Some.
    intros [[<- <-] | [Hne Hl]].
    + split; [lia |]. exists info. by rewrite lookup_insert_eq.
    + destruct (Hii _ _ Hl) as [? (info' & Hl' & ?)]. split; [lia |]. exists info'.
      rewrite lookup_insert_ne; [done |]. congruence.
  - assert (Hold : forall t ids id, indexes_by_table s !! t = Some ids -> id ∈ ids ->
      exists name info', <[index_id info := index_info_name info]> (indexes_by_id s) !! id = Some name
        /\ <[index_info_name info := info]> (indexes_by_name s) !! name = Some info'
        /\ index_table_id info' = t).
    { intros t ids id Hl Hid'. destruct (Hit t ids id Hl Hid') as (name & info' & Hb & Hm & Htt).
      exists name, info'. rewrite !lookup_insert_ne; [done | congruence | congruence]. }
    intros t ids id. rewrite lookup_insert_Some. intros [[<- <-] | [Hne Hl]]; [| by apply Hold].
    rewrite elem_of_app, list_elem_of_singleton. intros [Hin' | ->].
    + destruct (indexes_by_table s !! index_table_id info) as [ids |] eqn:El; [| simpl in Hin'; set_solver].
      by eapply Hold.
    + exists (index_info_name info), info. by rewrite !lookup_insert_eq.
  - intros t ids. rewrite lookup_insert_Some. intros [[<- <-] | [Hne Hl]]; [| by eapply Hio].
    destruct (indexes_by_table s !! index_table_id info) as [ids |] eqn:El; simpl; [| apply NoDup_singleton].
    apply NoDup_app. split_and!; [by eapply Hio | | apply NoDup_singleton]. intros id Hid' ->%list_elem_of_singleton.
    destruct (Hit _ _ _ El Hid') as (name & info' & Hb & _). congruence.
Qed.
Lemma insert_index_ok s info :
  catalog_ok s -> indexes_by_name s !! index_info_name info = None ->
  index_id info = next_index_id s -> 0 <= next_index_id s < u32_max -> catalog_ok (insert_index info s).
Proof.
  intros H Hfresh Hid Hn. apply add_index_ok; [done | done | | lia]. apply eq_None_not_Some. intros [name Hl].
  destruct (index_of_id s H _ _ Hl). lia.
Qed.

Lemma built_ok s : built s -> catalog_ok s.
Proof.
  induction 1; [| by apply insert_table_ok | by apply insert_index_ok].
  split; simpl; intros *; rewrite ?lookup_empty; done.
Qed.

Lemma find_map_Some {A B} (f : A -> option B) l y :
  find_map f l = Some y -> exists x, x ∈ l /\ f x = Some y.
Proof.
  induction l as [| x l IH]; [done |]. cbn [find_map]. destruct (f x) eqn:E.
  - intros [= <-]. exists x. split; [left | done].
  - intros H. destruct (IH H) as (x' & ? & ?). exists x'. split; [by right | done].
Qed.
Lemma find_map_None {A B} (f : A -> option B) l x : find_map f l = None -> x ∈ l -> f x = None.
Proof.
  induction l as [| y l IH]; [set_solver |]. cbn [find_map]. destruct (f y) eqn:E; [done |].
  intros H. rewrite elem_of_cons. intros [-> | ?]; auto.
Qed.

(** The catalog's maps agree, however tables and indexes were created: a table found by name is
    the one its id leads to, and [index_for_column] answers exactly: what it returns is a registered
    index on that table and that column, and when it returns nothing there is none. *)
Theorem catalog_lookups s :
  built s ->
  (forall name info, get_table s name = Ok info -> get_table_by_id s (table_id info) = Ok info)
  /\ (forall id info, get_table_by_id s id = Ok info -> table_id info = id /\ get_table s (info_name info) = Ok info)
  /\ (forall t c, match index_for_column s t c with
       | Some info => indexes_by_name s !! index_info_name info = Some info
                      /\ index_table_id info = t /\ index_column_index info = c
       | None => forall name info, indexes_by_name s !! name = Some info ->
                   index_table_id info = t -> index_column_index info <> c
       end).
Proof.
  intros H%built_ok. split_and!.
  - intros name info. unfold get_table, get_table_by_id, table_by_id.
    destruct (tables_by_name s !! name) eqn:E; [| done]. intros [= ->].
    destruct (table_of_name s H _ _ E) as [_ ->]. cbn. by rewrite E.
  - intros id info. unfold get_table, get_table_by_id, table_by_id.
    destruct (tables_by_id s !! id) as [name |] eqn:E; [| done]. cbn.
    destruct (table_of_id s H _ _ E) as [_ (info' & Hl & Hi)]. rewrite Hl. intros [= <-].
    destruct (table_of_name s H _ _ Hl) as [-> _]. by rewrite Hl.
  - intros t c. unfold index_for_column. destruct (indexes_by_table s !! t) as [ids |] eqn:Et; cbn.
    + destruct (find_map _ ids) as [info |] eqn:Ef.
      * apply find_map_Some in Ef as (id & Hid & Hf).
        destruct (index_of_table s H _ _ _ Et Hid) as (name & info' & Hb & Hm & Htt).
        rewrite Hb in Hf. cbn in Hf. rewrite Hm in Hf. cbn in Hf.
        destruct (Z.eqb_spec (index_column_index info') c); simplify_eq.
        destruct (index_of_name s H _ _ Hm) as [-> _]. done.
      * intros name info Hm <- Hc. destruct (index_of_name s H _ _ Hm) as (_ & Hb & Hin).
        rewrite Et in Hin. pose proof (find_map_None _ _ _ Ef Hin) as Hf. cbn beta in Hf.
        rewrite Hb in Hf. cbn in Hf. rewrite Hm in Hf. cbn in Hf.
        by rewrite (proj2 (Z.eqb_eq _ _) Hc) in Hf.
    + intros name info Hm <- Hc. destruct (index_of_name s H _ _ Hm) as (_ & _ & Hin).
      rewrite Et in Hin. simpl in Hin. set_solver.
Qed.

Definition users_info : TableInfo :=
  mkTableInfo 7 (str "users")
    (mkSchema [mkColumn (str "id") DataType.Integer false; mkColumn (str "name") (DataType.Varchar 20) true]) 12.

Lemma table_info_roundtrip_witness : decode_table_info (encode_table_info users_info) = Ok users_info.
Proof.
  refine (table_info_roundtrip users_info _).
  split_and!; [vm_compute; done.. |]. repeat constructor; simpl; unfold in_u; lia.
Defined.

Definition users_index : IndexInfo := mkIndexInfo 3 (str "users_id") 7 0 (mkRid 0 0) 0 40.

Lemma index_row_root_update_witness :
  exists info, decode_index_row (index_row users_index) (mkRid 5 1) = Ok info
    /\ root_page_id info = root_page_id users_index
    /\ decode_index_row (splice (index_row users_index) (root_page_id_offset info) (to_le 4 99)) (mkRid 5 1)
       = Ok (set_root_page_id 99 info).
Proof.
  refine (index_row_root_update users_index (mkRid 5 1) 99 _ _);
    [split_and!; vm_compute; done | unfold in_u; lia].
Defined.

Definition sample_table : TableInfo :=
  mkTableInfo 0 (str "users") (mkSchema [mkColumn (str "id") DataType.Integer false]) 12.
Definition sample_index : IndexInfo := mkIndexInfo 0 (str "users_id") 0 0 (mkRid 5 1) 30 40.
Definition sample_catalog : CatalogState := insert_index sample_index (insert_table sample_table empty_catalog).

Lemma catalog_lookups_witness :
  get_table_by_id sample_catalog 0 = Ok sample_table
  /\ match index_for_column sample_catalog 0 0 with
     | Some info => index_table_id info = 0 | None => False end.
Proof.
  assert (Hb : built sample_catalog).
  { apply built_index; [apply built_table; [apply built_empty | ..] | ..]; vm_compute; try done; split; done. }
  destruct (catalog_lookups sample_catalog Hb) as (H1 & _ & H3). split.
  - apply (H1 (str "users") sample_table). reflexivity.
  - specialize (H3 0 0). destruct (index_for_column sample_catalog 0 0) eqn:E; [apply H3 |].
    vm_compute in E. discriminate E.
Defined.
