(* ===== verification/Planner.v ===== *)
(** * Planning: crates/planner (binder.rs, logical_plan.rs, plan.rs, optimizer.rs, physical_plan.rs)

    Name and type resolution of a parsed statement, the logical plan, the index-scan rule of the
    optimizer, and the physical plan. *)
From S2P Require Import Prelude Text Value Memcomparable Tuple Common SqlParser Catalog.

(** ** error.rs *)
Inductive PlannerError : Type :=
| UnknownTable (name : bytes)
| UnknownColumn (name : bytes)
| UndefinedParameter (index : Z)
| ColumnCountMismatch (expected found : Z)
| ParameterCountMismatch (expected found : Z)
| TypeMismatch (detail : bytes)
| AmbiguousColumn (name : bytes)
| LiteralOutOfRange (column value : bytes) (d : DataType.t).

(** [{:?}] of a [DataType] and of a [BinaryOperator] *)
Definition fmt_type (d : DataType.t) : bytes :=
  match d with
  | DataType.Boolean => str "Boolean"
  | DataType.Integer => str "Integer"
  | DataType.BigInt => str "BigInt"
  | DataType.Double => str "Double"
  | DataType.Varchar n => str "Varchar(" ++ fmt_u n ++ str ")"
  end.
Definition fmt_op (op : BinaryOperator.t) : bytes :=
  match op with
  | BinaryOperator.Eq => str "Eq" | BinaryOperator.NotEq => str "NotEq"
  | BinaryOperator.Lt => str "Lt" | BinaryOperator.LtEq => str "LtEq"
  | BinaryOperator.Gt => str "Gt" | BinaryOperator.GtEq => str "GtEq"
  | BinaryOperator.And => str "And" | BinaryOperator.Or => str "Or"
  | BinaryOperator.Plus => str "Plus" | BinaryOperator.Minus => str "Minus"
  | BinaryOperator.Multiply => str "Multiply" | BinaryOperator.Divide => str "Divide"
  end.
(** [i64::to_string] *)
Definition fmt_i (z : Z) : bytes := if z <? 0 then str "-" ++ fmt_u (- z) else fmt_u z.

(** ** Bound statements *)
Module BoundExpr.
Inductive t : Type :=
| Literal (v : Value.t)
| ColumnRef (index : Z) (d : DataType.t)
| BinaryOp (left : t) (op : BinaryOperator.t) (right : t) (d : DataType.t)
| UnaryOp (op : UnaryOperator.t) (expr : t) (d : DataType.t)
| IsNull (expr : t) (negated : bool)
| SessionContext (name : SessionContextName.t) (value : Value.t).
End BoundExpr.

Record BoundSelect : Type := mkBoundSelect {
  select_table_id : option TableId;
  projections : list BoundExpr.t;
  column_names : list bytes;
  column_types : list (option DataType.t);
  predicate : option BoundExpr.t;
}.
Record BoundInsert : Type := mkBoundInsert {
  insert_table_id : TableId;
  rows : list (list BoundExpr.t);
}.
Record BoundColumnDef : Type := mkBoundColumnDef {
  def_name : bytes;
  def_type : DataType.t;
  def_nullable : bool;
}.
Record BoundCreateTable : Type := mkBoundCreateTable {
  created_table : bytes;
  created_columns : list BoundColumnDef;
}.
Record BoundCreateIndex : Type := mkBoundCreateIndex {
  created_index : bytes;
  created_on : TableId;
  created_column : Z;
}.
Module BoundStatement.
Inductive t : Type :=
| Select (s : BoundSelect)
| Insert (s : BoundInsert)
| CreateTable (s : BoundCreateTable)
| CreateIndex (s : BoundCreateIndex)
| Explain (verbose : bool) (inner : t).
End BoundStatement.

Record SessionContext : Type := mkSession {
  database : bytes;
  session_schema : bytes;
  user : bytes;
  server_version : bytes;
}.

Definition value_of (s : SessionContext) (name : SessionContextName.t) : Value.t :=
  Value.Varchar
    match name with
    | SessionContextName.CurrentCatalog => database s
    | SessionContextName.CurrentSchema => session_schema s
    | SessionContextName.CurrentUser | SessionContextName.SessionUser => user s
    | SessionContextName.Version => server_version s
    end.

(** ** Types and literals *)
Definition is_numeric (d : DataType.t) : bool :=
  match d with DataType.Integer | DataType.BigInt | DataType.Double => true | _ => false end.

Definition data_types_match (a b : DataType.t) : bool :=
  match a, b with
  | DataType.Varchar _, DataType.Varchar _ => true
  | a, b => bool_decide (a = b)
  end.

Definition coerce_literal_to_column (v : Value.t) (target : DataType.t) (column_name : bytes)
    : outcome PlannerError Value.t :=
  match v, target with
  | Value.BigInt z, DataType.Integer =>
      if decide (in_s 32 z) then Ok (Value.Integer z)
      else Err (LiteralOutOfRange column_name (fmt_i z) target)
  | _, _ => Ok v
  end.

Abbreviation typed := (BoundExpr.t * option DataType.t)%type.

(** The literal of [col op literal] and [literal op col] takes the type of the column. *)
Definition coerce_comparison_operands (left right : typed) (s : Schema)
    : outcome PlannerError (typed * typed) :=
  match left.1, right.1 with
  | BoundExpr.Literal v, BoundExpr.ColumnRef index col_type =>
      column ← or_panic (Prelude.index (columns s) index);
      coerced ← coerce_literal_to_column v col_type (column_name column);
      Ok ((BoundExpr.Literal coerced, Value.data_type coerced), right)
  | BoundExpr.ColumnRef index col_type, BoundExpr.Literal v =>
      column ← or_panic (Prelude.index (columns s) index);
      coerced ← coerce_literal_to_column v col_type (column_name column);
      Ok (left, (BoundExpr.Literal coerced, Value.data_type coerced))
  | _, _ => Ok (left, right)
  end.

(** ** Expressions *)
Definition bind_unary_op (op : UnaryOperator.t) (operand : typed) : outcome PlannerError typed :=
  let '(bound, operand_type) := operand in
  match op with
  | UnaryOperator.Not =>
      match operand_type with
      | Some d =>
          if decide (d <> DataType.Boolean)
          then Err (TypeMismatch (str "NOT requires a Boolean operand, found " ++ fmt_type d))
          else Ok (BoundExpr.UnaryOp op bound DataType.Boolean, Some DataType.Boolean)
      | None => Ok (BoundExpr.UnaryOp op bound DataType.Boolean, Some DataType.Boolean)
      end
  | UnaryOperator.Negate =>
      d ← ok_or operand_type (TypeMismatch (str "unary - requires a numeric operand, found NULL"));
      if is_numeric d then Ok (BoundExpr.UnaryOp op bound d, Some d)
      else Err (TypeMismatch (str "unary - requires a numeric operand, found " ++ fmt_type d))
  end.

(** [for data_type in [left_type, right_type].into_iter().flatten()] *)
Definition check_boolean (op : BinaryOperator.t) (t : option DataType.t) : outcome PlannerError unit :=
  match t with
  | Some d =>
      if decide (d <> DataType.Boolean)
      then Err (TypeMismatch (fmt_op op ++ str " requires Boolean operands, found " ++ fmt_type d))
      else Ok tt
  | None => Ok tt
  end.

Definition bind_binary_op (op : BinaryOperator.t) (left right : typed) (s : Schema)
    : outcome PlannerError typed :=
  '((l, lt), (r, rt)) ← coerce_comparison_operands left right s;
  match op with
  | BinaryOperator.And | BinaryOperator.Or =>
      _ ← check_boolean op lt;
      _ ← check_boolean op rt;
      Ok (BoundExpr.BinaryOp l op r DataType.Boolean, Some DataType.Boolean)
  | BinaryOperator.Eq | BinaryOperator.NotEq | BinaryOperator.Lt | BinaryOperator.LtEq
  | BinaryOperator.Gt | BinaryOperator.GtEq =>
      _ ← match lt, rt with
          | Some a, Some b =>
              if data_types_match a b then Ok tt
              else Err (TypeMismatch (str "cannot compare " ++ fmt_type a ++ str " with " ++ fmt_type b))
          | _, _ => Ok tt
          end;
      Ok (BoundExpr.BinaryOp l op r DataType.Boolean, Some DataType.Boolean)
  | BinaryOperator.Plus | BinaryOperator.Minus | BinaryOperator.Multiply | BinaryOperator.Divide =>
      Err (TypeMismatch (str "arithmetic operators are not supported"))
  end.

(** [Binder]: the catalog it looks names up in and the session's values. *)
Record Binder : Type := mkBinder { catalog : CatalogState; session : SessionContext }.

Fixpoint bind_expr (b : Binder) (e : Expr.t) (s : Schema) (table_scope : option bytes)
    : outcome PlannerError typed :=
  match e with
  | Expr.Literal v => Ok (BoundExpr.Literal v, Value.data_type v)
  | Expr.SessionContext name =>
      let v := value_of (session b) name in
      Ok (BoundExpr.SessionContext name v, Value.data_type v)
  | Expr.Column table name =>
      _ ← match table with
          | Some qualifier =>
              if decide (table_scope <> Some qualifier) then Err (UnknownTable qualifier) else Ok tt
          | None => Ok tt
          end;
      index ← ok_or (column_index s name) (UnknownColumn name);
      column ← or_panic (Prelude.index (columns s) index);
      Ok (BoundExpr.ColumnRef index (data_type column), Some (data_type column))
  | Expr.UnaryOp op e =>
      operand ← bind_expr b e s table_scope;
      bind_unary_op op operand
  | Expr.BinaryOp l op r =>
      l ← bind_expr b l s table_scope;
      r ← bind_expr b r s table_scope;
      bind_binary_op op l r s
  | Expr.IsNull e negated =>
      '(bound, _) ← bind_expr b e s table_scope;
      Ok (BoundExpr.IsNull bound negated, Some DataType.Boolean)
  | Expr.Param index => Err (UndefinedParameter index)
  end.

(** ** Statements *)
Definition lookup_table (b : Binder) (name : bytes) : outcome PlannerError TableInfo :=
  match get_table (catalog b) name with
  | Ok t => Ok t
  | Err _ => Err (UnknownTable name)
  | Panic => Panic
  end.

(** The three vectors [bind_select] pushes to. *)
Record Outputs : Type := mkOutputs {
  out_projections : list BoundExpr.t;
  out_names : list bytes;
  out_types : list (option DataType.t);
}.
Definition push_output (o : Outputs) (e : BoundExpr.t) (name : bytes) (t : option DataType.t) : Outputs :=
  mkOutputs (out_projections o ++ [e]) (out_names o ++ [name]) (out_types o ++ [t]).

Fixpoint push_wildcard (i : Z) (cs : list Column) (o : Outputs) : Outputs :=
  match cs with
  | [] => o
  | c :: cs =>
      push_wildcard (i + 1) cs
        (push_output o (BoundExpr.ColumnRef i (data_type c)) (column_name c) (Some (data_type c)))
  end.

Definition output_name (e : Expr.t) (o : Outputs) : bytes :=
  match e with
  | Expr.Column _ name => name
  | Expr.SessionContext name => SessionContextName.column_name name
  | _ => str "column" ++ fmt_u (len (out_names o) + 1)
  end.

Fixpoint bind_items (b : Binder) (items : list SelectItem) (s : Schema) (table_scope : option bytes)
    (o : Outputs) : outcome PlannerError Outputs :=
  match items with
  | [] => Ok o
  | Wildcard :: items => bind_items b items s table_scope (push_wildcard 0 (columns s) o)
  | ItemExpr e :: items =>
      '(bound, t) ← bind_expr b e s table_scope;
      bind_items b items s table_scope (push_output o bound (output_name e o) t)
  end.

Definition bind_where (b : Binder) (w : option Expr.t) (s : Schema) (table_scope : option bytes)
    : outcome PlannerError (option BoundExpr.t) :=
  match w with
  | None => Ok None
  | Some e =>
      '(bound, t) ← bind_expr b e s table_scope;
      match t with
      | Some d =>
          if decide (d <> DataType.Boolean)
          then Err (TypeMismatch (str "WHERE clause must be Boolean, found " ++ fmt_type d))
          else Ok (Some bound)
      | None => Ok (Some bound)
      end
  end.

Definition bind_select (b : Binder) (select : SelectStatement) : outcome PlannerError BoundSelect :=
  table ← match from select with
          | Some r => t ← lookup_table b (table_name r); Ok (Some t)
          | None => Ok None
          end;
  let s := match table with Some t => schema t | None => mkSchema [] end in
  let table_scope := (fun r => default (table_name r) (alias r)) <$> from select in
  o ← bind_items b (items select) s table_scope (mkOutputs [] [] []);
  p ← bind_where b (where_clause select) s table_scope;
  Ok (mkBoundSelect (table_id <$> table) (out_projections o) (out_names o) (out_types o) p).

(** One value of an INSERT row, bound for its column. *)
Definition bind_insert_value (b : Binder) (e : Expr.t) (column : Column) : outcome PlannerError BoundExpr.t :=
  '(bound, t) ← bind_expr b e (mkSchema []) None;
  '(bound, t) ← match bound with
                | BoundExpr.Literal v =>
                    coerced ← coerce_literal_to_column v (data_type column) (column_name column);
                    Ok (BoundExpr.Literal coerced, Value.data_type coerced)
                | other => Ok (other, t)
                end;
  match t with
  | Some d =>
      if data_types_match d (data_type column) then Ok bound
      else Err (TypeMismatch (str "column " ++ column_name column ++ str " expects "
                              ++ fmt_type (data_type column) ++ str ", found " ++ fmt_type d))
  | None => Ok bound
  end.

Fixpoint bind_insert_row (b : Binder) (row : list (Expr.t * Z)) (s : Schema) (bound_row : list BoundExpr.t)
    : outcome PlannerError (list BoundExpr.t) :=
  match row with
  | [] => Ok bound_row
  | (e, col_index) :: row =>
      column ← or_panic (index (columns s) col_index);
      bound ← bind_insert_value b e column;
      bind_insert_row b row s (<[Z.to_nat col_index := bound]> bound_row)
  end.

Fixpoint bind_insert_rows (b : Binder) (values : list (list Expr.t)) (s : Schema) (targets : list Z)
    : outcome PlannerError (list (list BoundExpr.t)) :=
  match values with
  | [] => Ok []
  | row :: values =>
      if negb (len row =? len targets) then Err (ColumnCountMismatch (len targets) (len row))
      else
        bound_row ← bind_insert_row b (zip row targets) s
                      (replicate (length (columns s)) (BoundExpr.Literal Value.Null));
        rows ← bind_insert_rows b values s targets;
        Ok (bound_row :: rows)
  end.

Definition bind_insert (b : Binder) (insert : InsertStatement) : outcome PlannerError BoundInsert :=
  table ← lookup_table b (SqlParser.insert_table insert);
  let s := schema table in
  target_indices ←
    (if decide (insert_columns insert = []) then Ok (seqZ 0 (len (columns s)))
     else mapM (fun name => ok_or (column_index s name) (UnknownColumn name)) (insert_columns insert));
  rows ← bind_insert_rows b (SqlParser.values insert) s target_indices;
  Ok (mkBoundInsert (table_id table) rows).

Definition bind_create_table (create : CreateTableStatement) : BoundCreateTable :=
  mkBoundCreateTable (create_table create)
    ((fun c => mkBoundColumnDef (col_name c) (col_type c) (nullable c)) <$> create_columns create).

Definition bind_create_index (b : Binder) (create : CreateIndexStatement)
    : outcome PlannerError BoundCreateIndex :=
  table ← lookup_table b (index_table create);
  column ← ok_or (column_index (schema table) (index_column create)) (UnknownColumn (index_column create));
  Ok (mkBoundCreateIndex (index_name create) (table_id table) column).

Fixpoint bind (b : Binder) (statement : Statement.t) : outcome PlannerError BoundStatement.t :=
  match statement with
  | Statement.Select s => s ← bind_select b s; Ok (BoundStatement.Select s)
  | Statement.Insert s => s ← bind_insert b s; Ok (BoundStatement.Insert s)
  | Statement.CreateTable s => Ok (BoundStatement.CreateTable (bind_create_table s))
  | Statement.CreateIndex s => s ← bind_create_index b s; Ok (BoundStatement.CreateIndex s)
  | Statement.Explain verbose inner =>
      inner ← bind b inner; Ok (BoundStatement.Explain verbose inner)
  | Statement.Begin | Statement.Commit | Statement.Rollback => Panic
  end.

(** ** logical_plan.rs and plan.rs *)
Module LogicalPlan.
Inductive t : Type :=
| OneRow
| SeqScan (table_id : TableId)
| IndexScan (index_id : IndexId) (table_id : TableId) (start endk : option bytes)
| Filter (predicate : BoundExpr.t) (input : t)
| Projection (expressions : list BoundExpr.t) (input : t)
| Join (left right : t) (predicate : BoundExpr.t)
| Insert (table_id : TableId) (rows : list (list BoundExpr.t))
| CreateTable (table_name : bytes) (columns : list BoundColumnDef)
| CreateIndex (index_name : bytes) (table_id : TableId) (column_index : Z).
End LogicalPlan.

Definition plan (statement : BoundStatement.t) : outcome PlannerError LogicalPlan.t :=
  match statement with
  | BoundStatement.Select s =>
      let scan := match select_table_id s with
                  | Some t => LogicalPlan.SeqScan t
                  | None => LogicalPlan.OneRow
                  end in
      let input := match predicate s with
                   | Some p => LogicalPlan.Filter p scan
                   | None => scan
                   end in
      Ok (LogicalPlan.Projection (projections s) input)
  | BoundStatement.Insert s => Ok (LogicalPlan.Insert (insert_table_id s) (rows s))
  | BoundStatement.CreateTable s => Ok (LogicalPlan.CreateTable (created_table s) (created_columns s))
  | BoundStatement.CreateIndex s =>
      Ok (LogicalPlan.CreateIndex (created_index s) (created_on s) (created_column s))
  | BoundStatement.Explain _ _ => Panic
  end.

(** ** optimizer.rs *)
Fixpoint flatten_and_conjuncts (e : BoundExpr.t) : list BoundExpr.t :=
  match e with
  | BoundExpr.BinaryOp l BinaryOperator.And r _ =>
      flatten_and_conjuncts l ++ flatten_and_conjuncts r
  | e => [e]
  end.

Definition column_and_literal (e : BoundExpr.t) : option (Z * BinaryOperator.t * Value.t) :=
  match e with
  | BoundExpr.BinaryOp (BoundExpr.ColumnRef index _) op (BoundExpr.Literal v) _ =>
      match op with
      | BinaryOperator.Eq | BinaryOperator.Lt | BinaryOperator.LtEq | BinaryOperator.Gt
      | BinaryOperator.GtEq => Some (index, op, v)
      | _ => None
      end
  | _ => None
  end.

Definition successor (bs : bytes) : bytes := bs ++ [byte_of_Z 0].

(** [a >= b] and [a <= b] on byte strings *)
Definition lex_ge (a b : bytes) : bool := match lex_compare a b with Lt => false | _ => true end.
Definition lex_le (a b : bytes) : bool := match lex_compare a b with Gt => false | _ => true end.

(** The start and the end one conjunct asks for. *)
Definition candidates (op : BinaryOperator.t) (encoded : bytes) : option bytes * option bytes :=
  match op with
  | BinaryOperator.Eq => (Some encoded, Some (successor encoded))
  | BinaryOperator.Lt => (None, Some encoded)
  | BinaryOperator.LtEq => (None, Some (successor encoded))
  | BinaryOperator.Gt => (Some (successor encoded), None)
  | BinaryOperator.GtEq => (Some encoded, None)
  | _ => (None, None)
  end.

(** [current.filter(|current| keep(current, candidate)).unwrap_or(candidate)], when there is a
    candidate *)
Definition tighten (keep : bytes -> bytes -> bool) (current candidate : option bytes) : option bytes :=
  match candidate with
  | None => current
  | Some c => match current with
              | Some x => if keep x c then Some x else Some c
              | None => Some c
              end
  end.

(** The body of the loop over the conjuncts. *)
Definition tighten_bounds (target_column : Z) (bounds : option bytes * option bytes) (e : BoundExpr.t)
    : option bytes * option bytes :=
  match column_and_literal e with
  | Some (column_index, op, v) =>
      if negb (column_index =? target_column) then bounds
      else match encode_memcomparable v [] with
           | Ok encoded =>
               let '(cs, ce) := candidates op encoded in
               (tighten lex_ge bounds.1 cs, tighten lex_le bounds.2 ce)
           | _ => bounds
           end
  | None => bounds
  end.

Definition index_scan_bounds (p : BoundExpr.t) (t : TableId) (c : CatalogState)
    : option (IndexId * option bytes * option bytes) :=
  let conjuncts := flatten_and_conjuncts p in
  '(target_column, id) ← find_map (fun e =>
    '(column_index, _, _) ← column_and_literal e;
    info ← index_for_column c t column_index;
    Some (column_index, index_id info)) conjuncts;
  let '(s, e) := fold_left (tighten_bounds target_column) conjuncts (None, None) in
  Some (id, s, e).

(** [IndexScanRule::apply] *)
Definition index_scan_rule (p : LogicalPlan.t) (c : CatalogState) : LogicalPlan.t :=
  match p with
  | LogicalPlan.Filter pred (LogicalPlan.SeqScan t) =>
      match index_scan_bounds pred t c with
      | Some (id, s, e) => LogicalPlan.Filter pred (LogicalPlan.IndexScan id t s e)
      | None => LogicalPlan.Filter pred (LogicalPlan.SeqScan t)
      end
  | other => other
  end.

(** [Optimizer::optimize] with [recurse_into_children]: children first, then every rule in turn. *)
Fixpoint optimize (rules : list (LogicalPlan.t -> CatalogState -> LogicalPlan.t))
    (p : LogicalPlan.t) (c : CatalogState) : LogicalPlan.t :=
  fold_left (fun p rule => rule p c) rules
    match p with
    | LogicalPlan.Filter pred input => LogicalPlan.Filter pred (optimize rules input c)
    | LogicalPlan.Projection es input => LogicalPlan.Projection es (optimize rules input c)
    | LogicalPlan.Join l r pred => LogicalPlan.Join (optimize rules l c) (optimize rules r c) pred
    | leaf => leaf
    end.

(** ** physical_plan.rs *)
Module PhysicalPlan.
Inductive t : Type :=
| OneRow
| SeqScan (table_id : TableId)
| IndexScan (index_id : IndexId) (table_id : TableId) (start endk : option bytes)
| Filter (predicate : BoundExpr.t) (input : t)
| Projection (expressions : list BoundExpr.t) (input : t)
| NestedLoopJoin (left right : t) (predicate : BoundExpr.t)
| Insert (table_id : TableId) (rows : list (list BoundExpr.t))
| CreateTable (table_name : bytes) (columns : list BoundColumnDef)
| CreateIndex (index_name : bytes) (table_id : TableId) (column_index : Z).
End PhysicalPlan.

Fixpoint to_physical (p : LogicalPlan.t) : PhysicalPlan.t :=
  match p with
  | LogicalPlan.OneRow => PhysicalPlan.OneRow
  | LogicalPlan.SeqScan t => PhysicalPlan.SeqScan t
  | LogicalPlan.IndexScan i t s e => PhysicalPlan.IndexScan i t s e
  | LogicalPlan.Filter pred input => PhysicalPlan.Filter pred (to_physical input)
  | LogicalPlan.Projection es input => PhysicalPlan.Projection es (to_physical input)
  | LogicalPlan.Join l r pred => PhysicalPlan.NestedLoopJoin (to_physical l) (to_physical r) pred
  | LogicalPlan.Insert t rs => PhysicalPlan.Insert t rs
  | LogicalPlan.CreateTable n cs => PhysicalPlan.CreateTable n cs
  | LogicalPlan.CreateIndex n t c => PhysicalPlan.CreateIndex n t c
  end.
