(* ===== verification/Expression.v ===== *)
(** * Evaluating expressions: crates/executor/src/expression.rs

    [evaluate] with SQL's three-valued logic, and the proof that what the binder accepts evaluates:
    a bound expression never fails on a row of its table and gives NULL or a value of its type. *)
From S2P Require Import Prelude Text Value Tuple Common Errors SqlParser SqlParserSpec Catalog Planner.

(** [ExecutorError]; the five constructors that carry data instead of text are its [Evaluation]
    messages, [CorruptRow] and [MissingRow] its [CorruptTuple] messages. *)
Module Exec.
Inductive Error : Type :=
| ColumnOutOfBounds (index columns : Z)
| NotOperand (v : Value.t)
| NegateOperand (v : Value.t)
| AndOrOperand (v : Value.t)
| CompareOperands (e : Value.Error)
| NotInitialised
| CorruptRow (e : TupleError)
| MissingRow (rid : Rid)
| NotSupported (detail : bytes)
| StorageError (e : Storage.Error)
| CatalogError (e : CatalogError)
| LockError (e : Txn.Error).
End Exec.

Definition as_bool (v : Value.t) : outcome Exec.Error (option bool) :=
  match v with
  | Value.Null => Ok None
  | Value.Boolean b => Ok (Some b)
  | other => Err (Exec.AndOrOperand other)
  end.

Definition three_valued_and (l r : Value.t) : outcome Exec.Error Value.t :=
  l ← as_bool l;
  r ← as_bool r;
  Ok match l, r with
     | Some false, _ | _, Some false => Value.Boolean false
     | Some true, Some true => Value.Boolean true
     | _, _ => Value.Null
     end.

Definition three_valued_or (l r : Value.t) : outcome Exec.Error Value.t :=
  l ← as_bool l;
  r ← as_bool r;
  Ok match l, r with
     | Some true, _ | _, Some true => Value.Boolean true
     | Some false, Some false => Value.Boolean false
     | _, _ => Value.Null
     end.

(** [unreachable!] for the operators that are not comparisons *)
Definition matches_comparison (op : BinaryOperator.t) (c : comparison) : outcome Exec.Error bool :=
  match op with
  | BinaryOperator.Eq => Ok match c with Eq => true | _ => false end
  | BinaryOperator.NotEq => Ok match c with Eq => false | _ => true end
  | BinaryOperator.Lt => Ok match c with Lt => true | _ => false end
  | BinaryOperator.LtEq => Ok match c with Gt => false | _ => true end
  | BinaryOperator.Gt => Ok match c with Gt => true | _ => false end
  | BinaryOperator.GtEq => Ok match c with Lt => false | _ => true end
  | _ => Panic
  end.

(** Integer negation wraps, as in a release build; [-v] on a double flips its sign bit. *)
Definition evaluate_unary (op : UnaryOperator.t) (operand : Value.t) : outcome Exec.Error Value.t :=
  match op with
  | UnaryOperator.Not =>
      match operand with
      | Value.Null => Ok Value.Null
      | Value.Boolean b => Ok (Value.Boolean (negb b))
      | other => Err (Exec.NotOperand other)
      end
  | UnaryOperator.Negate =>
      match operand with
      | Value.Null => Ok Value.Null
      | Value.Integer v => Ok (Value.Integer (wraps 32 (- v)))
      | Value.BigInt v => Ok (Value.BigInt (wraps 64 (- v)))
      | Value.Double v => Ok (Value.Double (Z.lxor v (2 ^ 63)))
      | other => Err (Exec.NegateOperand other)
      end
  end.

(** The operands of every supported operator are both evaluated first, the left one first. *)
Definition evaluate_binary (op : BinaryOperator.t) (l r : outcome Exec.Error Value.t)
    : outcome Exec.Error Value.t :=
  match op with
  | BinaryOperator.And => l ← l; r ← r; three_valued_and l r
  | BinaryOperator.Or => l ← l; r ← r; three_valued_or l r
  | BinaryOperator.Eq | BinaryOperator.NotEq | BinaryOperator.Lt | BinaryOperator.LtEq
  | BinaryOperator.Gt | BinaryOperator.GtEq =>
      l ← l;
      r ← r;
      match Value.compare l r with
      | Ok None => Ok Value.Null
      | Ok (Some c) => b ← matches_comparison op c; Ok (Value.Boolean b)
      | Err e => Err (Exec.CompareOperands e)
      | Panic => Panic
      end
  | BinaryOperator.Plus | BinaryOperator.Minus | BinaryOperator.Multiply | BinaryOperator.Divide =>
      Err (Exec.NotSupported (str "arithmetic operators are not supported"))
  end.

Fixpoint evaluate (e : BoundExpr.t) (tuple : Tuple) : outcome Exec.Error Value.t :=
  match e with
  | BoundExpr.Literal v => Ok v
  | BoundExpr.SessionContext _ v => Ok v
  | BoundExpr.ColumnRef i _ => ok_or (index tuple i) (Exec.ColumnOutOfBounds i (len tuple))
  | BoundExpr.UnaryOp op e _ => operand ← evaluate e tuple; evaluate_unary op operand
  | BoundExpr.BinaryOp l op r _ => evaluate_binary op (evaluate l tuple) (evaluate r tuple)
  | BoundExpr.IsNull e negated =>
      v ← evaluate e tuple; Ok (Value.Boolean (negb (Bool.eqb (Value.is_null v) negated)))
  end.

(** [expressions.iter().map(|expr| evaluate(expr, tuple)).collect()] *)
Fixpoint evaluate_all (es : list BoundExpr.t) (row : Tuple) : outcome Exec.Error Tuple :=
  match es with
  | [] => Ok []
  | e :: es => v ← evaluate e row; vs ← evaluate_all es row; Ok (v :: vs)
  end.

(** ** Well-typed expressions

    [has_static_type ty v]: a value an expression of static type [ty] may have; the expression
    NULL has no type. *)
Definition has_static_type (ty : option DataType.t) (v : Value.t) : bool :=
  match ty with Some d => Value.has_type d v | None => Value.is_null v end.

(** A row of a table with this schema. *)
Definition row_of (s : Schema) (tuple : Tuple) : Prop :=
  Forall Value.wf tuple
  /\ Forall2 (fun c v => Value.has_type (data_type c) v = true) (columns s) tuple.

(** [e] evaluates on every row of the schema, to a value of type [ty]. *)
Definition sound (s : Schema) (e : BoundExpr.t) (ty : option DataType.t) : Prop :=
  forall tuple, row_of s tuple ->
  exists v, evaluate e tuple = Ok v /\ Value.wf v /\ has_static_type ty v = true.

Lemma has_type_data_type v : has_static_type (Value.data_type v) v = true.
Proof. by destruct v. Qed.

Lemma sound_literal s v : Value.wf v -> sound s (BoundExpr.Literal v) (Value.data_type v).
Proof. intros Hv tuple _. exists v. split_and!; [done.. | apply has_type_data_type]. Qed.

Lemma row_of_lookup s tuple i c :
  row_of s tuple -> index (columns s) i = Some c ->
  exists v, index tuple i = Some v /\ Value.wf v /\ Value.has_type (data_type c) v = true.
Proof.
  intros [Hwf Hty]. unfold index. destruct (0 <=? i); [| done]. intros Hc.
  destruct (Forall2_lookup_l _ _ _ _ _ Hty Hc) as (v & Hv & Ht). exists v.
  split_and!; [done | | done]. by eapply Forall_lookup_1.
Qed.

Lemma has_type_match a b v : data_types_match a b = true -> Value.has_type a v = Value.has_type b v.
Proof.
  unfold data_types_match. destruct a, b; try done; intros H; case_bool_decide; done.
Qed.

(** Two values whose static types match compare without error. *)
Lemma compare_typed ty1 ty2 v1 v2 :
  has_static_type ty1 v1 = true -> has_static_type ty2 v2 = true ->
  match ty1, ty2 with Some a, Some b => data_types_match a b = true | _, _ => True end ->
  exists o, Value.compare v1 v2 = Ok o.
Proof.
  intros H1 H2 Hm. destruct (Value.is_null v1 || Value.is_null v2) eqn:En.
  { exists None. by apply compare_null. }
  apply orb_false_iff in En as [En1 En2].
  destruct ty1 as [a |], ty2 as [b |]; simpl in H1, H2; [| congruence..].
  rewrite <- (has_type_match a b) in H2 by done.
  destruct v1, v2, a; try done; by eexists.
Qed.

Lemma as_bool_typed ty v :
  has_static_type ty v = true -> match ty with Some d => d = DataType.Boolean | None => True end ->
  exists o, as_bool v = Ok o.
Proof. intros H Hd. destruct ty as [d |]; subst; destruct v; try done; by eexists. Qed.

Lemma sound_comparison s l tl op r tr :
  is_comparison op = true -> sound s l tl -> sound s r tr ->
  match tl, tr with Some a, Some b => data_types_match a b = true | _, _ => True end ->
  sound s (BoundExpr.BinaryOp l op r DataType.Boolean) (Some DataType.Boolean).
Proof.
  intros Hop Hl Hr Hm tuple Ht. destruct (Hl tuple Ht) as (vl & El & _ & Tl).
  destruct (Hr tuple Ht) as (vr & Er & _ & Tr). destruct (compare_typed _ _ _ _ Tl Tr Hm) as [o Ho].
  cbn [evaluate]. rewrite El, Er.
  destruct op; try done; cbn [evaluate_binary mbind outcome_bind]; rewrite Ho; destruct o as [c |];
    cbn [matches_comparison mbind outcome_bind]; eexists; split_and!; done.
Qed.

Lemma sound_logical s l tl op r tr :
  (op = BinaryOperator.And \/ op = BinaryOperator.Or) -> sound s l tl -> sound s r tr ->
  match tl with Some d => d = DataType.Boolean | None => True end ->
  match tr with Some d => d = DataType.Boolean | None => True end ->
  sound s (BoundExpr.BinaryOp l op r DataType.Boolean) (Some DataType.Boolean).
Proof.
  intros Hop Hl Hr Hbl Hbr tuple Ht. destruct (Hl tuple Ht) as (vl & El & _ & Tl).
  destruct (Hr tuple Ht) as (vr & Er & _ & Tr).
  destruct (as_bool_typed _ _ Tl Hbl) as [ol Ol]. destruct (as_bool_typed _ _ Tr Hbr) as [or Or].
  cbn [evaluate]. rewrite El, Er.
  destruct Hop as [-> | ->]; cbn [evaluate_binary mbind outcome_bind];
    unfold three_valued_and, three_valued_or; rewrite Ol, Or; cbn [mbind outcome_bind];
    destruct ol as [[] |], or as [[] |]; eexists; split_and!; done.
Qed.

Lemma neg_double_range v : in_u 64 v -> in_u 64 (Z.lxor v (2 ^ 63)).
Proof.
  intros [H1 H2]. rewrite (lxor_top v 63) by (unfold in_u; lia). unfold in_u.
  destruct (Z.ltb_spec v (2 ^ 63)); zcase; lia.
Qed.

Lemma sound_not s e t :
  sound s e t -> match t with Some d => d = DataType.Boolean | None => True end ->
  sound s (BoundExpr.UnaryOp UnaryOperator.Not e DataType.Boolean) (Some DataType.Boolean).
Proof.
  intros He Hb tuple Ht. destruct (He tuple Ht) as (v & E & _ & T). cbn [evaluate]. rewrite E.
  cbn [mbind outcome_bind]. destruct t as [d |]; subst; destruct v; try done; cbn [evaluate_unary];
    eexists; split_and!; done.
Qed.

Lemma sound_negate s e d :
  sound s e (Some d) -> is_numeric d = true ->
  sound s (BoundExpr.UnaryOp UnaryOperator.Negate e d) (Some d).
Proof.
  intros He Hb tuple Ht. destruct (He tuple Ht) as (v & E & W & T). cbn [evaluate]. rewrite E.
  cbn [mbind outcome_bind]. destruct d, v; try done; cbn [evaluate_unary];
    eexists; (split_and!; [done | | done]); first [done | by apply wraps_range | by apply neg_double_range].
Qed.
