(* ===== verification/BinderSpec.v ===== *)
(** * Correctness of the binder

    Binding never panics, and a statement it accepts runs without evaluation errors on rows of its
    table. *)
From S2P Require Import Prelude Text Value Tuple Common Errors SqlParser SqlParserSpec Catalog Planner Expression.

(** ** The binder's expressions are well typed *)
Fixpoint literals_wf (e : Expr.t) : Prop :=
  match e with
  | Expr.Literal v => Value.wf v
  | Expr.SessionContext _ | Expr.Column _ _ | Expr.Param _ => True
  | Expr.BinaryOp l _ r => literals_wf l /\ literals_wf r
  | Expr.UnaryOp _ e | Expr.IsNull e _ => literals_wf e
  end.

Definition session_ok (c : SessionContext) : Prop := forall name, Value.wf (value_of c name).

(** What the binder keeps of every expression: it is sound, a column reference is a column of the
    schema with its type, and a literal is a value. *)
Definition well_bound (s : Schema) (t : typed) : Prop :=
  sound s t.1 t.2
  /\ match t.1 with
     | BoundExpr.ColumnRef i d => exists c, index (columns s) i = Some c /\ data_type c = d
     | BoundExpr.Literal v => Value.wf v
     | _ => True
     end.

Lemma coerce_literal_ok v d name :
  Value.wf v -> no_panic (coerce_literal_to_column v d name) Value.wf.
Proof.
  intros Hv. unfold coerce_literal_to_column. destruct v, d; try done. by case_decide.
Qed.

Lemma coerce_comparison_ok l r s :
  well_bound s l -> well_bound s r ->
  no_panic (coerce_comparison_operands l r s) (fun p => well_bound s p.1 /\ well_bound s p.2).
Proof.
  intros Hl Hr. unfold coerce_comparison_operands. destruct l as [el tl], r as [er tr].
  assert (Hlit : forall v, Value.wf v -> well_bound s (BoundExpr.Literal v, Value.data_type v)).
  { intros v Hv. split; [by apply sound_literal | done]. }
  destruct el, er; cbn [fst]; try done.
  - destruct Hr as [Hr (c & Hi & Hc)]. rewrite Hi. cbn [or_panic mbind outcome_bind].
    eapply no_panic_bind; [apply coerce_literal_ok, Hl |]. intros v' Hv'. cbn.
    split; [by apply Hlit |]. split; [done | by exists c].
  - destruct Hl as [Hl (c & Hi & Hc)]. rewrite Hi. cbn [or_panic mbind outcome_bind].
    eapply no_panic_bind; [apply coerce_literal_ok, Hr |]. intros v' Hv'. cbn.
    split; [| by apply Hlit]. split; [done | by exists c].
Qed.

Lemma check_boolean_ok op t :
  no_panic (check_boolean op t)
    (fun _ => match t with Some d => d = DataType.Boolean | None => True end).
Proof. unfold check_boolean. destruct t as [d |]; [| done]. case_decide as Hd; [done |]. simpl. by destruct (decide (d = DataType.Boolean)). Qed.

Lemma bind_binary_op_ok op l r s :
  well_bound s l -> well_bound s r -> no_panic (bind_binary_op op l r s) (well_bound s).
Proof.
  intros Hl Hr. unfold bind_binary_op. eapply no_panic_bind; [by apply coerce_comparison_ok |].
  intros [[el tl] [er tr]] [[Hl' _] [Hr' _]]. cbn [fst snd] in *.
  assert (Hlog : (op = BinaryOperator.And \/ op = BinaryOperator.Or) ->
    no_panic (_ ← check_boolean op tl; _ ← check_boolean op tr;
              Ok (BoundExpr.BinaryOp el op er DataType.Boolean, Some DataType.Boolean)) (well_bound s)).
  { intros Hop. eapply no_panic_bind; [apply check_boolean_ok |]. intros [] H1.
    eapply no_panic_bind; [apply check_boolean_ok |]. intros [] H2.
    split; [by eapply sound_logical | done]. }
  assert (Hcmp : is_comparison op = true ->
    no_panic (_ ← match tl, tr with
          | Some a, Some b =>
              if data_types_match a b then Ok tt
              else Err (TypeMismatch (str "cannot compare " ++ fmt_type a ++ str " with " ++ fmt_type b))
          | _, _ => Ok tt end;
              Ok (BoundExpr.BinaryOp el op er DataType.Boolean, Some DataType.Boolean)) (well_bound s)).
  { intros Hop. assert (Hk : match tl, tr with Some a, Some b => data_types_match a b = true | _, _ => True end ->
      well_bound s (BoundExpr.BinaryOp el op er DataType.Boolean, Some DataType.Boolean)).
    { intros Hm. split; [by eapply sound_comparison | done]. }
    destruct tl as [a |], tr as [b |]; try (by apply Hk).
    destruct (data_types_match a b) eqn:E; [by apply Hk | done]. }
  destruct op; first [exact (Hcmp eq_refl) | exact (Hlog (or_introl eq_refl)) | exact (Hlog (or_intror eq_refl)) | exact I].
Qed.

Lemma bind_unary_op_ok op t s : well_bound s t -> no_panic (bind_unary_op op t) (well_bound s).
Proof.
  destruct t as [e t]. intros [He _]. cbn [fst snd] in He. destruct op; cbn [bind_unary_op].
  - assert (Hk : match t with Some d => d = DataType.Boolean | None => True end ->
      well_bound s (BoundExpr.UnaryOp UnaryOperator.Not e DataType.Boolean, Some DataType.Boolean)).
    { intros Ht. split; [by eapply sound_not | done]. }
    destruct t as [d |]; [| by apply Hk]. case_decide as Hd; [done |]. apply Hk. by destruct (decide (d = DataType.Boolean)).
  - destruct t as [d |]; [| done]. cbn [ok_or mbind outcome_bind].
    destruct (is_numeric d) eqn:E; [| done]. split; [by apply sound_negate | done].
Qed.

Lemma position_spec {A} (p : A -> bool) l i j :
  position p i l = Some j -> exists x, index l (j - i) = Some x /\ p x = true.
Proof.
  revert i. induction l as [| y l IH]; intros i; [done |]. cbn [position].
  destruct (p y) eqn:E.
  - intros [= ->]. exists y. by rewrite Z.sub_diag.
  - intros H. destruct (IH _ H) as (x & Hx & Hp). exists x. split; [| done].
    unfold index in *. destruct (Z.leb_spec 0 (j - (i + 1))); [| done].
    rewrite (proj2 (Z.leb_le 0 (j - i))) by lia.
    by replace (Z.to_nat (j - i)) with (S (Z.to_nat (j - (i + 1)))) by lia.
Qed.

Lemma column_index_spec s name i :
  column_index s name = Some i -> exists c, index (columns s) i = Some c /\ column_name c = name.
Proof.
  intros H. apply position_spec in H as (c & Hc & Hn). rewrite Z.sub_0_r in Hc.
  exists c. split; [done |]. by apply bool_decide_eq_true in Hn.
Qed.

Lemma sound_column s i c :
  index (columns s) i = Some c -> sound s (BoundExpr.ColumnRef i (data_type c)) (Some (data_type c)).
Proof.
  intros Hc tuple Ht. destruct (row_of_lookup _ _ _ _ Ht Hc) as (v & Hv & Hw & Hty). exists v.
  cbn [evaluate]. by rewrite Hv.
Qed.

Lemma bind_expr_ok b e s scope :
  session_ok (session b) -> literals_wf e -> no_panic (bind_expr b e s scope) (well_bound s).
Proof.
  intros Hs. induction e as [v | n | t n | l IHl op r IHr | op e IH | e IH neg | i]; cbn [bind_expr literals_wf].
  - intros Hv. split; [by apply sound_literal | done].
  - intros _. split; [| done]. intros tuple _. exists (value_of (session b) n).
    split_and!; [done | apply Hs | apply has_type_data_type].
  - intros _. eapply (no_panic_bind _ _ (fun _ => True)).
    { destruct t; [by case_decide | done]. }
    intros _ _. eapply no_panic_bind; [apply no_panic_ok_or |]. intros i Hi.
    destruct (column_index_spec _ _ _ Hi) as (c & Hc & _). rewrite Hc. cbn.
    split; [by apply sound_column | by exists c].
  - intros [Hl Hr]. eapply no_panic_bind; [by apply IHl |]. intros l' Hl'.
    eapply no_panic_bind; [by apply IHr |]. intros r' Hr'. by apply bind_binary_op_ok.
  - intros He. eapply no_panic_bind; [by apply IH |]. intros e' He'. by apply bind_unary_op_ok.
  - intros He. eapply no_panic_bind; [by apply IH |]. intros [e' t] [He' _]. split; [| done]. cbn [fst snd] in *.
    intros tuple Ht. destruct (He' tuple Ht) as (v & E & _ & _). cbn [evaluate]. rewrite E.
    cbn [mbind outcome_bind]. eexists. done.
  - done.
Qed.

(** ** Statements *)
Definition statement_literals_wf (s : Statement.t) : Prop :=
  match s with
  | Statement.Select s | Statement.Explain _ (Statement.Select s) =>
      Forall (fun i => match i with Wildcard => True | ItemExpr e => literals_wf e end) (items s)
      /\ match where_clause s with Some e => literals_wf e | None => True end
  | Statement.Insert s | Statement.Explain _ (Statement.Insert s) =>
      Forall (Forall literals_wf) (SqlParser.values s)
  | _ => True
  end.

(** The schema the expressions of a SELECT see. *)
Definition sees (c : CatalogState) (table : option TableId) (s : Schema) : Prop :=
  match table with
  | None => s = mkSchema []
  | Some id => exists name t, get_table c name = Ok t /\ table_id t = id /\ schema t = s
  end.

Definition select_ok (c : CatalogState) (q : BoundSelect) : Prop :=
  exists s, sees c (select_table_id q) s
    /\ Forall2 (sound s) (projections q) (column_types q)
    /\ length (column_names q) = length (projections q)
    /\ (forall p, predicate q = Some p -> sound s p (Some DataType.Boolean)).

(** Every row to insert evaluates to a row of the table. *)
Definition insert_ok (c : CatalogState) (q : BoundInsert) : Prop :=
  exists s, sees c (Some (insert_table_id q)) s
    /\ Forall (fun row => exists tuple, mapM (fun e => evaluate e []) row = Ok tuple /\ row_of s tuple) (rows q).

Fixpoint bound_ok (c : CatalogState) (q : BoundStatement.t) : Prop :=
  match q with
  | BoundStatement.Select q => select_ok c q
  | BoundStatement.Insert q => insert_ok c q
  | BoundStatement.CreateTable _ => True
  | BoundStatement.CreateIndex q =>
      exists s, sees c (Some (created_on q)) s /\ is_Some (index (columns s) (created_column q))
  | BoundStatement.Explain _ inner => bound_ok c inner
  end.

Definition outputs_ok (s : Schema) (o : Outputs) : Prop :=
  Forall2 (sound s) (out_projections o) (out_types o)
  /\ length (out_names o) = length (out_projections o).

Lemma push_output_ok s o e name t : outputs_ok s o -> sound s e t -> outputs_ok s (push_output o e name t).
Proof.
  intros [H1 H2] He. split; cbn; [by apply Forall2_app; [| constructor] |].
  rewrite !length_app. simpl. lia.
Qed.

Lemma push_wildcard_ok s cs i o :
  (forall k c, cs !! k = Some c -> index (columns s) (i + Z.of_nat k) = Some c) ->
  outputs_ok s o -> outputs_ok s (push_wildcard i cs o).
Proof.
  revert i o. induction cs as [| c cs IH]; intros i o Hcs Ho; [done |]. cbn [push_wildcard]. apply IH.
  - intros k c' Hk. specialize (Hcs (S k) c' Hk).
    by replace (i + 1 + Z.of_nat k) with (i + Z.of_nat (S k)) by lia.
  - apply push_output_ok; [done |]. apply sound_column.
    specialize (Hcs 0%nat c eq_refl). by rewrite Z.add_0_r in Hcs.
Qed.

Lemma bind_items_ok b its s scope o :
  session_ok (session b) -> outputs_ok s o ->
  Forall (fun i => match i with Wildcard => True | ItemExpr e => literals_wf e end) its ->
  no_panic (bind_items b its s scope o) (outputs_ok s).
Proof.
  intros Hs Ho Hits. revert o Ho. induction Hits as [| it its Hi _ IH]; intros o Ho; [done |].
  destruct it as [| e]; cbn [bind_items].
  - apply IH, push_wildcard_ok; [| done]. intros k c Hk. unfold index. rewrite Z.add_0_l.
    rewrite (proj2 (Z.leb_le 0 (Z.of_nat k))) by lia. by rewrite Nat2Z.id.
  - eapply no_panic_bind; [by apply bind_expr_ok |]. intros [e' t] [He _]. apply IH.
    by apply push_output_ok.
Qed.

Lemma sound_null_boolean s e : sound s e None -> sound s e (Some DataType.Boolean).
Proof.
  intros He tuple Ht. destruct (He tuple Ht) as (v & E & W & T). exists v. split_and!; [done.. |].
  by destruct v.
Qed.

Lemma bind_where_ok b w s scope :
  session_ok (session b) -> match w with Some e => literals_wf e | None => True end ->
  no_panic (bind_where b w s scope)
    (fun p => forall e, p = Some e -> sound s e (Some DataType.Boolean)).
Proof.
  intros Hs Hw. unfold bind_where. destruct w as [e |]; [| done].
  eapply no_panic_bind; [by apply bind_expr_ok |]. intros [e' t] [He _]. cbn [fst snd] in He.
  destruct t as [d |].
  - case_decide as Hd; [done |]. intros ? [= <-]. by destruct (decide (d = DataType.Boolean)); subst.
  - intros ? [= <-]. by apply sound_null_boolean.
Qed.

Lemma lookup_table_ok b name :
  no_panic (lookup_table b name) (fun t => sees (catalog b) (Some (table_id t)) (schema t)).
Proof.
  unfold lookup_table. destruct (get_table (catalog b) name) eqn:E; [| done |].
  - by exists name, a.
  - unfold get_table in E. by destruct (tables_by_name (catalog b) !! name).
Qed.

Lemma bind_select_ok b q :
  session_ok (session b) -> statement_literals_wf (Statement.Select q) ->
  no_panic (bind_select b q) (select_ok (catalog b)).
Proof.
  intros Hs [Hi Hw]. unfold bind_select.
  eapply (no_panic_bind _ _ (fun t => sees (catalog b) (table_id <$> t)
    match t with Some t => schema t | None => mkSchema [] end)).
  { destruct (from q); [| done]. eapply no_panic_bind; [apply lookup_table_ok |]. intros info Ht. exact Ht. }
  intros t Ht. eapply no_panic_bind; [by apply bind_items_ok |]. intros o [Ho1 Ho2].
  eapply no_panic_bind; [by apply bind_where_ok |]. intros p Hp.
  eexists. split_and!; done.
Qed.

Lemma empty_row : row_of (mkSchema []) [].
Proof. split; constructor. Qed.

Lemma bind_insert_value_ok b e c :
  session_ok (session b) -> literals_wf e ->
  no_panic (bind_insert_value b e c)
    (fun e' => exists v, evaluate e' [] = Ok v /\ Value.wf v /\ Value.has_type (data_type c) v = true).
Proof.
  intros Hs He. unfold bind_insert_value. eapply no_panic_bind; [by apply bind_expr_ok |].
  intros [e' t] [He' Hv]. cbn [fst snd] in *.
  eapply (no_panic_bind _ _ (fun p => sound (mkSchema []) p.1 p.2)).
  { destruct e'; try done. eapply no_panic_bind; [by apply coerce_literal_ok |]. intros v' Hv'.
    by apply sound_literal. }
  intros [e2 t2] H2. destruct (H2 [] empty_row) as (v & E & W & T). cbn [fst snd] in *.
  destruct t2 as [d |].
  - destruct (data_types_match d (data_type c)) eqn:Em; [| done]. exists v.
    split_and!; [done.. |]. by rewrite <- (has_type_match d).
  - exists v. split_and!; [done.. |]. by destruct v.
Qed.

(** The bound row so far: every position evaluates to a value its column may hold. *)
Definition bound_row_ok (s : Schema) (row : list BoundExpr.t) : Prop :=
  Forall2 (fun c e => exists v, evaluate e [] = Ok v /\ Value.wf v /\ Value.has_type (data_type c) v = true)
          (columns s) row.

Lemma bind_insert_row_ok b row s acc :
  session_ok (session b) -> Forall (fun p => literals_wf p.1 /\ is_Some (index (columns s) p.2)) row ->
  bound_row_ok s acc -> no_panic (bind_insert_row b row s acc) (bound_row_ok s).
Proof.
  intros Hs Hrow. revert acc. induction Hrow as [| [e i] row [He [c Hc]] _ IH]; intros acc Ha; [done |].
  cbn [fst snd] in *. cbn [bind_insert_row]. rewrite Hc. cbn [or_panic mbind outcome_bind].
  eapply no_panic_bind; [by apply bind_insert_value_ok |]. intros e' He'. apply IH.
  unfold index in Hc. destruct (0 <=? i); [| done]. unfold bound_row_ok in *.
  rewrite <- (list_insert_id (columns s) (Z.to_nat i) c) by done. by apply Forall2_insert.
Qed.

Lemma null_bound_row s : bound_row_ok s (replicate (length (columns s)) (BoundExpr.Literal Value.Null)).
Proof.
  unfold bound_row_ok. induction (columns s) as [| c cs IH]; constructor; [| done].
  by exists Value.Null.
Qed.

Lemma bound_row_evaluates s row :
  bound_row_ok s row -> exists tuple, mapM (fun e => evaluate e []) row = Ok tuple /\ row_of s tuple.
Proof.
  unfold bound_row_ok, row_of. induction 1 as [| c e cs row (v & E & W & T) _ (tuple & Em & Hw & Ht)].
  - exists []. repeat constructor.
  - exists (v :: tuple). cbn [mapM mbind outcome_bind]. rewrite E. cbn [mbind outcome_bind].
    change (mapM (fun e => evaluate e []) row) with (mapM (M := outcome Exec.Error) (fun e => evaluate e []) row).
    rewrite Em. repeat constructor; done.
Qed.

Lemma bind_insert_rows_ok b vs s targets :
  session_ok (session b) -> Forall (Forall literals_wf) vs ->
  Forall (fun i => is_Some (index (columns s) i)) targets ->
  no_panic (bind_insert_rows b vs s targets)
    (Forall (fun row => exists tuple, mapM (fun e => evaluate e []) row = Ok tuple /\ row_of s tuple)).
Proof.
  intros Hs Hvs Ht. induction Hvs as [| row vs Hrow _ IH]; [constructor |]. cbn [bind_insert_rows].
  destruct (len row =? len targets); [| done]. cbn [negb].
  eapply no_panic_bind.
  { apply bind_insert_row_ok; [done | | apply null_bound_row].
    clear -Hrow Ht. revert targets Ht. induction Hrow; intros [| i ts] Ht; cbn; try constructor.
    - apply Forall_cons in Ht as [? ?]. done.
    - apply Forall_cons in Ht as [? ?]. eauto. }
  intros row' Hrow'. eapply no_panic_bind; [done |]. intros rows' Hrows'. constructor; [| done].
  by apply bound_row_evaluates.
Qed.

Lemma targets_ok s names :
  no_panic (mapM (fun name => ok_or (column_index s name) (UnknownColumn name)) names)
    (Forall (fun i => is_Some (index (columns s) i))).
Proof.
  induction names as [| n names IH]; [constructor |]. cbn [mapM].
  eapply no_panic_bind; [apply no_panic_ok_or |]. intros i Hi. eapply no_panic_bind; [exact IH |].
  intros ids His. constructor; [| done]. destruct (column_index_spec _ _ _ Hi) as (c & -> & _). by eexists.
Qed.

Lemma bind_insert_ok b q :
  session_ok (session b) -> Forall (Forall literals_wf) (SqlParser.values q) ->
  no_panic (bind_insert b q) (insert_ok (catalog b)).
Proof.
  intros Hs Hv. unfold bind_insert. eapply no_panic_bind; [apply lookup_table_ok |]. intros t Ht.
  eapply (no_panic_bind _ _ (Forall (fun i => is_Some (index (columns (schema t)) i)))).
  { case_decide; [| apply targets_ok]. apply Forall_forall. intros i Hi%elem_of_seqZ.
    unfold index. rewrite (proj2 (Z.leb_le 0 i)) by lia. apply lookup_lt_is_Some_2. unfold len in Hi. lia. }
  intros targets Hts. eapply no_panic_bind; [by apply bind_insert_rows_ok |]. intros rows' Hr.
  by exists (schema t).
Qed.

Lemma bind_create_index_ok b q :
  no_panic (bind_create_index b q) (fun q => bound_ok (catalog b) (BoundStatement.CreateIndex q)).
Proof.
  unfold bind_create_index. eapply no_panic_bind; [apply lookup_table_ok |]. intros t Ht.
  eapply no_panic_bind; [apply no_panic_ok_or |]. intros i Hi. exists (schema t). split; [done |]. cbn [created_column].
  destruct (column_index_spec _ _ _ Hi) as (c & -> & _). by eexists.
Qed.

(** Statements that reach the binder: not transaction control. *)
Definition bindable (s : Statement.t) : Prop :=
  match s with
  | Statement.Begin | Statement.Commit | Statement.Rollback => False
  | Statement.Explain _ (Statement.Explain _ _) => False
  | Statement.Explain _ (Statement.Begin | Statement.Commit | Statement.Rollback) => False
  | _ => True
  end.

Lemma binder_ok b q :
  session_ok (session b) -> bindable q -> statement_literals_wf q ->
  no_panic (bind b q) (bound_ok (catalog b)).
Proof.
  intros Hs Hb Hl.
  assert (Hsimple : forall q, match q with Statement.Explain _ _ => False | _ => True end -> bindable q ->
    statement_literals_wf q -> no_panic (bind b q) (bound_ok (catalog b))).
  { clear q Hb Hl. intros q Hq Hb Hl. destruct q; try done; cbn [bind].
    - eapply no_panic_bind; [by apply bind_select_ok |]. by intros.
    - eapply no_panic_bind; [by apply bind_insert_ok |]. by intros.
    - eapply no_panic_bind; [apply bind_create_index_ok |]. by intros. }
  destruct q as [| | | | | | | v inner]; try (by apply Hsimple). cbn [bind].
  eapply no_panic_bind; [apply Hsimple; by destruct inner |]. by intros.
Qed.

(** C14: Well-typed statements do not go wrong. For every statement that reaches the binder (not
    transaction control) binding returns a statement or an error and never panics; and what it
    returns runs: every projection and the predicate of a SELECT evaluate without error on every
    row of the table, to NULL or a value of the announced type (Boolean for the predicate), and
    every row of an INSERT evaluates to a row of the table. *)
Theorem bind_well_typed b q :
  session_ok (session b) -> bindable q -> statement_literals_wf q ->
  match bind b q with
  | Ok q' => bound_ok (catalog b) q'
  | Err _ => True
  | Panic => False
  end.
Proof. apply binder_ok. Qed.

Definition sample_session : SessionContext :=
  mkSession (str "db") (str "public") (str "admin") (str "PostgreSQL 15.0 (simple_rdbms 0.1.0)").
(** [SELECT *, current_user FROM users WHERE id = 5] *)
Definition sample_select : Statement.t :=
  Statement.Select (mkSelect
    [Wildcard; ItemExpr (Expr.SessionContext SessionContextName.CurrentUser)]
    (Some (mkTableRef (str "users") None))
    (Some (Expr.BinaryOp (Expr.Column None (str "id")) BinaryOperator.Eq (Expr.Literal (Value.BigInt 5))))).

Lemma bind_well_typed_witness :
  exists q', bind (mkBinder sample_catalog sample_session) sample_select = Ok q'
    /\ bound_ok sample_catalog q'.
Proof.
  eexists. split; [vm_compute; reflexivity |].
  refine (bind_well_typed (mkBinder sample_catalog sample_session) sample_select _ _ _).
  - intros []; vm_compute; done.
  - exact I.
  - repeat constructor; simpl; unfold in_s; lia.
Defined.
