(* ===== verification/OptimizerSpec.v ===== *)
(** * Correctness of the index-scan rule

    Every row that satisfies a predicate has the key of the indexed column within the bounds the
    optimizer derives from the predicate, so restricting the scan to the bounds loses no row. *)
From S2P Require Import Prelude Text Value Memcomparable Tuple Common Errors SqlParser SqlParserSpec Catalog Planner Expression BinderSpec.

Lemma lex_ge_spec a b : lex_ge a b = true <-> ble b a.
Proof. unfold lex_ge. rewrite <- not_blt. unfold blt. destruct (lex_compare a b); intuition congruence. Qed.
Lemma lex_le_spec a b : lex_le a b = true <-> ble a b.
Proof. unfold lex_le, ble. destruct (lex_compare a b); intuition congruence. Qed.

(** The successor is the least byte string above. *)
Lemma successor_above a : blt a (successor a).
Proof.
  unfold blt, successor. induction a as [| x a IH]; [done |]. cbn [lex_compare app].
  by rewrite (proj2 (byte_compare_eq x x) eq_refl).
Qed.
Lemma successor_least a b : blt a b -> ble (successor a) b.
Proof.
  unfold blt, ble, successor. revert b. induction a as [| x a IH]; intros [| y b]; try done.
  - intros _. cbn [app lex_compare]. unfold byte_compare. pose proof (Z_of_byte_range y).
    change (Z_of_byte (byte_of_Z 0)) with 0.
    destruct (Z.compare_spec 0 (Z_of_byte y)); [| done | lia]. by destruct b.
  - cbn [lex_compare app]. destruct (byte_compare x y); [apply IH | done | done].
Qed.

(** ** The bounds of an index scan *)
Definition within (start endk : option bytes) (k : bytes) : Prop :=
  (forall s, start = Some s -> ble s k) /\ (forall e, endk = Some e -> blt k e).

Lemma tighten_start k cur c :
  (forall s, cur = Some s -> ble s k) -> (forall s, c = Some s -> ble s k) ->
  forall s, tighten lex_ge cur c = Some s -> ble s k.
Proof. intros H1 H2 s. unfold tighten. destruct c, cur; try case_match; intros [= <-]; auto. Qed.
Lemma tighten_end k cur c :
  (forall e, cur = Some e -> blt k e) -> (forall e, c = Some e -> blt k e) ->
  forall e, tighten lex_le cur c = Some e -> blt k e.
Proof. intros H1 H2 s. unfold tighten. destruct c, cur; try case_match; intros [= <-]; auto. Qed.

(** A key that compares as the operator asks lies within the operator's candidates. *)
Lemma candidates_within op k kv b :
  matches_comparison op (lex_compare k kv) = Ok b -> b = true ->
  within (candidates op kv).1 (candidates op kv).2 k.
Proof.
  intros Hm ->. unfold within. destruct op; cbn [candidates fst snd matches_comparison] in *;
    destruct (lex_compare k kv) eqn:E; simplify_eq; split; intros ? [= <-].
  - apply lex_compare_eq in E as ->. apply ble_refl.
  - apply lex_compare_eq in E as ->. apply successor_above.
  - done.
  - apply lex_compare_eq in E as ->. apply successor_above.
  - eapply blt_trans; [exact E | apply successor_above].
  - apply successor_least. unfold blt. by rewrite lex_compare_antisym, E.
  - apply lex_compare_eq in E as ->. apply ble_refl.
  - apply blt_ble. unfold blt. by rewrite lex_compare_antisym, E.
Qed.

(** ** What a true predicate says of its conjuncts *)
Lemma three_valued_and_true l r :
  three_valued_and l r = Ok (Value.Boolean true) -> l = Value.Boolean true /\ r = Value.Boolean true.
Proof.
  unfold three_valued_and. destruct l as [| [] | | | |]; cbn; try done;
    destruct r as [| [] | | | |]; cbn; done.
Qed.

Lemma conjuncts_true p tuple :
  evaluate p tuple = Ok (Value.Boolean true) ->
  Forall (fun c => evaluate c tuple = Ok (Value.Boolean true)) (flatten_and_conjuncts p).
Proof.
  induction p as [| | l IHl op r IHr | | |]; try (by repeat constructor).
  cbn [flatten_and_conjuncts]. destruct op; try (by repeat constructor). cbn [evaluate evaluate_binary].
  destruct (evaluate l tuple) as [vl | |] eqn:El; [| done..].
  destruct (evaluate r tuple) as [vr | |] eqn:Er; [| done..]. cbn [mbind outcome_bind].
  intros [-> ->]%three_valued_and_true. apply Forall_app. auto.
Qed.

Lemma column_and_literal_true e i op v tuple :
  column_and_literal e = Some (i, op, v) -> evaluate e tuple = Ok (Value.Boolean true) ->
  exists u c, index tuple i = Some u /\ Value.compare u v = Ok (Some c)
    /\ matches_comparison op c = Ok true.
Proof.
  intros He Ht. destruct e as [| | l op' r d | | |]; try done.
  destruct l as [| j d' | | | |]; try done. destruct r as [v' | | | | |]; try done.
  assert (Hi : op' = op /\ j = i /\ v' = v /\ is_comparison op = true).
  { cbn in He. destruct op'; by simplify_eq. }
  destruct Hi as (-> & -> & -> & Hop). cbn [evaluate] in Ht.
  destruct (index tuple i) as [u |] eqn:Ei; cbn [ok_or] in Ht; [| by destruct op].
  exists u. assert (Hc : match Value.compare u v with
      | Ok None => Ok Value.Null
      | Ok (Some c) => b ← matches_comparison op c; Ok (Value.Boolean b)
      | Err e => Err (Exec.CompareOperands e)
      | Panic => Panic
      end = Ok (Value.Boolean true)) by (by destruct op).
  destruct (Value.compare u v) as [[c |] | |]; try done. exists c. split_and!; [done.. |].
  destruct (matches_comparison op c) as [b | |]; try done. cbn in Hc. by simplify_eq.
Qed.

(** Values that compare have keys. *)
Lemma compare_encodable a b c :
  Value.compare a b = Ok (Some c) ->
  (exists k, encode_memcomparable a [] = Ok k) /\ (exists k, encode_memcomparable b [] = Ok k).
Proof.
  intros H. rewrite <- !encode_memcomparable_ok. unfold Value.compare in H.
  destruct a, b; cbn [Value.is_null orb] in H; try discriminate H; try (by split). cbn [encodable].
  injection H as H. destruct (F64.is_nan bits) eqn:E1, (F64.is_nan bits0) eqn:E2; try done;
    rewrite F64Facts.partial_cmp_nan in H; try done; by rewrite E1, E2.
Qed.

Fixpoint bound_literals_wf (e : BoundExpr.t) : Prop :=
  match e with
  | BoundExpr.Literal v => Value.wf v
  | BoundExpr.ColumnRef _ _ | BoundExpr.SessionContext _ _ => True
  | BoundExpr.BinaryOp l _ r _ => bound_literals_wf l /\ bound_literals_wf r
  | BoundExpr.UnaryOp _ e _ | BoundExpr.IsNull e _ => bound_literals_wf e
  end.

Lemma conjuncts_wf p : bound_literals_wf p -> Forall bound_literals_wf (flatten_and_conjuncts p).
Proof.
  induction p as [| | l IHl op r IHr | | |]; intros Hp; try (by constructor; [done | constructor]).
  destruct op; try (by constructor; [done | constructor]). cbn [flatten_and_conjuncts]. destruct Hp.
  apply Forall_app. auto.
Qed.

Lemma tighten_bounds_within target s0 e0 c tuple u k :
  index tuple target = Some u -> Value.wf u -> encode_memcomparable u [] = Ok k ->
  bound_literals_wf c -> evaluate c tuple = Ok (Value.Boolean true) ->
  within s0 e0 k ->
  within (tighten_bounds target (s0, e0) c).1 (tighten_bounds target (s0, e0) c).2 k.
Proof.
  intros Hu Hwu Hk Hc Ht [Hs He]. unfold tighten_bounds.
  destruct (column_and_literal c) as [[[i op] v] |] eqn:Ec; [| by split].
  destruct (Z.eqb_spec i target) as [-> |]; [| by split]. cbn [negb].
  destruct (column_and_literal_true _ _ _ _ _ Ec Ht) as (u' & o & Hu' & Hcmp & Hm).
  rewrite Hu in Hu'. injection Hu' as <-.
  destruct (compare_encodable _ _ _ Hcmp) as [_ [kv Hkv]]. rewrite Hkv.
  assert (Hv : Value.wf v).
  { destruct c as [| | l op' r d | | |]; try done. destruct l, r; try done. destruct Hc as [_ Hv].
    cbn in Ec. destruct op'; by simplify_eq. }
  assert (Hlex : lex_compare k kv = o) by exact (encode_compare u v k kv o Hwu Hv Hk Hkv Hcmp). subst o.
  destruct (candidates_within op k kv true Hm eq_refl) as [C1 C2].
  destruct (candidates op kv) as [cs ce]. cbn [fst snd] in *. split; cbn [fst snd].
  - by apply tighten_start.
  - by apply tighten_end.
Qed.

Lemma fold_bounds_within target cs tuple u k s0 e0 :
  index tuple target = Some u -> Value.wf u -> encode_memcomparable u [] = Ok k ->
  Forall bound_literals_wf cs -> Forall (fun c => evaluate c tuple = Ok (Value.Boolean true)) cs ->
  within s0 e0 k ->
  let b := fold_left (tighten_bounds target) cs (s0, e0) in within b.1 b.2 k.
Proof.
  intros Hu Hwu Hk Hw Ht. revert s0 e0. induction cs as [| c cs IH]; intros s0 e0 Hb; [done |].
  apply Forall_cons in Hw as [Hc Hw]. apply Forall_cons in Ht as [Hct Ht]. cbn [fold_left].
  pose proof (tighten_bounds_within _ s0 e0 _ _ _ _ Hu Hwu Hk Hc Hct Hb) as Hb'.
  destruct (tighten_bounds target (s0, e0) c) as [s1 e1]. by apply IH.
Qed.

(** The column of the chosen index has a key within the bounds in every row that satisfies the
    predicate. *)
Lemma index_scan_bounds_ok p t c id s e :
  index_scan_bounds p t c = Some (id, s, e) -> bound_literals_wf p ->
  exists column info, index_for_column c t column = Some info /\ index_id info = id
  /\ forall tuple, Forall Value.wf tuple -> evaluate p tuple = Ok (Value.Boolean true) ->
     exists u k, index tuple column = Some u /\ encode_memcomparable u [] = Ok k /\ within s e k.
Proof.
  intros Hb Hp. unfold index_scan_bounds in Hb.
  destruct (find_map _ _) as [[target id'] |] eqn:Ef; [| done]. cbn [mbind option_bind] in Hb.
  apply find_map_Some in Ef as (c0 & Hc0 & Hf).
  destruct (column_and_literal c0) as [[[i op] v] |] eqn:Ec; [| done]. cbn [mbind option_bind] in Hf.
  destruct (index_for_column c t i) as [info |] eqn:Ei; [| done]. cbn [mbind option_bind] in Hf.
  simplify_eq. exists target, info. destruct (fold_left _ _ _) as [s' e'] eqn:Efold. simplify_eq.
  split_and!; [done | done |]. intros tuple Hw Ht.
  pose proof (conjuncts_true _ _ Ht) as Hct. pose proof (conjuncts_wf _ Hp) as Hcw.
  assert (Ht0 : evaluate c0 tuple = Ok (Value.Boolean true)) by (by eapply Forall_forall in Hct).
  destruct (column_and_literal_true _ _ _ _ _ Ec Ht0) as (u & o & Hu & Hcmp & _).
  destruct (compare_encodable _ _ _ Hcmp) as [[k Hk] _].
  assert (Hwu : Value.wf u).
  { unfold index in Hu. destruct (0 <=? target); [| done]. by eapply Forall_lookup_1. }
  pose proof (fold_bounds_within target _ tuple u k None None Hu Hwu Hk Hcw Hct) as Hin.
  rewrite Efold in Hin. exists u, k. split_and!; [done.. |]. apply Hin. split; intros ? [=].
Qed.

(** ** What a plan means

    The rows a query plan yields over given tables; the operators are those of
    crates/executor/src/operators (a join is not implemented there). *)
Section meaning.
Context (table_rows : TableId -> list Tuple) (index_rows : IndexId -> TableId -> option bytes -> option bytes -> list Tuple).

(** [FilterExecutor] *)
Fixpoint filter_rows (p : BoundExpr.t) (rows : list Tuple) : outcome Exec.Error (list Tuple) :=
  match rows with
  | [] => Ok []
  | row :: rows =>
      v ← evaluate p row;
      rest ← filter_rows p rows;
      Ok (if decide (v = Value.Boolean true) then row :: rest else rest)
  end.

(** [ProjectionExecutor] *)
Fixpoint project_rows (es : list BoundExpr.t) (rows : list Tuple) : outcome Exec.Error (list Tuple) :=
  match rows with
  | [] => Ok []
  | row :: rows => out ← evaluate_all es row; rest ← project_rows es rows; Ok (out :: rest)
  end.

Fixpoint denote (p : LogicalPlan.t) : outcome Exec.Error (list Tuple) :=
  match p with
  | LogicalPlan.OneRow => Ok [[]]
  | LogicalPlan.SeqScan t => Ok (table_rows t)
  | LogicalPlan.IndexScan i t s e => Ok (index_rows i t s e)
  | LogicalPlan.Filter pred input => rows ← denote input; filter_rows pred rows
  | LogicalPlan.Projection es input => rows ← denote input; project_rows es rows
  | _ => Panic
  end.

Definition satisfies (p : BoundExpr.t) (row : Tuple) : bool :=
  match evaluate p row with Ok (Value.Boolean true) => true | _ => false end.
Lemma satisfies_true p row : satisfies p row = true <-> evaluate p row = Ok (Value.Boolean true).
Proof. unfold satisfies. destruct (evaluate p row) as [[| [] | | | |] | |]; split; congruence. Qed.

Lemma filter_rows_ok p rows l :
  filter_rows p rows = Ok l <->
  Forall (fun row => exists v, evaluate p row = Ok v) rows
  /\ l = filter (fun row => satisfies p row = true) rows.
Proof.
  revert l. induction rows as [| row rows IH]; intros l; cbn [filter_rows].
  { split; [intros [= <-]; by split | by intros [_ ->]]. }
  rewrite filter_cons, Forall_cons. destruct (evaluate p row) as [v | |] eqn:E; cbn [mbind outcome_bind].
  2, 3: split; [done | intros [[[? ?] _] _]; congruence].
  assert (Hs : satisfies p row = true <-> v = Value.Boolean true) by (rewrite satisfies_true, E; split; congruence).
  destruct (filter_rows p rows) as [rest | |]; cbn [mbind outcome_bind].
  2, 3: split; [done |]; intros [[_ H] _]; discriminate (proj2 (IH _) (conj H eq_refl)).
  destruct (proj1 (IH rest) eq_refl) as [H1 H2]. split.
  - intros [= <-]. split; [split; [by exists v | done] |]. repeat case_decide; naive_solver.
  - intros [_ ->]. f_equal. repeat case_decide; naive_solver.
Qed.

Lemma filter_ext_in {A} (P Q : A -> Prop) `{!forall x, Decision (P x), !forall x, Decision (Q x)} (l : list A) :
  (forall x, x ∈ l -> P x <-> Q x) -> filter P l = filter Q l.
Proof.
  induction l as [| x l IH]; intros Heq; [done |]. rewrite !filter_cons, IH by (intros; apply Heq; set_solver).
  pose proof (Heq x ltac:(set_solver)). repeat case_decide; naive_solver.
Qed.

Lemma filter_rows_perm p rows rows' l : rows ≡ₚ rows' -> filter_rows p rows = Ok l ->
  exists l', filter_rows p rows' = Ok l' /\ l ≡ₚ l'.
Proof.
  intros Hp [H1 ->]%filter_rows_ok. eexists. split; [apply filter_rows_ok; split; [by rewrite <- Hp | done] |]. by rewrite Hp.
Qed.

Lemma project_rows_perm es rows rows' : rows ≡ₚ rows' -> forall l, project_rows es rows = Ok l ->
  exists l', project_rows es rows' = Ok l' /\ l ≡ₚ l'.
Proof.
  induction 1 as [| row rows rows' _ IH | r1 r2 rows | rows1 rows2 rows3 _ IH1 _ IH2]; intros l; cbn [project_rows].
  - intros [= <-]. by exists [].
  - destruct (evaluate_all es row) as [out | |]; [| done..]. cbn [mbind outcome_bind].
    destruct (project_rows es rows) as [rest | |]; [| done..]. intros [= <-].
    destruct (IH rest eq_refl) as (l' & -> & Hl'). exists (out :: l'). split; [done | by constructor].
  - destruct (evaluate_all es r2) as [o2 | |]; [| done..]. cbn [mbind outcome_bind].
    destruct (evaluate_all es r1) as [o1 | |]; [| done..]. cbn [mbind outcome_bind].
    destruct (project_rows es rows) as [rest | |]; [| done..]. intros [= <-]. eexists. split; [done | constructor].
  - intros Hl. destruct (IH1 l Hl) as (l2 & H2 & P2). destruct (IH2 l2 H2) as (l3 & H3 & P3). exists l3. split; [done | by etrans].
Qed.

(** ** The optimizer keeps the rows *)
Context (c : CatalogState).

(** What an index scan promises, in some order: rows of the table, and among them each whose key is
    within the bounds. It may yield more, as an index scan does past a start that is not a whole key. *)
Definition key_within (column : Z) (s e : option bytes) (row : Tuple) : bool :=
  match index row column with
  | Some u =>
      match encode_memcomparable u [] with
      | Ok k => match s with Some s => lex_ge k s | None => true end
                && match e with Some e => negb (lex_ge k e) | None => true end
      | _ => false
      end
  | None => false
  end.
Definition index_scan_contract : Prop := forall t column info s e,
  index_for_column c t column = Some info ->
  filter (fun row => key_within column s e row = true) (table_rows t) ⊆+ index_rows (index_id info) t s e
  /\ index_rows (index_id info) t s e ⊆+ table_rows t.

Lemma filter_submseteq {A} (Q : A -> Prop) `{!forall x, Decision (Q x)} (l k : list A) : l ⊆+ k -> filter Q l ⊆+ filter Q k.
Proof. intros [r ->]%submseteq_Permutation. rewrite filter_app. by apply submseteq_inserts_r. Qed.

Fixpoint plan_literals_wf (p : LogicalPlan.t) : Prop :=
  match p with
  | LogicalPlan.Filter pred input => bound_literals_wf pred /\ plan_literals_wf input
  | LogicalPlan.Projection _ input => plan_literals_wf input
  | _ => True
  end.

Lemma within_key_within column s e row u k :
  index row column = Some u -> encode_memcomparable u [] = Ok k -> within s e k -> key_within column s e row = true.
Proof.
  intros Hu Hk [Hs He]. unfold key_within. rewrite Hu, Hk. apply andb_true_iff. split.
  - destruct s as [s |]; [| done]. apply lex_ge_spec. by apply Hs.
  - destruct e as [e |]; [| done]. specialize (He e eq_refl). unfold lex_ge. unfold blt in He. by rewrite He.
Qed.

Lemma index_scan_rule_literals p : plan_literals_wf p -> plan_literals_wf (index_scan_rule p c).
Proof.
  intros Hp. destruct p as [| | | pred input | | | | |]; try exact Hp. destruct input; try exact Hp.
  cbn [index_scan_rule]. destruct (index_scan_bounds _ _ _) as [[[? ?] ?] |]; exact Hp.
Qed.
Lemma optimize_literals p : plan_literals_wf p -> plan_literals_wf (optimize [index_scan_rule] p c).
Proof.
  induction p as [| | | pred input IH | es input IH | | | |]; intros Hp; try done; cbn [optimize fold_left] in *.
  - apply index_scan_rule_literals. destruct Hp as [Hpred Hp]. split; [done | by apply IH].
  - by apply IH.
Qed.

(** One application of the rule. *)
Lemma index_scan_rule_ok p rows : index_scan_contract -> (forall t, Forall (Forall Value.wf) (table_rows t)) ->
  plan_literals_wf p -> denote p = Ok rows -> exists rows', denote (index_scan_rule p c) = Ok rows' /\ rows ≡ₚ rows'.
Proof.
  intros Hc Hwf Hp Hd. assert (Hid : exists rows', denote p = Ok rows' /\ rows ≡ₚ rows') by (by exists rows).
  destruct p as [| | | pred input | | | | |]; try exact Hid. destruct input as [| t | | | | | | |]; try exact Hid.
  cbn [index_scan_rule]. destruct (index_scan_bounds pred t c) as [[[id s] e] |] eqn:Eb; [| exact Hid].
  destruct Hp as [Hp _]. cbn [denote mbind outcome_bind] in Hd |- *. apply filter_rows_ok in Hd as [Hall ->].
  destruct (index_scan_bounds_ok pred t c id s e Eb Hp) as (col & info & H1 & <- & H2).
  destruct (Hc t col info s e H1) as [Hlo Hhi].
  assert (Hall' : Forall (fun row => exists v, evaluate pred row = Ok v) (index_rows (index_id info) t s e)).
  { apply Forall_forall. intros row Hin. eapply Forall_forall in Hall; [exact Hall |]. by eapply elem_of_submseteq. }
  eexists. split; [apply filter_rows_ok; split; [done | reflexivity] |].
  apply (filter_submseteq (fun row => satisfies pred row = true)) in Hlo, Hhi.
  rewrite list_filter_filter in Hlo. rewrite (filter_ext_in _ (fun row => satisfies pred row = true)) in Hlo.
  { apply submseteq_length_Permutation; [done |]. by apply submseteq_length. }
  intros row Hin. split; [by intros [? _] |].
  intros Hs. split; [done |]. apply satisfies_true in Hs. destruct (H2 row) as (u & k & ? & ? & ?); [| done |].
  - by eapply Forall_forall in Hin; [| apply Hwf].
  - by eapply within_key_within.
Qed.

Lemma optimize_ok p : index_scan_contract -> (forall t, Forall (Forall Value.wf) (table_rows t)) ->
  plan_literals_wf p -> forall rows, denote p = Ok rows ->
  exists rows', denote (optimize [index_scan_rule] p c) = Ok rows' /\ rows ≡ₚ rows'.
Proof.
  intros Hc Hwf. induction p as [| | | pred input IH | es input IH | | | |]; intros Hp out Hd; cbn [optimize fold_left] in *;
    try (by exists out).
  - destruct Hp as [Hpred Hp]. cbn [denote] in Hd. destruct (denote input) as [rows0 | |] eqn:E; [| done..].
    cbn [mbind outcome_bind] in Hd. destruct (IH Hp rows0 eq_refl) as (rows1 & E1 & P1).
    destruct (filter_rows_perm _ _ _ _ P1 Hd) as (rows2 & E2 & P2).
    destruct (index_scan_rule_ok (LogicalPlan.Filter pred (optimize [index_scan_rule] input c)) rows2 Hc Hwf) as (rows3 & E3 & P3).
    + split; [done |]. by apply optimize_literals.
    + cbn [denote]. by rewrite E1.
    + exists rows3. split; [done | by etrans].
  - cbn [denote] in Hd. destruct (denote input) as [rows0 | |] eqn:E; [| done..].
    cbn [mbind outcome_bind] in Hd. destruct (IH Hp rows0 eq_refl) as (rows1 & E1 & P1).
    destruct (project_rows_perm _ _ _ P1 _ Hd) as (rows2 & E2 & P2). exists rows2. cbn [index_scan_rule denote]. by rewrite E1.
Qed.
End meaning.


(** [SELECT ... FROM users WHERE id >= 5], over two rows and an index on [id] *)
Definition sample_rows (t : TableId) : list Tuple :=
  if t =? 0 then [[Value.Integer 3; Value.Varchar (str "ann")]; [Value.Integer 7; Value.Varchar (str "bob")]] else [].
Definition sample_index_rows (i : IndexId) (t : TableId) (s e : option bytes) : list Tuple :=
  filter (fun row => key_within 0 s e row = true) (sample_rows t).
Definition sample_plan : LogicalPlan.t :=
  LogicalPlan.Filter (BoundExpr.BinaryOp (BoundExpr.ColumnRef 0 DataType.Integer) BinaryOperator.GtEq
    (BoundExpr.Literal (Value.Integer 5)) DataType.Boolean) (LogicalPlan.SeqScan 0).

Lemma sample_contract : index_scan_contract sample_rows sample_index_rows sample_catalog.
Proof.
  intros t column info s e H. enough (column = 0) as -> by (split; [done | apply sublist_submseteq, sublist_filter]). unfold index_for_column in H.
  destruct (indexes_by_table sample_catalog !! t) as [ids |] eqn:E; [| done]. cbn in H.
  apply find_map_Some in H as (id & Hid & Hf).
  assert (Hm : indexes_by_table sample_catalog = {[0 := [0]]}) by (vm_compute; reflexivity).
  rewrite Hm in E. apply lookup_singleton_Some in E as [_ <-]. apply list_elem_of_singleton in Hid as ->.
  cbn in Hf. rewrite lookup_insert_eq in Hf. cbn in Hf. rewrite lookup_insert_eq in Hf. cbn in Hf. destruct column; [reflexivity | discriminate Hf | discriminate Hf].
Qed.

