(* ===== verification/Page.v ===== *)
(** * Pages: crates/storage/src/page.rs, and the buffer pool as its clients see it

    The page layout shared by every page (checksum, page LSN), and the interface through which
    heaps and indexes use the buffer pool: guards on pages, logged writes through them, and
    allocation. [PageStore] has the operations, [PageStoreLaws] what their clients rely on,
    [triple] the form in which clients state what they do to the pages. *)
From S2P Require Import Prelude Text Value Common Errors.

Definition PAGE_SIZE : Z := 4096.

(** ** Checksum and page LSN *)
Definition checksum_of (b : bytes) : Z := crc32 (drop 4 b).
Definition stamp_checksum (b : bytes) : bytes := splice b 0 (to_le 4 (checksum_of b)).
Definition checksum_ok (b : bytes) : bool :=
  forallb (fun x => Z_of_byte x =? 0) b
  || match sub b 0 4 with Some c => from_le c =? checksum_of b | None => false end.

(** [Page::new] *)
Definition zero_page : bytes := replicate (Z.to_nat PAGE_SIZE) Byte.x00.

(** [u16::from_le_bytes([b[at], b[at + 1]])] and the like, at an offset inside the page *)
Definition u16_at (b : bytes) (at_ : Z) : Z := from_le (firstn 2 (skipn (Z.to_nat at_) b)).
Definition u32_at (b : bytes) (at_ : Z) : Z := from_le (firstn 4 (skipn (Z.to_nat at_) b)).
Definition u64_at (b : bytes) (at_ : Z) : Z := from_le (firstn 8 (skipn (Z.to_nat at_) b)).

Definition page_lsn (b : bytes) : Lsn := u64_at b 4.
Definition set_page_lsn (lsn : Lsn) (b : bytes) : bytes := splice b 4 (to_le 8 lsn).

(** ** The interface to the buffer pool *)
Inductive GuardMode : Type := ReadGuard | WriteGuard.

(** [PageReadGuard] and [PageWriteGuard]: the page, and the frame whose latch and pin it holds. *)
Record PageGuard : Type := mkGuard {
  guard_mode : GuardMode;
  guard_page_id : PageId;
  guard_frame_id : FrameId;
}.

(** [guard_page] is [guard.page().data()], [guard_write] is [PageWriteGuard::write], [drop_guard]
    is what dropping a guard runs. *)
Class PageStore (P : Type) : Type := {
  fetch_page : PageId -> M P Storage.Error PageGuard;
  fetch_page_read : PageId -> M P Storage.Error PageGuard;
  new_page : TxnId -> M P Storage.Error PageGuard;
  guard_page : PageGuard -> M P Storage.Error bytes;
  guard_write : TxnId -> PageGuard -> Z -> bytes -> M P Storage.Error unit;
  drop_guard : PageGuard -> M P Storage.Error unit;
}.

(** A block that owns a guard: the guard is dropped when the block is left, by [?] as well. *)
Definition with_guard {P A} `{!PageStore P} (g : PageGuard) (c : M P Storage.Error A) : M P Storage.Error A := fun s =>
  let '(r, s) := c s in
  let '(_, s) := drop_guard g s in (r, s).

(** The content of a page apart from its checksum, which is only stamped on the way to disk. *)
Definition clear_checksum (b : bytes) : bytes := replicate 4 Byte.x00 ++ skipn 4 b.

Arguments clear_checksum : simpl never.
Arguments stamp_checksum : simpl never.
Arguments page_lsn : simpl never.
Arguments set_page_lsn : simpl never.
Arguments zero_page : simpl never.

(** [store_ok n gs s]: the store is sound, [gs] are the live guards, and the log and the page ids
    have room for [n] more records and pages. *)
Class PageStoreLaws (P : Type) `{!PageStore P} : Type := {
  pages : P -> gmap PageId bytes;
  store_ok : nat -> list PageGuard -> P -> Prop;
  store_ok_le n n' gs s : store_ok n gs s -> (n' <= n)%nat -> store_ok n' gs s;
  store_ok_perm n gs gs' s : gs ≡ₚ gs' -> store_ok n gs s -> store_ok n gs' s;
  page_size n gs s p b : store_ok n gs s -> pages s !! p = Some b -> len b = PAGE_SIZE;
  page_id_range n gs s p b : store_ok n gs s -> pages s !! p = Some b -> 0 <= p < u32_max;
  fetch_spec mode n gs s p : store_ok n gs s -> p ∉ guard_page_id <$> gs ->
    match match mode with ReadGuard => fetch_page_read p s | WriteGuard => fetch_page p s end with
    | (Ok g, s') => guard_page_id g = p /\ guard_mode g = mode
        /\ store_ok n (g :: gs) s' /\ pages s' = pages s
    | (Err _, s') => store_ok n gs s' /\ pages s' = pages s
    | (Panic, _) => False
    end;
  guard_page_spec n gs s g : store_ok n gs s -> g ∈ gs ->
    exists b, guard_page g s = (Ok b, s) /\ pages s !! guard_page_id g = Some (clear_checksum b);
  write_spec n gs s t g b off new : store_ok (S n) gs s -> g ∈ gs -> guard_mode g = WriteGuard ->
    pages s !! guard_page_id g = Some b -> 12 <= off -> off + len new <= PAGE_SIZE ->
    match guard_write t g off new s with
    | (Ok _, s') => store_ok n gs s' /\ exists lsn,
        pages s' = <[guard_page_id g := set_page_lsn lsn (splice b off new)]> (pages s)
    | (Err _, s') => store_ok n gs s' /\ pages s' = pages s
    | (Panic, _) => False
    end;
  new_page_spec n gs s t : store_ok (S n) gs s ->
    match new_page t s with
    | (Ok g, s') => guard_mode g = WriteGuard /\ 0 < guard_page_id g < 2 ^ 32
        /\ pages s !! guard_page_id g = None /\ pages s' !! guard_page_id g = Some zero_page
        /\ pages s ⊆ pages s' /\ store_ok n (g :: gs) s'
    | (Err _, s') => store_ok n gs s' /\ pages s ⊆ pages s'
    | (Panic, _) => False
    end;
  drop_spec n gs s g : store_ok n (g :: gs) s ->
    exists s', drop_guard g s = (Ok tt, s') /\ store_ok n gs s' /\ pages s' = pages s;
}.

(** ** What a client does to the pages

    [triple n gs m c n' gs' Q gsE R]: run with the guards [gs] live and the pages [m], [c] does not
    panic; when it returns [a] the guards [gs' a] are live and the pages satisfy [Q a], when it fails
    the guards [gsE] are live and the pages satisfy [R]. It logs at most [n - n'] records. *)
Section triples.
Context {P : Type} `{!PageStore P, !PageStoreLaws P}.
Abbreviation E := Storage.Error.
Implicit Types (m : gmap PageId bytes).

Definition stored (n : nat) (gs : list PageGuard) (s : P) m : Prop := store_ok n gs s /\ pages s = m.

Definition triple {A} (n : nat) (gs : list PageGuard) m (c : M P E A) (n' : nat) (gs' : A -> list PageGuard)
    (Q : A -> gmap PageId bytes -> Prop) (gsE : list PageGuard) (R : gmap PageId bytes -> Prop) : Prop :=
  forall s, stored n gs s m ->
  match c s with
  | (Ok a, s') => exists m', stored n' (gs' a) s' m' /\ Q a m'
  | (Err _, s') => exists m', stored n' gsE s' m' /\ R m'
  | (Panic, _) => False
  end.

(** The common case: the guards are the same before and after. *)
Definition keeps {A} n gs m (c : M P E A) n' (Q : A -> gmap PageId bytes -> Prop) R : Prop :=
  triple n gs m c n' (fun _ => gs) Q gs R.

Lemma stored_le n n' gs s m : stored n gs s m -> (n' <= n)%nat -> stored n' gs s m.
Proof. intros [H1 H2] Hn. split; [by eapply store_ok_le | done]. Qed.

Lemma triple_bind {A B} n gs m (c : M P E A) (k : A -> M P E B) n1 gs1 Q1 n2 gs2 Q2 gsE R :
  triple n gs m c n1 gs1 Q1 gsE R -> (n2 <= n1)%nat ->
  (forall a m1, Q1 a m1 -> triple n1 (gs1 a) m1 (k a) n2 gs2 Q2 gsE R) ->
  triple n gs m (c ≫= k) n2 gs2 Q2 gsE R.
Proof.
  intros Hc Hn Hk s Hs. unfold mbind, M_bind. specialize (Hc s Hs).
  destruct (c s) as [[a | e |] s1]; [| | done].
  - destruct Hc as (m1 & Hs1 & HQ). by apply (Hk a m1 HQ s1).
  - destruct Hc as (m1 & Hs1 & HR). exists m1. split; [by eapply stored_le | done].
Qed.

Lemma triple_mono {A} n gs m (c : M P E A) n' gs' (Q Q' : A -> _ -> Prop) gsE (R R' : _ -> Prop) :
  triple n gs m c n' gs' Q gsE R -> (forall a m', Q a m' -> Q' a m') -> (forall m', R m' -> R' m') ->
  triple n gs m c n' gs' Q' gsE R'.
Proof.
  intros Hc HQ HR s Hs. specialize (Hc s Hs). destruct (c s) as [[a | e |] s']; naive_solver.
Qed.

(** Credits that are not used. *)
Lemma triple_credits {A} n n0 gs m (c : M P E A) n' n1 gs' Q gsE R :
  triple n gs m c n' gs' Q gsE R -> (n <= n0)%nat -> (n1 <= n')%nat -> triple n0 gs m c n1 gs' Q gsE R.
Proof.
  intros Hc H1 H2 s Hs. specialize (Hc s (stored_le _ _ _ _ _ Hs H1)). destruct (c s) as [[a | e |] s']; [| | done];
    destruct Hc as (m' & Hs' & ?); exists m'; (split; [by eapply stored_le | done]).
Qed.

Lemma triple_ret {A} n gs m (a : A) n' (gs' : A -> _) (Q : A -> _ -> Prop) gsE R :
  (n' <= n)%nat -> gs' a = gs -> Q a m -> triple n gs m (mret a) n' gs' Q gsE R.
Proof. intros Hn Hg HQ s Hs. cbn. exists m. rewrite Hg. split; [by eapply stored_le | done]. Qed.

Lemma triple_throw {A} n gs m e n' (gs' : A -> _) Q R :
  (n' <= n)%nat -> R m -> triple n gs m (throw e) n' gs' Q gs R.
Proof. intros Hn HR s Hs. cbn. exists m. split; [by eapply stored_le | done]. Qed.

Lemma triple_lift {A} n gs m (o : outcome E A) n' (gs' : A -> _) (Q : A -> _ -> Prop) (R : _ -> Prop) :
  (n' <= n)%nat -> match o with Ok a => gs' a = gs /\ Q a m | Err _ => R m | Panic => False end ->
  triple n gs m (lift o) n' gs' Q gs R.
Proof.
  intros Hn Ho s Hs. unfold lift. destruct o as [a | e |]; [destruct Ho as [-> ?] | | done];
    exists m; (split; [by eapply stored_le | done]).
Qed.

(** Fetching a page for the length of a block. *)
Definition fetch_in (mode : GuardMode) (p : PageId) : M P E PageGuard :=
  match mode with ReadGuard => fetch_page_read p | WriteGuard => fetch_page p end.

Lemma triple_fetch mode n gs m p :
  p ∉ guard_page_id <$> gs ->
  triple n gs m (fetch_in mode p) n (fun g => g :: gs)
    (fun g m' => m' = m /\ guard_page_id g = p /\ guard_mode g = mode) gs (fun m' => m' = m).
Proof.
  intros Hp s [Hs <-]. pose proof (fetch_spec mode n gs s p Hs Hp) as H. unfold fetch_in.
  destruct mode; [destruct (fetch_page_read p s) as [[g | e |] s'] | destruct (fetch_page p s) as [[g | e |] s']];
    (done || (exists (pages s); unfold stored; naive_solver)).
Qed.

Lemma triple_with_guard {A} n gs m g (c : M P E A) n' Q R :
  keeps n (g :: gs) m c n' Q R -> triple n (g :: gs) m (with_guard g c) n' (fun _ => gs) Q gs R.
Proof.
  intros Hc s Hs. specialize (Hc s Hs). unfold with_guard. destruct (c s) as [[a | e |] s1]; [| | done];
    destruct Hc as (m' & [Hs1 <-] & ?); destruct (drop_spec n' gs s1 g Hs1) as (s2 & -> & Hs2 & Hm);
    exists (pages s1); done.
Qed.

Lemma keeps_guarded {A} mode n gs m p (body : PageGuard -> M P E A) n' Q R :
  p ∉ guard_page_id <$> gs -> (n' <= n)%nat -> R m ->
  (forall g, guard_page_id g = p -> guard_mode g = mode -> keeps n (g :: gs) m (body g) n' Q R) ->
  keeps n gs m (g ← fetch_in mode p; with_guard g (body g)) n' Q R.
Proof.
  intros Hp Hn HR Hb. eapply triple_bind; [| exact Hn |].
  - eapply triple_mono; [by apply triple_fetch | intros g m' H; exact H | by intros m' ->].
  - intros g m1 (-> & Hg1 & Hg2). cbn. by apply triple_with_guard, Hb.
Qed.

Lemma keeps_guard_page n gs m g :
  g ∈ gs -> keeps n gs m (guard_page g) n
    (fun b m' => m' = m /\ m !! guard_page_id g = Some (clear_checksum b)) (fun _ => False).
Proof.
  intros Hg s [Hs <-]. destruct (guard_page_spec n gs s g Hs Hg) as (b & -> & Hb). by exists (pages s).
Qed.

Lemma keeps_write n gs m t g b off new :
  g ∈ gs -> guard_mode g = WriteGuard -> m !! guard_page_id g = Some b -> 12 <= off ->
  off + len new <= PAGE_SIZE ->
  keeps (S n) gs m (guard_write t g off new) n
    (fun _ m' => exists lsn, m' = <[guard_page_id g := set_page_lsn lsn (splice b off new)]> m) (fun m' => m' = m).
Proof.
  intros Hg Hw Hb Ho Hl s [Hs <-]. pose proof (write_spec n gs s t g b off new Hs Hg Hw Hb Ho Hl) as H.
  destruct (guard_write t g off new s) as [[[] | e |] s']; [| | done]; exists (pages s'); unfold stored; naive_solver.
Qed.

Lemma triple_new_page n gs m t :
  triple (S n) gs m (new_page t) n (fun g => g :: gs)
    (fun g m' => guard_mode g = WriteGuard /\ 0 < guard_page_id g < 2 ^ 32 /\ m !! guard_page_id g = None
       /\ m' !! guard_page_id g = Some zero_page /\ m ⊆ m') gs (fun m' => m ⊆ m').
Proof.
  intros s [Hs <-]. pose proof (new_page_spec n gs s t Hs) as H.
  destruct (new_page t s) as [[g | e |] s']; [| | done]; exists (pages s'); unfold stored; naive_solver.
Qed.
End triples.

(** ** What a change leaves alone *)

(** The pages that were there, but for some, are as they were. *)
Definition same_outside (ps : list PageId) (m m' : gmap PageId bytes) : Prop :=
  forall q b, m !! q = Some b -> q ∉ ps -> m' !! q = Some b.

Lemma same_outside_refl ps m : same_outside ps m m.
Proof. by intros q b. Qed.
Lemma same_outside_trans ps m m' m'' : same_outside ps m m' -> same_outside ps m' m'' -> same_outside ps m m''.
Proof. intros H1 H2 q b Hq Hn. by apply H2, Hn; apply H1. Qed.
Lemma same_outside_mono ps ps' m m' : same_outside ps m m' -> ps ⊆ ps' -> same_outside ps' m m'.
Proof. intros H Hs q b Hq Hn. apply H; [done |]. set_solver. Qed.
(** Pages that were there already, among some, or are new. *)
Definition fresh_or (m : gmap PageId bytes) (old new : list PageId) : Prop := forall q, q ∈ new -> q ∈ old \/ m !! q = None.
Lemma fresh_or_refl m ps : fresh_or m ps ps.
Proof. intros q Hq. by left. Qed.
Lemma fresh_or_later ps m m' old new : same_outside ps m m' -> ps ⊆ old -> fresh_or m' old new -> fresh_or m old new.
Proof.
  intros Hs Hp Hn q Hq. destruct (Hn q Hq) as [H | H]; [by left |]. destruct (m !! q) as [b |] eqn:E; [| by right].
  left. apply Hp. destruct (decide (q ∈ ps)) as [| Hout]; [done |]. rewrite (Hs q b E Hout) in H. done.
Qed.

(** ** Reading and writing inside a page *)
Lemma sub_page b at_ n s : sub b at_ n = Some s ->
  from_le (firstn (Z.to_nat n) (skipn (Z.to_nat at_) b)) = from_le s.
Proof. intros H. apply sub_Some in H as (_ & _ & _ & ->). done. Qed.

Lemma u16_at_sub b at_ s : sub b at_ 2 = Some s -> u16_at b at_ = from_le s.
Proof. apply sub_page. Qed.
Lemma u32_at_sub b at_ s : sub b at_ 4 = Some s -> u32_at b at_ = from_le s.
Proof. apply sub_page. Qed.

Lemma len_set_page_lsn lsn b : len b = PAGE_SIZE -> len (set_page_lsn lsn b) = PAGE_SIZE.
Proof. intros H. unfold set_page_lsn. rewrite len_splice; [done | lia |]. rewrite len_to_le, H. unfold PAGE_SIZE. lia. Qed.

Lemma sub_set_page_lsn lsn b off n :
  len b = PAGE_SIZE -> 12 <= off -> sub (set_page_lsn lsn b) off n = sub b off n.
Proof.
  intros Hl Ho. unfold set_page_lsn. apply sub_splice_ne; [lia | rewrite len_to_le, Hl; unfold PAGE_SIZE; lia |].
  rewrite len_to_le. lia.
Qed.

(** What is at or after offset 4 does not depend on the checksum. *)
Lemma len_clear_checksum b : len b = PAGE_SIZE -> len (clear_checksum b) = PAGE_SIZE.
Proof. unfold clear_checksum, len, PAGE_SIZE. rewrite length_app, length_replicate, length_drop. lia. Qed.
Lemma len_clear_checksum_inv b : len (clear_checksum b) = PAGE_SIZE -> len b = PAGE_SIZE.
Proof. unfold clear_checksum, len, PAGE_SIZE. rewrite length_app, length_replicate, length_drop. lia. Qed.
Lemma sub_clear_checksum b off n :
  len b = PAGE_SIZE -> 4 <= off -> sub (clear_checksum b) off n = sub b off n.
Proof.
  intros Hl Ho. apply sub_ext; [by rewrite len_clear_checksum |]. intros i Hi. unfold clear_checksum.
  rewrite lookup_app_r by (rewrite length_replicate; lia). rewrite length_replicate, lookup_drop. f_equal. lia.
Qed.
Lemma page_lsn_clear b : page_lsn (clear_checksum b) = page_lsn b.
Proof.
  unfold page_lsn, u64_at, clear_checksum. change (Z.to_nat 4) with 4%nat.
  by rewrite (drop_app_length' (replicate 4 Byte.x00) (drop 4 b) 4).
Qed.
