(* ===== verification/Header.v ===== *)
(** * The header page: crates/storage/src/buffer.rs

    What page 0 keeps for the catalog and for recovery, read and written through guards. *)
From S2P Require Import Prelude Text Value Common Errors Page.

Section header.
Context {P : Type} `{!PageStore P}.
Abbreviation MP := (M P Storage.Error).

(** The page ids and the LSN kept in the header page. *)
Definition header_u32 (at_ : Z) : MP (option PageId) :=
  g ← fetch_page_read 0;
  with_guard g (b ← guard_page g; let raw := u32_at b at_ in mret (if raw =? u32_max then None else Some raw)).
Definition catalog_first_page : MP (option PageId) := header_u32 24.
Definition index_catalog_first_page : MP (option PageId) := header_u32 40.
Definition last_checkpoint_lsn : MP (option Lsn) :=
  g ← fetch_page_read 0;
  with_guard g (b ← guard_page g; let raw := u64_at b 32 in mret (if raw =? 0 then None else Some raw)).

Definition set_header (t : TxnId) (at_ : Z) (new : bytes) : MP unit :=
  g ← fetch_page 0; with_guard g (guard_write t g at_ new).
Definition set_catalog_first_page (t : TxnId) (p : PageId) : MP unit := set_header t 24 (to_le 4 p).
Definition set_index_catalog_first_page (t : TxnId) (p : PageId) : MP unit := set_header t 40 (to_le 4 p).
Definition set_last_checkpoint_lsn (t : TxnId) (lsn : Lsn) : MP unit := set_header t 32 (to_le 8 lsn).
End header.
