(* ===== verification/Slots.v ===== *)
(** * Slotted pages

    Heap pages and index nodes keep their entries the same way: a header, a slot array growing up
    from it, entry bytes growing down from the end of the page. [slot_array b h lo slots] says that
    the slots of page [b], after a header of [h] bytes, are [slots] (pairs of an offset and a
    length) and that all entry bytes lie at or above [lo]. *)
From S2P Require Import Prelude Text Value Common Errors Page.

Definition SLOT_SIZE : Z := 4.

Definition slot_bytes (s : Z * Z) : bytes := to_le 2 s.1 ++ to_le 2 s.2.

Definition in_data (lo : Z) (s : Z * Z) : Prop := lo <= s.1 /\ 0 <= s.2 /\ s.1 + s.2 <= PAGE_SIZE.

Record slot_array (b : bytes) (h lo : Z) (slots : list (Z * Z)) : Prop := {
  slots_page : len b = PAGE_SIZE;
  slots_header : 12 <= h;
  slots_room : h + SLOT_SIZE * len slots <= lo <= PAGE_SIZE;
  slots_in_data : Forall (in_data lo) slots;
  slots_stored : forall i s, slots !! i = Some s -> sub b (h + SLOT_SIZE * Z.of_nat i) SLOT_SIZE = Some (slot_bytes s);
}.

(** The bytes a slot points at. *)
Definition slot_content (b : bytes) (s : Z * Z) : bytes := default [] (sub b s.1 s.2).

Section slot_arrays.
Context {b : bytes} {h lo : Z} {slots : list (Z * Z)}.
Implicit Types (s : Z * Z) (i : nat).

Lemma slot_lookup_range i s : slot_array b h lo slots -> slots !! i = Some s -> in_data lo s.
Proof. intros H Hi. eapply Forall_lookup_1; [by apply (slots_in_data _ _ _ _ H) | done]. Qed.

Lemma slot_index_lt i s : slots !! i = Some s -> Z.of_nat i < len slots.
Proof. intros Hi%lookup_lt_Some. unfold len. lia. Qed.

Lemma slot_content_sub i s :
  slot_array b h lo slots -> slots !! i = Some s -> sub b s.1 s.2 = Some (slot_content b s).
Proof.
  intros H Hi. destruct (slot_lookup_range i s H Hi) as (H1 & H2 & H3).
  pose proof (slots_room _ _ _ _ H). pose proof (slots_header _ _ _ _ H). pose proof (len_nonneg slots).
  unfold slot_content. destruct (sub b s.1 s.2) eqn:E; [done |].
  apply sub_None in E; unfold SLOT_SIZE in *; [| lia..]. rewrite (slots_page _ _ _ _ H) in E. lia.
Qed.

(** What the code reads of slot [i]: the two halves of its four bytes. *)
Lemma slot_read i s :
  slot_array b h lo slots -> slots !! i = Some s ->
  u16_at b (h + SLOT_SIZE * Z.of_nat i) = s.1 /\ u16_at b (h + SLOT_SIZE * Z.of_nat i + 2) = s.2.
Proof.
  intros H Hi. destruct (slot_lookup_range i s H Hi) as (H1 & H2 & H3).
  pose proof (slots_room _ _ _ _ H). pose proof (slots_header _ _ _ _ H). pose proof (len_nonneg slots).
  unfold SLOT_SIZE, PAGE_SIZE in *.
  pose proof (slots_stored _ _ _ _ H i s Hi) as Hs. unfold SLOT_SIZE, slot_bytes in Hs.
  assert (Hu : forall z, 0 <= z <= 4096 -> in_u (8 * Z.of_nat 2) z) by (intros; unfold in_u; simpl; lia).
  apply sub_Some in Hs as (Ho & _ & Hl & Hs).
  assert (Hd : forall k n, (k + n <= 4)%nat ->
    firstn n (skipn (Z.to_nat (h + 4 * Z.of_nat i + Z.of_nat k)) b)
    = firstn n (skipn k (firstn 4 (skipn (Z.to_nat (h + 4 * Z.of_nat i)) b)))).
  { intros k n Hkn. rewrite skipn_firstn_comm, firstn_firstn, skipn_skipn.
    replace (Nat.min n (4 - k)) with n by lia. do 2 f_equal. lia. }
  change (Z.to_nat 4) with 4%nat in Hs.
  unfold u16_at. split.
  - specialize (Hd 0%nat 2%nat ltac:(lia)). rewrite Z.add_0_r in Hd. rewrite Hd, <- Hs.
    change (skipn 0 ?l) with l. rewrite take_app_le by (rewrite length_to_le; lia).
    rewrite firstn_all2 by (rewrite length_to_le; lia). apply from_le_to_le_id, Hu. lia.
  - specialize (Hd 2%nat 2%nat ltac:(lia)). change (Z.of_nat 2) with 2 in Hd. rewrite Hd, <- Hs.
    rewrite (drop_app_length' _ _ 2) by (by rewrite length_to_le). rewrite firstn_all2 by (rewrite length_to_le; lia).
    apply from_le_to_le_id, Hu. lia.
Qed.

(** A write that stays clear of the slot array leaves it as it was. *)
Lemma slot_array_frame off new :
  slot_array b h lo slots -> 0 <= off -> off + len new <= PAGE_SIZE ->
  (off + len new <= h \/ h + SLOT_SIZE * len slots <= off) ->
  slot_array (splice b off new) h lo slots.
Proof.
  intros H Ho Hn Hh. destruct H as [Hp Hhd Hr Hd Hs]. split; try done.
  - rewrite len_splice; [done | done | by rewrite Hp].
  - intros i s Hi. rewrite sub_splice_ne; [by apply Hs | done | by rewrite Hp |].
    pose proof (slot_index_lt i s Hi). unfold SLOT_SIZE in *. lia.
Qed.
(** A write below the data area leaves the contents of the slots as they were. *)
Lemma slot_content_frame off new s :
  slot_array b h lo slots -> in_data lo s -> 0 <= off -> off + len new <= lo ->
  slot_content (splice b off new) s = slot_content b s.
Proof.
  intros H (H1 & H2 & H3) Ho Hn. unfold slot_content.
  rewrite sub_splice_ne; [done | done | | lia].
  pose proof (slots_room _ _ _ _ H). rewrite (slots_page _ _ _ _ H). lia.
Qed.

(** Storing one more slot at position [i] and shifting the later ones up by one. *)
Lemma slot_array_insert i s shifted :
  slot_array b h lo slots -> (i <= length slots)%nat ->
  h + SLOT_SIZE * (len slots + 1) <= s.1 -> s.1 <= lo -> 0 <= s.2 -> s.1 + s.2 <= PAGE_SIZE ->
  sub b (h + SLOT_SIZE * Z.of_nat i) (SLOT_SIZE * (len slots - Z.of_nat i)) = Some shifted ->
  slot_array (splice (splice b (h + SLOT_SIZE * (Z.of_nat i + 1)) shifted)
                     (h + SLOT_SIZE * Z.of_nat i) (slot_bytes s))
             h s.1 (firstn i slots ++ s :: skipn i slots).
Proof.
  intros H Hi Hroom Hlo Hs2 Hend Hsh. destruct H as [Hp Hhd Hr Hd Hst].
  pose proof (sub_len _ _ _ _ Hsh) as Hlsh. pose proof (len_nonneg slots) as Hn.
  assert (Hin : Z.of_nat i <= len slots) by (unfold len; lia).
  assert (Hsb : len (slot_bytes s) = 4) by (unfold slot_bytes; by autorewrite with len).
  unfold SLOT_SIZE in *.
  assert (Hp1 : len (splice b (h + 4 * (Z.of_nat i + 1)) shifted) = PAGE_SIZE)
    by (rewrite len_splice; [done | lia | rewrite Hp, Hlsh; lia]).
  split.
  - rewrite len_splice; [done | lia | rewrite Hp1, Hsb; lia].
  - done.
  - unfold SLOT_SIZE. rewrite len_app, len_cons.
    replace (len (firstn i slots)) with (Z.of_nat i) by (unfold len; rewrite length_take; lia).
    replace (len (skipn i slots)) with (len slots - Z.of_nat i) by (unfold len; rewrite length_drop; lia).
    lia.
  - assert (Hd' : Forall (in_data s.1) slots).
    { eapply Forall_impl; [exact Hd |]. intros [? ?] (? & ? & ?). unfold in_data in *. simpl in *. lia. }
    apply Forall_app. split; [by apply Forall_take |]. constructor; [| by apply Forall_drop].
    unfold in_data. lia.
  - intros j x Hj. unfold SLOT_SIZE. destruct (Nat.lt_trichotomy j i) as [Hlt | [-> | Hgt]].
    + rewrite lookup_app_l in Hj by (rewrite length_take; lia).
      rewrite lookup_take_lt in Hj by lia.
      rewrite !sub_splice_ne; [by apply Hst | lia | rewrite Hp, Hlsh; lia | lia | lia
        | rewrite Hp1, Hsb; lia | rewrite Hsb; lia].
    + rewrite lookup_app_r in Hj by (rewrite length_take; lia).
      rewrite length_take, Nat.min_l, Nat.sub_diag in Hj by lia. injection Hj as <-.
      rewrite <- Hsb at 2. apply sub_splice_eq; [lia | rewrite Hp1, Hsb; lia].
    + rewrite lookup_app_r in Hj by (rewrite length_take; lia). rewrite length_take, Nat.min_l in Hj by lia.
      replace (j - i)%nat with (S (j - i - 1)) in Hj by lia. cbn [lookup list_lookup] in Hj.
      change (skipn i slots !! (j - i - 1)%nat = Some x) in Hj. rewrite lookup_drop in Hj.
      replace (i + (j - i - 1))%nat with (j - 1)%nat in Hj by lia.
      pose proof (slot_index_lt _ _ Hj) as Hjl. pose proof (Hst _ _ Hj) as Hx. unfold SLOT_SIZE in Hx.
      rewrite sub_splice_ne; [| lia | rewrite Hp1, Hsb; lia | rewrite Hsb; lia].
      replace (h + 4 * Z.of_nat j) with (h + 4 * (Z.of_nat i + 1) + 4 * (Z.of_nat j - Z.of_nat i - 1)) by lia.
      rewrite sub_splice_in; [| lia | rewrite Hp, Hlsh; lia | lia | rewrite Hlsh; lia].
      rewrite (sub_sub _ _ _ _ _ _ Hsh) by lia. rewrite <- Hx. f_equal. lia.
Qed.
End slot_arrays.
