(* ===== verification/Heap.v ===== *)
(** * Heap files: crates/storage/src/heap.rs

    A table's rows live in a chain of slotted pages: the page layout, [SlottedPage], [TableHeap] and
    [TableIter]. HeapPage.v says what a page holds, HeapSpec.v what the operations do. *)
From S2P Require Import Prelude Text Value Common Errors Page Slots.

Definition NO_NEXT_PAGE : PageId := 0.
Definition HEADER_SIZE : Z := 20.
Definition MAX_SLOTS : Z := (PAGE_SIZE - HEADER_SIZE) / SLOT_SIZE.
Definition MAX_TUPLE_SIZE : Z := PAGE_SIZE - HEADER_SIZE - SLOT_SIZE.

(** ** One page *)
Definition slot_offset (slot : Z) : Z := HEADER_SIZE + slot * SLOT_SIZE.
Definition slotted_slot_count (b : bytes) : Z := u16_at b 12.
Definition slotted_data_used (b : bytes) : Z := u16_at b 14.
Definition slotted_data_start (b : bytes) : Z := saturating_sub PAGE_SIZE (slotted_data_used b).
Definition slotted_next_page_id (b : bytes) : PageId := u32_at b 16.

Definition checked_slot_count (b : bytes) (page_id : PageId) : outcome Storage.Error Z :=
  let count := slotted_slot_count b in
  if MAX_SLOTS <? count
  then Err (Storage.CorruptPage page_id
              (str "slot count " ++ fmt_u count ++ str " exceeds the " ++ fmt_u MAX_SLOTS
               ++ str " slots a " ++ fmt_u PAGE_SIZE ++ str "-byte page can hold"))
  else Ok count.

Definition slotted_slot_entry (b : bytes) (slot : Z) (page_id : PageId)
    : outcome Storage.Error (option (Z * Z)) :=
  count ← checked_slot_count b page_id;
  if count <=? slot then Ok None
  else let at_ := slot_offset slot in Ok (Some (u16_at b at_, u16_at b (at_ + 2))).

Definition slotted_read (b : bytes) (slot : Z) (page_id : PageId)
    : outcome Storage.Error (option bytes) :=
  entry ← slotted_slot_entry b slot page_id;
  match entry with
  | None => Ok None
  | Some (offset, ln) =>
      if ln =? 0 then Ok None else
      count ← checked_slot_count b page_id;
      let slots_end := slot_offset count in
      let start := offset in
      let end_ := start + ln in
      if start <? slots_end
      then Err (Storage.CorruptPage page_id
                  (str "slot " ++ fmt_u slot ++ str "'s tuple at offset " ++ fmt_u start
                   ++ str " overlaps the " ++ fmt_u slots_end ++ str "-byte slot array"))
      else
        data ← ok_or (sub b start ln)
                 (Storage.CorruptPage page_id
                    (str "slot " ++ fmt_u slot ++ str "'s tuple range " ++ fmt_u start ++ str ".."
                     ++ fmt_u end_ ++ str " runs past the " ++ fmt_u (len b) ++ str "-byte page"));
        Ok (Some data)
  end.

Definition slotted_free_space (b : bytes) : Z :=
  let slots_end := HEADER_SIZE + slotted_slot_count b * SLOT_SIZE in
  saturating_sub (slotted_data_start b) slots_end.

Definition next_page_id (b : bytes) : option PageId :=
  let id := slotted_next_page_id b in
  if id =? NO_NEXT_PAGE then None else Some id.

Inductive PageScan : Type :=
| ScanTuple (slot : Z) (data : bytes)
| EndOfPage (next_page_id : option PageId).

(** The loop of [scan_page] over the slots [from_slot .. from_slot + n]. *)
Fixpoint scan_slots (b : bytes) (page_id : PageId) (slot : Z) (n : nat) : outcome Storage.Error PageScan :=
  match n with
  | O => Ok (EndOfPage (next_page_id b))
  | S n =>
      r ← slotted_read b slot page_id;
      match r with
      | Some data => Ok (ScanTuple slot data)
      | None => scan_slots b page_id (slot + 1) n
      end
  end.

(** The loop of [TableIter::next] over the slots of one page: the entries pushed to [buffered], and
    the error that stopped it. *)
Fixpoint buffer_slots (b : bytes) (page_id : PageId) (slot : Z) (n : nat)
    : list (Rid * bytes) * option Storage.Error :=
  match n with
  | O => ([], None)
  | S n =>
      match slotted_read b slot page_id with
      | Ok (Some data) =>
          let '(rest, e) := buffer_slots b page_id (slot + 1) n in ((mkRid page_id slot, data) :: rest, e)
      | Ok None => buffer_slots b page_id (slot + 1) n
      | Err e => ([], Some e)
      | Panic => ([], None)
      end
  end.

Section heap.
Context {P : Type} `{!PageStore P}.
Abbreviation MP := (M P Storage.Error).

(** [SlottedPage::init], [set_next_page_id], [insert], [delete], [update_in_place]. [x as u16] is
    the truncation [to_le 2] makes. *)
Definition slotted_init (t : TxnId) (g : PageGuard) : MP unit :=
  guard_write t g 12 (replicate 8 Byte.x00).

Definition set_next_page_id (t : TxnId) (g : PageGuard) (next : PageId) : MP unit :=
  guard_write t g 16 (to_le 4 next).

Definition slotted_insert (t : TxnId) (g : PageGuard) (data : bytes) : MP (option Z) :=
  b ← guard_page g;
  let slot_count := slotted_slot_count b in
  let new_slots_end := HEADER_SIZE + (slot_count + 1) * SLOT_SIZE in
  let space_end := slotted_data_start b in
  if space_end <? new_slots_end + len data then mret None else
  let data_start := space_end - len data in
  _ ← guard_write t g data_start data;
  _ ← guard_write t g (slot_offset slot_count) (to_le 2 data_start ++ to_le 2 (len data));
  _ ← guard_write t g 12 (to_le 2 (slot_count + 1) ++ to_le 2 (PAGE_SIZE - data_start));
  mret (Some slot_count).

Definition slotted_delete (t : TxnId) (g : PageGuard) (slot : Z) : MP unit :=
  b ← guard_page g;
  entry ← lift (slotted_slot_entry b slot (guard_page_id g));
  match entry with
  | Some _ => guard_write t g (slot_offset slot + 2) (to_le 2 0)
  | None => mret tt
  end.

Definition update_in_place (t : TxnId) (g : PageGuard) (slot offset : Z) (new : bytes) : MP unit :=
  let p := guard_page_id g in
  b ← guard_page g;
  entry ← lift (slotted_slot_entry b slot p);
  match entry with
  | None => throw (Storage.CorruptPage p (str "slot " ++ fmt_u slot ++ str " does not exist"))
  | Some (tuple_start, tuple_len) =>
      if tuple_len =? 0
      then throw (Storage.CorruptPage p (str "slot " ++ fmt_u slot ++ str " is deleted"))
      else if tuple_len <? offset + len new
      then throw (Storage.InPlaceUpdateOutOfBounds p slot tuple_len offset (len new))
      else guard_write t g (tuple_start + offset) new
  end.

(** ** [TableHeap] *)
(** the new heap's first page *)
Definition heap_create (t : TxnId) : MP PageId :=
  g ← new_page t;
  _ ← with_guard g (slotted_init t g);
  mret (guard_page_id g).

Definition append_page_after (t : TxnId) (after : PageId) : MP PageId :=
  new_guard ← new_page t;
  _ ← with_guard new_guard (slotted_init t new_guard);
  link_guard ← fetch_page after;
  _ ← with_guard link_guard (set_next_page_id t link_guard (guard_page_id new_guard));
  mret (guard_page_id new_guard).

(** What one turn of the loop of [insert_tuple_with] does under the guard of the current page: the
    slot the tuple went to, or the next page. *)
Definition insert_here (t : TxnId) (data : bytes) (g : PageGuard) : MP (Z + option PageId) :=
  inserted ← slotted_insert t g data;
  match inserted with
  | Some slot => mret (inl slot)
  | None => b ← guard_page g; mret (inr (next_page_id b))
  end.

(** The loop; the caller's [on_insert] runs when it succeeds. *)
Fixpoint insert_loop (fuel : nat) (t : TxnId) (data : bytes) (current : PageId) : MP Rid :=
  match fuel with
  | O => lift Panic
  | S fuel =>
      g ← fetch_page current;
      r ← with_guard g (insert_here t data g);
      match r with
      | inl slot => mret (mkRid current slot)
      | inr (Some next) => insert_loop fuel t data next
      | inr None => next ← append_page_after t current; insert_loop fuel t data next
      end
  end.

Definition insert_tuple (fuel : nat) (t : TxnId) (first_page_id : PageId) (data : bytes) : MP Rid :=
  if MAX_TUPLE_SIZE <? len data then throw (Storage.TupleTooLarge (len data) MAX_TUPLE_SIZE)
  else insert_loop fuel t data first_page_id.

(** A read guard for the length of one computation on the page. *)
Definition read_page {A} (p : PageId) (f : bytes -> outcome Storage.Error A) : MP A :=
  g ← fetch_page_read p;
  with_guard g (b ← guard_page g; lift (f b)).

Definition get_tuple (rid : Rid) : MP (option bytes) :=
  read_page (page_id rid) (fun b => slotted_read b (slot rid) (page_id rid)).

Definition delete_tuple (t : TxnId) (rid : Rid) : MP unit :=
  g ← fetch_page (page_id rid);
  with_guard g (slotted_delete t g (slot rid)).

Definition update_tuple_in_place (t : TxnId) (rid : Rid) (offset : Z) (new : bytes) : MP unit :=
  g ← fetch_page (page_id rid);
  with_guard g (update_in_place t g (slot rid) offset new).

Definition scan_page (p : PageId) (from_slot : Z) : MP PageScan :=
  read_page p (fun b =>
    count ← checked_slot_count b p;
    scan_slots b p from_slot (Z.to_nat (count - from_slot))).

(** [TableIter] *)
Record TableIter : Type := mkTableIter {
  current_page : option PageId;
  buffered : list (Rid * bytes);
}.
Definition heap_iter (first_page_id : PageId) : TableIter := mkTableIter (Some first_page_id) [].

(** What [TableIter::next] takes from a page: the entries, the error that stopped it, the next page. *)
Definition page_entries (p : PageId) (b : bytes)
    : outcome Storage.Error (list (Rid * bytes) * option Storage.Error * option PageId) :=
  count ← checked_slot_count b p;
  let '(entries, e) := buffer_slots b p 0 (Z.to_nat count) in
  Ok (entries, e, next_page_id b).

(** [TableIter::next]: the item, if any, and the iterator after it. *)
Fixpoint iter_next (fuel : nat) (it : TableIter) (s : P)
    : option (outcome Storage.Error (Rid * bytes)) * TableIter * P :=
  match fuel with
  | O => (Some Panic, it, s)
  | S fuel =>
      match buffered it with
      | e :: rest => (Some (Ok e), mkTableIter (current_page it) rest, s)
      | [] =>
          match current_page it with
          | None => (None, it, s)
          | Some p =>
              match read_page p (page_entries p) s with
              | (Ok (entries, None, next), s) => iter_next fuel (mkTableIter next entries) s
              | (Ok (entries, Some e, _), s) => (Some (Err e), mkTableIter (Some p) entries, s)
              | (Err e, s) => (Some (Err e), it, s)
              | (Panic, s) => (Some Panic, it, s)
              end
          end
      end
  end.
End heap.
