(* ===== verification/HeapPage.v ===== *)
(** * Heap pages: what the slotted page of crates/storage/src/heap.rs represents

    [heap_page b lo slots next] says that page [b] holds the slots [slots], their data from [lo] up
    and the link [next]; the lemmas say what each read of the code gives on such a page and what each
    of its writes makes of it. *)
From S2P Require Import Prelude Text Value Common Errors Page Slots Heap.

Ltac page_lia := unfold slot_offset, HEADER_SIZE, SLOT_SIZE, PAGE_SIZE in *; lia.

(** ** What a heap page holds *)
Definition disjoint_slots (slots : list (Z * Z)) : Prop :=
  forall i j x y, i <> j -> slots !! i = Some x -> slots !! j = Some y ->
    x.1 + x.2 <= y.1 \/ y.1 + y.2 <= x.1.

Record heap_page (b : bytes) (lo : Z) (slots : list (Z * Z)) (next : PageId) : Prop := {
  hp_slots : slot_array b HEADER_SIZE lo slots;
  hp_count : sub b 12 2 = Some (to_le 2 (len slots));
  hp_used : sub b 14 2 = Some (to_le 2 (PAGE_SIZE - lo));
  hp_next : sub b 16 4 = Some (to_le 4 next);
  hp_next_range : in_u 32 next;
  hp_disjoint : disjoint_slots slots;
}.

(** The tuple of a slot: a length of zero marks a deleted one. *)
Definition slot_tuple (b : bytes) (s : Z * Z) : option bytes :=
  if s.2 =? 0 then None else Some (slot_content b s).

Lemma slots_bound b lo slots next : heap_page b lo slots next -> len slots <= 1019.
Proof.
  intros H. pose proof (slots_room _ _ _ _ (hp_slots _ _ _ _ H)).
  unfold HEADER_SIZE, SLOT_SIZE, PAGE_SIZE in *. lia.
Qed.

Lemma slotted_slot_count_eq b lo slots next : heap_page b lo slots next -> slotted_slot_count b = len slots.
Proof.
  intros H. unfold slotted_slot_count. rewrite (u16_at_sub _ _ _ (hp_count _ _ _ _ H)).
  apply from_le_to_le_id. pose proof (slots_bound _ _ _ _ H). pose proof (len_nonneg slots). unfold in_u; simpl; lia.
Qed.
Lemma checked_slot_count_eq b lo slots next p : heap_page b lo slots next -> checked_slot_count b p = Ok (len slots).
Proof.
  intros H. unfold checked_slot_count. rewrite (slotted_slot_count_eq _ _ _ _ H).
  pose proof (slots_bound _ _ _ _ H). change MAX_SLOTS with 1019. by rewrite (proj2 (Z.ltb_ge _ _)) by lia.
Qed.
Lemma slotted_data_start_eq b lo slots next : heap_page b lo slots next -> slotted_data_start b = lo.
Proof.
  intros H. unfold slotted_data_start, slotted_data_used. rewrite (u16_at_sub _ _ _ (hp_used _ _ _ _ H)).
  pose proof (slots_room _ _ _ _ (hp_slots _ _ _ _ H)). pose proof (len_nonneg slots).
  unfold HEADER_SIZE, SLOT_SIZE, PAGE_SIZE, saturating_sub in *.
  rewrite from_le_to_le_id by (unfold in_u; simpl; lia). lia.
Qed.
Lemma next_page_id_eq b lo slots next :
  heap_page b lo slots next -> next_page_id b = if next =? 0 then None else Some next.
Proof.
  intros H. unfold next_page_id, slotted_next_page_id, NO_NEXT_PAGE.
  rewrite (u32_at_sub _ _ _ (hp_next _ _ _ _ H)), from_le_to_le_id by (apply (hp_next_range _ _ _ _ H)). done.
Qed.

Lemma heap_page_next b lo slots next lo' slots' next' :
  heap_page b lo slots next -> heap_page b lo' slots' next' -> next = next'.
Proof.
  intros H1 H2. pose proof (hp_next _ _ _ _ H1) as E. rewrite (hp_next _ _ _ _ H2) in E. apply (inj Some) in E.
  rewrite <- (from_le_to_le_id 4 next) by apply (hp_next_range _ _ _ _ H1).
  rewrite <- (from_le_to_le_id 4 next') by apply (hp_next_range _ _ _ _ H2). by rewrite E.
Qed.

Lemma slot_offset_eq i : slot_offset (Z.of_nat i) = HEADER_SIZE + SLOT_SIZE * Z.of_nat i.
Proof. unfold slot_offset. lia. Qed.

Lemma slotted_slot_entry_eq b lo slots next p (i : nat) :
  heap_page b lo slots next -> slotted_slot_entry b (Z.of_nat i) p = Ok (slots !! i).
Proof.
  intros H. unfold slotted_slot_entry. rewrite (checked_slot_count_eq _ _ _ _ _ H). cbn [mbind outcome_bind].
  destruct (slots !! i) as [s |] eqn:E.
  - pose proof (slot_index_lt _ _ E). rewrite (proj2 (Z.leb_gt _ _)) by lia. rewrite slot_offset_eq.
    destruct (slot_read i s (hp_slots _ _ _ _ H) E) as [-> ->]. by destruct s.
  - apply lookup_ge_None in E. rewrite (proj2 (Z.leb_le _ _)) by (unfold len; lia). done.
Qed.

Lemma slotted_read_eq b lo slots next p (i : nat) :
  heap_page b lo slots next -> slotted_read b (Z.of_nat i) p = Ok (slots !! i ≫= slot_tuple b).
Proof.
  intros H. unfold slotted_read. rewrite (slotted_slot_entry_eq _ _ _ _ _ _ H). cbn [mbind outcome_bind].
  destruct (slots !! i) as [[off ln] |] eqn:E; [| done]. cbn [mbind option_bind]. unfold slot_tuple. cbn [snd].
  destruct (ln =? 0); [done |]. rewrite (checked_slot_count_eq _ _ _ _ _ H). cbn [mbind outcome_bind].
  pose proof (slot_content_sub _ _ (hp_slots _ _ _ _ H) E) as Hc. cbn [fst snd] in Hc. rewrite Hc.
  destruct (slot_lookup_range _ _ (hp_slots _ _ _ _ H) E) as (Hlo & _ & _). cbn [fst snd] in Hlo.
  pose proof (slots_room _ _ _ _ (hp_slots _ _ _ _ H)).
  rewrite (proj2 (Z.ltb_ge _ _)); [done |]. unfold slot_offset. lia.
Qed.

(** ** Writes to a heap page *)
Lemma heap_page_lsn b lo slots next lsn :
  heap_page b lo slots next -> heap_page (set_page_lsn lsn b) lo slots next.
Proof.
  intros [Hs Hc Hu Hn Hr Hd]. pose proof (slots_page _ _ _ _ Hs) as Hp.
  split; try done; try (rewrite sub_set_page_lsn by (lia || done); done).
  destruct Hs as [_ Hh Hroom Hin Hst]. split; try done; [by apply len_set_page_lsn |].
  intros i s Hi. rewrite sub_set_page_lsn; [by apply Hst | done |].
  unfold HEADER_SIZE, SLOT_SIZE in *. lia.
Qed.
Lemma slot_tuple_lsn b lo slots next lsn :
  heap_page b lo slots next -> slot_tuple (set_page_lsn lsn b) <$> slots = slot_tuple b <$> slots.
Proof.
  intros H. apply list_fmap_ext. intros i s Hi. unfold slot_tuple, slot_content.
  destruct (slot_lookup_range _ _ (hp_slots _ _ _ _ H) Hi) as (Hlo & _ & _).
  pose proof (slots_room _ _ _ _ (hp_slots _ _ _ _ H)). pose proof (len_nonneg slots).
  rewrite sub_set_page_lsn; [done | apply (slots_page _ _ _ _ (hp_slots _ _ _ _ H)) |].
  unfold HEADER_SIZE, SLOT_SIZE in *. lia.
Qed.

(** A write into the free space between the slots and the data changes nothing that is stored. *)
Lemma heap_page_gap b lo slots next off new :
  heap_page b lo slots next -> HEADER_SIZE + SLOT_SIZE * len slots <= off -> off + len new <= lo ->
  heap_page (splice b off new) lo slots next
  /\ slot_tuple (splice b off new) <$> slots = slot_tuple b <$> slots.
Proof.
  intros H Ho Hn. pose proof H as [Hs Hc Hu Hnx Hr Hd]. pose proof (slots_page _ _ _ _ Hs) as Hp.
  pose proof (slots_room _ _ _ _ Hs) as Hroom. pose proof (len_nonneg slots).
  assert (Hh : 20 <= off) by (unfold HEADER_SIZE, SLOT_SIZE in *; lia).
  assert (Hend : off + len new <= len b) by (rewrite Hp; lia). split.
  - split; try done; try (rewrite sub_splice_ne by lia; done).
    apply slot_array_frame; [done | lia | rewrite <- Hp; lia | by right].
  - apply list_fmap_ext. intros i s Hi. unfold slot_tuple. destruct (s.2 =? 0); [done |]. f_equal.
    eapply slot_content_frame; [exact Hs | by eapply slot_lookup_range | lia | done].
Qed.

(** The header write that makes a stored tuple part of the page. *)
Lemma heap_page_commit b lo slots next off data :
  heap_page b lo slots next -> HEADER_SIZE + SLOT_SIZE * (len slots + 1) <= off -> off + len data = lo ->
  0 < len data -> sub b off (len data) = Some data ->
  sub b (slot_offset (len slots)) SLOT_SIZE = Some (slot_bytes (off, len data)) ->
  let b' := splice b 12 (to_le 2 (len slots + 1) ++ to_le 2 (PAGE_SIZE - off)) in
  heap_page b' off (slots ++ [(off, len data)]) next
  /\ slot_tuple b' <$> (slots ++ [(off, len data)]) = (slot_tuple b <$> slots) ++ [Some data].
Proof.
  intros H Ho Hlo Hd Hdata Hslot b'. pose proof H as [Hs Hc Hu Hnx Hr Hdis].
  pose proof (slots_page _ _ _ _ Hs) as Hp. pose proof (slots_room _ _ _ _ Hs) as Hroom.
  pose proof (len_nonneg slots) as Hn. unfold slot_offset, HEADER_SIZE, SLOT_SIZE in *.
  set (hd := to_le 2 (len slots + 1) ++ to_le 2 (PAGE_SIZE - off)) in *.
  assert (Hhd : len hd = 4) by (unfold hd; by autorewrite with len).
  assert (Hin : 12 + len hd <= len b) by (rewrite Hhd, Hp; unfold PAGE_SIZE; lia).
  assert (Hne : forall o n, 16 <= o -> sub b' o n = sub b o n).
  { intros o n Hge. unfold b'. apply sub_splice_ne; [lia | done |]. rewrite Hhd. lia. }
  assert (Hsa : slot_array b' 20 off (slots ++ [(off, len data)])).
  { destruct Hs as [_ _ _ Hid Hst]. split.
    - unfold b'. rewrite len_splice; [done | lia | done].
    - lia.
    - autorewrite with len. unfold SLOT_SIZE. lia.
    - apply Forall_app. split.
      + eapply Forall_impl; [exact Hid |]. intros [? ?] (? & ? & ?). unfold in_data in *. simpl in *. lia.
      + repeat constructor; simpl; lia.
    - intros i s Hi. unfold SLOT_SIZE. rewrite Hne by lia. apply lookup_app_Some in Hi as [Hi | [Hge Hi]].
      + by apply Hst.
      + apply list_lookup_singleton_Some in Hi as [Hz <-]. rewrite <- Hslot. f_equal. unfold len. lia. }
  split.
  - split; try done.
    + rewrite len_app. change (len [(off, len data)]) with 1.
      replace 12 with (12 + 0) by lia. unfold b'. rewrite sub_splice_in by (rewrite ?Hhd; lia || done).
      apply sub_app_prefix. by rewrite len_to_le.
    + replace 14 with (12 + 2) by lia. unfold b'. rewrite sub_splice_in by (rewrite ?Hhd; lia || done).
      pose proof (sub_app_mid (to_le 2 (len slots + 1)) (to_le 2 (PAGE_SIZE - off)) []) as Hm.
      rewrite app_nil_r, !len_to_le in Hm. exact Hm.
    + by rewrite Hne by lia.
    + intros i j x y Hij Hx Hy. pose proof (Hdis i j) as Hdij.
      apply lookup_app_Some in Hx as [Hx | [Hgx Hx]]; apply lookup_app_Some in Hy as [Hy | [Hgy Hy]].
      * by apply Hdij.
      * apply list_lookup_singleton_Some in Hy as [Hz <-]. right. simpl.
        destruct (slot_lookup_range _ _ Hs Hx) as (? & _). lia.
      * apply list_lookup_singleton_Some in Hx as [Hz <-]. left. simpl.
        destruct (slot_lookup_range _ _ Hs Hy) as (? & _). lia.
      * apply list_lookup_singleton_Some in Hx as [Hz _]. apply list_lookup_singleton_Some in Hy as [Hz' _]. lia.
  - rewrite fmap_app. f_equal.
    + apply list_fmap_ext. intros i s Hi. unfold slot_tuple, slot_content.
      destruct (slot_lookup_range _ _ Hs Hi) as (? & _). by rewrite Hne by lia.
    + cbn. unfold slot_tuple, slot_content. cbn [fst snd]. rewrite (proj2 (Z.eqb_neq _ _)) by lia.
      rewrite Hne by lia. by rewrite Hdata.
Qed.

(** Linking a page that had no successor. *)
Lemma link_heap_page b lo slots next new lsn :
  heap_page b lo slots next -> in_u 32 new ->
  let b' := set_page_lsn lsn (splice b 16 (to_le 4 new)) in
  heap_page b' lo slots new /\ slot_tuple b' <$> slots = slot_tuple b <$> slots.
Proof.
  intros H Hnew b'. pose proof H as [Hs Hc Hu Hnx Hr Hd]. pose proof (slots_page _ _ _ _ Hs) as Hp.
  pose proof (slots_room _ _ _ _ Hs) as Hroom. pose proof (len_nonneg slots).
  assert (H16 : 16 + len (to_le 4 new) <= len b) by (rewrite len_to_le, Hp; page_lia).
  assert (H1 : heap_page (splice b 16 (to_le 4 new)) lo slots new).
  { split; try done.
    - apply slot_array_frame; [done | lia | by rewrite <- Hp | left; rewrite len_to_le; page_lia].
    - rewrite sub_splice_ne; [done | lia | done | lia].
    - rewrite sub_splice_ne; [done | lia | done | lia].
    - pose proof (sub_splice_eq b 16 (to_le 4 new) ltac:(lia) H16) as Heq. by rewrite len_to_le in Heq. }
  split; [by apply heap_page_lsn |]. unfold b'. erewrite slot_tuple_lsn by done.
  apply list_fmap_ext. intros i x Hi. unfold slot_tuple. destruct (x.2 =? 0); [done |]. f_equal.
  eapply slot_content_frame; [exact Hs | by eapply slot_lookup_range | lia | rewrite len_to_le; page_lia].
Qed.

(** A slot read and written by halves. *)
Lemma sub_first_half b off x : sub b off SLOT_SIZE = Some (slot_bytes x) -> sub b off 2 = Some (to_le 2 x.1).
Proof.
  unfold SLOT_SIZE. intros H. rewrite <- (Z.add_0_r off), <- (sub_sub _ _ _ _ 0 2 H) by lia.
  apply sub_app_prefix. by rewrite len_to_le.
Qed.
Lemma sub_two_halves b off x : sub b off 2 = Some (to_le 2 x.1) -> sub b (off + 2) 2 = Some (to_le 2 x.2) ->
  sub b off SLOT_SIZE = Some (slot_bytes x).
Proof.
  intros H1 H2. unfold SLOT_SIZE, slot_bytes. replace 4 with (2 + 2) by lia. by apply sub_concat.
Qed.

(** A slot array write in place: deleting a tuple zeroes the length of its slot. *)
Lemma heap_page_delete b lo slots next (i : nat) x lsn :
  heap_page b lo slots next -> slots !! i = Some x ->
  let b' := set_page_lsn lsn (splice b (slot_offset (Z.of_nat i) + 2) (to_le 2 0)) in
  let slots' := <[i := (x.1, 0)]> slots in
  heap_page b' lo slots' next
  /\ slot_tuple b' <$> slots' = <[i := None]> (slot_tuple b <$> slots).
Proof.
  intros H Hi b' slots'. pose proof H as [Hs Hc Hu Hnx Hr Hd]. pose proof (slots_page _ _ _ _ Hs) as Hp.
  pose proof (slots_room _ _ _ _ Hs) as Hroom. pose proof (slot_index_lt _ _ Hi) as Hlt.
  pose proof (slot_lookup_range _ _ Hs Hi) as Hx.
  assert (Hlen : len slots' = len slots) by (unfold slots', len; by rewrite length_insert).
  set (off := slot_offset (Z.of_nat i) + 2) in *.
  assert (Hoff : off = 22 + 4 * Z.of_nat i) by (unfold off; page_lia). clearbody off.
  assert (Hin : off + len (to_le 2 0) <= len b) by (rewrite len_to_le, Hp; page_lia).
  set (b1 := splice b off (to_le 2 0)) in *.
  assert (Hne : forall o n, o + n <= off \/ off + 2 <= o -> sub b1 o n = sub b o n).
  { intros o n Ho. apply sub_splice_ne; [lia | done |]. by rewrite len_to_le. }
  assert (H1 : heap_page b1 lo slots' next).
  { split; try done; try (rewrite Hne by lia; done).
    - split; [unfold b1; rewrite len_splice; [done | lia | done] | apply (slots_header _ _ _ _ Hs) | by rewrite Hlen | |].
      + apply Forall_insert; [apply (slots_in_data _ _ _ _ Hs) |]. unfold in_data in *. simpl. lia.
      + intros j y Hj. apply list_lookup_insert_Some in Hj as [(-> & <- & _) | [Hij Hj]].
        * apply sub_two_halves; cbn [fst snd].
          -- rewrite Hne by page_lia. apply sub_first_half, (slots_stored _ _ _ _ Hs _ _ Hi).
          -- unfold HEADER_SIZE, SLOT_SIZE. replace (20 + 4 * Z.of_nat j + 2) with off by lia.
             pose proof (sub_splice_eq b off (to_le 2 0) ltac:(lia) Hin) as He. by rewrite len_to_le in He.
        * rewrite Hne; [by apply (slots_stored _ _ _ _ Hs) | page_lia].
    - by rewrite Hne, Hlen by lia.
    - intros j k y z Hjk Hy Hz. apply list_lookup_insert_Some in Hy as [(<- & <- & _) | [Hij Hy]];
        apply list_lookup_insert_Some in Hz as [(<- & <- & _) | [Hik Hz]]; [done | | |].
      + simpl. destruct (Hd i k x z Hjk Hi Hz); [| by right]. left. destruct Hx as (_ & ? & _). lia.
      + simpl. destruct (Hd j i y x Hjk Hy Hi); [by left |]. right. destruct Hx as (_ & ? & _).
        destruct (slot_lookup_range _ _ Hs Hy). lia.
      + by apply (Hd j k). }
  split; [by apply heap_page_lsn |]. unfold b'. erewrite slot_tuple_lsn by done. unfold slots'.
  rewrite list_fmap_insert. f_equal. apply list_fmap_ext. intros j y Hj. unfold slot_tuple, slot_content.
  destruct (slot_lookup_range _ _ Hs Hj) as (? & _). by rewrite Hne by page_lia.
Qed.

(** A patch inside one tuple leaves the others as they are. *)
Lemma heap_page_patch b lo slots next (i : nat) x off new lsn :
  heap_page b lo slots next -> slots !! i = Some x -> 0 <= off -> off + len new <= x.2 -> 0 < x.2 ->
  let b' := set_page_lsn lsn (splice b (x.1 + off) new) in
  heap_page b' lo slots next
  /\ slot_tuple b' <$> slots = <[i := Some (splice (slot_content b x) off new)]> (slot_tuple b <$> slots).
Proof.
  intros H Hi Ho Hn Hx2 b'. pose proof H as [Hs Hc Hu Hnx Hr Hd]. pose proof (slots_page _ _ _ _ Hs) as Hp.
  pose proof (slots_room _ _ _ _ Hs) as Hroom. destruct (slot_lookup_range _ _ Hs Hi) as (Hx1 & _ & Hxe).
  pose proof (slot_content_sub _ _ Hs Hi) as Hcx. pose proof (len_nonneg slots).
  assert (Hin : x.1 + off + len new <= len b) by lia. pose proof (len_nonneg new).
  set (b1 := splice b (x.1 + off) new) in *.
  assert (Hne : forall o n, o + n <= x.1 + off \/ x.1 + off + len new <= o -> sub b1 o n = sub b o n).
  { intros o n Hon. apply sub_splice_ne; [page_lia | done | done]. }
  assert (Hb1 : heap_page b1 lo slots next).
  { split; try done; try (rewrite Hne by page_lia; done).
    apply slot_array_frame; [done | page_lia | by rewrite <- Hp | right; page_lia]. }
  split; [by apply heap_page_lsn |]. unfold b'. erewrite slot_tuple_lsn by done.
  apply list_eq. intros j. rewrite list_lookup_fmap. destruct (decide (j = i)) as [-> | Hji].
  - rewrite list_lookup_insert_eq by (rewrite length_fmap; by eapply lookup_lt_Some). rewrite Hi. cbn.
    unfold slot_tuple. rewrite (proj2 (Z.eqb_neq _ _)) by lia. do 2 f_equal. unfold slot_content, b1.
    rewrite (sub_splice_window b x.1 x.2 _ off new Hcx) by lia. done.
  - rewrite list_lookup_insert_ne, list_lookup_fmap by done. destruct (slots !! j) as [y |] eqn:Hj; [| done]. cbn.
    f_equal. unfold slot_tuple. destruct (y.2 =? 0); [done |]. f_equal. unfold slot_content.
    rewrite Hne; [done |]. destruct (Hd j i y x Hji Hj Hi); lia.
Qed.

(** The checksum is no part of what a page holds. *)
Lemma heap_page_clear b lo slots next :
  heap_page (clear_checksum b) lo slots next ->
  heap_page b lo slots next /\ slot_tuple b <$> slots = slot_tuple (clear_checksum b) <$> slots.
Proof.
  intros H. pose proof H as [Hs Hc Hu Hnx Hr Hd]. pose proof (slots_page _ _ _ _ Hs) as Hp.
  apply len_clear_checksum_inv in Hp. assert (Hsub : forall o n, 4 <= o -> sub (clear_checksum b) o n = sub b o n)
    by (intros; by apply sub_clear_checksum).
  split.
  - rewrite Hsub in Hc, Hu, Hnx by lia. split; try done. destruct Hs as [_ Hh Hroom Hin Hst]. split; try done.
    intros i s Hi. rewrite <- (Hst i s Hi). symmetry. apply Hsub. page_lia.
  - apply list_fmap_ext. intros i s Hi. unfold slot_tuple, slot_content.
    destruct (slot_lookup_range _ _ Hs Hi) as (Hlo & _). pose proof (slots_room _ _ _ _ Hs). pose proof (len_nonneg slots).
    by rewrite Hsub by page_lia.
Qed.

Lemma zero_heap_page : heap_page zero_page PAGE_SIZE [] NO_NEXT_PAGE.
Proof.
  split; by vm_compute.
Qed.

(** The header write of [init] gives an empty page, whatever the page LSN. *)
Lemma init_heap_page lsn :
  heap_page (set_page_lsn lsn (splice zero_page 12 (replicate 8 Byte.x00))) PAGE_SIZE [] NO_NEXT_PAGE.
Proof.
  apply heap_page_lsn. replace (splice zero_page 12 (replicate 8 Byte.x00)) with zero_page; [apply zero_heap_page |].
  by vm_compute.
Qed.
