(* ===== verification/HeapSpec.v ===== *)
(** * Heap files: the refinement of crates/storage/src/heap.rs

    A heap is a chain of pages, each with a list of slots that hold a tuple or nothing. Over any page
    store that keeps the laws of [PageStoreLaws], inserting, reading, deleting, patching and scanning
    are the corresponding operations on that chain. *)
From S2P Require Import Prelude Text Value Common Errors Page Slots Heap HeapPage.

(** ** Heaps as chains of pages *)
Abbreviation chain := (list (PageId * list (option bytes))).

Definition page_holds (m : gmap PageId bytes) (p : PageId) (ts : list (option bytes)) (next : PageId) : Prop :=
  exists b lo slots, m !! p = Some b /\ heap_page b lo slots next /\ slot_tuple b <$> slots = ts.

Definition head_page (c : chain) : PageId := match c with [] => NO_NEXT_PAGE | (p, _) :: _ => p end.

(** The pages of [c], each linked to the next, the last to none. *)
Fixpoint heap_rep (m : gmap PageId bytes) (c : chain) : Prop :=
  match c with
  | [] => True
  | (p, ts) :: rest => p <> NO_NEXT_PAGE /\ page_holds m p ts (head_page rest) /\ heap_rep m rest
  end.

Definition same_elsewhere (c : chain) (m m' : gmap PageId bytes) : Prop := same_outside c.*1 m m'.

(** The chain after a page was appended, or not. *)
Definition grown (m : gmap PageId bytes) (c c' : chain) : Prop :=
  c' = c \/ exists q, m !! q = None /\ c' = c ++ [(q, [])].

Definition add_tuple (c : chain) (rid : Rid) (data : bytes) (c' : chain) : Prop :=
  exists pre ts post, c = pre ++ (page_id rid, ts) :: post /\ slot rid = len ts
    /\ c' = pre ++ (page_id rid, ts ++ [Some data]) :: post.

Lemma page_holds_frame m m' p ts next : page_holds m p ts next -> m' !! p = m !! p -> page_holds m' p ts next.
Proof. intros (b & lo & slots & Hb & H) E. exists b, lo, slots. by rewrite E. Qed.

Lemma heap_rep_frame m m' c : heap_rep m c -> (forall q, q ∈ c.*1 -> m' !! q = m !! q) -> heap_rep m' c.
Proof.
  induction c as [| [p ts] c IH]; [done |]. intros (Hp & Hh & Hr) Hm. split_and!; [done | |].
  - eapply page_holds_frame; [done |]. apply Hm. left.
  - apply IH; [done |]. intros q Hq. apply Hm. by right.
Qed.

Lemma heap_rep_in_store m c q : heap_rep m c -> q ∈ c.*1 -> is_Some (m !! q).
Proof.
  induction c as [| [p ts] c IH]; cbn; [set_solver |]. intros (_ & (b & ? & ? & Hb & _) & Hr).
  rewrite elem_of_cons. intros [-> | Hq]; [by eexists | auto].
Qed.


Lemma page_holds_slots m p ts next b :
  page_holds m p ts next -> m !! p = Some b ->
  exists lo slots, heap_page b lo slots next /\ slot_tuple b <$> slots = ts /\ len slots = len ts.
Proof.
  intros (b' & lo & slots & Hb & Hh & Ht) Hb'. assert (b' = b) as -> by congruence.
  exists lo, slots. split_and!; [done.. |]. by rewrite <- Ht, len_fmap.
Qed.

(** A page in front of the chain the loop went on with. *)
Lemma grown_cons m c c0 x : grown m c c0 -> grown m (x :: c) (x :: c0).
Proof. intros [-> | (q & Hq & ->)]; [by left |]. right. exists q. done. Qed.

Lemma grown_head m c c0 : c <> [] -> grown m c c0 -> head_page c0 = head_page c.
Proof. intros Hne [-> | (q & _ & ->)]; [done |]. by destruct c as [| [? ?] ?]. Qed.

Lemma add_tuple_head c rid data c' : add_tuple c rid data c' -> head_page c' = head_page c.
Proof. intros (pre & ts & post & -> & _ & ->). by destruct pre as [| [? ?] ?]. Qed.

(** ** The tuples of a heap *)
Fixpoint chain_page (c : chain) (p : PageId) : option (list (option bytes)) :=
  match c with
  | [] => None
  | (q, ts) :: c => if decide (q = p) then Some ts else chain_page c p
  end.
Definition heap_get (c : chain) (rid : Rid) : option bytes :=
  ts ← chain_page c (page_id rid);
  mjoin (index ts (slot rid)).

Definition heap_ok (m : gmap PageId bytes) (first : PageId) (c : chain) : Prop :=
  c <> [] /\ head_page c = first /\ heap_rep m c /\ NoDup c.*1.

Lemma chain_page_app pre p ts post q :
  p ∉ pre.*1 -> chain_page (pre ++ (p, ts) :: post) q =
    if decide (q = p) then Some ts else chain_page (pre ++ post) q.
Proof.
  induction pre as [| [r tr] pre IH]; cbn.
  - intros _. repeat case_decide; congruence.
  - intros Hp. rewrite IH by set_solver. repeat case_decide; try done. set_solver.
Qed.

Lemma chain_page_holds m c p ts :
  heap_rep m c -> chain_page c p = Some ts -> exists next, page_holds m p ts next.
Proof.
  induction c as [| [q tq] c IH]; [done |]. cbn [chain_page]. intros (_ & Hh & Hr). case_decide as Hq.
  - subst. intros [= <-]. by eexists.
  - by apply IH.
Qed.

Lemma chain_page_none m c q : heap_rep m c -> m !! q = None -> q ∉ c.*1.
Proof. intros Hrep Hq Hin. destruct (heap_rep_in_store _ _ _ Hrep Hin) as [? ?]. congruence. Qed.

Lemma grown_get m c c0 : heap_rep m c -> NoDup c.*1 -> grown m c c0 ->
  NoDup c0.*1 /\ forall r, heap_get c0 r = heap_get c r.
Proof.
  intros Hrep Hnd [-> | (q & Hq & ->)]; [done |]. pose proof (chain_page_none _ _ _ Hrep Hq) as Hni. split.
  - rewrite fmap_app. apply NoDup_app. split_and!; [done | set_solver | apply NoDup_singleton].
  - intros r. unfold heap_get. rewrite chain_page_app, app_nil_r by done. case_decide as E; [| done].
    assert (Hn : chain_page c (page_id r) = None).
    { destruct (chain_page c (page_id r)) as [ts |] eqn:Ec; [| done].
      destruct (chain_page_holds _ _ _ _ Hrep Ec) as (? & ? & ? & ? & Hb & _). congruence. }
    rewrite Hn. cbn. unfold index. by destruct (0 <=? slot r).
Qed.

Lemma add_tuple_get c rid data c' :
  NoDup c.*1 -> add_tuple c rid data c' ->
  NoDup c'.*1 /\ heap_get c rid = None
  /\ forall r, heap_get c' r = if decide (r = rid) then Some data else heap_get c r.
Proof.
  intros Hnd (pre & ts & post & -> & Hs & ->). rewrite fmap_app in Hnd. cbn in Hnd.
  assert (Hp : page_id rid ∉ pre.*1).
  { apply NoDup_app in Hnd as (_ & Hd & _). intros Hin. apply (Hd _ Hin). left. }
  split_and!.
  - rewrite fmap_app. done.
  - unfold heap_get. rewrite chain_page_app, decide_True by done. cbn. rewrite Hs. unfold index.
    rewrite (proj2 (Z.leb_le 0 (len ts))) by apply len_nonneg. unfold len. rewrite Nat2Z.id.
    by rewrite lookup_ge_None_2.
  - intros r. unfold heap_get. rewrite !chain_page_app by done. destruct (decide (page_id r = page_id rid)) as [E | E].
    + cbn. unfold index. destruct (Z.leb_spec 0 (slot r)).
      * destruct (decide (r = rid)) as [-> | Hne].
        { rewrite Hs. unfold len. rewrite Nat2Z.id, lookup_app_r, Nat.sub_diag by lia. done. }
        assert (slot r <> len ts) by (intros Hsl; apply Hne; destruct r, rid; cbn in *; congruence).
        destruct (decide (Z.to_nat (slot r) < length ts)%nat).
        { by rewrite lookup_app_l by lia. }
        rewrite (lookup_ge_None_2 ts) by lia. rewrite lookup_app_r by lia.
        rewrite (lookup_ge_None_2 [Some data]); [done |]. unfold len in *. simpl. lia.
      * rewrite decide_False; [done |]. intros ->. pose proof (len_nonneg ts). lia.
    + rewrite decide_False; [done |]. congruence.
Qed.


(** The insertion's effect on the chain from the current page on. *)
Definition insert_done (m : gmap PageId bytes) (c : chain) (data : bytes) (rid : Rid) (m' : gmap PageId bytes) : Prop :=
  same_elsewhere c m m' /\ exists c0 c', grown m c c0 /\ add_tuple c0 rid data c' /\ heap_rep m' c'.
Definition insert_failed (m : gmap PageId bytes) (c : chain) (m' : gmap PageId bytes) : Prop :=
  same_elsewhere c m m' /\ exists c0, grown m c c0 /\ heap_rep m' c0.

(** A change of the first page of the chain. *)
Lemma heap_rep_head m m' p ts ts' rest b' lo' slots' :
  heap_rep m ((p, ts) :: rest) -> NoDup ((p, ts) :: rest).*1 -> m' = <[p := b']> m ->
  heap_page b' lo' slots' (head_page rest) -> slot_tuple b' <$> slots' = ts' ->
  heap_rep m' ((p, ts') :: rest) /\ same_elsewhere ((p, ts) :: rest) m m'.
Proof.
  intros (Hp0 & _ & Hrest) Hnd -> Hh Ht. apply NoDup_cons in Hnd as [Hni _]. split.
  - split_and!; [done | by exists b', lo', slots'; rewrite lookup_insert_eq |].
    eapply heap_rep_frame; [done |]. intros q Hq. rewrite lookup_insert_ne; [done |]. by intros ->.
  - intros q bq Hq Hnq. rewrite lookup_insert_ne; [done |]. set_solver.
Qed.

(** A page in front of the chain the loop went on with. *)
Lemma insert_done_cons m m' p ts rest data rid :
  rest <> [] -> heap_rep m ((p, ts) :: rest) -> NoDup ((p, ts) :: rest).*1 ->
  insert_done m rest data rid m' -> insert_done m ((p, ts) :: rest) data rid m'.
Proof.
  intros Hne (Hp0 & Hh & Hrest) Hnd (Hsame & c0 & c' & Hg & Ha & Hr').
  apply NoDup_cons in Hnd as [Hni _]. split.
  - intros q b Hq Hn. apply Hsame; [done |]. set_solver.
  - exists ((p, ts) :: c0), ((p, ts) :: c'). split_and!; [by apply grown_cons | |].
    + destruct Ha as (pre & ts' & post & -> & Hsl & ->). by exists ((p, ts) :: pre), ts', post.
    + split_and!; [done | | done]. rewrite (add_tuple_head _ _ _ _ Ha), (grown_head _ _ _ Hne Hg).
      destruct Hh as (b & lo & slots & Hb & Hh). exists b, lo, slots. split; [| done]. by apply Hsame.
Qed.

Lemma insert_failed_cons m m' p ts rest :
  rest <> [] -> heap_rep m ((p, ts) :: rest) -> NoDup ((p, ts) :: rest).*1 ->
  insert_failed m rest m' -> insert_failed m ((p, ts) :: rest) m'.
Proof.
  intros Hne (Hp0 & Hh & Hrest) Hnd (Hsame & c0 & Hg & Hr').
  apply NoDup_cons in Hnd as [Hni _]. split.
  - intros q b Hq Hn. apply Hsame; [done |]. set_solver.
  - exists ((p, ts) :: c0). split; [by apply grown_cons |].
    split_and!; [done | | done]. rewrite (grown_head _ _ _ Hne Hg).
    destruct Hh as (b & lo & slots & Hb & Hh). exists b, lo, slots. split; [| done]. by apply Hsame.
Qed.

Lemma heap_rep_mono m m' c : heap_rep m c -> m ⊆ m' -> heap_rep m' c.
Proof.
  intros Hrep Hsub. eapply heap_rep_frame; [done |]. intros q Hq.
  destruct (heap_rep_in_store _ _ _ Hrep Hq) as [b Hb]. rewrite Hb. by eapply lookup_weaken.
Qed.

Lemma insert_failed_same m m' c : heap_rep m c -> m ⊆ m' -> insert_failed m c m'.
Proof.
  intros Hrep Hsub. split.
  - intros q b Hq _. by eapply lookup_weaken.
  - exists c. split; [by left | by eapply heap_rep_mono].
Qed.

(** The chain with slot [rid] set to [o]. *)
Definition set_slot (c : chain) (rid : Rid) (o : option bytes) : chain :=
  (fun '(p, ts) => (p, if decide (p = page_id rid) then <[Z.to_nat (slot rid) := o]> ts else ts)) <$> c.

Lemma set_slot_pages c rid o : (set_slot c rid o).*1 = c.*1.
Proof. unfold set_slot. rewrite <- list_fmap_compose. apply list_fmap_ext. by intros ? [? ?] _. Qed.

Lemma set_slot_head c rid o : head_page (set_slot c rid o) = head_page c.
Proof. by destruct c as [| [? ?] ?]. Qed.

Lemma chain_page_set_slot c rid o q :
  chain_page (set_slot c rid o) q =
    (fun ts => if decide (q = page_id rid) then <[Z.to_nat (slot rid) := o]> ts else ts) <$> chain_page c q.
Proof.
  induction c as [| [p ts] c IH]; [done |]. cbn [set_slot fmap list_fmap chain_page].
  destruct (decide (p = q)) as [-> | Hne]; [done |]. exact IH.
Qed.

(** Setting the slot of a stored tuple changes that tuple only. *)
Lemma heap_get_set_slot c rid o d r :
  heap_get c rid = Some d -> heap_get (set_slot c rid o) r = if decide (r = rid) then o else heap_get c r.
Proof.
  intros Hd. unfold heap_get in *. rewrite chain_page_set_slot.
  destruct (chain_page c (page_id rid)) as [ts |] eqn:Ec; [| done]. cbn in Hd.
  assert (Hs : 0 <= slot rid /\ (Z.to_nat (slot rid) < length ts)%nat).
  { unfold index in Hd. destruct (Z.leb_spec 0 (slot rid)); [| done]. split; [done |].
    destruct (ts !! Z.to_nat (slot rid)) eqn:Et; [by eapply lookup_lt_Some | done]. }
  destruct (decide (r = rid)) as [-> | Hne].
  - rewrite Ec. cbn. rewrite decide_True by done. unfold index.
    rewrite (proj2 (Z.leb_le _ _)) by lia. by rewrite list_lookup_insert_eq by lia.
  - destruct (chain_page c (page_id r)) as [tr |] eqn:Er; [| done]. cbn. case_decide as Hp; [| done].
    unfold index. destruct (Z.leb_spec 0 (slot r)); [| done]. rewrite list_lookup_insert_ne; [done |].
    intros E. apply Hne. destruct r, rid; cbn in *. f_equal; [done | lia].
Qed.

Lemma heap_rep_set_slot m c rid o ts b' lo' slots' next :
  heap_rep m c -> NoDup c.*1 -> chain_page c (page_id rid) = Some ts ->
  page_holds m (page_id rid) ts next -> heap_page b' lo' slots' next ->
  slot_tuple b' <$> slots' = <[Z.to_nat (slot rid) := o]> ts ->
  heap_rep (<[page_id rid := b']> m) (set_slot c rid o).
Proof.
  intros Hrep Hnd Hc Hp Hh Ht. induction c as [| [q tq] c IH]; [done |].
  destruct Hrep as (Hq0 & Hq & Hrep). pose proof (NoDup_cons_1_1 _ _ Hnd) as Hni.
  pose proof (NoDup_cons_1_2 _ _ Hnd) as Hnd'. cbn [chain_page] in Hc.
  change (set_slot ((q, tq) :: c) rid o) with
    ((q, if decide (q = page_id rid) then <[Z.to_nat (slot rid) := o]> tq else tq) :: set_slot c rid o).
  cbn [heap_rep]. rewrite (set_slot_head c rid o). split; [done |]. destruct (decide (q = page_id rid)) as [-> | Hne].
  - injection Hc as <-. split.
    + exists b', lo', slots'. rewrite lookup_insert_eq. split_and!; [done | | done].
      destruct Hq as (b1 & lo1 & s1 & Hb1 & Hh1 & _). destruct Hp as (b2 & lo2 & s2 & Hb2 & Hh2 & _).
      assert (b1 = b2) as -> by congruence. rewrite (heap_page_next _ _ _ _ _ _ _ Hh1 Hh2). done.
    + assert (Hid : set_slot c rid o = c).
      { unfold set_slot. rewrite <- (list_fmap_id c) at 2. apply list_fmap_ext. intros i [r tr] Hi. cbn.
        rewrite decide_False; [done |]. intros ->. apply Hni.
        apply list_elem_of_fmap. exists (page_id rid, tr). split; [done |]. by eapply list_elem_of_lookup_2. }
      rewrite Hid. eapply heap_rep_frame; [done |]. intros r Hr. rewrite lookup_insert_ne; [done |].
      by intros <-.
  - split; [| by apply IH]. eapply page_holds_frame; [done |]. by rewrite lookup_insert_ne.
Qed.

(** ** Reading a heap *)
Fixpoint page_list (p : PageId) (i : Z) (ts : list (option bytes)) : list (Rid * bytes) :=
  match ts with
  | [] => []
  | Some d :: ts => (mkRid p i, d) :: page_list p (i + 1) ts
  | None :: ts => page_list p (i + 1) ts
  end.
(** Every live tuple, in the order of a scan. *)
Definition heap_list (c : chain) : list (Rid * bytes) := '(p, ts) ← c; page_list p 0 ts.

Lemma heap_list_cons p ts c : heap_list ((p, ts) :: c) = page_list p 0 ts ++ heap_list c.
Proof. done. Qed.

(** A scan's list has every live tuple, once. *)
Lemma page_list_get p ts : forall i r d,
  (r, d) ∈ page_list p i ts <-> page_id r = p /\ i <= slot r /\ mjoin (ts !! Z.to_nat (slot r - i)) = Some d.
Proof.
  induction ts as [| o ts IH]; intros i r d; cbn [page_list].
  { split; [intros []%not_elem_of_nil | by intros (_ & _ & ?)]. }
  assert (Hrest : (r, d) ∈ page_list p (i + 1) ts <->
    page_id r = p /\ i < slot r /\ mjoin ((o :: ts) !! Z.to_nat (slot r - i)) = Some d).
  { rewrite IH. split.
    - intros (? & ? & Hd). split_and!; [done | lia |]. by replace (Z.to_nat (slot r - i)) with (S (Z.to_nat (slot r - (i + 1)))) by lia.
    - intros (? & ? & Hd). split_and!; [done | lia |]. by replace (Z.to_nat (slot r - i)) with (S (Z.to_nat (slot r - (i + 1)))) in Hd by lia. }
  assert (Hcase : (page_id r = p /\ i <= slot r /\ mjoin ((o :: ts) !! Z.to_nat (slot r - i)) = Some d) <->
    (r = mkRid p i /\ o = Some d) \/ (page_id r = p /\ i < slot r /\ mjoin ((o :: ts) !! Z.to_nat (slot r - i)) = Some d)).
  { split.
    - intros (Hp & Hi & Hd). destruct (Z.eq_dec (slot r) i) as [E | E]; [left | right; split_and!; [done | lia | done]].
      rewrite E, Z.sub_diag in Hd. destruct r; cbn in *. split; [congruence | done].
    - intros [[-> ->] | (? & ? & ?)]; [cbn; split_and!; [done | lia |] | split_and!; [done | lia | done]]. by rewrite Z.sub_diag. }
  rewrite Hcase. destruct o as [x |]; [rewrite elem_of_cons |]; rewrite Hrest; [| naive_solver].
  split; (intros [E | ?]; [left | by right]); [by injection E as -> -> | by destruct E as [-> [= ->]]].
Qed.

Lemma page_list_nodup p ts : forall i, NoDup (page_list p i ts).*1.
Proof.
  induction ts as [| [x |] ts IH]; intros i; cbn; [constructor | | apply IH]. constructor; [| apply IH].
  intros ([r d] & E & Hin)%list_elem_of_fmap. apply page_list_get in Hin as (_ & Hi & _). cbn in E. subst r. cbn in Hi. lia.
Qed.

Lemma chain_page_elem c p ts : chain_page c p = Some ts -> p ∈ c.*1.
Proof. induction c as [| [q tq] c IH]; [done |]. cbn. case_decide; [subst; left | right; auto]. Qed.

Lemma heap_list_get c r d : NoDup c.*1 -> (r, d) ∈ heap_list c <-> heap_get c r = Some d.
Proof.
  unfold heap_get. induction c as [| [p ts] c IH]; intros Hnd.
  { split; [intros []%not_elem_of_nil | done]. }
  cbn in Hnd. apply NoDup_cons in Hnd as [Hp Hnd]. rewrite heap_list_cons, elem_of_app, page_list_get, (IH Hnd). cbn [chain_page].
  rewrite Z.sub_0_r. case_decide as E.
  - subst p. cbn. unfold index. destruct (chain_page c (page_id r)) as [ts' |] eqn:Ec.
    + exfalso. by eapply Hp, chain_page_elem.
    + cbn. destruct (Z.leb_spec 0 (slot r)); naive_solver lia.
  - naive_solver.
Qed.

Lemma heap_list_nodup c : NoDup c.*1 -> NoDup (heap_list c).*1.
Proof.
  induction c as [| [p ts] c IH]; [constructor |]. intros Hnd. cbn in Hnd. apply NoDup_cons in Hnd as [Hp Hnd]. rewrite heap_list_cons, fmap_app.
  apply NoDup_app. split_and!; [apply page_list_nodup | | by apply IH].
  intros r ([r1 d1] & -> & H1)%list_elem_of_fmap ([r2 d2] & E & H2)%list_elem_of_fmap. cbn in E. subst r2.
  apply page_list_get in H1 as (E & _). apply (heap_list_get _ _ _ Hnd) in H2. unfold heap_get in H2. cbn [fst] in *.
  destruct (chain_page c (page_id r1)) as [ts' |] eqn:Ec; [| done]. apply Hp. rewrite <- E. by eapply chain_page_elem.
Qed.

Lemma buffer_slots_eq b lo slots next p :
  heap_page b lo slots next -> forall n i, (i + n = length slots)%nat ->
  buffer_slots b p (Z.of_nat i) n = (page_list p (Z.of_nat i) (skipn i (slot_tuple b <$> slots)), None).
Proof.
  intros Hh n. induction n as [| n IH]; intros i Hi; cbn [buffer_slots].
  - by rewrite skipn_all2 by (rewrite length_fmap; lia).
  - rewrite (slotted_read_eq _ _ _ _ _ _ Hh).
    destruct (lookup_lt_is_Some_2 slots i ltac:(lia)) as [x Hx]. rewrite Hx. cbn [mbind option_bind].
    assert (Hd : skipn i (slot_tuple b <$> slots) = slot_tuple b x :: skipn (S i) (slot_tuple b <$> slots)).
    { apply drop_S. by rewrite list_lookup_fmap, Hx. }
    rewrite Hd. cbn [page_list]. replace (Z.of_nat i + 1) with (Z.of_nat (S i)) by lia.
    rewrite (IH (S i)) by lia. by destruct (slot_tuple b x).
Qed.

Section heap_specs.
Context {P : Type} `{!PageStore P, !PageStoreLaws P}.
Implicit Types (m : gmap PageId bytes).

(** ** One page *)
Lemma keeps_heap_page n gs m g b lo slots next R :
  g ∈ gs -> m !! guard_page_id g = Some b -> heap_page b lo slots next ->
  keeps n gs m (guard_page g) n
    (fun b' m' => m' = m /\ heap_page b' lo slots next /\ slot_tuple b' <$> slots = slot_tuple b <$> slots) R.
Proof.
  intros Hg Hb Hh. eapply triple_mono; [by apply keeps_guard_page | | done].
  cbn. intros b' m' [-> Hb']. rewrite Hb in Hb'. injection Hb' as ->. by destruct (heap_page_clear _ _ _ _ Hh).
Qed.

(** Writing into the free space of a page. *)
Lemma gap_write_spec n gs m t g b lo slots next off new :
  g ∈ gs -> guard_mode g = WriteGuard -> m !! guard_page_id g = Some b -> heap_page b lo slots next ->
  HEADER_SIZE + SLOT_SIZE * len slots <= off -> off + len new <= lo ->
  keeps (S n) gs m (guard_write t g off new) n
    (fun _ m' => exists b', m' = <[guard_page_id g := b']> m /\ heap_page b' lo slots next
       /\ slot_tuple b' <$> slots = slot_tuple b <$> slots
       /\ sub b' off (len new) = Some new
       /\ forall o n, 12 <= o -> o + n <= off \/ off + len new <= o -> sub b' o n = sub b o n)
    (fun m' => m' = m).
Proof.
  intros Hg Hw Hp Hh Ho Hn. pose proof (slots_room _ _ _ _ (hp_slots _ _ _ _ Hh)) as Hroom.
  pose proof (slots_page _ _ _ _ (hp_slots _ _ _ _ Hh)) as Hpg. pose proof (len_nonneg slots).
  unfold HEADER_SIZE, SLOT_SIZE in *.
  assert (Hin : off + len new <= len b) by lia.
  eapply triple_mono; [apply (keeps_write n gs m t g b); [done | done | done | lia | lia] | | done].
  cbn beta. intros _ m' [lsn ->]. destruct (heap_page_gap b lo slots next off new Hh Ho Hn) as [Hh' Ht].
  assert (Hl : len (splice b off new) = PAGE_SIZE) by (rewrite len_splice; [done | lia | done]).
  eexists. split_and!; [done | by apply heap_page_lsn | by erewrite slot_tuple_lsn | |].
  - rewrite sub_set_page_lsn by (done || lia). apply sub_splice_eq; [lia | done].
  - intros o k Hge Hd. rewrite sub_set_page_lsn by (done || lia). apply sub_splice_ne; [lia | done | lia].
Qed.

(** What a failed insert leaves of the page it works on: the page as it was. *)
Definition page_kept m p (lo : Z) slots next (ts : list (option bytes)) m' : Prop :=
  exists b', m' = <[p := b']> m /\ heap_page b' lo slots next /\ slot_tuple b' <$> slots = ts.

Lemma page_kept_refl m p b lo slots next :
  m !! p = Some b -> heap_page b lo slots next -> page_kept m p lo slots next (slot_tuple b <$> slots) m.
Proof. intros Hb Hh. exists b. by rewrite insert_id. Qed.

(** Whether a tuple fits in a page. *)
Definition fits (lo : Z) (slots : list (Z * Z)) (data : bytes) : Prop :=
  HEADER_SIZE + SLOT_SIZE * (len slots + 1) + len data <= lo.
#[local] Instance fits_dec lo slots data : Decision (fits lo slots data).
Proof. unfold fits. apply _. Defined.

Lemma slotted_insert_fits n gs m t g b lo slots next data :
  g ∈ gs -> guard_mode g = WriteGuard -> m !! guard_page_id g = Some b -> heap_page b lo slots next -> 0 < len data ->
  fits lo slots data ->
  keeps (3 + n) gs m (slotted_insert t g data) n
    (fun r m' => r = Some (len slots) /\ exists b' lo' slots',
       m' = <[guard_page_id g := b']> m /\ heap_page b' lo' slots' next
       /\ slot_tuple b' <$> slots' = (slot_tuple b <$> slots) ++ [Some data])
    (page_kept m (guard_page_id g) lo slots next (slot_tuple b <$> slots)).
Proof.
  intros Hg Hw Hp Hh Hd Hfit. unfold fits in Hfit. unfold slotted_insert. set (p := guard_page_id g) in *.
  eapply triple_bind; [by apply (keeps_heap_page (3 + n)) | lia |].
  cbn beta. intros b0 m0 (-> & Hh0 & _).
  rewrite (slotted_slot_count_eq _ _ _ _ Hh0), (slotted_data_start_eq _ _ _ _ Hh0). clear b0 Hh0.
  pose proof (slots_room _ _ _ _ (hp_slots _ _ _ _ Hh)) as Hroom. pose proof (len_nonneg slots) as Hn.
  rewrite (proj2 (Z.ltb_ge lo _)) by page_lia.
  set (off := lo - len data). assert (Hoff : off = lo - len data) by done. clearbody off.
  eapply (triple_bind _ _ _ _ _ (2 + n)); [| lia |].
  { eapply triple_mono; [apply (gap_write_spec (2 + n) gs m t g b lo slots next off data) | intros b1 s1 H; exact H |];
      try done; [page_lia.. |]. intros m' ->. by apply page_kept_refl. }
  cbn beta. intros _ m1 (b1 & -> & Hh1 & Ht1 & Hd1 & Hk1). fold p in Hk1 |- *.
  eapply (triple_bind _ _ _ _ _ (1 + n)); [| lia |].
  { eapply triple_mono; [apply (gap_write_spec (1 + n) gs _ t g b1 lo slots next) | intros b2 s2 H; exact H |]; try done.
    - fold p. by rewrite lookup_insert_eq.
    - page_lia.
    - autorewrite with len. page_lia.
    - intros m' ->. by exists b1. }
  cbn beta. intros _ m2 (b2 & -> & Hh2 & Ht2 & Hd2 & Hk2). fold p. rewrite insert_insert_eq.
  assert (Hpg : len b2 = PAGE_SIZE) by apply (slots_page _ _ _ _ (hp_slots _ _ _ _ Hh2)).
  assert (Hdata : sub b2 off (len data) = Some data).
  { rewrite Hk2; [done | page_lia |]. autorewrite with len. page_lia. }
  assert (Hslot : sub b2 (slot_offset (len slots)) SLOT_SIZE = Some (slot_bytes (off, len data))).
  { autorewrite with len in Hd2. exact Hd2. }
  destruct (heap_page_commit b2 lo slots next off data Hh2) as [Hh3 Ht3]; try done; [page_lia | lia |].
  eapply (triple_bind _ _ _ _ _ n); [| lia |].
  { eapply triple_mono; [apply (keeps_write n gs _ t g b2) | intros b3 s3 H; exact H |]; try done.
    - fold p. by rewrite lookup_insert_eq.
    - intros m' ->. exists b2. by rewrite Ht2, Ht1. }
  cbn beta. intros _ m3 (lsn & ->). fold p. rewrite insert_insert_eq. apply triple_ret; [lia | done |].
  split; [done |]. eexists _, off, (slots ++ [(off, len data)]). split_and!; [done | by apply heap_page_lsn |].
  erewrite slot_tuple_lsn by done. by rewrite Ht3, Ht2, Ht1.
Qed.

Lemma slotted_insert_full n gs m t g b lo slots next data R :
  g ∈ gs -> m !! guard_page_id g = Some b -> heap_page b lo slots next -> ~ fits lo slots data ->
  keeps n gs m (slotted_insert t g data) n (fun r m' => r = None /\ m' = m) R.
Proof.
  intros Hg Hp Hh Hfull. unfold slotted_insert. unfold fits in Hfull.
  eapply triple_bind; [by apply (keeps_heap_page n) | lia |].
  cbn beta. intros b0 m0 (-> & Hh0 & _).
  rewrite (slotted_slot_count_eq _ _ _ _ Hh0), (slotted_data_start_eq _ _ _ _ Hh0).
  rewrite (proj2 (Z.ltb_lt lo _)) by page_lia. by apply triple_ret.
Qed.

(** Inserting into the current page of a chain, and finding that it is full. *)
Lemma insert_here_fits n gs m t g b lo slots next data :
  g ∈ gs -> guard_mode g = WriteGuard -> m !! guard_page_id g = Some b -> heap_page b lo slots next -> 0 < len data ->
  fits lo slots data ->
  keeps (3 + n) gs m (insert_here t data g) n
    (fun r m' => r = inl (len slots) /\ exists b' lo' slots',
       m' = <[guard_page_id g := b']> m /\ heap_page b' lo' slots' next
       /\ slot_tuple b' <$> slots' = (slot_tuple b <$> slots) ++ [Some data])
    (page_kept m (guard_page_id g) lo slots next (slot_tuple b <$> slots)).
Proof.
  intros Hg Hw Hp Hh Hd Hfit. unfold insert_here. eapply triple_bind; [by apply slotted_insert_fits | done |].
  cbn beta. intros r m1 [-> H]. by apply triple_ret.
Qed.

Lemma insert_here_full n gs m t g b lo slots next data R :
  g ∈ gs -> m !! guard_page_id g = Some b -> heap_page b lo slots next -> ~ fits lo slots data ->
  keeps n gs m (insert_here t data g) n
    (fun r m' => r = inr (if next =? 0 then None else Some next) /\ m' = m) R.
Proof.
  intros Hg Hp Hh Hfull. unfold insert_here. eapply triple_bind; [by eapply (slotted_insert_full n) | done |].
  cbn beta. intros r m1 [-> ->]. eapply triple_bind; [by apply (keeps_heap_page n) | done |].
  cbn beta. intros b0 m0 (-> & Hh0 & _). apply triple_ret; [done.. |]. by rewrite (next_page_id_eq _ _ _ _ Hh0).
Qed.

(** Appending a page: the chain has one more, empty page; on an error it may have it or not. *)
Lemma append_page_spec n m t p ts :
  page_holds m p ts NO_NEXT_PAGE ->
  keeps (3 + n) [] m (append_page_after t p) n
    (fun q m' => 0 < q < 2 ^ 32 /\ m !! q = None /\ page_holds m' p ts q
       /\ (exists bq, m' !! q = Some bq /\ heap_page bq PAGE_SIZE [] NO_NEXT_PAGE)
       /\ forall r b, r <> p -> m !! r = Some b -> m' !! r = Some b)
    (fun m' => m ⊆ m').
Proof.
  intros (b & lo & slots & Hb & Hh & Ht). unfold append_page_after.
  eapply triple_bind; [apply (triple_new_page (2 + n)) | lia |].
  cbn beta. intros g m1 (Hw & Hq & Hfresh & Hzero & Hsub). set (q := guard_page_id g) in *.
  assert (Hpq : p <> q) by congruence.
  eapply (triple_bind _ _ _ _ _ (1 + n)); [apply triple_with_guard | lia |].
  { eapply triple_mono; [apply (keeps_write (1 + n) [g] m1 t g zero_page 12 (replicate 8 Byte.x00)) |
      intros u m' H; exact H | by intros m' ->]; try done. set_solver. }
  cbn beta. intros _ m2 (lsn & ->). fold q.
  assert (Hsub2 : m ⊆ <[q := set_page_lsn lsn (splice zero_page 12 (replicate 8 Byte.x00))]> m1).
  { apply map_subseteq_spec. intros r x Hr. rewrite lookup_insert_ne by congruence. by eapply lookup_weaken. }
  set (m2 := <[q := _]> m1) in *.
  assert (Hb2 : m2 !! p = Some b) by (by eapply lookup_weaken).
  eapply (triple_bind _ _ _ _ _ (1 + n)); [| lia |].
  { eapply triple_mono; [apply (triple_fetch WriteGuard); set_solver | intros lg m' H; exact H | by intros m' ->]. }
  cbn beta. intros lg m3 (-> & Hlg & Hlw).
  eapply (triple_bind _ _ _ _ _ n); [apply triple_with_guard | lia |].
  { eapply triple_mono; [apply (keeps_write n [lg] m2 t lg b 16 (to_le 4 q)) | intros u m' H; exact H |
      by intros m' ->]; try done; [set_solver | by rewrite Hlg]. }
  cbn beta. intros _ m4 (lsn' & ->). rewrite Hlg. apply triple_ret; [done | done |]. fold q.
  destruct (link_heap_page b lo slots NO_NEXT_PAGE q lsn' Hh) as [Hl1 Hl2]; [unfold in_u; lia |].
  split_and!; [lia | lia | done | | |].
  - eexists _, lo, slots. rewrite lookup_insert_eq. by rewrite Hl2.
  - eexists. rewrite lookup_insert_ne by done. unfold m2. rewrite lookup_insert_eq. split; [done | apply init_heap_page].
  - intros r x Hrp Hr. rewrite lookup_insert_ne by done. by eapply lookup_weaken.
Qed.

(** The appended page takes the tuple. *)
Lemma insert_fresh_spec fuel n m t q bq data :
  m !! q = Some bq -> heap_page bq PAGE_SIZE [] NO_NEXT_PAGE ->
  0 < len data <= MAX_TUPLE_SIZE -> (0 < fuel)%nat ->
  keeps (3 + n) [] m (insert_loop fuel t data q) n
    (fun rid m' => rid = mkRid q 0 /\ exists b' lo' slots', m' = <[q := b']> m
       /\ heap_page b' lo' slots' NO_NEXT_PAGE /\ slot_tuple b' <$> slots' = [Some data])
    (fun m' => exists b' lo' slots', m' = <[q := b']> m
       /\ heap_page b' lo' slots' NO_NEXT_PAGE /\ slot_tuple b' <$> slots' = []).
Proof.
  intros Hq Hh Hd Hf. destruct fuel as [| fuel]; [lia |]. cbn [insert_loop].
  eapply (triple_bind _ _ _ _ _ (3 + n)); [| lia |].
  { eapply triple_mono; [apply (triple_fetch WriteGuard); set_solver | intros g m' H; exact H |].
    intros m' ->. exists bq, PAGE_SIZE, []. by rewrite insert_id. }
  cbn beta. intros g m1 (-> & Hg & Hw). eapply (triple_bind _ _ _ _ _ n); [apply triple_with_guard | lia |].
  { eapply triple_mono; [apply (insert_here_fits n [g] m t g bq PAGE_SIZE [] NO_NEXT_PAGE data) |
      intros r m' H; exact H |]; try done; [set_solver | by rewrite Hg | lia | |].
    - unfold fits. unfold MAX_TUPLE_SIZE in Hd. change (@len (Z * Z) []) with 0. page_lia.
    - rewrite Hg. intros m' (b' & -> & Hh' & Ht). by exists b', PAGE_SIZE, []. }
  rewrite Hg. cbn beta. intros r m2 (-> & b' & lo' & slots' & -> & Hh' & Ht).
  apply triple_ret; [lia | done |]. split; [done |]. by exists b', lo', slots'.
Qed.

(** The last page of the chain is full: a page is appended and takes the tuple. *)
Lemma insert_append_spec fuel n m t p ts data :
  heap_rep m [(p, ts)] -> 0 < len data <= MAX_TUPLE_SIZE -> (0 < fuel)%nat ->
  keeps (6 + n) [] m (next ← append_page_after t p; insert_loop fuel t data next) n
    (insert_done m [(p, ts)] data) (insert_failed m [(p, ts)]).
Proof.
  intros Hrep Hd Hf. pose proof Hrep as (Hp0 & Hpage & _).
  eapply (triple_bind _ _ _ _ _ (3 + n)); [| lia |].
  { eapply triple_mono; [apply (append_page_spec (3 + n)); exact Hpage | intros q m' H; exact H |].
    intros m' Hsub. by apply insert_failed_same. }
  cbn beta. intros q m1 (Hq & Hfresh & Hp1 & (bq & Hbq & Hhq) & Hk).
  assert (Hpq : p <> q) by (destruct Hpage as (b & ? & ? & Hb & _); congruence).
  assert (Hsame : forall b', same_elsewhere [(p, ts)] m (<[q := b']> m1) /\ page_holds (<[q := b']> m1) p ts q).
  { intros b'. split.
    - intros r br Hr Hn. rewrite lookup_insert_ne by congruence. apply Hk; [set_solver | done].
    - eapply page_holds_frame; [done |]. by rewrite lookup_insert_ne. }
  assert (Hrep' : forall b' lo' slots' ts', heap_page b' lo' slots' NO_NEXT_PAGE -> slot_tuple b' <$> slots' = ts' ->
    heap_rep (<[q := b']> m1) [(p, ts); (q, ts')]).
  { intros b' lo' slots' ts' Hh' Ht'. split_and!; [done | apply Hsame |]. split_and!; [unfold NO_NEXT_PAGE; lia | | done].
    exists b', lo', slots'. by rewrite lookup_insert_eq. }
  eapply triple_mono; [by apply (insert_fresh_spec fuel n m1 t q bq data) | |].
  - intros rid m' (-> & b' & lo' & slots' & -> & Hh' & Ht'). split; [apply Hsame |].
    exists [(p, ts); (q, [])], [(p, ts); (q, [Some data])].
    split_and!; [right; by exists q | by exists [(p, ts)], [], [] | by eapply Hrep'].
  - intros m' (b' & lo' & slots' & -> & Hh' & Ht'). split; [apply Hsame |].
    exists [(p, ts); (q, [])]. split; [right; by exists q | by eapply Hrep'].
Qed.

Lemma insert_loop_spec data c : 0 < len data <= MAX_TUPLE_SIZE -> c <> [] -> forall fuel n m t,
  heap_rep m c -> NoDup c.*1 -> (length c < fuel)%nat ->
  keeps (6 + n) [] m (insert_loop fuel t data (head_page c)) n (insert_done m c data) (insert_failed m c).
Proof.
  intros Hd Hne. induction c as [| [p ts] rest IH]; [done |]. clear Hne.
  intros fuel n m t Hrep Hnd Hf. pose proof Hrep as (Hp0 & Hpage & Hrest).
  pose proof Hpage as (b & lo & slots & Hb & Hh & Ht).
  destruct fuel as [| fuel]; [simpl in Hf; lia |]. cbn [insert_loop head_page].
  eapply (triple_bind _ _ _ _ _ (6 + n)); [| lia |].
  { eapply triple_mono; [apply (triple_fetch WriteGuard); set_solver | intros g m' H; exact H |].
    intros m' ->. by apply insert_failed_same. }
  cbn beta. intros g m1 (-> & Hg & Hw). destruct (decide (fits lo slots data)) as [Hfit | Hfull].
  { eapply (triple_bind _ _ _ _ _ (3 + n)); [apply triple_with_guard | lia |].
    - eapply triple_mono; [apply (insert_here_fits (3 + n) [g] m t g b lo slots (head_page rest) data) |
        intros r m' H; exact H |]; try done; [set_solver | by rewrite Hg | lia |].
      rewrite Hg. intros m' (b' & Hm' & Hh' & Ht'). rewrite Ht in Ht'.
      destruct (heap_rep_head m m' p ts ts rest b' lo slots Hrep Hnd Hm' Hh' Ht'). split; [done |].
      exists ((p, ts) :: rest). split; [by left | done].
    - rewrite Hg. cbn beta. intros r m' (-> & b' & lo' & slots' & Hm' & Hh' & Ht'). rewrite Ht in Ht'.
      destruct (heap_rep_head m m' p ts _ rest b' lo' slots' Hrep Hnd Hm' Hh' Ht'). apply triple_ret; [lia | done |].
      split; [done |]. exists ((p, ts) :: rest), ((p, ts ++ [Some data]) :: rest).
      split_and!; [by left | | done]. exists [], ts, rest. split_and!; [done | | done]. cbn. by rewrite <- Ht, len_fmap. }
  eapply (triple_bind _ _ _ _ _ (6 + n)); [apply triple_with_guard | lia |].
  { eapply (insert_here_full (6 + n)); [set_solver | rewrite Hg; exact Hb | exact Hh | exact Hfull]. }
  cbn beta. intros r m' [-> ->]. destruct rest as [| [p' ts'] rest'].
  - cbn [head_page]. change (NO_NEXT_PAGE =? 0) with true. cbn iota. apply insert_append_spec; try done. simpl in Hf. lia.
  - pose proof Hrest as (Hp'0 & _). cbn [head_page]. rewrite (proj2 (Z.eqb_neq p' 0)) by done.
    pose proof (NoDup_cons_1_2 _ _ Hnd) as Hnd'.
    eapply triple_mono; [apply (IH ltac:(done) fuel n m t Hrest Hnd'); simpl in Hf |- *; lia | |].
    + intros rid m' H. by apply insert_done_cons.
    + intros m' H. by apply insert_failed_cons.
Qed.

(** ** The table heap *)
(** At most one page is added, a new one. *)
Definition grows (m : gmap PageId bytes) (c c' : chain) : Prop := fresh_or m c.*1 c'.*1 /\ (length c' <= S (length c))%nat.
Lemma grown_grows m c c0 : grown m c c0 -> grows m c c0.
Proof.
  intros [-> | (q & Hq & ->)]; [split; [apply fresh_or_refl | lia] |]. split; [| rewrite length_app; cbn; lia].
  rewrite fmap_app. intros r [Hr | ->%list_elem_of_singleton]%elem_of_app; auto.
Qed.
Lemma add_tuple_pages c rid data c' : add_tuple c rid data c' -> c'.*1 = c.*1.
Proof. intros (pre & ts & post & -> & _ & ->). by rewrite !fmap_app. Qed.

Lemma insert_tuple_chain_spec n m t fuel first c data :
  heap_ok m first c -> 0 < len data <= MAX_TUPLE_SIZE -> (length c < fuel)%nat ->
  keeps (6 + n) [] m (insert_tuple fuel t first data) n
    (fun rid m' => same_elsewhere c m m' /\ heap_get c rid = None /\ exists c', heap_ok m' first c' /\ grows m c c'
       /\ forall r, heap_get c' r = if decide (r = rid) then Some data else heap_get c r)
    (fun m' => same_elsewhere c m m' /\ exists c', heap_ok m' first c' /\ grows m c c' /\ forall r, heap_get c' r = heap_get c r).
Proof.
  intros (Hne & <- & Hrep & Hnd) Hd Hf. unfold insert_tuple. rewrite (proj2 (Z.ltb_ge _ _)) by lia.
  eapply triple_mono; [by apply insert_loop_spec | |].
  - intros rid m' (Hsame & c0 & c' & Hg & Ha & Hr'). destruct (grown_get _ _ _ Hrep Hnd Hg) as [Hnd0 Hget0].
    destruct (add_tuple_get _ _ _ _ Hnd0 Ha) as (Hnd' & Hnone & Hget'). rewrite Hget0 in Hnone.
    split_and!; [done.. |]. exists c'. split_and!.
    + split_and!; [| | done..].
      * destruct Ha as (pre & ? & ? & _ & _ & ->). by destruct pre.
      * by rewrite (add_tuple_head _ _ _ _ Ha), (grown_head _ _ _ Hne Hg).
    + pose proof (add_tuple_pages _ _ _ _ Ha) as Hp. unfold grows. rewrite Hp, <- (length_fmap fst c'), Hp, length_fmap. by apply grown_grows.
    + intros r. by rewrite Hget', Hget0.
  - intros m' (Hsame & c0 & Hg & Hr'). destruct (grown_get _ _ _ Hrep Hnd Hg) as [Hnd0 Hget0].
    split_and!; [done.. |]. exists c0. split_and!; [| by apply grown_grows | done]. split_and!; [| | done..].
    + destruct Hg as [-> | (? & _ & ->)]; [done |]. by destruct c.
    + by rewrite (grown_head _ _ _ Hne Hg).
Qed.
Lemma insert_tuple_spec n m t fuel first c data :
  heap_ok m first c -> 0 < len data <= MAX_TUPLE_SIZE -> (length c < fuel)%nat ->
  keeps (6 + n) [] m (insert_tuple fuel t first data) n
    (fun rid m' => same_elsewhere c m m' /\ heap_get c rid = None /\ exists c', heap_ok m' first c'
       /\ forall r, heap_get c' r = if decide (r = rid) then Some data else heap_get c r)
    (fun m' => same_elsewhere c m m' /\ exists c', heap_ok m' first c' /\ forall r, heap_get c' r = heap_get c r).
Proof.
  intros H1 H2 H3. eapply triple_mono; [by apply (insert_tuple_chain_spec n m t fuel first c data) | naive_solver | naive_solver].
Qed.

Lemma heap_create_spec n m t :
  keeps (2 + n) [] m (heap_create t) n
    (fun first m' => m !! first = None /\ m ⊆ m' /\ heap_ok m' first [(first, [])]) (fun m' => m ⊆ m').
Proof.
  unfold heap_create. eapply triple_bind; [apply (triple_new_page (1 + n)) | lia |].
  cbn beta. intros g m1 (Hw & Hq & Hfresh & Hzero & Hsub). set (q := guard_page_id g) in *.
  eapply (triple_bind _ _ _ _ _ n); [apply triple_with_guard | lia |].
  { eapply triple_mono; [apply (keeps_write n [g] m1 t g zero_page 12 (replicate 8 Byte.x00)) |
      intros u m' H; exact H | by intros m' ->]; try done. set_solver. }
  cbn beta. intros _ m2 (lsn & ->). fold q. apply triple_ret; [lia | done |]. split_and!; [done | |].
  - apply map_subseteq_spec. intros r x Hr. rewrite lookup_insert_ne by congruence. by eapply lookup_weaken.
  - split_and!; [done | done | | apply NoDup_singleton]. split_and!; [unfold NO_NEXT_PAGE; lia | | done].
    eexists _, _, []. rewrite lookup_insert_eq. split_and!; [done | apply init_heap_page | done].
Qed.

(** A page of the heap, as a read guard shows it. *)
Lemma heap_read_page_spec {A} n m c p ts (f : bytes -> outcome Storage.Error A) a :
  heap_rep m c -> chain_page c p = Some ts ->
  (forall b lo slots next, page_holds m p ts next -> heap_page b lo slots next -> slot_tuple b <$> slots = ts -> f b = Ok a) ->
  keeps n [] m (read_page p f) n (fun r m' => r = a /\ m' = m) (fun m' => m' = m).
Proof.
  intros Hrep Hc Hf. destruct (chain_page_holds _ _ _ _ Hrep Hc) as (next & Hp).
  pose proof Hp as (b & lo & slots & Hb & Hh & Ht).
  apply (keeps_guarded ReadGuard n [] m p (fun g => b ← guard_page g; lift (f b))); [set_solver | done | done |].
  intros g Hg _. eapply (triple_bind _ _ _ _ _ n); [| lia |].
  { apply (keeps_heap_page n [g] m g b lo slots next); [set_solver | by rewrite Hg | done]. }
  cbn beta. intros b' m' (-> & Hh' & Ht'). apply triple_lift; [lia |].
  rewrite (Hf b' lo slots next); try done. by rewrite Ht'.
Qed.

Lemma chain_page_in c p : p ∈ c.*1 -> exists ts, chain_page c p = Some ts.
Proof.
  induction c as [| [q tq] c IH]; cbn in *; [set_solver |]. intros Hin. case_decide; [by eexists |].
  apply IH. set_solver.
Qed.

Lemma get_tuple_spec n m c first rid :
  heap_ok m first c -> page_id rid ∈ c.*1 -> 0 <= slot rid ->
  keeps n [] m (get_tuple rid) n (fun r m' => r = heap_get c rid /\ m' = m) (fun m' => m' = m).
Proof.
  intros (_ & _ & Hrep & Hnd) Hin Hsl. destruct (chain_page_in _ _ Hin) as [ts Hc]. unfold get_tuple.
  eapply heap_read_page_spec; [done | done |]. intros b lo slots next _ Hh Ht. unfold heap_get. rewrite Hc. cbn.
  replace (slot rid) with (Z.of_nat (Z.to_nat (slot rid))) at 1 by lia.
  rewrite (slotted_read_eq _ _ _ _ _ _ Hh). f_equal.
  unfold index. rewrite (proj2 (Z.leb_le 0 _)) by done. rewrite <- Ht, list_lookup_fmap.
  by destruct (slots !! Z.to_nat (slot rid)).
Qed.

(** Both in-place operations rewrite one slot of one page. *)
Lemma set_slot_spec n m c first rid d o (body : PageGuard -> M P Storage.Error unit) :
  heap_ok m first c -> heap_get c rid = Some d ->
  (forall g b lo slots next, guard_page_id g = page_id rid -> guard_mode g = WriteGuard ->
     m !! page_id rid = Some b -> heap_page b lo slots next ->
     (slot_tuple b <$> slots) !! Z.to_nat (slot rid) = Some (Some d) ->
     keeps (1 + n) [g] m (body g) n (fun _ m' => exists b' lo' slots', m' = <[page_id rid := b']> m
        /\ heap_page b' lo' slots' next
        /\ slot_tuple b' <$> slots' = <[Z.to_nat (slot rid) := o]> (slot_tuple b <$> slots)) (fun m' => m' = m)) ->
  keeps (1 + n) [] m (g ← fetch_page (page_id rid); with_guard g (body g)) n
    (fun _ m' => same_elsewhere c m m' /\ exists c', heap_ok m' first c' /\ c'.*1 = c.*1
       /\ forall r, heap_get c' r = if decide (r = rid) then o else heap_get c r)
    (fun m' => m' = m).
Proof.
  intros (Hne & Hhd & Hrep & Hnd) Hd Hbody. pose proof Hd as Hd'. unfold heap_get in Hd'.
  destruct (chain_page c (page_id rid)) as [ts |] eqn:Hc; [| done]. cbn in Hd'.
  unfold index in Hd'. destruct (Z.leb_spec 0 (slot rid)); [| done].
  destruct (ts !! Z.to_nat (slot rid)) as [od |] eqn:Hslot; [| done]. cbn in Hd'. subst od.
  destruct (chain_page_holds _ _ _ _ Hrep Hc) as (next & Hp). pose proof Hp as (b & lo & slots & Hb & Hh & Ht).
  apply (keeps_guarded WriteGuard (1 + n) [] m (page_id rid) body); [set_solver | lia | done |].
  intros g Hg Hw. eapply triple_mono; [apply (Hbody g b lo slots next) | | done]; try done; [by rewrite Ht |].
  cbn beta. intros _ m' (b' & lo' & slots' & -> & Hh' & Ht'). rewrite Ht in Ht'. split.
  - intros q bq Hq Hn. rewrite lookup_insert_ne; [done |]. intros <-. by eapply Hn, chain_page_elem.
  - exists (set_slot c rid o). split_and!; [| by rewrite set_slot_pages | intros r; by apply (heap_get_set_slot c rid o d)].
    split_and!; [by destruct c | by rewrite set_slot_head | by eapply heap_rep_set_slot | by rewrite set_slot_pages].
Qed.

(** A live slot of a page. *)
Lemma live_slot b (slots : list (Z * Z)) (i : nat) d :
  (slot_tuple b <$> slots) !! i = Some (Some d) ->
  exists x, slots !! i = Some x /\ x.2 <> 0 /\ d = slot_content b x.
Proof.
  rewrite list_lookup_fmap. destruct (slots !! i) as [x |]; [| done]. cbn. unfold slot_tuple.
  destruct (Z.eqb_spec x.2 0); [done |]. intros [= <-]. by exists x.
Qed.

Lemma delete_tuple_spec n m t c first rid d :
  heap_ok m first c -> heap_get c rid = Some d -> 0 <= slot rid ->
  keeps (1 + n) [] m (delete_tuple t rid) n
    (fun _ m' => same_elsewhere c m m' /\ exists c', heap_ok m' first c' /\ c'.*1 = c.*1
       /\ forall r, heap_get c' r = if decide (r = rid) then None else heap_get c r)
    (fun m' => m' = m).
Proof.
  intros Hok Hd Hsl. unfold delete_tuple. eapply set_slot_spec; [done | done |].
  intros g b lo slots next Hg Hw Hb Hh (x & Hx & Hx2 & _)%live_slot.
  unfold slotted_delete. eapply (triple_bind _ _ _ _ _ (1 + n)); [| lia |].
  { apply (keeps_heap_page (1 + n) [g] m g b lo slots next); [set_solver | by rewrite Hg | done]. }
  cbn beta. intros b' m' (-> & Hh' & _).
  replace (slotted_slot_entry b' (slot rid) _) with (Ok (E := Storage.Error) (Some x)).
  2: { rewrite <- Hx, <- (slotted_slot_entry_eq b' lo slots next (guard_page_id g)) by done. f_equal. lia. }
  eapply (triple_bind _ _ _ _ _ (1 + n) (fun _ => [g]) (fun e m' => e = Some x /\ m' = m)); [by apply triple_lift | lia |].
  intros e m' [-> ->].
  assert (Hroom : slot_offset (slot rid) + 2 + 2 <= PAGE_SIZE).
  { pose proof (slots_room _ _ _ _ (hp_slots _ _ _ _ Hh)). pose proof (slot_index_lt _ _ Hx). page_lia. }
  eapply triple_mono; [apply (keeps_write n [g] m t g b) | | done]; try done; [set_solver | by rewrite Hg | page_lia |].
  rewrite Hg. intros _ m' [lsn ->]. replace (slot rid) with (Z.of_nat (Z.to_nat (slot rid))) by lia.
  destruct (heap_page_delete b lo slots next (Z.to_nat (slot rid)) x lsn Hh Hx) as [H1 H2].
  eexists _, lo, _. split_and!; [done | exact H1 |]. rewrite H2. f_equal. lia.
Qed.

Lemma update_tuple_spec n m t c first rid d off new :
  heap_ok m first c -> heap_get c rid = Some d -> 0 <= slot rid -> 0 <= off -> off + len new <= len d ->
  keeps (1 + n) [] m (update_tuple_in_place t rid off new) n
    (fun _ m' => same_elsewhere c m m' /\ exists c', heap_ok m' first c' /\ c'.*1 = c.*1
       /\ forall r, heap_get c' r = if decide (r = rid) then Some (splice d off new) else heap_get c r)
    (fun m' => m' = m).
Proof.
  intros Hok Hd Hsl Ho Hlen. unfold update_tuple_in_place. eapply set_slot_spec; [done | done |].
  intros g b lo slots next Hg Hw Hb Hh (x & Hx & Hx2 & ->)%live_slot.
  pose proof (hp_slots _ _ _ _ Hh) as Hsa. destruct (slot_lookup_range _ _ Hsa Hx) as (Hx1 & Hx0 & Hxe).
  assert (Hlx : len (slot_content b x) = x.2) by (by eapply sub_len, slot_content_sub).
  unfold update_in_place. eapply (triple_bind _ _ _ _ _ (1 + n)); [| lia |].
  { apply (keeps_heap_page (1 + n) [g] m g b lo slots next); [set_solver | by rewrite Hg | done]. }
  cbn beta. intros b' m' (-> & Hh' & _).
  replace (slotted_slot_entry b' (slot rid) _) with (Ok (E := Storage.Error) (Some x)).
  2: { rewrite <- Hx, <- (slotted_slot_entry_eq b' lo slots next (guard_page_id g)) by done. f_equal. lia. }
  eapply (triple_bind _ _ _ _ _ (1 + n) (fun _ => [g]) (fun e m' => e = Some x /\ m' = m)); [by apply triple_lift | lia |].
  intros e m' [-> ->]. destruct x as [xo xl]. cbn [fst snd] in *.
  rewrite (proj2 (Z.eqb_neq xl 0)) by lia. rewrite (proj2 (Z.ltb_ge xl _)) by lia.
  pose proof (slots_room _ _ _ _ Hsa). pose proof (len_nonneg slots).
  eapply triple_mono; [apply (keeps_write n [g] m t g b) | | done]; try done; [set_solver | by rewrite Hg | page_lia | lia |].
  rewrite Hg. intros _ m' [lsn ->].
  destruct (heap_page_patch b lo slots next (Z.to_nat (slot rid)) (xo, xl) off new lsn Hh Hx) as [H1 H2]; cbn [fst snd]; try lia.
  eexists _, lo, _. split_and!; [done | exact H1 | exact H2].
Qed.

(** ** Scanning *)
Lemma page_holds_next m p ts ts' next next' : page_holds m p ts next -> page_holds m p ts' next' -> next = next'.
Proof.
  intros (b & lo & slots & Hb & Hh & _) (b' & lo' & slots' & Hb' & Hh' & _).
  assert (b = b') as -> by congruence. by eapply heap_page_next.
Qed.

(** The link to the page after. *)
Definition next_of (rest : chain) : option PageId := match rest with [] => None | (p, _) :: _ => Some p end.
Lemma next_of_link m rest : heap_rep m rest ->
  next_of rest = if head_page rest =? 0 then None else Some (head_page rest).
Proof. destruct rest as [| [p ts] rest]; [done |]. intros (Hp & _). cbn. by rewrite (proj2 (Z.eqb_neq p 0)). Qed.

Lemma scan_slots_eq b lo slots next p :
  heap_page b lo slots next -> forall n i, n = (length slots - i)%nat ->
  scan_slots b p (Z.of_nat i) n =
    Ok (match page_list p (Z.of_nat i) (skipn i (slot_tuple b <$> slots)) with
        | (r, d) :: _ => ScanTuple (slot r) d
        | [] => EndOfPage (if next =? 0 then None else Some next)
        end).
Proof.
  intros Hh n. induction n as [| n IH]; intros i Hi; cbn [scan_slots].
  - rewrite skipn_all2 by (rewrite length_fmap; lia). cbn. by rewrite (next_page_id_eq _ _ _ _ Hh).
  - rewrite (slotted_read_eq _ _ _ _ _ _ Hh).
    destruct (lookup_lt_is_Some_2 slots i ltac:(lia)) as [x Hx]. rewrite Hx. cbn [mbind option_bind outcome_bind].
    assert (Hd : skipn i (slot_tuple b <$> slots) = slot_tuple b x :: skipn (S i) (slot_tuple b <$> slots)).
    { apply drop_S. by rewrite list_lookup_fmap, Hx. }
    rewrite Hd. cbn [page_list]. replace (Z.of_nat i + 1) with (Z.of_nat (S i)) by lia.
    destruct (slot_tuple b x); [done |]. rewrite (IH (S i)) by lia. done.
Qed.

Lemma scan_page_spec n m p ts rest (i : nat) :
  heap_rep m ((p, ts) :: rest) ->
  keeps n [] m (scan_page p (Z.of_nat i)) n
    (fun r m' => r = match page_list p (Z.of_nat i) (skipn i ts) with
                     | (rid, d) :: _ => ScanTuple (slot rid) d
                     | [] => EndOfPage (next_of rest)
                     end /\ m' = m)
    (fun m' => m' = m).
Proof.
  intros Hrep. pose proof Hrep as (Hp0 & Hp & Hrest). unfold scan_page.
  apply (heap_read_page_spec n m ((p, ts) :: rest) p ts); [done | cbn; by rewrite decide_True |].
  intros b lo slots next Hpn Hh Ht.
  rewrite (checked_slot_count_eq _ _ _ _ _ Hh). cbn [mbind outcome_bind].
  rewrite (scan_slots_eq b lo slots next p Hh) by (unfold len; lia). rewrite Ht. f_equal.
  rewrite (next_of_link m rest) by done. by rewrite (page_holds_next _ _ _ _ _ _ Hpn Hp).
Qed.

Lemma page_entries_spec n m p ts rest :
  heap_rep m ((p, ts) :: rest) ->
  keeps n [] m (read_page p (page_entries p)) n
    (fun r m' => r = (page_list p 0 ts, None, next_of rest) /\ m' = m) (fun m' => m' = m).
Proof.
  intros Hrep. pose proof Hrep as (Hp0 & Hp & Hrest).
  apply (heap_read_page_spec n m ((p, ts) :: rest) p ts); [done | cbn; by rewrite decide_True |].
  intros b lo slots next Hpn Hh Ht. unfold page_entries.
  rewrite (checked_slot_count_eq _ _ _ _ _ Hh). cbn [mbind outcome_bind]. unfold len. rewrite Nat2Z.id.
  pose proof (buffer_slots_eq b lo slots next p Hh (length slots) 0 eq_refl) as Hbs.
  change (Z.of_nat 0) with 0 in Hbs. rewrite Hbs. cbn [skipn]. rewrite Ht, (next_page_id_eq _ _ _ _ Hh).
  rewrite (next_of_link m rest) by done. by rewrite (page_holds_next _ _ _ _ _ _ Hpn Hp).
Qed.

(** The loop [for entry in heap.iter() { let entry = entry?; .. }]. *)
Fixpoint iter_collect (k fuel : nat) (it : TableIter) : M P Storage.Error (list (Rid * bytes)) := fun s =>
  match k with
  | O => (Panic, s)
  | S k =>
      match iter_next fuel it s with
      | (None, _, s) => (Ok [], s)
      | (Some (Ok e), it, s) => (l ← iter_collect k fuel it; mret (e :: l)) s
      | (Some (Err e), _, s) => (Err e, s)
      | (Some Panic, _, s) => (Panic, s)
      end
  end.

Lemma iter_next_spec n m c : heap_rep m c -> forall fuel it s,
  stored n [] s m -> current_page it = next_of c -> (length c + 1 < fuel)%nat ->
  match iter_next fuel it s with
  | (None, _, s') => buffered it ++ heap_list c = [] /\ stored n [] s' m
  | (Some (Ok e), it', s') => stored n [] s' m
      /\ exists c', current_page it' = next_of c' /\ heap_rep m c' /\ c' `suffix_of` c
      /\ buffered it ++ heap_list c = e :: buffered it' ++ heap_list c'
  | (Some (Err _), _, s') => stored n [] s' m
  | (Some Panic, _, _) => False
  end.
Proof.
  induction c as [| [p ts] c IH]; intros Hrep fuel it s Hs Hat Hf; (destruct fuel as [| fuel]; [lia |]);
    cbn [iter_next].
  - destruct (buffered it) as [| e rest] eqn:Eb; [by rewrite Hat |].
    split; [done |]. exists []. by rewrite Hat.
  - destruct (buffered it) as [| e rest] eqn:Eb.
    2: { split; [done |]. exists ((p, ts) :: c). split_and!; try done. }
    rewrite Hat. cbn [next_of]. pose proof (page_entries_spec n m p ts c Hrep s Hs) as Hpe.
    destruct (read_page p (page_entries p) s) as [[r | e |] s1]; [| by destruct Hpe as (? & ? & ->) | done].
    destruct Hpe as (m' & Hs1 & -> & ->). pose proof Hrep as (_ & _ & Hrest).
    specialize (IH Hrest fuel (mkTableIter (next_of c) (page_list p 0 ts)) s1 Hs1 eq_refl ltac:(simpl in Hf; lia)).
    destruct (iter_next fuel _ s1) as [[[[e | e |] |] it2] s2]; try done.
    destruct IH as (Hst & c' & Hat' & Hrep' & Hlen & He). split; [done |]. exists c'.
    split_and!; [done | done | by apply suffix_cons_r | exact He].
Qed.

Lemma iter_collect_spec n m : forall l c k fuel it,
  heap_rep m c -> current_page it = next_of c -> buffered it ++ heap_list c = l ->
  (length c + 1 < fuel)%nat -> (length l < k)%nat ->
  keeps n [] m (iter_collect k fuel it) n (fun l' m' => l' = l /\ m' = m) (fun m' => m' = m).
Proof.
  intros l. induction l as [| e l IH]; intros c k fuel it Hrep Hat Hl Hf Hk s Hs;
    (destruct k as [| k]; [lia |]); cbn [iter_collect];
    pose proof (iter_next_spec n m c Hrep fuel it s Hs Hat Hf) as Hx;
    destruct (iter_next fuel it s) as [[[[x | x |] |] it'] s']; try done; try (by exists m).
  - destruct Hx as (_ & c' & _ & _ & _ & E). congruence.
  - destruct Hx as [_ Hs']. by exists m.
  - destruct Hx as (Hs' & c' & Hat' & Hrep' & Hlen & E).
    assert (He : e = x /\ l = buffered it' ++ heap_list c') by (split; congruence). destruct He as [<- Hl'].
    revert s' Hs'. apply (triple_bind n [] m _ _ n (fun _ => []) (fun l' m' => l' = l /\ m' = m)); [| lia |].
    + apply suffix_length in Hlen. apply (IH c'); try done; [lia | simpl in Hk; lia].
    + intros l' m' [-> ->]. by apply triple_ret.
  - destruct Hx as [E _]. congruence.
Qed.
End heap_specs.
