(* ===== verification/Replacer.v ===== *)
(** * Page replacement: crates/storage/src/replacer.rs

    The trait [Replacer] as the buffer pool relies on it, and [LruKReplacer], which evicts the frame
    whose k-th most recent access is the oldest. *)
From stdpp Require Import sorting.
From S2P Require Import Prelude Text Value Common Errors.

(** ** The trait *)
Class Replacer (R : Type) : Type := {
  record_access : FrameId -> R -> R;
  set_evictable : FrameId -> bool -> R -> R;
  evict_where : (FrameId -> bool) -> R -> option FrameId * R;
  remove : FrameId -> R -> R;
  size : R -> Z;
}.

(** [Replacer::evict] *)
Definition evict {R} `{!Replacer R} : R -> option FrameId * R := evict_where (fun _ => true).

(** What the pool relies on: which frames the replacer knows, and which of them may go. *)
Class ReplacerLaws (R : Type) `{!Replacer R} : Type := {
  tracked : R -> gset FrameId;
  evictable : R -> gset FrameId;
  evictable_tracked r : evictable r ⊆ tracked r;
  record_access_spec f r :
    tracked (record_access f r) = {[f]} ∪ tracked r /\ evictable (record_access f r) = evictable r;
  set_evictable_spec f b r :
    tracked (set_evictable f b r) = tracked r
    /\ evictable (set_evictable f b r) =
         if decide (f ∈ tracked r) then (if b then {[f]} ∪ evictable r else evictable r ∖ {[f]})
         else evictable r;
  evict_where_spec accept r :
    match evict_where accept r with
    | (Some f, r') => f ∈ evictable r /\ accept f = true
        /\ tracked r' = tracked r ∖ {[f]} /\ evictable r' = evictable r ∖ {[f]}
    | (None, r') => r' = r /\ forall f, f ∈ evictable r -> accept f = false
    end;
  remove_spec f r :
    tracked (remove f r) = tracked r ∖ {[f]} /\ evictable (remove f r) = evictable r ∖ {[f]};
  size_spec r : size r = Z.of_nat (base.size (evictable r));
}.

(** ** [LruKReplacer] *)
Record FrameEntry : Type := mkEntry { history : list Z; is_evictable : bool }.
Record LruKReplacer : Type := mkLruK { k : Z; frames : gmap FrameId FrameEntry; clock : Z }.

(** [LruKReplacer::new]; the capacity is stored and never read. *)
Definition lru_k_new (k : Z) : LruKReplacer := mkLruK k ∅ 0.

Definition lru_k_record_access (frame_id : FrameId) (r : LruKReplacer) : LruKReplacer :=
  let timestamp := wrapu 64 (clock r + 1) in
  let entry := default (mkEntry [] false) (frames r !! frame_id) in
  let h := history entry ++ [timestamp] in
  let h := if k r <? len h then skipn 1 h else h in
  mkLruK (k r) (<[frame_id := mkEntry h (is_evictable entry)]> (frames r)) timestamp.

Definition lru_k_set_evictable (frame_id : FrameId) (b : bool) (r : LruKReplacer) : LruKReplacer :=
  mkLruK (k r) (alter (fun e => mkEntry (history e) b) frame_id (frames r)) (clock r).

(** The pair an entry is ranked by: whether it has fewer than [k] accesses, and the distance. *)
Definition rank (r : LruKReplacer) (e : FrameEntry) : bool * Z :=
  if len (history e) <? k r
  then (true, u64_max - default 0 (last (history e)))
  else (false, wrapu 64 (clock r - default 0 (head (history e)))).

(** [(is_inf, metric) > (best_inf, best_metric)] *)
Definition better (a b : bool * Z) : bool :=
  match a, b with
  | (true, _), (false, _) => true
  | (false, _), (true, _) => false
  | (_, x), (_, y) => y <? x
  end.

(** The body of the loop, for the entry at hand. *)
Definition consider (r : LruKReplacer) (accept : FrameId -> bool) (best : option (FrameId * (bool * Z)))
    (x : FrameId * FrameEntry) : option (FrameId * (bool * Z)) :=
  let '(frame_id, entry) := x in
  if negb (is_evictable entry) || negb (accept frame_id) then best else
  let m := rank r entry in
  match best with
  | None => Some (frame_id, m)
  | Some (_, b) => if better m b then Some (frame_id, m) else best
  end.
Definition pick (r : LruKReplacer) (accept : FrameId -> bool) (entries : list (FrameId * FrameEntry))
    : option (FrameId * (bool * Z)) := fold_left (consider r accept) entries None.

Definition lru_k_evict_where (accept : FrameId -> bool) (r : LruKReplacer) : option FrameId * LruKReplacer :=
  match pick r accept (map_to_list (frames r)) with
  | Some (frame_id, _) => (Some frame_id, mkLruK (k r) (delete frame_id (frames r)) (clock r))
  | None => (None, r)
  end.

Definition lru_k_remove (frame_id : FrameId) (r : LruKReplacer) : LruKReplacer :=
  mkLruK (k r) (delete frame_id (frames r)) (clock r).

Definition lru_k_size (r : LruKReplacer) : Z :=
  len (filter (fun x => is_evictable x.2 = true) (map_to_list (frames r))).

#[export] Instance lru_k_replacer : Replacer LruKReplacer := {|
  record_access := lru_k_record_access;
  set_evictable := lru_k_set_evictable;
  evict_where := lru_k_evict_where;
  remove := lru_k_remove;
  size := lru_k_size;
|}.

(** ** The laws *)
Definition lru_k_evictable (r : LruKReplacer) : gset FrameId :=
  dom (filter (fun x : FrameId * FrameEntry => is_evictable x.2 = true) (frames r)).

Lemma elem_of_lru_k_evictable f r :
  f ∈ lru_k_evictable r <-> exists e, frames r !! f = Some e /\ is_evictable e = true.
Proof.
  unfold lru_k_evictable. rewrite elem_of_dom. split.
  - intros [e [? ?]%map_lookup_filter_Some]. by exists e.
  - intros (e & ? & ?). exists e. by apply map_lookup_filter_Some.
Qed.

(** An entry the loop may choose. *)
Definition eligible (accept : FrameId -> bool) (x : FrameId * FrameEntry) : Prop :=
  is_evictable x.2 = true /\ accept x.1 = true.

Lemma consider_eligible r accept best x :
  eligible accept x -> consider r accept best x =
    match best with
    | Some (_, b) => if better (rank r x.2) b then Some (x.1, rank r x.2) else best
    | None => Some (x.1, rank r x.2)
    end.
Proof. destruct x as [f e]. intros [H1 H2]. cbn in *. by rewrite H1, H2. Qed.
Lemma consider_skip r accept best x : ~ eligible accept x -> consider r accept best x = best.
Proof.
  destruct x as [f e]. intros H. cbn. destruct (is_evictable e) eqn:E1, (accept f) eqn:E2; try done.
  exfalso. by apply H.
Qed.
#[local] Instance eligible_dec accept x : Decision (eligible accept x).
Proof. unfold eligible. apply _. Defined.

(** The loop keeps an eligible entry, and nothing it saw ranks above it. *)
Lemma better_irrefl a : better a a = false.
Proof. destruct a as [[] x]; cbn; apply Z.ltb_irrefl. Qed.
Lemma better_trans a b c : better a b = true -> better c b = false -> better c a = false.
Proof. destruct a as [[] x], b as [[] y], c as [[] z]; cbn; try done; zcase; try done; lia. Qed.
Lemma not_better_trans a b c : better b a = false -> better c b = false -> better c a = false.
Proof. destruct a as [[] x], b as [[] y], c as [[] z]; cbn; try done; zcase; try done; lia. Qed.

Definition best_of (r : LruKReplacer) (accept : FrameId -> bool) (seen : list (FrameId * FrameEntry))
    (best : option (FrameId * (bool * Z))) : Prop :=
  match best with
  | Some (f, m) => exists e, (f, e) ∈ seen /\ eligible accept (f, e) /\ m = rank r e
      /\ forall x, x ∈ seen -> eligible accept x -> better (rank r x.2) m = false
  | None => forall x, x ∈ seen -> ~ eligible accept x
  end.

Lemma pick_best r accept entries : best_of r accept entries (pick r accept entries).
Proof.
  unfold pick. induction entries as [| x l IH] using rev_ind; [intros x Hx; set_solver |].
  rewrite fold_left_app. cbn [fold_left]. set (best := fold_left _ l None) in *.
  destruct (decide (eligible accept x)) as [He | He].
  - rewrite consider_eligible by done. destruct x as [f e]. cbn [fst snd].
    destruct best as [[g b] |].
    + destruct IH as (eg & Hin & Heg & -> & Hbest). destruct (better _ _) eqn:Eb.
      * exists e. split_and!; [set_solver | done | done |]. intros y [Hy | ->%list_elem_of_singleton]%elem_of_app Hey.
        -- by eapply better_trans, Hbest.
        -- apply better_irrefl.
      * exists eg. split_and!; [set_solver | done | done |]. intros y [Hy | ->%list_elem_of_singleton]%elem_of_app Hey.
        -- by apply Hbest.
        -- done.
    + exists e. split_and!; [set_solver | done | done |]. intros y [Hy | ->%list_elem_of_singleton]%elem_of_app Hey.
      * by destruct (IH y).
      * apply better_irrefl.
  - rewrite consider_skip by done. destruct best as [[g b] |].
    + destruct IH as (eg & Hin & Heg & -> & Hbest). exists eg. split_and!; [set_solver | done | done |].
      intros y [Hy | ->%list_elem_of_singleton]%elem_of_app Hey; [by apply Hbest | done].
    + intros y [Hy | ->%list_elem_of_singleton]%elem_of_app; [by apply IH | done].
Qed.

Lemma lru_k_evict_spec accept r :
  match lru_k_evict_where accept r with
  | (Some f, r') => f ∈ lru_k_evictable r /\ accept f = true
      /\ dom (frames r') = dom (frames r) ∖ {[f]} /\ lru_k_evictable r' = lru_k_evictable r ∖ {[f]}
  | (None, r') => r' = r /\ forall f, f ∈ lru_k_evictable r -> accept f = false
  end.
Proof.
  unfold lru_k_evict_where. pose proof (pick_best r accept (map_to_list (frames r))) as H.
  destruct (pick _ _ _) as [[f m] |]; cbn in H.
  - destruct H as (e & Hin%elem_of_map_to_list & [He Ha] & _). cbn [fst snd] in *.
    split_and!; [by apply elem_of_lru_k_evictable; exists e | done | apply dom_delete_L |].
    apply set_eq. intros g. rewrite elem_of_difference, !elem_of_lru_k_evictable, elem_of_singleton. cbn.
    setoid_rewrite lookup_delete_Some. naive_solver.
  - split; [done |]. intros f (e & Hf & He)%elem_of_lru_k_evictable. destruct (accept f) eqn:Ea; [| done].
    exfalso. apply (H (f, e)); [by apply elem_of_map_to_list | done].
Qed.

Lemma lru_k_size_spec r : lru_k_size r = Z.of_nat (base.size (lru_k_evictable r)).
Proof.
  unfold lru_k_size, lru_k_evictable. rewrite size_dom, <- length_map_to_list. unfold len. f_equal.
  apply Permutation_length, NoDup_Permutation; [apply NoDup_filter, NoDup_map_to_list | apply NoDup_map_to_list |].
  intros [f e]. rewrite list_elem_of_filter, !elem_of_map_to_list, map_lookup_filter_Some. naive_solver.
Qed.

#[export] Instance lru_k_laws : ReplacerLaws LruKReplacer.
Proof.
  refine {| tracked r := dom (frames r); evictable := lru_k_evictable |}; cbn.
  - intros r f (e & Hf & _)%elem_of_lru_k_evictable. by apply elem_of_dom_2 in Hf.
  - intros f r. split; [apply dom_insert_L |]. apply set_eq. intros g.
    rewrite !elem_of_lru_k_evictable. cbn. setoid_rewrite lookup_insert_Some. split.
    + intros (e & [(-> & <-) | (Hne & Hg)] & He); [| by exists e]. cbn in He.
      destruct (frames r !! g) as [e0 |]; [by exists e0 | done].
    + intros (e & Hg & He). destruct (decide (f = g)) as [-> | Hne]; [| naive_solver].
      eexists. split; [by left |]. by rewrite Hg.
  - intros f b r. split; [apply dom_alter_L |]. apply set_eq. intros g. rewrite !elem_of_lru_k_evictable. cbn.
    setoid_rewrite lookup_alter_Some. case_decide as Hd; [apply elem_of_dom in Hd as [e0 He0] | apply not_elem_of_dom in Hd].
    + destruct b; [rewrite elem_of_union | rewrite elem_of_difference]; rewrite elem_of_singleton, elem_of_lru_k_evictable.
      * split; [naive_solver |]. intros [-> | (e & Hg & He)]; [naive_solver |].
        destruct (decide (f = g)) as [-> | Hne]; [| naive_solver]. exists (mkEntry (history e) true). naive_solver.
      * split; [naive_solver |]. intros [(e & Hg & He) Hne]. naive_solver.
    + rewrite elem_of_lru_k_evictable. split; [naive_solver |]. intros (e & Hg & He). exists e. split; [| done].
      right. split; [| done]. congruence.
  - intros accept r. apply lru_k_evict_spec.
  - intros f r. split; [apply dom_delete_L |]. apply set_eq. intros g.
    rewrite elem_of_difference, !elem_of_lru_k_evictable, elem_of_singleton. cbn.
    setoid_rewrite lookup_delete_Some. naive_solver.
  - apply lru_k_size_spec.
Defined.

(** ** Which frame goes

    The state of a replacer that was used through its operations, before the clock wraps. *)
Record lru_k_ok (r : LruKReplacer) : Prop := {
  ok_k : 1 <= k r;
  ok_clock : 0 <= clock r < 2 ^ 64 - 1;
  ok_history : forall f e, frames r !! f = Some e ->
    history e <> [] /\ len (history e) <= k r /\ StronglySorted Z.lt (history e)
    /\ Forall (fun t => 0 < t <= clock r) (history e);
  ok_distinct : forall f g e e' t, frames r !! f = Some e -> frames r !! g = Some e' ->
    t ∈ history e -> t ∈ history e' -> f = g;
}.

(** [e] goes before [e']: fewer than [k] accesses first, the least recently used of them first;
    then the one whose [k]-th last access is the oldest. *)
Definition goes_before (k : Z) (e e' : FrameEntry) : Prop :=
  if len (history e) <? k then
    k <= len (history e') \/ default 0 (last (history e)) < default 0 (last (history e'))
  else k <= len (history e') /\ default 0 (head (history e)) < default 0 (head (history e')).

Lemma default_elem {A} (d : A) (o : option A) (l : list A) :
  l <> [] -> o = last l \/ o = head l -> default d o ∈ l.
Proof.
  intros Hl [-> | ->].
  - destruct (last l) as [x |] eqn:E; [by apply last_Some_elem_of in E | by apply last_None in E].
  - destruct l; [done |]. left.
Qed.

Lemma rank_goes_before r f g e e' :
  lru_k_ok r -> frames r !! f = Some e -> frames r !! g = Some e' -> f <> g ->
  better (rank r e') (rank r e) = false -> goes_before (k r) e e'.
Proof.
  intros Hr Hf Hg Hne Hb. destruct (ok_history _ Hr _ _ Hf) as (Hn & _ & _ & Hall).
  destruct (ok_history _ Hr _ _ Hg) as (Hn' & _ & _ & Hall'). pose proof (ok_clock _ Hr) as Hc.
  assert (Hd : forall o o', o = last (history e) \/ o = head (history e) ->
    o' = last (history e') \/ o' = head (history e') ->
    default 0 o <> default 0 o' /\ 0 < default 0 o <= clock r /\ 0 < default 0 o' <= clock r).
  { intros o o' Ho Ho'. pose proof (default_elem 0 o _ Hn Ho) as H1. pose proof (default_elem 0 o' _ Hn' Ho') as H2.
    split; [| split; [by apply (proj1 (Forall_forall _ _) Hall) | by apply (proj1 (Forall_forall _ _) Hall')]].
    intros E. rewrite <- E in H2. apply Hne. by eapply (ok_distinct _ Hr). }
  unfold goes_before. unfold rank in Hb.
  destruct (Z.ltb_spec (len (history e)) (k r)), (Z.ltb_spec (len (history e')) (k r)); cbn in Hb; try done.
  - right. apply Z.ltb_ge in Hb. destruct (Hd _ _ (or_introl eq_refl) (or_introl eq_refl)). lia.
  - by left.
  - apply Z.ltb_ge in Hb. destruct (Hd _ _ (or_intror eq_refl) (or_intror eq_refl)) as (? & ? & ?).
    unfold wrapu in Hb. rewrite !Z.mod_small in Hb by lia. lia.
Qed.

(** *** The operations keep the state *)
Lemma lru_k_new_ok n : 1 <= n -> lru_k_ok (lru_k_new n).
Proof. by split; cbn; intros; try lia; simplify_map_eq. Qed.

Lemma lru_k_restrict_ok r m :
  lru_k_ok r -> (forall f e, m !! f = Some e -> exists e', frames r !! f = Some e' /\ history e = history e') ->
  lru_k_ok (mkLruK (k r) m (clock r)).
Proof.
  intros [Hk Hc Hh Hd] Hm. split; cbn; try done.
  - intros f e (e' & He' & ->)%Hm. by eapply Hh.
  - intros f g e e' t (e1 & H1 & ->)%Hm (e2 & H2 & ->)%Hm. by apply (Hd f g e1 e2 t).
Qed.

Lemma lru_k_set_evictable_ok f b r : lru_k_ok r -> lru_k_ok (lru_k_set_evictable f b r).
Proof. intros H. apply lru_k_restrict_ok; [done |]. intros g e. rewrite lookup_alter_Some. naive_solver. Qed.
Lemma lru_k_remove_ok f r : lru_k_ok r -> lru_k_ok (lru_k_remove f r).
Proof. intros H. apply lru_k_restrict_ok; [done |]. intros g e. rewrite lookup_delete_Some. naive_solver. Qed.
Lemma lru_k_evict_ok accept r : lru_k_ok r -> lru_k_ok (lru_k_evict_where accept r).2.
Proof. intros H. unfold lru_k_evict_where. destruct (pick _ _ _) as [[f m] |]; [by apply lru_k_remove_ok | done]. Qed.

Lemma lru_k_record_access_ok f r : lru_k_ok r -> clock r < 2 ^ 64 - 2 -> lru_k_ok (lru_k_record_access f r).
Proof.
  intros Hr Hlt. pose proof Hr as [Hk Hc Hh Hd]. unfold lru_k_record_access.
  assert (Ht : wrapu 64 (clock r + 1) = clock r + 1) by (unfold wrapu; rewrite Z.mod_small; lia).
  rewrite Ht. set (t := clock r + 1). set (h0 := history (default (mkEntry [] false) (frames r !! f))).
  assert (H0 : len h0 <= k r /\ StronglySorted Z.lt h0 /\ Forall (fun x => 0 < x <= clock r) h0
    /\ forall x g e, x ∈ h0 -> frames r !! g = Some e -> x ∈ history e -> f = g).
  { unfold h0. destruct (frames r !! f) as [e |] eqn:Ef; cbn.
    - destruct (Hh _ _ Ef) as (_ & ? & ? & ?). split_and!; [done.. |]. intros x g e' Hx Hg Hx'. by apply (Hd f g e e' x).
    - split_and!; [rewrite len_nil; lia | constructor | constructor | set_solver]. }
  destruct H0 as (Hl0 & Hs0 & Ha0 & Hd0). set (h := if k r <? len (h0 ++ [t]) then _ else _).
  assert (Hsub : forall x, x ∈ h -> x ∈ h0 \/ x = t).
  { intros x Hx. assert (Hx' : x ∈ h0 ++ [t]); [| set_solver]. revert Hx. unfold h.
    destruct (_ <? _); [| done]. destruct (h0 ++ [t]); [done |]. cbn. by right. }
  assert (Hsrt : StronglySorted Z.lt (h0 ++ [t])).
  { apply StronglySorted_app_2; [| done | repeat constructor]. intros x y Hx ->%list_elem_of_singleton.
    pose proof (proj1 (Forall_forall _ _) Ha0 x Hx). unfold t. cbn in *. lia. }
  assert (Hh' : h <> [] /\ len h <= k r /\ StronglySorted Z.lt h).
  { unfold h. destruct (Z.ltb_spec (k r) (len (h0 ++ [t]))) as [Hlong | Hshort].
    - rewrite len_app in Hlong. change (len [t]) with 1 in Hlong. destruct h0 as [| x h0]; [change (len (@nil Z)) with 0 in *; lia |].
      change (skipn 1 ((x :: h0) ++ [t])) with (h0 ++ [t]). split_and!; [by destruct h0 | rewrite len_cons in *; rewrite len_app; change (len [t]) with 1; lia |].
      by inversion Hsrt.
    - split_and!; [by destruct h0 | done | done]. }
  destruct Hh' as (Hne & Hlen & Hsort).
  split; cbn; [done | unfold t; lia | |].
  - intros g e [(-> & <-) | (Hfg & Hg)]%lookup_insert_Some; cbn [history].
    + split_and!; [done.. |]. apply Forall_forall. intros x [Hx | ->]%Hsub; [| unfold t; cbn; lia].
      pose proof (proj1 (Forall_forall _ _) Ha0 x Hx). cbn in *. unfold t. lia.
    + destruct (Hh _ _ Hg) as (? & ? & ? & Hall). split_and!; [done.. |]. eapply Forall_impl; [exact Hall |].
      cbn. unfold t. lia.
  - assert (Hcase : forall g e x, frames r !! g = Some e -> x ∈ history e -> x ∈ h -> f = g).
    { intros g e x Hg Hx [Hx0 | ->]%Hsub; [by eapply Hd0 |]. destruct (Hh _ _ Hg) as (_ & _ & _ & Hall).
      pose proof (proj1 (Forall_forall _ _) Hall _ Hx). cbn in *. unfold t in *. lia. }
    intros g1 g2 e1 e2 x [(-> & <-) | (Hn1 & H1)]%lookup_insert_Some [(-> & <-) | (Hn2 & H2)]%lookup_insert_Some;
      cbn [history]; intros Hx1 Hx2; [done | by eapply Hcase | symmetry; by eapply Hcase | by eapply (Hd g1 g2)].
Qed.

(** The replacers that start empty and are used through the trait. *)
Inductive lru_k_reachable : LruKReplacer -> Prop :=
| reach_new n : 1 <= n -> lru_k_reachable (lru_k_new n)
| reach_access f r : lru_k_reachable r -> clock r < 2 ^ 64 - 2 -> lru_k_reachable (lru_k_record_access f r)
| reach_evictable f b r : lru_k_reachable r -> lru_k_reachable (lru_k_set_evictable f b r)
| reach_evict accept r : lru_k_reachable r -> lru_k_reachable (lru_k_evict_where accept r).2
| reach_remove f r : lru_k_reachable r -> lru_k_reachable (lru_k_remove f r).

Lemma lru_k_reachable_ok r : lru_k_reachable r -> lru_k_ok r.
Proof.
  induction 1; [by apply lru_k_new_ok | by apply lru_k_record_access_ok | by apply lru_k_set_evictable_ok
    | by apply lru_k_evict_ok | by apply lru_k_remove_ok].
Qed.

(** in every state the LRU-K replacer can reach, an eviction takes the accepted evictable frame that
    goes before every other one (fewer than k accesses first, then the oldest k-th last access), it
    takes one whenever there is one, and the choice does not depend on the order in which the hash
    map enumerates the frames. *)
Theorem lru_k_victim r accept entries :
  lru_k_reachable r -> entries ≡ₚ map_to_list (frames r) ->
  match pick r accept entries with
  | Some (f, _) => fst (evict_where accept r) = Some f
      /\ exists e, frames r !! f = Some e /\ is_evictable e = true /\ accept f = true
      /\ forall g e', frames r !! g = Some e' -> is_evictable e' = true -> accept g = true -> g <> f ->
           goes_before (k r) e e'
  | None => fst (evict_where accept r) = None
      /\ forall g e', frames r !! g = Some e' -> is_evictable e' = true -> accept g = false
  end.
Proof.
  intros Hr%lru_k_reachable_ok Hperm. cbn. unfold lru_k_evict_where.
  assert (Hin : forall f e, (f, e) ∈ entries <-> frames r !! f = Some e).
  { intros f e. by rewrite Hperm, elem_of_map_to_list. }
  pose proof (pick_best r accept entries) as H1. pose proof (pick_best r accept (map_to_list (frames r))) as H2.
  destruct (pick r accept entries) as [[f m] |], (pick r accept (map_to_list (frames r))) as [[f2 m2] |]; cbn in *.
  - destruct H1 as (e & Hf%Hin & [He Ha] & -> & Hbest).
    assert (Hall : forall g e', frames r !! g = Some e' -> is_evictable e' = true -> accept g = true -> g <> f ->
           goes_before (k r) e e').
    { intros g e' Hg He' Hag Hne. eapply (rank_goes_before r f g); try done. by apply (Hbest (g, e')); [apply Hin |]. }
    split; [| by exists e]. destruct H2 as (e2 & Hf2%elem_of_map_to_list & [He2 Ha2] & -> & Hbest2).
    destruct (decide (f2 = f)) as [-> | Hne]; [done |]. exfalso.
    pose proof (Hall f2 e2 Hf2 He2 Ha2 Hne) as G1.
    assert (G2 : goes_before (k r) e2 e).
    { eapply (rank_goes_before r f2 f); try done. apply (Hbest2 (f, e)); [by apply elem_of_map_to_list | done]. }
    unfold goes_before in *. revert G1 G2. zcase; lia.
  - exfalso. destruct H1 as (e & Hf%Hin & He & _). apply (H2 (f, e)); [by apply elem_of_map_to_list | done].
  - exfalso. destruct H2 as (e2 & Hf2 & He2 & _). apply (H1 (f2, e2)); [by rewrite Hperm | done].
  - split; [done |]. intros g e' Hg He'. destruct (accept g) eqn:Ea; [| done].
    exfalso. by apply (H1 (g, e')); [apply Hin |].
Qed.

(** Frames 1 and 2 accessed once, frame 3 twice, all evictable: frame 1 goes. *)
Definition sample_replacer : LruKReplacer :=
  lru_k_set_evictable 3 true (lru_k_set_evictable 2 true (lru_k_set_evictable 1 true
    (lru_k_record_access 3 (lru_k_record_access 2 (lru_k_record_access 1
      (lru_k_record_access 3 (lru_k_new 2))))))).
Lemma lru_k_victim_witness :
  fst (evict_where (fun _ => true) sample_replacer) = Some 1.
Proof.
  assert (Hr : lru_k_reachable sample_replacer) by (unfold sample_replacer; repeat constructor; done).
  pose proof (lru_k_victim sample_replacer (fun _ => true) (map_to_list (frames sample_replacer)) Hr
    (Permutation_refl _)) as H.
  vm_compute in H. vm_compute. exact (proj1 H).
Defined.
