(* ===== verification/Disk.v ===== *)
(** * The database file: crates/storage/src/disk.rs

    [DiskManager]: pages at fixed offsets of a block device, each stamped with a checksum on the way
    out and verified on the way in, the database header on page 0, and page allocation. *)
From S2P Require Import Prelude Text Value Common Errors Device Page.

Definition MAGIC : bytes := str "FERRODB" ++ [Byte.x00].
Definition HEADER_VERSION : Z := 11.

Record DiskManager : Type := mkDisk {
  device : Device;
  disk_page_size : Z;
  disk_next_page_id : Z;
  extended_len : Z;
}.

(** A call on the device from inside the manager. *)
Definition on_device {A} (c : M Device Storage.Error A) : M DiskManager Storage.Error A := fun d =>
  let '(o, dev) := c (device d) in
  (o, mkDisk dev (disk_page_size d) (disk_next_page_id d) (extended_len d)).

Definition offset_of (page_id : PageId) (d : DiskManager) : Z := page_id * disk_page_size d.

(** ** Reading and writing pages *)
Definition read_page_unchecked (page_id : PageId) : M DiskManager Storage.Error bytes :=
  offset ← gets (offset_of page_id);
  page_size ← gets disk_page_size;
  device_len ← on_device size;
  if device_len <? offset + page_size then throw (Storage.PageNotFound page_id)
  else on_device (read_at offset PAGE_SIZE).

Definition read_page (page_id : PageId) : M DiskManager Storage.Error bytes :=
  b ← read_page_unchecked page_id;
  if checksum_ok b then mret b
  else throw (Storage.ChecksumMismatch page_id (u32_at b 0) (checksum_of b)).

Definition write_page (page_id : PageId) (b : bytes) : M DiskManager Storage.Error unit :=
  offset ← gets (offset_of page_id);
  on_device (write_at offset (stamp_checksum b)).

Definition disk_sync : M DiskManager Storage.Error unit := on_device sync_all.

(** ** Allocation *)
Definition with_next_page_id (n : Z) (d : DiskManager) : DiskManager :=
  mkDisk (device d) (disk_page_size d) n (extended_len d).

Definition extend_to_at_least (target_len : Z) : M DiskManager Storage.Error unit :=
  extended ← gets extended_len;
  if extended <? target_len then
    _ ← on_device (set_len target_len);
    modify (fun d => mkDisk (device d) (disk_page_size d) (disk_next_page_id d) target_len)
  else mret tt.

(** [fetch_add] on an [AtomicU32] wraps. *)
Definition allocate_page : M DiskManager Storage.Error PageId :=
  page_id ← gets disk_next_page_id;
  _ ← modify (with_next_page_id (wrapu 32 (page_id + 1)));
  page_size ← gets disk_page_size;
  _ ← extend_to_at_least ((page_id + 1) * page_size);
  mret page_id.

Definition ensure_allocated (page_id : PageId) : M DiskManager Storage.Error unit :=
  let needed := wrapu 32 (page_id + 1) in
  current ← gets disk_next_page_id;
  if current <? needed then
    _ ← modify (with_next_page_id needed);
    page_size ← gets disk_page_size;
    extend_to_at_least (needed * page_size)
  else mret tt.

(** ** The header and opening *)
Definition header_page (page_size : Z) : bytes :=
  let buf := splice zero_page 12 MAGIC in
  let buf := splice buf 20 (to_le 4 HEADER_VERSION) in
  let buf := splice buf 24 (to_le 4 u32_max) in
  let buf := splice buf 40 (to_le 4 u32_max) in
  let buf := splice buf 28 (to_le 4 page_size) in
  stamp_checksum buf.

Definition write_header : M DiskManager Storage.Error unit :=
  page_size ← gets disk_page_size;
  on_device (write_at 0 (header_page page_size)).

(** The checks on the header of an existing file. *)
Definition check_header (page_size : Z) (buf : bytes) : outcome Storage.Error unit :=
  if decide (firstn 8 (skipn 12 buf) <> MAGIC)
  then Err (Storage.CorruptPage 0 (str "bad magic in database header")) else
  let version := u32_at buf 20 in
  if negb (version =? HEADER_VERSION)
  then Err (Storage.CorruptPage 0
              (str "unsupported on-disk format version " ++ fmt_u version
               ++ str ": this build reads and writes version " ++ fmt_u HEADER_VERSION)) else
  let stored_page_size := u32_at buf 28 in
  if negb (stored_page_size =? page_size)
  then Err (Storage.CorruptPage 0
              (str "page size mismatch: database was created with page_size " ++ fmt_u stored_page_size
               ++ str ", but " ++ fmt_u page_size ++ str " was requested"))
  else Ok tt.

Definition open_with_device (page_size : Z) : M Device Storage.Error DiskManager := fun dev =>
  match size dev with
  | (Ok device_len, dev) =>
      if device_len =? 0 then
        match write_header (mkDisk dev page_size 1 page_size) with
        | (Ok _, d) => (Ok d, device d)
        | (Err e, d) => (Err e, device d)
        | (Panic, d) => (Panic, device d)
        end
      else if negb (device_len mod page_size =? 0) then
        (Err (Storage.TruncatedFile device_len (device_len / page_size * page_size) page_size), dev)
      else
        match read_at 0 32 dev with
        | (Ok buf, dev) =>
            match check_header page_size buf with
            | Ok _ => (Ok (mkDisk dev page_size (wrapu 32 (device_len / page_size)) device_len), dev)
            | Err e => (Err e, dev)
            | Panic => (Panic, dev)
            end
        | (Err e, dev) => (Err e, dev)
        | (Panic, dev) => (Panic, dev)
        end
  | (Err e, dev) => (Err e, dev)
  | (Panic, dev) => (Panic, dev)
  end.

(** ** Pages on disk *)
Definition page_at (c : bytes) (p : PageId) : option bytes := sub c (p * PAGE_SIZE) PAGE_SIZE.

(** What a read of page [p] gives, apart from the checksum. *)
Definition disk_page (d : DiskManager) (p : PageId) : option bytes :=
  b ← page_at (content (device d)) p;
  if checksum_ok b then Some (clear_checksum b) else None.

Lemma len_stamp_checksum b : len b = PAGE_SIZE -> len (stamp_checksum b) = PAGE_SIZE.
Proof. intros H. unfold stamp_checksum. rewrite len_splice; [done | lia |]. rewrite len_to_le, H. unfold PAGE_SIZE. lia. Qed.

Lemma skipn_stamp_checksum b : len b = PAGE_SIZE -> skipn 4 (stamp_checksum b) = skipn 4 b.
Proof.
  intros H. unfold stamp_checksum, splice. change (Z.to_nat 0) with 0%nat. rewrite length_to_le.
  apply (drop_app_length' (to_le 4 (checksum_of b)) (drop 4 b) 4). by rewrite length_to_le.
Qed.

(** A stamped page passes the check, and stamping changes the checksum only. *)
Lemma checksum_ok_stamp b : len b = PAGE_SIZE -> checksum_ok (stamp_checksum b) = true.
Proof.
  intros H. unfold checksum_ok. apply orb_true_iff. right.
  assert (Hs : sub (stamp_checksum b) 0 4 = Some (to_le 4 (checksum_of b))).
  { unfold stamp_checksum. pose proof (sub_splice_eq b 0 (to_le 4 (checksum_of b))) as Hs.
    rewrite len_to_le in Hs. apply Hs; rewrite ?H; unfold PAGE_SIZE; lia. }
  rewrite Hs. unfold checksum_of at 2. rewrite skipn_stamp_checksum by done.
  rewrite from_le_to_le_id by apply crc32_range. apply Z.eqb_refl.
Qed.
Lemma clear_stamp_checksum b : len b = PAGE_SIZE -> clear_checksum (stamp_checksum b) = clear_checksum b.
Proof. intros H. unfold clear_checksum. by rewrite skipn_stamp_checksum. Qed.

Lemma zero_page_ok : checksum_ok zero_page = true /\ clear_checksum zero_page = zero_page.
Proof. by vm_compute. Qed.

Lemma page_at_len c p b : page_at c p = Some b -> len b = PAGE_SIZE.
Proof. apply sub_len. Qed.
Lemma page_at_range c p b : page_at c p = Some b -> 0 <= p /\ (p + 1) * PAGE_SIZE <= len c.
Proof. intros (H1 & _ & H2 & _)%sub_Some. unfold PAGE_SIZE in *. lia. Qed.
Lemma page_at_Some c p : 0 <= p -> (p + 1) * PAGE_SIZE <= len c -> is_Some (page_at c p).
Proof.
  intros H1 H2. unfold page_at. destruct (sub c _ _) eqn:E; [by eexists |].
  apply sub_None in E; unfold PAGE_SIZE in *; lia.
Qed.

(** Every page on disk, as a map. *)
Definition disk_pages (d : DiskManager) : gmap PageId bytes :=
  list_to_map (omap (fun p => (p,.) <$> disk_page d p) (seqZ 0 (len (content (device d)) / PAGE_SIZE))).

Lemma disk_pages_lookup d p : disk_pages d !! p = disk_page d p.
Proof.
  unfold disk_pages. set (l := omap _ _).
  assert (Hin : forall q b, (q, b) ∈ l <-> disk_page d q = Some b).
  { intros q b. unfold l. rewrite list_elem_of_omap. split.
    - intros (r & _ & Hr). destruct (disk_page d r) eqn:E; cbn in Hr; simplify_eq. done.
    - intros Hq. exists q. rewrite Hq. split; [| done]. apply elem_of_seqZ.
      unfold disk_page in Hq. destruct (page_at _ q) as [x |] eqn:Ex; [| done].
      apply page_at_range in Ex as [? ?]. split; [lia |]. rewrite Z.add_0_l.
      apply Z.lt_le_trans with (q + 1); [lia |]. apply Z.div_le_lower_bound; unfold PAGE_SIZE in *; lia. }
  assert (Hnd : NoDup l.*1).
  { unfold l. clear l Hin. generalize (NoDup_seqZ 0 (len (content (device d)) / PAGE_SIZE)).
    induction (seqZ _ _) as [| q qs IH]; [intros _; constructor |]. intros [Hq Hqs]%NoDup_cons. cbn.
    destruct (disk_page d q); cbn; [| exact (IH Hqs)]. apply NoDup_cons. split; [| exact (IH Hqs)].
    intros ([q' b'] & -> & Hx)%list_elem_of_fmap. apply list_elem_of_omap in Hx as (r & Hr & Hx).
    destruct (disk_page d r); cbn in Hx; by simplify_eq. }
  destruct (disk_page d p) as [b |] eqn:E.
  - apply elem_of_list_to_map_1; [done |]. by apply Hin.
  - apply not_elem_of_list_to_map_1. intros ([q b] & -> & Hx)%list_elem_of_fmap. apply Hin in Hx. cbn in E. congruence.
Qed.

(** ** What the operations do to the pages on disk *)

(** The same database, whatever became of the schedule of faults. *)
Definition same_disk (d d' : DiskManager) : Prop :=
  content (device d') = content (device d) /\ disk_page_size d' = disk_page_size d
  /\ disk_next_page_id d' = disk_next_page_id d /\ extended_len d' = extended_len d.

Lemma read_page_spec p d :
  disk_page_size d = PAGE_SIZE ->
  match read_page p d with
  | (Ok b, d') => same_disk d d' /\ page_at (content (device d)) p = Some b /\ checksum_ok b = true
  | (Err _, d') => same_disk d d'
  | (Panic, _) => False
  end.
Proof.
  intros Hps. unfold read_page, read_page_unchecked, on_device, size, read_at, gets, mbind, M_bind, offset_of.
  rewrite Hps. destruct d as [[c fs] ps nx ex]. cbn in *. unfold size_op, read_op.
  destruct (next_fault fs) as [[| e l] fs1]; cbn; [| by repeat split].
  destruct (Z.ltb_spec (len c) (p * PAGE_SIZE + PAGE_SIZE)); [by repeat split |]. cbn.
  destruct (next_fault fs1) as [[| e l] fs2]; cbn; [| by repeat split].
  unfold page_at. destruct (sub c (p * PAGE_SIZE) PAGE_SIZE) as [b |] eqn:E; cbn; [| by repeat split].
  destruct (checksum_ok b) eqn:Ec; cbn; by repeat split.
Qed.

(** A device that was written in one page. *)
Definition written_in (d : DiskManager) (p : PageId) (d' : DiskManager) : Prop :=
  len (content (device d')) = len (content (device d))
  /\ (forall q, q <> p -> page_at (content (device d')) q = page_at (content (device d)) q)
  /\ disk_page_size d' = disk_page_size d
  /\ disk_next_page_id d' = disk_next_page_id d /\ extended_len d' = extended_len d.

Lemma splice_page_ne c p q (buf : bytes) :
  0 <= p -> (p + 1) * PAGE_SIZE <= len c -> len buf <= PAGE_SIZE -> q <> p ->
  page_at (splice c (p * PAGE_SIZE) buf) q = page_at c q.
Proof.
  intros Hp Hc Hb Hq. apply sub_splice_ne; unfold PAGE_SIZE in *; [lia | lia |]. pose proof (len_nonneg buf). lia.
Qed.

Lemma write_page_spec p b d :
  disk_page_size d = PAGE_SIZE -> len b = PAGE_SIZE -> 0 <= p -> (p + 1) * PAGE_SIZE <= len (content (device d)) ->
  match write_page p b d with
  | (Ok _, d') => written_in d p d' /\ page_at (content (device d')) p = Some (stamp_checksum b)
  | (Err _, d') => written_in d p d'
  | (Panic, _) => False
  end.
Proof.
  intros Hps Hb Hp Hc. unfold write_page, on_device, write_at, gets, mbind, M_bind, offset_of. rewrite Hps.
  destruct d as [[c fs] ps nx ex]. cbn in *. pose proof (len_stamp_checksum b Hb) as Hl. unfold write_op.
  destruct (next_fault fs) as [[| e l] fs1]; cbn.
  - rewrite write_content_inside by (rewrite ?Hl; unfold PAGE_SIZE in *; lia). split.
    + split_and!; cbn; [| | congruence..].
      * rewrite len_splice by (rewrite ?Hl; unfold PAGE_SIZE in *; lia). reflexivity.
      * intros q Hq. apply splice_page_ne; [assumption | assumption | by rewrite Hl | assumption].
    + pose proof (sub_splice_eq c (p * PAGE_SIZE) (stamp_checksum b)) as He. rewrite Hl in He.
      apply He; unfold PAGE_SIZE in *; lia.
  - set (part := firstn (Z.to_nat l) (stamp_checksum b)).
    assert (Hpart : len part <= PAGE_SIZE) by (unfold part, len in *; rewrite length_take; lia).
    rewrite write_content_inside by (unfold PAGE_SIZE in *; lia).
    split_and!; cbn; [| | congruence..].
    + rewrite len_splice by (unfold PAGE_SIZE in *; lia). reflexivity.
    + intros q Hq. apply splice_page_ne; assumption.
Qed.

(** The state of a disk manager: the device ends at a page that was handed out. *)
Record disk_ok (d : DiskManager) : Prop := {
  dk_page_size : disk_page_size d = PAGE_SIZE;
  dk_next : 0 < disk_next_page_id d < 2 ^ 32;
  dk_len : extended_len d <= len (content (device d)) <= disk_next_page_id d * PAGE_SIZE;
  dk_whole : (PAGE_SIZE | len (content (device d)));
}.

Lemma same_disk_ok d d' : same_disk d d' -> disk_ok d -> disk_ok d'.
Proof. intros (H1 & H2 & H3 & H4) [A B C D]. by split; rewrite ?H1, ?H2, ?H3, ?H4. Qed.
Lemma written_disk_ok d p d' : written_in d p d' -> disk_ok d -> disk_ok d'.
Proof. intros (H1 & _ & H2 & H3 & H4) [A B C D]. by split; rewrite ?H1, ?H2, ?H3, ?H4. Qed.

Lemma page_at_app c k p b : page_at c p = Some b -> page_at (c ++ k) p = Some b.
Proof. apply sub_app_l. Qed.

Lemma sub_zeroes n off k : 0 <= off -> 0 <= k -> off + k <= n -> sub (zeroes n) off k = Some (zeroes k).
Proof.
  intros. apply sub_Some. rewrite len_zeroes. split_and!; try lia. unfold zeroes.
  rewrite drop_replicate, take_replicate. f_equal. lia.
Qed.

(** Growing a device to [n] pages: what was there stays, what is new reads as zeroes. *)
Lemma grow_pages c n :
  len c <= n * PAGE_SIZE -> (PAGE_SIZE | len c) ->
  let c' := resize_content c (n * PAGE_SIZE) in
  len c' = n * PAGE_SIZE
  /\ (forall q b, page_at c q = Some b -> page_at c' q = Some b)
  /\ (forall q b, page_at c' q = Some b -> page_at c q = Some b \/ b = zero_page).
Proof.
  intros Hle [k Hk] c'. pose proof (len_nonneg c) as Hc.
  assert (Hgrow : c' = c ++ zeroes (n * PAGE_SIZE - len c)) by (by apply resize_content_grow).
  assert (Hl : len c' = n * PAGE_SIZE) by (apply len_resize_content; lia).
  assert (Hkeep : forall q b, page_at c q = Some b -> page_at c' q = Some b).
  { intros q b Hq. rewrite Hgrow. by apply page_at_app. }
  split_and!; [done | done |]. intros q b Hb. pose proof (page_at_range _ _ _ Hb) as [Hq0 Hq1]. rewrite Hl in Hq1.
  unfold PAGE_SIZE in *. destruct (decide (q < k)).
  - left. destruct (page_at_Some c q) as [b' Hb']; [done | unfold PAGE_SIZE; lia |]. rewrite (Hkeep _ _ Hb') in Hb. congruence.
  - right. unfold page_at in Hb. rewrite Hgrow in Hb.
    replace (q * PAGE_SIZE) with (len c + (q * PAGE_SIZE - len c)) in Hb by lia.
    rewrite sub_app_r in Hb by (unfold PAGE_SIZE; lia). rewrite sub_zeroes in Hb by (unfold PAGE_SIZE; lia).
    apply (inj Some) in Hb. rewrite <- Hb. reflexivity.
Qed.

(** Allocation: the new page is past everything on the device and reads as zeroes. *)
Lemma allocate_page_spec d :
  disk_ok d -> disk_next_page_id d < 2 ^ 32 - 1 ->
  match allocate_page d with
  | (Ok p, d') => p = disk_next_page_id d /\ disk_next_page_id d' = p + 1 /\ disk_ok d'
      /\ page_at (content (device d)) p = None /\ page_at (content (device d')) p = Some zero_page
      /\ (forall q b, page_at (content (device d)) q = Some b -> page_at (content (device d')) q = Some b)
      /\ (forall q b, page_at (content (device d')) q = Some b -> page_at (content (device d)) q = Some b \/ b = zero_page)
      /\ len (content (device d)) <= len (content (device d'))
  | (Err _, d') => disk_next_page_id d' = disk_next_page_id d + 1 /\ disk_ok d'
      /\ (forall q b, page_at (content (device d)) q = Some b -> page_at (content (device d')) q = Some b)
      /\ (forall q b, page_at (content (device d')) q = Some b -> page_at (content (device d)) q = Some b \/ b = zero_page)
      /\ len (content (device d)) <= len (content (device d'))
  | (Panic, _) => False
  end.
Proof.
  intros [Hps Hn Hl Hm] Hlt. destruct d as [[c fs] ps nx ex]. cbn in *. subst ps.
  unfold allocate_page, extend_to_at_least, on_device, set_len, gets, modify, mbind, M_bind, mret, M_ret. cbn.
  assert (Hw : wrapu 32 (nx + 1) = nx + 1) by (unfold wrapu; rewrite Z.mod_small; lia). rewrite Hw.
  rewrite (proj2 (Z.ltb_lt ex _)) by (unfold PAGE_SIZE in *; lia). cbn. unfold set_len_op.
  destruct (grow_pages c (nx + 1)) as (Hlr & Hkeep & Hzero); [unfold PAGE_SIZE in *; lia | done |].
  set (c' := resize_content c ((nx + 1) * PAGE_SIZE)) in *.
  assert (Hok : disk_ok (mkDisk (mkDevice c' fs) PAGE_SIZE (nx + 1) ((nx + 1) * PAGE_SIZE))).
  { split; cbn; rewrite ?Hlr; [done | lia | lia | by exists (nx + 1)]. }
  assert (Hnew : page_at c nx = None).
  { destruct (page_at c nx) eqn:E; [| done]. apply page_at_range in E. unfold PAGE_SIZE in *. lia. }
  assert (Hle : len c <= len c') by (rewrite Hlr; unfold PAGE_SIZE in *; lia).
  destruct (next_fault fs) as [[| e l] fs1]; cbn.
  - destruct (page_at_Some c' nx) as [b Hb]; [lia | rewrite Hlr; unfold PAGE_SIZE; lia |].
    assert (b = zero_page) as -> by (destruct (Hzero _ _ Hb); congruence).
    split_and!; try assumption; try reflexivity. destruct Hok. by split.
  - destruct (0 <? l); split_and!; try assumption; try reflexivity; try (by intros; left); try lia.
    + destruct Hok as [? ? [? ?] ?]. split; cbn in *; try assumption. split; [| assumption]. rewrite Hlr. unfold PAGE_SIZE in *. lia.
    + split; cbn; [reflexivity | lia | unfold PAGE_SIZE in *; lia | assumption].
    + intros q b Hq. exact Hq.
Qed.
