(* ===== verification/Dwb.v ===== *)
(** * The double-write buffer: crates/storage/src/dwb.rs

    Before a batch of pages is written in place, it is written to a side file with a header that
    lists the pages and the CRC of each copy, so that a page torn by a crash can be restored. *)
From S2P Require Import Prelude Text Value Common Errors Device Page Disk.

Definition DWB_MAGIC : bytes := str "FDBDWB02".
Definition ENTRY_COUNT_OFFSET : Z := 8.
Definition ENTRIES_OFFSET : Z := ENTRY_COUNT_OFFSET + 4.
Definition ENTRY_SIZE : Z := 8.
Definition DEFAULT_CAPACITY : Z := 64.

(** [Page] *)
Record Page : Type := mkPage { id : PageId; data : bytes }.

(** ** The header *)
Definition encode_entry (e : PageId * Z) : bytes := to_le 4 e.1 ++ to_le 4 e.2.
Definition header_content (entries : list (PageId * Z)) : bytes :=
  DWB_MAGIC ++ to_le 4 (len entries) ++ concat (encode_entry <$> entries).

(** Entries that do not fit in the page index past its end. *)
Definition encode_header (entries : list (PageId * Z)) : outcome Storage.Error bytes :=
  let content := header_content entries in
  if PAGE_SIZE <? len content + 4 then Panic
  else Ok (content ++ to_le 4 (crc32 content) ++ zeroes (PAGE_SIZE - (len content + 4))).

Definition decode_entry (header : bytes) (i : nat) : PageId * Z :=
  let at_ := ENTRIES_OFFSET + Z.of_nat i * ENTRY_SIZE in (u32_at header at_, u32_at header (at_ + 4)).

Definition decode_header (header : bytes) (capacity : Z) : option (list (PageId * Z)) :=
  if decide (firstn 8 header <> DWB_MAGIC) then None else
  let count := u32_at header ENTRY_COUNT_OFFSET in
  if (count =? 0) || (capacity <? count) then None else
  let content_end := ENTRIES_OFFSET + count * ENTRY_SIZE in
  if PAGE_SIZE <? content_end + 4 then None else
  if negb (crc32 (firstn (Z.to_nat content_end) header) =? u32_at header content_end) then None else
  Some (decode_entry header <$> seq 0 (Z.to_nat count)).

(** ** Batches *)
Record DoubleWriteBuffer : Type := mkDwb { dwb_device : Device; capacity : Z }.

Definition on_dwb {A} (c : M Device Storage.Error A) : M DoubleWriteBuffer Storage.Error A := fun d =>
  let '(o, dev) := c (dwb_device d) in (o, mkDwb dev (capacity d)).

Definition dwb_open_with_device (capacity : Z) : M Device Storage.Error DoubleWriteBuffer := fun dev =>
  if capacity =? 0 then (Err Storage.InvalidDwbCapacity, dev) else
  let expected_len := (1 + capacity) * PAGE_SIZE in
  let '(o, dev) := (n ← size; if n <? expected_len then set_len expected_len else mret tt) dev in
  match o with
  | Ok _ => (Ok (mkDwb dev capacity), dev)
  | Err e => (Err e, dev)
  | Panic => (Panic, dev)
  end.

Definition offset_of_slot (index : Z) : Z := (1 + index) * PAGE_SIZE.

(** The loop over the pages: each is written to its slot, and its CRC noted. *)
Fixpoint write_slots (index : Z) (pages : list Page) : M DoubleWriteBuffer Storage.Error (list (PageId * Z)) :=
  match pages with
  | [] => mret []
  | page :: pages =>
      let scratch := stamp_checksum (data page) in
      _ ← on_dwb (write_at (offset_of_slot index) scratch);
      entries ← write_slots (index + 1) pages;
      mret ((id page, crc32 scratch) :: entries)
  end.

Definition write_batch (pages : list Page) : M DoubleWriteBuffer Storage.Error unit :=
  entries ← write_slots 0 pages;
  header ← lift (encode_header entries);
  _ ← on_dwb (write_at 0 header);
  on_dwb sync_all.

Definition clear_batch : M DoubleWriteBuffer Storage.Error unit :=
  header ← lift (encode_header []);
  _ ← on_dwb (write_at 0 header);
  on_dwb sync_all.

Definition read_batch : M DoubleWriteBuffer Storage.Error (option (list (PageId * Z))) :=
  header ← on_dwb (read_at 0 PAGE_SIZE);
  cap ← gets capacity;
  mret (decode_header header cap).

Definition read_slot (index : Z) : M DoubleWriteBuffer Storage.Error bytes :=
  on_dwb (read_at (offset_of_slot index) PAGE_SIZE).

(** ** The header round trip *)
Lemma len_header_content entries : len (header_content entries) = ENTRIES_OFFSET + len entries * ENTRY_SIZE.
Proof.
  unfold header_content. rewrite !len_app, len_to_le. change (len DWB_MAGIC) with 8.
  unfold ENTRIES_OFFSET, ENTRY_COUNT_OFFSET, ENTRY_SIZE.
  assert (len (concat (encode_entry <$> entries)) = len entries * 8).
  { induction entries as [| e l IH]; [done |]. rewrite fmap_cons. cbn [concat]. rewrite len_app, len_cons, IH.
    unfold encode_entry. rewrite len_app, !len_to_le. lia. }
  lia.
Qed.

Definition entry_ok (e : PageId * Z) : Prop := in_u 32 e.1 /\ in_u 32 e.2.

Lemma sub_entry pre entries post (i : nat) e :
  len pre = ENTRIES_OFFSET -> entries !! i = Some e ->
  sub (pre ++ concat (encode_entry <$> entries) ++ post) (ENTRIES_OFFSET + Z.of_nat i * ENTRY_SIZE) 8
    = Some (encode_entry e).
Proof.
  intros Hpre Hi. apply list_elem_of_split_length in Hi as (l1 & l2 & -> & Hlen).
  rewrite fmap_app, fmap_cons, concat_app. cbn [concat].
  assert (Hl : len (pre ++ concat (encode_entry <$> l1)) = ENTRIES_OFFSET + Z.of_nat i * ENTRY_SIZE).
  { rewrite len_app, Hpre. f_equal. rewrite Hlen. clear. induction l1 as [| e l IH]; [done |].
    rewrite fmap_cons. cbn [concat]. rewrite len_app, IH. unfold encode_entry, ENTRY_SIZE.
    rewrite len_app, !len_to_le. simpl length. lia. }
  rewrite <- Hl. assert (He : len (encode_entry e) = 8) by (unfold encode_entry; by rewrite len_app, !len_to_le).
  rewrite <- He. rewrite <- !app_assoc, (app_assoc pre). apply sub_app_mid.
Qed.

Lemma u32_at_pair b at_ x y : sub b at_ 8 = Some (to_le 4 x ++ to_le 4 y) -> in_u 32 x -> in_u 32 y ->
  u32_at b at_ = x /\ u32_at b (at_ + 4) = y.
Proof.
  intros Hs Hx Hy. pose proof (sub_sub b at_ 8 _ 0 4 Hs ltac:(lia) ltac:(lia)) as H1.
  pose proof (sub_sub b at_ 8 _ 4 4 Hs ltac:(lia) ltac:(lia)) as H2. rewrite Z.add_0_r in H1.
  rewrite (sub_app_prefix _ _ 4) in H1 by (by rewrite len_to_le).
  pose proof (sub_app_mid (to_le 4 x) (to_le 4 y) []) as Hm. rewrite app_nil_r, !len_to_le in Hm.
  change (Z.of_nat 4) with 4 in Hm. rewrite Hm in H2.
  rewrite (u32_at_sub _ _ _ (eq_sym H1)), (u32_at_sub _ _ _ (eq_sym H2)).
  by rewrite !from_le_to_le_id.
Qed.

Lemma encode_header_ok entries :
  ENTRIES_OFFSET + len entries * ENTRY_SIZE + 4 <= PAGE_SIZE ->
  exists h, encode_header entries = Ok h /\ len h = PAGE_SIZE
    /\ h = header_content entries ++ to_le 4 (crc32 (header_content entries))
             ++ zeroes (PAGE_SIZE - (len (header_content entries) + 4)).
Proof.
  intros H. unfold encode_header. pose proof (len_header_content entries) as Hl.
  rewrite (proj2 (Z.ltb_ge _ _)) by lia. eexists. split_and!; [done | | done].
  rewrite !len_app, len_to_le, len_zeroes. lia.
Qed.

Lemma decode_encode_header entries cap h :
  Forall entry_ok entries -> 0 < len entries <= cap -> encode_header entries = Ok h ->
  decode_header h cap = Some entries.
Proof.
  intros Hok Hcap Henc. pose proof (len_header_content entries) as Hl.
  assert (Hfit : ENTRIES_OFFSET + len entries * ENTRY_SIZE + 4 <= PAGE_SIZE).
  { unfold encode_header in Henc. destruct (Z.ltb_spec PAGE_SIZE (len (header_content entries) + 4)); [done |]. lia. }
  destruct (encode_header_ok entries Hfit) as (h' & E & Hlen & Hh). rewrite Henc in E. injection E as <-.
  assert (Hcnt : u32_at h ENTRY_COUNT_OFFSET = len entries).
  { rewrite (u32_at_sub _ _ (to_le 4 (len entries))); [apply from_le_to_le_id |].
    - unfold ENTRIES_OFFSET, ENTRY_COUNT_OFFSET, ENTRY_SIZE, PAGE_SIZE in *. unfold in_u. simpl. lia.
    - rewrite Hh. unfold header_content. rewrite <- !app_assoc. apply (sub_app_mid DWB_MAGIC (to_le 4 (len entries))). }
  unfold decode_header. rewrite Hcnt. rewrite decide_False.
  2: { intros Hm. apply Hm. rewrite Hh. unfold header_content. rewrite <- !app_assoc. by apply (take_app_length' DWB_MAGIC). }
  rewrite (proj2 (Z.eqb_neq _ _)) by lia. rewrite (proj2 (Z.ltb_ge cap _)) by lia. cbn [orb].
  rewrite (proj2 (Z.ltb_ge PAGE_SIZE _)) by lia.
  assert (Hcrc : u32_at h (ENTRIES_OFFSET + len entries * ENTRY_SIZE) = crc32 (header_content entries)).
  { rewrite (u32_at_sub _ _ (to_le 4 (crc32 (header_content entries)))); [apply from_le_to_le_id, crc32_range |]. rewrite Hh, <- Hl. apply (sub_app_mid _ (to_le 4 _)). }
  rewrite Hcrc, Hh at 1. rewrite <- Hl, to_nat_len, take_app_length, Z.eqb_refl. cbn [negb].
  f_equal. apply list_eq. intros i. rewrite list_lookup_fmap. unfold len. rewrite Nat2Z.id.
  destruct (entries !! i) as [e |] eqn:Hi.
  - pose proof (lookup_lt_Some _ _ _ Hi). rewrite lookup_seq_lt by done. cbn. f_equal. unfold decode_entry.
    assert (He : entry_ok e) by (by eapply (proj1 (Forall_lookup _ _) Hok)). destruct He.
    destruct (u32_at_pair h (ENTRIES_OFFSET + Z.of_nat i * ENTRY_SIZE) e.1 e.2) as [-> ->]; try done.
    + rewrite Hh. unfold header_content. rewrite <- !app_assoc, (app_assoc DWB_MAGIC). by apply sub_entry.
    + by destruct e.
  - apply lookup_ge_None in Hi. rewrite lookup_seq_ge by done. done.
Qed.
