(* ===== verification/Buffer.v ===== *)
(** * The buffer pool: crates/storage/src/buffer.rs, and the guards of page.rs

    [BufferPool] as one thread uses it: frames with pins and latches, the page table, eviction, the
    write-back of dirty pages through the log and the double-write buffer, guards and logged writes.
    A wait that no other thread ends runs to its deadline; a lock the thread itself holds is never
    given to it, which is a [Panic] here (debug builds panic, release builds hang). *)
From S2P Require Import Prelude Text Value Common Errors WalRecord Replacer Device SegmentStore Log Page Disk Dwb.

(** [RwLock<Page>], as the thread that uses the pool holds it *)
Inductive Latch : Type := Unlatched | ReadLatched (n : Z) | WriteLatched.

Record Frame : Type := mkFrame {
  page : Page;
  latch : Latch;
  pin_count : Z;
  dirty_since_lsn : Z;
}.

Record WriteObservation : Type := mkObservation {
  obs_page_id : PageId;
  obs_page_lsn : Lsn;
  obs_durable_lsn : Lsn;
}.

Section pool.
Context {R : Type} `{!Replacer R}.

Record PoolIndex : Type := mkIndex {
  page_table : gmap PageId FrameId;
  frame_page : list (option PageId);
  free_list : list FrameId;
  replacer : R;
  owned : list bool;
  loading : gset PageId;
  evicting : gset PageId;
}.

(** [flush_in_flight] is the flag under [flush_sequence] as well. *)
Record BufferPool : Type := mkPool {
  disk_manager : DiskManager;
  dwb : DoubleWriteBuffer;
  log_manager : LogManager;
  frames : list Frame;
  pool_index : PoolIndex;
  frame_wait_timeout : Z;
  debug_assertions : bool;
  flush_poisoned : bool;
  flush_in_flight : bool;
  write_observations : list WriteObservation;
}.

Definition zero_frame : Frame := mkFrame (mkPage 0 zero_page) Unlatched 0 0.
Definition pool_new (disk : DiskManager) (dwb : DoubleWriteBuffer) (log : LogManager) (pool_size : Z) (r : R)
    (timeout : Z) (debug : bool) : BufferPool :=
  let n := Z.to_nat pool_size in
  mkPool disk dwb log (replicate n zero_frame)
    (mkIndex ∅ (replicate n None) (Z.of_nat <$> seq 0 n) r (replicate n false) ∅ ∅)
    timeout debug false false [].

(** ** Field updates *)
Definition with_disk (d : DiskManager) (s : BufferPool) : BufferPool :=
  mkPool d (dwb s) (log_manager s) (frames s) (pool_index s) (frame_wait_timeout s) (debug_assertions s)
    (flush_poisoned s) (flush_in_flight s) (write_observations s).
Definition with_dwb (d : DoubleWriteBuffer) (s : BufferPool) : BufferPool :=
  mkPool (disk_manager s) d (log_manager s) (frames s) (pool_index s) (frame_wait_timeout s) (debug_assertions s)
    (flush_poisoned s) (flush_in_flight s) (write_observations s).
Definition with_log (l : LogManager) (s : BufferPool) : BufferPool :=
  mkPool (disk_manager s) (dwb s) l (frames s) (pool_index s) (frame_wait_timeout s) (debug_assertions s)
    (flush_poisoned s) (flush_in_flight s) (write_observations s).
Definition with_frames (fs : list Frame) (s : BufferPool) : BufferPool :=
  mkPool (disk_manager s) (dwb s) (log_manager s) fs (pool_index s) (frame_wait_timeout s) (debug_assertions s)
    (flush_poisoned s) (flush_in_flight s) (write_observations s).
Definition with_index (ix : PoolIndex) (s : BufferPool) : BufferPool :=
  mkPool (disk_manager s) (dwb s) (log_manager s) (frames s) ix (frame_wait_timeout s) (debug_assertions s)
    (flush_poisoned s) (flush_in_flight s) (write_observations s).
Definition with_poisoned (b : bool) (s : BufferPool) : BufferPool :=
  mkPool (disk_manager s) (dwb s) (log_manager s) (frames s) (pool_index s) (frame_wait_timeout s)
    (debug_assertions s) b (flush_in_flight s) (write_observations s).
Definition with_in_flight (b : bool) (s : BufferPool) : BufferPool :=
  mkPool (disk_manager s) (dwb s) (log_manager s) (frames s) (pool_index s) (frame_wait_timeout s)
    (debug_assertions s) (flush_poisoned s) b (write_observations s).
Definition observe (os : list WriteObservation) (s : BufferPool) : BufferPool :=
  mkPool (disk_manager s) (dwb s) (log_manager s) (frames s) (pool_index s) (frame_wait_timeout s)
    (debug_assertions s) (flush_poisoned s) (flush_in_flight s) (write_observations s ++ os).

Definition with_page_table pt (ix : PoolIndex) : PoolIndex :=
  mkIndex pt (frame_page ix) (free_list ix) (replacer ix) (owned ix) (loading ix) (evicting ix).
Definition with_frame_page f o (ix : PoolIndex) : PoolIndex :=
  mkIndex (page_table ix) (<[Z.to_nat f := o]> (frame_page ix)) (free_list ix) (replacer ix) (owned ix) (loading ix)
    (evicting ix).
Definition with_free_list fl (ix : PoolIndex) : PoolIndex :=
  mkIndex (page_table ix) (frame_page ix) fl (replacer ix) (owned ix) (loading ix) (evicting ix).
Definition with_replacer r (ix : PoolIndex) : PoolIndex :=
  mkIndex (page_table ix) (frame_page ix) (free_list ix) r (owned ix) (loading ix) (evicting ix).
Definition with_owned (f : FrameId) b (ix : PoolIndex) : PoolIndex :=
  mkIndex (page_table ix) (frame_page ix) (free_list ix) (replacer ix) (<[Z.to_nat f := b]> (owned ix)) (loading ix)
    (evicting ix).
Definition with_loading l (ix : PoolIndex) : PoolIndex :=
  mkIndex (page_table ix) (frame_page ix) (free_list ix) (replacer ix) (owned ix) l (evicting ix).
Definition with_evicting e (ix : PoolIndex) : PoolIndex :=
  mkIndex (page_table ix) (frame_page ix) (free_list ix) (replacer ix) (owned ix) (loading ix) e.

Abbreviation MP := (M BufferPool Storage.Error).
Definition on_index (f : PoolIndex -> PoolIndex) : MP unit := modify (fun s => with_index (f (pool_index s)) s).
Definition on_replacer (f : R -> R) : MP unit := on_index (fun ix => with_replacer (f (replacer ix)) ix).
Definition on_disk {A} (c : M DiskManager Storage.Error A) : MP A := fun s =>
  let '(o, d) := c (disk_manager s) in (o, with_disk d s).
Definition on_double_write {A} (c : M DoubleWriteBuffer Storage.Error A) : MP A := fun s =>
  let '(o, d) := c (dwb s) in (o, with_dwb d s).
Definition on_log {A} (c : M LogManager Storage.Error A) : MP A := fun s =>
  let '(o, l) := c (log_manager s) in (o, with_log l s).

(** [self.frames[idx]], and a change of it *)
Definition frame_at (f : FrameId) : MP Frame := fun s => (or_panic (index (frames s) f), s).
Definition set_frame (f : FrameId) (x : Frame) : MP unit :=
  modify (fun s => with_frames (<[Z.to_nat f := x]> (frames s)) s).

(** ** Pins and latches *)
Definition pin_locked (frame_id : FrameId) : MP unit :=
  x ← frame_at frame_id;
  _ ← set_frame frame_id (mkFrame (page x) (latch x) (pin_count x + 1) (dirty_since_lsn x));
  _ ← on_replacer (Replacer.record_access frame_id);
  on_replacer (Replacer.set_evictable frame_id false).

Definition unpin_frame (frame_id : FrameId) : MP unit :=
  x ← frame_at frame_id;
  if pin_count x =? 0 then mret tt else
  let remaining := pin_count x - 1 in
  _ ← set_frame frame_id (mkFrame (page x) (latch x) remaining (dirty_since_lsn x));
  if remaining =? 0 then
    o ← gets (fun s => index (owned (pool_index s)) frame_id);
    o ← lift (or_panic o);
    if o : bool then mret tt else on_replacer (Replacer.set_evictable frame_id true)
  else mret tt.

Definition pin_if_cached (page_id : PageId) : MP (option FrameId) :=
  ix ← gets pool_index;
  if decide (page_id ∈ evicting ix) then mret None else
  match page_table ix !! page_id with
  | None => mret None
  | Some frame_id => _ ← pin_locked frame_id; mret (Some frame_id)
  end.

(** Taking the write latch: [frames[idx].page.write()] *)
Definition write_lock (f : FrameId) : MP Frame :=
  x ← frame_at f;
  match latch x with Unlatched => mret x | _ => lift Panic end.
(** [frames[idx].page.read()] *)
Definition read_lock (f : FrameId) : MP Frame :=
  x ← frame_at f;
  match latch x with WriteLatched => lift Panic | _ => mret x end.

Definition write_guard (page_id : PageId) (frame_id : FrameId) : MP PageGuard :=
  x ← write_lock frame_id;
  _ ← set_frame frame_id (mkFrame (page x) WriteLatched (pin_count x) (dirty_since_lsn x));
  mret (mkGuard WriteGuard page_id frame_id).

Definition read_guard (page_id : PageId) (frame_id : FrameId) : MP PageGuard :=
  x ← read_lock frame_id;
  let l := match latch x with ReadLatched n => ReadLatched (n + 1) | _ => ReadLatched 1 end in
  _ ← set_frame frame_id (mkFrame (page x) l (pin_count x) (dirty_since_lsn x));
  mret (mkGuard ReadGuard page_id frame_id).

Definition release_latch (mode : GuardMode) (l : Latch) : Latch :=
  match mode, l with
  | WriteGuard, _ => Unlatched
  | ReadGuard, ReadLatched n => if n =? 1 then Unlatched else ReadLatched (n - 1)
  | ReadGuard, l => l
  end.
(** [Drop for PageReadGuard] and [Drop for PageWriteGuard] *)
Definition pool_drop_guard (g : PageGuard) : MP unit :=
  x ← frame_at (guard_frame_id g);
  _ ← set_frame (guard_frame_id g)
        (mkFrame (page x) (release_latch (guard_mode g) (latch x)) (pin_count x) (dirty_since_lsn x));
  unpin_frame (guard_frame_id g).

(** ** Write-back *)
Definition page_lsn_of (p : Page) : Lsn := page_lsn (data p).

(** The value of [x] in a block that ends with [after], by [?] as well. *)
Definition finally {S E A} (x : M S E A) (after : M S E unit) : M S E A := fun s =>
  let '(r, s) := x s in let '(_, s) := after s in (r, s).

(** A flush in flight that no other thread ends. *)
Definition begin_flush (deadline : bool) : MP unit :=
  in_flight ← gets flush_in_flight;
  if in_flight : bool then
    if deadline then timeout ← gets frame_wait_timeout; throw (Storage.BufferPoolWaitTimedOut timeout)
    else lift Panic
  else modify (with_in_flight true).
Definition end_flush : MP unit := modify (with_in_flight false).

Fixpoint snapshot (pages : list (FrameId * PageId)) : MP (list Page) :=
  match pages with
  | [] => mret []
  | (f, _) :: pages => x ← read_lock f; rest ← snapshot pages; mret (page x :: rest)
  end.

Fixpoint write_pages (pages : list Page) : MP unit :=
  match pages with
  | [] => mret tt
  | p :: pages => _ ← on_disk (write_page (id p) (data p)); write_pages pages
  end.

Fixpoint mark_clean (pages : list (FrameId * Page)) : MP unit :=
  match pages with
  | [] => mret tt
  | (f, snap) :: pages =>
      x ← write_lock f;
      _ ← (if page_lsn_of (page x) =? page_lsn_of snap
           then set_frame f (mkFrame (page x) (latch x) (pin_count x) 0) else mret tt);
      mark_clean pages
  end.

Definition max_lsn (l : list Page) : Lsn := fold_right Z.max 0 (page_lsn_of <$> l).

(** What happens between the double-write batch and its end: a failure poisons the pool. *)
Definition write_in_place (snap : list Page) : MP unit := fun s =>
  match (_ ← write_pages snap; _ ← on_disk disk_sync; on_double_write clear_batch) s with
  | (Err e, s) => (Err e, with_poisoned true s)
  | r => r
  end.

Definition flush_leased (pages : list (FrameId * PageId)) : MP unit :=
  poisoned ← gets flush_poisoned;
  if poisoned : bool then throw Storage.FlushPoisoned else
  snap ← snapshot pages;
  _ ← on_log (Log.flush (max_lsn snap));
  durable ← gets (fun s => durable_lsn (log_manager s));
  _ ← modify (observe ((fun p => mkObservation (id p) (page_lsn_of p) durable) <$> snap));
  _ ← on_double_write (write_batch snap);
  _ ← write_in_place snap;
  mark_clean (zip pages.*1 snap).

Definition flush_pages_before (pages : list (FrameId * PageId)) (deadline : bool) : MP unit :=
  poisoned ← gets flush_poisoned;
  if poisoned : bool then throw Storage.FlushPoisoned else
  match pages with
  | [] => mret tt
  | _ => _ ← begin_flush deadline; finally (flush_leased pages) end_flush
  end.
Definition flush_pages (pages : list (FrameId * PageId)) : MP unit := flush_pages_before pages false.

(** ** Frames *)

(** [free_list.pop()] *)
Definition pop_free : MP (option FrameId) :=
  ix ← gets pool_index;
  match last (free_list ix) with
  | None => mret None
  | Some f => _ ← on_index (with_free_list (removelast (free_list ix))); mret (Some f)
  end.

Definition is_clean (fs : list Frame) (f : FrameId) : bool :=
  match index fs f with Some x => dirty_since_lsn x =? 0 | None => false end.

(** A victim: a clean one while another flush is in flight, if there is one. *)
Definition choose_victim : MP (option FrameId) := fun s =>
  let ix := pool_index s in
  let '(clean_victim, r) :=
    if flush_in_flight s then Replacer.evict_where (is_clean (frames s)) (replacer ix) else (None, replacer ix) in
  let '(victim, r) := match clean_victim with Some f => (Some f, r) | None => Replacer.evict r end in
  (Ok victim, with_index (with_replacer r ix) s).

(** The frame to use and the page to evict from it. *)
Definition take_frame : MP (FrameId * option PageId) :=
  free ← pop_free;
  match free with
  | Some f => mret (f, None)
  | None =>
      victim ← choose_victim;
      match victim with
      | Some f =>
          o ← gets (fun s => index (frame_page (pool_index s)) f);
          victim_page ← lift (or_panic o);
          _ ← match victim_page with
              | Some p => on_index (fun ix => with_evicting ({[p]} ∪ evicting ix) ix)
              | None => mret tt
              end;
          mret (f, victim_page)
      | None =>
          s ← gets (fun s => s);
          if debug_assertions s && forallb (fun x => 0 <? pin_count x) (frames s)
          then throw Storage.BufferPoolExhausted
          else throw (Storage.BufferPoolWaitTimedOut (frame_wait_timeout s))
      end
  end.

Definition abort_eviction (frame_id : FrameId) (victim : PageId) : MP unit :=
  _ ← on_index (with_owned frame_id false);
  _ ← on_index (fun ix => with_evicting (evicting ix ∖ {[victim]}) ix);
  _ ← on_replacer (Replacer.record_access frame_id);
  on_replacer (Replacer.set_evictable frame_id true).

Definition complete_eviction (frame_id : FrameId) (victim : PageId) : MP unit :=
  _ ← on_index (fun ix => with_page_table (delete victim (page_table ix)) ix);
  _ ← on_index (with_frame_page frame_id None);
  on_index (fun ix => with_evicting (evicting ix ∖ {[victim]}) ix).

(** Writing back the page of a victim. *)
Definition write_back (frame_id : FrameId) (victim : PageId) : MP unit := fun s =>
  match (x ← frame_at frame_id;
         if dirty_since_lsn x =? 0 then mret tt else flush_pages_before [(frame_id, victim)] true) s with
  | (Err e, s) => (_ ← abort_eviction frame_id victim; throw e) s
  | r => r
  end.

Definition acquire_free_frame : MP FrameId :=
  '(frame_id, victim) ← take_frame;
  _ ← on_index (with_owned frame_id true);
  match victim with
  | None => mret frame_id
  | Some victim =>
      _ ← write_back frame_id victim;
      _ ← complete_eviction frame_id victim;
      mret frame_id
  end.

Definition release_owned_frame (frame_id : FrameId) : MP unit :=
  _ ← on_index (with_owned frame_id false);
  on_index (fun ix => with_free_list (free_list ix ++ [frame_id]) ix).

Definition try_install (frame_id : FrameId) (page_id : PageId) (p : Page) (dirty : option Lsn) : MP FrameId :=
  ix ← gets pool_index;
  match page_table ix !! page_id with
  | Some winner =>
      _ ← release_owned_frame frame_id;
      _ ← pin_locked winner;
      mret winner
  | None =>
      x ← write_lock frame_id;
      _ ← set_frame frame_id (mkFrame p (latch x) (pin_count x) (default 0 dirty));
      _ ← on_index (fun ix => with_page_table (<[page_id := frame_id]> (page_table ix)) ix);
      _ ← on_index (with_frame_page frame_id (Some page_id));
      _ ← on_index (with_owned frame_id false);
      _ ← pin_locked frame_id;
      mret frame_id
  end.

(** ** Fetching *)

(** The wait for another thread's load: a frame that is there, or the right to load the page. *)
Definition claim_load (page_id : PageId) : MP (option FrameId) :=
  ix ← gets pool_index;
  timeout ← gets frame_wait_timeout;
  if decide (page_id ∈ evicting ix) then throw (Storage.BufferPoolWaitTimedOut timeout) else
  match page_table ix !! page_id with
  | Some frame_id => _ ← pin_locked frame_id; mret (Some frame_id)
  | None =>
      if decide (page_id ∈ loading ix) then throw (Storage.BufferPoolWaitTimedOut timeout) else
      _ ← on_index (fun ix => with_loading ({[page_id]} ∪ loading ix) ix);
      mret None
  end.

(** Reading the page into a frame; a failed read gives the frame back. *)
Definition read_into (frame_id : FrameId) (page_id : PageId) : MP FrameId := fun s =>
  match on_disk (read_page page_id) s with
  | (Ok b, s) => try_install frame_id page_id (mkPage page_id b) None s
  | (Err e, s) => (_ ← release_owned_frame frame_id; throw e) s
  | (Panic, s) => (Panic, s)
  end.
Definition load_page (page_id : PageId) : MP FrameId :=
  frame_id ← acquire_free_frame;
  read_into frame_id page_id.

Definition fetch_frame (page_id : PageId) : MP FrameId :=
  cached ← pin_if_cached page_id;
  match cached with
  | Some f => mret f
  | None =>
      claimed ← claim_load page_id;
      match claimed with
      | Some f => mret f
      | None =>
          finally (load_page page_id) (on_index (fun ix => with_loading (loading ix ∖ {[page_id]}) ix))
      end
  end.

Definition pool_fetch_page (page_id : PageId) : MP PageGuard :=
  f ← fetch_frame page_id; write_guard page_id f.
Definition pool_fetch_page_read (page_id : PageId) : MP PageGuard :=
  f ← fetch_frame page_id; read_guard page_id f.

Definition append_log (t : TxnId) (k : LogRecordKind) : MP Lsn := on_log (Log.append t k).

Definition pool_new_page (t : TxnId) : MP PageGuard :=
  page_id ← on_disk allocate_page;
  lsn ← append_log t (AllocPage page_id);
  frame_id ← acquire_free_frame;
  frame_id ← try_install frame_id page_id (mkPage page_id zero_page) (Some lsn);
  write_guard page_id frame_id.

(** ** Guards *)
Definition pool_guard_page (g : PageGuard) : MP bytes :=
  x ← frame_at (guard_frame_id g); mret (data (page x)).

(** The bytes and page LSN of a change, and the mark that the page is dirty. *)
Definition stamp_frame (f : FrameId) (offset : Z) (new : bytes) (lsn : Lsn) : MP unit :=
  x ← frame_at f;
  set_frame f (mkFrame (mkPage (id (page x)) (set_page_lsn lsn (splice (data (page x)) offset new)))
                 (latch x) (pin_count x) (if dirty_since_lsn x =? 0 then lsn else dirty_since_lsn x)).

Definition pool_guard_write (t : TxnId) (g : PageGuard) (offset : Z) (new : bytes) : MP unit :=
  x ← frame_at (guard_frame_id g);
  before ← lift (or_panic (sub (data (page x)) offset (len new)));
  lsn ← append_log t (Update (guard_page_id g) (wrapu 16 offset) before new);
  stamp_frame (guard_frame_id g) offset new lsn.

#[export] Instance pool_store : PageStore BufferPool := {|
  fetch_page := pool_fetch_page;
  fetch_page_read := pool_fetch_page_read;
  new_page := pool_new_page;
  guard_page := pool_guard_page;
  guard_write := pool_guard_write;
  drop_guard := pool_drop_guard;
|}.

(** ** The rest of the interface *)
Definition flush_page (page_id : PageId) : MP unit :=
  ix ← gets pool_index;
  match page_table ix !! page_id with
  | None => mret tt
  | Some f =>
      x ← frame_at f;
      if dirty_since_lsn x =? 0 then mret tt else flush_pages [(f, page_id)]
  end.

(** The dirty frames with their pages, in frame order. *)
Definition dirty_frames (s : BufferPool) : list (FrameId * PageId * Lsn) :=
  omap (fun '(i, (o, x)) =>
          p ← o; if dirty_since_lsn x =? 0 then None else Some (Z.of_nat i, p, dirty_since_lsn x))
    (imap (fun i y => (i, y)) (zip (frame_page (pool_index s)) (frames s))).

(** [slice.chunks(n)] *)
Fixpoint chunks {A} (fuel n : nat) (l : list A) : list (list A) :=
  match fuel, l with
  | _, [] | O, _ => []
  | S fuel, _ => firstn n l :: chunks fuel n (skipn n l)
  end.
Fixpoint flush_batches (bs : list (list (FrameId * PageId))) : MP unit :=
  match bs with
  | [] => mret tt
  | b :: bs => _ ← flush_pages b; flush_batches bs
  end.
Definition pool_flush_all : MP unit :=
  dirty ← gets (fun s => (fun '(f, p, _) => (f, p)) <$> dirty_frames s);
  cap ← gets (fun s => capacity (dwb s));
  flush_batches (chunks (length dirty) (Z.to_nat cap) dirty).

Definition pool_sync : MP unit := on_disk disk_sync.

Definition dirty_page_table (s : BufferPool) : list (PageId * Lsn) :=
  (fun '(_, p, lsn) => (p, lsn)) <$> dirty_frames s.

Definition page_lsn_on (p : PageId) : MP Lsn :=
  g ← fetch_page_read p;
  with_guard g (b ← guard_page g; mret (page_lsn b)).

(** The redo of a logged change: out of range panics. *)
Definition stamp_write (p : PageId) (offset : Z) (new : bytes) (lsn : Lsn) : MP unit :=
  g ← fetch_page p;
  with_guard g (
    b ← guard_page g;
    _ ← lift (or_panic (sub b offset (len new)));
    stamp_frame (guard_frame_id g) offset new lsn).

Definition ensure_page_allocated (p : PageId) : MP unit := on_disk (ensure_allocated p).
Definition read_log_at (lsn : Lsn) : MP (option LoggedRecord) := on_log (Log.read_at lsn).
Definition flush_log_all : MP unit := on_log Log.flush_all.
Definition truncate_log_below (bound : Lsn) : MP unit := on_log (Log.truncate_below bound).
End pool.
Arguments BufferPool R : clear implicits.
Arguments PoolIndex R : clear implicits.
