(* ===== verification/BufferInv.v ===== *)
(** * The buffer pool: its invariant

    What every state of the pool of Buffer.v satisfies between the calls of one thread, and in the
    course of an eviction: the page table and the frames agree, pins and latches are those of the
    live guards, only unpinned pages can be evicted, and a clean frame holds what is on disk. The
    pages a pool holds are the cached ones and, for the others, those on disk. *)
From S2P Require Import Prelude Text Value Common Errors WalRecord Replacer Device SegmentStore Log Page Disk Dwb Buffer.

Section inv.
Context {R : Type} `{!Replacer R, !ReplacerLaws R}.
Abbreviation Pool := (BufferPool R).
Abbreviation MP := (M Pool Storage.Error).
(** The frames in use: the page they are pinned for, and the guard that latched them, if any yet. *)
Abbreviation held := (gmap FrameId (PageId * option GuardMode)).

Definition latch_of (o : option (PageId * option GuardMode)) : Latch :=
  match o with
  | Some (_, Some ReadGuard) => ReadLatched 1
  | Some (_, Some WriteGuard) => WriteLatched
  | _ => Unlatched
  end.
Definition pins_of (o : option (PageId * option GuardMode)) : Z := match o with Some _ => 1 | None => 0 end.

(** What the frame of page [p] holds. *)
Record page_frame (H : held) (d : DiskManager) (p : PageId) (f : FrameId) (x : Frame) : Prop := {
  pf_id : id (page x) = p;
  pf_len : len (data (page x)) = PAGE_SIZE;
  pf_disk : 0 <= p /\ (p + 1) * PAGE_SIZE <= len (content (device d));
  pf_pins : pin_count x = pins_of (H !! f);
  pf_latch : latch x = latch_of (H !! f);
  pf_clean : dirty_since_lsn x = 0 -> disk_page d p = Some (clear_checksum (data (page x)));
}.

(** [taken]: frames that hold no page and are about to; [vic]: frames under eviction. *)
Record core (H : held) (taken vic : list FrameId) (fs : list Frame) (ix : PoolIndex R) (d : DiskManager) : Prop := {
  c_len : len (frame_page ix) = len fs /\ len (owned ix) = len fs;
  c_table : forall p f, page_table ix !! p = Some f <-> index (frame_page ix) f = Some (Some p);
  c_page : forall p f, page_table ix !! p = Some f -> exists x, index fs f = Some x /\ page_frame H d p f x;
  c_unused : forall f, index (frame_page ix) f = Some None -> H !! f = None
    /\ exists x, index fs f = Some x /\ latch x = Unlatched /\ pin_count x = 0;
  c_free : NoDup (free_list ix ++ taken)
    /\ forall f, f ∈ free_list ix ++ taken <-> index (frame_page ix) f = Some None;
  c_evictable : forall f, f ∈ evictable (replacer ix) <->
    H !! f = None /\ (f ∉ vic) /\ exists p, page_table ix !! p = Some f;
  c_tracked : forall f p, page_table ix !! p = Some f -> is_Some (H !! f) -> f ∈ tracked (replacer ix);
  c_held : forall f p m, H !! f = Some (p, m) -> page_table ix !! p = Some f;
  c_owned : forall f, index (owned ix) f = Some true <-> f ∈ taken ++ vic;
  c_vic : NoDup vic /\ forall f, f ∈ vic -> H !! f = None /\ exists p, page_table ix !! p = Some f;
  c_evicting : forall p, p ∈ evicting ix <-> exists f, f ∈ vic /\ page_table ix !! p = Some f;
}.

(** ** The pages of a pool *)
Definition cached (s : Pool) : gmap PageId bytes :=
  omap (fun f => (fun x => clear_checksum (data (page x))) <$> index (frames s) f) (page_table (pool_index s)).
Definition pool_pages (s : Pool) : gmap PageId bytes := cached s ∪ disk_pages (disk_manager s).

Lemma pool_pages_lookup s p :
  pool_pages s !! p =
    match page_table (pool_index s) !! p ≫= index (frames s) with
    | Some x => Some (clear_checksum (data (page x)))
    | None => disk_page (disk_manager s) p
    end.
Proof.
  unfold pool_pages, cached. rewrite lookup_union, lookup_omap, disk_pages_lookup.
  destruct (page_table (pool_index s) !! p) as [f |]; cbn; [destruct (index (frames s) f) as [x |]; cbn |];
    by destruct (disk_page _ p).
Qed.

Lemma core_unique H taken vic fs ix d p q f :
  core H taken vic fs ix d -> page_table ix !! p = Some f -> page_table ix !! q = Some f -> p = q.
Proof.
  intros Hc Hp%(c_table _ _ _ _ _ _ Hc) Hq%(c_table _ _ _ _ _ _ Hc). congruence.
Qed.

Lemma core_frame H taken vic fs ix d p f :
  core H taken vic fs ix d -> page_table ix !! p = Some f -> 0 <= f < len fs.
Proof. intros Hc Hp. destruct (c_page _ _ _ _ _ _ Hc _ _ Hp) as (x & Hx & _). by eapply index_range. Qed.

(** ** Changes of one frame *)

(** The frame of page [p], and with it how the replacer sees that frame. *)
Lemma core_set_frame H H' taken vic fs ix d p f x r :
  core H taken vic fs ix d -> page_table ix !! p = Some f ->
  (forall g, g <> f -> H' !! g = H !! g) -> page_frame H' d p f x ->
  (f ∈ evictable r <-> H' !! f = None /\ (f ∉ vic)) ->
  (forall g, g <> f -> g ∈ evictable r <-> g ∈ evictable (replacer ix)) ->
  tracked (replacer ix) ⊆ tracked r ->
  (is_Some (H' !! f) -> (f ∉ vic) /\ f ∈ tracked r) ->
  (forall q m, H' !! f = Some (q, m) -> q = p) ->
  core H' taken vic (<[Z.to_nat f := x]> fs) (with_replacer r ix) d.
Proof.
  intros Hc Hp HH Hx Hiff Hothers Htracked Hheld Hpid. pose proof (core_frame _ _ _ _ _ _ _ _ Hc Hp) as Hf.
  destruct Hc as [Hl Ht Hpg Hun Hfr Hev Htr Hhd How Hvc Hec]. split; try done.
  - by rewrite len_insert.
  - intros q g Hq. rewrite index_insert by done. case_decide as Hg.
    + subst g. exists x. split; [done |]. assert (q = p) as -> by (apply Ht in Hq; apply Ht in Hp; congruence). done.
    + destruct (Hpg _ _ Hq) as (y & Hy & [? ? ? Hpins Hlatch ?]). exists y. split; [done |].
      split; try done; by rewrite HH.
  - intros g Hg. assert (Hgf : g <> f) by (intros ->; apply Ht in Hp; cbn in *; congruence).
    rewrite index_insert, decide_False, HH by done. by apply Hun.
  - intros g. cbn. destruct (decide (g = f)) as [-> | Hne]; [rewrite Hiff; naive_solver | by rewrite Hothers, Hev, HH].
  - intros g q Hq Hg. cbn in *. destruct (decide (g = f)) as [-> | Hne]; [by apply Hheld |]. rewrite HH in Hg by done.
    by eapply Htracked, Htr.
  - intros g q m Hg. destruct (decide (g = f)) as [-> | Hne]; [by rewrite (Hpid q m) |]. rewrite HH in Hg by done. by eapply Hhd.
  - split; [apply Hvc |]. intros g Hg. destruct (proj2 Hvc g Hg) as [? ?]. split; [| done].
    destruct (decide (g = f)) as [-> | Hne]; [| by rewrite HH].
    destruct (H' !! f) eqn:E; [| done]. by destruct Hheld.
Qed.

Lemma with_replacer_id (ix : PoolIndex R) : with_replacer (replacer ix) ix = ix.
Proof. by destruct ix. Qed.

(** The same frame, pinned as before. *)
Lemma core_set_bytes H taken vic fs ix d p f x :
  core H taken vic fs ix d -> page_table ix !! p = Some f -> page_frame H d p f x ->
  core H taken vic (<[Z.to_nat f := x]> fs) ix d.
Proof.
  intros Hc Hp Hx. rewrite <- (with_replacer_id ix). apply (core_set_frame H H taken vic fs ix d p f); try done.
  - rewrite (c_evictable _ _ _ _ _ _ Hc). naive_solver.
  - intros Hh. split; [| by eapply (c_tracked _ _ _ _ _ _ Hc)]. intros Hv.
    destruct (proj2 (c_vic _ _ _ _ _ _ Hc) _ Hv) as [Hn _]. rewrite Hn in Hh. by destruct Hh.
  - intros q m Hq. apply (c_held _ _ _ _ _ _ Hc) in Hq. by eapply core_unique.
Qed.

(** ** The whole pool *)

(** The longest record the pool logs, with room to spare. *)
Definition MAX_RECORD : Z := 2 ^ 14.

Definition log_room (n : nat) (l : LogManager) : Prop :=
  0 < next_lsn l /\ durable_lsn l <= next_lsn l /\ next_lsn l + Z.of_nat n * MAX_RECORD < 2 ^ 64.

Definition obs_ok (o : WriteObservation) : Prop := obs_page_lsn o < obs_durable_lsn o.

Record pool_inv (H : held) (taken vic : list FrameId) (n : nat) (s : Pool) : Prop := {
  pi_core : core H taken vic (frames s) (pool_index s) (disk_manager s);
  pi_disk : disk_ok (disk_manager s) /\ disk_next_page_id (disk_manager s) + Z.of_nat n < 2 ^ 32;
  pi_log : log_room n (log_manager s);
  pi_lsns : forall p b, pool_pages s !! p = Some b -> page_lsn b < next_lsn (log_manager s);
  pi_dwb : 1 <= capacity (dwb s) /\ ENTRIES_OFFSET + capacity (dwb s) * ENTRY_SIZE + 4 <= PAGE_SIZE;
  pi_obs : Forall obs_ok (write_observations s);
}.

Lemma pool_inv_le H taken vic n n' s : pool_inv H taken vic n s -> (n' <= n)%nat -> pool_inv H taken vic n' s.
Proof.
  intros [Hc [Hd Hn] (Hl1 & Hl2 & Hl3) Hs Hw Ho] Hle. split; try done; [split; [done | lia] |].
  split_and!; try done. unfold MAX_RECORD in *. lia.
Qed.

(** A step that only changes the index and the frames, and keeps the pages. *)
Lemma pool_inv_step H H' taken taken' vic vic' n s fs ix :
  pool_inv H taken vic n s -> core H' taken' vic' fs ix (disk_manager s) ->
  (forall p, pool_pages (with_index ix (with_frames fs s)) !! p = pool_pages s !! p) ->
  pool_inv H' taken' vic' n (with_index ix (with_frames fs s))
  /\ pool_pages (with_index ix (with_frames fs s)) = pool_pages s.
Proof.
  intros [Hc Hd Hl Hs Hw Ho] Hc' Hp. assert (Hpp : pool_pages (with_index ix (with_frames fs s)) = pool_pages s)
    by (by apply map_eq). split; [| done]. split; try done. rewrite Hpp. exact Hs.
Qed.

(** The pages do not change when the bytes of every mapped frame stay. *)
Lemma pool_pages_same s s' :
  disk_manager s' = disk_manager s -> page_table (pool_index s') = page_table (pool_index s) ->
  (forall f, (fun x => data (page x)) <$> index (frames s') f = (fun x => data (page x)) <$> index (frames s) f) ->
  forall p, pool_pages s' !! p = pool_pages s !! p.
Proof.
  intros Hd Ht Hf p. rewrite !pool_pages_lookup, Hd, Ht. destruct (page_table (pool_index s) !! p) as [f |]; cbn; [| done].
  specialize (Hf f). destruct (index (frames s') f), (index (frames s) f); cbn in *; congruence.
Qed.

Lemma index_insert_data fs f x y g :
  index fs f = Some x -> data (page y) = data (page x) ->
  (fun x => data (page x)) <$> index (<[Z.to_nat f := y]> fs) g = (fun x => data (page x)) <$> index fs g.
Proof.
  intros Hx Hd. rewrite index_insert by (by eapply index_range). case_decide as Hg; [| done]. subst g. rewrite Hx. cbn. by rewrite Hd.
Qed.

(** *** Pinning *)
Definition pinned (f : FrameId) (x : Frame) (s : Pool) : Pool :=
  with_index (with_replacer (Replacer.set_evictable f false (Replacer.record_access f (replacer (pool_index s)))) (pool_index s))
    (with_frames (<[Z.to_nat f := mkFrame (page x) (latch x) (pin_count x + 1) (dirty_since_lsn x)]> (frames s)) s).

Lemma pin_locked_run f x s : index (frames s) f = Some x -> pin_locked f s = (Ok tt, pinned f x s).
Proof. intros Hx. unfold pin_locked, mbind, M_bind, frame_at. rewrite Hx. done. Qed.

Lemma pinned_inv H taken vic n s p f x :
  pool_inv H taken vic n s -> page_table (pool_index s) !! p = Some f -> index (frames s) f = Some x ->
  H !! f = None -> f ∉ vic ->
  pool_inv (<[f := (p, None)]> H) taken vic n (pinned f x s) /\ pool_pages (pinned f x s) = pool_pages s.
Proof.
  intros Hi Hp Hx Hf Hv. pose proof (pi_core _ _ _ _ _ Hi) as Hc. unfold pinned.
  destruct (record_access_spec f (replacer (pool_index s))) as [Ht1 He1].
  destruct (set_evictable_spec f false (Replacer.record_access f (replacer (pool_index s)))) as [Ht2 He2].
  rewrite Ht1, He1, decide_True in He2 by set_solver. rewrite Ht1 in Ht2.
  destruct (c_page _ _ _ _ _ _ Hc _ _ Hp) as (x' & Hx' & Hpf). assert (x' = x) as -> by congruence.
  eapply pool_inv_step; [done | |].
  - apply (core_set_frame H _ taken vic _ _ _ p f); try done.
    + intros g Hg. by rewrite lookup_insert_ne.
    + destruct Hpf as [? ? ? Hpins Hlatch ?]. split; try done; cbn; rewrite lookup_insert_eq; cbn.
      * by rewrite Hpins, Hf.
      * by rewrite Hlatch, Hf.
    + rewrite He2, lookup_insert_eq. set_solver.
    + intros g Hg. rewrite He2. set_solver.
    + rewrite Ht2. set_solver.
    + intros _. rewrite Ht2. split; [done | set_solver].
    + intros q m. rewrite lookup_insert_eq. by intros [= <- _].
  - apply pool_pages_same; [done | done |]. intros g. cbn. by eapply index_insert_data.
Qed.

(** *** Guards *)
Definition guard_latched (m : GuardMode) (f : FrameId) (x : Frame) (s : Pool) : Pool :=
  with_frames (<[Z.to_nat f := mkFrame (page x) (latch_of (Some (0, Some m))) (pin_count x) (dirty_since_lsn x)]> (frames s)) s.

Lemma with_index_id (s : Pool) : with_index (pool_index s) s = s.
Proof. by destruct s. Qed.
Lemma with_index_frames (ix : PoolIndex R) fs (s : Pool) : with_index ix (with_frames fs s) = with_frames fs (with_index ix s).
Proof. done. Qed.

Lemma latch_run m p f x s :
  index (frames s) f = Some x -> latch x = Unlatched ->
  match m with ReadGuard => read_guard p f | WriteGuard => write_guard p f end s
    = (Ok (mkGuard m p f), guard_latched m f x s).
Proof.
  intros Hx Hl. destruct m; unfold read_guard, write_guard, read_lock, write_lock, mbind, M_bind, frame_at;
    rewrite Hx; cbn; rewrite Hl; cbn; rewrite ?Hl; reflexivity.
Qed.

Lemma latched_inv H taken vic n s p f x m :
  pool_inv H taken vic n s -> page_table (pool_index s) !! p = Some f -> index (frames s) f = Some x ->
  H !! f = Some (p, None) ->
  pool_inv (<[f := (p, Some m)]> H) taken vic n (guard_latched m f x s) /\ pool_pages (guard_latched m f x s) = pool_pages s.
Proof.
  intros Hi Hp Hx Hf. pose proof (pi_core _ _ _ _ _ Hi) as Hc.
  destruct (c_page _ _ _ _ _ _ Hc _ _ Hp) as (x' & Hx' & Hpf). assert (x' = x) as -> by congruence.
  unfold guard_latched. rewrite <- (with_index_id (with_frames _ _)). eapply pool_inv_step; [done | |].
  - cbn [pool_index with_frames]. rewrite <- (with_replacer_id (pool_index s)).
    apply (core_set_frame H _ taken vic _ _ _ p f); try done.
    + intros g Hg. by rewrite lookup_insert_ne.
    + destruct Hpf as [? ? ? Hpins Hlatch ?]. split; try done; cbn; rewrite lookup_insert_eq; cbn; [| done].
      by rewrite Hpins, Hf.
    + rewrite lookup_insert_eq, (c_evictable _ _ _ _ _ _ Hc), Hf. naive_solver.
    + intros _. split; [| eapply (c_tracked _ _ _ _ _ _ Hc); [done | by rewrite Hf]]. intros Hv.
      destruct (proj2 (c_vic _ _ _ _ _ _ Hc) _ Hv) as [Hn _]. congruence.
    + intros q m'. rewrite lookup_insert_eq. by intros [= <- _].
  - apply pool_pages_same; [done | done |]. intros g. cbn. by eapply index_insert_data.
Qed.

(** Dropping a guard. *)
Definition dropped (f : FrameId) (x : Frame) (s : Pool) : Pool :=
  with_index (with_replacer (Replacer.set_evictable f true (replacer (pool_index s))) (pool_index s))
    (with_frames (<[Z.to_nat f := mkFrame (page x) Unlatched 0 (dirty_since_lsn x)]> (frames s)) s).

Lemma drop_run m p f x s :
  index (frames s) f = Some x -> latch x = latch_of (Some (0, Some m)) -> pin_count x = 1 ->
  index (owned (pool_index s)) f = Some false ->
  pool_drop_guard (mkGuard m p f) s = (Ok tt, dropped f x s).
Proof.
  intros Hx Hl Hp Ho. pose proof (index_range _ _ _ Hx).
  unfold pool_drop_guard, unpin_frame, mbind, M_bind, frame_at. cbn [guard_frame_id guard_mode]. rewrite Hx. cbn.
  rewrite index_insert, decide_True by done. cbn. rewrite Hp. cbn. unfold gets. cbn.
  change (1 - 1) with 0. cbn. rewrite Ho. cbn.
  rewrite Hl. unfold modify, dropped. cbn. unfold with_index, with_frames. cbn. rewrite list_insert_insert_eq.
  by destruct m.
Qed.

Lemma dropped_inv H taken vic n s p f x m :
  pool_inv H taken vic n s -> page_table (pool_index s) !! p = Some f -> index (frames s) f = Some x ->
  H !! f = Some m -> pool_inv (delete f H) taken vic n (dropped f x s) /\ pool_pages (dropped f x s) = pool_pages s.
Proof.
  intros Hi Hp Hx Hf. pose proof (pi_core _ _ _ _ _ Hi) as Hc.
  destruct (c_page _ _ _ _ _ _ Hc _ _ Hp) as (x' & Hx' & Hpf). assert (x' = x) as -> by congruence.
  assert (Hv : f ∉ vic). { intros Hv. destruct (proj2 (c_vic _ _ _ _ _ _ Hc) _ Hv) as [Hn _]. congruence. }
  assert (Htk : f ∈ tracked (replacer (pool_index s))) by (eapply (c_tracked _ _ _ _ _ _ Hc); [done | by rewrite Hf]).
  destruct (set_evictable_spec f true (replacer (pool_index s))) as [Ht He]. rewrite decide_True in He by done.
  unfold dropped. eapply pool_inv_step; [done | |].
  - apply (core_set_frame H _ taken vic _ _ _ p f); try done.
    + intros g Hg. by rewrite lookup_delete_ne.
    + destruct Hpf as [? ? ? Hpins Hlatch ?]. split; try done; cbn; by rewrite lookup_delete_eq.
    + rewrite He, lookup_delete_eq. split; [done |]. intros _. set_solver.
    + intros g Hg. rewrite He. set_solver.
    + by rewrite Ht.
    + rewrite lookup_delete_eq. by intros [? ?].
    + by rewrite lookup_delete_eq.
  - apply pool_pages_same; [done | done |]. intros g. cbn. by eapply index_insert_data.
Qed.
End inv.
#[global] Arguments pool_pages : simpl never.
