(* ===== verification/BufferFlush.v ===== *)
(** * The buffer pool: writing pages back

    What [flush_pages_before] does: the log is flushed up to the newest page of the batch, then the
    batch goes to the double-write buffer and to its place on disk. On success the frames are clean
    and hold what is on disk; on any failure the frames still hold the pages, and stay dirty. *)
From S2P Require Import Prelude Text Value Common Errors WalRecord Replacer Device SegmentStore Log LogInv.
From S2P Require Import Page Disk Dwb Buffer BufferInv.

(** ** The log under the pool *)

(** Calls on the log's segments neither panic nor move its positions. *)
Definition calm {S A} (c : M S Storage.Error A) : Prop := forall s, fst (c s) <> Panic.

Lemma calm_segment {A} i (c : M Device Storage.Error A) : calm c -> calm (on_segment i c).
Proof.
  intros Hc st. unfold on_segment. specialize (Hc (mkDevice (default [] (segs st !! i)) (store_faults st))).
  by destruct (c _) as [o d].
Qed.
Lemma calm_size : calm size.
Proof. intros [c fs]. unfold size. cbn. by destruct (next_fault fs) as [[] ?]. Qed.
Lemma calm_write off buf : calm (write_at off buf).
Proof. intros [c fs]. unfold write_at. cbn. by destruct (next_fault fs) as [[] ?]. Qed.
Lemma calm_sync : calm sync_all.
Proof. intros [c fs]. unfold sync_all. cbn. by destruct (next_fault fs) as [[] ?]. Qed.
Lemma calm_set_len n : calm (set_len n).
Proof. intros [c fs]. unfold set_len. cbn. by destruct (next_fault fs) as [[] ?]. Qed.
Lemma calm_open i : calm (open i).
Proof. intros st. unfold open. by destruct (next_fault (store_faults st)) as [[] ?]. Qed.
Lemma calm_bind {S A B} (c : M S Storage.Error A) (k : A -> M S Storage.Error B) :
  calm c -> (forall a, calm (k a)) -> calm (c ≫= k).
Proof.
  intros Hc Hk s. unfold mbind, M_bind. specialize (Hc s). destruct (c s) as [[a | e |] s']; [apply Hk | done | done].
Qed.
Create HintDb calm.
#[local] Hint Resolve calm_segment calm_size calm_write calm_sync calm_set_len calm_open calm_bind : calm.

Lemma calm_header i start : calm (write_segment_header i start).
Proof. unfold write_segment_header. auto with calm. Qed.
#[local] Hint Resolve calm_header : calm.

(** What a call on the store leaves of the log: its positions. *)
Definition same_positions (l l' : LogManager) : Prop :=
  next_lsn l' = next_lsn l /\ durable_lsn l' = durable_lsn l /\ buffer l' = buffer l.

Lemma on_store_calm {A} (c : M Store Storage.Error A) l0 l :
  calm c -> same_positions l0 l ->
  match on_store c l with (Ok _, l') | (Err _, l') => same_positions l0 l' | (Panic, _) => False end.
Proof.
  intros Hc Hl. unfold on_store. specialize (Hc (store l)). by destruct (c (store l)) as [[a | e |] st].
Qed.

(** Flushing makes everything up to the given LSN durable, and logs nothing. *)
Lemma log_flush_gen n up_to l : log_room n l ->
  match Log.flush up_to l with
  | (Ok _, l') => log_room n l' /\ next_lsn l' = next_lsn l /\ durable_lsn l <= durable_lsn l' /\ (up_to < next_lsn l -> up_to < durable_lsn l')
  | (Err _, l') => log_room n l' /\ next_lsn l' = next_lsn l /\ durable_lsn l <= durable_lsn l'
  | (Panic, _) => False
  end.
Proof.
  intros (Hr1 & Hr2 & Hr3). unfold Log.flush, mbind, M_bind, gets.
  destruct (Z.ltb_spec up_to (durable_lsn l)); [done |].
  assert (Hroom : forall l1, same_positions l l1 -> log_room n l1 /\ next_lsn l1 = next_lsn l /\ durable_lsn l <= durable_lsn l1).
  { intros l1 (E1 & E2 & _). unfold log_room. rewrite E1, E2. done. }
  pose proof (on_store_calm (on_segment (active_id l) size) l l ltac:(auto with calm) ltac:(done)) as H1.
  destruct (on_store _ l) as [[off | e |] l1]; [| by apply Hroom | done].
  pose proof (on_store_calm (on_segment (active_id l) (write_at off (buffer l1))) l l1 ltac:(auto with calm) H1) as H2.
  destruct (on_store _ l1) as [[u | e |] l2]; [| by apply Hroom | done].
  pose proof (on_store_calm (on_segment (active_id l) sync_all) l l2 ltac:(auto with calm) H2) as H3.
  destruct (on_store _ l2) as [[u' | e |] l3]; [| by apply Hroom | done].
  unfold modify. set (l4 := mark_flushed l3).
  assert (H4 : log_room n l4 /\ next_lsn l4 = next_lsn l /\ durable_lsn l <= durable_lsn l4 /\ (up_to < next_lsn l -> up_to < durable_lsn l4)).
  { destruct H3 as (E1 & E2 & _). unfold l4, log_room. cbn. rewrite E1. split_and!; try done; lia. }
  assert (Hroom4 : forall l5, same_positions l4 l5 ->
    log_room n l5 /\ next_lsn l5 = next_lsn l /\ durable_lsn l <= durable_lsn l5 /\ (up_to < next_lsn l -> up_to < durable_lsn l5)).
  { intros l5 (E1 & E2 & _). unfold log_room in *. rewrite E1, E2. done. }
  pose proof (on_store_calm (on_segment (active_id l) size) l4 l4 ltac:(auto with calm) ltac:(done)) as H5.
  destruct (on_store _ l4) as [[n5 | e |] l5]; [| destruct (Hroom4 _ H5) as (? & ? & ? & ?); done | done].
  destruct (_ <=? _); [| by apply Hroom4]. unfold ignore_error, roll_segment, mbind, M_bind, gets, modify.
  pose proof (on_store_calm (open (active_id l5 + 1)) l4 l5 ltac:(auto with calm) H5) as H6.
  destruct (on_store _ l5) as [[u6 | e |] l6]; [| by apply Hroom4 | done].
  pose proof (on_store_calm (write_segment_header (active_id l5 + 1) (next_lsn l5)) l4 l6 ltac:(auto with calm) H6) as H7.
  destruct (on_store _ l6) as [[u7 | e |] l7]; [| by apply Hroom4 | done].
  apply Hroom4 in H7. exact H7.
Qed.
Lemma log_flush_spec n up_to l :
  log_room n l -> up_to < next_lsn l ->
  match Log.flush up_to l with
  | (Ok _, l') => log_room n l' /\ next_lsn l' = next_lsn l /\ durable_lsn l <= durable_lsn l' /\ up_to < durable_lsn l'
  | (Err _, l') => log_room n l' /\ next_lsn l' = next_lsn l /\ durable_lsn l <= durable_lsn l'
  | (Panic, _) => False
  end.
Proof. intros Hr Hup. pose proof (log_flush_gen n up_to l Hr) as H. destruct (Log.flush up_to l) as [[u | e |] l']; [| done..]. naive_solver. Qed.

(** Appending uses the room of one record. *)
Lemma log_append_spec n t k l :
  log_room (S n) l -> record_len (mkLogged (next_lsn l) (last_lsn_by_txn l !! t) t k) <= MAX_RECORD ->
  exists l', Log.append t k l = (Ok (next_lsn l), l') /\ log_room n l' /\ next_lsn l < next_lsn l'
    /\ durable_lsn l' = durable_lsn l.
Proof.
  intros (Hr1 & Hr2 & Hr3) Hlen. unfold Log.append. eexists. split; [done |]. cbn.
  rewrite len_encode_record. pose proof (len_encode_body_min (mkLogged (next_lsn l) (last_lsn_by_txn l !! t) t k)).
  set (r := record_len _) in *. assert (0 < r) by (unfold r, record_len; lia). unfold MAX_RECORD in *.
  assert (E : wrapu 64 (next_lsn l + r) = next_lsn l + r) by (unfold wrapu; rewrite Z.mod_small; lia).
  rewrite E. unfold log_room. cbn. unfold MAX_RECORD. lia.
Qed.

(** ** The batch on disk *)

(** A disk written in the pages [ids] only. *)
Definition written_pages (d : DiskManager) (ids : list PageId) (d' : DiskManager) : Prop :=
  len (content (device d')) = len (content (device d))
  /\ (forall q, q ∉ ids -> page_at (content (device d')) q = page_at (content (device d)) q)
  /\ disk_page_size d' = disk_page_size d
  /\ disk_next_page_id d' = disk_next_page_id d /\ extended_len d' = extended_len d.

Lemma written_pages_refl d ids : written_pages d ids d.
Proof. by repeat split. Qed.
Lemma written_pages_cons d p ids d1 d2 :
  written_in d p d1 -> written_pages d1 ids d2 -> written_pages d (p :: ids) d2.
Proof.
  intros (H1 & H2 & H3 & H4 & H5) (G1 & G2 & G3 & G4 & G5). unfold written_pages.
  rewrite G1, G3, G4, G5, H1, H3, H4, H5.
  split_and!; [reflexivity | | reflexivity..]. intros q [Hq Hqs]%not_elem_of_cons. by rewrite G2, H2.
Qed.
Lemma written_pages_mono d ids ids' d' : written_pages d ids d' -> ids ⊆ ids' -> written_pages d ids' d'.
Proof. intros (H1 & H2 & H3 & H4 & H5) Hs. split_and!; [assumption | | assumption..]. intros q Hq. apply H2. auto. Qed.
Lemma written_pages_ok d ids d' : written_pages d ids d' -> disk_ok d -> disk_ok d'.
Proof. intros (H1 & _ & H2 & H3 & H4) [A B C D]. by split; rewrite ?H1, ?H2, ?H3, ?H4. Qed.

Lemma written_pages_same d ids d1 d2 : written_pages d ids d1 -> same_disk d1 d2 -> written_pages d ids d2.
Proof.
  intros (H1 & H2 & H3 & H4 & H5) (G1 & G2 & G3 & G4). unfold written_pages. by rewrite G1, G2, G3, G4.
Qed.

Section flush.
Context {R : Type} `{!Replacer R, !ReplacerLaws R}.
Abbreviation Pool := (BufferPool R).

Definition writable (d : DiskManager) (pg : Page) : Prop :=
  len (data pg) = PAGE_SIZE /\ 0 <= id pg /\ (id pg + 1) * PAGE_SIZE <= len (content (device d)).

Lemma write_pages_spec snap : forall (s : Pool),
  disk_page_size (disk_manager s) = PAGE_SIZE -> Forall (writable (disk_manager s)) snap -> NoDup (id <$> snap) ->
  match write_pages snap s with
  | (Ok _, s') => exists d', s' = with_disk d' s /\ written_pages (disk_manager s) (id <$> snap) d'
      /\ Forall (fun pg => page_at (content (device d')) (id pg) = Some (stamp_checksum (data pg))) snap
  | (Err _, s') => exists d', s' = with_disk d' s /\ written_pages (disk_manager s) (id <$> snap) d'
  | (Panic, _) => False
  end.
Proof.
  induction snap as [| pg snap IH]; intros s Hps Hw Hnd.
  { cbn. exists (disk_manager s). split_and!; [by destruct s | apply written_pages_refl | constructor]. }
  apply Forall_cons in Hw as [(Hl & H0 & Hin) Hw]. apply NoDup_cons in Hnd as [Hni Hnd].
  cbn [write_pages]. unfold mbind, M_bind, on_disk.
  pose proof (write_page_spec (id pg) (data pg) (disk_manager s) Hps Hl H0 Hin) as H1.
  destruct (write_page (id pg) (data pg) (disk_manager s)) as [[u | e |] d1]; [| | done].
  - destruct H1 as [H1 Hp1]. assert (Hw1 : Forall (writable d1) snap).
    { eapply Forall_impl; [exact Hw |]. intros x (? & ? & ?). split_and!; try done. destruct H1 as (-> & _). done. }
    specialize (IH (with_disk d1 s)). cbn [disk_manager with_disk] in IH.
    destruct H1 as (E1 & E2 & E3 & E4 & E5). rewrite E3 in IH. specialize (IH Hps Hw1 Hnd).
    destruct (write_pages snap (with_disk d1 s)) as [[u' | e |] s'].
    + destruct IH as (d' & -> & Hd' & Hall). exists d'. split_and!; [done | by eapply written_pages_cons |].
      constructor; [| done]. destruct Hd' as (_ & Hd' & _). by rewrite Hd'.
    + destruct IH as (d' & -> & Hd'). exists d'. split; [done | by eapply written_pages_cons].
    + done.
  - exists d1. split; [done |]. eapply written_pages_cons; [done | apply written_pages_refl].
Qed.

(** ** The double-write buffer *)
Definition dwb_fits (n : Z) (w : DoubleWriteBuffer) : Prop :=
  n <= capacity w /\ ENTRIES_OFFSET + capacity w * ENTRY_SIZE + 4 <= PAGE_SIZE.

Lemma on_dwb_calm {A} (c : M Device Storage.Error A) w :
  calm c -> match on_dwb c w with (Ok _, w') | (Err _, w') => capacity w' = capacity w | (Panic, _) => False end.
Proof. intros Hc. unfold on_dwb. specialize (Hc (dwb_device w)). by destruct (c (dwb_device w)) as [[] ?]. Qed.

Lemma write_slots_calm snap : forall i w,
  match write_slots i snap w with
  | (Ok es, w') => capacity w' = capacity w /\ length es = length snap
  | (Err _, w') => capacity w' = capacity w
  | (Panic, _) => False
  end.
Proof.
  induction snap as [| pg snap IH]; intros i w; [done |]. cbn [write_slots]. unfold mbind, M_bind.
  pose proof (on_dwb_calm (write_at (offset_of_slot i) (stamp_checksum (data pg))) w (calm_write _ _)) as H1.
  destruct (on_dwb _ w) as [[u | e |] w1]; [| done | done]. specialize (IH (i + 1) w1).
  destruct (write_slots (i + 1) snap w1) as [[es | e |] w2]; [| by rewrite IH | done].
  cbn. destruct IH as [-> ->]. done.
Qed.

Lemma header_calm entries w :
  dwb_fits (len entries) w ->
  match (header ← lift (encode_header entries); _ ← on_dwb (write_at 0 header); on_dwb sync_all) w with
  | (Ok _, w') | (Err _, w') => capacity w' = capacity w
  | (Panic, _) => False
  end.
Proof.
  intros [H1 H2]. destruct (encode_header_ok entries) as (h & Hh & _); [unfold ENTRY_SIZE in *; lia |].
  unfold mbind, M_bind, lift. rewrite Hh.
  pose proof (on_dwb_calm (write_at 0 h) w (calm_write _ _)) as G1.
  destruct (on_dwb _ w) as [[u | e |] w1]; [| done | done].
  pose proof (on_dwb_calm sync_all w1 calm_sync) as G2. destruct (on_dwb _ w1) as [[u' | e |] w2]; by rewrite ?G2.
Qed.

Lemma write_batch_calm snap w :
  dwb_fits (len snap) w ->
  match write_batch snap w with (Ok _, w') | (Err _, w') => capacity w' = capacity w | (Panic, _) => False end.
Proof.
  intros Hf. unfold write_batch. unfold mbind at 1, M_bind at 1. pose proof (write_slots_calm snap 0 w) as H1.
  destruct (write_slots 0 snap w) as [[es | e |] w1]; [| done | done]. destruct H1 as [Hc Hl].
  pose proof (header_calm es w1) as H2. unfold dwb_fits in *. rewrite Hc in H2. unfold len in *. rewrite Hl in H2. by apply H2.
Qed.

Lemma clear_batch_calm w :
  dwb_fits 0 w -> match clear_batch w with (Ok _, w') | (Err _, w') => capacity w' = capacity w | (Panic, _) => False end.
Proof. intros Hf. by apply (header_calm [] w). Qed.

(** ** Frames of a batch *)
Lemma snapshot_run (s : Pool) l xs :
  Forall2 (fun '(f, _) x => index (frames s) f = Some x /\ latch x = Unlatched) l xs ->
  snapshot l s = (Ok (page <$> xs), s).
Proof.
  induction 1 as [| [f p] x l xs [Hx Hl] _ IH]; [done |]. cbn [snapshot]. unfold mbind, M_bind, read_lock, frame_at.
  unfold mbind, M_bind. rewrite Hx. cbn. rewrite Hl. cbn. by rewrite IH.
Qed.

Definition clean (x : Frame) : Frame := mkFrame (page x) (latch x) (pin_count x) 0.

Lemma mark_clean_run l : forall (s : Pool) xs,
  Forall2 (fun f x => index (frames s) f = Some x /\ latch x = Unlatched) l xs -> NoDup l ->
  exists fs, mark_clean (zip l (page <$> xs)) s = (Ok tt, with_frames fs s) /\ len fs = len (frames s)
    /\ forall f, index fs f = if decide (f ∈ l) then clean <$> index (frames s) f else index (frames s) f.
Proof.
  induction l as [| f l IH]; intros s xs Hl Hnd.
  { apply Forall2_nil_inv_l in Hl as ->. exists (frames s). by destruct s. }
  apply Forall2_cons_inv_l in Hl as (x & xs' & [Hx Hlat] & Hrest & ->). apply NoDup_cons in Hnd as [Hni Hnd].
  cbn [zip fmap list_fmap zip_with mark_clean]. unfold mbind, M_bind, write_lock, frame_at. unfold mbind, M_bind.
  rewrite Hx. cbn. rewrite Hlat. cbn. rewrite Z.eqb_refl. cbn. pose proof (index_range _ _ _ Hx) as Hr.
  set (s1 := with_frames _ s). destruct (IH s1 xs') as (fs & Hrun & Hlen & Hfs); [| done |].
  - apply Forall2_same_length_lookup_2; [by eapply Forall2_length |]. intros i g y Hg Hy.
    destruct (Forall2_lookup_lr _ _ _ i _ _ Hrest Hg Hy) as [Hyg Hly]. split; [| done]. cbn.
    rewrite index_insert by done. rewrite decide_False; [done |]. intros ->. apply Hni. by eapply list_elem_of_lookup_2.
  - exists fs. rewrite Hrun. cbn [frames with_frames s1] in Hlen, Hfs. rewrite len_insert in Hlen.
    split_and!; [done | done |]. intros g. rewrite Hfs, index_insert by done.
    destruct (decide (g = f)) as [-> | Hne].
    + rewrite decide_False by done. rewrite decide_True by set_solver. by rewrite Hx.
    + case_decide; case_decide; set_solver.
Qed.

(** A frame that differs in its dirty mark only. *)
Definition same_but_dirty (x y : Frame) : Prop :=
  page y = page x /\ latch y = latch x /\ pin_count y = pin_count x.

(** The frames and the disk after a write-back. *)
Lemma core_written H taken vic fs fs' (ix : PoolIndex R) d d' :
  core H taken vic fs ix d -> len fs' = len fs ->
  len (content (device d)) <= len (content (device d')) ->
  (forall f x, index fs f = Some x -> exists y, index fs' f = Some y /\ same_but_dirty x y) ->
  (forall p f y, page_table ix !! p = Some f -> index fs' f = Some y -> dirty_since_lsn y = 0 ->
     disk_page d' p = Some (clear_checksum (data (page y)))) ->
  core H taken vic fs' ix d'.
Proof.
  intros [Hl Ht Hpg Hun Hfr Hev Htr Hhd How Hvc Hec] Hlen Hc Hsame Hclean. split; try done.
  - by rewrite Hlen.
  - intros p f Hp. destruct (Hpg _ _ Hp) as (x & Hx & [? ? ? ? ? ?]). destruct (Hsame _ _ Hx) as (y & Hy & Ep & El & En).
    exists y. split; [done |]. split; rewrite ?Ep, ?El, ?En; [done | done | lia | done | done |]. intros Hd. rewrite <- Ep. by eapply Hclean.
  - intros f Hf. destruct (Hun _ Hf) as (Hh & x & Hx & Hlx & Hpx). destruct (Hsame _ _ Hx) as (y & Hy & Ep & El & En).
    split; [done |]. exists y. by rewrite El, En.
Qed.

Lemma disk_page_written d d' ids p : written_pages d ids d' -> p ∉ ids -> disk_page d' p = disk_page d p.
Proof. intros (_ & H & _) Hp. unfold disk_page. by rewrite H. Qed.
Lemma disk_page_stamped d p b : len b = PAGE_SIZE -> page_at (content (device d)) p = Some (stamp_checksum b) ->
  disk_page d p = Some (clear_checksum b).
Proof. intros Hl Hp. unfold disk_page. rewrite Hp. cbn [mbind option_bind]. by rewrite checksum_ok_stamp, clear_stamp_checksum. Qed.

(** The batch: mapped, unpinned and dirty frames with their pages. *)
Definition batch (H : gmap FrameId (PageId * option GuardMode)) (s : Pool) (l : list (FrameId * PageId)) (xs : list Frame) : Prop :=
  NoDup l.*1 /\ Forall2 (fun '(f, p) x => page_table (pool_index s) !! p = Some f /\ index (frames s) f = Some x
    /\ H !! f = None /\ dirty_since_lsn x <> 0) l xs.

(** The write-ahead rule: a page on the device changes only once the log is durable past its LSN. *)
Definition write_ahead (s s' : Pool) : Prop :=
  durable_lsn (log_manager s) <= durable_lsn (log_manager s')
  /\ forall p b, page_at (content (device (disk_manager s))) p = Some b ->
     page_at (content (device (disk_manager s'))) p = Some b
     \/ exists b', pool_pages s !! p = Some b' /\ page_lsn b' < durable_lsn (log_manager s').

Lemma write_ahead_same (s s' : Pool) :
  content (device (disk_manager s')) = content (device (disk_manager s)) ->
  durable_lsn (log_manager s) <= durable_lsn (log_manager s') -> write_ahead s s'.
Proof. intros Hd Hl. split; [exact Hl |]. intros p b Hb. left. rewrite Hd. exact Hb. Qed.

Lemma write_ahead_trans (s1 s2 s3 : Pool) :
  (forall p b, page_at (content (device (disk_manager s1))) p = Some b -> pool_pages s2 !! p = pool_pages s1 !! p) ->
  write_ahead s1 s2 -> write_ahead s2 s3 -> write_ahead s1 s3.
Proof.
  intros Hp [Hd1 H1] [Hd2 H2]. split; [lia |]. intros p b Hb. destruct (H1 p b Hb) as [Hb2 | (b' & Hb' & Hl)].
  - rewrite <- (Hp p b Hb). exact (H2 p b Hb2).
  - right. exists b'. split; [exact Hb' | lia].
Qed.

Lemma max_lsn_bound (pgs : list Page) b : 0 < b -> (forall pg, pg ∈ pgs -> page_lsn_of pg < b) -> max_lsn pgs < b.
Proof.
  intros Hb. unfold max_lsn. induction pgs as [| pg pgs IH]; intros Hp; cbn; [done |].
  apply Z.max_lub_lt; [apply Hp; set_solver | apply IH; set_solver].
Qed.
Lemma max_lsn_ge (pgs : list Page) pg : pg ∈ pgs -> page_lsn_of pg <= max_lsn pgs.
Proof.
  unfold max_lsn. induction pgs as [| q pgs IH]; [set_solver |]. cbn. rewrite elem_of_cons. intros [-> | Hpg]; [lia |].
  specialize (IH Hpg). lia.
Qed.

Section one_batch.
Context (H : gmap FrameId (PageId * option GuardMode)) (taken vic : list FrameId) (n : nat) (s : Pool).
Context (l : list (FrameId * PageId)) (xs : list Frame).
Hypothesis (Hinv : pool_inv H taken vic n s) (Hbatch : batch H s l xs).

Let Hcore : core H taken vic (frames s) (pool_index s) (disk_manager s) := pi_core _ _ _ _ _ Hinv.

(** Each frame of the batch, with the page it holds. *)
Lemma batch_frame i f p x : l !! i = Some (f, p) -> xs !! i = Some x ->
  page_table (pool_index s) !! p = Some f /\ index (frames s) f = Some x /\ dirty_since_lsn x <> 0
  /\ latch x = Unlatched /\ id (page x) = p /\ writable (disk_manager s) (page x).
Proof.
  intros Hl Hx. destruct Hbatch as [_ Hf2]. destruct (Forall2_lookup_lr _ _ _ i _ _ Hf2 Hl Hx) as (Hp & Hf & Hh & Hd).
  destruct (c_page _ _ _ _ _ _ Hcore _ _ Hp) as (y & Hy & [Hid Hlen Hdk _ Hlat _]). assert (y = x) as -> by congruence.
  rewrite Hh in Hlat. split_and!; try done. unfold writable. rewrite Hid. split_and!; try done; apply Hdk.
Qed.

Lemma batch_length : length l = length xs.
Proof. destruct Hbatch as [_ Hf2]. by eapply Forall2_length. Qed.

Lemma batch_at i x : xs !! i = Some x -> exists f p, l !! i = Some (f, p).
Proof.
  intros Hx. destruct (lookup_lt_is_Some_2 l i) as [[f p] Hl]; [| by exists f, p].
  rewrite batch_length. by eapply lookup_lt_Some.
Qed.

Lemma batch_ids : id <$> (page <$> xs) = l.*2.
Proof.
  apply list_eq. intros i. rewrite !list_lookup_fmap. destruct (l !! i) as [[f p] |] eqn:Hl.
  - destruct (lookup_lt_is_Some_2 xs i) as [x Hx]; [rewrite <- batch_length; by eapply lookup_lt_Some |].
    rewrite Hx. cbn. f_equal. by eapply batch_frame.
  - apply lookup_ge_None in Hl. rewrite lookup_ge_None_2; [done |]. by rewrite <- batch_length.
Qed.

Lemma batch_mapped p : p ∈ l.*2 -> exists i f x, l !! i = Some (f, p) /\ xs !! i = Some x.
Proof.
  intros ([f q] & -> & [i Hi]%list_elem_of_lookup)%list_elem_of_fmap. cbn.
  destruct (lookup_lt_is_Some_2 xs i) as [x Hx]; [rewrite <- batch_length; by eapply lookup_lt_Some |]. by exists i, f, x.
Qed.

Lemma batch_nodup : NoDup (id <$> (page <$> xs)).
Proof.
  rewrite batch_ids. apply NoDup_alt. intros i j p Hi Hj. rewrite list_lookup_fmap in Hi, Hj.
  destruct (l !! i) as [[f q] |] eqn:Ei; [| done]. destruct (l !! j) as [[g r] |] eqn:Ej; [| done].
  cbn in Hi, Hj. injection Hi as ->. injection Hj as ->.
  destruct (lookup_lt_is_Some_2 xs i) as [x Hx]; [rewrite <- batch_length; by eapply lookup_lt_Some |].
  destruct (lookup_lt_is_Some_2 xs j) as [y Hy]; [rewrite <- batch_length; by eapply lookup_lt_Some |].
  destruct (batch_frame _ _ _ _ Ei Hx) as (Hp1 & _). destruct (batch_frame _ _ _ _ Ej Hy) as (Hp2 & _).
  assert (f = g) as -> by congruence. destruct Hbatch as [Hnd _].
  eapply (NoDup_lookup l.*1); [done | |]; rewrite list_lookup_fmap; [by rewrite Ei | by rewrite Ej].
Qed.

Lemma batch_writable : Forall (writable (disk_manager s)) (page <$> xs).
Proof.
  apply Forall_fmap, Forall_lookup. intros i x Hx. destruct (batch_at _ _ Hx) as (f & p & Hl). by eapply batch_frame.
Qed.

Lemma batch_unlatched : Forall2 (fun '(f, _) x => index (frames s) f = Some x /\ latch x = Unlatched) l xs.
Proof.
  apply Forall2_same_length_lookup_2; [apply batch_length |]. intros i [f p] x Hl Hx.
  by destruct (batch_frame _ _ _ _ Hl Hx) as (_ & ? & _ & ? & _).
Qed.

(** The pages after a write-back that reached the disk in part or in full. *)
Lemma batch_failed d' : written_pages (disk_manager s) (id <$> (page <$> xs)) d' ->
  core H taken vic (frames s) (pool_index s) d'.
Proof.
  intros Hw. eapply core_written; [exact Hcore | done | destruct Hw as [-> _]; lia | |].
  - intros f x Hx. by exists x.
  - intros p f y Hp Hy Hd. rewrite (disk_page_written _ _ _ _ Hw).
    + destruct (c_page _ _ _ _ _ _ Hcore _ _ Hp) as (z & Hz & [_ _ _ _ _ Hcl]). assert (z = y) as -> by congruence. by apply Hcl.
    + rewrite batch_ids. intros (i & f' & x & Hl & Hx)%batch_mapped.
      destruct (batch_frame _ _ _ _ Hl Hx) as (Hp' & Hx' & Hdx & _). congruence.
Qed.

Lemma batch_flushed d' fs : written_pages (disk_manager s) (id <$> (page <$> xs)) d' ->
  Forall (fun pg => page_at (content (device d')) (id pg) = Some (stamp_checksum (data pg))) (page <$> xs) ->
  len fs = len (frames s) ->
  (forall f, index fs f = if decide (f ∈ l.*1) then clean <$> index (frames s) f else index (frames s) f) ->
  core H taken vic fs (pool_index s) d'.
Proof.
  intros Hw Hst Hlen Hfs. eapply core_written; [exact Hcore | done | destruct Hw as [-> _]; lia | |].
  - intros f x Hx. rewrite Hfs, Hx. case_decide; by eexists.
  - intros p f y Hp Hy Hd. rewrite Hfs in Hy.
    destruct (c_page _ _ _ _ _ _ Hcore _ _ Hp) as (z & Hz & [Hid Hlz _ _ _ Hcl]). rewrite Hz in Hy.
    destruct (decide (f ∈ l.*1)) as [Hin | Hout]; cbn in Hy; injection Hy as <-.
    + apply disk_page_stamped; [done |]. apply list_elem_of_fmap in Hin as ([f' q] & -> & Hin). cbn in *.
      apply list_elem_of_lookup in Hin as [i Hi].
      destruct (lookup_lt_is_Some_2 xs i) as [x Hx]; [rewrite <- batch_length; by eapply lookup_lt_Some |].
      destruct (batch_frame _ _ _ _ Hi Hx) as (Hq & Hx' & _ & _ & Hidx & _). assert (x = z) as -> by congruence.
      rewrite Forall_fmap, Forall_lookup in Hst. cbn [clean page]. rewrite <- Hid. exact (Hst i z Hx).
    + rewrite (disk_page_written _ _ _ _ Hw); [by apply Hcl |]. rewrite batch_ids.
      intros (i & f' & x & Hl & Hx)%batch_mapped. destruct (batch_frame _ _ _ _ Hl Hx) as (Hp' & _).
      apply Hout. assert (f' = f) as -> by congruence. apply list_elem_of_fmap. exists (f, p). split; [done |].
      by eapply list_elem_of_lookup_2.
Qed.

(** ** The whole write-back *)

(** The pages are where they were: cached ones in their frames, the others on disk outside the batch. *)
Lemma batch_pages (s' : Pool) :
  pool_index s' = pool_index s -> written_pages (disk_manager s) (id <$> (page <$> xs)) (disk_manager s') ->
  (forall f, (fun x => data (page x)) <$> index (frames s') f = (fun x => data (page x)) <$> index (frames s) f) ->
  pool_pages s' = pool_pages s.
Proof.
  intros Hix Hw Hfs. apply map_eq. intros p. rewrite !pool_pages_lookup, Hix.
  destruct (page_table (pool_index s) !! p) as [f |] eqn:Hp; cbn.
  - destruct (c_page _ _ _ _ _ _ Hcore _ _ Hp) as (x & Hx & _). specialize (Hfs f). rewrite Hx in Hfs |- *. cbn in Hfs.
    destruct (index (frames s') f); cbn in Hfs; congruence.
  - rewrite (disk_page_written _ _ _ _ Hw); [done |]. rewrite batch_ids. intros (i & f & x & Hl & Hx)%batch_mapped.
    destruct (batch_frame _ _ _ _ Hl Hx) as (Hp' & _). congruence.
Qed.

(** What the write-back leaves, whether it succeeds or not. *)
Definition flush_post (s' : Pool) : Prop :=
  pool_inv H taken vic n s' /\ pool_pages s' = pool_pages s /\ pool_index s' = pool_index s
  /\ next_lsn (log_manager s') = next_lsn (log_manager s)
  /\ disk_next_page_id (disk_manager s') = disk_next_page_id (disk_manager s)
  /\ len (content (device (disk_manager s'))) = len (content (device (disk_manager s)))
  /\ write_ahead s s' /\ capacity (dwb s') = capacity (dwb s).

(** Nothing was written yet, or the log is durable past the whole batch. *)
Definition log_first (s' : Pool) : Prop :=
  durable_lsn (log_manager s) <= durable_lsn (log_manager s')
  /\ (disk_manager s' = disk_manager s \/ max_lsn (page <$> xs) < durable_lsn (log_manager s')).

Lemma log_first_write_ahead (s' : Pool) :
  written_pages (disk_manager s) (id <$> (page <$> xs)) (disk_manager s') -> log_first s' -> write_ahead s s'.
Proof.
  intros (_ & Hw & _) [Hd [E | Hm]]; [apply write_ahead_same; [by rewrite E | exact Hd] |].
  split; [exact Hd |]. intros p b Hb. destruct (decide (p ∈ id <$> (page <$> xs))) as [Hp | Hp].
  - right. rewrite batch_ids in Hp. apply batch_mapped in Hp as (i & f & x & Hl & Hx).
    destruct (batch_frame _ _ _ _ Hl Hx) as (Hpt & Hf & _). exists (clear_checksum (data (page x))). split.
    + rewrite pool_pages_lookup, Hpt. cbn. by rewrite Hf.
    + rewrite page_lsn_clear.
      assert (Hge : page_lsn_of (page x) <= max_lsn (page <$> xs)).
      { apply max_lsn_ge, list_elem_of_fmap_2. by eapply list_elem_of_lookup_2. }
      unfold page_lsn_of in Hge. lia.
  - left. by rewrite Hw.
Qed.

Lemma flush_post_intro (s' : Pool) :
  log_first s' -> pool_index s' = pool_index s -> written_pages (disk_manager s) (id <$> (page <$> xs)) (disk_manager s') ->
  (forall f, (fun x => data (page x)) <$> index (frames s') f = (fun x => data (page x)) <$> index (frames s) f) ->
  core H taken vic (frames s') (pool_index s) (disk_manager s') ->
  log_room n (log_manager s') -> next_lsn (log_manager s') = next_lsn (log_manager s) ->
  capacity (dwb s') = capacity (dwb s) -> Forall obs_ok (write_observations s') ->
  flush_post s'.
Proof.
  intros Hlf Hix Hw Hfs Hc Hl Hn Hcap Ho. pose proof (batch_pages s' Hix Hw Hfs) as Hp.
  pose proof (log_first_write_ahead s' Hw Hlf) as Hwal. pose proof Hinv as [_ [Hd1 Hd2] _ Hs Hdwb _]. destruct Hw as (G1 & G2 & G3 & G4 & G5).
  split_and!; [| assumption..]. split; rewrite ?Hix, ?Hp, ?Hn, ?Hcap; try done. rewrite G4. split; [| done].
  eapply written_pages_ok; [| done]. by split_and!.
Qed.

Lemma batch_lsn pg : pg ∈ page <$> xs -> page_lsn_of pg < next_lsn (log_manager s).
Proof.
  intros (x & -> & [i Hx]%list_elem_of_lookup)%list_elem_of_fmap. destruct (batch_at _ _ Hx) as (f & p & Hl).
  destruct (batch_frame _ _ _ _ Hl Hx) as (Hp & Hf & _ & _ & _ & Hlen & _).
  pose proof (pi_lsns _ _ _ _ _ Hinv p (clear_checksum (data (page x)))) as Hlsn.
  rewrite pool_pages_lookup, Hp in Hlsn. cbn in Hlsn. rewrite Hf in Hlsn. specialize (Hlsn eq_refl).
  unfold page_lsn_of. by rewrite page_lsn_clear in Hlsn.
Qed.

Lemma flush_leased_spec :
  len l <= capacity (dwb s) ->
  match flush_leased l s with
  | (Ok _, s') => flush_post s' /\ flush_in_flight s' = flush_in_flight s
      /\ (forall f, f ∈ l.*1 -> exists x, index (frames s') f = Some x /\ dirty_since_lsn x = 0)
      /\ (forall f, f ∉ l.*1 -> index (frames s') f = index (frames s) f)
  | (Err _, s') => flush_post s' /\ flush_in_flight s' = flush_in_flight s
  | (Panic, _) => False
  end.
Proof.
  intros Hcap. pose proof Hinv as [_ _ Hlog _ Hdwb Hobs].
  pose proof (written_pages_refl (disk_manager s) (id <$> (page <$> xs))) as Hw0.
  unfold flush_leased. unfold mbind at 1, M_bind at 1, gets at 1.
  destruct (flush_poisoned s). { split; [| done]. apply flush_post_intro; try done. split; [lia | by left]. }
  unfold mbind at 1, M_bind at 1. rewrite (snapshot_run s l xs batch_unlatched). set (snap := page <$> xs) in *.
  assert (Hmax : max_lsn snap < next_lsn (log_manager s)) by (apply max_lsn_bound; [apply Hlog | apply batch_lsn]).
  unfold mbind at 1, M_bind at 1, on_log. pose proof (log_flush_spec n (max_lsn snap) (log_manager s) Hlog Hmax) as Hlf.
  destruct (Log.flush (max_lsn snap) (log_manager s)) as [[[] | e |] lg]; [| | done].
  2: { destruct Hlf as (Hl1 & Hl2 & Hdur). split; [| done]. apply flush_post_intro; try done. split; [done | by left]. }
  destruct Hlf as (Hl1 & Hl2 & Hmono & Hdur).
  assert (Hfirst : forall s', log_manager s' = lg -> log_first s').
  { intros s' E. unfold log_first. rewrite E. split; [done | by right]. } unfold mbind at 1, M_bind at 1, gets at 1. unfold mbind at 1, M_bind at 1, modify at 1.
  cbn [log_manager with_log]. set (s2 := observe _ (with_log lg s)).
  assert (Hobs2 : Forall obs_ok (write_observations s2)).
  { unfold s2. cbn. apply Forall_app. split; [done |]. apply Forall_fmap, Forall_forall. intros pg Hpg.
    unfold obs_ok. cbn. pose proof (max_lsn_ge snap pg Hpg). lia. }
  assert (Hfit : dwb_fits (len snap) (dwb s2)).
  { split; [| apply Hdwb]. unfold s2. cbn. unfold snap. rewrite len_fmap. unfold len in *. by rewrite <- batch_length. }
  unfold mbind at 1, M_bind at 1, on_double_write at 1. pose proof (write_batch_calm snap (dwb s2) Hfit) as Hwb.
  destruct (write_batch snap (dwb s2)) as [[[] | e |] w3]; [| | done].
  2: { split; [| done]. apply flush_post_intro; try done. by apply Hfirst. }
  set (s3 := with_dwb w3 s2). unfold mbind at 1, M_bind at 1, write_in_place. unfold mbind at 1, M_bind at 1.
  pose proof (write_pages_spec snap s3 (dk_page_size _ (proj1 (pi_disk _ _ _ _ _ Hinv))) batch_writable batch_nodup) as Hwp.
  destruct (write_pages snap s3) as [[[] | e |] s4]; [| | done].
  2: { destruct Hwp as (d' & -> & Hw). split; [| done]. apply flush_post_intro; try done; [by apply Hfirst | by apply batch_failed]. }
  destruct Hwp as (d' & -> & Hw & Hst). set (s4 := with_disk d' s3).
  unfold mbind at 1, M_bind at 1, on_disk at 1. cbn [disk_manager with_disk s4].
  assert (Hsync : match disk_sync d' with (Ok _, d2) | (Err _, d2) => same_disk d' d2 | (Panic, _) => False end).
  { unfold disk_sync, on_device, sync_all. destruct d' as [[c fs] ps nx ex]. cbn. by destruct (next_fault fs) as [[] ?]. }
  destruct (disk_sync d') as [[[] | e |] d2]; [| | done];
    pose proof (written_pages_same _ _ _ _ Hw Hsync) as Hw2.
  2: { split; [| done]. apply flush_post_intro; try done; [by apply Hfirst | by apply batch_failed]. }
  assert (Hst2 : Forall (fun pg => page_at (content (device d2)) (id pg) = Some (stamp_checksum (data pg))) snap)
    by (destruct Hsync as (-> & _); done).
  unfold on_double_write at 1. cbn [dwb with_disk].
  assert (Hfit0 : dwb_fits 0 w3) by (unfold dwb_fits; rewrite Hwb; split; [cbn; lia | apply Hfit]).
  pose proof (clear_batch_calm w3 Hfit0) as Hcb. cbn [dwb with_disk with_dwb s3 s4].
  destruct (clear_batch w3) as [[[] | e |] w5]; [| | done].
  2: { split; [| done]. apply flush_post_intro; try done; [by apply Hfirst | by apply batch_failed |]. cbn. by rewrite Hcb. }
  set (s5 := with_dwb w5 _).
  destruct (mark_clean_run l.*1 s5 xs) as (fs & Hrun & Hlen & Hfs).
  { apply Forall2_fmap_l. eapply Forall2_impl; [exact batch_unlatched |]. by intros [f p] x. }
  { by destruct Hbatch. }
  fold snap in Hrun. rewrite Hrun. cbn [frames with_dwb with_disk observe with_log s5 s4 s3 s2] in Hfs, Hlen.
  split_and!; [| done | | intros f Hf; cbn [frames with_frames]; by rewrite Hfs, decide_False].
  - apply flush_post_intro; try done.
    + by apply Hfirst.
    + intros f. cbn [frames with_frames]. rewrite Hfs. case_decide; [| done]. by destruct (index (frames s) f).
    + by apply (batch_flushed d2).
    + cbn. by rewrite Hcb.
  - intros f Hf. cbn [frames with_frames]. rewrite Hfs, decide_True by done.
    apply list_elem_of_fmap in Hf as ([f' p] & -> & [i Hi]%list_elem_of_lookup). cbn.
    destruct (lookup_lt_is_Some_2 xs i) as [x Hx]; [rewrite <- batch_length; by eapply lookup_lt_Some |].
    destruct (batch_frame _ _ _ _ Hi Hx) as (_ & -> & _). by eexists.
Qed.

End one_batch.

Lemma pool_inv_flight H taken vic n (s : Pool) b : pool_inv H taken vic n s -> pool_inv H taken vic n (with_in_flight b s).
Proof. by intros [Hc Hd Hl Hs Hw Ho]. Qed.

Lemma flush_pages_spec H taken vic n (s : Pool) l xs deadline :
  pool_inv H taken vic n s -> batch H s l xs -> l <> [] -> len l <= capacity (dwb s) -> flush_in_flight s = false ->
  match flush_pages_before l deadline s with
  | (Ok _, s') => flush_post H taken vic n s s' /\ flush_in_flight s' = false
      /\ (forall f, f ∈ l.*1 -> exists x, index (frames s') f = Some x /\ dirty_since_lsn x = 0)
      /\ (forall f, f ∉ l.*1 -> index (frames s') f = index (frames s) f)
  | (Err _, s') => flush_post H taken vic n s s' /\ flush_in_flight s' = false
  | (Panic, _) => False
  end.
Proof.
  intros Hinv Hb Hne Hcap Hfl. unfold flush_pages_before. unfold mbind at 1, M_bind at 1, gets at 1.
  destruct (flush_poisoned s).
  { split; [| done]. split_and!; try done. apply write_ahead_same; [reflexivity | lia]. }
  destruct l as [| e l]; [done |].
  unfold mbind at 1, M_bind at 1, begin_flush. unfold mbind at 1, M_bind at 1, gets at 1. rewrite Hfl.
  unfold modify at 1. unfold finally.
  pose proof (flush_leased_spec H taken vic n (with_in_flight true s) (e :: l) xs (pool_inv_flight _ _ _ _ _ true Hinv) Hb Hcap) as Hf.
  destruct (flush_leased (e :: l) (with_in_flight true s)) as [[[] | err |] s1]; [| | done]; cbn [end_flush modify].
  - destruct Hf as ((H1 & H2 & H3 & H4 & H5 & H6 & H7 & H8) & _ & Hcl & Hout). split_and!; [| done | done | done].
    split_and!; [by apply pool_inv_flight | assumption.. | exact H7 | exact H8].
  - destruct Hf as ((H1 & H2 & H3 & H4 & H5 & H6 & H7 & H8) & _). split; [| done].
    split_and!; [by apply pool_inv_flight | assumption.. | exact H7 | exact H8].
Qed.
End flush.
