(* ===== verification/BufferSpec.v ===== *)
(** * The buffer pool: its operations keep the pages

    Eviction, loading, installing and the guards of Buffer.v, each shown to keep the invariant of
    BufferInv.v and the pages the pool holds; together they make the pool a [PageStore] that obeys
    the laws its clients rely on, whatever the devices below it fail at. *)
From S2P Require Import Prelude Text Value Common Errors WalRecord Replacer Device SegmentStore Log LogInv.
From S2P Require Import Page Disk Dwb Buffer BufferInv BufferFlush.

Section spec.
Context {R : Type} `{!Replacer R, !ReplacerLaws R}.
Abbreviation Pool := (BufferPool R).
Abbreviation held := (gmap FrameId (PageId * option GuardMode)).

(** The parts of the pool that loading a page leaves alone. *)
Definition same_env (s s' : Pool) : Prop :=
  flush_in_flight s' = flush_in_flight s /\ loading (pool_index s') = loading (pool_index s)
  /\ next_lsn (log_manager s') = next_lsn (log_manager s)
  /\ page_table (pool_index s') ⊆ page_table (pool_index s)
  /\ disk_next_page_id (disk_manager s') = disk_next_page_id (disk_manager s)
  /\ len (content (device (disk_manager s'))) = len (content (device (disk_manager s)))
  /\ write_ahead s s'.

Lemma same_env_trans s1 s2 s3 : pool_pages s2 = pool_pages s1 -> same_env s1 s2 -> same_env s2 s3 -> same_env s1 s3.
Proof.
  intros Hp (A1 & A2 & A3 & A4 & A5 & A6 & A7) (B1 & B2 & B3 & B4 & B5 & B6 & B7).
  assert (write_ahead s1 s3) by (apply (write_ahead_trans s1 s2 s3); [by intros; rewrite Hp | done..]).
  unfold same_env. rewrite B1, B2, B3, B5, B6. split_and!; [assumption | assumption | assumption | by etrans | assumption..].
Qed.
Lemma same_env_index (s s' : Pool) ix : same_env s s' -> loading ix = loading (pool_index s') ->
  page_table ix ⊆ page_table (pool_index s') -> same_env s (with_index ix s').
Proof.
  intros (A1 & A2 & A3 & A4 & A5 & A6 & A7) Hl Hp. split_and!; cbn; [assumption | by rewrite Hl | assumption | by etrans |
    assumption..].
Qed.
Lemma same_env_refl s : same_env s s.
Proof. split_and!; [reflexivity.. |]. apply write_ahead_same; [reflexivity | lia]. Qed.

(** A step on the index alone. *)
Lemma pool_inv_index H H' taken taken' vic vic' n (s : Pool) ix :
  pool_inv H taken vic n s -> core H' taken' vic' (frames s) ix (disk_manager s) ->
  page_table ix = page_table (pool_index s) ->
  pool_inv H' taken' vic' n (with_index ix s) /\ pool_pages (with_index ix s) = pool_pages s.
Proof.
  intros Hi Hc Ht. apply (pool_inv_step H H' taken taken' vic vic' n s (frames s) ix Hi Hc).
  by apply pool_pages_same.
Qed.

Lemma owned_update (ix : PoolIndex R) f b g :
  0 <= f < len (owned ix) -> index (owned (with_owned f b ix)) g = if decide (g = f) then Some b else index (owned ix) g.
Proof. intros Hf. cbn. by apply index_insert. Qed.

(** ** Taking a frame *)
Lemma take_free_core H fs (ix : PoolIndex R) d f free :
  core H [] [] fs ix d -> free_list ix = free ++ [f] ->
  core H [f] [] fs (with_owned f true (with_free_list free ix)) d.
Proof.
  intros [Hl Ht Hpg Hun Hfr Hev Htr Hhd How Hvc Hec] Hfree. rewrite Hfree in Hfr. rewrite app_nil_r in Hfr.
  assert (Hf : index (frame_page ix) f = Some None) by (apply Hfr; set_solver).
  assert (Hr : 0 <= f < len (owned ix)) by (apply index_range in Hf; lia).
  split; try done.
  - cbn. by rewrite len_insert.
  - intros g. rewrite owned_update by done. case_decide; [subst; set_solver |].
    cbn. rewrite How. set_solver.
Qed.

Lemma take_victim_core H fs (ix : PoolIndex R) d f p r :
  core H [] [] fs ix d -> page_table ix !! p = Some f -> H !! f = None ->
  tracked r = tracked (replacer ix) ∖ {[f]} -> evictable r = evictable (replacer ix) ∖ {[f]} ->
  core H [] [f] fs (with_owned f true (with_evicting ({[p]} ∪ evicting ix) (with_replacer r ix))) d.
Proof.
  intros [Hl Ht Hpg Hun Hfr Hev Htr Hhd How Hvc Hec] Hp Hf Htk He.
  assert (Hr : 0 <= f < len (owned ix)) by (apply Ht in Hp; apply index_range in Hp; lia).
  split; try done.
  - cbn. by rewrite len_insert.
  - intros g. cbn. rewrite He, elem_of_difference, Hev. set_solver.
  - intros g q Hq Hg. cbn. rewrite Htk. apply elem_of_difference. split; [by eapply Htr |].
    intros ->%elem_of_singleton. rewrite Hf in Hg. by destruct Hg.
  - intros g. rewrite owned_update by done. case_decide; [subst; set_solver |]. cbn. rewrite How. set_solver.
  - split; [apply NoDup_singleton |]. intros g ->%list_elem_of_singleton. split; [done | by exists p].
  - intros q. cbn. rewrite elem_of_union, elem_of_singleton, Hec. split.
    + intros [-> | (g & Hg & _)]; [exists f; set_solver | by apply not_elem_of_nil in Hg].
    + intros (g & ->%list_elem_of_singleton & Hq). left. apply Ht in Hq. apply Ht in Hp. congruence.
Qed.

Lemma choose_victim_spec (s : Pool) :
  let r0 := replacer (pool_index s) in
  match choose_victim s with
  | (Ok (Some f), s') => exists r, s' = with_index (with_replacer r (pool_index s)) s
      /\ f ∈ evictable r0 /\ tracked r = tracked r0 ∖ {[f]} /\ evictable r = evictable r0 ∖ {[f]}
  | (Ok None, s') => s' = s /\ forall f, f ∉ evictable r0
  | _ => False
  end.
Proof.
  cbn zeta. unfold choose_victim. set (r0 := replacer (pool_index s)).
  assert (Hall : match Replacer.evict r0 with
    | (Some f, r) => f ∈ evictable r0 /\ tracked r = tracked r0 ∖ {[f]} /\ evictable r = evictable r0 ∖ {[f]}
    | (None, r) => r = r0 /\ forall f, f ∉ evictable r0 end).
  { pose proof (evict_where_spec (fun _ => true) r0) as He. unfold Replacer.evict.
    destruct (Replacer.evict_where _ r0) as [[f |] r]; [by destruct He as (? & _ & ? & ?) |].
    destruct He as [-> He]. split; [done |]. intros f Hf. by specialize (He f Hf). }
  assert (Hnone : match (let '(v, r) := Replacer.evict r0 in (Ok (E := Storage.Error) v, with_index (with_replacer r (pool_index s)) s)) with
    | (Ok (Some f), s') => exists r, s' = with_index (with_replacer r (pool_index s)) s
        /\ f ∈ evictable r0 /\ tracked r = tracked r0 ∖ {[f]} /\ evictable r = evictable r0 ∖ {[f]}
    | (Ok None, s') => s' = s /\ forall f, f ∉ evictable r0
    | _ => False end).
  { destruct (Replacer.evict r0) as [[f |] r]; [by exists r |]. destruct Hall as [-> ?].
    unfold r0. by rewrite with_replacer_id, with_index_id. }
  destruct (flush_in_flight s); [| exact Hnone].
  pose proof (evict_where_spec (is_clean (frames s)) r0) as He.
  destruct (Replacer.evict_where (is_clean (frames s)) r0) as [[f |] r].
  - destruct He as (? & _ & ? & ?). by exists r.
  - destruct He as [-> _]. exact Hnone.
Qed.

Definition own (f : FrameId) (s : Pool) : Pool := with_index (with_owned f true (pool_index s)) s.

Lemma take_frame_spec H n (s : Pool) :
  pool_inv H [] [] n s ->
  match take_frame s with
  | (Ok (f, None), s') => pool_inv H [f] [] n (own f s') /\ pool_pages (own f s') = pool_pages s /\ same_env s (own f s')
  | (Ok (f, Some p), s') => pool_inv H [] [f] n (own f s') /\ pool_pages (own f s') = pool_pages s
      /\ same_env s (own f s') /\ page_table (pool_index s') !! p = Some f
  | (Err _, s') => s' = s
  | (Panic, _) => False
  end.
Proof.
  intros Hi. pose proof (pi_core _ _ _ _ _ Hi) as Hc. unfold take_frame, pop_free. unfold mbind at 1, M_bind at 1.
  unfold mbind at 1, M_bind at 1, gets at 1. destruct (last (free_list (pool_index s))) as [f |] eqn:Hlast.
  - apply last_Some in Hlast as [free Hfree]. cbn. rewrite Hfree, removelast_last.
    destruct (pool_inv_index H H [] [f] [] [] n s (with_owned f true (with_free_list free (pool_index s))) Hi) as [H1 H2];
      [by apply take_free_core | done |].
    split_and!; [exact H1 | exact H2 |]. apply (same_env_index s s); [apply same_env_refl | done | done].
  - apply last_None in Hlast. cbn. unfold mbind at 1, M_bind at 1. pose proof (choose_victim_spec s) as Hv.
    destruct (choose_victim s) as [[[f |] | |] s1]; [| | done | done].
    + destruct Hv as (r & -> & Hfe & Htk & He). apply (c_evictable _ _ _ _ _ _ Hc) in Hfe as (Hhf & _ & p & Hp).
      cbn. pose proof (proj1 (c_table _ _ _ _ _ _ Hc _ _) Hp) as Hfp. unfold mbind, M_bind, gets, lift. cbn. rewrite Hfp. cbn.
      destruct (pool_inv_index H H [] [] [] [f] n s
        (with_owned f true (with_evicting ({[p]} ∪ evicting (pool_index s)) (with_replacer r (pool_index s)))) Hi) as [H1 H2];
        [by apply (take_victim_core H _ _ _ f p r) | done |].
      split_and!; [exact H1 | exact H2 | | exact Hp]. apply (same_env_index s s); [apply same_env_refl | done | done].
    + destruct Hv as [-> _]. unfold gets, mbind, M_bind. cbn. by destruct (_ && _).
Qed.

(** ** Evicting *)
Definition disown (f : FrameId) (p : PageId) (r : R) (s : Pool) : Pool :=
  with_index (with_replacer r (with_evicting (evicting (pool_index s) ∖ {[p]}) (with_owned f false (pool_index s)))) s.

Lemma abort_run f p (s : Pool) :
  abort_eviction f p s = (Ok tt,
    disown f p (Replacer.set_evictable f true (Replacer.record_access f (replacer (pool_index s)))) s).
Proof. done. Qed.

Lemma abort_inv H n (s : Pool) f p :
  pool_inv H [] [f] n s -> page_table (pool_index s) !! p = Some f ->
  let s' := disown f p (Replacer.set_evictable f true (Replacer.record_access f (replacer (pool_index s)))) s in
  pool_inv H [] [] n s' /\ pool_pages s' = pool_pages s.
Proof.
  intros Hi Hp. pose proof (pi_core _ _ _ _ _ Hi) as Hc. set (r := Replacer.set_evictable _ _ _).
  assert (Hr : tracked r = {[f]} ∪ tracked (replacer (pool_index s)) /\ evictable r = {[f]} ∪ evictable (replacer (pool_index s))).
  { unfold r. destruct (record_access_spec f (replacer (pool_index s))) as [Ht1 He1].
    destruct (set_evictable_spec f true (Replacer.record_access f (replacer (pool_index s)))) as [Ht2 He2].
    rewrite Ht1, He1, decide_True in He2 by set_solver. by rewrite Ht2, Ht1, He2. }
  destruct Hr as [Htk He]. apply (pool_inv_index H H [] [] [f] [] n s); [done | | done].
  destruct Hc as [Hl Ht Hpg Hun Hfr Hev Htr Hhd How Hvc Hec].
  assert (Hown : 0 <= f < len (owned (pool_index s))) by (apply Ht in Hp; apply index_range in Hp; lia).
  assert (Hhf : H !! f = None) by (apply Hvc; set_solver).
  split; try done.
  - cbn. by rewrite len_insert.
  - intros g. cbn. rewrite He, elem_of_union, elem_of_singleton, Hev. destruct (decide (g = f)) as [-> | Hne]; [| set_solver].
    split; [intros _; split_and!; [done | set_solver | by exists p] | by left].
  - intros g q Hq Hg. cbn. rewrite Htk. apply elem_of_union_r. by eapply Htr.
  - intros g. cbn [with_replacer with_evicting owned]. rewrite owned_update by done. case_decide; [subst; set_solver |].
    rewrite How. set_solver.
  - split; [constructor | set_solver].
  - intros q. cbn. rewrite elem_of_difference, elem_of_singleton, Hec. split; [| set_solver].
    intros [(g & ->%list_elem_of_singleton & Hq) Hne]. exfalso. apply Hne. apply Ht in Hq. apply Ht in Hp. congruence.
Qed.

Definition completed (f : FrameId) (p : PageId) (s : Pool) : Pool :=
  let ix := pool_index s in
  with_index (mkIndex (delete p (page_table ix)) (<[Z.to_nat f := None]> (frame_page ix)) (free_list ix) (replacer ix)
                (owned ix) (loading ix) (evicting ix ∖ {[p]})) s.
Lemma complete_run f p (s : Pool) : complete_eviction f p s = (Ok tt, completed f p s).
Proof. done. Qed.

Lemma complete_core H fs (ix : PoolIndex R) d f p :
  core H [] [f] fs ix d -> page_table ix !! p = Some f ->
  core H [f] [] fs (mkIndex (delete p (page_table ix)) (<[Z.to_nat f := None]> (frame_page ix)) (free_list ix) (replacer ix)
                (owned ix) (loading ix) (evicting ix ∖ {[p]})) d.
Proof.
  intros [Hl Ht Hpg Hun Hfr Hev Htr Hhd How Hvc Hec] Hp. pose proof (proj1 (Ht _ _) Hp) as Hfp.
  pose proof (index_range _ _ _ Hfp) as Hr. assert (Hhf : H !! f = None) by (apply Hvc; set_solver).
  assert (Huniq : forall q g, page_table ix !! q = Some g -> g = f <-> q = p).
  { intros q g Hq. split; [intros -> | intros ->]; [| congruence]. apply Ht in Hq. congruence. }
  assert (Hother : forall q g, delete p (page_table ix) !! q = Some g <-> page_table ix !! q = Some g /\ g <> f).
  { intros q g. rewrite lookup_delete_Some. split.
    - intros [Hne Hq]. split; [done |]. intros ->. apply Hne. symmetry. exact (proj1 (Huniq q f Hq) eq_refl).
    - intros [Hq Hne]. split; [| done]. intros <-. exact (Hne (proj2 (Huniq p g Hq) eq_refl)). }
  split; cbn.
  - by rewrite len_insert.
  - intros q g. rewrite Hother, Ht, index_insert by done. case_decide; naive_solver.
  - intros q g [Hq _]%Hother. exact (Hpg q g Hq).
  - intros g. rewrite index_insert by done. case_decide as Hg; [| by apply Hun]. subst g. intros _. split; [done |].
    destruct (Hpg _ _ Hp) as (x & Hx & [_ _ _ Hpins Hlat _]). exists x. rewrite Hhf in Hpins, Hlat. done.
  - rewrite app_nil_r in Hfr. destruct Hfr as [Hnd Hin]. split.
    + apply NoDup_app. split_and!; [done | | apply NoDup_singleton]. intros g Hg ->%list_elem_of_singleton.
      apply Hin in Hg. congruence.
    + intros g. rewrite elem_of_app, list_elem_of_singleton, Hin, index_insert by done. case_decide; [naive_solver |].
      naive_solver.
  - intros g. rewrite Hev. split.
    + intros (? & Hg & q & Hq). split_and!; [done | set_solver |]. exists q. apply Hother. set_solver.
    + intros (? & _ & q & [Hq Hne]%Hother). split_and!; [done | set_solver | by exists q].
  - intros g q [Hq _]%Hother. exact (Htr g q Hq).
  - intros g q m Hg. apply Hother. split; [by eapply Hhd |]. intros ->. congruence.
  - intros g. rewrite How. set_solver.
  - split; [constructor | set_solver].
  - intros q. rewrite elem_of_difference, elem_of_singleton, Hec. split; [| set_solver].
    intros [(g & ->%list_elem_of_singleton & Hq) Hne]. exfalso. apply Hne. exact (proj1 (Huniq q f Hq) eq_refl).
Qed.

Lemma complete_inv H n (s : Pool) f p x :
  pool_inv H [] [f] n s -> page_table (pool_index s) !! p = Some f ->
  index (frames s) f = Some x -> dirty_since_lsn x = 0 ->
  pool_inv H [f] [] n (completed f p s) /\ pool_pages (completed f p s) = pool_pages s.
Proof.
  intros Hi Hp Hx Hd. pose proof (pi_core _ _ _ _ _ Hi) as Hc.
  apply (pool_inv_step H H [] [f] [f] [] n s (frames s) (pool_index (completed f p s)) Hi); [by apply complete_core |].
  intros q. rewrite !pool_pages_lookup. cbn. destruct (decide (q = p)) as [-> | Hne].
  - rewrite lookup_delete_eq, Hp. cbn. rewrite Hx.
    destruct (c_page _ _ _ _ _ _ Hc _ _ Hp) as (y & Hy & [_ _ _ _ _ Hcl]). assert (y = x) as -> by congruence. by apply Hcl.
  - by rewrite lookup_delete_ne.
Qed.

Lemma write_back_spec H n (s : Pool) f p :
  pool_inv H [] [f] n s -> page_table (pool_index s) !! p = Some f -> flush_in_flight s = false ->
  match write_back f p s with
  | (Ok _, s') => pool_inv H [] [f] n s' /\ pool_pages s' = pool_pages s /\ same_env s s'
      /\ page_table (pool_index s') !! p = Some f
      /\ exists x, index (frames s') f = Some x /\ dirty_since_lsn x = 0
  | (Err _, s') => pool_inv H [] [] n s' /\ pool_pages s' = pool_pages s /\ same_env s s'
  | (Panic, _) => False
  end.
Proof.
  intros Hi Hp Hfl. pose proof (pi_core _ _ _ _ _ Hi) as Hc.
  destruct (c_page _ _ _ _ _ _ Hc _ _ Hp) as (x & Hx & _).
  unfold write_back. unfold mbind at 1, M_bind at 1, frame_at at 1. rewrite Hx. cbn [or_panic].
  destruct (Z.eqb_spec (dirty_since_lsn x) 0) as [Hd | Hd].
  { cbn. split_and!; [exact Hi | done | apply same_env_refl | exact Hp |]. by exists x. }
  assert (Hb : batch H s [(f, p)] [x]).
  { split; [apply NoDup_singleton |]. constructor; [| constructor]. split_and!; try done. apply (c_vic _ _ _ _ _ _ Hc). set_solver. }
  pose proof (flush_pages_spec H [] [f] n s [(f, p)] [x] true Hi Hb ltac:(done)) as Hf.
  specialize (Hf (proj1 (pi_dwb _ _ _ _ _ Hi)) Hfl).
  destruct (flush_pages_before [(f, p)] true s) as [[[] | e |] s1]; [| | done].
  - destruct Hf as ((H1 & H2 & H3 & H4 & H6 & H7 & H8 & _) & H5 & Hcl & _). split_and!; [exact H1 | exact H2 | | |].
    + split_and!; [by rewrite Hfl | by rewrite H3 | assumption | by rewrite H3 | assumption..].
    + by rewrite H3.
    + apply Hcl. set_solver.
  - destruct Hf as ((H1 & H2 & H3 & H4 & H6 & H7 & H8 & _) & H5). unfold mbind, M_bind. rewrite abort_run. unfold throw.
    destruct (abort_inv H n s1 f p H1) as [G1 G2]; [by rewrite H3 |]. split_and!; [exact G1 | by rewrite G2 |].
    apply same_env_index; [| done | done].
    split_and!; [by rewrite Hfl | by rewrite H3 | assumption | by rewrite H3 | assumption..].
Qed.

Lemma acquire_spec H n (s : Pool) :
  pool_inv H [] [] n s -> flush_in_flight s = false ->
  match acquire_free_frame s with
  | (Ok f, s') => pool_inv H [f] [] n s' /\ pool_pages s' = pool_pages s /\ same_env s s'
  | (Err _, s') => pool_inv H [] [] n s' /\ pool_pages s' = pool_pages s /\ same_env s s'
  | (Panic, _) => False
  end.
Proof.
  intros Hi Hfl. unfold acquire_free_frame. unfold mbind at 1, M_bind at 1. pose proof (take_frame_spec H n s Hi) as Ht.
  destruct (take_frame s) as [[[f [p |]] | e |] s1]; [| | | done].
  3: { subst s1. split_and!; [exact Hi | done | apply same_env_refl]. }
  - destruct Ht as (H1 & H2 & H3 & H4). cbn [mbind M_bind]. unfold mbind at 1, M_bind at 1, on_index at 1, modify.
    fold (own f s1). unfold mbind at 1, M_bind at 1.
    pose proof (write_back_spec H n (own f s1) f p H1 H4) as Hw. pose proof H3 as (E1 & _). rewrite E1 in Hw.
    specialize (Hw Hfl). destruct (write_back f p (own f s1)) as [[[] | e |] s2]; [| | done].
    + destruct Hw as (W1 & W2 & W3 & W4 & x & Wx & Wd). unfold mbind at 1, M_bind at 1. rewrite complete_run. cbn.
      destruct (complete_inv H n s2 f p x W1 W4 Wx Wd) as [C1 C2]. split_and!; [done | by rewrite C2, W2 |].
      eapply same_env_trans; [exact H2 | exact H3 |]. apply same_env_index; [exact W3 | done | apply delete_subseteq].
    + destruct Hw as (W1 & W2 & W3). split_and!; [done | by rewrite W2 |]. by eapply same_env_trans.
  - destruct Ht as (H1 & H2 & H3). done.
Qed.

(** ** Installing a page *)
Lemma release_run f (s : Pool) :
  release_owned_frame f s = (Ok tt, with_index (with_free_list (free_list (pool_index s) ++ [f]) (with_owned f false (pool_index s))) s).
Proof. done. Qed.

Lemma release_inv H n (s : Pool) f :
  pool_inv H [f] [] n s ->
  let s' := with_index (with_free_list (free_list (pool_index s) ++ [f]) (with_owned f false (pool_index s))) s in
  pool_inv H [] [] n s' /\ pool_pages s' = pool_pages s.
Proof.
  intros Hi. apply (pool_inv_index H H [f] [] [] [] n s); [done | | done].
  destruct (pi_core _ _ _ _ _ Hi) as [Hl Ht Hpg Hun Hfr Hev Htr Hhd How Hvc Hec].
  assert (Hf : index (frame_page (pool_index s)) f = Some None) by (apply Hfr; set_solver).
  assert (Hr : 0 <= f < len (owned (pool_index s))) by (apply index_range in Hf; lia).
  split; try done.
  - cbn. by rewrite len_insert.
  - cbn. by rewrite app_nil_r.
  - intros g. cbn [with_free_list owned]. rewrite owned_update by done. case_decide; [subst; set_solver |].
    rewrite How. set_solver.
Qed.

(** The state after a page went into the taken frame [f] and was pinned. *)
Definition installed (f : FrameId) (p : PageId) (b : bytes) (lsn : option Lsn) (s : Pool) : Pool :=
  let ix := pool_index s in
  let r := Replacer.set_evictable f false (Replacer.record_access f (replacer ix)) in
  with_index (mkIndex (<[p := f]> (page_table ix)) (<[Z.to_nat f := Some p]> (frame_page ix)) (free_list ix) r
                (<[Z.to_nat f := false]> (owned ix)) (loading ix) (evicting ix))
    (with_frames (<[Z.to_nat f := mkFrame (mkPage p b) Unlatched 1 (default 0 lsn)]> (frames s)) s).

Lemma install_run H n (s : Pool) f p b lsn :
  pool_inv H [f] [] n s -> page_table (pool_index s) !! p = None ->
  try_install f p (mkPage p b) lsn s = (Ok f, installed f p b lsn s).
Proof.
  intros Hi Hp. pose proof (pi_core _ _ _ _ _ Hi) as Hc.
  assert (Hf : index (frame_page (pool_index s)) f = Some None) by (apply (c_free _ _ _ _ _ _ Hc); set_solver).
  destruct (c_unused _ _ _ _ _ _ Hc _ Hf) as (_ & x & Hx & Hl & Hpc). pose proof (index_range _ _ _ Hx) as Hr.
  unfold try_install, mbind, M_bind, gets. rewrite Hp. unfold write_lock, frame_at, mbind, M_bind. rewrite Hx.
  cbn [or_panic]. rewrite Hl. unfold mret, M_ret, set_frame, on_index, modify.
  erewrite pin_locked_run by (cbn; rewrite index_insert, decide_True by done; done).
  unfold installed, pinned, with_index, with_frames. cbn. rewrite list_insert_insert_eq, Hpc, Hl. done.
Qed.

Lemma installed_core H fs (ix : PoolIndex R) d f p b lsn :
  core H [f] [] fs ix d -> page_table ix !! p = None -> len b = PAGE_SIZE ->
  0 <= p /\ (p + 1) * PAGE_SIZE <= len (content (device d)) ->
  (default 0 lsn = 0 -> disk_page d p = Some (clear_checksum b)) ->
  let r := Replacer.set_evictable f false (Replacer.record_access f (replacer ix)) in
  core (<[f := (p, None)]> H) [] [] (<[Z.to_nat f := mkFrame (mkPage p b) Unlatched 1 (default 0 lsn)]> fs)
    (mkIndex (<[p := f]> (page_table ix)) (<[Z.to_nat f := Some p]> (frame_page ix)) (free_list ix) r
       (<[Z.to_nat f := false]> (owned ix)) (loading ix) (evicting ix)) d.
Proof.
  intros [Hl Ht Hpg Hun Hfr Hev Htr Hhd How Hvc Hec] Hp Hlen Hdk Hcl r.
  assert (Hr0 : tracked r = {[f]} ∪ tracked (replacer ix) /\ evictable r = evictable (replacer ix) ∖ {[f]}).
  { unfold r. destruct (record_access_spec f (replacer ix)) as [Ht1 He1].
    destruct (set_evictable_spec f false (Replacer.record_access f (replacer ix))) as [Ht2 He2].
    rewrite Ht1, He1, decide_True in He2 by set_solver. by rewrite Ht2, Ht1, He2. }
  destruct Hr0 as [Htk He].
  assert (Hf : index (frame_page ix) f = Some None) by (apply Hfr; set_solver).
  assert (Hr : 0 <= f < len fs) by (apply index_range in Hf; lia).
  assert (Hhf : H !! f = None) by (by apply Hun).
  assert (Hmap : forall q g, <[p := f]> (page_table ix) !! q = Some g <-> (q = p /\ g = f) \/ (g <> f /\ page_table ix !! q = Some g)).
  { intros q g. rewrite lookup_insert_Some. split.
    - intros [[-> ->] | [Hne Hq]]; [by left |]. right. split; [| done]. intros ->. apply Ht in Hq. congruence.
    - intros [[-> ->] | [Hne Hq]]; [by left |]. right. split; [| done]. intros ->. congruence. }
  split; cbn.
  - rewrite !len_insert. lia.
  - intros q g. rewrite Hmap, Ht, index_insert by lia. case_decide; [subst; naive_solver | naive_solver].
  - intros q g Hq. rewrite index_insert by done. apply Hmap in Hq as [[-> ->] | [Hne Hq]].
    + rewrite decide_True by done. eexists. split; [done |]. split; cbn; try done; by rewrite lookup_insert_eq.
    + rewrite decide_False by done. destruct (Hpg _ _ Hq) as (x & Hx & [? ? ? ? ? ?]). exists x. split; [done |].
      split; try done; by rewrite lookup_insert_ne.
  - intros g. rewrite index_insert by lia. case_decide as Hg; [done |]. intros Hgn. rewrite index_insert, decide_False by done.
    rewrite lookup_insert_ne by done. by apply Hun.
  - destruct Hfr as [Hnd Hin]. rewrite app_nil_r. apply NoDup_app in Hnd as (Hnd & Hdisj & _). split; [done |].
    intros g. rewrite index_insert by lia. specialize (Hin g). rewrite elem_of_app, list_elem_of_singleton in Hin.
    case_decide as Hg; [| naive_solver]. subst g. split; [| done]. intros Hgf. exfalso. apply (Hdisj f Hgf). set_solver.
  - intros g. rewrite He, elem_of_difference, elem_of_singleton, Hev. setoid_rewrite Hmap.
    destruct (decide (g = f)) as [-> | Hne].
    + rewrite lookup_insert_eq. naive_solver.
    + rewrite lookup_insert_ne by done. naive_solver.
  - intros g q Hq Hg. rewrite Htk. apply Hmap in Hq as [[-> ->] | [Hne Hq]]; [set_solver |].
    rewrite lookup_insert_ne in Hg by done. apply elem_of_union_r. by eapply Htr.
  - intros g q m Hg. apply Hmap. destruct (decide (g = f)) as [-> | Hne].
    + rewrite lookup_insert_eq in Hg. injection Hg as <- _. by left.
    + rewrite lookup_insert_ne in Hg by done. right. split; [done | by eapply Hhd].
  - intros g. rewrite index_insert by lia. case_decide; [subst; set_solver |]. rewrite How. set_solver.
  - split; [constructor | set_solver].
  - intros q. rewrite Hec. set_solver.
Qed.

Lemma installed_inv H n (s : Pool) f p b lsn :
  pool_inv H [f] [] n s -> page_table (pool_index s) !! p = None -> len b = PAGE_SIZE ->
  0 <= p /\ (p + 1) * PAGE_SIZE <= len (content (device (disk_manager s))) ->
  (default 0 lsn = 0 -> disk_page (disk_manager s) p = Some (clear_checksum b)) ->
  page_lsn b < next_lsn (log_manager s) ->
  pool_inv (<[f := (p, None)]> H) [] [] n (installed f p b lsn s)
  /\ pool_pages (installed f p b lsn s) = <[p := clear_checksum b]> (pool_pages s).
Proof.
  intros Hi Hp Hlen Hdk Hcl Hlsn. pose proof (pi_core _ _ _ _ _ Hi) as Hc.
  assert (Hf : index (frame_page (pool_index s)) f = Some None) by (apply (c_free _ _ _ _ _ _ Hc); set_solver).
  assert (Hr : 0 <= f < len (frames s)) by (apply index_range in Hf; destruct (c_len _ _ _ _ _ _ Hc); lia).
  assert (Hpages : pool_pages (installed f p b lsn s) = <[p := clear_checksum b]> (pool_pages s)).
  { apply map_eq. intros q. rewrite pool_pages_lookup. cbn. destruct (decide (q = p)) as [-> | Hne].
    - rewrite !lookup_insert_eq. cbn. by rewrite index_insert, decide_True by done.
    - rewrite !lookup_insert_ne, pool_pages_lookup by done. destruct (page_table (pool_index s) !! q) as [g |] eqn:Hq; [| done].
      cbn. rewrite index_insert by done. rewrite decide_False; [done |]. intros ->. apply (c_table _ _ _ _ _ _ Hc) in Hq. congruence. }
  split; [| done]. pose proof Hi as [_ Hd Hl Hs Hw Ho]. split; try done.
  - by apply installed_core.
  - intros q bq. rewrite Hpages. intros [[<- <-] | [_ Hq]]%lookup_insert_Some; [by rewrite page_lsn_clear | by apply (Hs q)].
Qed.

(** ** Fetching *)
Lemma pool_inv_loading H taken vic n (s : Pool) l :
  pool_inv H taken vic n s ->
  pool_inv H taken vic n (with_index (with_loading l (pool_index s)) s)
  /\ pool_pages (with_index (with_loading l (pool_index s)) s) = pool_pages s.
Proof.
  intros Hi. apply (pool_inv_index H H taken taken vic vic n s); [done | | done].
  by destruct (pi_core _ _ _ _ _ Hi).
Qed.

Lemma pool_inv_read H taken vic n (s : Pool) d :
  pool_inv H taken vic n s -> same_disk (disk_manager s) d ->
  pool_inv H taken vic n (with_disk d s) /\ pool_pages (with_disk d s) = pool_pages s.
Proof.
  intros [Hc [Hd Hn] Hl Hs Hw Ho] Hsd. pose proof Hsd as (E1 & E2 & E3 & E4).
  assert (Hdp : forall p, disk_page d p = disk_page (disk_manager s) p) by (intros p; unfold disk_page; by rewrite E1).
  assert (Hp : pool_pages (with_disk d s) = pool_pages s).
  { apply map_eq. intros p. rewrite !pool_pages_lookup. cbn. by rewrite Hdp. }
  split; [| done]. split; rewrite ?Hp; try done.
  - cbn. eapply core_written; [exact Hc | done | rewrite E1; lia | by intros f x Hx; exists x |].
    intros p f y Hpf Hy Hcl. rewrite Hdp. destruct (c_page _ _ _ _ _ _ Hc _ _ Hpf) as (z & Hz & [_ _ _ _ _ Hc6]).
    assert (z = y) as -> by congruence. by apply Hc6.
  - cbn. rewrite E3. split; [by eapply same_disk_ok | done].
Qed.

Lemma no_eviction H n (s : Pool) p : pool_inv H [] [] n s -> p ∉ evicting (pool_index s).
Proof. intros Hi (f & Hf & _)%(c_evicting _ _ _ _ _ _ (pi_core _ _ _ _ _ Hi)). by apply not_elem_of_nil in Hf. Qed.

Lemma taken_free H vic n (s : Pool) f : pool_inv H [f] vic n s -> H !! f = None.
Proof.
  intros Hi. pose proof (pi_core _ _ _ _ _ Hi) as Hc. apply (c_unused _ _ _ _ _ _ Hc).
  apply (c_free _ _ _ _ _ _ Hc). set_solver.
Qed.

(** What fetching the frame of page [p] leaves. *)
Definition fetched (H : held) (n : nat) (s : Pool) (p : PageId) (f : FrameId) (s' : Pool) : Prop :=
  H !! f = None /\ pool_inv (<[f := (p, None)]> H) [] [] n s' /\ pool_pages s' = pool_pages s
  /\ flush_in_flight s' = false /\ loading (pool_index s') = ∅ /\ write_ahead s s'.
Definition not_fetched (H : held) (n : nat) (s s' : Pool) : Prop :=
  pool_inv H [] [] n s' /\ pool_pages s' = pool_pages s
  /\ flush_in_flight s' = false /\ loading (pool_index s') = ∅ /\ write_ahead s s'.

Lemma read_into_spec H n (s : Pool) f p :
  pool_inv H [f] [] n s -> page_table (pool_index s) !! p = None ->
  match read_into f p s with
  | (Ok f', s') => f' = f /\ pool_inv (<[f := (p, None)]> H) [] [] n s' /\ pool_pages s' = pool_pages s
      /\ flush_in_flight s' = flush_in_flight s /\ loading (pool_index s') = loading (pool_index s) /\ write_ahead s s'
  | (Err _, s') => pool_inv H [] [] n s' /\ pool_pages s' = pool_pages s
      /\ flush_in_flight s' = flush_in_flight s /\ loading (pool_index s') = loading (pool_index s) /\ write_ahead s s'
  | (Panic, _) => False
  end.
Proof.
  intros Hi Hp. unfold read_into, on_disk.
  pose proof (read_page_spec p (disk_manager s) (dk_page_size _ (proj1 (pi_disk _ _ _ _ _ Hi)))) as Hr.
  destruct (read_page p (disk_manager s)) as [[b | e |] d]; [| | done].
  - destruct Hr as (Hsd & Hb & Hck). destruct (pool_inv_read _ _ _ _ _ _ Hi Hsd) as [H1 H2].
    assert (Hdp : disk_page (disk_manager s) p = Some (clear_checksum b)).
    { unfold disk_page. rewrite Hb. cbn [mbind option_bind]. by rewrite Hck. }
    assert (Hpg : pool_pages s !! p = Some (clear_checksum b)) by (by rewrite pool_pages_lookup, Hp).
    assert (Hdp' : disk_page d p = Some (clear_checksum b)) by (unfold disk_page in *; by rewrite (proj1 Hsd)).
    rewrite (install_run H n (with_disk d s) f p b None H1 Hp).
    destruct (installed_inv H n (with_disk d s) f p b None H1 Hp) as [I1 I2]; try done.
    + by eapply page_at_len.
    + cbn. destruct Hsd as (-> & _). by eapply page_at_range.
    + cbn. pose proof (pi_lsns _ _ _ _ _ Hi p _ Hpg) as Hls. by rewrite page_lsn_clear in Hls.
    + split_and!; [done | exact I1 | by rewrite I2, H2, insert_id | done | done |].
      apply write_ahead_same; [apply Hsd | reflexivity].
  - destruct (pool_inv_read _ _ _ _ _ _ Hi Hr) as [H1 H2]. unfold mbind, M_bind. rewrite release_run. unfold throw.
    destruct (release_inv H n (with_disk d s) f H1) as [R1 R2]. split_and!; [exact R1 | by rewrite R2 | done | done |].
    apply write_ahead_same; [apply Hr | reflexivity].
Qed.

Lemma fetch_frame_spec H n (s : Pool) p :
  pool_inv H [] [] n s -> flush_in_flight s = false -> loading (pool_index s) = ∅ ->
  (forall f, page_table (pool_index s) !! p = Some f -> H !! f = None) ->
  match fetch_frame p s with
  | (Ok f, s') => fetched H n s p f s'
  | (Err _, s') => not_fetched H n s s'
  | (Panic, _) => False
  end.
Proof.
  intros Hi Hfl Hld Hfree. unfold fetch_frame, pin_if_cached. unfold mbind at 1, M_bind at 1.
  unfold mbind at 1, M_bind at 1, gets at 1. rewrite decide_False by (by eapply no_eviction).
  destruct (page_table (pool_index s) !! p) as [f |] eqn:Hp.
  - destruct (c_page _ _ _ _ _ _ (pi_core _ _ _ _ _ Hi) _ _ Hp) as (x & Hx & _).
    unfold mbind at 1, M_bind at 1. rewrite (pin_locked_run f x s Hx). cbn.
    destruct (pinned_inv H [] [] n s p f x Hi Hp Hx) as [P1 P2]; [by apply Hfree | set_solver |].
    split_and!; [by apply Hfree | assumption.. |]. apply write_ahead_same; reflexivity.
  - cbn [mret M_ret]. unfold claim_load. unfold mbind at 1, M_bind at 1.
    unfold mbind at 1, M_bind at 1, gets at 1. unfold mbind at 1, M_bind at 1, gets at 1.
    rewrite decide_False by (by eapply no_eviction). rewrite Hp, Hld. rewrite decide_False by set_solver.
    unfold mbind at 1, M_bind at 1, on_index at 1, modify, mret, M_ret, finally, load_page.
    set (s1 := with_index _ s). destruct (pool_inv_loading H [] [] n s ({[p]} ∪ loading (pool_index s)) Hi) as [L1 L2].
    fold s1 in L1, L2. unfold mbind at 1, M_bind at 1.
    pose proof (acquire_spec H n s1 L1 Hfl) as Ha. destruct (acquire_free_frame s1) as [[f | e |] s2]; [| | done].
    + destruct Ha as (A1 & A2 & (A3 & A4 & A5 & A6 & _ & _ & A7)).
      assert (Hp2 : page_table (pool_index s2) !! p = None).
      { destruct (page_table (pool_index s2) !! p) as [g |] eqn:E; [| done].
        pose proof (lookup_weaken _ _ _ _ E A6) as E'. cbn in E'. congruence. }
      pose proof (read_into_spec H n s2 f p A1 Hp2) as Hr. destruct (read_into f p s2) as [[f' | e |] s3]; [| | done].
      * destruct Hr as (-> & R1 & R2 & R3 & R4 & R5). cbn.
        destruct (pool_inv_loading _ [] [] n s3 (loading (pool_index s3) ∖ {[p]}) R1) as [F1 F2].
        split_and!; [by eapply taken_free | exact F1 | by rewrite F2, R2, A2, L2 | cbn; by rewrite R3, A3 | |].
        { cbn. rewrite R4, A4. cbn. set_solver. }
        apply (write_ahead_trans s s2 s3); [intros; by rewrite A2, L2 | exact A7 | exact R5].
      * destruct Hr as (R1 & R2 & R3 & R4 & R5). cbn.
        destruct (pool_inv_loading _ [] [] n s3 (loading (pool_index s3) ∖ {[p]}) R1) as [F1 F2].
        split_and!; [exact F1 | by rewrite F2, R2, A2, L2 | cbn; by rewrite R3, A3 | |].
        { cbn. rewrite R4, A4. cbn. set_solver. }
        apply (write_ahead_trans s s2 s3); [intros; by rewrite A2, L2 | exact A7 | exact R5].
    + destruct Ha as (A1 & A2 & (A3 & A4 & _ & _ & _ & _ & A7)). cbn.
      destruct (pool_inv_loading _ [] [] n s2 (loading (pool_index s2) ∖ {[p]}) A1) as [F1 F2].
      split_and!; [exact F1 | by rewrite F2, A2, L2 | cbn; by rewrite A3 | | exact A7]. cbn. rewrite A4. cbn. set_solver.
Qed.
End spec.
