(* ===== verification/BufferLaws.v ===== *)
(** * The buffer pool obeys the laws of a page store

    Fetching, writing through guards, allocating and dropping guards, over the steps of BufferSpec.v.
    The pool is an instance of the interface of Page.v that heaps and indexes are proved against. *)
From S2P Require Import Prelude Text Value Common Errors WalRecord Replacer Device SegmentStore Log LogInv.
From S2P Require Import Page Disk Dwb Buffer BufferInv BufferFlush BufferSpec.

(** ** Bytes of a page under a logged write *)
Lemma page_lsn_set lsn b : len b = PAGE_SIZE -> in_u 64 lsn -> page_lsn (set_page_lsn lsn b) = lsn.
Proof.
  intros Hl Hlsn. pose proof (sub_splice_eq b 4 (to_le 8 lsn)) as Hs. rewrite len_to_le, Hl in Hs.
  specialize (Hs ltac:(lia) ltac:(unfold PAGE_SIZE; lia)). apply sub_page in Hs.
  unfold page_lsn, u64_at, set_page_lsn. change (Z.to_nat (Z.of_nat 8)) with 8%nat in Hs. rewrite Hs.
  by apply from_le_to_le_id.
Qed.

Lemma splice_skip {A} (a b new : list A) off :
  len a <= off -> splice (a ++ b) off new = a ++ splice b (off - len a) new.
Proof.
  intros Ho. unfold splice, len in *. rewrite take_app_ge, drop_app_ge by lia. rewrite <- app_assoc. repeat f_equal; lia.
Qed.

Lemma splice_clear_checksum b off new :
  4 <= off -> len b = PAGE_SIZE -> clear_checksum (splice b off new) = splice (clear_checksum b) off new.
Proof.
  intros Ho Hl. unfold clear_checksum. rewrite splice_skip by (unfold len; rewrite length_replicate; lia). f_equal.
  unfold len at 1. rewrite length_replicate. rewrite <- (firstn_skipn 4 b) at 1.
  assert (H4 : len (firstn 4 b) = 4) by (unfold len, PAGE_SIZE in *; rewrite length_take; lia).
  rewrite splice_skip by lia. rewrite H4, drop_app_length'; [done | unfold len in H4; lia].
Qed.

Lemma clear_logged lsn b off new :
  4 <= off -> off + len new <= PAGE_SIZE -> len b = PAGE_SIZE ->
  clear_checksum (set_page_lsn lsn (splice b off new)) = set_page_lsn lsn (splice (clear_checksum b) off new).
Proof.
  intros Ho Hn Hl. unfold set_page_lsn. rewrite splice_clear_checksum, splice_clear_checksum; [done | lia | done | lia |].
  rewrite len_splice; lia.
Qed.

(** The records the pool logs fit the room kept for them. *)
Lemma update_record_len l pv t p off before new :
  len before <= PAGE_SIZE -> len new <= PAGE_SIZE -> record_len (mkLogged l pv t (Update p off before new)) <= MAX_RECORD.
Proof.
  intros. unfold record_len, encode_body, MAX_RECORD. cbn [WalRecord.kind encode_payload].
  unfold put_len_prefixed. autorewrite with len. cbn. unfold PAGE_SIZE in *. lia.
Qed.
Lemma alloc_record_len l pv t p : record_len (mkLogged l pv t (AllocPage p)) <= MAX_RECORD.
Proof. unfold record_len, encode_body, MAX_RECORD. cbn [WalRecord.kind encode_payload]. autorewrite with len. cbn. lia. Qed.

Section laws.
Context {R : Type} `{!Replacer R, !ReplacerLaws R}.
Abbreviation Pool := (BufferPool R).
Abbreviation held := (gmap FrameId (PageId * option GuardMode)).

(** ** The live guards *)
Definition guard_entry (g : PageGuard) : FrameId * (PageId * option GuardMode) :=
  (guard_frame_id g, (guard_page_id g, Some (guard_mode g))).
Definition guard_map (gs : list PageGuard) : held := list_to_map (guard_entry <$> gs).

Record pool_ok (n : nat) (gs : list PageGuard) (s : Pool) : Prop := {
  po_inv : pool_inv (guard_map gs) [] [] n s;
  po_flight : flush_in_flight s = false;
  po_loading : loading (pool_index s) = ∅;
  po_pages : NoDup (guard_page_id <$> gs);
  po_frames : NoDup (guard_frame_id <$> gs);
}.

Lemma guard_entry_keys gs : (guard_entry <$> gs).*1 = guard_frame_id <$> gs.
Proof. rewrite <- list_fmap_compose. done. Qed.

Lemma guard_map_Some gs f v : guard_map gs !! f = Some v ->
  exists g, g ∈ gs /\ guard_frame_id g = f /\ v = (guard_page_id g, Some (guard_mode g)).
Proof.
  intros H%elem_of_list_to_map_2. apply list_elem_of_fmap in H as (g & He & Hg). injection He as -> ->. by exists g.
Qed.
Lemma guard_map_None gs f : guard_map gs !! f = None <-> f ∉ guard_frame_id <$> gs.
Proof. unfold guard_map. by rewrite <- not_elem_of_list_to_map, guard_entry_keys. Qed.
Lemma guard_map_elem n gs s g : pool_ok n gs s -> g ∈ gs ->
  guard_map gs !! guard_frame_id g = Some (guard_page_id g, Some (guard_mode g)).
Proof.
  intros Hok Hg. apply elem_of_list_to_map_1; [rewrite guard_entry_keys; apply (po_frames _ _ _ Hok) |].
  apply list_elem_of_fmap. by exists g.
Qed.

Lemma pool_ok_le n n' gs s : pool_ok n gs s -> (n' <= n)%nat -> pool_ok n' gs s.
Proof. intros [? ? ? ? ?] Hn. split; try done. by eapply pool_inv_le. Qed.

Lemma pool_ok_perm n gs gs' s : gs ≡ₚ gs' -> pool_ok n gs s -> pool_ok n gs' s.
Proof.
  intros Hp [H1 H2 H3 H4 H5].
  assert (guard_map gs' = guard_map gs) as E.
  { symmetry. apply list_to_map_proper; [by rewrite guard_entry_keys | by rewrite Hp]. }
  split; try done; [by rewrite E | by rewrite <- Hp..].
Qed.

(** The frame of a live guard. *)
Lemma guard_frame n gs s g : pool_ok n gs s -> g ∈ gs ->
  page_table (pool_index s) !! guard_page_id g = Some (guard_frame_id g)
  /\ exists x, index (frames s) (guard_frame_id g) = Some x
     /\ page_frame (guard_map gs) (disk_manager s) (guard_page_id g) (guard_frame_id g) x
     /\ pool_pages s !! guard_page_id g = Some (clear_checksum (data (page x))).
Proof.
  intros Hok Hg. pose proof (guard_map_elem _ _ _ _ Hok Hg) as Hm. pose proof (pi_core _ _ _ _ _ (po_inv _ _ _ Hok)) as Hc.
  pose proof (c_held _ _ _ _ _ _ Hc _ _ _ Hm) as Hp. split; [done |].
  destruct (c_page _ _ _ _ _ _ Hc _ _ Hp) as (x & Hx & Hpf). exists x. split_and!; [done | done |].
  rewrite pool_pages_lookup, Hp. cbn. by rewrite Hx.
Qed.

(** A frame that was just pinned becomes a guard. *)
Lemma guarded n0 n gs (s s1 : Pool) m p f :
  pool_ok n0 gs s -> p ∉ guard_page_id <$> gs -> guard_map gs !! f = None ->
  pool_inv (<[f := (p, None)]> (guard_map gs)) [] [] n s1 -> flush_in_flight s1 = false -> loading (pool_index s1) = ∅ ->
  exists s2, match m with ReadGuard => read_guard p f | WriteGuard => write_guard p f end s1 = (Ok (mkGuard m p f), s2)
    /\ pool_ok n (mkGuard m p f :: gs) s2 /\ pool_pages s2 = pool_pages s1
    /\ disk_manager s2 = disk_manager s1 /\ log_manager s2 = log_manager s1.
Proof.
  intros Hok Hp Hf Hi Hfl Hld. pose proof (pi_core _ _ _ _ _ Hi) as Hc.
  pose proof (c_held _ _ _ _ _ _ Hc f p None (lookup_insert_eq _ _ _)) as Hpt.
  destruct (c_page _ _ _ _ _ _ Hc _ _ Hpt) as (x & Hx & [_ _ _ _ Hlat _]). rewrite lookup_insert_eq in Hlat.
  exists (guard_latched m f x s1). split; [by apply latch_run |].
  destruct (latched_inv _ _ _ _ _ p f x m Hi Hpt Hx (lookup_insert_eq _ _ _)) as [H1 H2].
  split; [| done].
  rewrite insert_insert_eq in H1. split; [exact H1 | done | done | |].
  - cbn. constructor; [done | apply (po_pages _ _ _ Hok)].
  - cbn. constructor; [by apply guard_map_None | apply (po_frames _ _ _ Hok)].
Qed.

(** ** Fetching *)
Lemma pool_fetch_step mode n gs (s : Pool) p : pool_ok n gs s -> p ∉ guard_page_id <$> gs ->
  match match mode with ReadGuard => pool_fetch_page_read p s | WriteGuard => pool_fetch_page p s end with
  | (Ok g, s') => guard_page_id g = p /\ guard_mode g = mode /\ pool_ok n (g :: gs) s' /\ pool_pages s' = pool_pages s /\ write_ahead s s'
  | (Err _, s') => pool_ok n gs s' /\ pool_pages s' = pool_pages s /\ write_ahead s s'
  | (Panic, _) => False
  end.
Proof.
  intros Hok Hp. pose proof Hok as [Hi Hfl Hld Hn1 Hn2].
  assert (Hfree : forall f, page_table (pool_index s) !! p = Some f -> guard_map gs !! f = None).
  { intros f Hpf. destruct (guard_map gs !! f) as [[q m] |] eqn:E; [| done]. exfalso. apply Hp.
    pose proof (c_held _ _ _ _ _ _ (pi_core _ _ _ _ _ Hi) _ _ _ E) as Hq.
    assert (q = p) as -> by (by eapply core_unique; [apply (pi_core _ _ _ _ _ Hi) | |]).
    apply guard_map_Some in E as (g & Hg & _ & E). injection E as -> _. apply list_elem_of_fmap. by exists g. }
  pose proof (fetch_frame_spec _ n s p Hi Hfl Hld Hfree) as Hf.
  assert (Hcase : match (f ← fetch_frame p; match mode with ReadGuard => read_guard p f | WriteGuard => write_guard p f end) s with
    | (Ok g, s') => guard_page_id g = p /\ guard_mode g = mode /\ pool_ok n (g :: gs) s' /\ pool_pages s' = pool_pages s /\ write_ahead s s'
    | (Err _, s') => pool_ok n gs s' /\ pool_pages s' = pool_pages s /\ write_ahead s s'
    | (Panic, _) => False end).
  { unfold mbind, M_bind. destruct (fetch_frame p s) as [[f | e |] s1]; [| | done].
    - destruct Hf as (F1 & F2 & F3 & F4 & F5 & F6).
      destruct (guarded n n gs s s1 mode p f Hok Hp F1 F2 F4 F5) as (s2 & -> & G1 & G2 & G3 & G4).
      rewrite G2, F3. split_and!; try done. apply (write_ahead_trans s s1 s2); [by intros; rewrite F3 | done |].
      apply write_ahead_same; rewrite ?G3, ?G4; [done | lia].
    - destruct Hf as (F1 & F2 & F3 & F4 & F5). done. }
  by destruct mode.
Qed.

Lemma pool_fetch_spec mode n gs (s : Pool) p : pool_ok n gs s -> p ∉ guard_page_id <$> gs ->
  match match mode with ReadGuard => pool_fetch_page_read p s | WriteGuard => pool_fetch_page p s end with
  | (Ok g, s') => guard_page_id g = p /\ guard_mode g = mode /\ pool_ok n (g :: gs) s' /\ pool_pages s' = pool_pages s
  | (Err _, s') => pool_ok n gs s' /\ pool_pages s' = pool_pages s
  | (Panic, _) => False
  end.
Proof.
  intros Hok Hp. pose proof (pool_fetch_step mode n gs s p Hok Hp) as H.
  destruct mode; [destruct (pool_fetch_page_read p s) as [[g | e |] s'] | destruct (pool_fetch_page p s) as [[g | e |] s']];
    try done; destruct H as (? & ? & ?); split_and!; naive_solver.
Qed.

(** ** Writing through a guard *)
Definition written_frame (x : Frame) (off : Z) (new : bytes) (l : Lsn) : Frame :=
  mkFrame (mkPage (id (page x)) (set_page_lsn l (splice (data (page x)) off new)))
    (latch x) (pin_count x) (if dirty_since_lsn x =? 0 then l else dirty_since_lsn x).
Definition stamped (f : FrameId) (x : Frame) (off : Z) (new : bytes) (l : Lsn) (s : Pool) : Pool :=
  with_frames (<[Z.to_nat f := written_frame x off new l]> (frames s)) s.
Definition logged_write (f : FrameId) (x : Frame) (off : Z) (new : bytes) (l : Lsn) (log : LogManager) (s : Pool) : Pool :=
  stamped f x off new l (with_log log s).

(** Bytes stamped with an LSN of the log. *)
Lemma stamped_ok n gs (s : Pool) g x off new l :
  pool_ok n gs s -> g ∈ gs -> index (frames s) (guard_frame_id g) = Some x -> 12 <= off -> off + len new <= PAGE_SIZE ->
  0 < l < next_lsn (log_manager s) ->
  let s' := stamped (guard_frame_id g) x off new l s in
  pool_ok n gs s'
  /\ pool_pages s' = <[guard_page_id g := set_page_lsn l (splice (clear_checksum (data (page x))) off new)]> (pool_pages s).
Proof.
  intros Hok Hg Hx Ho Hn Hl0 s'. pose proof Hok as [Hi Hfl Hld Hn1 Hn2].
  destruct (guard_frame _ _ _ _ Hok Hg) as (Hp & x' & Hx' & Hpf & Hpp). assert (x' = x) as -> by congruence.
  pose proof Hi as [Hc [Hd1 Hd2] Hl Hs Hw Hobs]. pose proof (pf_len _ _ _ _ _ Hpf) as Hlen.
  assert (Hl64 : l < 2 ^ 64) by (unfold log_room, MAX_RECORD in Hl; lia).
  assert (Hdata : clear_checksum (data (page (written_frame x off new l))) = set_page_lsn l (splice (clear_checksum (data (page x))) off new))
    by (cbn; apply clear_logged; [lia | done | done]).
  assert (Hpages : pool_pages s' = <[guard_page_id g := set_page_lsn l (splice (clear_checksum (data (page x))) off new)]> (pool_pages s)).
  { apply map_eq. intros q. rewrite pool_pages_lookup. cbn. destruct (decide (q = guard_page_id g)) as [-> | Hne].
    - rewrite lookup_insert_eq, Hp. cbn. rewrite index_insert, decide_True by (done || by eapply index_range). by rewrite <- Hdata.
    - rewrite lookup_insert_ne, pool_pages_lookup by done. destruct (page_table (pool_index s) !! q) as [h |] eqn:Hq; [| done].
      cbn. rewrite index_insert, decide_False; [done | | by eapply index_range].
      intros ->. by apply Hne, (core_unique _ _ _ _ _ _ q _ _ Hc Hq Hp). }
  split; [| done]. split; try done. split; try done.
  - cbn. apply (core_set_bytes _ _ _ _ _ _ (guard_page_id g)); [done | done |].
    destruct Hpf as [Hid _ Hdk Hpin Hlat _]. split; cbn; try done.
    + apply len_set_page_lsn. rewrite len_splice; lia.
    + destruct (Z.eqb_spec (dirty_since_lsn x) 0); lia.
  - intros q b. rewrite Hpages. cbn. intros [[<- <-] | [_ Hq]]%lookup_insert_Some; [| by apply Hs in Hq].
    rewrite page_lsn_set; [lia | | unfold in_u; lia]. rewrite len_splice; [by apply len_clear_checksum | lia |].
    by rewrite len_clear_checksum.
Qed.

Lemma logged_inv H taken vic n n' (s : Pool) log :
  pool_inv H taken vic n s -> log_room n' log -> next_lsn (log_manager s) <= next_lsn log -> (n' <= n)%nat ->
  pool_inv H taken vic n' (with_log log s) /\ pool_pages (with_log log s) = pool_pages s.
Proof.
  intros [Hc [Hd Hn] Hl Hs Hw Ho] Hroom Hle Hnn. split; [| done]. split; try done; [split; [done | cbn; lia] |].
  intros q b Hq. specialize (Hs q b Hq). cbn. lia.
Qed.

(** A record in the log changes no page. *)
Lemma logged_ok n n' gs (s : Pool) log : pool_ok n gs s -> log_room n' log -> next_lsn (log_manager s) <= next_lsn log -> (n' <= n)%nat ->
  pool_ok n' gs (with_log log s).
Proof. intros [Hi Hfl Hld Hn1 Hn2] Hroom Hle Hn. split; try done. by apply (logged_inv _ _ _ n). Qed.

Lemma logged_write_ok n gs (s : Pool) g x off new log :
  pool_ok (S n) gs s -> g ∈ gs -> index (frames s) (guard_frame_id g) = Some x -> 12 <= off -> off + len new <= PAGE_SIZE ->
  log_room n log -> next_lsn (log_manager s) < next_lsn log ->
  let l := next_lsn (log_manager s) in
  let s' := logged_write (guard_frame_id g) x off new l log s in
  pool_ok n gs s'
  /\ pool_pages s' = <[guard_page_id g := set_page_lsn l (splice (clear_checksum (data (page x))) off new)]> (pool_pages s).
Proof.
  intros Hok Hg Hx Ho Hn Hroom Hlt l s'.
  assert (Hl : 0 < l < next_lsn log) by (pose proof (pi_log _ _ _ _ _ (po_inv _ _ _ Hok)) as [? _]; unfold l; lia).
  apply (stamped_ok n gs (with_log log s)); [apply (logged_ok (S n)); [done | done | lia | lia] | done..].
Qed.

Lemma pool_write_run n gs (s : Pool) t g b off new :
  pool_ok (S n) gs s -> g ∈ gs -> pool_pages s !! guard_page_id g = Some b -> 12 <= off -> off + len new <= PAGE_SIZE ->
  exists before log s', sub b off (len new) = Some before /\ record_len (mkLogged (next_lsn (log_manager s)) (last_lsn_by_txn (log_manager s) !! t) t (Update (guard_page_id g) off before new)) <= MAX_RECORD
    /\ Log.append t (Update (guard_page_id g) off before new) (log_manager s) = (Ok (next_lsn (log_manager s)), log)
    /\ pool_guard_write t g off new s = (Ok tt, s') /\ log_manager s' = log /\ length (frames s') = length (frames s) /\ pool_ok n gs s'
    /\ pool_pages s' = <[guard_page_id g := set_page_lsn (next_lsn (log_manager s)) (splice b off new)]> (pool_pages s).
Proof.
  intros Hok Hg Hb Ho Hn. destruct (guard_frame _ _ _ _ Hok Hg) as (Hp & x & Hx & Hpf & Hpp).
  pose proof (pf_len _ _ _ _ _ Hpf) as Hlen. assert (b = clear_checksum (data (page x))) as -> by congruence. pose proof (len_nonneg new).
  rewrite sub_clear_checksum by (lia || done).
  destruct (sub (data (page x)) off (len new)) as [before |] eqn:Hsub; [| apply sub_None in Hsub; lia].
  assert (Hlb : len before = len new) by (apply sub_Some in Hsub as (? & ? & ? & ->); unfold len in *; rewrite length_take, length_drop; lia).
  pose proof (update_record_len (next_lsn (log_manager s)) (last_lsn_by_txn (log_manager s) !! t) t (guard_page_id g) off before new ltac:(lia) ltac:(lia)) as Hrl.
  destruct (log_append_spec n t _ (log_manager s) (pi_log _ _ _ _ _ (po_inv _ _ _ Hok)) Hrl) as (log & Ea & Hroom & Hlt & _).
  exists before, log, (logged_write (guard_frame_id g) x off new (next_lsn (log_manager s)) log s). split; [done |]. split; [exact Hrl |]. split; [exact Ea |]. split.
  - unfold pool_guard_write, mbind, M_bind, frame_at. rewrite Hx. cbn [or_panic]. rewrite Hsub. cbn [or_panic lift]. unfold append_log, on_log.
    replace (wrapu 16 off) with off by (unfold wrapu, PAGE_SIZE in *; rewrite Z.mod_small; lia). rewrite Ea.
    unfold stamp_frame, mbind, M_bind, frame_at. cbn [frames with_log]. by rewrite Hx.
  - split; [done |]. split; [apply length_insert |]. by apply logged_write_ok.
Qed.
Lemma pool_write_spec n gs (s : Pool) t g b off new :
  pool_ok (S n) gs s -> g ∈ gs -> guard_mode g = WriteGuard ->
  pool_pages s !! guard_page_id g = Some b -> 12 <= off -> off + len new <= PAGE_SIZE ->
  match pool_guard_write t g off new s with
  | (Ok _, s') => pool_ok n gs s' /\ exists lsn,
      pool_pages s' = <[guard_page_id g := set_page_lsn lsn (splice b off new)]> (pool_pages s)
  | (Err _, s') => pool_ok n gs s' /\ pool_pages s' = pool_pages s
  | (Panic, _) => False
  end.
Proof.
  intros Hok Hg _ Hb Ho Hn. destruct (pool_write_run n gs s t g b off new Hok Hg Hb Ho Hn) as (before & log & s' & _ & _ & _ & -> & _ & _ & H1 & H2).
  split; [exact H1 | by eexists].
Qed.

(** ** Dropping a guard *)
Lemma pool_drop_spec n gs (s : Pool) g : pool_ok n (g :: gs) s ->
  exists s', pool_drop_guard g s = (Ok tt, s') /\ pool_ok n gs s' /\ pool_pages s' = pool_pages s.
Proof.
  intros Hok. destruct (guard_frame _ _ _ g Hok ltac:(set_solver)) as (Hp & x & Hx & Hpf & Hpp).
  pose proof (guard_map_elem _ _ _ g Hok ltac:(set_solver)) as Hm.
  pose proof Hok as [Hi Hfl Hld Hn1 Hn2]. pose proof (pi_core _ _ _ _ _ Hi) as Hc.
  destruct Hpf as [_ _ _ Hpin Hlat _]. rewrite Hm in Hpin, Hlat.
  assert (Howned : index (owned (pool_index s)) (guard_frame_id g) = Some false).
  { destruct (index_lt (owned (pool_index s)) (guard_frame_id g)) as [o Ho].
    - apply index_range in Hx. destruct (c_len _ _ _ _ _ _ Hc). lia.
    - destruct o; [| done]. apply (c_owned _ _ _ _ _ _ Hc) in Ho. by apply not_elem_of_nil in Ho. }
  exists (dropped (guard_frame_id g) x s). destruct g as [m p f]. cbn in *. split; [by apply drop_run |].
  destruct (dropped_inv _ _ _ _ _ p f x _ Hi Hp Hx Hm) as [H1 H2]. split; [| done].
  apply NoDup_cons in Hn1 as [_ Hn1]. apply NoDup_cons in Hn2 as [Hf Hn2]. split; try done.
  unfold guard_map in H1. cbn in H1. rewrite delete_insert_id in H1; [exact H1 | by apply guard_map_None].
Qed.

(** ** Allocating *)

(** A disk that has grown by zero pages. *)
Definition disk_grown (d d' : DiskManager) : Prop :=
  disk_ok d' /\ disk_next_page_id d' = disk_next_page_id d + 1
  /\ (forall q b, page_at (content (device d)) q = Some b -> page_at (content (device d')) q = Some b)
  /\ (forall q b, page_at (content (device d')) q = Some b -> page_at (content (device d)) q = Some b \/ b = zero_page)
  /\ len (content (device d)) <= len (content (device d')).

Lemma grown_disk_page d d' q b : disk_grown d d' -> disk_page d q = Some b -> disk_page d' q = Some b.
Proof.
  intros (_ & _ & Hk & _) Hq. unfold disk_page in *. destruct (page_at (content (device d)) q) as [c |] eqn:E; [| done].
  by rewrite (Hk _ _ E).
Qed.
Lemma grown_disk_page_inv d d' q b : disk_grown d d' -> disk_page d' q = Some b -> disk_page d q = Some b \/ b = zero_page.
Proof.
  intros (_ & _ & _ & Hz & _) Hq. unfold disk_page in *. destruct (page_at (content (device d')) q) as [c |] eqn:E; [| done].
  cbn in Hq. destruct (Hz _ _ E) as [-> | ->]; [by left | right].
  destruct zero_page_ok as [E1 E2]. rewrite E1, E2 in Hq. congruence.
Qed.

Lemma grown_inv H taken vic n (s : Pool) d :
  pool_inv H taken vic (S n) s -> disk_grown (disk_manager s) d ->
  pool_inv H taken vic n (with_disk d s) /\ pool_pages s ⊆ pool_pages (with_disk d s).
Proof.
  intros [Hc [Hd Hn] (Hl1 & Hl2 & Hl3) Hs Hw Ho] Hg. pose proof Hg as (G1 & G2 & _ & _ & G5).
  assert (Hsub : pool_pages s ⊆ pool_pages (with_disk d s)).
  { apply map_subseteq_spec. intros q b. rewrite !pool_pages_lookup. cbn.
    destruct (page_table (pool_index s) !! q ≫= index (frames s)); [done |]. by apply grown_disk_page. }
  split; [| done]. split; try done.
  - cbn. eapply core_written; [exact Hc | done | done | by intros f x Hx; exists x |].
    intros p f y Hpf Hy Hcl. destruct (c_page _ _ _ _ _ _ Hc _ _ Hpf) as (z & Hz & [_ _ _ _ _ Hc6]).
    assert (z = y) as -> by congruence. eapply grown_disk_page; [exact Hg | by apply Hc6].
  - cbn. split; [exact G1 | lia].
  - unfold log_room, MAX_RECORD in *. cbn. lia.
  - intros q b. rewrite pool_pages_lookup. cbn. specialize (Hs q). rewrite pool_pages_lookup in Hs.
    destruct (page_table (pool_index s) !! q ≫= index (frames s)); [by apply Hs |]. intros Hb.
    destruct (grown_disk_page_inv _ _ _ _ Hg Hb) as [Hb' | ->]; [by apply Hs |]. change (0 < next_lsn (log_manager s)). lia.
Qed.

(** Growing the disk leaves the pages that were on it. *)
Lemma grown_pool_pages (s : Pool) d q b : disk_grown (disk_manager s) d ->
  page_at (content (device (disk_manager s))) q = Some b -> pool_pages (with_disk d s) !! q = pool_pages s !! q.
Proof.
  intros (_ & _ & Hk & _) Hq. rewrite !pool_pages_lookup. cbn.
  destruct (page_table (pool_index s) !! q ≫= index (frames s)); [done |].
  unfold disk_page. by rewrite Hq, (Hk _ _ Hq).
Qed.
Lemma grown_write_ahead (s : Pool) d log : disk_grown (disk_manager s) d ->
  durable_lsn (log_manager s) <= durable_lsn log -> write_ahead s (with_log log (with_disk d s)).
Proof. intros (_ & _ & Hk & _) Hl. split; [exact Hl |]. intros p b Hb. left. exact (Hk _ _ Hb). Qed.

Lemma fresh_page H taken vic n (s : Pool) p : pool_inv H taken vic n s -> page_at (content (device (disk_manager s))) p = None ->
  disk_next_page_id (disk_manager s) <= p -> page_table (pool_index s) !! p = None /\ pool_pages s !! p = None.
Proof.
  intros Hi Hp Hle. assert (Hpt : page_table (pool_index s) !! p = None).
  { destruct (page_table (pool_index s) !! p) as [f |] eqn:E; [| done].
    destruct (c_page _ _ _ _ _ _ (pi_core _ _ _ _ _ Hi) _ _ E) as (x & _ & [_ _ [? Hd] _ _ _]).
    destruct (pi_disk _ _ _ _ _ Hi) as [[_ _ Hl _] _]. unfold PAGE_SIZE in *. lia. }
  split; [done |]. rewrite pool_pages_lookup, Hpt. cbn. unfold disk_page. by rewrite Hp.
Qed.

Lemma allocated n gs (s : Pool) : pool_ok (S n) gs s ->
  match allocate_page (disk_manager s) with
  | (Ok p, d) => disk_grown (disk_manager s) d /\ 0 < p < 2 ^ 32 /\ page_table (pool_index s) !! p = None
      /\ pool_pages s !! p = None /\ (p ∉ guard_page_id <$> gs) /\ (p + 1) * PAGE_SIZE <= len (content (device d))
  | (Err _, d) => disk_grown (disk_manager s) d
  | (Panic, _) => False
  end.
Proof.
  intros Hok. pose proof (po_inv _ _ _ Hok) as Hi. destruct (pi_disk _ _ _ _ _ Hi) as [Hd Hn].
  pose proof (allocate_page_spec (disk_manager s) Hd ltac:(lia)) as Ha.
  destruct (allocate_page (disk_manager s)) as [[p | e |] d]; [| | done].
  - destruct Ha as (-> & A1 & A2 & A3 & A4 & A5 & A6 & A7).
    destruct (fresh_page _ _ _ _ s _ Hi A3 ltac:(lia)) as [F1 F2]. destruct Hd as [_ Hd _ _].
    split; [by split_and! |]. split; [lia |]. split; [exact F1 |]. split; [exact F2 |]. split.
    + intros (g & Hg & Hin)%list_elem_of_fmap. destruct (guard_frame _ _ _ _ Hok Hin) as [Hq _].
      rewrite <- Hg in Hq. congruence.
    + apply page_at_range in A4 as [_ A4]. exact A4.
  - destruct Ha as (A1 & A2 & A5 & A6 & A7). by split_and!.
Qed.

Lemma pool_new_page_step n gs (s : Pool) t : pool_ok (S n) gs s ->
  match pool_new_page t s with
  | (Ok g, s') => guard_mode g = WriteGuard /\ 0 < guard_page_id g < 2 ^ 32
      /\ pool_pages s !! guard_page_id g = None /\ pool_pages s' !! guard_page_id g = Some zero_page
      /\ pool_pages s ⊆ pool_pages s' /\ pool_ok n (g :: gs) s' /\ write_ahead s s'
  | (Err _, s') => pool_ok n gs s' /\ pool_pages s ⊆ pool_pages s' /\ write_ahead s s'
  | (Panic, _) => False
  end.
Proof.
  intros Hok. pose proof Hok as [Hi Hfl Hld Hn1 Hn2]. pose proof (allocated n gs s Hok) as Ha.
  unfold pool_new_page. unfold mbind at 1, M_bind at 1, on_disk.
  destruct (allocate_page (disk_manager s)) as [[p | e |] d]; [| | done].
  2: { destruct (grown_inv _ _ _ n s d Hi Ha) as [H1 H2]. split_and!; [by split | done | by apply (grown_write_ahead s d (log_manager s) Ha)]. }
  destruct Ha as (Hg & Hp & Hpt & Hpp & Hpg & Hlen). destruct (grown_inv _ _ _ n s d Hi Hg) as [H1 H2].
  unfold mbind at 1, M_bind at 1, append_log, on_log. cbn [log_manager with_disk].
  destruct (log_append_spec n t (AllocPage p) (log_manager s) (pi_log _ _ _ _ _ Hi) (alloc_record_len _ _ _ _))
    as (log & -> & Hroom & Hlt & Hdur).
  destruct (logged_inv _ _ _ n n (with_disk d s) log H1 Hroom ltac:(cbn; lia) ltac:(lia)) as [H3 H4].
  set (s1 := with_log log (with_disk d s)) in *.
  assert (W1 : write_ahead s s1) by (apply (grown_write_ahead s d log Hg); lia).
  assert (Hsame : forall q b, page_at (content (device (disk_manager s))) q = Some b -> pool_pages s1 !! q = pool_pages s !! q)
    by (intros q b Hq; rewrite H4; by eapply grown_pool_pages).
  unfold mbind at 1, M_bind at 1. pose proof (acquire_spec _ n s1 H3 Hfl) as Hacq.
  destruct (acquire_free_frame s1) as [[f | e |] s2]; [| | done].
  2: { destruct Hacq as (A1 & A2 & (A3 & A4 & _ & _ & _ & _ & A9)).
    split_and!; [split; try done; [by rewrite A3 | by rewrite A4] | by rewrite A2, H4 |].
    by apply (write_ahead_trans s s1 s2). }
  destruct Hacq as (A1 & A2 & (A3 & A4 & A5 & A6 & A7 & A8 & A9)).
  assert (Hpt2 : page_table (pool_index s2) !! p = None).
  { destruct (page_table (pool_index s2) !! p) as [h |] eqn:E; [| done].
    pose proof (lookup_weaken _ _ _ _ E A6) as E'. cbn in E'. congruence. }
  set (l := next_lsn (log_manager s)) in *. assert (Hl0 : 0 < l) by apply (pi_log _ _ _ _ _ Hi).
  unfold mbind at 1, M_bind at 1. rewrite (install_run _ n s2 f p zero_page (Some l) A1 Hpt2).
  destruct (installed_inv _ n s2 f p zero_page (Some l) A1 Hpt2) as [I1 I2].
  - reflexivity.
  - rewrite A8. cbn. split; [lia | exact Hlen].
  - cbn. lia.
  - change (page_lsn zero_page) with 0. rewrite A5. cbn. lia.
  - destruct (guarded _ n gs s (installed f p zero_page (Some l) s2) WriteGuard p f Hok Hpg) as (s3 & E & G1 & G2 & G3 & G4);
      [by eapply taken_free | exact I1 | cbn; by rewrite A3 | cbn; by rewrite A4 |].
    cbn [fst snd] in E. rewrite E, G2, I2, A2, H4, (proj2 zero_page_ok). cbn.
    split_and!; [done | lia | lia | done | by rewrite lookup_insert_eq | | exact G1 |].
    + by apply insert_subseteq_r.
    + apply (write_ahead_trans s s1 s3); [done | done |].
      apply (write_ahead_trans s1 s2 s3); [by intros; rewrite A2 | done |].
      apply write_ahead_same; rewrite ?G3, ?G4; [done | cbn; lia].
Qed.

Lemma pool_new_page_spec n gs (s : Pool) t : pool_ok (S n) gs s ->
  match pool_new_page t s with
  | (Ok g, s') => guard_mode g = WriteGuard /\ 0 < guard_page_id g < 2 ^ 32
      /\ pool_pages s !! guard_page_id g = None /\ pool_pages s' !! guard_page_id g = Some zero_page
      /\ pool_pages s ⊆ pool_pages s' /\ pool_ok n (g :: gs) s'
  | (Err _, s') => pool_ok n gs s' /\ pool_pages s ⊆ pool_pages s'
  | (Panic, _) => False
  end.
Proof.
  intros Hok. pose proof (pool_new_page_step n gs s t Hok) as H. destruct (pool_new_page t s) as [[g | e |] s']; naive_solver.
Qed.

Lemma pool_guard_page_spec n gs (s : Pool) g : pool_ok n gs s -> g ∈ gs ->
  exists b, pool_guard_page g s = (Ok b, s) /\ pool_pages s !! guard_page_id g = Some (clear_checksum b).
Proof.
  intros Hok Hg. destruct (guard_frame _ _ _ _ Hok Hg) as (_ & x & Hx & _ & Hp). exists (data (page x)).
  unfold pool_guard_page, mbind, M_bind, frame_at. by rewrite Hx.
Qed.

Lemma pool_page_size n gs (s : Pool) p b : pool_ok n gs s -> pool_pages s !! p = Some b -> len b = PAGE_SIZE.
Proof.
  intros Hok. rewrite pool_pages_lookup. pose proof (pi_core _ _ _ _ _ (po_inv _ _ _ Hok)) as Hc.
  destruct (page_table (pool_index s) !! p) as [f |] eqn:E; cbn.
  - destruct (c_page _ _ _ _ _ _ Hc _ _ E) as (x & -> & Hx). cbn. intros [= <-]. by apply len_clear_checksum, (pf_len _ _ _ _ _ Hx).
  - unfold disk_page. destruct (page_at _ p) as [c |] eqn:Ec; [cbn | done]. destruct (checksum_ok c); [| done].
    intros [= <-]. eapply len_clear_checksum, page_at_len, Ec.
Qed.

Lemma pool_page_in_file n gs (s : Pool) p b : pool_ok n gs s -> pool_pages s !! p = Some b ->
  0 <= p /\ (p + 1) * PAGE_SIZE <= len (content (device (disk_manager s))).
Proof.
  intros Hok Hp. rewrite pool_pages_lookup in Hp. pose proof (pi_core _ _ _ _ _ (po_inv _ _ _ Hok)) as Hc.
  destruct (page_table (pool_index s) !! p) as [f |] eqn:E; cbn in Hp.
  - destruct (c_page _ _ _ _ _ _ Hc _ _ E) as (x & _ & Hx). exact (pf_disk _ _ _ _ _ Hx).
  - unfold disk_page in Hp. destruct (page_at _ p) as [c |] eqn:Ec; [| done]. by apply page_at_range in Ec.
Qed.
Lemma pool_page_range n gs (s : Pool) p b : pool_ok n gs s -> pool_pages s !! p = Some b -> 0 <= p < u32_max.
Proof.
  intros Hok Hp. destruct (pi_disk _ _ _ _ _ (po_inv _ _ _ Hok)) as [[_ Hn [_ Hl] _] _].
  pose proof (pool_page_in_file n gs s p b Hok Hp). unfold u32_max, PAGE_SIZE in *. lia.
Qed.

#[export] Instance pool_laws : PageStoreLaws Pool := {|
  pages := pool_pages;
  store_ok := pool_ok;
  store_ok_le := pool_ok_le;
  store_ok_perm := pool_ok_perm;
  page_size := pool_page_size;
  page_id_range := pool_page_range;
  fetch_spec := pool_fetch_spec;
  guard_page_spec := pool_guard_page_spec;
  write_spec := pool_write_spec;
  new_page_spec := pool_new_page_spec;
  drop_spec := pool_drop_spec;
|}.
End laws.
