(* ===== verification/BufferDurable.v ===== *)
(** * The buffer pool: flushing everything, and opening again

    [flush_page] and [flush_all] of Buffer.v over the write-back of BufferFlush.v: when [flush_all]
    succeeds every page the pool holds is on disk, so that a pool opened on that disk holds the same
    pages. *)
From S2P Require Import Prelude Text Value Common Errors WalRecord Replacer Device SegmentStore Log LogInv.
From S2P Require Import Page Disk Dwb Buffer BufferInv BufferFlush BufferSpec BufferLaws.

(** ** Batches *)
Lemma chunks_spec {A} (n : nat) (l : list A) (fuel : nat) :
  (0 < n)%nat -> (length l <= fuel)%nat ->
  concat (chunks fuel n l) = l /\ Forall (fun b => b <> [] /\ (length b <= n)%nat) (chunks fuel n l).
Proof.
  intros Hn. revert l. induction fuel as [| fuel IH]; intros l Hl.
  - destruct l; [done | simpl in Hl; lia].
  - destruct l as [| x l]; [done |]. cbn [chunks].
    assert (Hd : (length (skipn n (x :: l)) <= fuel)%nat) by (rewrite length_skipn; simpl in *; lia).
    destruct (IH _ Hd) as [E F]. split.
    + change (firstn n (x :: l) ++ concat (chunks fuel n (skipn n (x :: l))) = x :: l). by rewrite E, firstn_skipn.
    + constructor; [| exact F]. split; [by destruct n; [lia |] | rewrite length_firstn; lia].
Qed.

Lemma omap_keys {A B} (h : nat * A -> option B) (k : B -> Z) l :
  (forall x b, h x = Some b -> k b = Z.of_nat x.1) -> NoDup l.*1 -> NoDup (k <$> omap h l).
Proof.
  intros Hk. induction l as [| x l IH]; cbn; [constructor |]. intros [Hx Hl]%NoDup_cons. specialize (IH Hl).
  destruct (h x) as [b |] eqn:E; [| exact IH]. cbn. constructor; [| exact IH].
  intros (b' & E1 & (y & Hy & E2)%list_elem_of_omap)%list_elem_of_fmap. apply Hx, list_elem_of_fmap. exists y. split; [| done].
  apply Hk in E, E2. lia.
Qed.

Section durable.
Context {R : Type} `{!Replacer R, !ReplacerLaws R}.
Abbreviation Pool := (BufferPool R).
Implicit Types s : Pool.

(** A mapped dirty frame with its page. *)
Definition dirty_at s (fp : FrameId * PageId) : Prop :=
  page_table (pool_index s) !! fp.2 = Some fp.1
  /\ exists x, index (frames s) fp.1 = Some x /\ dirty_since_lsn x <> 0.

Lemma batch_of H s l : NoDup l.*1 -> Forall (dirty_at s) l -> (forall f, f ∈ l.*1 -> H !! f = None) -> exists xs, batch H s l xs.
Proof.
  intros Hnd Hd Hh. enough (exists xs, Forall2 (fun '(f, p) x => page_table (pool_index s) !! p = Some f
    /\ index (frames s) f = Some x /\ H !! f = None /\ dirty_since_lsn x <> 0) l xs) as [xs Hxs] by (by exists xs).
  clear Hnd. induction Hd as [| [f p] l (Hp & x & Hx & Hdx) Hl IH]; [by exists [] |].
  destruct IH as [xs Hxs]; [set_solver |]. exists (x :: xs). constructor; [| exact Hxs].
  split_and!; [exact Hp | exact Hx | | exact Hdx]. apply Hh. cbn. set_solver.
Qed.

(** *** The dirty frames *)
Lemma dirty_frames_spec n gs s f p l : pool_ok n gs s ->
  (f, p, l) ∈ dirty_frames s <->
  page_table (pool_index s) !! p = Some f /\ exists x, index (frames s) f = Some x /\ dirty_since_lsn x = l /\ l <> 0.
Proof.
  intros Hok. pose proof (pi_core _ _ _ _ _ (po_inv _ _ _ Hok)) as Hc. rewrite (c_table _ _ _ _ _ _ Hc).
  unfold dirty_frames. rewrite list_elem_of_omap. split.
  - intros ([i [o x]] & (j & y & E & Hj)%elem_of_lookup_imap & Ho). injection E as <- <-.
    apply lookup_zip_with_Some in Hj as (o' & x' & E & Ho' & Hx'). injection E as -> ->.
    destruct o' as [q |]; [| done]. cbn in Ho. destruct (Z.eqb_spec (dirty_since_lsn x') 0); [done |].
    injection Ho as <- <- <-. unfold index. rewrite (proj2 (Z.leb_le 0 _)), Nat2Z.id by lia. split; [done |]. by exists x'.
  - intros (Hf & x & Hx & <- & Hl). pose proof (index_range _ _ _ Hf) as Hr. unfold index in Hf, Hx.
    rewrite (proj2 (Z.leb_le 0 f)) in Hf, Hx by lia. exists (Z.to_nat f, (Some p, x)). split.
    + apply elem_of_lookup_imap. eexists _, (Some p, x). split; [done |]. apply lookup_zip_with_Some. by exists (Some p), x.
    + cbn. rewrite (proj2 (Z.eqb_neq _ _) Hl), Z2Nat.id by lia. done.
Qed.

Lemma dirty_frames_nodup s : NoDup ((fun '(f, p, _) => (f, p)) <$> dirty_frames s).*1.
Proof.
  rewrite <- list_fmap_compose. unfold dirty_frames. apply omap_keys.
  - intros [i [[p |] x]] [[f q] l] E; [| done]. cbn in E. destruct (_ =? _); [done |]. injection E as <- <- <-. done.
  - rewrite fmap_imap. apply NoDup_alt. intros i j x Hi Hj. rewrite list_lookup_imap in Hi, Hj.
    apply fmap_Some in Hi as (? & _ & ->). apply fmap_Some in Hj as (? & _ & E). done.
Qed.

(** *** One batch *)
Lemma flush_batch n gs s l :
  pool_ok n gs s -> l <> [] -> len l <= capacity (dwb s) -> NoDup l.*1 -> Forall (dirty_at s) l ->
  (forall f, f ∈ l.*1 -> f ∉ guard_frame_id <$> gs) ->
  match flush_pages l s with
  | (Ok _, s') => pool_ok n gs s' /\ pool_pages s' = pool_pages s /\ pool_index s' = pool_index s /\ write_ahead s s'
      /\ capacity (dwb s') = capacity (dwb s)
      /\ (forall f, f ∈ l.*1 -> exists x, index (frames s') f = Some x /\ dirty_since_lsn x = 0)
      /\ (forall f, f ∉ l.*1 -> index (frames s') f = index (frames s) f)
  | (Err _, s') => pool_ok n gs s' /\ pool_pages s' = pool_pages s /\ write_ahead s s'
  | (Panic, _) => False
  end.
Proof.
  intros [Hi Hfl Hld Hn1 Hn2] Hne Hcap Hnd Hd Hg. destruct (batch_of (guard_map gs) s l Hnd Hd) as [xs Hb].
  { intros f Hf. by apply guard_map_None, Hg. }
  pose proof (flush_pages_spec _ _ _ n s l xs false Hi Hb Hne Hcap Hfl) as H. unfold flush_pages.
  destruct (flush_pages_before l false s) as [[[] | e |] s']; [| | done].
  - destruct H as ((H1 & H2 & H3 & _ & _ & _ & H7 & Hc) & H8 & H9 & H10). split_and!; try done. split; try done. by rewrite H3.
  - destruct H as ((H1 & H2 & H3 & _ & _ & _ & H7 & Hc) & H8). split_and!; try done. split; try done. by rewrite H3.
Qed.

Lemma flush_page_step n gs s p :
  pool_ok n gs s -> p ∉ guard_page_id <$> gs ->
  match flush_page p s with
  | (Ok _, s') | (Err _, s') => pool_ok n gs s' /\ pool_pages s' = pool_pages s /\ write_ahead s s'
  | (Panic, _) => False
  end.
Proof.
  intros Hok Hp. assert (Hsame : pool_ok n gs s /\ pool_pages s = pool_pages s /\ write_ahead s s)
    by (split_and!; [done | done | by apply write_ahead_same]).
  unfold flush_page, mbind, M_bind, gets. destruct (page_table (pool_index s) !! p) as [f |] eqn:Hf; [| exact Hsame].
  destruct (c_page _ _ _ _ _ _ (pi_core _ _ _ _ _ (po_inv _ _ _ Hok)) _ _ Hf) as (x & Hx & _).
  unfold frame_at. rewrite Hx. cbn [or_panic]. destruct (Z.eqb_spec (dirty_since_lsn x) 0) as [E | E]; [exact Hsame |].
  pose proof (flush_batch n gs s [(f, p)] Hok) as H. cbn [fmap list_fmap fst] in H.
  assert (Hpre : f ∉ guard_frame_id <$> gs).
  { intros (g & -> & Hg)%list_elem_of_fmap. apply Hp, list_elem_of_fmap. exists g. split; [| done].
    destruct (guard_frame _ _ _ _ Hok Hg) as [Hg' _]. by eapply core_unique; [apply (pi_core _ _ _ _ _ (po_inv _ _ _ Hok)) | |]. }
  specialize (H ltac:(done)). specialize (H (proj1 (pi_dwb _ _ _ _ _ (po_inv _ _ _ Hok))) (NoDup_singleton f)).
  specialize (H ltac:(constructor; [split; [done | by exists x] | constructor]) ltac:(intros g ->%list_elem_of_singleton; done)).
  destruct (flush_pages [(f, p)] s) as [[[] | e |] s']; [| done | done]. by destruct H as (? & ? & _ & ? & _).
Qed.

(** *** All of them *)
Lemma flush_batches_step n bs : forall s,
  pool_ok n [] s -> Forall (fun b => b <> [] /\ len b <= capacity (dwb s)) bs -> NoDup (concat bs).*1 ->
  Forall (dirty_at s) (concat bs) ->
  match flush_batches bs s with
  | (Ok _, s') => pool_ok n [] s' /\ pool_pages s' = pool_pages s /\ pool_index s' = pool_index s /\ write_ahead s s'
      /\ (forall f, f ∈ (concat bs).*1 -> exists x, index (frames s') f = Some x /\ dirty_since_lsn x = 0)
      /\ (forall f, f ∉ (concat bs).*1 -> index (frames s') f = index (frames s) f)
  | (Err _, s') => pool_ok n [] s' /\ pool_pages s' = pool_pages s /\ write_ahead s s'
  | (Panic, _) => False
  end.
Proof.
  induction bs as [| b bs IH]; intros s Hok Hbs Hnd Hd.
  { cbn. split_and!; try done; [by apply write_ahead_same | set_solver]. }
  apply Forall_cons in Hbs as [[Hne Hcap] Hbs]. cbn [concat] in Hnd, Hd |- *. rewrite fmap_app in Hnd |- *.
  apply NoDup_app in Hnd as (Hnd1 & Hdisj & Hnd2). apply Forall_app in Hd as [Hd1 Hd2].
  cbn [flush_batches]. unfold mbind, M_bind.
  pose proof (flush_batch n [] s b Hok Hne Hcap Hnd1 Hd1 ltac:(intros; apply not_elem_of_nil)) as H.
  destruct (flush_pages b s) as [[[] | e |] s1] eqn:E; [| exact H | done]. destruct H as (H1 & H2 & H3 & H4 & Hcap1 & H5 & H6).
  specialize (IH s1 H1). rewrite Hcap1 in IH. specialize (IH Hbs Hnd2).
  assert (Hd' : Forall (dirty_at s1) (concat bs)).
  { apply Forall_forall. intros [f p] Hfp. rewrite Forall_forall in Hd2. destruct (Hd2 _ Hfp) as (Hp & x & Hx & Hdx).
    split; [by rewrite H3 |]. exists x. cbn in *. rewrite H6; [done |]. intros Hin. apply (Hdisj _ Hin).
    apply list_elem_of_fmap. by exists (f, p). }
  specialize (IH Hd'). destruct (flush_batches bs s1) as [[[] | e |] s2]; [| | done].
  - destruct IH as (I1 & I2 & I3 & I4 & I5 & I6). split_and!; [done | by rewrite I2 | by rewrite I3 | | |].
    + apply (write_ahead_trans s s1 s2); [by intros; rewrite H2 | done | done].
    + intros f [Hf | Hf]%elem_of_app; [| by apply I5]. destruct (decide (f ∈ (concat bs).*1)) as [Hf' | Hf']; [by apply I5 |].
      rewrite I6 by done. by apply H5.
    + intros f Hf. rewrite I6, H6; set_solver.
  - destruct IH as (I1 & I2 & I3). split_and!; [done | by rewrite I2 |].
    apply (write_ahead_trans s s1 s2); [by intros; rewrite H2 | done | done].
Qed.

(** Every cached page is clean: the disk has them all. *)
Lemma all_clean n gs s :
  pool_ok n gs s -> (forall p f x, page_table (pool_index s) !! p = Some f -> index (frames s) f = Some x -> dirty_since_lsn x = 0) ->
  disk_pages (disk_manager s) = pool_pages s.
Proof.
  intros Hok Hclean. apply map_eq. intros p. rewrite disk_pages_lookup, pool_pages_lookup.
  destruct (page_table (pool_index s) !! p) as [f |] eqn:Hp; [| done].
  destruct (c_page _ _ _ _ _ _ (pi_core _ _ _ _ _ (po_inv _ _ _ Hok)) _ _ Hp) as (x & Hx & [_ _ _ _ _ Hc]).
  cbn. rewrite Hx. apply Hc. by eapply Hclean.
Qed.

Lemma flush_all_step n s : pool_ok n [] s ->
  match pool_flush_all s with
  | (Ok _, s') => pool_ok n [] s' /\ pool_pages s' = pool_pages s /\ write_ahead s s'
      /\ disk_pages (disk_manager s') = pool_pages s
  | (Err _, s') => pool_ok n [] s' /\ pool_pages s' = pool_pages s /\ write_ahead s s'
  | (Panic, _) => False
  end.
Proof.
  intros Hok. unfold pool_flush_all, mbind, M_bind, gets. set (dirty := _ <$> dirty_frames s).
  pose proof (pi_dwb _ _ _ _ _ (po_inv _ _ _ Hok)) as [Hcap _].
  destruct (chunks_spec (Z.to_nat (capacity (dwb s))) dirty (length dirty)) as [Hcat Hfor]; [lia | done |].
  assert (Hd : forall f p, (f, p) ∈ dirty <-> dirty_at s (f, p)).
  { intros f p. unfold dirty, dirty_at. rewrite list_elem_of_fmap. split.
    - intros ([[f' p'] l] & E & Hin). injection E as -> ->. apply (dirty_frames_spec n [] s _ _ _ Hok) in Hin as (? & x & ? & <- & ?).
      split; [done |]. by exists x.
    - intros (Hp & x & Hx & Hdx). exists (f, p, dirty_since_lsn x). split; [done |]. apply (dirty_frames_spec n [] s _ _ _ Hok). naive_solver. }
  pose proof (flush_batches_step n (chunks (length dirty) (Z.to_nat (capacity (dwb s))) dirty) s Hok) as H.
  rewrite Hcat in H. specialize (H ltac:(eapply Forall_impl; [exact Hfor | intros b [? ?]; unfold len; split; [done | lia]])).
  specialize (H (dirty_frames_nodup s)). specialize (H ltac:(apply Forall_forall; intros [f p] Hfp; by apply Hd)).
  destruct (flush_batches _ s) as [[[] | e |] s']; [| exact H | done].
  destruct H as (H1 & H2 & H3 & H4 & H5 & H6). split_and!; [done | done | done |]. rewrite <- H2. apply (all_clean n []); [done |].
  intros p f x Hp Hx. rewrite H3 in Hp. destruct (decide (f ∈ dirty.*1)) as [Hf | Hf].
  { destruct (H5 f Hf) as (y & Hy & Hyd). congruence. }
  rewrite H6 in Hx by done. destruct (Z.eqb_spec (dirty_since_lsn x) 0) as [E | E]; [done |]. exfalso. apply Hf.
  apply list_elem_of_fmap. exists (f, p). split; [done |]. apply Hd. split; [done |]. by exists x.
Qed.

(** ** Opening *)
Lemma pool_new_core (d : DiskManager) w log k (r : R) timeout debug :
  evictable r = ∅ -> let s := pool_new d w log k r timeout debug in core ∅ [] [] (frames s) (pool_index s) d.
Proof.
  intros He. cbn. set (m := Z.to_nat k).
  assert (Hrep : forall {A} (a b : A) f, index (replicate m a) f = Some b <-> b = a /\ 0 <= f < Z.of_nat m).
  { intros A a b f. unfold index. destruct (Z.leb_spec 0 f); [rewrite lookup_replicate; naive_solver lia | naive_solver lia]. }
  split; cbn.
  - unfold len. by rewrite !length_replicate.
  - intros p f. rewrite lookup_empty, Hrep. naive_solver.
  - intros p f. by rewrite lookup_empty.
  - intros f [_ Hf]%Hrep. split; [done |]. exists zero_frame. by rewrite Hrep.
  - rewrite app_nil_r. split; [apply (NoDup_fmap_2 Z.of_nat), NoDup_seq |]. intros f. rewrite list_elem_of_fmap, Hrep. split.
    + intros (i & -> & Hi%elem_of_seq). split; [done | lia].
    + intros [_ Hf]. exists (Z.to_nat f). rewrite elem_of_seq. split; lia.
  - intros f. rewrite He. setoid_rewrite lookup_empty. set_solver.
  - intros f p. by rewrite lookup_empty.
  - intros f p m'. by rewrite lookup_empty.
  - intros f. rewrite Hrep. set_solver.
  - split; [constructor | set_solver].
  - intros p. set_solver.
Qed.

Lemma pool_new_pages (d : DiskManager) w log k (r : R) timeout debug :
  pool_pages (pool_new d w log k r timeout debug) = disk_pages d.
Proof. apply map_eq. intros p. rewrite pool_pages_lookup, disk_pages_lookup. cbn. by rewrite lookup_empty. Qed.

(** A pool opened over a sound disk, log and double-write buffer. *)
Lemma pool_new_ok (d : DiskManager) w log k (r : R) timeout debug n :
  evictable r = ∅ -> disk_ok d -> disk_next_page_id d + Z.of_nat n < 2 ^ 32 -> log_room n log ->
  (forall p b, disk_page d p = Some b -> page_lsn b < next_lsn log) ->
  1 <= capacity w -> ENTRIES_OFFSET + capacity w * ENTRY_SIZE + 4 <= PAGE_SIZE ->
  pool_ok n [] (pool_new d w log k r timeout debug).
Proof.
  intros He Hd Hn Hl Hlsn Hc1 Hc2. split; try done; [| constructor | constructor]. split; try done; [by apply pool_new_core |].
  intros p b. rewrite pool_new_pages, disk_pages_lookup. apply Hlsn.
Qed.
End durable.
