(* ===== verification/StorageSpec.v ===== *)
(** * The storage stack: heaps over the buffer pool over the disk, the log and the double-write buffer

    The theorems about the parts put together: the pool as a map of pages, the write-ahead rule, what
    [flush_all] makes durable, and heaps over the pool as maps of tuples, all for any schedule of
    device faults. *)
From S2P Require Import Prelude Text Value Common Errors WalRecord Replacer Device SegmentStore Log LogInv.
From S2P Require Import Page Disk Dwb Buffer BufferInv BufferFlush BufferSpec BufferLaws BufferDurable.
From S2P Require Import Slots Heap HeapPage HeapSpec.

(** ** The pool as a map of pages *)
Inductive PoolOp : Type :=
| OpFetch (mode : GuardMode) (p : PageId)
| OpNew (t : TxnId)
| OpRead (g : PageGuard)
| OpWrite (t : TxnId) (g : PageGuard) (off : Z) (new : bytes)
| OpDrop (g : PageGuard)
| OpFlush (p : PageId)
| OpFlushAll.

Inductive PoolResult : Type := RGuard (g : PageGuard) | RBytes (b : bytes) | RDone.

Section pool_ops.
Context {R : Type} `{!Replacer R, !ReplacerLaws R}.
Abbreviation Pool := (BufferPool R).
Abbreviation MP := (M Pool Storage.Error).

Definition run_pool_op (op : PoolOp) : MP PoolResult :=
  match op with
  | OpFetch ReadGuard p => g ← pool_fetch_page_read p; mret (RGuard g)
  | OpFetch WriteGuard p => g ← pool_fetch_page p; mret (RGuard g)
  | OpNew t => g ← pool_new_page t; mret (RGuard g)
  | OpRead g => b ← pool_guard_page g; mret (RBytes b)
  | OpWrite t g off new => _ ← pool_guard_write t g off new; mret RDone
  | OpDrop g => _ ← pool_drop_guard g; mret RDone
  | OpFlush p => _ ← flush_page p; mret RDone
  | OpFlushAll => _ ← pool_flush_all; mret RDone
  end.

(** What a single thread may ask for while it holds the guards [gs]: no page twice, writes through
    write guards, past the page header and inside the page. *)
Definition pool_op_ok (gs : list PageGuard) (op : PoolOp) : Prop :=
  match op with
  | OpFetch _ p | OpFlush p => p ∉ guard_page_id <$> gs
  | OpNew _ => True
  | OpRead g | OpDrop g => g ∈ gs
  | OpWrite _ g off new => g ∈ gs /\ guard_mode g = WriteGuard /\ 12 <= off /\ off + len new <= PAGE_SIZE
  | OpFlushAll => gs = []
  end.

(** The abstract pool: live guards, and a map of pages without their checksums. *)
Definition pool_step (gs : list PageGuard) (m : gmap PageId bytes) (op : PoolOp) (r : PoolResult)
    (gs' : list PageGuard) (m' : gmap PageId bytes) : Prop :=
  match op, r with
  | OpFetch mode p, RGuard g => guard_page_id g = p /\ guard_mode g = mode /\ gs' = g :: gs /\ m' = m
  | OpNew _, RGuard g => guard_mode g = WriteGuard /\ m !! guard_page_id g = None
      /\ m' !! guard_page_id g = Some zero_page /\ m ⊆ m' /\ gs' = g :: gs
  | OpRead g, RBytes b => m !! guard_page_id g = Some (clear_checksum b) /\ gs' = gs /\ m' = m
  | OpWrite _ g off new, RDone => gs' = gs /\ exists b lsn, m !! guard_page_id g = Some b
      /\ m' = <[guard_page_id g := set_page_lsn lsn (splice b off new)]> m
  | OpDrop g, RDone => gs ≡ₚ g :: gs' /\ m' = m
  | OpFlush _, RDone | OpFlushAll, RDone => gs' = gs /\ m' = m
  | _, _ => False
  end.

Definition pool_op_post n gs (s : Pool) (op : PoolOp) (o : outcome Storage.Error PoolResult * Pool) : Prop :=
  match o with
  | (Ok r, s') => write_ahead s s' /\ exists gs', pool_ok n gs' s' /\ pool_step gs (pool_pages s) op r gs' (pool_pages s')
  | (Err _, s') => write_ahead s s' /\ pool_ok n gs s' /\ pool_pages s ⊆ pool_pages s'
      /\ ((forall t, op <> OpNew t) -> pool_pages s' = pool_pages s)
  | (Panic, _) => False
  end.

Lemma write_ahead_frames (s : Pool) fs : write_ahead s (with_frames fs s).
Proof. by apply write_ahead_same. Qed.

Lemma run_write_ahead t g off new (s : Pool) : write_ahead s (pool_guard_write t g off new s).2.
Proof.
  unfold pool_guard_write, mbind, M_bind, frame_at. destruct (index (frames s) (guard_frame_id g)) as [x |]; cbn; [| by apply write_ahead_same].
  destruct (sub (data (page x)) off (len new)) as [b |]; cbn; [| by apply write_ahead_same].
  unfold stamp_frame, mbind, M_bind, frame_at. cbn. destruct (index (frames s) (guard_frame_id g)); by apply write_ahead_same.
Qed.
Lemma drop_write_ahead g (s : Pool) : write_ahead s (pool_drop_guard g s).2.
Proof.
  unfold pool_drop_guard, unpin_frame, mbind, M_bind, frame_at.
  destruct (index (frames s) (guard_frame_id g)) as [x |]; cbn; [| by apply write_ahead_same].
  destruct (index _ (guard_frame_id g)) as [y |]; cbn; [| by apply write_ahead_same].
  destruct (_ =? 0); cbn; [by apply write_ahead_same |]. destruct (_ =? 0); cbn; [| by apply write_ahead_same].
  unfold gets, lift. cbn. destruct (index _ _) as [[] |]; by apply write_ahead_same.
Qed.

Lemma pool_op_spec n gs (s : Pool) op : pool_ok (S n) gs s -> pool_op_ok gs op ->
  pool_op_post n gs s op (run_pool_op op s).
Proof.
  intros Hok Hop. assert (Hle : forall gs s, pool_ok (S n) gs s -> pool_ok n gs s) by (intros; eapply pool_ok_le; [done | lia]).
  assert (Hsub : forall s' : Pool, pool_pages s' = pool_pages s -> pool_pages s ⊆ pool_pages s') by (by intros s' ->).
  destruct op as [mode p | t | g | t g off new | g | p |]; cbn [run_pool_op pool_op_ok] in *; unfold pool_op_post.
  - pose proof (pool_fetch_step mode (S n) gs s p Hok Hop) as H.
    destruct mode; unfold mbind, M_bind;
      [destruct (pool_fetch_page_read p s) as [[g | e |] s'] | destruct (pool_fetch_page p s) as [[g | e |] s']];
      try done; destruct H as (H1 & H2 & H3).
    1, 3: destruct H3 as (H3 & H4 & H5); split; [done |]; exists (g :: gs); split; [by apply Hle | done].
    1, 2: split_and!; auto.
  - pose proof (pool_new_page_step n gs s t Hok) as H. unfold mbind, M_bind. destruct (pool_new_page t s) as [[g | e |] s']; [| | done].
    + destruct H as (H1 & _ & H3 & H4 & H5 & H6 & H7). split; [done |]. by exists (g :: gs).
    + destruct H as (H1 & H2 & H3). split_and!; try done. intros Hn. by destruct (Hn t).
  - destruct (pool_guard_page_spec _ _ _ _ Hok Hop) as (b & E & Hb). unfold mbind, M_bind. rewrite E. cbn.
    split; [by apply write_ahead_same |]. exists gs. split; [by apply Hle | done].
  - destruct Hop as (Hg & Hw & Ho & Hl). destruct (guard_frame _ _ _ _ Hok Hg) as (_ & x & _ & _ & Hb).
    pose proof (pool_write_spec n gs s t g _ off new Hok Hg Hw Hb Ho Hl) as H. pose proof (run_write_ahead t g off new s) as Hwa.
    unfold mbind, M_bind. destruct (pool_guard_write t g off new s) as [[[] | e |] s']; [| | done].
    + destruct H as (H1 & lsn & H2). split; [done |]. exists gs. split; [done |]. split; [done |]. by eexists _, lsn.
    + destruct H as (H1 & H2). split_and!; auto.
  - apply elem_of_Permutation in Hop as [gs' Hgs].
    apply (pool_ok_perm _ _ _ _ Hgs) in Hok. destruct (pool_drop_spec _ _ _ _ Hok) as (s' & E & H1 & H2).
    pose proof (drop_write_ahead g s) as Hwa. unfold mbind, M_bind. rewrite E in Hwa |- *. cbn in *. split; [done |].
    exists gs'. split; [by apply Hle | done].
  - pose proof (flush_page_step _ gs s p Hok Hop) as H. unfold mbind, M_bind. destruct (flush_page p s) as [[[] | e |] s']; [| | done];
      destruct H as (H1 & H2 & H3).
    + split; [done |]. exists gs. split; [by apply Hle | done].
    + split_and!; auto.
  - subst gs. pose proof (flush_all_step _ s Hok) as H. unfold mbind, M_bind. destruct (pool_flush_all s) as [[[] | e |] s']; [| | done].
    + destruct H as (H1 & H2 & H3 & _). split; [done |]. exists []. split; [by apply Hle | done].
    + destruct H as (H1 & H2 & H3). split_and!; auto.
Qed.
End pool_ops.

(** ** Heaps as maps of tuples *)
Inductive HeapOp : Type :=
| HInsert (data : bytes)
| HGet (rid : Rid)
| HDelete (rid : Rid)
| HUpdate (rid : Rid) (offset : Z) (new : bytes).

Inductive HeapResult : Type := RRid (rid : Rid) | RTuple (o : option bytes) | RUnit.

Section heap_ops.
Context {R : Type} `{!Replacer R, !ReplacerLaws R}.
Abbreviation Pool := (BufferPool R).
Abbreviation MP := (M Pool Storage.Error).

Definition run_heap_op (fuel : nat) (t : TxnId) (first : PageId) (op : HeapOp) : MP HeapResult :=
  match op with
  | HInsert data => rid ← insert_tuple fuel t first data; mret (RRid rid)
  | HGet rid => o ← get_tuple rid; mret (RTuple o)
  | HDelete rid => _ ← delete_tuple t rid; mret RUnit
  | HUpdate rid offset new => _ ← update_tuple_in_place t rid offset new; mret RUnit
  end.

Definition heap_op_ok (c : chain) (op : HeapOp) : Prop :=
  match op with
  | HInsert data => 0 < len data
  | HGet rid => page_id rid ∈ c.*1 /\ 0 <= slot rid
  | HDelete rid => exists d, heap_get c rid = Some d
  | HUpdate rid offset new => exists d, heap_get c rid = Some d /\ 0 <= offset /\ offset + len new <= len d
  end.

(** The abstract heap: a map from row ids to tuples. *)
Definition heap_step (get : Rid -> option bytes) (op : HeapOp) (r : HeapResult) (get' : Rid -> option bytes) : Prop :=
  match op, r with
  | HInsert data, RRid rid => get rid = None /\ forall r, get' r = if decide (r = rid) then Some data else get r
  | HGet rid, RTuple o => o = get rid /\ forall r, get' r = get r
  | HDelete rid, RUnit => forall r, get' r = if decide (r = rid) then None else get r
  | HUpdate rid offset new, RUnit => exists d, get rid = Some d
      /\ forall r, get' r = if decide (r = rid) then Some (splice d offset new) else get r
  | _, _ => False
  end.

Definition heap_op_post n first (c : chain) (s : Pool) (op : HeapOp) (o : outcome Storage.Error HeapResult * Pool) : Prop :=
  match o with
  | (Ok r, s') => pool_ok n [] s' /\ same_elsewhere c (pool_pages s) (pool_pages s')
      /\ exists c', heap_ok (pool_pages s') first c' /\ heap_step (heap_get c) op r (heap_get c')
  | (Err _, s') => pool_ok n [] s' /\ same_elsewhere c (pool_pages s) (pool_pages s')
      /\ exists c', heap_ok (pool_pages s') first c' /\ forall r, heap_get c' r = heap_get c r
  | (Panic, _) => False
  end.

Lemma heap_get_slot c rid d : heap_get c rid = Some d -> 0 <= slot rid.
Proof. unfold heap_get. destruct (chain_page c (page_id rid)); [| done]. cbn. unfold index. by destruct (Z.leb_spec 0 (slot rid)). Qed.

(** Reading off a triple at one state. *)
Lemma triple_at {A} n (s : Pool) (c : MP A) n' Q (R0 : gmap PageId bytes -> Prop) :
  keeps n [] (pool_pages s) c n' Q R0 -> pool_ok n [] s ->
  match c s with
  | (Ok a, s') => pool_ok n' [] s' /\ Q a (pool_pages s')
  | (Err _, s') => pool_ok n' [] s' /\ R0 (pool_pages s')
  | (Panic, _) => False
  end.
Proof.
  intros Hk Hok. specialize (Hk s (conj Hok eq_refl)). destruct (c s) as [[a | e |] s']; [| | done];
    destruct Hk as (m & [? <-] & ?); done.
Qed.

Lemma heap_op_spec n (s : Pool) fuel t first c op :
  pool_ok (6 + n) [] s -> heap_ok (pool_pages s) first c -> heap_op_ok c op -> (length c < fuel)%nat ->
  heap_op_post n first c s op (run_heap_op fuel t first op s).
Proof.
  intros Hok Hh Hop Hf. assert (Hsame : same_elsewhere c (pool_pages s) (pool_pages s)) by (by intros q b Hq _).
  assert (Hok1 : pool_ok (1 + n) [] s) by (eapply pool_ok_le; [done | lia]).
  assert (Hok0 : pool_ok n [] s) by (eapply pool_ok_le; [done | lia]).
  assert (Hid : exists c', heap_ok (pool_pages s) first c' /\ forall r, heap_get c' r = heap_get c r) by (by exists c).
  destruct op as [data | rid | rid | rid off new]; cbn [run_heap_op heap_op_ok] in *; unfold mbind, M_bind.
  - destruct (Z.ltb_spec MAX_TUPLE_SIZE (len data)) as [Hbig | Hfit].
    { unfold insert_tuple. rewrite (proj2 (Z.ltb_lt _ _)) by lia. cbn. done. }
    pose proof (triple_at _ s _ _ _ _ (insert_tuple_spec n (pool_pages s) t fuel first c data Hh ltac:(lia) Hf) Hok) as H.
    destruct (insert_tuple fuel t first data s) as [[rid | e |] s']; [| | done].
    + destruct H as (H1 & H2 & H3 & c' & H4 & H5). split_and!; try done. by exists c'.
    + destruct H as (H1 & H2 & c' & H4 & H5). split_and!; try done. by exists c'.
  - destruct Hop as [Hin Hsl].
    pose proof (triple_at _ s _ _ _ _ (get_tuple_spec n (pool_pages s) c first rid Hh Hin Hsl) Hok0) as H.
    destruct (get_tuple rid s) as [[o | e |] s']; [| | done].
    + destruct H as (H1 & -> & H2). split; [done |]. rewrite H2. split; [done |]. by exists c.
    + destruct H as (H1 & H2). split; [done |]. rewrite H2. split; [done |]. by exists c.
  - destruct Hop as [d Hd].
    pose proof (triple_at _ s _ _ _ _ (delete_tuple_spec n (pool_pages s) t c first rid d Hh Hd (heap_get_slot _ _ _ Hd)) Hok1) as H.
    destruct (delete_tuple t rid s) as [[o | e |] s']; [| | done].
    + destruct H as (H1 & H2 & c' & H4 & _ & H5). split_and!; try done. by exists c'.
    + destruct H as (H1 & H2). split; [done |]. rewrite H2. split; [done |]. by exists c.
  - destruct Hop as (d & Hd & Ho & Hl).
    pose proof (triple_at _ s _ _ _ _ (update_tuple_spec n (pool_pages s) t c first rid d off new Hh Hd (heap_get_slot _ _ _ Hd) Ho Hl) Hok1) as H.
    destruct (update_tuple_in_place t rid off new s) as [[o | e |] s']; [| | done].
    + destruct H as (H1 & H2 & c' & H4 & _ & H5). split_and!; try done. exists c'. split; [done |]. by exists d.
    + destruct H as (H1 & H2). split; [done |]. rewrite H2. split; [done |]. by exists c.
Qed.
End heap_ops.

(** ** A pool to look at: a fresh database with two frames *)
Definition sample_device (n : Z) : Device := mkDevice (zeroes n) [].
Definition sample_disk : DiskManager :=
  match open_with_device PAGE_SIZE (mkDevice [] []) with
  | (Ok d, _) => d
  | (_, dev) => mkDisk dev PAGE_SIZE 1 0
  end.
Definition sample_log : LogManager :=
  match open_with_store 65536 (mkStore ∅ []) with
  | (Ok l, _) => l
  | (_, st) => mkLog st 0 [] 0 0 [] 0 ∅ 0 None 0
  end.
Definition sample_pool : BufferPool LruKReplacer :=
  pool_new sample_disk (mkDwb (sample_device (5 * PAGE_SIZE)) 4) sample_log 2 (lru_k_new 2) 1000 true.

Lemma sample_disk_len : len (content (device sample_disk)) = PAGE_SIZE.
Proof. vm_compute. reflexivity. Qed.
Lemma sample_disk_ids : disk_page_size sample_disk = PAGE_SIZE /\ disk_next_page_id sample_disk = 1 /\ extended_len sample_disk = PAGE_SIZE.
Proof. vm_compute. split_and!; reflexivity. Qed.
Lemma sample_log_lsns : next_lsn sample_log = 16 /\ durable_lsn sample_log = 16.
Proof. vm_compute. split; reflexivity. Qed.
Lemma sample_disk_lsn : page_lsn <$> disk_page sample_disk 0 = Some 0.
Proof. vm_compute. reflexivity. Qed.

Lemma sample_pool_room n : Z.of_nat n < 2 ^ 30 -> pool_ok n [] sample_pool.
Proof.
  intros Hn. destruct sample_disk_ids as (E1 & E2 & E3). destruct sample_log_lsns as [E4 E5].
  apply pool_new_ok; rewrite ?E2, ?E4; [vm_compute; reflexivity | | lia | | | done | done].
  - split; rewrite ?E1, ?E2, ?E3, ?sample_disk_len; [done | lia | unfold PAGE_SIZE; lia | apply Z.divide_refl].
  - unfold log_room, MAX_RECORD. rewrite E4, E5. lia.
  - intros p b Hb. assert (p = 0) as ->.
    { unfold disk_page in Hb. destruct (page_at (content (device sample_disk)) p) eqn:E; [| done].
      apply page_at_range in E. rewrite sample_disk_len in E. unfold PAGE_SIZE in E. lia. }
    pose proof sample_disk_lsn as E. rewrite Hb in E. cbn in E. injection E as E. rewrite E. done.
Qed.
Lemma sample_pool_ok : pool_ok 100 [] sample_pool.
Proof. apply sample_pool_room. lia. Qed.

(** The same with a heap in it, whose first page is in a frame. *)
Definition sample_heap : BufferPool LruKReplacer := (heap_create 1 sample_pool).2.
Lemma sample_heap_ok : pool_ok 90 [] sample_heap /\ heap_ok (pool_pages sample_heap) 1 [(1, [])].
Proof.
  pose proof (triple_at _ sample_pool _ _ _ _ (heap_create_spec 98 (pool_pages sample_pool) 1) sample_pool_ok) as H.
  assert (E : (heap_create 1 sample_pool).1 = Ok 1) by (vm_compute; reflexivity). unfold sample_heap.
  destruct (heap_create 1 sample_pool) as [o s]. cbn in E |- *. subst o. destruct H as (H1 & _ & _ & H2).
  split; [eapply pool_ok_le; [exact H1 | lia] | exact H2].
Qed.

(** ** The theorems *)

(** C5: The buffer pool refines a map from page ids to page contents. From any state that satisfies the
    pool's invariant, with any replacement policy that keeps its laws and any schedule of device faults,
    each operation a thread may ask for - fetching a page for reading or writing, allocating one, reading
    or writing through a guard, dropping a guard, flushing a page or all of them - never panics and does to
    the pages exactly what the map operation does: eviction and write-back are invisible. An operation that
    reports an error leaves every page as it was (a failed allocation may leave a new page behind). The
    invariant holds again afterwards; each step uses one unit of the credit that bounds LSNs and page ids. *)
Theorem pool_refines_page_map {R} `{!Replacer R, !ReplacerLaws R} n gs (s : BufferPool R) op :
  pool_ok (S n) gs s -> pool_op_ok gs op ->
  match run_pool_op op s with
  | (Ok r, s') => exists gs', pool_ok n gs' s' /\ pool_step gs (pool_pages s) op r gs' (pool_pages s')
  | (Err _, s') => pool_ok n gs s' /\ pool_pages s ⊆ pool_pages s'
      /\ ((forall t, op <> OpNew t) -> pool_pages s' = pool_pages s)
  | (Panic, _) => False
  end.
Proof.
  intros Hok Hop. pose proof (pool_op_spec n gs s op Hok Hop) as H. unfold pool_op_post in H.
  by destruct (run_pool_op op s) as [[r | e |] s']; [destruct H | destruct H |].
Qed.

Lemma pool_refines_page_map_witness : exists s' gs',
  run_pool_op (OpFetch WriteGuard 1) sample_heap = (Ok (RGuard (mkGuard WriteGuard 1 1)), s') /\ pool_ok 89 gs' s'.
Proof.
  pose proof (pool_refines_page_map 89 [] sample_heap (OpFetch WriteGuard 1) (proj1 sample_heap_ok) ltac:(apply not_elem_of_nil)) as H.
  assert (E : (run_pool_op (OpFetch WriteGuard 1) sample_heap).1 = Ok (RGuard (mkGuard WriteGuard 1 1))) by (vm_compute; reflexivity).
  destruct (run_pool_op (OpFetch WriteGuard 1) sample_heap) as [o s']. cbn in E. subst o.
  destruct H as (gs' & H & _). exists s', gs'. split; [reflexivity | exact H].
Defined.

(** C6: The write-ahead rule. Whatever operation of the pool runs, and whether it succeeds or fails, a
    page of the database file changes only if the log is already durable past the last change of the page
    the pool holds: the LSN of that page is below the durable LSN. *)
Theorem write_ahead_rule {R} `{!Replacer R, !ReplacerLaws R} n gs (s : BufferPool R) op p b :
  pool_ok (S n) gs s -> pool_op_ok gs op ->
  page_at (content (device (disk_manager s))) p = Some b ->
  page_at (content (device (disk_manager (run_pool_op op s).2))) p <> Some b ->
  exists b', pool_pages s !! p = Some b' /\ page_lsn b' < durable_lsn (log_manager (run_pool_op op s).2).
Proof.
  intros Hok Hop Hb Hn. pose proof (pool_op_spec n gs s op Hok Hop) as H. unfold pool_op_post in H.
  destruct (run_pool_op op s) as [[r | e |] s']; cbn in *; [| | done]; destruct H as [[_ H] _]; by destruct (H p b Hb).
Qed.

Lemma write_ahead_rule_witness : exists b', pool_pages sample_heap !! 1 = Some b'
  /\ page_lsn b' < durable_lsn (log_manager (run_pool_op (OpFlush 1) sample_heap).2).
Proof.
  apply (write_ahead_rule 89 [] sample_heap (OpFlush 1) 1 zero_page (proj1 sample_heap_ok)).
  - apply not_elem_of_nil.
  - vm_compute. reflexivity.
  - vm_compute. discriminate.
Defined.

(** C16: [flush_all] makes everything durable. When it succeeds with no guard held, a new pool over the
    same database file holds every page as the old pool did; when it fails, the pool still holds every page
    and its invariant. It never panics. *)
Theorem flush_all_durable {R} `{!Replacer R, !ReplacerLaws R} n (s : BufferPool R) :
  pool_ok n [] s ->
  match pool_flush_all s with
  | (Ok _, s') => forall w log k (r : R) timeout debug,
      pool_pages (pool_new (disk_manager s') w log k r timeout debug) = pool_pages s
  | (Err _, s') => pool_ok n [] s' /\ pool_pages s' = pool_pages s
  | (Panic, _) => False
  end.
Proof.
  intros Hok. pose proof (flush_all_step n s Hok) as H. destruct (pool_flush_all s) as [[[] | e |] s']; [| by destruct H as (? & ? & _) | done].
  destruct H as (_ & _ & _ & H). intros. by rewrite pool_new_pages.
Qed.

Lemma flush_all_durable_witness :
  let s' := (pool_flush_all sample_heap).2 in
  pool_pages (pool_new (disk_manager s') (dwb s') (log_manager s') 2 (lru_k_new 2) 1000 true) = pool_pages sample_heap.
Proof.
  pose proof (flush_all_durable 90 sample_heap (proj1 sample_heap_ok)) as H.
  assert (E : (pool_flush_all sample_heap).1 = Ok tt) by (vm_compute; reflexivity). cbn zeta.
  destruct (pool_flush_all sample_heap) as [o s']. cbn in E |- *. subst o. apply H.
Defined.

(** C11: A table heap over the buffer pool refines a map from row ids to tuples, for any replacement
    policy and any schedule of device faults: an insert returns a row id that was not in use and adds
    exactly that tuple, a lookup returns what the map holds, a delete and an in-place update change exactly
    their row. No page outside the heap changes, nothing panics, and an operation that reports an error
    leaves the map as it was. One turn of the insert loop per page of the chain, and one for a page it
    appends, is enough fuel. *)
Theorem heap_refines_tuple_map {R} `{!Replacer R, !ReplacerLaws R} n (s : BufferPool R) fuel t first c op :
  pool_ok (6 + n) [] s -> heap_ok (pool_pages s) first c -> heap_op_ok c op -> (length c < fuel)%nat ->
  match run_heap_op fuel t first op s with
  | (Ok r, s') => pool_ok n [] s' /\ same_elsewhere c (pool_pages s) (pool_pages s')
      /\ exists c', heap_ok (pool_pages s') first c' /\ heap_step (heap_get c) op r (heap_get c')
  | (Err _, s') => pool_ok n [] s' /\ same_elsewhere c (pool_pages s) (pool_pages s')
      /\ exists c', heap_ok (pool_pages s') first c' /\ forall r, heap_get c' r = heap_get c r
  | (Panic, _) => False
  end.
Proof. intros Hok Hh Hop Hf. exact (heap_op_spec n s fuel t first c op Hok Hh Hop Hf). Qed.

Lemma heap_refines_tuple_map_witness : exists s' c',
  run_heap_op 2 1 1 (HInsert (str "row")) sample_heap = (Ok (RRid (mkRid 1 0)), s')
  /\ heap_ok (pool_pages s') 1 c' /\ heap_get c' (mkRid 1 0) = Some (str "row").
Proof.
  pose proof (heap_refines_tuple_map 84 sample_heap 2 1 1 [(1, [])] (HInsert (str "row"))
    (proj1 sample_heap_ok) (proj2 sample_heap_ok) eq_refl ltac:(simpl; lia)) as H.
  assert (E : (run_heap_op 2 1 1 (HInsert (str "row")) sample_heap).1 = Ok (RRid (mkRid 1 0))) by (vm_compute; reflexivity).
  destruct (run_heap_op 2 1 1 (HInsert (str "row")) sample_heap) as [o s']. cbn in E. subst o.
  destruct H as (_ & _ & c' & H1 & _ & H2). exists s', c'. split; [reflexivity | split; [exact H1 |]].
  rewrite H2, decide_True by reflexivity. reflexivity.
Defined.

(** C21: A scan of a heap over the buffer pool ends and returns every tuple of the heap exactly once with
    its row id, and nothing else; a device fault ends it with an error and changes no page. *)
Theorem heap_scan_exact {R} `{!Replacer R, !ReplacerLaws R} n (s : BufferPool R) first c k fuel :
  pool_ok n [] s -> heap_ok (pool_pages s) first c -> (length (heap_list c) < k)%nat -> (length c + 1 < fuel)%nat ->
  match iter_collect k fuel (heap_iter first) s with
  | (Ok l, s') => pool_pages s' = pool_pages s /\ NoDup l.*1 /\ forall rid d, (rid, d) ∈ l <-> heap_get c rid = Some d
  | (Err _, s') => pool_ok n [] s' /\ pool_pages s' = pool_pages s
  | (Panic, _) => False
  end.
Proof.
  intros Hok (Hne & Hhd & Hrep & Hnd) Hk Hf.
  assert (Hat : current_page (heap_iter first) = next_of c) by (destruct c as [| [p ts] c]; [done |]; by rewrite <- Hhd).
  pose proof (triple_at _ s _ _ _ _ (iter_collect_spec n (pool_pages s) (heap_list c) c k fuel (heap_iter first) Hrep Hat eq_refl Hf Hk) Hok) as H.
  destruct (iter_collect k fuel (heap_iter first) s) as [[l | e |] s']; [| exact H | done].
  destruct H as (_ & -> & ->). split_and!; [done | by apply heap_list_nodup | intros; by apply heap_list_get].
Qed.

Lemma heap_scan_exact_witness : exists s', iter_collect 1 3 (heap_iter 1) sample_heap = (Ok [], s')
  /\ pool_pages s' = pool_pages sample_heap.
Proof.
  pose proof (heap_scan_exact 90 sample_heap 1 [(1, [])] 1 3 (proj1 sample_heap_ok) (proj2 sample_heap_ok)
    ltac:(cbn; lia) ltac:(simpl; lia)) as H.
  assert (E : (iter_collect 1 3 (heap_iter 1) sample_heap).1 = Ok []) by (vm_compute; reflexivity).
  destruct (iter_collect 1 3 (heap_iter 1) sample_heap) as [o s']. cbn in E. subst o.
  exists s'. split; [reflexivity | apply H].
Defined.
