(* ===== verification/DiskSpec.v ===== *)
(** * The database file: what reading, allocating and the double-write header guarantee

    Theorems about Disk.v and Dwb.v: a page with one wrong byte is never read as a good one, page ids
    are handed out once as long as the 32-bit counter lasts, and the header of a double-write batch
    reads back as what was written. *)
From S2P Require Import Prelude Text Value Common Errors Device Page Disk Dwb.

(** ** Corruption *)
Lemma sub_front (b : bytes) : len b = PAGE_SIZE -> sub b 0 4 = Some (firstn 4 b).
Proof. intros Hl. apply sub_Some. rewrite Hl. unfold PAGE_SIZE. split_and!; try lia. done. Qed.

Lemma crc32_insert (b : bytes) i x y : b !! i = Some y -> x <> y -> crc32 (<[i := x]> b) <> crc32 b.
Proof.
  intros Hi Hxy. pose proof (take_drop_middle b i y Hi) as E. rewrite <- E.
  assert (Hlen : length (take i b) = i) by (rewrite length_take; apply lookup_lt_Some in Hi; lia).
  rewrite insert_app_r_alt by lia. rewrite Hlen, Nat.sub_diag. cbn. intros H%crc32_byte_inj. done.
Qed.

(** The checksum covers the whole page after itself. *)
Lemma corrupt_checksum b i x y : len b = PAGE_SIZE -> stamp_checksum b !! i = Some y -> x <> y ->
  from_le (firstn 4 (<[i := x]> (stamp_checksum b))) <> checksum_of (<[i := x]> (stamp_checksum b)).
Proof.
  intros Hl Hi Hxy.
  assert (Hc : firstn 4 (stamp_checksum b) = to_le 4 (checksum_of b)).
  { unfold stamp_checksum, splice. apply (take_app_length' (to_le 4 (checksum_of b)) _ 4). by rewrite length_to_le. }
  pose proof (skipn_stamp_checksum b Hl) as Hd. set (c := stamp_checksum b) in *. unfold checksum_of in *.
  destruct (decide (i < 4)%nat) as [Hlt | Hge].
  - rewrite drop_insert_lt by lia. rewrite Hd, take_insert_lt by lia. rewrite Hc. intros E.
    assert (Hy : to_le 4 (crc32 (drop 4 b)) !! i = Some y) by (rewrite <- Hc, lookup_take_lt by lia; done).
    rewrite <- (from_le_to_le_id 4 (crc32 (drop 4 b))) in E at 2 by apply crc32_range.
    apply from_le_inj in E; [| by rewrite length_insert].
    apply (f_equal (lookup i)) in E. rewrite list_lookup_insert_eq in E by (by eapply lookup_lt_Some). congruence.
  - rewrite take_insert_ge by lia. rewrite Hc, from_le_to_le_id by apply crc32_range. rewrite <- Hd.
    rewrite drop_insert_ge by lia. intros E. symmetry in E.
    apply (crc32_insert (drop 4 c) (i - 4) x y); [rewrite lookup_drop; by replace (4 + (i - 4))%nat with i by lia | done | done].
Qed.

(** C33: a page whose bytes on the device differ from the ones written in exactly one place is refused
    with a checksum error, wherever the place is (the checksum itself included), unless it reads as a
    page that was never written. *)
Theorem one_byte_corruption_detected p b i x y d :
  disk_page_size d = PAGE_SIZE -> faults (device d) = [] -> len b = PAGE_SIZE ->
  stamp_checksum b !! i = Some y -> x <> y ->
  page_at (content (device d)) p = Some (<[i := x]> (stamp_checksum b)) ->
  <[i := x]> (stamp_checksum b) <> zero_page ->
  exists stored actual, read_page p d = (Err (Storage.ChecksumMismatch p stored actual), d).
Proof.
  intros Hps Hf Hl Hi Hxy Hp Hnz. set (c := <[i := x]> (stamp_checksum b)) in *.
  assert (Hc : len c = PAGE_SIZE) by (unfold c; rewrite len_insert; by apply len_stamp_checksum).
  assert (Hbad : checksum_ok c = false).
  { unfold checksum_ok. rewrite (sub_front c Hc). apply orb_false_iff. split.
    - destruct (forallb _ c) eqn:E; [| done]. exfalso. apply Hnz. rewrite forallb_forall in E.
      apply list_eq_same_length with (n := Z.to_nat PAGE_SIZE); [done | unfold len in Hc; lia |].
      intros j u v _ Hu Hv. apply lookup_replicate in Hv as [-> _].
      apply list_elem_of_lookup_2, list_elem_of_In, E in Hu. apply Z.eqb_eq in Hu. by destruct u.
    - apply Z.eqb_neq. by apply (corrupt_checksum b i x y). }
  pose proof (page_at_range _ _ _ Hp) as [Hp0 Hp1]. unfold page_at in Hp.
  unfold read_page, read_page_unchecked, on_device, size, read_at, gets, mbind, M_bind, offset_of.
  rewrite Hps. destruct d as [[cc fs] ps nx ex]. cbn in *. subst fs ps. cbn.
  rewrite (proj2 (Z.ltb_ge _ _)) by (unfold PAGE_SIZE in *; lia). cbn. unfold read_op. rewrite Hp. cbn. rewrite Hbad.
  by eexists _, _.
Qed.

Definition bad_page : bytes := <[100%nat := Byte.x01]> (stamp_checksum zero_page).
Lemma one_byte_corruption_detected_witness : exists stored actual,
  read_page 0 (mkDisk (mkDevice bad_page []) PAGE_SIZE 1 PAGE_SIZE)
  = (Err (Storage.ChecksumMismatch 0 stored actual), mkDisk (mkDevice bad_page []) PAGE_SIZE 1 PAGE_SIZE).
Proof.
  apply (one_byte_corruption_detected 0 zero_page 100 Byte.x01 Byte.x00); try reflexivity; vm_compute; discriminate.
Defined.

(** ** Page ids *)

(** allocation hands out the next page id, whose page is new and reads as zeroes, and keeps every
    page there is; the counter goes up by one. The last id a 32-bit counter holds is handed out too,
    and then the counter is back at 0, the header page. *)
Theorem allocate_page_bounds d p d' :
  disk_ok d -> allocate_page d = (Ok p, d') ->
  p = disk_next_page_id d /\ 0 < p < 2 ^ 32
  /\ page_at (content (device d)) p = None /\ page_at (content (device d')) p = Some zero_page
  /\ (forall q b, page_at (content (device d)) q = Some b -> page_at (content (device d')) q = Some b)
  /\ disk_next_page_id d' = if p =? 2 ^ 32 - 1 then 0 else p + 1.
Proof.
  intros [Hps Hn Hl Hm] Ha. destruct d as [[c fs] ps nx ex]. cbn in *. subst ps.
  unfold allocate_page, extend_to_at_least, on_device, set_len, gets, modify, mbind, M_bind, mret, M_ret in Ha. cbn in Ha.
  rewrite (proj2 (Z.ltb_lt ex _)) in Ha by (unfold PAGE_SIZE in *; lia). cbn in Ha. unfold set_len_op in Ha.
  destruct (grow_pages c (nx + 1)) as (Hlr & Hkeep & Hzero); [unfold PAGE_SIZE in *; lia | done |].
  destruct (next_fault fs) as [[| e l] fs1]; cbn in Ha; [| by destruct (0 <? l)]. injection Ha as <- <-. cbn.
  assert (Hnew : page_at c nx = None).
  { destruct (page_at c nx) eqn:E; [| done]. apply page_at_range in E. unfold PAGE_SIZE in *. lia. }
  set (c' := resize_content c ((nx + 1) * PAGE_SIZE)) in *.
  destruct (page_at_Some c' nx) as [b Hb]; [lia | rewrite Hlr; unfold PAGE_SIZE; lia |].
  assert (b = zero_page) as -> by (destruct (Hzero _ _ Hb); congruence).
  split_and!; [reflexivity | lia | lia | exact Hnew | exact Hb | exact Hkeep |].
  unfold wrapu. destruct (Z.eqb_spec nx (2 ^ 32 - 1)) as [-> | Hne]; [reflexivity |]. rewrite Z.mod_small; lia.
Qed.

Definition small_disk : DiskManager := mkDisk (mkDevice zero_page []) PAGE_SIZE 1 PAGE_SIZE.
Lemma allocate_page_bounds_witness : exists d', allocate_page small_disk = (Ok 1, d')
  /\ page_at (content (device d')) 1 = Some zero_page /\ disk_next_page_id d' = 2.
Proof.
  eexists. split; [reflexivity |].
  destruct (allocate_page_bounds small_disk 1 (allocate_page small_disk).2) as (_ & _ & _ & H1 & _ & H2).
  - split; [reflexivity | cbn; lia | vm_compute; split; discriminate | vm_compute; by exists 1].
  - reflexivity.
  - split; [exact H1 | exact H2].
Defined.

(** ** The double-write header *)

(** the header of a batch that fits reads back as the batch, ids and checksums in order. *)
Theorem dwb_header_roundtrip entries cap h :
  Forall entry_ok entries -> 0 < len entries <= cap -> encode_header entries = Ok h ->
  decode_header h cap = Some entries.
Proof. apply decode_encode_header. Qed.

Lemma dwb_header_roundtrip_witness : exists h, encode_header [(3, 77); (5, 99)] = Ok h /\ decode_header h 4 = Some [(3, 77); (5, 99)].
Proof.
  eexists. split; [reflexivity |]. apply (dwb_header_roundtrip [(3, 77); (5, 99)]); [| unfold len; simpl; lia | reflexivity].
  repeat constructor; unfold in_u; simpl; lia.
Defined.
