(* ===== verification/BtreeNode.v ===== *)
(** * Index nodes: crates/storage/src/btree.rs, the page of a node

    The layout of a B-tree node (its kind, its slots, its tail pointer), the entries of leaves and
    internal nodes, the searches in a page, the split points, and the pure part of rebuilding a node.
    Btree.v has the operations on a tree. *)
From S2P Require Import Prelude Text Value Common Errors Page Slots.

Definition NODE_TYPE_AT : Z := 12.
Definition SLOT_COUNT_AT : Z := 13.
Definition DATA_USED_AT : Z := 15.
Definition TAIL_AT : Z := 17.
Definition HEADER_SIZE : Z := 21.

Definition LEAF_TAG : byte := Byte.x00.
Definition INTERNAL_TAG : byte := Byte.x01.

Definition KEY_LEN_PREFIX : Z := 2.
Definition RID_TRAILER_SIZE : Z := 6.
Definition CHILD_TRAILER_SIZE : Z := 4.

Definition MAX_KEY_SIZE : Z :=
  PAGE_SIZE - HEADER_SIZE - SLOT_SIZE - KEY_LEN_PREFIX - RID_TRAILER_SIZE - CHILD_TRAILER_SIZE.
Definition MAX_INTERNAL_PUSH_UP_SIZE : Z :=
  KEY_LEN_PREFIX + MAX_KEY_SIZE + RID_TRAILER_SIZE + CHILD_TRAILER_SIZE.

Inductive NodeType : Type := Leaf | Internal.
Definition node_tag (kind : NodeType) : byte := match kind with Internal => INTERNAL_TAG | Leaf => LEAF_TAG end.

(** ** The header *)
Definition node_type (b : bytes) : NodeType :=
  match index b NODE_TYPE_AT with
  | Some x => if decide (x = INTERNAL_TAG) then Internal else Leaf
  | None => Leaf
  end.
Definition slot_count (b : bytes) : Z := u16_at b SLOT_COUNT_AT.
Definition data_used (b : bytes) : Z := u16_at b DATA_USED_AT.
Definition data_start (b : bytes) : Z := saturating_sub PAGE_SIZE (data_used b).
Definition tail_raw (b : bytes) : option PageId :=
  let id := u32_at b TAIL_AT in if id =? 0 then None else Some id.

Definition MAX_SLOTS : Z := (PAGE_SIZE - HEADER_SIZE) / SLOT_SIZE.

Definition checked_slot_count (b : bytes) (page_id : PageId) : outcome Storage.Error Z :=
  let count := slot_count b in
  if MAX_SLOTS <? count
  then Err (Storage.CorruptPage page_id
              (str "slot count " ++ fmt_u count ++ str " exceeds the " ++ fmt_u MAX_SLOTS
               ++ str " slots a " ++ fmt_u PAGE_SIZE ++ str "-byte page can hold"))
  else Ok count.

(** ** Slots and entries *)
Definition slot_offset (slot : Z) : Z := HEADER_SIZE + slot * SLOT_SIZE.

Definition slot_entry (b : bytes) (slot : Z) (page_id : PageId) : outcome Storage.Error (Z * Z) :=
  count ← checked_slot_count b page_id;
  if count <=? slot
  then Err (Storage.CorruptPage page_id
              (str "slot " ++ fmt_u slot ++ str " does not exist (" ++ fmt_u count ++ str " slots present)"))
  else let at_ := slot_offset slot in Ok (u16_at b at_, u16_at b (at_ + 2)).

Definition entry_payload (b : bytes) (slot : Z) (page_id : PageId) : outcome Storage.Error bytes :=
  '(offset, ln) ← slot_entry b slot page_id;
  count ← checked_slot_count b page_id;
  let slots_end := slot_offset count in
  let start := offset in
  let end_ := start + ln in
  if start <? slots_end
  then Err (Storage.CorruptPage page_id
              (str "slot " ++ fmt_u slot ++ str "'s entry at offset " ++ fmt_u start ++ str " overlaps the "
               ++ fmt_u slots_end ++ str "-byte slot array"))
  else ok_or (sub b start ln)
         (Storage.CorruptPage page_id
            (str "slot " ++ fmt_u slot ++ str "'s entry range " ++ fmt_u start ++ str ".." ++ fmt_u end_
             ++ str " runs past the " ++ fmt_u (len b) ++ str "-byte page")).

Definition key_len (payload : bytes) : Z := match sub payload 0 2 with Some x => from_le x | None => 0 end.
Definition entry_key (payload : bytes) : bytes := default [] (sub payload KEY_LEN_PREFIX (key_len payload)).
Definition leaf_sort_key (payload : bytes) : bytes :=
  default [] (sub payload KEY_LEN_PREFIX (key_len payload + RID_TRAILER_SIZE)).

(** [read_u16(payload, at)] and [read_u32(payload, at)] index the slice: out of range panics. *)
Definition read_le (n : Z) (payload : bytes) (at_ : Z) : outcome Storage.Error Z :=
  from_le <$> or_panic (sub payload at_ n).

Definition leaf_rid (payload : bytes) : outcome Storage.Error Rid :=
  k ← read_le 2 payload 0;
  let at_ := KEY_LEN_PREFIX + k in
  page ← read_le 4 payload at_;
  slot ← read_le 2 payload (at_ + 4);
  Ok (mkRid page slot).
Definition internal_child (payload : bytes) : outcome Storage.Error PageId :=
  k ← read_le 2 payload 0;
  read_le 4 payload (KEY_LEN_PREFIX + k).

Definition build_leaf_payload (key : bytes) (rid : Rid) : bytes :=
  to_le 2 (len key) ++ key ++ to_le 4 (page_id rid) ++ to_le 2 (slot rid).
Definition build_internal_payload (key : bytes) (child : PageId) : bytes :=
  to_le 2 (len key) ++ key ++ to_le 4 child.

(** ** Searching a page *)
Definition key_lt (a b : bytes) : bool := match lex_compare a b with Lt => true | _ => false end.
Definition key_le (a b : bytes) : bool := match lex_compare a b with Gt => false | _ => true end.

(** [while lo < hi { .. }]: [right mid] says whether the search goes on to the right of [mid]. *)
Fixpoint search (fuel : nat) (right : Z -> outcome Storage.Error bool) (lo hi : Z) : outcome Storage.Error Z :=
  match fuel with
  | O => Panic
  | S fuel =>
      if lo <? hi then
        let mid := lo + (hi - lo) / 2 in
        r ← right mid;
        if r : bool then search fuel right (mid + 1) hi else search fuel right lo mid
      else Ok lo
  end.
Definition search_page (b : bytes) (page_id : PageId) (right : bytes -> bool) : outcome Storage.Error Z :=
  count ← checked_slot_count b page_id;
  search (S (Z.to_nat count)) (fun mid => payload ← entry_payload b mid page_id; Ok (right payload)) 0 count.

Definition upper_bound (b key : bytes) (page_id : PageId) : outcome Storage.Error Z :=
  search_page b page_id (fun payload => key_le (entry_key payload) key).
Definition upper_bound_leaf (b sort_key : bytes) (page_id : PageId) : outcome Storage.Error Z :=
  search_page b page_id (fun payload => key_le (leaf_sort_key payload) sort_key).
Definition lower_bound_leaf (b key : bytes) (page_id : PageId) : outcome Storage.Error Z :=
  search_page b page_id (fun payload => key_lt (leaf_sort_key payload) key).

(** [slice::partition_point], on a slice whose elements that satisfy [p] come first *)
Fixpoint partition_point {A} (p : A -> bool) (l : list A) : nat :=
  match l with
  | [] => O
  | x :: l => if p x then S (partition_point p l) else O
  end.
Definition upper_bound_in (payloads : list bytes) (key : bytes) : nat :=
  partition_point (fun p => key_le (entry_key p) key) payloads.
Definition upper_bound_in_leaf (payloads : list bytes) (sort_key : bytes) : nat :=
  partition_point (fun p => key_le (leaf_sort_key p) sort_key) payloads.

Definition no_tail (page_id : PageId) : Storage.Error :=
  Storage.CorruptPage page_id (str "internal node has no tail (leftmost child) pointer").

Definition child_for_key (b key : bytes) (page_id : PageId) : outcome Storage.Error PageId :=
  idx ← upper_bound b key page_id;
  if idx =? 0 then ok_or (tail_raw b) (no_tail page_id)
  else payload ← entry_payload b (idx - 1) page_id; internal_child payload.

Definition node_will_fit (b : bytes) (payload_len : Z) : bool :=
  let new_slots_end := HEADER_SIZE + (slot_count b + 1) * SLOT_SIZE in
  new_slots_end + payload_len <=? data_start b.

Fixpoint read_payloads (b : bytes) (page_id : PageId) (slot : Z) (n : nat) : outcome Storage.Error (list bytes) :=
  match n with
  | O => Ok []
  | S n => p ← entry_payload b slot page_id; ps ← read_payloads b page_id (slot + 1) n; Ok (p :: ps)
  end.
Definition read_entries (b : bytes) (page_id : PageId) : outcome Storage.Error (option PageId * list bytes) :=
  let tail := tail_raw b in
  count ← checked_slot_count b page_id;
  entries ← read_payloads b page_id 0 (Z.to_nat count);
  Ok (tail, entries).

(** ** Split points *)
Definition entry_size (p : bytes) : Z := SLOT_SIZE + len p.
Definition total_size (entries : list bytes) : Z := fold_right (fun p n => entry_size p + n) 0 entries.

(** The loop: the first entry at which the running total reaches the target. *)
Fixpoint split_loop (target running : Z) (i : Z) (entries : list bytes) : option Z :=
  match entries with
  | [] => None
  | e :: entries =>
      let running := running + entry_size e in
      if target <=? running then Some i else split_loop target running (i + 1) entries
  end.
Definition byte_balanced_split_point (entries : list bytes) : Z :=
  default (len entries - 1) (split_loop (total_size entries / 2) 0 0 entries).

(** [x.clamp(lo, hi)] panics when [lo > hi]. *)
Definition clamp (x lo hi : Z) : outcome Storage.Error Z :=
  if hi <? lo then Panic else Ok (if x <? lo then lo else if hi <? x then hi else x).
Definition leaf_split_point (entries : list bytes) : outcome Storage.Error Z :=
  clamp (byte_balanced_split_point entries + 1) 1 (len entries - 1).
Definition internal_split_point (entries : list bytes) : outcome Storage.Error Z :=
  let mid := byte_balanced_split_point entries in
  if 3 <=? len entries then clamp mid 1 (len entries - 2) else Ok (Z.min mid (len entries - 1)).

(** ** Rebuilding *)

(** The loop that lays out the entries from the end of the body down. *)
Fixpoint place_entries (body : bytes) (i data_end : Z) (entries : list bytes) : bytes :=
  match entries with
  | [] => body
  | e :: entries =>
      let data_end := data_end - len e in
      let body := splice body data_end e in
      let slot_at := (HEADER_SIZE - NODE_TYPE_AT) + i * SLOT_SIZE in
      let absolute_offset := data_end + NODE_TYPE_AT in
      let body := splice body slot_at (to_le 2 absolute_offset) in
      let body := splice body (slot_at + 2) (to_le 2 (len e)) in
      place_entries body (i + 1) data_end entries
  end.

Definition payload_bytes (entries : list bytes) : Z := fold_right (fun e n => len e + n) 0 entries.
Definition tail_bytes (tail : option PageId) : bytes := to_le 4 (default 0 tail).

Definition rebuilt_body (current : bytes) (kind : NodeType) (tail : option PageId) (entries : list bytes) : bytes :=
  let body := splice current 0 [node_tag kind] in
  let body := splice body 1 (to_le 2 (len entries)) in
  let body := splice body 3 (to_le 2 (payload_bytes entries)) in
  let body := splice body 5 (tail_bytes tail) in
  place_entries body 0 (len body) entries.

Definition REBUILD_MERGE_GAP : Z := 16.

(** [while i < old.len() && old[i] != new[i] { i += 1 }] *)
Fixpoint run_end (old new : bytes) (i : Z) (fuel : nat) : Z :=
  match fuel with
  | O => i
  | S fuel => if decide (index old i <> index new i) then run_end old new (i + 1) fuel else i
  end.
(** [match runs.last_mut()]; the list of runs is kept reversed. *)
Definition push_run (runs : list (Z * Z)) (start end_ : Z) : list (Z * Z) :=
  match runs with
  | (s, e) :: rest => if start - e <? REBUILD_MERGE_GAP then (s, end_) :: rest else (start, end_) :: runs
  | [] => [(start, end_)]
  end.
Fixpoint run_loop (old new : bytes) (fuel : nat) (i : Z) (runs : list (Z * Z)) : list (Z * Z) :=
  match fuel with
  | O => runs
  | S fuel =>
      if i <? len old then
        if decide (index old i = index new i) then run_loop old new fuel (i + 1) runs
        else
          let end_ := run_end old new i (Z.to_nat (len old - i)) in
          run_loop old new fuel end_ (push_run runs i end_)
      else runs
  end.
Definition changed_byte_runs (old new : bytes) : list (Z * Z) :=
  reverse (run_loop old new (S (length old)) 0 []).
