(* ===== verification/Btree.v ===== *)
(** * The B-tree index: crates/storage/src/btree.rs, [Node] and [BTreeIndex]

    A tree over the guard interface: creating it, descending with read or write guards held the way
    the code holds them, inserting with splits up to a new root, lookups and range scans. Guards a
    function owns are dropped when it fails; [BTreeIndex::delete] is not implemented in the source.
    BtreePage.v and BtreeSpec.v say what the operations do. *)
From S2P Require Import Prelude Text Value Common Errors Page Slots BtreeNode.

Section btree.
Context {P : Type} `{!PageStore P}.
Abbreviation MP := (M P Storage.Error).

(** ** Guards a function owns *)
Fixpoint drop_guards (gs : list PageGuard) : MP unit :=
  match gs with
  | [] => mret tt
  | g :: gs => _ ← drop_guard g; drop_guards gs
  end.
(** [c] in a function that owns the guards [gs]: leaving the function by [?] drops them. *)
Definition guarding {A} (gs : list PageGuard) (c : MP A) : MP A := fun s =>
  match c s with
  | (Ok a, s) => (Ok a, s)
  | (r, s) => let '(_, s) := drop_guards gs s in (r, s)
  end.

(** ** [Node] *)
Definition node_init (t : TxnId) (g : PageGuard) (kind : NodeType) (tail : option PageId) : MP unit :=
  guard_write t g NODE_TYPE_AT (node_tag kind :: replicate 4 Byte.x00 ++ tail_bytes tail).

Definition find_insert_index (b sort_key : bytes) (page_id : PageId) : outcome Storage.Error Z :=
  match node_type b with
  | Leaf => upper_bound_leaf b sort_key page_id
  | Internal => upper_bound b sort_key page_id
  end.

Definition node_insert_at (t : TxnId) (g : PageGuard) (index : Z) (payload : bytes) : MP unit :=
  b ← guard_page g;
  let count := slot_count b in
  let data_at := data_start b - len payload in
  _ ← guard_write t g data_at payload;
  _ ← (if index <? count then
         b ← guard_page g;
         shifted ← lift (or_panic (sub b (slot_offset index) (slot_offset count - slot_offset index)));
         guard_write t g (slot_offset (index + 1)) shifted
       else mret tt);
  _ ← guard_write t g (slot_offset index) (to_le 2 data_at ++ to_le 2 (len payload));
  b ← guard_page g;
  guard_write t g SLOT_COUNT_AT (to_le 2 (count + 1) ++ to_le 2 (data_used b + len payload)).

(** [for range in changed_byte_runs(..)] *)
Fixpoint write_runs (t : TxnId) (g : PageGuard) (body : bytes) (runs : list (Z * Z)) : MP unit :=
  match runs with
  | [] => mret tt
  | (s, e) :: runs =>
      new ← lift (or_panic (sub body s (e - s)));
      _ ← guard_write t g (NODE_TYPE_AT + s) new;
      write_runs t g body runs
  end.

Definition node_rebuild (t : TxnId) (g : PageGuard) (kind : NodeType) (tail : option PageId)
    (entries : list bytes) : MP unit :=
  b ← guard_page g;
  let current := skipn (Z.to_nat NODE_TYPE_AT) b in
  let required := (HEADER_SIZE - NODE_TYPE_AT) + len entries * SLOT_SIZE + payload_bytes entries in
  if len current <? required
  then throw (Storage.NodeOverflow (guard_page_id g) required (len current))
  else
    let body := rebuilt_body current kind tail entries in
    write_runs t g body (changed_byte_runs current body).

(** ** [BTreeIndex] *)
(** the root page of a new tree *)
Definition btree_create (t : TxnId) : MP PageId :=
  g ← new_page t;
  _ ← with_guard g (node_init t g Leaf None);
  mret (guard_page_id g).

(** The loop of [descend_to_leaf]: the guard of the parent is held until the child is latched. *)
Fixpoint descend_loop (fuel : nat) (key : bytes) (current : PageId) (path : list PageId) (parent : list PageGuard)
    : MP (PageId * list PageId) :=
  match fuel with
  | O => lift Panic
  | S fuel =>
      g ← guarding parent (fetch_page_read current);
      _ ← drop_guards parent;
      child ← guarding [g] (
        b ← guard_page g;
        match node_type b with
        | Leaf => mret None
        | Internal => child ← lift (child_for_key b key current); mret (Some child)
        end);
      match child with
      | None => _ ← drop_guard g; mret (current, path)
      | Some child => descend_loop fuel key child (path ++ [current]) [g]
      end
  end.
Definition descend_to_leaf (fuel : nat) (root : PageId) (key : bytes) : MP (PageId * list PageId) :=
  descend_loop fuel key root [] [].

Fixpoint leftmost_leaf (fuel : nat) (current : PageId) : MP PageId :=
  match fuel with
  | O => lift Panic
  | S fuel =>
      g ← fetch_page_read current;
      child ← with_guard g (
        b ← guard_page g;
        match node_type b with
        | Leaf => mret None
        | Internal => child ← lift (ok_or (tail_raw b) (no_tail current)); mret (Some child)
        end);
      match child with
      | None => mret current
      | Some child => leftmost_leaf fuel child
      end
  end.

(** The loop of [descend_for_insert]; the last of [ancestors] comes first. *)
Fixpoint descend_for_insert (fuel : nat) (sort_key : bytes) (leaf_payload_len : Z) (current : PageId)
    (ancestors : list PageGuard) : MP (list PageGuard * PageGuard) :=
  match fuel with
  | O => lift Panic
  | S fuel =>
      g ← guarding ancestors (fetch_page current);
      r ← guarding (g :: ancestors) (
        b ← guard_page g;
        match node_type b with
        | Leaf => mret (node_will_fit b leaf_payload_len, None)
        | Internal =>
            child ← lift (child_for_key b sort_key current);
            mret (node_will_fit b MAX_INTERNAL_PUSH_UP_SIZE, Some child)
        end);
      ancestors ← (if r.1 : bool then _ ← drop_guards ancestors; mret [] else mret ancestors);
      match r.2 with
      | None => mret (ancestors, g)
      | Some child => descend_for_insert fuel sort_key leaf_payload_len child (g :: ancestors)
      end
  end.

(** The surgical path of [insert]: whether the entry fitted. *)
Definition insert_if_fits (t : TxnId) (g : PageGuard) (sort_key payload : bytes) : MP bool :=
  b ← guard_page g;
  if node_will_fit b (len payload) then
    idx ← lift (find_insert_index b sort_key (guard_page_id g));
    _ ← node_insert_at t g idx payload;
    mret true
  else mret false.

(** [payloads.insert(at, payload)] *)
Definition insert_payload (at_ : nat) (payload : bytes) (payloads : list bytes) : list bytes :=
  firstn at_ payloads ++ payload :: skipn at_ payloads.

(** Splitting the leaf: the separator to push up and the new page. *)
Definition split_leaf (t : TxnId) (g : PageGuard) (sort_key payload : bytes) : MP (bytes * PageId) :=
  b ← guard_page g;
  '(old_tail, payloads) ← lift (read_entries b (guard_page_id g));
  let payloads := insert_payload (upper_bound_in_leaf payloads sort_key) payload payloads in
  mid ← lift (leaf_split_point payloads);
  let right_payloads := skipn (Z.to_nat mid) payloads in
  let left_payloads := firstn (Z.to_nat mid) payloads in
  right_guard ← new_page t;
  _ ← with_guard right_guard (node_rebuild t right_guard Leaf old_tail right_payloads);
  _ ← node_rebuild t g Leaf (Some (guard_page_id right_guard)) left_payloads;
  first ← lift (or_panic (head right_payloads));
  mret (leaf_sort_key first, guard_page_id right_guard).

(** Splitting an internal node: the entry in the middle goes up. *)
Definition split_internal (t : TxnId) (g : PageGuard) (pushed_key payload : bytes) : MP (bytes * PageId) :=
  b ← guard_page g;
  '(old_tail, entries) ← lift (read_entries b (guard_page_id g));
  old_tail ← lift (ok_or old_tail (no_tail (guard_page_id g)));
  let entries := insert_payload (upper_bound_in entries pushed_key) payload entries in
  split_at ← lift (internal_split_point entries);
  pushed_entry ← lift (or_panic (index entries split_at));
  let left_entries := firstn (Z.to_nat split_at) entries in
  let right_entries := skipn (S (Z.to_nat split_at)) entries in
  new_pushed_tail ← lift (internal_child pushed_entry);
  right_guard ← new_page t;
  _ ← with_guard right_guard (node_rebuild t right_guard Internal (Some new_pushed_tail) right_entries);
  _ ← node_rebuild t g Internal (Some old_tail) left_entries;
  mret (entry_key pushed_entry, guard_page_id right_guard).

(** The loop over the ancestors, and the new root when there are none left: the root after it. *)
Fixpoint push_up (t : TxnId) (root : PageId) (ancestors : list PageGuard) (top : PageGuard) (left_page_id : PageId)
    (pushed_key : bytes) (pushed_right : PageId) : MP PageId :=
  let payload := build_internal_payload pushed_key pushed_right in
  match ancestors with
  | [] =>
      root_guard ← guarding [top] (new_page t);
      _ ← guarding [root_guard; top] (node_rebuild t root_guard Internal (Some left_page_id) [payload]);
      _ ← drop_guard top;
      _ ← drop_guard root_guard;
      mret (guard_page_id root_guard)
  | parent :: ancestors =>
      let owned := parent :: top :: ancestors in
      fitted ← guarding owned (insert_if_fits t parent pushed_key payload);
      if fitted : bool then _ ← drop_guards owned; mret root
      else
        '(new_key, new_right) ← guarding owned (split_internal t parent pushed_key payload);
        _ ← drop_guard top;
        push_up t root ancestors parent (guard_page_id parent) new_key new_right
  end.

Definition btree_insert (fuel : nat) (t : TxnId) (root : PageId) (key : bytes) (rid : Rid) : MP PageId :=
  if MAX_KEY_SIZE <? len key then throw (Storage.KeyTooLarge (len key) MAX_KEY_SIZE) else
  let leaf_payload := build_leaf_payload key rid in
  let sort_key := leaf_sort_key leaf_payload in
  '(ancestors, leaf_guard) ← descend_for_insert fuel sort_key (len leaf_payload) root [];
  let owned := leaf_guard :: ancestors in
  fitted ← guarding owned (insert_if_fits t leaf_guard sort_key leaf_payload);
  if fitted : bool then _ ← drop_guards owned; mret root
  else
    '(pushed_key, pushed_right) ← guarding owned (split_leaf t leaf_guard sort_key leaf_payload);
    push_up t root ancestors leaf_guard (guard_page_id leaf_guard) pushed_key pushed_right.

(** ** Lookups *)

(** [while idx < count { .. }]: the row ids collected and where it stopped *)
Fixpoint collect_matches (b key : bytes) (page_id : PageId) (idx : Z) (n : nat) : outcome Storage.Error (list Rid * Z) :=
  match n with
  | O => Ok ([], idx)
  | S n =>
      payload ← entry_payload b idx page_id;
      if decide (entry_key payload <> key) then Ok ([], idx) else
      rid ← leaf_rid payload;
      '(rids, idx) ← collect_matches b key page_id (idx + 1) n;
      Ok (rid :: rids, idx)
  end.
(** What [get] takes from one leaf: the row ids, and the next leaf if it ran off the end. *)
Definition leaf_matches (b key : bytes) (page_id : PageId) : outcome Storage.Error (list Rid * option PageId) :=
  count ← checked_slot_count b page_id;
  idx ← lower_bound_leaf b key page_id;
  '(rids, idx) ← collect_matches b key page_id idx (Z.to_nat (count - idx));
  Ok (rids, if idx =? count then tail_raw b else None).

Fixpoint get_loop (fuel : nat) (key : bytes) (current : PageId) (g : PageGuard) (results : list Rid) : MP (list Rid) :=
  match fuel with
  | O => lift Panic
  | S fuel =>
      '(rids, next) ← guarding [g] (b ← guard_page g; lift (leaf_matches b key current));
      match next with
      | Some next =>
          next_guard ← guarding [g] (fetch_page_read next);
          _ ← drop_guard g;
          get_loop fuel key next next_guard (results ++ rids)
      | None => _ ← drop_guard g; mret (results ++ rids)
      end
  end.
Definition btree_get (fuel : nat) (root : PageId) (key : bytes) : MP (list Rid) :=
  '(current, _) ← descend_to_leaf fuel root key;
  g ← fetch_page_read current;
  get_loop fuel key current g [].

(** ** Range scans *)
Inductive LeafScan : Type :=
| LeafEntry (slot : Z) (key sort_key : bytes) (rid : Rid)
| EndOfLeaf (next_leaf_page_id : option PageId).

Definition leaf_for_start (fuel : nat) (root : PageId) (start : option bytes) : MP PageId :=
  match start with
  | Some key => '(leaf, _) ← descend_to_leaf fuel root key; mret leaf
  | None => leftmost_leaf fuel root
  end.

(** The slot a scan goes on at: the first one past [after]. *)
Definition slot_after (b : bytes) (page_id : PageId) (count : Z) (after : option bytes) : outcome Storage.Error Z :=
  match after with
  | None => Ok 0
  | Some sort_key =>
      slot ← lower_bound_leaf b sort_key page_id;
      if slot <? count then
        payload ← entry_payload b slot page_id;
        Ok (if decide (leaf_sort_key payload = sort_key) then slot + 1 else slot)
      else Ok slot
  end.
Definition scan_leaf_page (b : bytes) (page_id : PageId) (after : option bytes) : outcome Storage.Error LeafScan :=
  count ← checked_slot_count b page_id;
  slot ← slot_after b page_id count after;
  if count <=? slot then Ok (EndOfLeaf (tail_raw b))
  else
    payload ← entry_payload b slot page_id;
    rid ← leaf_rid payload;
    Ok (LeafEntry slot (entry_key payload) (leaf_sort_key payload) rid).
Definition scan_leaf (leaf_page_id : PageId) (after : option bytes) : MP LeafScan :=
  g ← fetch_page_read leaf_page_id;
  with_guard g (b ← guard_page g; lift (scan_leaf_page b leaf_page_id after)).

Inductive RangeState : Type :=
| NotStarted (start : option bytes)
| InLeaf (page_id : PageId) (after : option bytes)
| RangeDone.
Record BTreeRangeIterator : Type := mkRange { range_end : option bytes; range_state : RangeState }.
Definition range_scan (start end_ : option bytes) : BTreeRangeIterator := mkRange end_ (NotStarted start).

(** [end.is_some_and(|end| key >= end)] *)
Definition past_end (end_ : option bytes) (key : bytes) : bool :=
  match end_ with Some e => key_le e key | None => false end.

(** [BTreeRangeIterator::next]: the item, if any, and the iterator after it. *)
Fixpoint range_next (fuel : nat) (root : PageId) (it : BTreeRangeIterator) (s : P)
    : option (outcome Storage.Error (bytes * Rid)) * BTreeRangeIterator * P :=
  match fuel with
  | O => (Some Panic, it, s)
  | S fuel =>
      let done := mkRange (range_end it) RangeDone in
      match range_state it with
      | RangeDone => (None, it, s)
      | NotStarted start =>
          match leaf_for_start fuel root start s with
          | (Ok page_id, s) => range_next fuel root (mkRange (range_end it) (InLeaf page_id start)) s
          | (Err e, s) => (Some (Err e), done, s)
          | (Panic, s) => (Some Panic, it, s)
          end
      | InLeaf page_id after =>
          match scan_leaf page_id after s with
          | (Ok (EndOfLeaf (Some next)), s) => range_next fuel root (mkRange (range_end it) (InLeaf next after)) s
          | (Ok (EndOfLeaf None), s) => range_next fuel root done s
          | (Ok (LeafEntry _ key sort_key rid), s) =>
              if past_end (range_end it) key then (None, done, s)
              else (Some (Ok (key, rid)), mkRange (range_end it) (InLeaf page_id (Some sort_key)), s)
          | (Err e, s) => (Some (Err e), done, s)
          | (Panic, s) => (Some Panic, it, s)
          end
      end
  end.
End btree.
