(* ===== verification/BtreePage.v ===== *)
(** * Index nodes: what a page of crates/storage/src/btree.rs represents

    [node_holds b kind tail es] says that page [b] is a node of kind [kind] with the pointer [tail]
    and the entries [es]; the lemmas say what the reads and searches of the code give on such a page,
    and what inserting an entry and rebuilding the node make of it. *)
From S2P Require Import Prelude Text Value Common Errors Page Slots BtreeNode Btree.

Ltac node_lia := unfold slot_offset, HEADER_SIZE, NODE_TYPE_AT, SLOT_COUNT_AT, DATA_USED_AT, TAIL_AT,
  SLOT_SIZE, PAGE_SIZE in *; lia.

Arguments payload_bytes : simpl never.

Lemma payload_bytes_nil : payload_bytes [] = 0.
Proof. done. Qed.
Lemma payload_bytes_cons e es : payload_bytes (e :: es) = len e + payload_bytes es.
Proof. done. Qed.
Lemma payload_bytes_app es fs : payload_bytes (es ++ fs) = payload_bytes es + payload_bytes fs.
Proof. induction es as [| e es IH]; [done |]. rewrite <- app_comm_cons, !payload_bytes_cons. lia. Qed.
Lemma payload_bytes_nonneg es : 0 <= payload_bytes es.
Proof. induction es as [| e es IH]; [done |]. rewrite payload_bytes_cons. pose proof (len_nonneg e). lia. Qed.
Lemma payload_bytes_elem es e : e ∈ es -> len e <= payload_bytes es.
Proof.
  intros (a & b & ->)%list_elem_of_split. rewrite payload_bytes_app, payload_bytes_cons.
  pose proof (payload_bytes_nonneg a). pose proof (payload_bytes_nonneg b). lia.
Qed.
Lemma total_size_eq es : total_size es = SLOT_SIZE * len es + payload_bytes es.
Proof.
  induction es as [| e es IH]; [done |]. cbn [total_size fold_right]. fold (total_size es). rewrite IH.
  unfold entry_size. rewrite len_cons, payload_bytes_cons. lia.
Qed.

Definition page_range (p : PageId) : Prop := 0 < p < 2 ^ 32.

Record node_page (b : bytes) (kind : NodeType) (tail : option PageId) (slots : list (Z * Z)) (es : list bytes) : Prop := {
  np_slots : slot_array b HEADER_SIZE (PAGE_SIZE - payload_bytes es) slots;
  np_tag : sub b NODE_TYPE_AT 1 = Some [node_tag kind];
  np_count : sub b SLOT_COUNT_AT 2 = Some (to_le 2 (len es));
  np_used : sub b DATA_USED_AT 2 = Some (to_le 2 (payload_bytes es));
  np_tail : sub b TAIL_AT 4 = Some (tail_bytes tail);
  np_tail_range : forall p, tail = Some p -> page_range p;
  np_entries : Forall2 (fun s e => sub b s.1 s.2 = Some e) slots es;
}.
Definition node_holds (b : bytes) (kind : NodeType) (tail : option PageId) (es : list bytes) : Prop :=
  exists slots, node_page b kind tail slots es.

(** The bytes a node with these entries takes. *)
Definition node_size (es : list bytes) : Z := HEADER_SIZE + total_size es.

Section reads.
Context {b : bytes} {kind : NodeType} {tail : option PageId} {es : list bytes}.
Implicit Types p : PageId.

Lemma node_holds_len : node_holds b kind tail es -> len b = PAGE_SIZE.
Proof. intros [slots H]. apply (slots_page _ _ _ _ (np_slots _ _ _ _ _ H)). Qed.

Lemma node_tail_range : node_holds b kind tail es -> forall p, tail = Some p -> page_range p.
Proof. intros [slots H]. apply (np_tail_range _ _ _ _ _ H). Qed.

Lemma node_slots_len slots : node_page b kind tail slots es -> len slots = len es.
Proof. intros H. unfold len. by rewrite (Forall2_length _ _ _ (np_entries _ _ _ _ _ H)). Qed.

Lemma node_fits : node_holds b kind tail es -> node_size es <= PAGE_SIZE.
Proof.
  intros [slots H]. pose proof (slots_room _ _ _ _ (np_slots _ _ _ _ _ H)) as Hr. rewrite (node_slots_len slots H) in Hr.
  unfold node_size. rewrite total_size_eq. lia.
Qed.
Lemma node_bounds : node_holds b kind tail es -> len es <= 1018 /\ payload_bytes es <= 4075.
Proof.
  intros H%node_fits. unfold node_size in H. rewrite total_size_eq in H. pose proof (payload_bytes_nonneg es).
  pose proof (len_nonneg es). node_lia.
Qed.

Lemma node_type_eq : node_holds b kind tail es -> node_type b = kind.
Proof.
  intros [slots H]. pose proof (np_tag _ _ _ _ _ H) as Ht. apply sub_Some in Ht as (_ & _ & Hl & Ht).
  unfold node_type, index. cbn -[NODE_TYPE_AT]. change (0 <=? NODE_TYPE_AT) with true. cbn iota.
  change (Z.to_nat 1) with 1%nat in Ht. rewrite <- (Nat.add_0_r (Z.to_nat NODE_TYPE_AT)), <- lookup_drop.
  destruct (drop (Z.to_nat NODE_TYPE_AT) b) as [| x l]; [done |]. cbn in Ht. injection Ht as <-. cbn.
  destruct kind; [by rewrite decide_False | by rewrite decide_True].
Qed.

Lemma slot_count_eq : node_holds b kind tail es -> slot_count b = len es.
Proof.
  intros H. destruct (node_bounds H). destruct H as [slots H]. unfold slot_count.
  rewrite (u16_at_sub _ _ _ (np_count _ _ _ _ _ H)). apply from_le_to_le_id. pose proof (len_nonneg es). unfold in_u; simpl; lia.
Qed.
Lemma data_used_eq : node_holds b kind tail es -> data_used b = payload_bytes es.
Proof.
  intros H. destruct (node_bounds H). destruct H as [slots H]. unfold data_used.
  rewrite (u16_at_sub _ _ _ (np_used _ _ _ _ _ H)). apply from_le_to_le_id. pose proof (payload_bytes_nonneg es). unfold in_u; simpl; lia.
Qed.
Lemma data_start_eq : node_holds b kind tail es -> data_start b = PAGE_SIZE - payload_bytes es.
Proof. intros H. unfold data_start, saturating_sub. rewrite (data_used_eq H). destruct (node_bounds H). node_lia. Qed.
Lemma node_checked_count p : node_holds b kind tail es -> checked_slot_count b p = Ok (len es).
Proof.
  intros H. unfold checked_slot_count. rewrite (slot_count_eq H). destruct (node_bounds H).
  change MAX_SLOTS with 1018. by rewrite (proj2 (Z.ltb_ge _ _)) by lia.
Qed.
Lemma tail_raw_eq : node_holds b kind tail es -> tail_raw b = tail.
Proof.
  intros [slots H]. unfold tail_raw. rewrite (u32_at_sub _ _ _ (np_tail _ _ _ _ _ H)). unfold tail_bytes.
  pose proof (np_tail_range _ _ _ _ _ H) as Hr. unfold page_range in Hr. destruct tail as [p |].
  - change (default 0 (Some p)) with p. rewrite from_le_to_le_id by (unfold in_u; change (8 * Z.of_nat 4) with 32; specialize (Hr p eq_refl); lia).
    specialize (Hr p eq_refl). by rewrite (proj2 (Z.eqb_neq _ _)) by lia.
  - by rewrite from_le_to_le_id by (unfold in_u; simpl; lia).
Qed.

Lemma node_slot slots (i : nat) e : node_page b kind tail slots es -> es !! i = Some e ->
  exists s, slots !! i = Some s /\ sub b s.1 s.2 = Some e /\ s.2 = len e.
Proof.
  intros H Hi. destruct (Forall2_lookup_r _ _ _ _ _ (np_entries _ _ _ _ _ H) Hi) as (s & Hs & Hsub).
  exists s. split_and!; [done | done |]. by rewrite (sub_len _ _ _ _ Hsub).
Qed.

Lemma entry_payload_eq p (i : nat) e : node_holds b kind tail es -> es !! i = Some e -> entry_payload b (Z.of_nat i) p = Ok e.
Proof.
  intros Hn Hi. pose proof Hn as [slots H]. destruct (node_slot slots i e H Hi) as (s & Hs & Hsub & _).
  unfold entry_payload, slot_entry. rewrite (node_checked_count p Hn). cbn [mbind outcome_bind].
  pose proof (lookup_lt_Some _ _ _ Hi) as Hlt. rewrite (proj2 (Z.leb_gt _ _)) by (unfold len; lia).
  unfold slot_offset. rewrite (Z.mul_comm (Z.of_nat i)).
  destruct (slot_read i s (np_slots _ _ _ _ _ H) Hs) as [-> ->]. cbn [mbind outcome_bind].
  destruct (slot_lookup_range i s (np_slots _ _ _ _ _ H) Hs) as (Hlo & _ & _).
  pose proof (slots_room _ _ _ _ (np_slots _ _ _ _ _ H)) as Hr. rewrite (node_slots_len slots H) in Hr.
  rewrite (proj2 (Z.ltb_ge _ _)) by lia. by rewrite Hsub.
Qed.

Lemma node_will_fit_eq n : node_holds b kind tail es -> node_will_fit b n = (node_size es + SLOT_SIZE + n <=? PAGE_SIZE).
Proof.
  intros H. unfold node_will_fit. rewrite (slot_count_eq H), (data_start_eq H). unfold node_size. rewrite total_size_eq.
  destruct (Z.leb_spec (HEADER_SIZE + (len es + 1) * SLOT_SIZE + n) (PAGE_SIZE - payload_bytes es)); symmetry;
    [apply Z.leb_le | apply Z.leb_gt]; lia.
Qed.

Lemma read_payloads_eq p (k : nat) n : node_holds b kind tail es -> (k + n = length es)%nat ->
  read_payloads b p (Z.of_nat k) n = Ok (drop k es).
Proof.
  intros H. revert k. induction n as [| n IH]; intros k Hk; cbn [read_payloads].
  - by rewrite drop_ge by lia.
  - destruct (lookup_lt_is_Some_2 es k) as [e He]; [lia |]. rewrite (entry_payload_eq p k e H He). cbn [mbind outcome_bind].
    replace (Z.of_nat k + 1) with (Z.of_nat (S k)) by lia. rewrite IH by lia. cbn. by rewrite (drop_S es e k He).
Qed.
Lemma read_entries_eq p : node_holds b kind tail es -> read_entries b p = Ok (tail, es).
Proof.
  intros H. unfold read_entries. rewrite (tail_raw_eq H), (node_checked_count p H). cbn [mbind outcome_bind].
  rewrite to_nat_len. change 0 with (Z.of_nat 0). by rewrite (read_payloads_eq p 0 (length es) H) by done.
Qed.

(** ** Searches *)
Lemma search_spec (f : Z -> outcome Storage.Error bool) (n lo hi : Z) fuel :
  (forall i, lo <= i < n -> f i = Ok true) -> (forall i, n <= i < hi -> f i = Ok false) ->
  lo <= n <= hi -> hi - lo < Z.of_nat fuel -> search fuel f lo hi = Ok n.
Proof.
  revert lo hi. induction fuel as [| fuel IH]; intros lo hi H1 H2 Hn Hf; [lia |]. cbn [search].
  destruct (Z.ltb_spec lo hi) as [Hlt | Hge]; [| f_equal; lia].
  pose proof (Z.div_pos (hi - lo) 2 ltac:(lia) ltac:(lia)).
  pose proof (Z.div_lt (hi - lo) 2 ltac:(lia) ltac:(lia)).
  set (mid := lo + (hi - lo) / 2) in *. destruct (Z.ltb_spec mid n) as [Hm | Hm].
  - rewrite H1 by lia. cbn. apply IH; [intros; apply H1; lia | done | lia | lia].
  - rewrite H2 by lia. cbn. apply IH; [done | intros; apply H2; lia | lia | lia].
Qed.

(** The elements that satisfy [p] come first, [n] of them. *)
Definition parted {A} (q : A -> bool) (l : list A) : Prop :=
  Forall (fun x => q x = true) (take (partition_point q l) l) /\ Forall (fun x => q x = false) (drop (partition_point q l) l).

Lemma search_page_eq p q : node_holds b kind tail es -> parted q es ->
  search_page b p q = Ok (Z.of_nat (partition_point q es)).
Proof.
  intros H [Ht Hd]. unfold search_page. rewrite (node_checked_count p H). cbn [mbind outcome_bind].
  assert (Hle : (partition_point q es <= length es)%nat).
  { clear. induction es as [| e l IH]; cbn; [lia |]. destruct (q e); lia. }
  assert (Hget : forall i v, 0 <= i < len es -> (forall e, es !! Z.to_nat i = Some e -> q e = v) ->
    (payload ← entry_payload b i p; Ok (q payload)) = Ok v).
  { intros i v Hi Hv. destruct (lookup_lt_is_Some_2 es (Z.to_nat i)) as [e He]; [unfold len in Hi; lia |].
    replace i with (Z.of_nat (Z.to_nat i)) at 1 by lia. rewrite (entry_payload_eq p _ e H He). cbn. by rewrite (Hv e He). }
  apply search_spec.
  - intros i Hi. apply Hget; [unfold len; lia |]. intros e He. apply (Forall_lookup_1 _ _ (Z.to_nat i) e Ht).
    by rewrite lookup_take_lt by lia.
  - intros i Hi. apply Hget; [lia |]. intros e He.
    apply (Forall_lookup_1 _ _ (Z.to_nat i - partition_point q es)%nat e Hd).
    rewrite lookup_drop. rewrite <- He. f_equal. lia.
  - unfold len. lia.
  - rewrite to_nat_len. unfold len. lia.
Qed.
End reads.

(** ** Pages with the same body: everything past the checksum and the LSN *)
Definition same_body (b b' : bytes) : Prop := len b = PAGE_SIZE /\ len b' = PAGE_SIZE /\ skipn 12 b = skipn 12 b'.

Lemma same_body_refl b : len b = PAGE_SIZE -> same_body b b.
Proof. done. Qed.
Lemma same_body_sym b b' : same_body b b' -> same_body b' b.
Proof. intros (? & ? & ?). done. Qed.
Lemma same_body_trans b b' b'' : same_body b b' -> same_body b' b'' -> same_body b b''.
Proof. intros (? & ? & ?) (? & ? & ?). split_and!; [done | done |]. congruence. Qed.

Lemma same_body_lookup b b' : len b = PAGE_SIZE -> len b' = PAGE_SIZE ->
  same_body b b' <-> forall i, (12 <= i)%nat -> b !! i = b' !! i.
Proof.
  intros H1 H2. split.
  - intros (_ & _ & H) i Hi. replace i with (12 + (i - 12))%nat by lia. by rewrite <- !lookup_drop, H.
  - intros H. split_and!; [done | done |]. apply list_eq. intros i. rewrite !lookup_drop. apply H. lia.
Qed.
Lemma same_body_sub b b' off n : same_body b b' -> 12 <= off -> sub b off n = sub b' off n.
Proof.
  intros H Ho. pose proof H as (H1 & H2 & _). apply sub_ext; [by rewrite H1, H2 |]. intros i Hi.
  apply (proj1 (same_body_lookup b b' H1 H2) H). lia.
Qed.
Lemma same_body_splice b b' off new : same_body b b' -> 0 <= off -> off + len new <= PAGE_SIZE ->
  same_body (splice b off new) (splice b' off new).
Proof.
  intros H Ho Hn. pose proof H as (H1 & H2 & _). apply same_body_lookup.
  - rewrite len_splice; rewrite ?H1; done.
  - rewrite len_splice; rewrite ?H2; done.
  - intros i Hi. rewrite !splice_lookup by (rewrite ?H1, ?H2; done). case_decide; [done |].
    apply (proj1 (same_body_lookup b b' H1 H2) H). lia.
Qed.
Lemma same_body_lsn lsn b : len b = PAGE_SIZE -> same_body b (set_page_lsn lsn b).
Proof.
  intros H. assert (H8 : 4 + len (to_le 8 lsn) <= len b) by (rewrite len_to_le, H; unfold PAGE_SIZE; lia).
  apply same_body_lookup; [done | by apply len_set_page_lsn |]. intros i Hi. unfold set_page_lsn.
  rewrite splice_lookup by (done || lia). rewrite len_to_le. rewrite decide_False by lia. done.
Qed.
Lemma same_body_checksum b : len b = PAGE_SIZE -> same_body b (clear_checksum b).
Proof.
  intros H. apply same_body_lookup; [done | by apply len_clear_checksum |]. intros i Hi. unfold clear_checksum.
  rewrite lookup_app_r by (rewrite length_replicate; lia). rewrite length_replicate, lookup_drop. f_equal. lia.
Qed.

Lemma Forall2_under {A B} (P : A -> Prop) (R R' : A -> B -> Prop) l k :
  Forall P l -> Forall2 R l k -> (forall x y, P x -> R x y -> R' x y) -> Forall2 R' l k.
Proof. intros HP HR Hi. induction HR; inversion HP; subst; constructor; auto. Qed.

Lemma node_holds_body b b' kind tail es : same_body b b' -> node_holds b kind tail es -> node_holds b' kind tail es.
Proof.
  intros Hb [slots H]. pose proof Hb as (H1 & H2 & _).
  assert (Hs : forall off n, 12 <= off -> sub b' off n = sub b off n) by (intros; symmetry; by apply same_body_sub).
  destruct H as [[Hp Hh Hr Hd Hst] Ht Hc Hu Htl Htr He]. exists slots. split; try (rewrite Hs by node_lia; done); try done.
  - split; try done. intros i s Hi. rewrite Hs by node_lia. by apply Hst.
  - eapply Forall2_under; [exact Hd | exact He |]. cbn. intros s e (Hlo & _) Hsub. rewrite Hs; [done |].
    pose proof (len_nonneg slots). node_lia.
Qed.

(** ** Writes *)
Lemma node_init_page b kind tail :
  len b = PAGE_SIZE -> (forall p, tail = Some p -> page_range p) ->
  node_holds (splice b NODE_TYPE_AT (node_tag kind :: replicate 4 Byte.x00 ++ tail_bytes tail)) kind tail [].
Proof.
  intros Hb Ht. set (hd := node_tag kind :: replicate 4 Byte.x00 ++ tail_bytes tail).
  assert (Htl : len (tail_bytes tail) = 4) by (unfold tail_bytes; by rewrite len_to_le).
  assert (Hh : len hd = 9) by (unfold hd; autorewrite with len; lia).
  assert (Hin : NODE_TYPE_AT + len hd <= len b) by (rewrite Hh, Hb; node_lia).
  assert (Hsub : forall k n, 0 <= k -> k + n <= 9 -> sub (splice b NODE_TYPE_AT hd) (NODE_TYPE_AT + k) n = sub hd k n).
  { intros k n Hk Hn. apply sub_splice_in; [node_lia | done | done | by rewrite Hh]. }
  exists []. split; rewrite ?payload_bytes_nil; try done.
  - split; [by rewrite len_splice by (done || node_lia) | node_lia | unfold len; simpl; node_lia | done | done].
  - by apply (Hsub 0 1).
  - by apply (Hsub 1 2).
  - by apply (Hsub 3 2).
  - transitivity (sub hd 5 4); [by apply (Hsub 5 4) |].
    pose proof (sub_app_mid (node_tag kind :: replicate 4 Byte.x00) (tail_bytes tail) []) as Hm.
    rewrite Htl, app_nil_r in Hm. exact Hm.
Qed.

Lemma node_insert_page b kind tail slots es (i : nat) payload shifted :
  node_page b kind tail slots es -> (i <= length es)%nat -> node_size es + SLOT_SIZE + len payload <= PAGE_SIZE ->
  let data_at := PAGE_SIZE - payload_bytes es - len payload in
  let b1 := splice b data_at payload in
  sub b1 (slot_offset (Z.of_nat i)) (slot_offset (len es) - slot_offset (Z.of_nat i)) = Some shifted ->
  let b2 := splice (splice b1 (slot_offset (Z.of_nat i + 1)) shifted) (slot_offset (Z.of_nat i)) (slot_bytes (data_at, len payload)) in
  node_holds (splice b2 SLOT_COUNT_AT (to_le 2 (len es + 1) ++ to_le 2 (payload_bytes es + len payload)))
    kind tail (take i es ++ payload :: drop i es).
Proof.
  intros H Hi Hfit data_at b1 Hsh b2. pose proof (node_slots_len slots H) as Hls. destruct H as [Hs Ht Hc Hu Htl Htr He].
  unfold node_size in Hfit. rewrite total_size_eq in Hfit. pose proof (len_nonneg es). pose proof (len_nonneg payload).
  pose proof (payload_bytes_nonneg es). pose proof (slots_page _ _ _ _ Hs) as Hp.
  set (hd := to_le 2 (len es + 1) ++ to_le 2 (payload_bytes es + len payload)).
  assert (Hhd : len hd = 4) by (unfold hd; by autorewrite with len).
  set (es' := take i es ++ payload :: drop i es). set (slots' := take i slots ++ (data_at, len payload) :: drop i slots).
  assert (Hpb : payload_bytes es' = payload_bytes es + len payload).
  { unfold es'. rewrite payload_bytes_app, payload_bytes_cons. rewrite <- (take_drop i es) at 3. rewrite payload_bytes_app. lia. }
  assert (Hle : len es' = len es + 1).
  { unfold es'. rewrite len_app, len_cons. rewrite <- (take_drop i es) at 3. rewrite len_app. lia. }
  assert (Hi' : Z.of_nat i <= len es) by (unfold len; lia).
  assert (Hsa1 : slot_array b1 HEADER_SIZE (PAGE_SIZE - payload_bytes es) slots).
  { unfold b1. apply slot_array_frame; [done | node_lia | node_lia | right; rewrite Hls; node_lia]. }
  assert (Hp1 : len b1 = PAGE_SIZE) by apply (slots_page _ _ _ _ Hsa1).
  pose proof (sub_len _ _ _ _ Hsh) as Hlsh. unfold slot_offset in Hlsh.
  assert (Hsh1 : sub b1 (HEADER_SIZE + SLOT_SIZE * Z.of_nat i) (SLOT_SIZE * (len slots - Z.of_nat i)) = Some shifted).
  { rewrite <- Hsh, Hls. unfold slot_offset. f_equal; lia. }
  assert (Hslots : slot_array b2 HEADER_SIZE data_at slots').
  { pose proof (slot_array_insert i (data_at, len payload) shifted Hsa1) as Hins. cbn [fst snd] in Hins.
    unfold b2, slots', slot_offset. rewrite !(Z.mul_comm _ SLOT_SIZE). apply Hins; try done.
    - unfold len in Hls. lia.
    - rewrite Hls. node_lia.
    - lia.
    - unfold data_at. lia. }
  assert (Hp2 : len b2 = PAGE_SIZE) by apply (slots_page _ _ _ _ Hslots).
  assert (Hsb : len (slot_bytes (data_at, len payload)) = 4) by (unfold slot_bytes; by autorewrite with len).
  assert (Hpi : len (splice b1 (slot_offset (Z.of_nat i + 1)) shifted) = PAGE_SIZE)
    by (rewrite len_splice; [done | node_lia | rewrite Hp1, Hlsh; node_lia]).
  (* what lies outside the slots and the new entry *)
  assert (Hout : forall off n, 0 <= n -> (off + n <= HEADER_SIZE \/ HEADER_SIZE + SLOT_SIZE * (len es + 1) <= off) ->
     (off + n <= data_at \/ data_at + len payload <= off) -> sub b2 off n = sub b off n).
  { intros off n Hn Ho Hd. unfold b2.
    rewrite sub_splice_ne; [| node_lia | rewrite Hpi, Hsb; node_lia | rewrite Hsb; node_lia].
    rewrite sub_splice_ne; [| node_lia | rewrite Hp1, Hlsh; node_lia | rewrite Hlsh; node_lia].
    unfold b1. rewrite sub_splice_ne; [done | node_lia | rewrite Hp; node_lia | done]. }
  assert (Hfin : forall off n, SLOT_COUNT_AT + 4 <= off \/ off + n <= SLOT_COUNT_AT ->
     sub (splice b2 SLOT_COUNT_AT hd) off n = sub b2 off n).
  { intros off n Ho. apply sub_splice_ne; [node_lia | rewrite Hp2, Hhd; node_lia | rewrite Hhd; lia]. }
  exists slots'. split; rewrite ?Hpb, ?Hle.
  - replace (PAGE_SIZE - (payload_bytes es + len payload)) with data_at by (unfold data_at; lia).
    apply slot_array_frame; [done | node_lia | rewrite Hhd; node_lia | left; rewrite Hhd; node_lia].
  - rewrite Hfin by node_lia. rewrite Hout by node_lia. done.
  - rewrite <- (Z.add_0_r SLOT_COUNT_AT) at 2. rewrite sub_splice_in by (rewrite ?Hhd, ?Hp2; node_lia).
    apply sub_app_prefix. by rewrite len_to_le.
  - replace DATA_USED_AT with (SLOT_COUNT_AT + 2) by done. rewrite sub_splice_in by (rewrite ?Hhd, ?Hp2; node_lia).
    pose proof (sub_app_mid (to_le 2 (len es + 1)) (to_le 2 (payload_bytes es + len payload)) []) as Hm.
    rewrite app_nil_r, !len_to_le in Hm. exact Hm.
  - rewrite Hfin by node_lia. rewrite Hout by node_lia. done.
  - done.
  - assert (Hold : Forall2 (fun s e => sub (splice b2 SLOT_COUNT_AT hd) s.1 s.2 = Some e) slots es).
    { eapply Forall2_under; [exact (slots_in_data _ _ _ _ Hs) | exact He |].
      cbn. intros s e (Hlo & Hn & _) Hsub. rewrite Hfin by node_lia. rewrite Hout by node_lia. done. }
    apply Forall2_app; [by apply Forall2_take |]. constructor; [| by apply Forall2_drop]. cbn [fst snd].
    rewrite Hfin by node_lia. unfold b2.
    rewrite sub_splice_ne; [| node_lia | rewrite Hpi, Hsb; node_lia | rewrite Hsb; node_lia].
    rewrite sub_splice_ne; [| node_lia | rewrite Hp1, Hlsh; node_lia | rewrite Hlsh; node_lia].
    unfold b1. apply sub_splice_eq; [node_lia | rewrite Hp; node_lia].
Qed.

(** ** Rebuilding *)
Lemma sub_splice_at {A} (l : list A) off n new :
  len new = n -> 0 <= off -> off + n <= len l -> sub (splice l off new) off n = Some new.
Proof. intros <-. apply sub_splice_eq. Qed.

Definition place_one (body : bytes) (i data_end : Z) (e : bytes) : bytes :=
  splice (splice (splice body (data_end - len e) e) ((HEADER_SIZE - NODE_TYPE_AT) + i * SLOT_SIZE)
            (to_le 2 (data_end - len e + NODE_TYPE_AT)))
    ((HEADER_SIZE - NODE_TYPE_AT) + i * SLOT_SIZE + 2) (to_le 2 (len e)).

Lemma place_one_spec body i de e : 0 <= i -> 9 + 4 * (i + 1) <= de - len e -> de <= len body ->
  len (place_one body i de e) = len body
  /\ (forall off n, 0 <= n -> (off + n <= 9 + 4 * i \/ 9 + 4 * (i + 1) <= off) ->
        (off + n <= de - len e \/ de <= off) -> sub (place_one body i de e) off n = sub body off n)
  /\ sub (place_one body i de e) (de - len e) (len e) = Some e
  /\ sub (place_one body i de e) (9 + 4 * i) 4 = Some (slot_bytes (de - len e + NODE_TYPE_AT, len e)).
Proof.
  intros Hi Hr Hde. pose proof (len_nonneg e). unfold place_one. change (HEADER_SIZE - NODE_TYPE_AT) with 9.
  change SLOT_SIZE with 4. rewrite (Z.mul_comm i 4).
  set (b1 := splice body (de - len e) e).
  assert (H1 : len b1 = len body) by (unfold b1; rewrite len_splice; lia).
  set (x := to_le 2 (de - len e + NODE_TYPE_AT)). assert (Hx : len x = 2) by (unfold x; by rewrite len_to_le).
  set (b2 := splice b1 (9 + 4 * i) x). assert (H2 : len b2 = len body) by (unfold b2; rewrite len_splice; lia).
  set (y := to_le 2 (len e)). assert (Hy : len y = 2) by (unfold y; by rewrite len_to_le).
  split_and!.
  - rewrite len_splice; lia.
  - intros off n Hn Ho Hd. rewrite sub_splice_ne by lia. unfold b2. rewrite sub_splice_ne by lia.
    unfold b1. by rewrite sub_splice_ne by lia.
  - rewrite sub_splice_ne by lia. unfold b2. rewrite sub_splice_ne by lia. unfold b1. apply sub_splice_eq; lia.
  - unfold slot_bytes. cbn [fst snd]. fold x y. apply (sub_concat _ (9 + 4 * i) 2 2 x y).
    + rewrite sub_splice_ne by lia. unfold b2. apply sub_splice_at; lia.
    + apply sub_splice_at; lia.
Qed.

Lemma place_entries_spec es : forall body i de, 0 <= i -> 9 + 4 * (i + len es) <= de - payload_bytes es -> de <= len body ->
  len (place_entries body i de es) = len body
  /\ (forall off n, 0 <= n -> (off + n <= 9 + 4 * i \/ 9 + 4 * (i + len es) <= off) ->
        (off + n <= de - payload_bytes es \/ de <= off) -> sub (place_entries body i de es) off n = sub body off n)
  /\ (forall (j : nat) e, es !! j = Some e ->
        let d := de - payload_bytes (take (S j) es) in
        sub (place_entries body i de es) d (len e) = Some e
        /\ sub (place_entries body i de es) (9 + 4 * (i + Z.of_nat j)) 4 = Some (slot_bytes (d + NODE_TYPE_AT, len e))).
Proof.
  induction es as [| e es IH]; intros body i de Hi Hr Hde; [done |].
  rewrite len_cons, payload_bytes_cons in *. pose proof (len_nonneg es). pose proof (payload_bytes_nonneg es). pose proof (len_nonneg e).
  destruct (place_one_spec body i de e Hi ltac:(lia) Hde) as (Hl1 & Hf1 & He1 & Hs1).
  cbn [place_entries]. fold (place_one body i de e). set (b1 := place_one body i de e) in *.
  destruct (IH b1 (i + 1) (de - len e) ltac:(lia) ltac:(lia) ltac:(lia)) as (Hl2 & Hf2 & He2).
  split_and!.
  - by rewrite Hl2.
  - intros off n Hn Ho Hd. rewrite Hf2 by lia. by apply Hf1; lia.
  - intros [| j] x Hj.
    + injection Hj as <-. change (take 1 (e :: es)) with [e]. rewrite payload_bytes_cons, payload_bytes_nil, Z.add_0_r, Z.add_0_r.
      rewrite !Hf2 by lia. done.
    + cbn in Hj. destruct (He2 j x Hj) as [E1 E2]. change (take (S (S j)) (e :: es)) with (e :: take (S j) es).
      rewrite payload_bytes_cons. replace (de - (len e + payload_bytes (take (S j) es))) with (de - len e - payload_bytes (take (S j) es)) by lia.
      split; [done |]. rewrite <- E2. f_equal. lia.
Qed.

(** The slots of a rebuilt node. *)
Definition rebuilt_slots (es : list bytes) : list (Z * Z) :=
  imap (fun j e => (PAGE_SIZE - payload_bytes (take (S j) es), len e)) es.

Lemma rebuilt_slot es (j : nat) e : es !! j = Some e ->
  rebuilt_slots es !! j = Some (PAGE_SIZE - payload_bytes (take (S j) es), len e).
Proof. intros Hj. unfold rebuilt_slots. rewrite list_lookup_imap, Hj. done. Qed.

Lemma sub_skipn {A} (b : list A) (k : nat) off n : (k <= length b)%nat -> 0 <= off -> sub (skipn k b) off n = sub b (Z.of_nat k + off) n.
Proof.
  intros Hk Ho. rewrite <- (take_drop k b) at 2.
  assert (Hl : len (take k b) = Z.of_nat k) by (unfold len; rewrite length_take; lia).
  by rewrite <- Hl, sub_app_r.
Qed.

Definition header_body (c : bytes) (kind : NodeType) (tail : option PageId) (es : list bytes) : bytes :=
  splice (splice (splice (splice c 0 [node_tag kind]) 1 (to_le 2 (len es))) 3 (to_le 2 (payload_bytes es))) 5 (tail_bytes tail).

Lemma header_body_spec c kind tail es : 9 <= len c ->
  let h := header_body c kind tail es in
  len h = len c /\ sub h 0 1 = Some [node_tag kind] /\ sub h 1 2 = Some (to_le 2 (len es))
  /\ sub h 3 2 = Some (to_le 2 (payload_bytes es)) /\ sub h 5 4 = Some (tail_bytes tail).
Proof.
  intros Hc h. unfold header_body in h.
  assert (Hx : len [node_tag kind] = 1) by done. assert (H2 : forall z, len (to_le 2 z) = 2) by (intros; by rewrite len_to_le).
  assert (H4 : len (tail_bytes tail) = 4) by (unfold tail_bytes; by rewrite len_to_le).
  set (b1 := splice c 0 [node_tag kind]) in *. assert (L1 : len b1 = len c) by (unfold b1; rewrite len_splice; lia).
  set (b2 := splice b1 1 (to_le 2 (len es))) in *. assert (L2 : len b2 = len c) by (unfold b2; rewrite len_splice; rewrite ?H2; lia).
  set (b3 := splice b2 3 (to_le 2 (payload_bytes es))) in *. assert (L3 : len b3 = len c) by (unfold b3; rewrite len_splice; rewrite ?H2; lia).
  unfold h. split_and!.
  - rewrite len_splice; lia.
  - rewrite sub_splice_ne by lia. unfold b3. rewrite sub_splice_ne by (rewrite ?H2; lia). unfold b2.
    rewrite sub_splice_ne by (rewrite ?H2; lia). unfold b1. apply sub_splice_at; lia.
  - rewrite sub_splice_ne by lia. unfold b3. rewrite sub_splice_ne by (rewrite ?H2; lia). unfold b2.
    apply sub_splice_at; rewrite ?H2; lia.
  - rewrite sub_splice_ne by lia. unfold b3. apply sub_splice_at; rewrite ?H2; lia.
  - apply sub_splice_at; lia.
Qed.

Lemma rebuilt_page c b kind tail es :
  len b = PAGE_SIZE -> len c = PAGE_SIZE - 12 -> node_size es <= PAGE_SIZE -> (forall p, tail = Some p -> page_range p) ->
  skipn 12 b = rebuilt_body c kind tail es -> node_holds b kind tail es.
Proof.
  intros Hb Hc Hfit Ht Hbody. unfold node_size in Hfit. rewrite total_size_eq in Hfit.
  pose proof (len_nonneg es). pose proof (payload_bytes_nonneg es).
  destruct (header_body_spec c kind tail es ltac:(node_lia)) as (Hl & Hh1 & Hh2 & Hh3 & Hh4).
  unfold rebuilt_body in Hbody. fold (header_body c kind tail es) in Hbody. set (h := header_body c kind tail es) in *.
  destruct (place_entries_spec es h 0 (len h) ltac:(lia) ltac:(rewrite Hl, Hc; node_lia) ltac:(lia)) as (_ & Hf & He).
  rewrite <- Hbody in Hf, He. rewrite Hl, Hc in Hf, He.
  assert (Hs : forall off n, 0 <= off -> sub b (12 + off) n = sub (skipn 12 b) off n).
  { intros off n Ho. rewrite sub_skipn; [done | unfold len, PAGE_SIZE in Hb; lia | done]. }
  assert (Hhd : forall off n, 0 <= off -> 0 <= n -> off + n <= 9 -> sub b (12 + off) n = sub h off n).
  { intros off n Ho Hn Hn9. rewrite Hs by done. apply Hf; [done | lia | left; node_lia]. }
  exists (rebuilt_slots es). split.
  - split; [done | node_lia | | |].
    + unfold rebuilt_slots, len. rewrite length_imap. fold (len es). lia.
    + apply Forall_lookup. intros j s Hj. unfold rebuilt_slots in Hj. rewrite list_lookup_imap in Hj.
      destruct (es !! j) as [e |] eqn:E; [| done]. cbn in Hj. injection Hj as <-. unfold in_data. cbn [fst snd].
      rewrite (take_S_r es j e E). rewrite payload_bytes_app, payload_bytes_cons, payload_bytes_nil.
      pose proof (payload_bytes_nonneg (take j es)). pose proof (len_nonneg e).
      assert (payload_bytes (take j es) + len e <= payload_bytes es); [| lia].
      rewrite <- (take_drop_middle es j e E) at 2. rewrite payload_bytes_app, payload_bytes_cons.
      pose proof (payload_bytes_nonneg (drop (S j) es)). lia.
    + intros j s Hj. unfold rebuilt_slots in Hj. rewrite list_lookup_imap in Hj.
      destruct (es !! j) as [e |] eqn:E; [| done]. cbn in Hj. injection Hj as <-.
      replace (HEADER_SIZE + SLOT_SIZE * Z.of_nat j) with (12 + (9 + 4 * (0 + Z.of_nat j))) by node_lia.
      rewrite Hs by lia. change SLOT_SIZE with 4. destruct (He j e E) as [_ ->]. do 3 f_equal. node_lia.
  - rewrite <- Hh1. by apply (Hhd 0 1).
  - rewrite <- Hh2. by apply (Hhd 1 2).
  - rewrite <- Hh3. by apply (Hhd 3 2).
  - rewrite <- Hh4. by apply (Hhd 5 4).
  - done.
  - apply Forall2_same_length_lookup. split; [unfold rebuilt_slots; by rewrite length_imap |].
    intros j s e Hj E. rewrite (rebuilt_slot es j e E) in Hj. injection Hj as <-. cbn [fst snd].
    destruct (He j e E) as [Hd _]. rewrite <- Hd. pose proof (len_nonneg e).
    assert (payload_bytes (take (S j) es) <= payload_bytes es).
    { rewrite <- (take_drop (S j) es) at 2. rewrite payload_bytes_app. pose proof (payload_bytes_nonneg (drop (S j) es)). lia. }
    rewrite <- Hs by node_lia. f_equal. node_lia.
Qed.

(** The runs of changed bytes: where the new body differs from the old one, it is inside a run. *)
Definition in_run (runs : list (Z * Z)) (i : Z) : Prop := exists s e, (s, e) ∈ runs /\ s <= i < e.

Record runs_upto (old new : bytes) (i : Z) (runs : list (Z * Z)) : Prop := {
  runs_valid : Forall (fun r => 0 <= r.1 < r.2 /\ r.2 <= i) runs;
  runs_cover : forall j, 0 <= j < i -> index old j <> index new j -> in_run runs j;
  runs_few : len runs <= i;
}.

Lemma run_end_spec old new fuel : forall i, i <= run_end old new i fuel <= i + Z.of_nat fuel.
Proof.
  induction fuel as [| fuel IH]; intros i; cbn [run_end]; [lia |].
  case_decide; [specialize (IH (i + 1)); lia | lia].
Qed.
Lemma run_end_gt old new i fuel : index old i <> index new i -> (0 < fuel)%nat ->
  i < run_end old new i fuel <= i + Z.of_nat fuel.
Proof.
  intros Hd Hf. destruct fuel as [| fuel]; [lia |]. cbn [run_end]. rewrite decide_True by done.
  pose proof (run_end_spec old new fuel (i + 1)). lia.
Qed.

Lemma push_run_upto old new i e runs : runs_upto old new i runs -> 0 <= i -> i < e -> runs_upto old new e (push_run runs i e).
Proof.
  intros [Hv Hc Hf] Hi He. unfold push_run, REBUILD_MERGE_GAP.
  assert (Hnew : forall rs, Forall (fun r => 0 <= r.1 < r.2 /\ r.2 <= i) rs -> Forall (fun r => 0 <= r.1 < r.2 /\ r.2 <= e) rs).
  { intros rs H. eapply Forall_impl; [exact H |]. cbn. intros. lia. }
  destruct runs as [| [s0 e0] rest].
  - split; [repeat constructor; cbn; lia | | unfold len; simpl; lia]. intros j Hj Hd.
    destruct (Z.ltb_spec j i) as [Hlt | Hge].
    + destruct (Hc j ltac:(lia) Hd) as (? & ? & Hin & _). by apply elem_of_nil in Hin.
    + exists i, e. split; [by left | lia].
  - inversion Hv as [| ? ? H0 Hr]; subst. cbn in H0. rewrite len_cons in Hf. destruct (Z.ltb_spec (i - e0) 16) as [Hg | Hg].
    + split; [constructor; [cbn; lia | by apply Hnew] | | rewrite len_cons; lia]. intros j Hj Hd.
      destruct (Z.ltb_spec j i) as [Hlt | Hge]; [| exists s0, e; split; [by left | lia]].
      destruct (Hc j ltac:(lia) Hd) as (s & e1 & Hin & Hr1). apply elem_of_cons in Hin as [[= -> ->] | Hin].
      * exists s0, e. split; [by left | lia].
      * exists s, e1. split; [by right | lia].
    + split; [constructor; [cbn; lia | by apply Hnew] | | rewrite !len_cons; lia]. intros j Hj Hd.
      destruct (Z.ltb_spec j i) as [Hlt | Hge]; [| exists i, e; split; [by left | lia]].
      destruct (Hc j ltac:(lia) Hd) as (s & e1 & Hin & Hr1). exists s, e1. split; [by right | done].
Qed.

Lemma run_loop_spec old new fuel : forall i runs, runs_upto old new i runs -> 0 <= i <= len old -> len old - i < Z.of_nat fuel ->
  runs_upto old new (len old) (run_loop old new fuel i runs).
Proof.
  induction fuel as [| fuel IH]; intros i runs Hr Hi Hf; [lia |]. cbn [run_loop].
  destruct (Z.ltb_spec i (len old)) as [Hlt | Hge]; [| by replace (len old) with i by lia].
  case_decide as Hd.
  - apply IH; [| lia | lia]. destruct Hr as [Hv Hc Hf1]. split; [| | lia].
    + eapply Forall_impl; [exact Hv |]. cbn. intros. lia.
    + intros j Hj Hne. apply Hc; [| done]. destruct (decide (j = i)) as [-> |]; [done | lia].
  - pose proof (run_end_gt old new i (Z.to_nat (len old - i)) Hd ltac:(lia)).
    apply IH; [apply push_run_upto; [done | lia | lia] | lia | lia].
Qed.

Lemma changed_byte_runs_spec old new :
  Forall (fun r => 0 <= r.1 < r.2 /\ r.2 <= len old) (changed_byte_runs old new)
  /\ (forall j, 0 <= j < len old -> index old j <> index new j -> in_run (changed_byte_runs old new) j)
  /\ len (changed_byte_runs old new) <= len old.
Proof.
  unfold changed_byte_runs. destruct (run_loop_spec old new (S (length old)) 0 []) as [Hv Hc Hf].
  - split; [done | intros; lia | done].
  - pose proof (len_nonneg old). lia.
  - unfold len. lia.
  - split_and!; [by apply Forall_reverse | | by rewrite len_reverse].
    intros j Hj Hd. destruct (Hc j Hj Hd) as (s & e & Hin & Hr). exists s, e. split; [by apply elem_of_reverse | done].
Qed.

(** Writing the runs of the new body over the old one gives the new body. *)
Fixpoint patch_runs (old new : bytes) (runs : list (Z * Z)) : bytes :=
  match runs with
  | [] => old
  | (s, e) :: runs => patch_runs (splice old s (default [] (sub new s (e - s)))) new runs
  end.

Lemma patch_runs_spec new runs : forall old, len old = len new -> Forall (fun r => 0 <= r.1 < r.2 /\ r.2 <= len new) runs ->
  (forall j, 0 <= j < len new -> index old j <> index new j -> in_run runs j) -> patch_runs old new runs = new.
Proof.
  induction runs as [| [s e] runs IH]; intros old Hl Hv Hc; cbn [patch_runs].
  - apply list_eq. intros i. destruct (decide (i < length new)%nat) as [Hi |].
    + destruct (decide (index old (Z.of_nat i) = index new (Z.of_nat i))) as [E | E].
      * unfold index in E. rewrite (proj2 (Z.leb_le 0 (Z.of_nat i))), Nat2Z.id in E by lia. done.
      * destruct (Hc (Z.of_nat i) ltac:(unfold len; lia) E) as (? & ? & Hin & _). by apply elem_of_nil in Hin.
    + unfold len in Hl. rewrite !lookup_ge_None_2 by lia. done.
  - inversion Hv as [| ? ? Hse Hv']; subst. cbn in Hse.
    destruct (sub new s (e - s)) as [x |] eqn:Ex; [| apply sub_None in Ex; lia].
    pose proof (sub_len _ _ _ _ Ex) as Hx. change (default [] (Some x)) with x.
    apply IH; [by rewrite len_splice by lia | done |]. intros j Hj Hd.
    assert (Hix : forall (l : bytes), index l j = l !! Z.to_nat j) by (intros; unfold index; by rewrite (proj2 (Z.leb_le 0 j)) by lia).
    rewrite !Hix in Hd. rewrite splice_lookup in Hd by lia. case_decide as Hin.
    + exfalso. apply Hd. rewrite (sub_lookup _ _ _ _ _ Ex) by lia. f_equal. lia.
    + destruct (Hc j Hj) as (s1 & e1 & Hin1 & Hr1); [by rewrite !Hix |].
      apply elem_of_cons in Hin1 as [[= -> ->] | Hin1]; [lia |]. by exists s1, e1.
Qed.
