(* ===== verification/BtreeWrites.v ===== *)
(** * Index nodes: the operations of [Node] in crates/storage/src/btree.rs

    What initialising a node, inserting an entry into it and rebuilding it do to the page behind a
    write guard, over any page store; and what dropping the guards a function owns does. *)
From S2P Require Import Prelude Text Value Common Errors Page Slots BtreeNode Btree BtreePage.

(** The pages [m] with page [p] changed to one with the body of [b]. *)
Definition patched (m0 : gmap PageId bytes) (p : PageId) (b : bytes) (m : gmap PageId bytes) : Prop :=
  exists b', m = <[p := b']> m0 /\ same_body b b'.
(** Page [p] at most has changed. *)
Definition touched (m0 : gmap PageId bytes) (p : PageId) (m : gmap PageId bytes) : Prop :=
  exists b, m = <[p := b]> m0.

Lemma patched_refl m p b : len b = PAGE_SIZE -> m !! p = Some b -> patched m p b m.
Proof. intros Hl Hb. exists b. split; [by rewrite insert_id | done]. Qed.
Lemma patched_touched m0 p b m : patched m0 p b m -> touched m0 p m.
Proof. intros (b' & -> & _). by exists b'. Qed.
Lemma patched_lookup m0 p b m : patched m0 p b m -> exists b', m !! p = Some b' /\ same_body b b'.
Proof. intros (b' & -> & H). exists b'. by rewrite lookup_insert_eq. Qed.
Lemma touched_ne m0 p m q : touched m0 p m -> q <> p -> m !! q = m0 !! q.
Proof. intros [b ->] Hq. by rewrite lookup_insert_ne. Qed.

Section writes.
Context {P : Type} `{!PageStore P, !PageStoreLaws P}.
Abbreviation E := Storage.Error.
Implicit Types (m : gmap PageId bytes).

(** ** Guards *)
Lemma triple_perm {A} n gs1 gs2 m (c : M P E A) n' gs' Q gsE1 gsE2 R :
  gs1 ≡ₚ gs2 -> gsE1 ≡ₚ gsE2 -> triple n gs1 m c n' gs' Q gsE1 R -> triple n gs2 m c n' gs' Q gsE2 R.
Proof.
  intros H1 H2 Hc s [Hs Hm]. specialize (Hc s (conj (store_ok_perm _ _ _ _ (symmetry H1) Hs) Hm)).
  destruct (c s) as [[a | e |] s']; [done | | done]. destruct Hc as (m' & [Hs' Hm'] & HR). exists m'.
  split; [| done]. split; [by eapply store_ok_perm | done].
Qed.
Lemma triple_perm_ok {A} n gs m (c : M P E A) n' (gs1 gs2 : A -> list PageGuard) Q gsE R :
  (forall a, gs1 a ≡ₚ gs2 a) -> triple n gs m c n' gs1 Q gsE R -> triple n gs m c n' gs2 Q gsE R.
Proof.
  intros H Hc s Hs. specialize (Hc s Hs). destruct (c s) as [[a | e |] s']; [| done | done].
  destruct Hc as (m' & [Hs' Hm'] & HQ). exists m'. split; [| done]. split; [eapply store_ok_perm; [apply H | done] | done].
Qed.

Lemma drop_guards_run n gs rest s : store_ok n (gs ++ rest) s ->
  exists s', drop_guards gs s = (Ok tt, s') /\ store_ok n rest s' /\ pages s' = pages s.
Proof.
  revert s. induction gs as [| g gs IH]; intros s Hs; cbn [drop_guards]; [by exists s |].
  destruct (drop_spec n (gs ++ rest) s g Hs) as (s1 & E1 & Hs1 & Hp1). unfold mbind, M_bind. rewrite E1.
  destruct (IH s1 Hs1) as (s2 & E2 & Hs2 & Hp2). exists s2. split_and!; [done | done | by rewrite Hp2].
Qed.
Lemma triple_drop_guards n gs rest m (R : gmap PageId bytes -> Prop) gsE :
  triple n (gs ++ rest) m (drop_guards gs) n (fun _ => rest) (fun _ m' => m' = m) gsE R.
Proof. intros s [Hs <-]. destruct (drop_guards_run n gs rest s Hs) as (s' & -> & Hs' & Hp). by exists (pages s'). Qed.
Lemma triple_drop_guard n g rest m (R : gmap PageId bytes -> Prop) gsE :
  triple n (g :: rest) m (drop_guard g) n (fun _ => rest) (fun _ m' => m' = m) gsE R.
Proof. intros s [Hs <-]. destruct (drop_spec n rest s g Hs) as (s' & -> & Hs' & Hp). by exists (pages s'). Qed.

Lemma triple_guarding {A} n gs m (c : M P E A) n' gs' Q owned rest R :
  triple n gs m c n' gs' Q (owned ++ rest) R -> triple n gs m (guarding owned c) n' gs' Q rest R.
Proof.
  intros Hc s Hs. specialize (Hc s Hs). unfold guarding. destruct (c s) as [[a | e |] s']; [done | | done].
  destruct Hc as (m' & [Hs' <-] & HR). destruct (drop_guards_run n' owned rest s' Hs') as (s2 & -> & Hs2 & Hp).
  by exists (pages s').
Qed.
Lemma keeps_guarding {A} n gs m (c : M P E A) n' Q R :
  keeps n gs m c n' Q R -> triple n gs m (guarding gs c) n' (fun _ => gs) Q [] R.
Proof. intros Hc. apply triple_guarding. by rewrite app_nil_r. Qed.

(** ** Reads and writes of the page behind a guard *)
Lemma keeps_read_body n gs m g b : g ∈ gs -> m !! guard_page_id g = Some b -> len b = PAGE_SIZE ->
  keeps n gs m (guard_page g) n (fun b' m' => m' = m /\ same_body b b') (fun _ => False).
Proof.
  intros Hg Hb Hl. eapply triple_mono; [by apply keeps_guard_page | | done].
  cbn. intros b' m' [-> Hc]. split; [done |]. rewrite Hb in Hc. injection Hc as ->.
  apply same_body_sym, same_body_checksum. by apply len_clear_checksum_inv.
Qed.

Lemma keeps_patch n gs m0 m t g b off new :
  g ∈ gs -> guard_mode g = WriteGuard -> patched m0 (guard_page_id g) b m -> 12 <= off -> off + len new <= PAGE_SIZE ->
  keeps (S n) gs m (guard_write t g off new) n (fun _ m' => patched m0 (guard_page_id g) (splice b off new) m')
    (fun m' => touched m0 (guard_page_id g) m').
Proof.
  intros Hg Hw Hp Ho Hn. pose proof (patched_touched _ _ _ _ Hp) as Ht. destruct (patched_lookup _ _ _ _ Hp) as (b1 & Hb1 & Hs).
  eapply triple_mono; [by apply (keeps_write n gs m t g b1 off new Hg Hw Hb1 Ho Hn) | | by intros m' ->].
  cbn. intros _ m' [lsn ->]. destruct Hp as (b2 & -> & _). rewrite insert_insert_eq. eexists. split; [done |].
  eapply same_body_trans; [apply same_body_splice; [exact Hs | lia | done] |]. apply same_body_lsn.
  rewrite len_splice; [apply Hs | lia |]. destruct Hs as (_ & -> & _). done.
Qed.

(** The same in front of what follows. *)
Lemma triple_read {A} n gs m g b (k : bytes -> M P E A) n' gs' Q gsE R :
  g ∈ gs -> m !! guard_page_id g = Some b -> len b = PAGE_SIZE ->
  (forall b', same_body b b' -> triple n gs m (k b') n' gs' Q gsE R) ->
  triple n gs m (b ← guard_page g; k b) n' gs' Q gsE R.
Proof.
  intros Hg Hb Hl Hk s Hs. pose proof (keeps_read_body n gs m g b Hg Hb Hl s Hs) as H. unfold mbind, M_bind.
  destruct (guard_page g s) as [[b' | e |] s']; [| by destruct H as (? & ? & []) | done].
  destruct H as (m' & Hs' & -> & Hb'). by apply (Hk b' Hb').
Qed.
Lemma triple_patch {A} n gs m0 m t g b off new (k : unit -> M P E A) n' gs' Q (R : _ -> Prop) :
  g ∈ gs -> guard_mode g = WriteGuard -> patched m0 (guard_page_id g) b m -> 12 <= off -> off + len new <= PAGE_SIZE ->
  (n' <= n)%nat -> (forall m', touched m0 (guard_page_id g) m' -> R m') ->
  (forall m', patched m0 (guard_page_id g) (splice b off new) m' -> triple n gs m' (k tt) n' gs' Q gs R) ->
  triple (S n) gs m (x ← guard_write t g off new; k x) n' gs' Q gs R.
Proof.
  intros Hg Hw Hp Ho Hn Hc HR Hk. eapply triple_bind; [| exact Hc |].
  - eapply triple_mono; [exact (keeps_patch n gs m0 m t g b off new Hg Hw Hp Ho Hn) | intros ? ? H; exact H | exact HR].
  - intros [] m1 H. by apply Hk.
Qed.
Lemma triple_pure {A B} n gs m (o : outcome E A) a (k : A -> M P E B) n' gs' Q gsE R :
  o = Ok a -> triple n gs m (k a) n' gs' Q gsE R -> triple n gs m (x ← lift o; k x) n' gs' Q gsE R.
Proof. intros -> H. exact H. Qed.

Lemma node_init_spec n gs m t g b kind tail :
  g ∈ gs -> guard_mode g = WriteGuard -> m !! guard_page_id g = Some b -> len b = PAGE_SIZE ->
  (forall p, tail = Some p -> page_range p) ->
  keeps (S n) gs m (node_init t g kind tail) n
    (fun _ m' => touched m (guard_page_id g) m' /\ exists b', m' !! guard_page_id g = Some b' /\ node_holds b' kind tail [])
    (fun m' => touched m (guard_page_id g) m').
Proof.
  intros Hg Hw Hb Hl Ht. eapply triple_mono; [| | intros m' H; exact H].
  - apply (keeps_patch n gs m m t g b); [done | done | by apply patched_refl | node_lia |].
    autorewrite with len. unfold tail_bytes. rewrite len_to_le. node_lia.
  - cbn. intros _ m' Hp. split; [by eapply patched_touched |]. destruct (patched_lookup _ _ _ _ Hp) as (b' & Hb' & Hs).
    exists b'. split; [done |]. eapply node_holds_body; [exact Hs |]. by apply node_init_page.
Qed.

Lemma splice_nil {A} (l : list A) off : 0 <= off <= len l -> splice l off [] = l.
Proof. intros H. unfold splice. cbn. rewrite Nat.add_0_r. apply take_drop. Qed.

(** Making room for slot [i]: the later slots move up by one. *)
Lemma shift_slots n gs m0 m t g b (es : list bytes) (i : nat) :
  g ∈ gs -> guard_mode g = WriteGuard -> patched m0 (guard_page_id g) b m -> (i <= length es)%nat ->
  slot_offset (len es) + SLOT_SIZE <= PAGE_SIZE ->
  keeps (S n) gs m
    (if Z.of_nat i <? len es then
       b ← guard_page g;
       shifted ← lift (or_panic (sub b (slot_offset (Z.of_nat i)) (slot_offset (len es) - slot_offset (Z.of_nat i))));
       guard_write t g (slot_offset (Z.of_nat i + 1)) shifted
     else mret tt) n
    (fun _ m' => exists shifted,
       sub b (slot_offset (Z.of_nat i)) (slot_offset (len es) - slot_offset (Z.of_nat i)) = Some shifted
       /\ patched m0 (guard_page_id g) (splice b (slot_offset (Z.of_nat i + 1)) shifted) m')
    (touched m0 (guard_page_id g)).
Proof.
  intros Hg Hw Hp Hi Hroom. pose proof (len_nonneg es). destruct (patched_lookup _ _ _ _ Hp) as (b1 & Hb1 & Hs).
  pose proof Hs as (Hl & Hl1 & _).
  destruct (sub b (slot_offset (Z.of_nat i)) (slot_offset (len es) - slot_offset (Z.of_nat i))) as [shifted |] eqn:E.
  2: { apply sub_None in E; [| unfold len in *; node_lia | unfold len in *; node_lia]. rewrite Hl in E. node_lia. }
  pose proof (sub_len _ _ _ _ E) as Hsl. destruct (Z.ltb_spec (Z.of_nat i) (len es)) as [Hlt | Hge].
  - apply (triple_read _ _ _ _ b1); [done | done | done |]. intros b2 Hs2.
    eapply triple_pure; [by rewrite <- (same_body_sub b1 b2), <- (same_body_sub b b1), E by (done || node_lia) |].
    eapply triple_mono; [apply (keeps_patch n gs m0 m t g b); try done; node_lia | | done].
    cbn. intros _ m' Hm'. by exists shifted.
  - apply triple_ret; [lia | done |]. exists shifted. split; [done |].
    assert (shifted = []) as -> by (apply len_zero_inv; unfold len in *; node_lia).
    rewrite splice_nil; [done |]. rewrite Hl. unfold len in *. node_lia.
Qed.

Lemma node_insert_at_spec n gs m t g b kind tail es (i : nat) payload :
  g ∈ gs -> guard_mode g = WriteGuard -> m !! guard_page_id g = Some b -> node_holds b kind tail es ->
  (i <= length es)%nat -> node_size es + SLOT_SIZE + len payload <= PAGE_SIZE ->
  keeps (4 + n) gs m (node_insert_at t g (Z.of_nat i) payload) n
    (fun _ m' => touched m (guard_page_id g) m'
       /\ exists b', m' !! guard_page_id g = Some b' /\ node_holds b' kind tail (take i es ++ payload :: drop i es))
    (touched m (guard_page_id g)).
Proof.
  intros Hg Hw Hb Hn Hi Hfit. pose proof (node_holds_len Hn) as Hl. pose proof Hfit as Hfit'. unfold node_size in Hfit'.
  rewrite total_size_eq in Hfit'. pose proof (len_nonneg es). pose proof (len_nonneg payload). pose proof (payload_bytes_nonneg es).
  assert (Hi' : Z.of_nat i <= len es) by (unfold len; lia).
  unfold node_insert_at. apply (triple_read _ _ _ _ b); [done | done | done |]. intros b0 Hs0.
  pose proof (node_holds_body _ _ _ _ _ Hs0 Hn) as Hn0.
  rewrite (slot_count_eq Hn0), (data_start_eq Hn0). set (data_at := PAGE_SIZE - payload_bytes es - len payload).
  assert (Hslot : len (to_le 2 data_at ++ to_le 2 (len payload)) = 4) by (by autorewrite with len).
  apply (triple_patch (3 + n) gs m m t g b); [done | done | by apply patched_refl | node_lia | node_lia | lia | done |].
  intros m1 Hm1. set (b1 := splice b data_at payload) in *.
  assert (Hl1 : len b1 = PAGE_SIZE) by (unfold b1; rewrite len_splice; rewrite ?Hl; node_lia).
  eapply (triple_bind _ _ _ _ _ (2 + n) (fun _ => gs)); [apply (shift_slots (2 + n) gs m m1 t g b1 es i); [done | done | done | done | node_lia] | lia |].
  cbn beta. intros _ m2 (shifted & Hsh & Hm2). pose proof (sub_len _ _ _ _ Hsh) as Hlsh.
  set (b2 := splice b1 (slot_offset (Z.of_nat i + 1)) shifted) in *.
  assert (Hl2 : len b2 = PAGE_SIZE) by (unfold b2; rewrite len_splice; rewrite ?Hl1, ?Hlsh; node_lia).
  apply (triple_patch (1 + n) gs m m2 t g b2); [done | done | done | node_lia | rewrite Hslot; node_lia | lia | done |].
  intros m3 Hm3. set (b3 := splice b2 (slot_offset (Z.of_nat i)) (to_le 2 data_at ++ to_le 2 (len payload))) in *.
  destruct (patched_lookup _ _ _ _ Hm3) as (b3' & Hb3 & Hs3).
  apply (triple_read _ _ _ _ b3'); [done | done | apply Hs3 |]. intros b4 Hs4.
  assert (Hused : data_used b4 = payload_bytes es).
  { destruct Hn as [slots Hn]. unfold data_used. rewrite (u16_at_sub b4 _ (to_le 2 (payload_bytes es))).
    - apply from_le_to_le_id. unfold in_u; simpl; node_lia.
    - rewrite <- (same_body_sub b3' b4), <- (same_body_sub b3 b3') by (done || node_lia). unfold b3.
      rewrite sub_splice_ne by (rewrite ?Hl2, ?Hslot; node_lia). unfold b2.
      rewrite sub_splice_ne by (rewrite ?Hl1, ?Hlsh; node_lia). unfold b1.
      rewrite sub_splice_ne by (rewrite ?Hl; node_lia). apply (np_used _ _ _ _ _ Hn). }
  rewrite Hused. eapply triple_mono; [apply (keeps_patch n gs m m3 t g b3); [done | done | done | node_lia | autorewrite with len; node_lia] | | done].
  cbn beta. intros _ m' Hm'. split; [by eapply patched_touched |]. destruct (patched_lookup _ _ _ _ Hm') as (b' & Hb' & Hs').
  exists b'. split; [done |]. eapply node_holds_body; [exact Hs' |]. destruct Hn as [slots Hn].
  exact (node_insert_page b kind tail slots es i payload shifted Hn Hi Hfit Hsh).
Qed.

Lemma skipn_splice {A} (b : list A) (k : nat) off new : 0 <= off -> Z.of_nat k + off + len new <= len b ->
  skipn k (splice b (Z.of_nat k + off) new) = splice (skipn k b) off new.
Proof.
  intros Ho Hl. assert (Hk : len (skipn k b) = len b - Z.of_nat k) by (pose proof (len_nonneg new); unfold len in *; rewrite length_drop; lia).
  apply list_eq. intros i. rewrite lookup_drop, !splice_lookup by lia.
  repeat case_decide; try lia; [f_equal; lia | by rewrite lookup_drop].
Qed.

Lemma write_runs_spec n gs m0 t g body runs : g ∈ gs -> guard_mode g = WriteGuard -> len body = PAGE_SIZE - 12 ->
  Forall (fun r => 0 <= r.1 < r.2 /\ r.2 <= len body) runs -> forall b m, patched m0 (guard_page_id g) b m ->
  keeps (length runs + n) gs m (write_runs t g body runs) n
    (fun _ m' => exists b', patched m0 (guard_page_id g) b' m' /\ skipn 12 b' = patch_runs (skipn 12 b) body runs)
    (touched m0 (guard_page_id g)).
Proof.
  intros Hg Hw Hl Hv. induction Hv as [| [s e] runs [Hse He] Hv IH]; intros b m Hp; cbn [write_runs length].
  - apply triple_ret; [lia | done |]. by exists b.
  - cbn in Hse, He. destruct (sub body s (e - s)) as [x |] eqn:Ex; [| apply sub_None in Ex; lia].
    pose proof (sub_len _ _ _ _ Ex) as Hx. eapply triple_pure; [done |].
    assert (Hlb : len b = PAGE_SIZE) by (by destruct Hp as (? & _ & ? & _)).
    apply (triple_patch (length runs + n) gs m0 m t g b); [done | done | done | node_lia | node_lia | lia | done |].
    intros m1 Hm1. eapply triple_mono; [exact (IH _ m1 Hm1) | | done]. cbn beta. intros _ m' (b' & Hb' & Hs).
    exists b'. split; [done |]. rewrite Hs. cbn [patch_runs]. rewrite Ex. change (default [] (Some x)) with x.
    f_equal. apply (skipn_splice b 12); [lia | rewrite Hlb; node_lia].
Qed.

(** The records one rebuild logs, at most. *)
Definition REBUILD_COST : nat := Z.to_nat PAGE_SIZE.

Lemma rebuilt_body_len c kind tail es : len c = PAGE_SIZE - 12 -> node_size es <= PAGE_SIZE ->
  len (rebuilt_body c kind tail es) = PAGE_SIZE - 12.
Proof.
  intros Hc Hfit. unfold node_size in Hfit. rewrite total_size_eq in Hfit. pose proof (len_nonneg es). pose proof (payload_bytes_nonneg es).
  destruct (header_body_spec c kind tail es ltac:(node_lia)) as (Hl & _).
  unfold rebuilt_body. fold (header_body c kind tail es). set (h := header_body c kind tail es) in *.
  destruct (place_entries_spec es h 0 (len h) ltac:(lia) ltac:(rewrite Hl, Hc; node_lia) ltac:(lia)) as (-> & _). lia.
Qed.

Lemma node_rebuild_spec n gs m t g b kind tail es :
  g ∈ gs -> guard_mode g = WriteGuard -> m !! guard_page_id g = Some b -> len b = PAGE_SIZE ->
  (forall p, tail = Some p -> page_range p) ->
  keeps (REBUILD_COST + n) gs m (node_rebuild t g kind tail es) n
    (fun _ m' => touched m (guard_page_id g) m' /\ exists b', m' !! guard_page_id g = Some b' /\ node_holds b' kind tail es)
    (touched m (guard_page_id g)).
Proof.
  intros Hg Hw Hb Hl Ht. pose proof (patched_refl _ _ _ Hl Hb) as Hp. unfold node_rebuild.
  apply (triple_read _ _ _ _ b); [done | done | done |]. intros b0 (_ & Hl0 & Hbody).
  change (Z.to_nat NODE_TYPE_AT) with 12%nat. rewrite <- Hbody. set (c := skipn 12 b).
  assert (Hc : len c = PAGE_SIZE - 12) by (unfold c, len, PAGE_SIZE in *; rewrite length_drop; lia).
  destruct (Z.ltb_spec (len c) (HEADER_SIZE - NODE_TYPE_AT + len es * SLOT_SIZE + payload_bytes es)) as [Hov | Hfit].
  { apply triple_throw; [lia | by eapply patched_touched]. }
  assert (Hsize : node_size es <= PAGE_SIZE) by (unfold node_size; rewrite total_size_eq; node_lia).
  pose proof (rebuilt_body_len c kind tail es Hc Hsize) as Hlb. set (body := rebuilt_body c kind tail es) in *.
  destruct (changed_byte_runs_spec c body) as (Hv & Hcov & Hfew).
  assert (Hrl : (length (changed_byte_runs c body) <= REBUILD_COST)%nat) by (unfold REBUILD_COST, len, PAGE_SIZE in *; lia).
  eapply (triple_credits (length (changed_byte_runs c body) + n) _ _ _ _ n); [| lia | lia].
  eapply triple_mono; [apply (write_runs_spec n gs m t g body _ Hg Hw Hlb); [by rewrite Hlb, <- Hc | exact Hp] | | done].
  cbn beta. intros _ m' (b' & Hb' & Hs). fold c in Hs. split; [by eapply patched_touched |].
  rewrite (patch_runs_spec body) in Hs; [| by rewrite Hc, Hlb | by rewrite Hlb, <- Hc | by rewrite Hlb, <- Hc].
  destruct (patched_lookup _ _ _ _ Hb') as (b2 & Hb2 & Hsame). exists b2. split; [done |].
  eapply node_holds_body; [exact Hsame |]. by apply (rebuilt_page c); [apply Hsame | ..].
Qed.
End writes.
