(* ===== verification/BtreeTree.v ===== *)
(** * B-trees as lists of levels

    The content of a tree of crates/storage/src/btree.rs, without its pages: the leaves from left to
    right, and above them the levels of internal nodes. Every node carries the separator in front of
    it (the empty string for the first one of a level); the separators and pages of a level are the
    keys and children stored in the level above it. *)
From stdpp Require Import sorting.
From S2P Require Import Prelude Text Value Common Errors Page Slots BtreeNode Btree BtreePage BtreeWrites.

(** ** Keys *)
Lemma key_le_spec a b : key_le a b = true <-> ble a b.
Proof. unfold key_le, ble. destruct (lex_compare a b); split; congruence. Qed.
Lemma key_lt_spec a b : key_lt a b = true <-> blt a b.
Proof. unfold key_lt, blt. destruct (lex_compare a b); split; congruence. Qed.
Lemma key_le_false a b : key_le a b = false <-> blt b a.
Proof. unfold key_le, blt. rewrite (lex_compare_antisym a b). destruct (lex_compare a b); cbn; split; congruence. Qed.
Lemma key_lt_false a b : key_lt a b = false <-> ble b a.
Proof. unfold key_lt, ble. rewrite (lex_compare_antisym a b). destruct (lex_compare a b); cbn; split; congruence. Qed.

(** How many of the keys come first: those up to [x], and those below [x]. *)
Definition ub (x : bytes) (ks : list bytes) : nat := partition_point (fun k => key_le k x) ks.
Definition lb (x : bytes) (ks : list bytes) : nat := partition_point (fun k => key_lt k x) ks.

Lemma partition_point_fmap {A B} (f : A -> B) q l : partition_point (fun x => q (f x)) l = partition_point q (f <$> l).
Proof. induction l as [| x l IH]; [done |]. cbn. by rewrite IH. Qed.

Lemma partition_point_app {A} (q : A -> bool) a b : Forall (fun x => q x = true) a -> Forall (fun x => q x = false) b ->
  partition_point q (a ++ b) = length a.
Proof.
  intros Ha Hb. induction Ha as [| x a Hx _ IH]; cbn; [| by rewrite Hx, IH].
  destruct Hb as [| y b Hy _]; [done |]. cbn. by rewrite Hy.
Qed.
Lemma partition_point_parted {A} (q : A -> bool) a b : Forall (fun x => q x = true) a -> Forall (fun x => q x = false) b ->
  parted q (a ++ b).
Proof.
  intros Ha Hb. unfold parted. rewrite (partition_point_app q a b Ha Hb).
  by rewrite take_app_length, drop_app_length.
Qed.

(** A sorted list is parted by every bound. *)
Lemma sorted_parted {A} (f : A -> bytes) (q : bytes -> bool) l :
  StronglySorted blt (f <$> l) -> (forall a b, blt a b -> q b = true -> q a = true) -> parted (fun x => q (f x)) l.
Proof.
  intros Hs Hq. induction l as [| x l IH]; [by split; constructor |]. cbn in Hs. apply StronglySorted_cons in Hs as [Hx Hs].
  destruct (IH Hs) as [H1 H2]. unfold parted. cbn. destruct (q (f x)) eqn:E; cbn; [split; [by constructor | done] |].
  split; [constructor |]. constructor; [done |]. apply Forall_forall. intros y Hy. destruct (q (f y)) eqn:Ey; [| done].
  rewrite <- E. symmetry. apply (Hq _ (f y)); [| done]. rewrite Forall_fmap, Forall_forall in Hx. by apply Hx.
Qed.
Lemma parted_le {A} (f : A -> bytes) x l : StronglySorted blt (f <$> l) -> parted (fun y => key_le (f y) x) l.
Proof.
  intros Hs. apply (sorted_parted f (fun k => key_le k x) l Hs). intros a b Hab Hb%key_le_spec.
  apply key_le_spec, blt_ble. by eapply blt_ble_trans.
Qed.
Lemma parted_lt {A} (f : A -> bytes) x l : StronglySorted blt (f <$> l) -> parted (fun y => key_lt (f y) x) l.
Proof.
  intros Hs. apply (sorted_parted f (fun k => key_lt k x) l Hs). intros a b Hab Hb%key_lt_spec.
  apply key_lt_spec. by eapply blt_trans.
Qed.

Lemma ub_app x a b : Forall (fun k => ble k x) a -> Forall (blt x) b -> ub x (a ++ b) = length a.
Proof.
  intros Ha Hb. apply partition_point_app.
  - eapply Forall_impl; [exact Ha |]. intros k. by apply key_le_spec.
  - eapply Forall_impl; [exact Hb |]. intros k. by apply key_le_false.
Qed.
Lemma ub_le x ks : (ub x ks <= length ks)%nat.
Proof. unfold ub. induction ks as [| k ks IH]; cbn; [lia |]. destruct (key_le k x); lia. Qed.
Lemma ub_split x ks : StronglySorted blt ks -> Forall (fun k => ble k x) (take (ub x ks) ks) /\ Forall (blt x) (drop (ub x ks) ks).
Proof.
  intros Hs. destruct (parted_le id x ks) as [H1 H2]; [by rewrite list_fmap_id |]. unfold ub. split.
  - eapply Forall_impl; [exact H1 |]. cbn. intros k. by apply key_le_spec.
  - eapply Forall_impl; [exact H2 |]. cbn. intros k. by apply key_le_false.
Qed.

Lemma sorted_insert {A} (R : relation A) a x b :
  StronglySorted R (a ++ b) -> Forall (fun y => R y x) a -> Forall (R x) b -> StronglySorted R (a ++ x :: b).
Proof.
  intros Hs Ha Hb. induction Ha as [| y a Hy Ha IH]; cbn in *; [by constructor |].
  apply StronglySorted_cons in Hs as [Hf Hs]. constructor; [by apply IH |].
  apply Forall_app in Hf as [Hf1 Hf2]. apply Forall_app. split; [done | by constructor].
Qed.
Lemma sorted_omap {A B} (R : relation A) (R' : relation B) (f : A -> option B) l :
  (forall x y a b, R x y -> f x = Some a -> f y = Some b -> R' a b) -> StronglySorted R l -> StronglySorted R' (omap f l).
Proof.
  intros HR Hs. induction Hs as [| x l Hs IH Hx]; cbn; [constructor |]. destruct (f x) as [a |] eqn:E; [| done].
  constructor; [done |]. apply Forall_forall. intros b Hb. apply list_elem_of_omap in Hb as (y & Hy & Ey).
  rewrite Forall_forall in Hx. by eapply HR; [apply Hx | |].
Qed.

(** ** Entries *)
Abbreviation entry := (bytes * Rid)%type.
Definition sort_key (e : entry) : bytes := e.1 ++ to_le 4 (page_id e.2) ++ to_le 2 (slot e.2).
Definition leaf_payload (e : entry) : bytes := build_leaf_payload e.1 e.2.
Definition inner_payload (e : bytes * PageId) : bytes := build_internal_payload e.1 e.2.

Definition entry_ok (e : entry) : Prop := len e.1 <= MAX_KEY_SIZE /\ in_u 32 (page_id e.2) /\ in_u 16 (slot e.2).
(** Separators are sort keys. *)
Definition MAX_SEPARATOR : Z := MAX_KEY_SIZE + RID_TRAILER_SIZE.
Definition child_ok (e : bytes * PageId) : Prop := len e.1 <= MAX_SEPARATOR /\ page_range e.2.

Lemma len_leaf_payload e : len (leaf_payload e) = len e.1 + 8.
Proof. unfold leaf_payload, build_leaf_payload. autorewrite with len. lia. Qed.
Lemma len_inner_payload e : len (inner_payload e) = len e.1 + 6.
Proof. unfold inner_payload, build_internal_payload. autorewrite with len. lia. Qed.
Lemma len_sort_key e : len (sort_key e) = len e.1 + 6.
Proof. unfold sort_key. autorewrite with len. lia. Qed.

(** A payload is a length, a key and a trailer. *)
Lemma payload_key_len key rest : len key < 2 ^ 16 -> key_len (to_le 2 (len key) ++ key ++ rest) = len key.
Proof.
  intros Hk. unfold key_len. rewrite (sub_app_prefix (to_le 2 (len key))) by (by rewrite len_to_le).
  apply from_le_to_le_id. pose proof (len_nonneg key). unfold in_u. change (8 * Z.of_nat 2) with 16. lia.
Qed.
Lemma payload_sub key rest off n : 0 <= off -> sub (to_le 2 (len key) ++ key ++ rest) (2 + off) n = sub (key ++ rest) off n.
Proof.
  intros Ho. replace 2 with (len (to_le 2 (len key))) at 2 by (by rewrite len_to_le). by apply sub_app_r.
Qed.
Lemma payload_entry_key key rest : len key < 2 ^ 16 -> entry_key (to_le 2 (len key) ++ key ++ rest) = key.
Proof.
  intros Hk. unfold entry_key, KEY_LEN_PREFIX. rewrite payload_key_len by done.
  pose proof (payload_sub key rest 0 (len key) ltac:(lia)) as Hs. rewrite Z.add_0_r in Hs. rewrite Hs. by rewrite sub_app_prefix.
Qed.
Lemma payload_read_len key rest : len key < 2 ^ 16 -> read_le 2 (to_le 2 (len key) ++ key ++ rest) 0 = Ok (len key).
Proof.
  intros Hk. unfold read_le. rewrite (sub_app_prefix (to_le 2 (len key))) by (by rewrite len_to_le). cbn.
  f_equal. apply from_le_to_le_id. pose proof (len_nonneg key). unfold in_u. change (8 * Z.of_nat 2) with 16. lia.
Qed.
Lemma payload_read key a x b n : len x = n ->
  read_le n (to_le 2 (len key) ++ key ++ a ++ x ++ b) (2 + len key + len a) = Ok (from_le x).
Proof.
  intros Hx. unfold read_le. pose proof (len_nonneg key). pose proof (len_nonneg a).
  rewrite <- Z.add_assoc, payload_sub by lia. rewrite sub_app_r by lia.
  pose proof (sub_app_mid a x b) as Hm. rewrite Hx in Hm. by rewrite Hm.
Qed.

Lemma leaf_payload_key e : entry_ok e -> entry_key (leaf_payload e) = e.1.
Proof. intros (Hk & _). apply payload_entry_key. change MAX_KEY_SIZE with 4059 in Hk. lia. Qed.
Lemma leaf_payload_sort_key e : entry_ok e -> leaf_sort_key (leaf_payload e) = sort_key e.
Proof.
  intros (Hk & _). unfold leaf_sort_key, leaf_payload, build_leaf_payload, KEY_LEN_PREFIX, RID_TRAILER_SIZE.
  assert (len e.1 < 2 ^ 16) by (change MAX_KEY_SIZE with 4059 in Hk; lia).
  rewrite payload_key_len by done.
  pose proof (payload_sub e.1 (to_le 4 (page_id e.2) ++ to_le 2 (slot e.2)) 0 (len e.1 + 6) ltac:(lia)) as Hs.
  rewrite Z.add_0_r in Hs. rewrite Hs. fold (sort_key e). pose proof (sub_all (sort_key e)) as Ha. rewrite len_sort_key in Ha. by rewrite Ha.
Qed.
Lemma leaf_payload_rid e : entry_ok e -> leaf_rid (leaf_payload e) = Ok e.2.
Proof.
  intros (Hk & Hp & Hs). unfold leaf_rid, leaf_payload, build_leaf_payload, KEY_LEN_PREFIX.
  assert (len e.1 < 2 ^ 16) by (change MAX_KEY_SIZE with 4059 in Hk; lia). rewrite payload_read_len by done. cbn [mbind outcome_bind].
  pose proof (payload_read e.1 [] (to_le 4 (page_id e.2)) (to_le 2 (slot e.2)) 4 ltac:(by rewrite len_to_le)) as H1.
  rewrite app_nil_l, len_nil, Z.add_0_r in H1. rewrite H1. cbn [mbind outcome_bind].
  pose proof (payload_read e.1 (to_le 4 (page_id e.2)) (to_le 2 (slot e.2)) [] 2 ltac:(by rewrite len_to_le)) as H2.
  rewrite app_nil_r, len_to_le in H2. change (Z.of_nat 4) with 4 in H2. rewrite H2. cbn [mbind outcome_bind].
  rewrite !from_le_to_le_id by done. by destruct e as [k [p s]].
Qed.
Lemma inner_payload_key e : child_ok e -> entry_key (inner_payload e) = e.1.
Proof. intros (Hk & _). apply payload_entry_key. change MAX_SEPARATOR with 4065 in Hk. lia. Qed.
Lemma inner_payload_child e : child_ok e -> internal_child (inner_payload e) = Ok e.2.
Proof.
  intros (Hk & Hp). unfold internal_child, inner_payload, build_internal_payload, KEY_LEN_PREFIX.
  assert (len e.1 < 2 ^ 16) by (change MAX_SEPARATOR with 4065 in Hk; lia).
  rewrite payload_read_len by done. cbn [mbind outcome_bind].
  pose proof (payload_read e.1 [] (to_le 4 e.2) [] 4 ltac:(by rewrite len_to_le)) as H1.
  rewrite app_nil_l, len_nil, Z.add_0_r, app_nil_r in H1. rewrite H1. f_equal. apply from_le_to_le_id.
  unfold page_range in Hp. unfold in_u. change (8 * Z.of_nat 4) with 32. lia.
Qed.

Lemma inner_payload_keys es : Forall child_ok es -> entry_key <$> (inner_payload <$> es) = es.*1.
Proof.
  intros H. rewrite <- list_fmap_compose. apply list_fmap_ext. intros i e He. cbn.
  apply inner_payload_key. by eapply Forall_lookup_1.
Qed.
Lemma leaf_payload_sort_keys es : Forall entry_ok es -> leaf_sort_key <$> (leaf_payload <$> es) = sort_key <$> es.
Proof.
  intros H. rewrite <- list_fmap_compose. apply list_fmap_ext. intros i e He. cbn.
  apply leaf_payload_sort_key. by eapply Forall_lookup_1.
Qed.

Lemma sort_key_inj e e' : entry_ok e -> entry_ok e' -> sort_key e = sort_key e' -> e = e'.
Proof.
  intros (_ & Hp & Hs) (_ & Hp' & Hs') E. unfold sort_key in E. rewrite !app_assoc in E.
  apply app_inj_2 in E as [E E2]; [| by rewrite !length_to_le].
  apply app_inj_2 in E as [E E1]; [| by rewrite !length_to_le].
  destruct e as [k [p s]], e' as [k' [p' s']]; cbn in *. subst k'.
  rewrite <- (from_le_to_le_id 4 p), <- (from_le_to_le_id 2 s), E1, E2 by done.
  by rewrite !from_le_to_le_id by done.
Qed.

(** ** Levels *)
Record leaf : Type := mkLeaf { leaf_sep : bytes; leaf_page : PageId; leaf_entries : list entry }.
Record inner : Type := mkInner {
  inner_sep : bytes;
  inner_page : PageId;
  inner_tail : PageId;
  inner_entries : list (bytes * PageId);
}.

Abbreviation spine := (list (bytes * PageId)).
Definition leaf_spine (ls : list leaf) : spine := (fun l => (leaf_sep l, leaf_page l)) <$> ls.
Definition inner_spine (ns : list inner) : spine := (fun n => (inner_sep n, inner_page n)) <$> ns.
Definition children (n : inner) : spine := (inner_sep n, inner_tail n) :: inner_entries n.
Definition all_children (ns : list inner) : spine := ns ≫= children.
Definition all_entries (ls : list leaf) : list entry := ls ≫= leaf_entries.

(** The levels above a level with the separators and pages [sp], up to the root. *)
Fixpoint linked (sp : spine) (lv : list (list inner)) (root : PageId) : Prop :=
  match lv with
  | [] => sp = [([], root)]
  | level :: lv => sp = all_children level /\ linked (inner_spine level) lv root
  end.

(** Separators and sort keys from left to right: separators bound what is right of them from below and
    what is left of them from above. *)
Inductive item : Type := Sep (k : bytes) | Ent (k : bytes).
Definition item_lt (x y : item) : Prop :=
  match x, y with
  | Sep a, Ent b => ble a b
  | Sep a, Sep b | Ent a, Sep b | Ent a, Ent b => blt a b
  end.
Definition leaf_items (l : leaf) : list item := Sep (leaf_sep l) :: ((fun e => Ent (sort_key e)) <$> leaf_entries l).
Definition items (ls : list leaf) : list item := ls ≫= leaf_items.

Lemma items_app ls ls' : items (ls ++ ls') = items ls ++ items ls'.
Proof. apply bind_app. Qed.
Lemma all_children_app ns ns' : all_children (ns ++ ns') = all_children ns ++ all_children ns'.
Proof. apply bind_app. Qed.
Lemma all_entries_app ls ls' : all_entries (ls ++ ls') = all_entries ls ++ all_entries ls'.
Proof. apply bind_app. Qed.
Lemma inner_spine_app ns ns' : inner_spine (ns ++ ns') = inner_spine ns ++ inner_spine ns'.
Proof. apply fmap_app. Qed.
Lemma leaf_spine_app ls ls' : leaf_spine (ls ++ ls') = leaf_spine ls ++ leaf_spine ls'.
Proof. apply fmap_app. Qed.

Lemma items_seps ls : omap (fun i => match i with Sep k => Some k | Ent _ => None end) (items ls) = (leaf_spine ls).*1.
Proof.
  induction ls as [| l ls IH]; [done |]. cbn. f_equal. rewrite omap_app. fold (items ls). rewrite IH.
  replace (omap _ _) with (@nil bytes); [done |]. induction (leaf_entries l); [done |]. cbn. done.
Qed.
Lemma items_entries ls : omap (fun i => match i with Ent k => Some k | Sep _ => None end) (items ls) = sort_key <$> all_entries ls.
Proof.
  induction ls as [| l ls IH]; [done |]. cbn. rewrite omap_app, fmap_app. fold (items ls) (all_entries ls). rewrite IH. f_equal.
  induction (leaf_entries l) as [| e es IHe]; [done |]. cbn. by rewrite IHe.
Qed.
Lemma items_sorted_seps ls : StronglySorted item_lt (items ls) -> StronglySorted blt (leaf_spine ls).*1.
Proof. intros Hs. rewrite <- items_seps. eapply sorted_omap; [| exact Hs]. intros [] [] ? ? H [= <-] [= <-]. exact H. Qed.
Lemma items_sorted_entries ls : StronglySorted item_lt (items ls) -> StronglySorted blt (sort_key <$> all_entries ls).
Proof. intros Hs. rewrite <- items_entries. eapply sorted_omap; [| exact Hs]. intros [] [] ? ? H [= <-] [= <-]. exact H. Qed.

(** The separators of a level are among those of the level below. *)
Lemma inner_spine_sublist ns : sublist (inner_spine ns).*1 (all_children ns).*1.
Proof.
  induction ns as [| n ns IH]; [done |]. cbn. constructor. rewrite fmap_app. fold (all_children ns).
  by apply sublist_inserts_l.
Qed.
Lemma sorted_sublist {A} (R : relation A) l k : sublist l k -> StronglySorted R k -> StronglySorted R l.
Proof.
  induction 1 as [| x l k Hl IH | x l k Hl IH]; intros Hs; [done | |]; apply StronglySorted_cons in Hs as [Hf Hs].
  - constructor; [by apply IH |]. rewrite Forall_forall in Hf |- *. intros y Hy. apply Hf.
    eapply elem_of_submseteq; [exact Hy | by apply sublist_submseteq].
  - by apply IH.
Qed.
Lemma linked_sorted sp level lv root : linked sp (level :: lv) root -> StronglySorted blt sp.*1 -> StronglySorted blt (inner_spine level).*1.
Proof. intros [-> _]. apply sorted_sublist, inner_spine_sublist. Qed.

Lemma linked_head sp lv root : linked sp lv root -> exists c rest, sp = ([], c) :: rest.
Proof.
  revert sp. induction lv as [| level lv IH]; intros sp; cbn [linked]; [intros ->; by eexists _, _ |].
  intros [-> Hl]. destruct (IH _ Hl) as (c & rest & E). destruct level as [| n level]; [done |].
  cbn in E. injection E as E1 _ _. cbn. rewrite E1. by eexists _, _.
Qed.

(** ** Where a key belongs *)
(** [kc] is the last one of [a ++ kc :: b] whose separator is at most [x]. *)
Definition covers (x : bytes) (kc : bytes * PageId) (b : spine) : Prop := ble kc.1 x /\ Forall (blt x) b.*1.

Lemma cover_exists x sp lv root : linked sp lv root -> StronglySorted blt sp.*1 ->
  exists a kc b, sp = a ++ kc :: b /\ covers x kc b.
Proof.
  intros Hl Hs. destruct (linked_head _ _ _ Hl) as (c0 & rest & ->). cbn in Hs.
  destruct (ub_split x ([] :: rest.*1) Hs) as [H1 H2]. change ([] :: rest.*1) with ((([], c0) :: rest).*1) in *.
  set (sp := ([], c0) :: rest) in *. set (n := ub x sp.*1) in *.
  assert (Hn : (0 < n)%nat). { unfold n, sp, ub. cbn. destruct x; cbn; lia. }
  pose proof (ub_le x sp.*1) as Hle. fold n in Hle. rewrite length_fmap in Hle.
  destruct (lookup_lt_is_Some_2 sp (n - 1)) as [kc Hkc]; [lia |].
  exists (take (n - 1) sp), kc, (drop n sp). split.
  - rewrite <- (take_drop_middle sp (n - 1) kc Hkc) at 1. by replace (S (n - 1)) with n by lia.
  - split; [| by rewrite fmap_drop]. apply (Forall_lookup_1 _ _ (n - 1)%nat kc.1 H1).
    rewrite lookup_take_lt by lia. by rewrite list_lookup_fmap, Hkc.
Qed.

(** The internal nodes above an element of a level, bottom up. *)
Inductive Path : spine -> bytes * PageId -> spine -> list (list inner) -> list inner -> Prop :=
| path_top kc : Path [] kc [] [] []
| path_node kc c1 c2 left n right lv ns :
    children n = c1 ++ kc :: c2 ->
    Path (inner_spine left) (inner_sep n, inner_page n) (inner_spine right) lv ns ->
    Path (all_children left ++ c1) kc (c2 ++ all_children right) ((left ++ n :: right) :: lv) (n :: ns).

Lemma all_children_split level a kc b : all_children level = a ++ kc :: b ->
  exists left n right c1 c2, level = left ++ n :: right /\ children n = c1 ++ kc :: c2
    /\ a = all_children left ++ c1 /\ b = c2 ++ all_children right.
Proof.
  revert a. induction level as [| n level IH]; intros a E; [by destruct a |].
  cbn [all_children mbind list_bind] in E. change (children n ++ all_children level = a ++ kc :: b) in E.
  apply app_eq_inv in E as [(k & E1 & E2) | (k & E1 & E2)].
  - destruct k as [| x k].
    + rewrite app_nil_l in E2. destruct (IH [] ltac:(by rewrite app_nil_l)) as (left & n' & right & c1 & c2 & -> & Hc & Ha & ->).
      exists (n :: left), n', right, c1, c2. split_and!; [done | done | | done].
      change (all_children (n :: left)) with (children n ++ all_children left). rewrite <- app_assoc, <- Ha, app_nil_r.
      by rewrite app_nil_r in E1.
    + injection E2 as <- E2. exists [], n, level, a, k. split_and!; [done | done | done | done].
  - destruct (IH k E2) as (left & n' & right & c1 & c2 & -> & Hc & -> & ->).
    exists (n :: left), n', right, c1, c2. split_and!; [done | done | | done]. rewrite E1.
    change (all_children (n :: left)) with (children n ++ all_children left). by rewrite app_assoc.
Qed.

Lemma linked_path sp a kc b lv root : linked sp lv root -> sp = a ++ kc :: b -> exists ns, Path a kc b lv ns.
Proof.
  revert sp a kc b. induction lv as [| level lv IH]; intros sp a kc b Hl ->; cbn [linked] in Hl.
  - destruct a as [| x a]; cbn in Hl; [| by destruct a]. injection Hl as -> ->. exists []. constructor.
  - destruct Hl as [Hc Hl]. symmetry in Hc. destruct (all_children_split _ _ _ _ Hc) as (left & n & right & c1 & c2 & -> & Hn & -> & ->).
    destruct (IH _ (inner_spine left) (inner_sep n, inner_page n) (inner_spine right) Hl) as [ns Hp].
    { by rewrite inner_spine_app. }
    exists (n :: ns). by constructor.
Qed.

Lemma sorted_above x (a : list bytes) k b : StronglySorted blt (a ++ k :: b) -> blt x k -> Forall (blt x) (k :: b).
Proof.
  intros Hs%StronglySorted_app_1_r Hx. apply StronglySorted_cons in Hs as [Hf _]. constructor; [done |].
  eapply Forall_impl; [exact Hf |]. intros y Hy. by eapply blt_trans.
Qed.

(** What covers a key covers it at the level above, and the search finds it. *)
Lemma path_covers x a kc b level lv n ns : Path a kc b (level :: lv) (n :: ns) -> StronglySorted blt (a ++ kc :: b).*1 -> covers x kc b ->
  exists left c1 c2 right, level = left ++ n :: right /\ children n = c1 ++ kc :: c2 /\ a = all_children left ++ c1
    /\ b = c2 ++ all_children right /\ Path (inner_spine left) (inner_sep n, inner_page n) (inner_spine right) lv ns
    /\ covers x (inner_sep n, inner_page n) (inner_spine right) /\ ub x (inner_entries n).*1 = length c1.
Proof.
  intros Hp Hs [Hle Hgt]. inversion Hp as [| ? c1 c2 left ? right ? ? Hn Hp']; subst.
  exists left, c1, c2, right. rewrite !fmap_app, fmap_cons, fmap_app in Hs. rewrite fmap_app in Hgt. apply Forall_app in Hgt as [Hg2 Hgr].
  assert (Hall : StronglySorted blt ((children n).*1)).
  { rewrite Hn, fmap_app, fmap_cons. rewrite <- app_assoc in Hs. apply StronglySorted_app_1_r in Hs.
    rewrite app_comm_cons, app_assoc in Hs. by apply StronglySorted_app_1_l in Hs. }
  assert (Hc1 : Forall (fun k => ble k x) (c1.*1 ++ [kc.1])).
  { apply Forall_app. split; [| by constructor]. rewrite Hn, fmap_app, fmap_cons in Hall. apply Forall_forall. intros k Hk.
    apply blt_ble. eapply blt_ble_trans; [| exact Hle]. eapply (StronglySorted_app_1_elem_of _ _ _ k kc.1 Hall); [done | left]. }
  split_and!; try done.
  - split; cbn [fst].
    + unfold children in Hn. destruct c1 as [| [k c] c1]; cbn in Hn; injection Hn as <- ?; [done |].
      cbn in Hc1. by inversion Hc1.
    + destruct right as [| r right]; [constructor |]. cbn in Hgr. inversion Hgr as [| ? ? Hr _]; subst.
      eapply (sorted_above x (inner_spine (left ++ [n])).*1); [| done].
      pose proof (inner_spine_sublist (left ++ n :: r :: right)) as Hsub.
      assert (Hss : StronglySorted blt (inner_spine (left ++ n :: r :: right)).*1).
      { eapply sorted_sublist; [exact Hsub |]. rewrite all_children_app. cbn [all_children mbind list_bind].
        fold (all_children right). change (StronglySorted blt (all_children left ++ children n ++ all_children (r :: right)).*1).
        rewrite Hn, !fmap_app, fmap_cons. rewrite <- !app_assoc in Hs |- *. exact Hs. }
      rewrite (app_assoc left [n] (r :: right) : left ++ n :: r :: right = (left ++ [n]) ++ r :: right) in Hss.
      by rewrite inner_spine_app, fmap_app in Hss.
  - unfold children in Hn. destruct c1 as [| kc1 c1]; cbn in Hn; injection Hn as <- E.
    + rewrite E. rewrite <- (app_nil_l c2.*1). by apply ub_app.
    + rewrite E, fmap_app, fmap_cons. cbn in Hc1. inversion Hc1 as [| ? ? _ Hc1']; subst.
      rewrite (app_assoc c1.*1 [kc.1] c2.*1 : c1.*1 ++ kc.1 :: c2.*1 = (c1.*1 ++ [kc.1]) ++ c2.*1).
      rewrite ub_app; [| done | done]. rewrite length_app, length_fmap. cbn. lia.
Qed.

(** ** Nodes in the page store: what storing an entry and splitting a node do to the pages *)
Record node : Type := mkNode {
  nd_page : PageId;
  nd_kind : NodeType;
  nd_tail : option PageId;
  nd_payloads : list bytes;
}.

Definition node_at (m : gmap PageId bytes) (p : PageId) (kind : NodeType) (tail : option PageId) (es : list bytes) : Prop :=
  exists b, m !! p = Some b /\ node_holds b kind tail es.
Definition node_in (m : gmap PageId bytes) (nd : node) : Prop :=
  page_range (nd_page nd) /\ node_at m (nd_page nd) (nd_kind nd) (nd_tail nd) (nd_payloads nd).
Definition nodes_rep (m : gmap PageId bytes) (ns : list node) : Prop := NoDup (nd_page <$> ns) /\ Forall (node_in m) ns.

Lemma same_outside_touched m p m' : touched m p m' -> same_outside [p] m m'.
Proof. intros H q b Hq Hn. rewrite (touched_ne m p m' q H); [done | set_solver]. Qed.
(** A page that was not there before. *)
Lemma same_outside_fresh m m1 p m' : m ⊆ m1 -> m !! p = None -> touched m1 p m' -> same_outside [] m m'.
Proof.
  intros Hs Hp Ht q b Hq _. rewrite (touched_ne m1 p m' q Ht) by congruence. by eapply lookup_weaken.
Qed.

Lemma node_in_same ps m m' nd : same_outside ps m m' -> nd_page nd ∉ ps -> node_in m nd -> node_in m' nd.
Proof. intros Hs Hn (Hr & b & Hb & H). split; [done |]. exists b. split; [by apply Hs | done]. Qed.
Lemma node_in_lookup m nd : node_in m nd -> is_Some (m !! nd_page nd).
Proof. intros (_ & b & Hb & _). by exists b. Qed.

Lemma nodes_rep_perm m ns ns' : ns ≡ₚ ns' -> nodes_rep m ns -> nodes_rep m ns'.
Proof. intros Hp [Hn Hf]. split; by rewrite <- Hp. Qed.
Lemma nodes_rep_fresh m ns p : nodes_rep m ns -> m !! p = None -> p ∉ nd_page <$> ns.
Proof.
  intros [_ Hf] Hp Hin. apply list_elem_of_fmap in Hin as (nd & -> & Hnd). rewrite Forall_forall in Hf.
  destruct (node_in_lookup m nd (Hf nd Hnd)). congruence.
Qed.
Lemma nodes_rep_update m m' nd nd' ns : nodes_rep m (nd :: ns) -> same_outside [nd_page nd] m m' -> node_in m' nd' ->
  nd_page nd' = nd_page nd -> nodes_rep m' (nd' :: ns).
Proof.
  intros [Hn Hf] Hs Hi Hp. cbn in Hn. apply NoDup_cons in Hn as [Hnin Hn]. inversion Hf as [| ? ? _ Hf']; subst. split.
  - cbn. rewrite Hp. by apply NoDup_cons.
  - constructor; [done |]. rewrite Forall_forall in Hf' |- *. intros x Hx. eapply node_in_same; [exact Hs | | by apply Hf'].
    intros Heq%list_elem_of_singleton. apply Hnin. rewrite <- Heq. by apply list_elem_of_fmap_2.
Qed.
Lemma nodes_rep_new m m' nd ns : nodes_rep m ns -> same_outside [] m m' -> m !! nd_page nd = None -> node_in m' nd ->
  nodes_rep m' (nd :: ns).
Proof.
  intros Hr Hs Hp Hi. pose proof (nodes_rep_fresh _ _ _ Hr Hp) as Hfr. destruct Hr as [Hn Hf]. split; [by apply NoDup_cons |].
  constructor; [done |]. eapply Forall_impl; [exact Hf |]. intros x. apply (node_in_same [] m m' x Hs). set_solver.
Qed.
(** A node split in two: the left half stays in its page. *)
Lemma nodes_rep_split m m' nd ndl ndr ns : nodes_rep m (nd :: ns) -> same_outside [nd_page nd] m m' ->
  nd_page ndl = nd_page nd -> m !! nd_page ndr = None -> node_in m' ndl -> node_in m' ndr -> nodes_rep m' (ndl :: ndr :: ns).
Proof.
  intros Hr Hs Hp Hnew Hl Hrr. pose proof (nodes_rep_fresh _ _ _ Hr Hnew) as Hfr.
  destruct (nodes_rep_update _ _ _ _ _ Hr Hs Hl Hp) as [Hn Hf]. inversion Hf as [| ? ? _ Hf']; subst. cbn in *.
  apply NoDup_cons in Hn as [Hn1 Hn2]. apply not_elem_of_cons in Hfr as [Hfr1 Hfr2].
  split; [| constructor; [exact Hl | constructor; [exact Hrr | exact Hf']]]. cbn. apply NoDup_cons. split.
  - apply not_elem_of_cons. split; [congruence | done].
  - by apply NoDup_cons.
Qed.

(** ** Steps of an insert *)
Definition node_key (kind : NodeType) : bytes -> bytes := match kind with Leaf => leaf_sort_key | Internal => entry_key end.
(** The entries with [payload] inserted where [key] belongs. *)
Definition with_entry (kind : NodeType) (key payload : bytes) (es : list bytes) : list bytes :=
  let i := ub key (node_key kind <$> es) in take i es ++ payload :: drop i es.

Lemma find_insert_index_eq b kind tail es key p : node_holds b kind tail es -> StronglySorted blt (node_key kind <$> es) ->
  find_insert_index b key p = Ok (Z.of_nat (ub key (node_key kind <$> es))).
Proof.
  intros Hn Hs. unfold find_insert_index. rewrite (node_type_eq Hn). unfold ub. rewrite <- partition_point_fmap.
  pose proof (parted_le (node_key kind) key es Hs) as Hp.
  destruct kind; [unfold upper_bound_leaf | unfold upper_bound]; by apply (search_page_eq p _ Hn).
Qed.

(** ** Where a full node is split *)
Lemma split_loop_range target running i es j : split_loop target running i es = Some j -> i <= j < i + len es.
Proof.
  revert running i. induction es as [| e es IH]; intros running i; cbn [split_loop]; [done |]. rewrite len_cons.
  destruct (_ <=? _); [intros [= ->]; pose proof (len_nonneg es); lia |]. intros H%IH. lia.
Qed.
Lemma split_point_range es : es <> [] -> 0 <= byte_balanced_split_point es < len es.
Proof.
  intros Hne. assert (0 < len es) by (destruct es; [done |]; rewrite len_cons; pose proof (len_nonneg es); lia).
  unfold byte_balanced_split_point. destruct (split_loop _ 0 0 es) as [j |] eqn:Ej; cbn; [| unfold id; lia].
  apply split_loop_range in Ej. unfold id. lia.
Qed.
Lemma leaf_split_point_eq es : 2 <= len es -> exists mid, leaf_split_point es = Ok mid /\ 1 <= mid <= len es - 1.
Proof.
  intros Hl. unfold leaf_split_point, clamp. destruct (Z.ltb_spec (len es - 1) 1); [lia |].
  eexists. split; [done |]. repeat case_match; lia.
Qed.
Lemma internal_split_point_eq es : es <> [] -> exists mid, internal_split_point es = Ok mid /\ 0 <= mid <= len es - 1.
Proof.
  intros Hne. pose proof (split_point_range es Hne) as Hr. unfold internal_split_point, clamp.
  destruct (Z.leb_spec 3 (len es)); [destruct (Z.ltb_spec (len es - 2) 1); [lia |] |];
    (eexists; split; [done |]; repeat case_match; lia).
Qed.

Section steps.
Context {P : Type} `{!PageStore P, !PageStoreLaws P}.
Abbreviation E := Storage.Error.
Implicit Types (m : gmap PageId bytes).

Lemma insert_if_fits_spec n gs m t g kind tail es key payload :
  g ∈ gs -> guard_mode g = WriteGuard -> node_at m (guard_page_id g) kind tail es -> StronglySorted blt (node_key kind <$> es) ->
  keeps (4 + n) gs m (insert_if_fits t g key payload) n
    (fun fitted m' => if fitted : bool
       then same_outside [guard_page_id g] m m' /\ node_at m' (guard_page_id g) kind tail (with_entry kind key payload es)
       else m' = m /\ PAGE_SIZE < node_size es + SLOT_SIZE + len payload)
    (same_outside [guard_page_id g] m).
Proof.
  intros Hg Hw (b & Hb & Hn) Hs. unfold insert_if_fits. apply (triple_read _ _ _ _ b); [done | done | by eapply node_holds_len |].
  intros b' Hb'. pose proof (node_holds_body _ _ _ _ _ Hb' Hn) as Hn'. rewrite (node_will_fit_eq _ Hn').
  destruct (Z.leb_spec (node_size es + SLOT_SIZE + len payload) PAGE_SIZE) as [Hfit | Hno]; [| apply triple_ret; [lia | done | done]].
  eapply triple_pure; [by apply (find_insert_index_eq b' kind tail es key) |].
  eapply triple_bind; [| apply Nat.le_refl |].
  - eapply triple_mono; [apply (node_insert_at_spec n gs m t g b kind tail es _ payload Hg Hw Hb Hn); [| done] | intros ? ? H; exact H |].
    + eapply Nat.le_trans; [apply ub_le | by rewrite length_fmap].
    + intros m'. apply same_outside_touched.
  - cbn beta. intros _ m' [Ht Hat]. apply triple_ret; [lia | done |]. split; [by apply same_outside_touched | done].
Qed.

(** A node in a new page. *)
Lemma triple_new_node {A} n gs m t kind tail es (k : PageGuard -> M P E A) n' gs' Q (R : _ -> Prop) :
  (forall p, tail = Some p -> page_range p) -> (n' <= n)%nat -> (forall m1, same_outside [] m m1 -> R m1) ->
  (forall g m1, page_range (guard_page_id g) -> m !! guard_page_id g = None -> same_outside [] m m1 ->
     node_at m1 (guard_page_id g) kind tail es -> triple n gs m1 (k g) n' gs' Q gs R) ->
  triple (S (REBUILD_COST + n)) gs m
    (g ← new_page t; _ ← with_guard g (node_rebuild t g kind tail es); k g) n' gs' Q gs R.
Proof.
  intros Ht Hn HR Hk. eapply triple_bind; [| | ].
  - eapply triple_mono; [apply (triple_new_page (REBUILD_COST + n)) | intros ? ? H; exact H |].
    cbn. intros m' Hm. apply HR. intros q b Hq _. by eapply lookup_weaken.
  - lia.
  - cbn beta. intros g m1 (Hw & Hr & Hnew & Hz & Hsub).
    assert (Hlz : len zero_page = PAGE_SIZE) by (unfold zero_page; by rewrite len_replicate).
    eapply (triple_bind _ _ _ _ _ n (fun _ => gs)); [| done |].
    + apply triple_with_guard. eapply triple_mono;
        [apply (node_rebuild_spec n (g :: gs) m1 t g zero_page kind tail es); [left | done | done | done | done] | intros ? ? H; exact H |].
      intros m' Hm. apply HR. by eapply same_outside_fresh.
    + cbn beta. intros _ m2 [Htouch Hat]. apply Hk; [done | done | by eapply same_outside_fresh | done].
Qed.
Lemma split_leaf_spec n gs m t g tail es key payload :
  g ∈ gs -> guard_mode g = WriteGuard -> node_at m (guard_page_id g) Leaf tail es -> StronglySorted blt (leaf_sort_key <$> es) ->
  es <> [] ->
  keeps (S (REBUILD_COST + (REBUILD_COST + n))) gs m (split_leaf t g key payload) n
    (fun r m' => exists left first right, with_entry Leaf key payload es = left ++ first :: right /\ left <> []
       /\ r.1 = leaf_sort_key first /\ page_range r.2 /\ m !! r.2 = None /\ same_outside [guard_page_id g] m m'
       /\ node_at m' (guard_page_id g) Leaf (Some r.2) left /\ node_at m' r.2 Leaf tail (first :: right))
    (same_outside [guard_page_id g] m).
Proof.
  intros Hg Hw (b & Hb & Hn) Hs Hne. unfold split_leaf. apply (triple_read _ _ _ _ b); [done | done | by eapply node_holds_len |].
  intros b' Hb'. pose proof (node_holds_body _ _ _ _ _ Hb' Hn) as Hn'.
  eapply triple_pure; [by apply (read_entries_eq (guard_page_id g) Hn') |]. cbn beta iota.
  assert (Ei : insert_payload (upper_bound_in_leaf es key) payload es = with_entry Leaf key payload es).
  { unfold insert_payload, with_entry, upper_bound_in_leaf, ub. by rewrite <- partition_point_fmap. }
  rewrite Ei. set (es' := with_entry Leaf key payload es) in *.
  assert (Hlen : 2 <= len es').
  { unfold es', with_entry. set (i := ub _ _). unfold len. rewrite length_app. cbn [length]. rewrite Nat.add_succ_r, <- length_app, take_drop.
    destruct es; [done |]. cbn [length]. lia. }
  destruct (leaf_split_point_eq es' Hlen) as (mid & Emid & Hmid). eapply triple_pure; [exact Emid |].
  destruct (skipn (Z.to_nat mid) es') as [| first right] eqn:Er.
  { apply (f_equal length) in Er. rewrite length_drop in Er. cbn in Er. unfold len in *. lia. }
  apply triple_new_node; [apply (node_tail_range Hn') | lia | |].
  { intros m1 H1. eapply same_outside_mono; [exact H1 | set_solver]. }
  intros g' m1 Hr Hnew Hs1 Hat. assert (Hgg : guard_page_id g <> guard_page_id g') by congruence.
  assert (Hs1' : same_outside [guard_page_id g] m m1) by (eapply same_outside_mono; [exact Hs1 | set_solver]).
  assert (Hb1 : m1 !! guard_page_id g = Some b) by (apply Hs1; [done | set_solver]).
  eapply (triple_bind _ _ _ _ _ n (fun _ => gs)); [| lia |].
  - eapply triple_mono; [apply (node_rebuild_spec n gs m1 t g b Leaf (Some (guard_page_id g')) (firstn (Z.to_nat mid) es'));
      [done | done | done | by eapply node_holds_len | by intros ? [= <-]] | intros ? ? H; exact H |].
    intros m2 H2. eapply same_outside_trans; [exact Hs1' | by apply same_outside_touched].
  - cbn beta. intros _ m2 [Ht2 Hat2]. cbn [head or_panic]. eapply triple_pure; [done |]. apply triple_ret; [lia | done |].
    exists (firstn (Z.to_nat mid) es'), first, right. cbn [fst snd]. split_and!; try done.
    + by rewrite <- Er, take_drop.
    + intros E%(f_equal length). rewrite length_take in E. cbn in E. unfold len in *. lia.
    + eapply same_outside_trans; [exact Hs1' | by apply same_outside_touched].
    + destruct Hat as (b1 & Hb1' & Hh1). exists b1. split; [| done]. by rewrite (touched_ne _ _ _ _ Ht2).
Qed.

Lemma split_internal_spec n gs m t g tail es key payload :
  g ∈ gs -> guard_mode g = WriteGuard -> node_at m (guard_page_id g) Internal (Some tail) es ->
  (forall e, e ∈ with_entry Internal key payload es -> exists c, internal_child e = Ok c /\ page_range c) ->
  keeps (S (REBUILD_COST + (REBUILD_COST + n))) gs m (split_internal t g key payload) n
    (fun r m' => exists left e c right, with_entry Internal key payload es = left ++ e :: right
       /\ r.1 = entry_key e /\ internal_child e = Ok c /\ page_range r.2 /\ m !! r.2 = None /\ same_outside [guard_page_id g] m m'
       /\ node_at m' (guard_page_id g) Internal (Some tail) left /\ node_at m' r.2 Internal (Some c) right)
    (same_outside [guard_page_id g] m).
Proof.
  intros Hg Hw (b & Hb & Hn) Hc. unfold split_internal. apply (triple_read _ _ _ _ b); [done | done | by eapply node_holds_len |].
  intros b' Hb'. pose proof (node_holds_body _ _ _ _ _ Hb' Hn) as Hn'.
  eapply triple_pure; [by apply (read_entries_eq (guard_page_id g) Hn') |]. cbn beta iota.
  eapply triple_pure; [done |]. cbn beta.
  assert (Ei : insert_payload (upper_bound_in es key) payload es = with_entry Internal key payload es).
  { unfold insert_payload, with_entry, upper_bound_in, ub. by rewrite <- partition_point_fmap. }
  rewrite Ei. set (es' := with_entry Internal key payload es) in *.
  assert (Hne : es' <> []) by (unfold es', with_entry; by destruct (take _ _)).
  destruct (internal_split_point_eq es' Hne) as (mid & Emid & Hmid). eapply triple_pure; [exact Emid |]. cbn beta.
  destruct (lookup_lt_is_Some_2 es' (Z.to_nat mid)) as [e He]; [unfold len in *; lia |].
  eapply triple_pure; [unfold index; destruct (Z.leb_spec 0 mid); [| lia]; by rewrite He |]. cbn beta.
  destruct (Hc e (list_elem_of_lookup_2 _ _ _ He)) as (c & Ec & Hcr). eapply triple_pure; [exact Ec |]. cbn beta.
  apply triple_new_node; [by intros ? [= <-] | lia | |].
  { intros m1 H1. eapply same_outside_mono; [exact H1 | set_solver]. }
  intros g' m1 Hr Hnew Hs1 Hat. assert (Hgg : guard_page_id g <> guard_page_id g') by congruence.
  assert (Hs1' : same_outside [guard_page_id g] m m1) by (eapply same_outside_mono; [exact Hs1 | set_solver]).
  assert (Hb1 : m1 !! guard_page_id g = Some b) by (apply Hs1; [done | set_solver]).
  eapply (triple_bind _ _ _ _ _ n (fun _ => gs)); [| lia |].
  - eapply triple_mono; [apply (node_rebuild_spec n gs m1 t g b Internal (Some tail) (firstn (Z.to_nat mid) es'));
      [done | done | done | by eapply node_holds_len | apply (node_tail_range Hn')] | intros ? ? H; exact H |].
    intros m2 H2. eapply same_outside_trans; [exact Hs1' | by apply same_outside_touched].
  - cbn beta. intros _ m2 [Ht2 Hat2]. apply triple_ret; [lia | done |].
    exists (firstn (Z.to_nat mid) es'), e, c, (skipn (S (Z.to_nat mid)) es'). cbn [fst snd]. split_and!; try done.
    + by rewrite take_drop_middle.
    + eapply same_outside_trans; [exact Hs1' | by apply same_outside_touched].
    + destruct Hat as (b1 & Hb1' & Hh1). exists b1. split; [| done]. by rewrite (touched_ne _ _ _ _ Ht2).
Qed.
End steps.
