(* ===== verification/BtreeSpec.v ===== *)
(** * Inserting into the B-tree

    [btree_ok]: the pages of a store hold a B-tree, with its leaves and its levels of internal nodes.
    A descent latches the path to the leaf a key belongs to, and an insert gives a tree with one more
    entry: splits move separators up, and pages outside the tree are left alone. *)
From stdpp Require Import sorting.
From S2P Require Import Prelude Text Value Common Errors Page Slots BtreeNode Btree BtreePage BtreeWrites BtreeTree.

(** ** The tree in the store *)
Definition first_page (ls : list leaf) (next : option PageId) : option PageId :=
  match ls with [] => next | l :: _ => Some (leaf_page l) end.
Definition leaf_node (l : leaf) (next : option PageId) : node :=
  mkNode (leaf_page l) Leaf next (leaf_payload <$> leaf_entries l).
(** The leaves, each with a pointer to the next. *)
Fixpoint leaf_nodes (ls : list leaf) (next : option PageId) : list node :=
  match ls with
  | [] => []
  | l :: ls => leaf_node l (first_page ls next) :: leaf_nodes ls next
  end.
Definition inner_node (n : inner) : node :=
  mkNode (inner_page n) Internal (Some (inner_tail n)) (inner_payload <$> inner_entries n).
Definition inner_nodes (lv : list (list inner)) : list node := inner_node <$> mjoin lv.
Definition tree_pages (ls : list leaf) (lv : list (list inner)) : list PageId := (leaf_page <$> ls) ++ (inner_page <$> mjoin lv).

Record btree_ok (m : gmap PageId bytes) (root : PageId) (ls : list leaf) (lv : list (list inner)) : Prop := {
  bt_nodes : nodes_rep m (leaf_nodes ls None ++ inner_nodes lv);
  bt_linked : linked (leaf_spine ls) lv root;
  bt_sorted : StronglySorted item_lt (items ls);
  bt_entries : Forall entry_ok (all_entries ls);
  bt_seps : Forall (fun k => len k <= MAX_SEPARATOR) (leaf_spine ls).*1;
}.

Lemma leaf_nodes_app A B next : leaf_nodes (A ++ B) next = leaf_nodes A (first_page B next) ++ leaf_nodes B next.
Proof. induction A as [| l A IH]; [done |]. cbn. rewrite IH. by destruct A. Qed.
Lemma leaf_nodes_pages ls next : nd_page <$> leaf_nodes ls next = leaf_page <$> ls.
Proof. induction ls as [| l ls IH]; [done |]. cbn. by rewrite IH. Qed.
Lemma inner_nodes_pages lv : nd_page <$> inner_nodes lv = inner_page <$> mjoin lv.
Proof. unfold inner_nodes. by rewrite <- list_fmap_compose. Qed.
Lemma inner_nodes_cons level lv : inner_nodes (level :: lv) = (inner_node <$> level) ++ inner_nodes lv.
Proof. unfold inner_nodes. cbn. by rewrite fmap_app. Qed.

Lemma nodes_rep_elem m ns nd : nodes_rep m ns -> nd ∈ ns -> node_in m nd.
Proof. intros [_ Hf] Hn. rewrite Forall_forall in Hf. by apply Hf. Qed.
Lemma nodes_rep_apart m ns1 ns2 n1 n2 : nodes_rep m (ns1 ++ ns2) -> n1 ∈ ns1 -> n2 ∈ ns2 -> nd_page n1 <> nd_page n2.
Proof.
  intros [Hn _] H1 H2 E. rewrite fmap_app in Hn. apply NoDup_app in Hn as (_ & Hd & _).
  apply (Hd (nd_page n1)); [by apply list_elem_of_fmap_2 |]. rewrite E. by apply list_elem_of_fmap_2.
Qed.

(** Separators and pages of a level that the one below has. *)
Lemma inner_spine_ok m ns level : Forall child_ok (all_children level) -> nodes_rep m ns -> (forall n, n ∈ level -> inner_node n ∈ ns) ->
  Forall child_ok (inner_spine level).
Proof.
  intros Hc Hr Hin. unfold inner_spine. apply Forall_fmap, Forall_forall. intros n Hn. split.
  - rewrite Forall_forall in Hc. apply (Hc (inner_sep n, inner_tail n)). unfold all_children. apply list_elem_of_bind.
    exists n. split; [left | done].
  - apply (nodes_rep_elem m ns (inner_node n) Hr (Hin n Hn)).
Qed.
Lemma children_ok level n : Forall child_ok (all_children level) -> n ∈ level -> Forall child_ok (children n).
Proof.
  intros Hc Hn. rewrite Forall_forall in Hc |- *. intros e He. apply Hc, list_elem_of_bind. by exists n.
Qed.

Lemma path_nodes a kc b lv ns : Path a kc b lv ns -> Forall (fun n => n ∈ mjoin lv) ns.
Proof.
  induction 1 as [| kc c1 c2 left n right lv ns Hn Hp IH]; [constructor |]. constructor.
  - cbn. set_solver.
  - eapply Forall_impl; [exact IH |]. intros x Hx. cbn. set_solver.
Qed.

(** ** The child a key belongs to *)
Lemma child_for_key_eq b n p x c1 kc c2 : node_holds b Internal (Some (inner_tail n)) (inner_payload <$> inner_entries n) ->
  Forall child_ok (children n) -> StronglySorted blt (inner_entries n).*1 -> children n = c1 ++ kc :: c2 ->
  ub x (inner_entries n).*1 = length c1 -> child_for_key b x p = Ok kc.2.
Proof.
  intros Hb Hc Hs Hn Hu. inversion Hc as [| ? ? _ Hes]; subst. unfold child_for_key, upper_bound.
  rewrite (search_page_eq p (fun e => key_le (entry_key e) x) Hb).
  2:{ apply parted_le. by rewrite inner_payload_keys. }
  rewrite (partition_point_fmap entry_key (fun k => key_le k x)), inner_payload_keys by done. fold (ub x (inner_entries n).*1). rewrite Hu.
  cbn [mbind outcome_bind]. unfold children in Hn. destruct c1 as [| k1 c1]; cbn in Hn; injection Hn as Hk1 E.
  - cbn. rewrite (tail_raw_eq Hb). cbn. by rewrite <- Hk1.
  - assert (Hkc : inner_entries n !! length c1 = Some kc) by (rewrite E; by apply list_lookup_middle).
    destruct (Z.eqb_spec (Z.of_nat (length (k1 :: c1))) 0) as [E0 | _]; [cbn in E0; lia |].
    replace (Z.of_nat (length (k1 :: c1)) - 1) with (Z.of_nat (length c1)) by (cbn [length]; lia).
    rewrite (entry_payload_eq p (length c1) (inner_payload kc) Hb) by (by rewrite list_lookup_fmap, Hkc).
    cbn [mbind outcome_bind]. apply inner_payload_child, (Forall_lookup_1 _ _ _ _ Hes Hkc).
Qed.

(** A level and what is above it. *)
Record spine_ok (m : gmap PageId bytes) (lower : list node) (sp : list (bytes * PageId)) (lv : list (list inner)) (root : PageId) : Prop := {
  so_linked : linked sp lv root;
  so_sorted : StronglySorted blt sp.*1;
  so_ok : Forall child_ok sp;
  so_nodes : nodes_rep m (lower ++ inner_nodes lv);
}.

Lemma inner_node_elem lower level lv n : n ∈ level -> inner_node n ∈ lower ++ inner_nodes (level :: lv).
Proof. intros Hn. rewrite inner_nodes_cons, !elem_of_app. right. left. by apply list_elem_of_fmap_2. Qed.

Lemma spine_up m lower sp level lv root : spine_ok m lower sp (level :: lv) root ->
  spine_ok m (lower ++ (inner_node <$> level)) (inner_spine level) lv root.
Proof.
  intros [Hl Hs Ho Hr]. pose proof (linked_sorted _ _ _ _ Hl Hs) as Hs'. destruct Hl as [-> Hl]. split; [done | done | |].
  - eapply inner_spine_ok; [done | exact Hr |]. intros n. apply inner_node_elem.
  - by rewrite inner_nodes_cons, app_assoc in Hr.
Qed.

Lemma spine_step m lower a kc b level lv root x : spine_ok m lower (a ++ kc :: b) (level :: lv) root -> covers x kc b ->
  exists left n right, level = left ++ n :: right /\ covers x (inner_sep n, inner_page n) (inner_spine right)
    /\ node_in m (inner_node n)
    /\ (forall ns, Path (inner_spine left) (inner_sep n, inner_page n) (inner_spine right) lv ns -> Path a kc b (level :: lv) (n :: ns))
    /\ (forall b', node_holds b' Internal (Some (inner_tail n)) (inner_payload <$> inner_entries n) ->
         child_for_key b' x (inner_page n) = Ok kc.2).
Proof.
  intros [Hl Hs Ho Hr] Hc. destruct (linked_path _ a kc b _ _ Hl eq_refl) as [ns0 Hp0].
  destruct ns0 as [| n ns0]; [by inversion Hp0 |].
  destruct (path_covers x _ _ _ _ _ _ _ Hp0 Hs Hc) as (left & c1 & c2 & right & -> & Hn & -> & -> & _ & Hc' & Hu).
  assert (Hin : n ∈ left ++ n :: right) by set_solver. destruct Hl as [Ec Hl]. rewrite Ec in Hs, Ho.
  exists left, n, right. split_and!; [done | done | | |].
  - eapply nodes_rep_elem; [exact Hr |]. by apply inner_node_elem.
  - intros ns Hp. by constructor.
  - intros b' Hb. eapply child_for_key_eq; [exact Hb | by eapply children_ok | | exact Hn | exact Hu].
    rewrite all_children_app, fmap_app in Hs. apply StronglySorted_app_1_r in Hs.
    change (all_children (n :: right)) with (children n ++ all_children right) in Hs. rewrite fmap_app in Hs.
    apply StronglySorted_app_1_l in Hs. unfold children in Hs. cbn in Hs. by apply StronglySorted_cons in Hs as [_ Hs].
Qed.

(** ** Latches on the way down *)

(** A node that takes another separator without a split, whatever its length. *)
Definition safe (n : inner) : Prop :=
  node_size (inner_payload <$> inner_entries n) + SLOT_SIZE + MAX_INTERNAL_PUSH_UP_SIZE <= PAGE_SIZE.
Definition latches (g : PageGuard) (n : inner) : Prop := guard_page_id g = inner_page n /\ guard_mode g = WriteGuard.
(** The guards an insert still holds on the nodes of the path: all of it, or up to a safe node. *)
Inductive retained : list inner -> list PageGuard -> Prop :=
| retained_top : retained [] []
| retained_safe n ns g : latches g n -> safe n -> retained (n :: ns) [g]
| retained_cons n ns g gs : latches g n -> retained ns gs -> retained (n :: ns) (g :: gs).

Lemma retained_pages ns gs : retained ns gs -> forall p, p ∈ guard_page_id <$> gs -> p ∈ inner_page <$> ns.
Proof.
  induction 1 as [| n ns g [Hg _] _ | n ns g gs [Hg _] _ IH]; intros p Hp; [done | |]; cbn in *; set_solver.
Qed.

(** Pages of the path above differ from the pages of the level and below. *)
Lemma path_apart m lower a kc b lv ns p : nodes_rep m (lower ++ inner_nodes lv) -> Path a kc b lv ns ->
  p ∈ nd_page <$> lower -> p ∉ inner_page <$> ns.
Proof.
  intros Hr Hp Hlow Hin. apply list_elem_of_fmap in Hlow as (nd & -> & Hnd), Hin as (n & E & Hn).
  pose proof (path_nodes _ _ _ _ _ Hp) as Hf. rewrite Forall_forall in Hf.
  apply (nodes_rep_apart m lower (inner_nodes lv) nd (inner_node n) Hr Hnd); [| done].
  unfold inner_nodes. by apply list_elem_of_fmap_2, Hf.
Qed.

Section descents.
Context {P : Type} `{!PageStore P, !PageStoreLaws P}.
Abbreviation E := Storage.Error.
Implicit Types (m : gmap PageId bytes).

(** Latching one more page; on an error the guards held so far are dropped. *)
Lemma triple_latch {A} mode n held m p (k : PageGuard -> M P E A) n' gs' Q (R : _ -> Prop) :
  p ∉ guard_page_id <$> held -> (n' <= n)%nat -> R m ->
  (forall g, guard_page_id g = p -> guard_mode g = mode -> triple n (g :: held) m (k g) n' gs' Q [] R) ->
  triple n held m (g ← guarding held (fetch_in mode p); k g) n' gs' Q [] R.
Proof.
  intros Hp Hn HR Hk. eapply (triple_bind _ _ _ _ _ n (fun g => g :: held)); [| done |].
  - apply triple_guarding. rewrite app_nil_r. eapply triple_mono; [by apply triple_fetch | intros ? ? H; exact H | by intros m' ->].
  - cbn beta. intros g m1 (-> & Hg & Hm). by apply Hk.
Qed.
(** Reading a page under a guard that is held. *)
Lemma triple_guarding_read {A B} n held m g b (body : bytes -> M P E A) a (k : A -> M P E B) n' gs' Q (R : _ -> Prop) :
  g ∈ held -> m !! guard_page_id g = Some b -> len b = PAGE_SIZE -> (n' <= n)%nat ->
  (forall b', same_body b b' -> body b' = mret a) ->
  triple n held m (k a) n' gs' Q [] R ->
  triple n held m (r ← guarding held (b ← guard_page g; body b); k r) n' gs' Q [] R.
Proof.
  intros Hg Hb Hl Hn Hbody Hk. eapply (triple_bind _ _ _ _ _ n (fun _ => held) (fun r m' => r = a /\ m' = m)); [| done |].
  - apply triple_guarding. rewrite app_nil_r. apply (triple_read _ _ _ _ b); [done | done | done |]. intros b' Hb'.
    rewrite (Hbody b' Hb'). by apply triple_ret.
  - cbn beta. by intros r m1 [-> ->].
Qed.

Lemma triple_drop_rest {A} n0 n gs rest gs0 m (k : unit -> M P E A) gs' Q gsE (R : _ -> Prop) : (n <= n0)%nat -> gs0 ≡ₚ gs ++ rest ->
  gsE = [] -> triple n0 rest m (k tt) n gs' Q gsE R -> triple n0 gs0 m (u ← drop_guards gs; k u) n gs' Q gsE R.
Proof.
  intros Hn Hp -> Hk. eapply triple_perm; [symmetry; exact Hp | reflexivity |].
  eapply (triple_bind _ _ _ _ _ n0 (fun _ => rest) (fun _ m' => m' = m)); [apply triple_drop_guards | done |].
  cbn beta. intros [] ? ->. exact Hk.
Qed.
Lemma triple_drop_all {A} n0 n gs m (k : unit -> M P E A) gs' Q (R : _ -> Prop) : (n <= n0)%nat -> triple n0 [] m (k tt) n gs' Q [] R ->
  triple n0 gs m (u ← drop_guards gs; k u) n gs' Q [] R.
Proof. intros Hn Hk. apply (triple_drop_rest _ _ _ []); [done | by rewrite app_nil_r | done | done]. Qed.

Lemma triple_drop_one {A} n0 n g gs gs0 m (k : unit -> M P E A) gs' Q (R : _ -> Prop) : (n <= n0)%nat -> gs0 ≡ₚ g :: gs ->
  triple n0 gs m (k tt) n gs' Q [] R -> triple n0 gs0 m (u ← drop_guard g; k u) n gs' Q [] R.
Proof.
  intros Hn Hp Hk. eapply triple_perm; [symmetry; exact Hp | reflexivity |].
  eapply (triple_bind _ _ _ _ _ n0 (fun _ => gs) (fun _ m' => m' = m)); [apply triple_drop_guard | done |].
  cbn beta. intros [] ? ->. exact Hk.
Qed.

Lemma triple_release {A} n g gs m (flag : bool) (k : list PageGuard -> M P E A) n' gs' Q (R : _ -> Prop) : (n' <= n)%nat ->
  triple n (g :: if flag then [] else gs) m (k (if flag then [] else gs)) n' gs' Q [] R ->
  triple n (g :: gs) m (l ← (if flag then _ ← drop_guards gs; mret [] else mret gs); k l) n' gs' Q [] R.
Proof.
  intros Hn Hk. destruct flag; [| exact Hk]. eapply (triple_bind _ _ _ _ _ n (fun _ => [g]) (fun l m' => l = [] /\ m' = m)); [| done |].
  - apply (triple_drop_rest _ _ _ [g]); [done | apply Permutation_cons_append | done |]. by apply triple_ret.
  - cbn beta. intros l m1 [-> ->]. exact Hk.
Qed.

Lemma descend_for_insert_path f x plen n n' (gs' : _ -> list PageGuard) Q (R : _ -> Prop) m lv : (n' <= n)%nat -> R m ->
  forall lower a kc b root, spine_ok m lower (a ++ kc :: b) lv root -> covers x kc b ->
  (forall ns anc, Path a kc b lv ns -> retained ns anc ->
     triple n anc m (descend_for_insert f x plen kc.2 anc) n' gs' Q [] R) ->
  triple n [] m (descend_for_insert (length lv + f) x plen root []) n' gs' Q [] R.
Proof.
  intros Hn HR. revert f. induction lv as [| level lv IH]; intros f lower a kc b root Hsp Hc Hk.
  { pose proof (so_linked _ _ _ _ _ Hsp) as E. destruct a as [| x0 a]; [| by destruct a]. injection E as -> ->.
    apply (Hk [] []); constructor. }
  destruct (spine_step _ _ _ _ _ _ _ _ x Hsp Hc) as (left & nd & right & Elv & Hc' & Hnd & Hpath & Hchild).
  pose proof (spine_up _ _ _ _ _ _ Hsp) as Hup. rewrite Elv in Hup at 2. rewrite inner_spine_app in Hup.
  change (length (level :: lv) + f)%nat with (S (length lv + f)). rewrite <- Nat.add_succ_r.
  apply (IH (S f) _ _ _ _ _ Hup Hc'). intros ns anc Hp Hret. cbn [descend_for_insert snd].
  pose proof (Hpath ns Hp) as Hp'. destruct Hnd as (Hr & b0 & Hb0 & Hh0).
  apply (triple_latch WriteGuard); [| done | done |].
  { intros Hin%(retained_pages _ _ Hret). revert Hin. eapply path_apart; [exact (so_nodes _ _ _ _ _ Hup) | exact Hp |].
    rewrite Elv. apply (list_elem_of_fmap_2 nd_page _ (inner_node nd)). apply elem_of_app. right. apply list_elem_of_fmap_2. set_solver. }
  intros g Hg Hm. set (flag := (node_size (inner_payload <$> inner_entries nd) + SLOT_SIZE + MAX_INTERNAL_PUSH_UP_SIZE <=? PAGE_SIZE)).
  eapply (triple_guarding_read _ _ _ g b0 _ (flag, Some kc.2)); [left | by rewrite Hg | by eapply node_holds_len | done | |].
  - intros b' Hb'. pose proof (node_holds_body _ _ _ _ _ Hb' Hh0) as Hh'. cbn [inner_node nd_kind nd_tail nd_payloads] in Hh'.
    rewrite (node_type_eq Hh'), (Hchild b' Hh'), (node_will_fit_eq _ Hh'). reflexivity.
  - cbn [fst snd]. apply triple_release; [done |]. apply (Hk (nd :: ns)); [done |].
    unfold flag. destruct (Z.leb_spec (node_size (inner_payload <$> inner_entries nd) + SLOT_SIZE + MAX_INTERNAL_PUSH_UP_SIZE) PAGE_SIZE) as [Hs | _].
    + by apply retained_safe.
    + by apply retained_cons.
Qed.
End descents.

(** ** Separators moving up *)
Definition add_child (n : inner) (x : bytes * PageId) : inner :=
  let i := ub x.1 (inner_entries n).*1 in
  mkInner (inner_sep n) (inner_page n) (inner_tail n) (take i (inner_entries n) ++ x :: drop i (inner_entries n)).

Lemma with_entry_inner n x : Forall child_ok (inner_entries n) ->
  with_entry Internal x.1 (inner_payload x) (inner_payload <$> inner_entries n) = inner_payload <$> inner_entries (add_child n x).
Proof.
  intros Hc. unfold with_entry, add_child. cbn [node_key inner_entries]. rewrite inner_payload_keys by done.
  by rewrite fmap_app, fmap_cons, fmap_take, fmap_drop.
Qed.

Lemma covers_next a (kc x : bytes * PageId) b : StronglySorted blt (a ++ kc :: x :: b).*1 -> covers x.1 kc b.
Proof.
  rewrite fmap_app. intros Hs%StronglySorted_app_1_r. cbn in Hs. apply StronglySorted_cons in Hs as [Hf Hs].
  apply StronglySorted_cons in Hs as [Hf' _]. inversion Hf; subst. split; [by apply blt_ble | done].
Qed.
Lemma sorted_drop a (kc x : bytes * PageId) b : StronglySorted blt (a ++ kc :: x :: b).*1 -> StronglySorted blt (a ++ kc :: b).*1.
Proof.
  apply sorted_sublist. rewrite !fmap_app. apply sublist_app; [done |]. cbn. by apply sublist_skip, sublist_cons.
Qed.

Lemma add_child_children n x c1 kc c2 : children n = c1 ++ kc :: c2 -> ub x.1 (inner_entries n).*1 = length c1 ->
  children (add_child n x) = c1 ++ kc :: x :: c2.
Proof.
  intros Hn Hu. unfold add_child, children in *. cbn [inner_sep inner_tail inner_entries]. rewrite Hu.
  destruct c1 as [| k1 c1]; cbn in Hn; injection Hn as <- ->; [done |]. cbn [length app]. f_equal.
  rewrite (app_assoc c1 [kc] c2 : c1 ++ kc :: c2 = (c1 ++ [kc]) ++ c2).
  replace (S (length c1)) with (length (c1 ++ [kc])) by (rewrite length_app; cbn; lia).
  by rewrite take_app_length, drop_app_length, <- app_assoc.
Qed.

(** The node of a path takes the separator right after the child it came from. *)
Lemma path_push m lower a kc b level lv root n ns x : spine_ok m lower (a ++ kc :: b) (level :: lv) root ->
  Path a kc b (level :: lv) (n :: ns) -> StronglySorted blt (a ++ kc :: x :: b).*1 ->
  exists left right, level = left ++ n :: right
    /\ Path (inner_spine left) (inner_sep n, inner_page n) (inner_spine right) lv ns
    /\ all_children left ++ children (add_child n x) ++ all_children right = a ++ kc :: x :: b.
Proof.
  intros [Hl Hs Ho Hr] Hp Hx. destruct (path_covers x.1 _ _ _ _ _ _ _ Hp Hs (covers_next _ _ _ _ Hx))
    as (left & c1 & c2 & right & -> & Hn & -> & -> & Hp' & _ & Hu).
  exists left, right. split_and!; [done | done |]. rewrite (add_child_children _ _ _ _ _ Hn Hu). by rewrite <- !app_assoc.
Qed.

Lemma all_children_middle left n right : all_children (left ++ n :: right) = all_children left ++ children n ++ all_children right.
Proof. by rewrite all_children_app. Qed.
Lemma all_children_two left n n' right :
  all_children (left ++ n :: n' :: right) = all_children left ++ (children n ++ children n') ++ all_children right.
Proof.
  rewrite all_children_app. change (all_children (n :: n' :: right)) with (children n ++ children n' ++ all_children right).
  by rewrite <- app_assoc.
Qed.
(** The nodes with those of one node in front. *)
Lemma inner_nodes_middle lower left n right lv :
  lower ++ inner_nodes ((left ++ n :: right) :: lv) ≡ₚ inner_node n :: lower ++ inner_nodes ((left ++ right) :: lv).
Proof. rewrite !inner_nodes_cons, !fmap_app, fmap_cons. solve_Permutation. Qed.

Lemma push_fit m m' lower left n right lv root x sp : spine_ok m lower sp ((left ++ n :: right) :: lv) root ->
  same_outside [inner_page n] m m' -> node_in m' (inner_node (add_child n x)) ->
  linked (all_children left ++ children (add_child n x) ++ all_children right) ((left ++ add_child n x :: right) :: lv) root
  /\ nodes_rep m' (lower ++ inner_nodes ((left ++ add_child n x :: right) :: lv)).
Proof.
  intros [[_ Hl] _ _ Hr] Hs Hi. split.
  - split; [by rewrite all_children_middle |]. by rewrite inner_spine_app in Hl |- *.
  - eapply nodes_rep_perm; [symmetry; apply inner_nodes_middle |].
    eapply nodes_rep_update; [eapply nodes_rep_perm; [apply inner_nodes_middle | exact Hr] | exact Hs | exact Hi | done].
Qed.

(** The two halves of a node, one level further up. *)
Lemma push_split m m' lower left n right lv root x sp es1 k c es2 p :
  spine_ok m lower sp ((left ++ n :: right) :: lv) root ->
  let nl := mkInner (inner_sep n) (inner_page n) (inner_tail n) es1 in
  let nr := mkInner k p c es2 in
  inner_entries (add_child n x) = es1 ++ (k, c) :: es2 ->
  child_ok x -> StronglySorted blt (all_children left ++ children (add_child n x) ++ all_children right).*1 ->
  same_outside [inner_page n] m m' -> m !! p = None -> page_range p -> node_in m' (inner_node nl) -> node_in m' (inner_node nr) ->
  let level := left ++ nl :: nr :: right in
  all_children level = all_children left ++ children (add_child n x) ++ all_children right
  /\ spine_ok m' (lower ++ (inner_node <$> level)) (inner_spine left ++ (inner_sep n, inner_page n) :: inner_spine right) lv root
  /\ StronglySorted blt (inner_spine level).*1 /\ child_ok (k, p).
Proof.
  intros Hsp nl nr He Hx Hsort Hs Hp Hpr Hl Hr level.
  assert (Hch : all_children level = all_children left ++ children (add_child n x) ++ all_children right).
  { unfold level. rewrite all_children_two. f_equal. f_equal. unfold children. cbn [nl nr inner_sep inner_tail inner_entries].
    rewrite He. done. }
  assert (Hss : StronglySorted blt (inner_spine level).*1).
  { eapply sorted_sublist; [apply inner_spine_sublist |]. by rewrite Hch. }
  assert (Hk : child_ok (k, p)).
  { pose proof (so_ok _ _ _ _ _ Hsp) as Ho. destruct (so_linked _ _ _ _ _ Hsp) as [E _]. rewrite E, all_children_middle in Ho.
    split; [| done]. assert (Hin : (k, c) ∈ inner_entries (add_child n x)) by (rewrite He; set_solver).
    unfold add_child in Hin. cbn [inner_entries] in Hin. apply elem_of_app in Hin.
    rewrite !Forall_app in Ho. destruct Ho as (_ & Ho & _). inversion Ho as [| ? ? _ Ho']; subst. rewrite Forall_forall in Ho'.
    destruct Hin as [Hin | Hin].
    - apply (Ho' (k, c)). by eapply subseteq_take.
    - apply elem_of_cons in Hin as [<- | Hin]; [apply Hx |]. apply (Ho' (k, c)). by eapply subseteq_drop. }
  pose proof (spine_up _ _ _ _ _ _ Hsp) as [Ul Us Uo Un]. rewrite inner_spine_app in Ul, Us, Uo.
  split_and!; [done | | done | done]. split; [done | done | done |].
  rewrite <- app_assoc, <- inner_nodes_cons. unfold level.
  eapply nodes_rep_perm; [symmetry; rewrite (inner_nodes_middle lower left nl (nr :: right) lv), (inner_nodes_middle lower left nr right lv); reflexivity |].
  eapply (nodes_rep_split m m' (inner_node n)); [| exact Hs | done | exact Hp | exact Hl | exact Hr].
  eapply nodes_rep_perm; [apply inner_nodes_middle | exact (so_nodes _ _ _ _ _ Hsp)].
Qed.

Definition PUSH_COST : nat := 2 * REBUILD_COST + 5.
Lemma PUSH_COST_eq : PUSH_COST = (2 * REBUILD_COST + 5)%nat.
Proof. done. Qed.
Arguments PUSH_COST : simpl never.
Arguments REBUILD_COST : simpl never.

Section push.
Context {P : Type} `{!PageStore P, !PageStoreLaws P}.
Abbreviation E := Storage.Error.
Implicit Types (m : gmap PageId bytes).

(** What [push_up] promises: the level below with the new separator is linked to a root. *)
Definition pushed (lower : list node) (sp : list (bytes * PageId)) (lv : list (list inner)) m (root' : PageId) m' : Prop :=
  exists lv', linked sp lv' root' /\ nodes_rep m' (lower ++ inner_nodes lv') /\ same_outside (inner_page <$> mjoin lv) m m'
    /\ (length lv' <= S (length lv))%nat /\ fresh_or m (inner_page <$> mjoin lv) (inner_page <$> mjoin lv').

Lemma new_root_spec n m t root top kc x lower : spine_ok m lower [kc] [] root -> child_ok x ->
  guard_page_id top = kc.2 ->
  triple (PUSH_COST + n) [top] m (push_up t root [] top kc.2 x.1 x.2) n (fun _ => []) (pushed lower [kc; x] [] m) [] (same_outside [] m).
Proof.
  intros [Hl _ Ho Hr] Hx Hg. cbn [push_up]. injection Hl as ->. cbn [snd fst] in *. apply Forall_cons in Ho as [[_ Hc] _].
  eapply (triple_bind _ _ _ _ _ (REBUILD_COST + n) (fun g => [g; top])); [| lia |].
  { apply triple_guarding. eapply (triple_credits (S (REBUILD_COST + n))); [| unfold PUSH_COST; lia | done].
    eapply triple_mono; [apply triple_new_page | intros ? ? H; exact H |]. cbn. intros m' Hm q b Hq _. by eapply lookup_weaken. }
  cbn beta. intros g m1 (Hw & Hrg & Hnew & Hz & Hsub).
  assert (Hs1 : same_outside [] m m1) by (intros q b Hq _; by eapply lookup_weaken).
  eapply (triple_bind _ _ _ _ _ n (fun _ => [g; top])); [| done |].
  { apply triple_guarding. rewrite app_nil_r. eapply triple_mono;
      [apply (node_rebuild_spec n [g; top] m1 t g zero_page Internal (Some root) [inner_payload x]);
        [left | done | done | unfold zero_page; by rewrite len_replicate | by intros ? [= <-]] | intros ? ? H; exact H |].
    intros m' Hm. by eapply same_outside_fresh. }
  cbn beta. intros _ m2 [Ht Hat].
  apply (triple_drop_one _ _ top [g]); [done | apply Permutation_swap |].
  apply (triple_drop_one _ _ g []); [done | done |]. apply triple_ret; [lia | done |].
  assert (Hs2 : same_outside [] m m2) by (by eapply same_outside_fresh).
  exists [[mkInner [] (guard_page_id g) root [x]]]. split_and!; [by destruct x | | done | done | intros q ->%list_elem_of_singleton; by right].
  unfold inner_nodes in *. cbn in Hr |- *. rewrite app_nil_r in Hr. eapply nodes_rep_perm; [apply Permutation_cons_append |].
  eapply nodes_rep_new; [exact Hr | exact Hs2 | done |]. split; [done | exact Hat].
Qed.

(** [push_up] with these ancestors keeps its promise. *)
Definition pushes n t (ns : list inner) (anc : list PageGuard) : Prop := forall m lower a kc b lv root top x,
  Path a kc b lv ns -> spine_ok m lower (a ++ kc :: b) lv root -> child_ok x -> StronglySorted blt (a ++ kc :: x :: b).*1 ->
  guard_page_id top = kc.2 ->
  triple (length anc * PUSH_COST + (PUSH_COST + n)) (top :: anc) m (push_up t root anc top kc.2 x.1 x.2) n (fun _ => [])
    (pushed lower (a ++ kc :: x :: b) lv m) [] (same_outside (inner_page <$> mjoin lv) m).

Lemma node_keys_sorted sp level lv root nd left right : linked sp (level :: lv) root -> StronglySorted blt sp.*1 ->
  level = left ++ nd :: right -> Forall child_ok sp ->
  StronglySorted blt (node_key Internal <$> (inner_payload <$> inner_entries nd)) /\ Forall child_ok (inner_entries nd).
Proof.
  intros [-> _] Hs -> Ho. rewrite all_children_middle in Hs, Ho. rewrite !fmap_app in Hs. rewrite !Forall_app in Ho.
  destruct Ho as (_ & Ho & _). inversion Ho as [| ? ? _ Ho']; subst. split; [| done]. cbn [node_key]. rewrite inner_payload_keys by done.
  apply StronglySorted_app_1_r, StronglySorted_app_1_l in Hs. unfold children in Hs. cbn in Hs. by apply StronglySorted_cons in Hs as [_ Hs].
Qed.

Lemma add_child_ok nd x : Forall child_ok (inner_entries nd) -> child_ok x -> Forall child_ok (inner_entries (add_child nd x)).
Proof.
  intros H Hx. unfold add_child. cbn [inner_entries]. apply Forall_app. split; [by apply Forall_take |].
  constructor; [done | by apply Forall_drop].
Qed.
Lemma push_payloads nd x pl e c pr : Forall child_ok (inner_entries (add_child nd x)) ->
  inner_payload <$> inner_entries (add_child nd x) = pl ++ e :: pr -> internal_child e = Ok c ->
  exists es1 k es2, inner_entries (add_child nd x) = es1 ++ (k, c) :: es2 /\ pl = inner_payload <$> es1
    /\ entry_key e = k /\ pr = inner_payload <$> es2.
Proof.
  intros Hok Hf Hc. apply fmap_app_inv in Hf as (es1 & es2 & -> & E2 & E). destruct es2 as [| [k c'] es2]; [done |].
  cbn in E2. injection E2 as -> ->. rewrite E in Hok |- *. apply Forall_app in Hok as [_ Hok]. apply Forall_cons in Hok as [Hk _].
  rewrite (inner_payload_child (k, c') Hk) in Hc. injection Hc as ->.
  exists es1, k, es2. by rewrite (inner_payload_key (k, c) Hk).
Qed.

Lemma push_fresh m nd es1 es2 k c p left right lv lv' : m !! p = None ->
  fresh_or m (inner_page <$> mjoin ((left ++ nd :: right) :: lv)) (inner_page <$> mjoin lv') ->
  fresh_or m (inner_page <$> mjoin ((left ++ nd :: right) :: lv))
    (inner_page <$> mjoin ((left ++ mkInner (inner_sep nd) (inner_page nd) (inner_tail nd) es1 :: mkInner k p c es2 :: right) :: lv')).
Proof.
  intros Hp Hf q Hq. cbn in Hq |- *. rewrite !fmap_app, !fmap_cons in Hq. rewrite !fmap_app, !fmap_cons. cbn in Hq.
  rewrite !elem_of_app, !elem_of_cons in Hq. destruct (decide (q = p)) as [-> | Hne]; [by right |].
  assert (Hcase : q ∈ inner_page <$> mjoin lv' \/ q ∈ ((inner_page <$> left) ++ inner_page nd :: (inner_page <$> right)) ++ (inner_page <$> mjoin lv)).
  { rewrite !elem_of_app, elem_of_cons. naive_solver. }
  destruct Hcase as [Hc | Hc]; [| by left]. destruct (Hf q Hc) as [H | H]; [left | by right]. cbn in H. by rewrite !fmap_app, fmap_cons in H.
Qed.

Lemma push_node n t nd ns g gs : latches g nd -> safe nd \/ pushes n t ns gs -> pushes n t (nd :: ns) (g :: gs).
Proof.
  intros [Hg Hw] Hcont m lower a kc b lv root top x Hp Hsp Hx Hsort Htop. destruct lv as [| level lv]; [by inversion Hp |].
  destruct (path_push _ _ _ _ _ _ _ _ _ _ x Hsp Hp Hsort) as (left & right & Elv & Hp' & Hch). subst level.
  destruct (node_keys_sorted _ _ _ _ nd left right (so_linked _ _ _ _ _ Hsp) (so_sorted _ _ _ _ _ Hsp) eq_refl (so_ok _ _ _ _ _ Hsp)) as [Hks Hes].
  assert (Hnd : node_in m (inner_node nd)).
  { eapply nodes_rep_elem; [exact (so_nodes _ _ _ _ _ Hsp) |]. apply inner_node_elem. set_solver. }
  assert (Hin : [inner_page nd] ⊆ inner_page <$> mjoin ((left ++ nd :: right) :: lv)).
  { intros q ->%list_elem_of_singleton. apply list_elem_of_fmap_2. cbn. set_solver. }
  assert (Hsub : inner_page <$> mjoin lv ⊆ inner_page <$> mjoin ((left ++ nd :: right) :: lv)).
  { cbn. rewrite fmap_app. set_solver. }
  destruct Hnd as [Hrange Hat]. cbn [inner_node nd_page nd_kind nd_tail nd_payloads] in Hat, Hrange. cbn [push_up].
  change (build_internal_payload x.1 x.2) with (inner_payload x).
  eapply (triple_bind _ _ _ _ _ (S (REBUILD_COST + (REBUILD_COST + (length gs * PUSH_COST + (PUSH_COST + n))))) (fun _ => g :: top :: gs)); [| lia |].
  { apply triple_guarding. rewrite app_nil_r. eapply triple_perm; [apply Permutation_swap | reflexivity |].
    eapply (triple_credits (4 + S (REBUILD_COST + (REBUILD_COST + (length gs * PUSH_COST + (PUSH_COST + n)))))); [| cbn [length]; pose proof PUSH_COST_eq; nia | done].
    eapply triple_mono; [apply (insert_if_fits_spec _ (g :: top :: gs) m t g Internal (Some (inner_tail nd)) (inner_payload <$> inner_entries nd));
      [left | done | by rewrite Hg | done] | intros ? ? H; exact H |].
    intros m' Hm. rewrite Hg in Hm. by eapply same_outside_mono. }
  cbn beta. rewrite Hg. intros [] m1 Hm1.
  - destruct Hm1 as [Hs1 Hat1]. rewrite (with_entry_inner nd x Hes) in Hat1.
    apply triple_drop_all; [lia |]. apply triple_ret; [lia | done |].
    destruct (push_fit _ m1 _ _ _ _ _ _ x _ Hsp Hs1) as [Hl' Hr']; [by split |].
    exists ((left ++ add_child nd x :: right) :: lv). rewrite <- Hch. split_and!; [done | done | by eapply same_outside_mono | cbn; lia |].
    cbn. rewrite !fmap_app, !fmap_cons. apply fresh_or_refl.
  - destruct Hm1 as [-> Hno]. destruct Hcont as [Hsafe | IH].
    { exfalso. unfold safe in Hsafe. rewrite len_inner_payload in Hno. destruct Hx as [Hx _].
      change MAX_SEPARATOR with 4065 in Hx. change MAX_INTERNAL_PUSH_UP_SIZE with 4071 in Hsafe. lia. }
    eapply (triple_bind _ _ _ _ _ (length gs * PUSH_COST + (PUSH_COST + n)) (fun _ => g :: top :: gs)); [| lia |].
    { apply triple_guarding. rewrite app_nil_r.
      eapply triple_mono; [apply (split_internal_spec _ (g :: top :: gs) m t g (inner_tail nd) (inner_payload <$> inner_entries nd));
        [left | done | by rewrite Hg |] | intros ? ? H; exact H |].
      - rewrite (with_entry_inner nd x Hes). intros e (y & -> & Hy)%list_elem_of_fmap. exists y.2.
        pose proof (add_child_ok nd x Hes Hx) as Hok. rewrite Forall_forall in Hok.
        split; [by apply inner_payload_child, Hok | apply Hok, Hy].
      - intros m' Hm. rewrite Hg in Hm. by eapply same_outside_mono. }
    cbn beta. rewrite Hg. intros [k0 p] m1 (pl & e & c & pr & Hw1 & Ek & Hc & Hpr & Hpn & Hs1 & Hal & Har). cbn [fst snd] in Ek, Hpr, Hpn, Har. subst k0.
    rewrite (with_entry_inner nd x Hes) in Hw1.
    destruct (push_payloads nd x pl e c pr (add_child_ok _ _ Hes Hx) Hw1 Hc) as (es1 & k & es2 & He & -> & -> & ->).
    destruct (push_split m m1 lower left nd right lv root x _ es1 k c es2 p Hsp He Hx) as (Hch' & Hsp' & Hso' & Hk); [by rewrite Hch | done.. | by split | by split |].
    apply (triple_drop_one _ _ top (g :: gs)); [lia | apply Permutation_swap |].
    eapply triple_mono; [apply (IH m1 _ _ (inner_sep nd, inner_page nd) _ lv root g (k, p) Hp' Hsp' Hk) | |].
    + by rewrite inner_spine_app in Hso'.
    + done.
    + intros root' m' (lv' & Hl' & Hr' & Hs' & Hlen & Hfr). rewrite <- Hch, <- Hch'. eexists (_ :: lv').
      rewrite inner_nodes_cons, app_assoc. split_and!; [split; [reflexivity |] | exact Hr' | | cbn; lia |].
      * by rewrite inner_spine_app.
      * eapply same_outside_trans; [by eapply same_outside_mono | eapply same_outside_mono; [exact Hs' | apply Hsub]].
      * apply push_fresh; [done |]. intros q Hq.
        apply (fresh_or_later [inner_page nd] m m1 _ (inner_page <$> mjoin lv')); [exact Hs1 | exact Hin | | exact Hq].
        intros r Hr2. destruct (Hfr r Hr2) as [H | H]; [left; by apply Hsub | by right].
    + intros m' Hm. eapply same_outside_trans; [by eapply same_outside_mono | eapply same_outside_mono; [exact Hm | apply Hsub]].
Qed.

Lemma push_up_spec n t ns anc : retained ns anc -> pushes n t ns anc.
Proof.
  induction 1 as [| nd ns g Hlatch Hsafe | nd ns g gs Hlatch Hret IH].
  - intros m lower a kc b lv root top x Hp Hsp Hx Hsort Htop. inversion Hp; subst. by apply new_root_spec.
  - apply push_node; [done | by left].
  - apply push_node; [done | by right].
Qed.
End push.
