(* ===== verification/BtreeInsert.v ===== *)
(** * [BTreeIndex::insert]

    The leaf an entry belongs to takes it, or is split and its new separator pushed up; either way the
    store holds a tree with exactly one more entry. *)
From stdpp Require Import sorting.
From S2P Require Import Prelude Text Value Common Errors Page Slots BtreeNode Btree BtreePage BtreeWrites BtreeTree BtreeSpec.

Lemma leaf_spine_pages ls : (leaf_spine ls).*2 = leaf_page <$> ls.
Proof. unfold leaf_spine. by rewrite <- list_fmap_compose. Qed.

Lemma leaf_nodes_middle A l B next :
  leaf_nodes (A ++ l :: B) next = leaf_nodes A (Some (leaf_page l)) ++ leaf_node l (first_page B next) :: leaf_nodes B next.
Proof. by rewrite leaf_nodes_app. Qed.

Lemma btree_spine m root ls lv : btree_ok m root ls lv -> spine_ok m (leaf_nodes ls None) (leaf_spine ls) lv root.
Proof.
  intros [Hr Hl Hs He Hk]. split; [done | by apply items_sorted_seps | | done].
  apply Forall_forall. intros [k p] Hkp. rewrite Forall_forall in Hk. split.
  - apply Hk. by apply (list_elem_of_fmap_2 fst _ (k, p)).
  - assert (Hp : p ∈ leaf_page <$> ls) by (rewrite <- leaf_spine_pages; by apply (list_elem_of_fmap_2 snd _ (k, p))).
    rewrite <- (leaf_nodes_pages ls None) in Hp. apply list_elem_of_fmap in Hp as (nd & -> & Hnd).
    apply (nodes_rep_elem _ _ nd Hr). apply elem_of_app. by left.
Qed.

(** The leaf a key belongs to. *)
Lemma leaf_covers m root ls lv x : btree_ok m root ls lv ->
  exists A l B, ls = A ++ l :: B /\ covers x (leaf_sep l, leaf_page l) (leaf_spine B).
Proof.
  intros Hb. destruct (cover_exists x _ _ _ (bt_linked _ _ _ _ Hb) (items_sorted_seps _ (bt_sorted _ _ _ _ Hb))) as (a & kc & b & E & Hc).
  unfold leaf_spine in E. apply fmap_app_inv in E as (A & LB & -> & E & ->). destruct LB as [| l B]; [done |].
  cbn in E. injection E as -> ->. by exists A, l, B.
Qed.

Lemma leaf_at m root A l B lv : btree_ok m root (A ++ l :: B) lv -> node_in m (leaf_node l (first_page B None)).
Proof.
  intros Hb. eapply nodes_rep_elem; [exact (bt_nodes _ _ _ _ Hb) |]. rewrite leaf_nodes_middle. set_solver.
Qed.
Lemma leaf_sorted m root A l B lv : btree_ok m root (A ++ l :: B) lv ->
  Forall entry_ok (leaf_entries l) /\ StronglySorted blt (sort_key <$> leaf_entries l).
Proof.
  intros Hb. pose proof (bt_entries _ _ _ _ Hb) as He. pose proof (items_sorted_entries _ (bt_sorted _ _ _ _ Hb)) as Hs.
  change (all_entries (A ++ l :: B)) with ((A ++ l :: B) ≫= leaf_entries) in He, Hs. rewrite bind_app in He, Hs. cbn in He, Hs.
  rewrite !Forall_app in He. rewrite !fmap_app in Hs. split; [apply He |].
  by apply StronglySorted_app_1_r, StronglySorted_app_1_l in Hs.
Qed.

(** ** Entries joining a leaf *)
Definition with_leaf_entry (e : entry) (es : list entry) : list entry :=
  let i := ub (sort_key e) (sort_key <$> es) in take i es ++ e :: drop i es.

Lemma with_entry_leaf e es : Forall entry_ok es ->
  with_entry Leaf (sort_key e) (leaf_payload e) (leaf_payload <$> es) = leaf_payload <$> with_leaf_entry e es.
Proof.
  intros He. unfold with_entry, with_leaf_entry. cbn [node_key]. rewrite leaf_payload_sort_keys by done.
  by rewrite fmap_app, fmap_cons, fmap_take, fmap_drop.
Qed.
Lemma with_leaf_entry_perm e es : with_leaf_entry e es ≡ₚ e :: es.
Proof. unfold with_leaf_entry. set (i := ub _ _). rewrite <- Permutation_middle. by rewrite take_drop. Qed.

Lemma item_lt_ent x k k' : item_lt x (Sep k) -> ble k k' -> item_lt x (Ent k').
Proof. destruct x; cbn; intros H1 H2; [apply blt_ble |]; by eapply blt_ble_trans. Qed.
Lemma item_lt_sep x k k' : item_lt x (Ent k) -> blt k k' -> item_lt x (Sep k').
Proof. destruct x; cbn; intros H1 H2; [by eapply ble_blt_trans | by eapply blt_trans]. Qed.
Lemma item_gt_ent k k' x : blt k k' -> item_lt (Sep k') x -> item_lt (Ent k) x.
Proof. destruct x; cbn; intros H1 H2; [by eapply blt_trans | by eapply blt_ble_trans]. Qed.
Lemma item_gt_sep k x : item_lt (Ent k) x -> item_lt (Sep k) x.
Proof. destruct x; cbn; [done | apply blt_ble]. Qed.

Lemma items_middle A l B : items (A ++ l :: B) = items A ++ leaf_items l ++ items B.
Proof. by rewrite items_app. Qed.

(** The entry belongs where the search puts it. *)
Lemma items_add A l B e : StronglySorted item_lt (items (A ++ l :: B)) -> StronglySorted blt (sort_key <$> leaf_entries l) ->
  covers (sort_key e) (leaf_sep l, leaf_page l) (leaf_spine B) -> sort_key e ∉ sort_key <$> leaf_entries l ->
  StronglySorted item_lt (items (A ++ mkLeaf (leaf_sep l) (leaf_page l) (with_leaf_entry e (leaf_entries l)) :: B)).
Proof.
  intros Hs Hsk [Hle Hgt] Hnew. cbn [fst] in Hle. rewrite items_middle in Hs |- *. unfold leaf_items in *. cbn [leaf_sep leaf_entries].
  set (es := leaf_entries l) in *. set (f := fun e => Ent (sort_key e)) in *. unfold with_leaf_entry. set (i := ub _ _).
  destruct (ub_split (sort_key e) _ Hsk) as [H1 H2]. fold i in H1, H2. rewrite <- fmap_take in H1. rewrite <- fmap_drop in H2.
  rewrite fmap_app, fmap_cons. cbn [app].
  assert (El : items A ++ Sep (leaf_sep l) :: ((f <$> take i es) ++ f e :: (f <$> drop i es)) ++ items B
    = (items A ++ Sep (leaf_sep l) :: (f <$> take i es)) ++ f e :: ((f <$> drop i es) ++ items B)).
  { by rewrite <- !app_assoc. }
  rewrite El.
  apply (sorted_insert _ (items A ++ Sep (leaf_sep l) :: (f <$> take i es)) (f e)).
  - rewrite <- app_assoc. cbn [app]. rewrite (app_assoc (f <$> take i es)), <- fmap_app, take_drop. exact Hs.
  - apply Forall_app. split; [| constructor; [exact Hle |]].
    + apply Forall_forall. intros y Hy. eapply item_lt_ent; [| exact Hle].
      eapply (StronglySorted_app_1_elem_of _ _ _ y _ Hs); [done |]. cbn. left.
    + apply Forall_fmap, Forall_forall. intros y Hy. cbn. rewrite Forall_forall in H1.
      destruct (proj1 (ble_lt_eq _ _) (H1 _ (list_elem_of_fmap_2 sort_key _ _ Hy))) as [| E]; [done |]. exfalso. apply Hnew. cbn in E. rewrite <- E.
      apply list_elem_of_fmap_2. by eapply subseteq_take.
  - apply Forall_app. split; [apply Forall_fmap, Forall_forall; intros y Hy; rewrite Forall_forall in H2; by apply H2, list_elem_of_fmap_2 |].
    destruct B as [| l' B]; [constructor |]. cbn in Hgt. apply Forall_cons in Hgt as [Hg _].
    change (items (l' :: B)) with (Sep (leaf_sep l') :: ((fun e => Ent (sort_key e)) <$> leaf_entries l') ++ items B) in Hs |- *.
    constructor; [exact Hg |]. do 2 apply StronglySorted_app_1_r in Hs. apply StronglySorted_cons in Hs as [Hf _].
    eapply Forall_impl; [exact Hf |]. intros y. by apply item_gt_ent.
Qed.

(** A leaf cut in two: the separator of the right one is its first sort key. *)
Lemma items_split A sep p L e R q B : StronglySorted item_lt (items (A ++ mkLeaf sep p (L ++ e :: R) :: B)) -> L <> [] ->
  StronglySorted item_lt (items (A ++ mkLeaf sep p L :: mkLeaf (sort_key e) q (e :: R) :: B)).
Proof.
  intros Hs HL. rewrite items_app in Hs |- *. set (f := fun e => Ent (sort_key e)) in *.
  change (items (mkLeaf sep p L :: mkLeaf (sort_key e) q (e :: R) :: B))
    with ((Sep sep :: (f <$> L)) ++ (Sep (sort_key e) :: Ent (sort_key e) :: (f <$> R)) ++ items B).
  change (items (mkLeaf sep p (L ++ e :: R) :: B)) with ((Sep sep :: (f <$> L ++ e :: R)) ++ items B) in Hs.
  assert (Es : items A ++ (Sep sep :: (f <$> L ++ e :: R)) ++ items B
    = (items A ++ Sep sep :: (f <$> L)) ++ Ent (sort_key e) :: (f <$> R) ++ items B).
  { rewrite fmap_app, fmap_cons. cbn [app]. by rewrite <- !app_assoc. }
  rewrite Es in Hs. rewrite app_assoc. apply (sorted_insert _ _ (Sep (sort_key e))); [exact Hs | |].
  - destruct (exists_last HL) as (L0 & e0 & ->). rewrite fmap_app in Hs |- *. rewrite app_comm_cons, app_assoc in Hs |- *. cbn [fmap list_fmap] in *.
    set (a := items A ++ Sep sep :: (f <$> L0)) in *.
    assert (Hk : blt (sort_key e0) (sort_key e)).
    { eapply (StronglySorted_app_1_elem_of _ _ _ (Ent (sort_key e0)) (Ent (sort_key e)) Hs); [set_solver | left]. }
    apply Forall_app. split; [| constructor; [exact Hk | constructor]]. apply Forall_forall. intros y Hy.
    eapply item_lt_sep; [| exact Hk]. apply StronglySorted_app_1_l in Hs.
    by apply (StronglySorted_app_1_elem_of _ _ _ y (Ent (sort_key e0)) Hs); [| left].
  - constructor; [apply ble_refl |]. apply StronglySorted_app_1_r, StronglySorted_cons in Hs as [Hf _].
    eapply Forall_impl; [exact Hf |]. intros y. apply item_gt_sep.
Qed.

Lemma all_entries_middle A l B : all_entries (A ++ l :: B) = all_entries A ++ leaf_entries l ++ all_entries B.
Proof. by rewrite all_entries_app. Qed.
Lemma new_sort_key A l B e : Forall entry_ok (all_entries (A ++ l :: B)) -> entry_ok e -> e ∉ all_entries (A ++ l :: B) ->
  sort_key e ∉ sort_key <$> leaf_entries l.
Proof.
  rewrite all_entries_middle. intros Ha He Hn Hin. apply list_elem_of_fmap in Hin as (e' & E & He').
  rewrite Forall_forall in Ha. apply sort_key_inj in E; [subst; set_solver | done | apply Ha; set_solver].
Qed.

(** The leaf takes the entry. *)
Lemma btree_add m m' root A l B lv e : btree_ok m root (A ++ l :: B) lv -> entry_ok e ->
  covers (sort_key e) (leaf_sep l, leaf_page l) (leaf_spine B) -> e ∉ all_entries (A ++ l :: B) ->
  let l' := mkLeaf (leaf_sep l) (leaf_page l) (with_leaf_entry e (leaf_entries l)) in
  same_outside [leaf_page l] m m' -> node_in m' (leaf_node l' (first_page B None)) ->
  btree_ok m' root (A ++ l' :: B) lv /\ all_entries (A ++ l' :: B) ≡ₚ e :: all_entries (A ++ l :: B).
Proof.
  intros Hb He Hc Hnew l' Hs Hi. pose proof (leaf_sorted _ _ _ _ _ _ Hb) as [_ Hsk]. destruct Hb as [Hr Hl Hso Hen Hse].
  assert (Hperm : all_entries (A ++ l' :: B) ≡ₚ e :: all_entries (A ++ l :: B)).
  { rewrite !all_entries_middle. cbn [l' leaf_entries]. rewrite with_leaf_entry_perm. cbn [app]. by rewrite <- Permutation_middle. }
  assert (Hsp : leaf_spine (A ++ l' :: B) = leaf_spine (A ++ l :: B)) by (by rewrite !leaf_spine_app).
  split; [| done]. split; [| by rewrite Hsp | | | by rewrite Hsp].
  - rewrite leaf_nodes_middle in Hr |- *. cbn [l' leaf_page].
    eapply nodes_rep_perm; [rewrite <- app_assoc; cbn [app]; rewrite <- Permutation_middle; reflexivity |].
    eapply (nodes_rep_update m m' (leaf_node l (first_page B None))); [eapply nodes_rep_perm; [| exact Hr] | exact Hs | exact Hi | done].
    by rewrite <- app_assoc, <- app_comm_cons, <- Permutation_middle.
  - apply items_add; [done | done | done | by eapply new_sort_key].
  - rewrite Hperm. by constructor.
Qed.

(** The leaf is split; what remains is to link the new one. *)
Lemma btree_split m m' root A l B lv e L first R q : btree_ok m root (A ++ l :: B) lv -> entry_ok e ->
  covers (sort_key e) (leaf_sep l, leaf_page l) (leaf_spine B) -> e ∉ all_entries (A ++ l :: B) ->
  with_leaf_entry e (leaf_entries l) = L ++ first :: R -> L <> [] ->
  let ll := mkLeaf (leaf_sep l) (leaf_page l) L in
  let lr := mkLeaf (sort_key first) q (first :: R) in
  let ls := A ++ ll :: lr :: B in
  same_outside [leaf_page l] m m' -> m !! q = None -> page_range q ->
  node_in m' (leaf_node ll (Some q)) -> node_in m' (leaf_node lr (first_page B None)) ->
  spine_ok m' (leaf_nodes ls None) (leaf_spine A ++ (leaf_sep l, leaf_page l) :: leaf_spine B) lv root
  /\ child_ok (sort_key first, q) /\ StronglySorted blt (leaf_spine ls).*1
  /\ all_entries ls ≡ₚ e :: all_entries (A ++ l :: B)
  /\ (forall m'' root' lv', linked (leaf_spine ls) lv' root' -> nodes_rep m'' (leaf_nodes ls None ++ inner_nodes lv') ->
       btree_ok m'' root' ls lv').
Proof.
  intros Hb He Hc Hnew Hw HL ll lr ls Hs Hq Hqr Hl Hr. pose proof (leaf_sorted _ _ _ _ _ _ Hb) as [Heo Hsk].
  pose proof (btree_spine _ _ _ _ Hb) as [Bl Bs Bo Bn]. rewrite leaf_spine_app in Bl, Bs, Bo.
  destruct Hb as [Hno Hli Hso Hen Hse].
  assert (Hperm : all_entries ls ≡ₚ e :: all_entries (A ++ l :: B)).
  { unfold ls. rewrite all_entries_app. change (all_entries (ll :: lr :: B)) with (L ++ (first :: R) ++ all_entries B).
    rewrite all_entries_middle, (app_assoc L), <- Hw, with_leaf_entry_perm. cbn [app]. by rewrite <- Permutation_middle. }
  assert (Hall : Forall entry_ok (all_entries ls)) by (rewrite Hperm; by constructor).
  assert (Hitems : StronglySorted item_lt (items ls)).
  { apply items_split; [| done]. rewrite <- Hw. apply items_add; [done | done | done | by eapply new_sort_key]. }
  assert (Hfirst : entry_ok first).
  { rewrite Forall_forall in Hall. apply Hall. unfold ls. rewrite all_entries_app.
    change (all_entries (ll :: lr :: B)) with (L ++ (first :: R) ++ all_entries B). set_solver. }
  assert (Hk : len (sort_key first) <= MAX_SEPARATOR).
  { rewrite len_sort_key. destruct Hfirst as [H _]. unfold MAX_SEPARATOR, RID_TRAILER_SIZE. lia. }
  split_and!; [| by split | by apply items_sorted_seps | done |].
  - split; [done | done | done |]. unfold ls. rewrite leaf_nodes_app in Hno |- *. cbn [leaf_nodes first_page ll lr leaf_page].
    eapply nodes_rep_perm; [rewrite <- app_assoc; cbn [app]; rewrite <- !Permutation_middle; reflexivity |].
    eapply (nodes_rep_split m m' (leaf_node l (first_page B None))); [| exact Hs | done | exact Hq | exact Hl | exact Hr].
    eapply nodes_rep_perm; [| exact Hno]. cbn [leaf_nodes]. by rewrite <- app_assoc, <- app_comm_cons, <- Permutation_middle.
  - intros m'' root' lv' Hl' Hr'. split; [done | done | done | done |].
    unfold ls. rewrite leaf_spine_app, fmap_app in Hse |- *. cbn in Hse |- *. apply Forall_app in Hse as [Hs1 Hs2].
    apply Forall_cons in Hs2 as [Hs2 Hs3]. apply Forall_app. split; [done |]. by repeat constructor.
Qed.

Lemma retained_length ns anc : retained ns anc -> (length anc <= length ns)%nat.
Proof. induction 1; cbn; lia. Qed.
Lemma path_length a kc b lv ns : Path a kc b lv ns -> length ns = length lv.
Proof. induction 1; cbn; lia. Qed.

(** The log records an insert into a tree of this height may write. *)
Definition INSERT_COST (height : nat) : nat := 4 + (PUSH_COST + (height * PUSH_COST + PUSH_COST)).
Arguments INSERT_COST : simpl never.

Section insert.
Context {P : Type} `{!PageStore P, !PageStoreLaws P}.
Abbreviation E := Storage.Error.
Implicit Types (m : gmap PageId bytes).

(** A new tree: one empty leaf. *)
Lemma btree_create_spec n m t :
  keeps (2 + n) [] m (btree_create t) n
    (fun p m' => m !! p = None /\ same_outside [] m m' /\ btree_ok m' p [mkLeaf [] p []] []) (same_outside [] m).
Proof.
  unfold btree_create. eapply (triple_bind _ _ _ _ _ (1 + n) (fun g => [g])); [| lia |].
  - eapply triple_mono; [apply (triple_new_page (1 + n)) | intros ? ? H; exact H |]. cbn. intros m' Hm q b Hq _. by eapply lookup_weaken.
  - cbn beta. intros g m1 (Hw & Hr & Hnew & Hz & Hsub).
    eapply (triple_bind _ _ _ _ _ n (fun _ => [])); [| lia |].
    + apply triple_with_guard. eapply triple_mono;
        [apply (node_init_spec n [g] m1 t g zero_page Leaf None); [left | done | done | unfold zero_page; by rewrite len_replicate | done]
        | intros ? ? H; exact H |]. intros m' Hm. by eapply same_outside_fresh.
    + cbn beta. intros _ m2 [Ht Hat]. apply triple_ret; [lia | done |]. split_and!; [done | by eapply same_outside_fresh |].
      split; cbn; [| done | repeat constructor | constructor | repeat constructor; done].
      split; [cbn; apply NoDup_singleton |]. constructor; [| constructor]. split; [done | exact Hat].
Qed.

(** The leaf is latched, and the ancestors a split may reach. *)
Definition descended (ls : list leaf) (lv : list (list inner)) x plen (r : list PageGuard * PageGuard) : Prop :=
  exists A l B ns, ls = A ++ l :: B /\ covers x (leaf_sep l, leaf_page l) (leaf_spine B)
    /\ Path (leaf_spine A) (leaf_sep l, leaf_page l) (leaf_spine B) lv ns
    /\ guard_page_id r.2 = leaf_page l /\ guard_mode r.2 = WriteGuard
    /\ (retained ns r.1 \/ r.1 = [] /\ node_size (leaf_payload <$> leaf_entries l) + SLOT_SIZE + plen <= PAGE_SIZE).

Lemma descend_for_insert_spec n m root ls lv x plen f : btree_ok m root ls lv ->
  triple n [] m (descend_for_insert (length lv + S f) x plen root []) n (fun r => r.2 :: r.1)
    (fun r m' => m' = m /\ descended ls lv x plen r) [] (fun m' => m' = m).
Proof.
  intros Hb. destruct (leaf_covers _ _ _ _ x Hb) as (A & l & B & -> & Hc). pose proof (btree_spine _ _ _ _ Hb) as Hsp.
  rewrite leaf_spine_app in Hsp. eapply descend_for_insert_path; [done | done | exact Hsp | exact Hc |].
  intros ns anc Hp Hret. cbn [descend_for_insert snd]. destruct (leaf_at _ _ _ _ _ _ Hb) as (Hr & b0 & Hb0 & Hh0).
  cbn [leaf_node nd_page nd_kind nd_tail nd_payloads] in *.
  apply (triple_latch WriteGuard); [| done | done |].
  { intros Hin%(retained_pages _ _ Hret). revert Hin. eapply path_apart; [exact (so_nodes _ _ _ _ _ Hsp) | exact Hp |].
    rewrite leaf_nodes_pages. apply list_elem_of_fmap_2. set_solver. }
  intros g Hg Hm. set (flag := (node_size (leaf_payload <$> leaf_entries l) + SLOT_SIZE + plen <=? PAGE_SIZE)).
  eapply (triple_guarding_read _ _ _ g b0 _ (flag, None)); [left | by rewrite Hg | by eapply node_holds_len | done | |].
  - intros b' Hb'. pose proof (node_holds_body _ _ _ _ _ Hb' Hh0) as Hh'. rewrite (node_type_eq Hh'), (node_will_fit_eq _ Hh'). reflexivity.
  - cbn [fst snd]. apply triple_release; [done |]. apply triple_ret; [done | done |]. split; [done |].
    exists A, l, B, ns. cbn [fst snd]. split_and!; [done | done | done | done | done |].
    unfold flag. destruct (Z.leb_spec (node_size (leaf_payload <$> leaf_entries l) + SLOT_SIZE + plen) PAGE_SIZE); [by right | by left].
Qed.

(** What an insert promises. *)
Definition inserted (ls : list leaf) (lv : list (list inner)) (e : entry) m (root' : PageId) m' : Prop :=
  exists ls' lv', btree_ok m' root' ls' lv' /\ all_entries ls' ≡ₚ e :: all_entries ls
    /\ same_outside (tree_pages ls lv) m m' /\ (length lv' <= S (length lv))%nat
    /\ fresh_or m (tree_pages ls lv) (tree_pages ls' lv').

Lemma tree_pages_leaf A l B lv : [leaf_page l] ⊆ tree_pages (A ++ l :: B) lv.
Proof. unfold tree_pages. rewrite fmap_app. set_solver. Qed.
Lemma tree_pages_inner ls lv : inner_page <$> mjoin lv ⊆ tree_pages ls lv.
Proof. unfold tree_pages. set_solver. Qed.

(** After the descent: the leaf takes the entry. *)
Lemma insert_fits n m root A l B lv e gs t : btree_ok m root (A ++ l :: B) lv -> entry_ok e ->
  covers (sort_key e) (leaf_sep l, leaf_page l) (leaf_spine B) -> e ∉ all_entries (A ++ l :: B) ->
  forall g, guard_page_id g = leaf_page l -> guard_mode g = WriteGuard ->
  keeps (4 + n) (g :: gs) m (insert_if_fits t g (sort_key e) (leaf_payload e)) n
    (fun fitted m' => if fitted : bool then inserted (A ++ l :: B) lv e m root m'
       else m' = m /\ PAGE_SIZE < node_size (leaf_payload <$> leaf_entries l) + SLOT_SIZE + len (leaf_payload e))
    (same_outside (tree_pages (A ++ l :: B) lv) m).
Proof.
  intros Hb He Hc Hnew g Hg Hw. destruct (leaf_at _ _ _ _ _ _ Hb) as (Hr & Hat). cbn in Hat.
  destruct (leaf_sorted _ _ _ _ _ _ Hb) as [Heo Hsk]. pose proof (tree_pages_leaf A l B lv) as Hsub.
  eapply triple_mono; [apply (insert_if_fits_spec n (g :: gs) m t g Leaf (first_page B None) (leaf_payload <$> leaf_entries l) (sort_key e) (leaf_payload e));
    [left | done | rewrite Hg; exact Hat | cbn [node_key]; by rewrite leaf_payload_sort_keys] | |].
  - intros [] m' Hm'; [| exact Hm']. rewrite Hg, with_entry_leaf in Hm' by done. destruct Hm' as [Hs' Hat'].
    destruct (btree_add m m' root A l B lv e Hb He Hc Hnew Hs') as [Hb' Hp]; [by split |].
    eexists _, lv. split_and!; [exact Hb' | exact Hp | by eapply same_outside_mono | lia |].
    unfold tree_pages. rewrite !fmap_app, !fmap_cons. apply fresh_or_refl.
  - intros m' Hm. rewrite Hg in Hm. by eapply same_outside_mono.
Qed.

Lemma split_fresh m A l B lv lv' L q sep es : m !! q = None -> fresh_or m (tree_pages (A ++ l :: B) lv) (inner_page <$> mjoin lv') ->
  fresh_or m (tree_pages (A ++ l :: B) lv) (tree_pages (A ++ mkLeaf (leaf_sep l) (leaf_page l) L :: mkLeaf sep q es :: B) lv').
Proof.
  intros Hq Hf r Hr. unfold tree_pages in Hr. rewrite fmap_app, !fmap_cons in Hr. cbn in Hr. destruct (decide (r = q)) as [-> | Hne]; [by right |].
  assert (Hcase : r ∈ inner_page <$> mjoin lv' \/ r ∈ tree_pages (A ++ l :: B) lv).
  { unfold tree_pages. rewrite fmap_app, fmap_cons. set_solver. }
  destruct Hcase as [Hc | Hc]; [by apply Hf | by left].
Qed.

(** After the descent: the leaf is split and the separator pushed up. *)
Lemma insert_splits n m root A l B lv e ns anc t : btree_ok m root (A ++ l :: B) lv -> entry_ok e ->
  covers (sort_key e) (leaf_sep l, leaf_page l) (leaf_spine B) -> e ∉ all_entries (A ++ l :: B) ->
  Path (leaf_spine A) (leaf_sep l, leaf_page l) (leaf_spine B) lv ns -> retained ns anc ->
  PAGE_SIZE < node_size (leaf_payload <$> leaf_entries l) + SLOT_SIZE + len (leaf_payload e) ->
  forall g, guard_page_id g = leaf_page l -> guard_mode g = WriteGuard ->
  triple (PUSH_COST + (length lv * PUSH_COST + PUSH_COST) + n) (g :: anc) m
    ('(k, p) ← guarding (g :: anc) (split_leaf t g (sort_key e) (leaf_payload e)); push_up t root anc g (guard_page_id g) k p)
    n (fun _ => []) (inserted (A ++ l :: B) lv e m) [] (same_outside (tree_pages (A ++ l :: B) lv) m).
Proof.
  intros Hb He Hc Hnew Hp Hret Hfull g Hg Hw. destruct (leaf_at _ _ _ _ _ _ Hb) as (Hr & Hat). cbn in Hat, Hr.
  destruct (leaf_sorted _ _ _ _ _ _ Hb) as [Heo Hsk]. pose proof (tree_pages_leaf A l B lv) as Hsub.
  pose proof (retained_length _ _ Hret) as Hlen. rewrite (path_length _ _ _ _ _ Hp) in Hlen. rewrite Hg.
  eapply (triple_bind _ _ _ _ _ (length anc * PUSH_COST + (PUSH_COST + n)) (fun _ => g :: anc)); [| lia |].
  - apply triple_guarding. rewrite app_nil_r.
    apply (triple_credits (S (REBUILD_COST + (REBUILD_COST + (length anc * PUSH_COST + (PUSH_COST + n))))) _ _ _ _
      (length anc * PUSH_COST + (PUSH_COST + n)) (length anc * PUSH_COST + (PUSH_COST + n))); [| pose proof PUSH_COST_eq; nia | done].
    eapply triple_mono; [apply (split_leaf_spec _ (g :: anc) m t g (first_page B None) (leaf_payload <$> leaf_entries l) (sort_key e) (leaf_payload e));
      [left | done | rewrite Hg; exact Hat | by rewrite leaf_payload_sort_keys |] | intros ? ? H; exact H |].
    + intros E. rewrite E, len_leaf_payload in Hfull. destruct He as [He _]. change (node_size []) with 21 in Hfull.
      change MAX_KEY_SIZE with 4059 in He. change PAGE_SIZE with 4096 in Hfull. change SLOT_SIZE with 4 in Hfull. lia.
    + intros m' Hm. rewrite Hg in Hm. by eapply same_outside_mono.
  - cbn beta. rewrite Hg. intros [k q] m1 (pl & pf & pr & Hw1 & HL & Ek & Hqr & Hq & Hs1 & Hal & Har). cbn [fst snd] in *.
    rewrite with_entry_leaf in Hw1 by done. apply fmap_app_inv in Hw1 as (L & FR & -> & E2 & E).
    destruct FR as [| first R]; [done |]. cbn in E2. injection E2 as -> ->.
    destruct (btree_split m m1 root A l B lv e L first R q Hb He Hc Hnew E) as (Hsp & Hk & Hss & Hperm & Hfin);
      [by intros -> | done | done | done | by split | by split |].
    assert (Hfo : entry_ok first).
    { assert (Hf : Forall entry_ok (with_leaf_entry e (leaf_entries l))) by (rewrite with_leaf_entry_perm; by constructor).
      rewrite E in Hf. apply Forall_app in Hf as [_ Hf]. by apply Forall_cons in Hf as [Hf _]. }
    rewrite leaf_payload_sort_key in Ek by done. subst k. rewrite leaf_spine_app in Hss.
    eapply triple_mono; [apply (push_up_spec n t ns anc Hret m1 _ _ (leaf_sep l, leaf_page l) _ lv root g (sort_key first, q) Hp Hsp Hk Hss Hg) | |].
    + intros root' m' (lv' & Hl' & Hr' & Hs' & Hh & Hfr). eexists _, lv'. split_and!; [apply Hfin; [by rewrite leaf_spine_app | exact Hr'] | exact Hperm | | done |].
      * eapply same_outside_trans; [by eapply same_outside_mono | eapply same_outside_mono; [exact Hs' | apply tree_pages_inner]].
      * apply split_fresh; [done |]. apply (fresh_or_later [leaf_page l] m m1); [done | done |].
        intros r Hr2. destruct (Hfr r Hr2) as [H | H]; [left; by apply tree_pages_inner | by right].
    + intros m' Hm. eapply same_outside_trans; [by eapply same_outside_mono | eapply same_outside_mono; [exact Hm | apply tree_pages_inner]].
Qed.

Lemma btree_insert_spec n m root ls lv e f t : btree_ok m root ls lv -> entry_ok e -> e ∉ all_entries ls ->
  triple (INSERT_COST (length lv) + n) [] m (btree_insert (length lv + S f) t root e.1 e.2) n (fun _ => [])
    (inserted ls lv e m) [] (same_outside (tree_pages ls lv) m).
Proof.
  intros Hb He Hnew. unfold btree_insert. destruct (Z.ltb_spec MAX_KEY_SIZE (len e.1)) as [Hbig | _]; [destruct He; lia |].
  change (build_leaf_payload e.1 e.2) with (leaf_payload e). rewrite leaf_payload_sort_key by done.
  eapply (triple_bind _ _ _ _ _ (INSERT_COST (length lv) + n) (fun r => r.2 :: r.1)); [| lia |].
  - eapply triple_mono; [apply descend_for_insert_spec, Hb | intros ? ? H; exact H |]. intros m' ->. apply same_outside_refl.
  - cbn beta. intros [anc g] ? (-> & A & l & B & ns & -> & Hc & Hp & Hg & Hw & Hret). cbn [fst snd] in *.
    eapply (triple_bind _ _ _ _ _ (PUSH_COST + (length lv * PUSH_COST + PUSH_COST) + n) (fun _ => g :: anc)); [| lia |].
    + apply triple_guarding. rewrite app_nil_r. by apply insert_fits.
    + cbn beta. intros [] m1 Hm1.
      * apply triple_drop_all; [lia |]. by apply triple_ret; [lia | |].
      * destruct Hm1 as [-> Hfull]. destruct Hret as [Hret | [_ Hfit]]; [| lia]. by eapply insert_splits.
Qed.

Lemma btree_insert_too_large n m root key rid f t : MAX_KEY_SIZE < len key ->
  triple n [] m (btree_insert f t root key rid) n (fun _ => []) (fun _ _ => False) [] (fun m' => m' = m).
Proof.
  intros Hbig. unfold btree_insert. destruct (Z.ltb_spec MAX_KEY_SIZE (len key)); [| lia]. by apply triple_throw.
Qed.
End insert.
