(* ===== verification/BtreeScan.v ===== *)
(** * Lookups and range scans of the B-tree

    What [BTreeIndex::get] and the range iterator return, as lists of the entries of the tree. A scan is a
    page and the sort key it stopped after; whatever steps it takes, what is left to return is the entries
    past that key, in order. *)
From stdpp Require Import sorting.
From S2P Require Import Prelude Text Value Common Errors Page Slots BtreeNode Btree BtreePage BtreeWrites BtreeTree.
From S2P Require Import BtreeSpec BtreeInsert.

(** ** Lookups: what [BTreeIndex::get] returns, as a list of the entries of the tree *)
Fixpoint take_while {A} (q : A -> bool) (l : list A) : list A :=
  match l with
  | [] => []
  | x :: l => if q x then x :: take_while q l else []
  end.

Lemma take_while_app {A} (q : A -> bool) a b :
  take_while q (a ++ b) = take_while q a ++ if decide (Forall (fun x => q x = true) a) then take_while q b else [].
Proof.
  induction a as [| x a IH]; cbn; [by destruct (decide _) as [| []] |]. destruct (q x) eqn:Ex.
  - rewrite IH. cbn. f_equal. f_equal. apply decide_ext. rewrite Forall_cons. naive_solver.
  - rewrite decide_False; [done |]. intros [H _]%Forall_cons. congruence.
Qed.

(** On a sorted list, dropping what is below is filtering. *)
Lemma drop_lb_filter {A} (f : A -> bytes) x l : StronglySorted blt (f <$> l) ->
  drop (lb x (f <$> l)) l = filter (fun y => ble x (f y)) l.
Proof.
  intros Hs. induction l as [| y l IH]; [done |]. cbn in Hs. apply StronglySorted_cons in Hs as [Hf Hs].
  unfold lb in *. cbn [fmap list_fmap partition_point]. destruct (key_lt (f y) x) eqn:E.
  - rewrite filter_cons_False; [by apply IH |]. rewrite key_lt_spec in E. intros Hle. by apply (blt_irrefl x), (ble_blt_trans _ (f y)).
  - rewrite filter_cons_True by (by apply key_lt_false). cbn [drop]. f_equal. rewrite filter_all; [done |]. apply Forall_forall. intros z Hz.
    apply key_lt_false in E. rewrite Forall_forall in Hf. apply blt_ble. eapply ble_blt_trans; [exact E |].
    by apply Hf, list_elem_of_fmap_2.
Qed.

Lemma take_while_all {A} (q : A -> bool) l : Forall (fun x => q x = true) l <-> length (take_while q l) = length l.
Proof.
  induction l as [| x l IH]; cbn; [done |]. rewrite Forall_cons, IH. destruct (q x); cbn; [| naive_solver].
  split; [intros [_ ->]; done | intros H; split; [done | lia]].
Qed.

(** ** One leaf *)
Definition has_key (key : bytes) (e : entry) : bool := bool_decide (e.1 = key).
(** The entries a lookup or a scan can start at. *)
Definition from_key (key : bytes) (es : list entry) : list entry := filter (fun e => ble key (sort_key e)) es.
Lemma from_key_app key a b : from_key key (a ++ b) = from_key key a ++ from_key key b.
Proof. apply filter_app. Qed.

Section leaf_reads.
Context {b : bytes} {tail : option PageId} {es : list entry}.
Hypothesis Hb : node_holds b Leaf tail (leaf_payload <$> es).
Hypothesis He : Forall entry_ok es.
Hypothesis Hs : StronglySorted blt (sort_key <$> es).

Lemma leaf_entry_at p i e : es !! i = Some e -> entry_payload b (Z.of_nat i) p = Ok (leaf_payload e) /\ entry_ok e.
Proof.
  intros Hi. split; [| by apply (Forall_lookup_1 _ _ _ _ He Hi)]. apply (entry_payload_eq p i _ Hb). by rewrite list_lookup_fmap, Hi.
Qed.

Lemma leaf_count p : checked_slot_count b p = Ok (len es).
Proof. rewrite (node_checked_count p Hb). unfold len. by rewrite length_fmap. Qed.

Lemma lower_bound_leaf_eq p x : lower_bound_leaf b x p = Ok (Z.of_nat (lb x (sort_key <$> es))).
Proof.
  unfold lower_bound_leaf. rewrite (search_page_eq p (fun e => key_lt (leaf_sort_key e) x) Hb).
  - unfold lb. by rewrite (partition_point_fmap leaf_sort_key (fun k => key_lt k x)), leaf_payload_sort_keys.
  - apply parted_lt. by rewrite leaf_payload_sort_keys.
Qed.

Lemma collect_matches_eq p key k : (k <= length es)%nat ->
  collect_matches b key p (Z.of_nat k) (length es - k)
  = Ok ((take_while (has_key key) (drop k es)).*2, Z.of_nat (k + length (take_while (has_key key) (drop k es)))).
Proof.
  intros Hk. remember (length es - k)%nat as n eqn:En. revert k Hk En. induction n as [| n IH]; intros k Hk En.
  - rewrite drop_ge by lia. cbn. by rewrite Nat.add_0_r.
  - destruct (lookup_lt_is_Some_2 es k) as [e Hke]; [lia |]. destruct (leaf_entry_at p k e Hke) as [Ep Heo].
    rewrite (drop_S _ _ _ Hke). cbn [collect_matches take_while]. rewrite Ep. cbn [mbind outcome_bind].
    rewrite leaf_payload_key by done. unfold has_key at 1 3. destruct (decide (e.1 <> key)) as [Hne | Heq].
    + rewrite bool_decide_false by done. cbn. by rewrite Nat.add_0_r.
    + apply dec_stable in Heq. rewrite bool_decide_true, leaf_payload_rid by done. cbn [mbind outcome_bind].
      replace (Z.of_nat k + 1) with (Z.of_nat (S k)) by lia. rewrite IH by lia. cbn. do 2 f_equal. lia.
Qed.

Lemma leaf_matches_eq p key : leaf_matches b key p
  = Ok ((take_while (has_key key) (from_key key es)).*2,
        if decide (Forall (fun e => has_key key e = true) (from_key key es)) then tail else None).
Proof.
  unfold leaf_matches. rewrite leaf_count, lower_bound_leaf_eq. cbn [mbind outcome_bind]. set (k := lb key (sort_key <$> es)).
  assert (Hk : (k <= length es)%nat).
  { unfold k, lb. rewrite <- (length_fmap sort_key es). clear. induction (sort_key <$> es) as [| y l IH]; cbn; [lia |].
    destruct (key_lt y key); lia. }
  replace (Z.to_nat (len es - Z.of_nat k)) with (length es - k)%nat by (unfold len; lia). rewrite collect_matches_eq by done.
  cbn [mbind outcome_bind]. unfold from_key. rewrite <- (drop_lb_filter sort_key key es Hs). fold k. rewrite (tail_raw_eq Hb).
  do 2 f_equal. pose proof (take_while_all (has_key key) (drop k es)) as Hall. rewrite length_drop in Hall.
  destruct (Z.eqb_spec (Z.of_nat (k + length (take_while (has_key key) (drop k es)))) (len es)) as [Eq | Ne]; unfold len in *.
  - rewrite decide_True; [done |]. apply Hall. lia.
  - rewrite decide_False; [done |]. intros H%Hall. lia.
Qed.
End leaf_reads.

Section lookups.
Context {P : Type} `{!PageStore P, !PageStoreLaws P}.
Abbreviation E := Storage.Error.
Implicit Types (m : gmap PageId bytes).

(** ** The way down for a reader: one latch at a time *)
Lemma descend_loop_path f x n n' (gs' : _ -> list PageGuard) Q (R : _ -> Prop) m lv : (n' <= n)%nat -> R m ->
  forall lower a kc b root, spine_ok m lower (a ++ kc :: b) lv root -> covers x kc b ->
  (forall ns parent path, Path a kc b lv ns -> guard_page_id <$> parent ⊆ inner_page <$> ns ->
     triple n parent m (descend_loop f x kc.2 path parent) n' gs' Q [] R) ->
  triple n [] m (descend_loop (length lv + f) x root [] []) n' gs' Q [] R.
Proof.
  intros Hn HR. revert f. induction lv as [| level lv IH]; intros f lower a kc b root Hsp Hc Hk.
  { pose proof (so_linked _ _ _ _ _ Hsp) as E. destruct a as [| x0 a]; [| by destruct a]. injection E as -> ->.
    by apply (Hk [] []); [constructor |]. }
  destruct (spine_step _ _ _ _ _ _ _ _ x Hsp Hc) as (left & nd & right & Elv & Hc' & Hnd & Hpath & Hchild).
  pose proof (spine_up _ _ _ _ _ _ Hsp) as Hup. rewrite Elv in Hup at 2. rewrite inner_spine_app in Hup.
  change (length (level :: lv) + f)%nat with (S (length lv + f)). rewrite <- Nat.add_succ_r.
  apply (IH (S f) _ _ _ _ _ Hup Hc'). intros ns parent path Hp Hpar. cbn [descend_loop snd].
  destruct Hnd as (Hr & b0 & Hb0 & Hh0). apply (triple_latch ReadGuard); [| done | done |].
  { intros Hin%Hpar. revert Hin. eapply path_apart; [exact (so_nodes _ _ _ _ _ Hup) | exact Hp |].
    rewrite Elv. apply (list_elem_of_fmap_2 nd_page _ (inner_node nd)). apply elem_of_app. right. apply list_elem_of_fmap_2. set_solver. }
  intros g Hg Hm. apply (triple_drop_rest _ _ _ [g]); [done | apply Permutation_cons_append | done |].
  eapply (triple_guarding_read _ _ _ g b0 _ (Some kc.2)); [left | by rewrite Hg | by eapply node_holds_len | done | |].
  - intros b' Hb'. pose proof (node_holds_body _ _ _ _ _ Hb' Hh0) as Hh'. cbn [inner_node nd_kind nd_tail nd_payloads] in Hh'.
    rewrite (node_type_eq Hh'), (Hchild b' Hh'). reflexivity.
  - apply (Hk (nd :: ns) [g]); [by apply Hpath |]. cbn. rewrite Hg. set_solver.
Qed.

(** The leaf a key belongs to. *)
Lemma descend_to_leaf_spec n m root ls lv x fuel : btree_ok m root ls lv -> (length lv < fuel)%nat ->
  triple n [] m (descend_to_leaf fuel root x) n (fun _ => [])
    (fun r m' => m' = m /\ exists A l B, ls = A ++ l :: B /\ covers x (leaf_sep l, leaf_page l) (leaf_spine B) /\ r.1 = leaf_page l)
    [] (fun m' => m' = m).
Proof.
  intros Hb Hf. destruct (leaf_covers _ _ _ _ x Hb) as (A & l & B & -> & Hc). pose proof (btree_spine _ _ _ _ Hb) as Hsp.
  rewrite leaf_spine_app in Hsp. unfold descend_to_leaf. replace fuel with (length lv + S (fuel - length lv - 1))%nat by lia.
  eapply descend_loop_path; [done | done | exact Hsp | exact Hc |].
  intros ns parent path Hp Hpar. cbn [descend_loop snd]. destruct (leaf_at _ _ _ _ _ _ Hb) as (Hr & b0 & Hb0 & Hh0).
  cbn [leaf_node nd_page nd_kind nd_tail nd_payloads] in *. apply (triple_latch ReadGuard); [| done | done |].
  { intros Hin%Hpar. revert Hin. eapply path_apart; [exact (so_nodes _ _ _ _ _ Hsp) | exact Hp |].
    rewrite leaf_nodes_pages. apply list_elem_of_fmap_2. set_solver. }
  intros g Hg Hm. apply (triple_drop_rest _ _ _ [g]); [done | apply Permutation_cons_append | done |].
  eapply (triple_guarding_read _ _ _ g b0 _ None); [left | by rewrite Hg | by eapply node_holds_len | done | |].
  - intros b' Hb'. pose proof (node_holds_body _ _ _ _ _ Hb' Hh0) as Hh'. by rewrite (node_type_eq Hh').
  - apply (triple_drop_one _ _ g []); [done | done |]. apply triple_ret; [done | done |]. split; [done |]. by exists A, l, B.
Qed.

(** A page read for the length of a block. *)
Lemma triple_fetch_read {A} n m p b (body : bytes -> M P E A) (a : A) : m !! p = Some b -> len b = PAGE_SIZE ->
  (forall b', same_body b b' -> body b' = mret a) ->
  triple n [] m (g ← fetch_page_read p; with_guard g (b ← guard_page g; body b)) n (fun _ => []) (fun r m' => r = a /\ m' = m) [] (fun m' => m' = m).
Proof.
  intros Hb Hl Hbody. apply (keeps_guarded ReadGuard); [set_solver | done | done |]. intros g Hg Hm.
  apply (triple_read _ _ _ _ b); [left | by rewrite Hg | done |]. intros b' Hb'. rewrite (Hbody b' Hb'). by apply triple_ret.
Qed.

Lemma triple_assoc {A B C} n gs m (a : M P E A) (c : A -> M P E B) (k : B -> M P E C) n' gs' Q gsE R :
  triple n gs m (x ← (g ← a; c g); k x) n' gs' Q gsE R -> triple n gs m (g ← a; x ← c g; k x) n' gs' Q gsE R.
Proof. intros H s Hs. specialize (H s Hs). unfold mbind, M_bind in H |- *. by destruct (a s) as [[g | e |] s']. Qed.

Lemma leftmost_path f n n' (gs' : _ -> list PageGuard) Q (R : _ -> Prop) m lv : (n' <= n)%nat -> R m ->
  forall lower kc b root, spine_ok m lower (kc :: b) lv root ->
  triple n [] m (leftmost_leaf f kc.2) n' gs' Q [] R -> triple n [] m (leftmost_leaf (length lv + f) root) n' gs' Q [] R.
Proof.
  intros Hn HR. revert f. induction lv as [| level lv IH]; intros f lower kc b root Hsp Hk.
  { pose proof (so_linked _ _ _ _ _ Hsp) as E. injection E as -> ->. exact Hk. }
  pose proof (spine_up _ _ _ _ _ _ Hsp) as Hup. destruct (so_linked _ _ _ _ _ Hsp) as [E _].
  destruct level as [| nd level]; [done |]. cbn in E. injection E as -> _. cbn [snd] in Hk.
  change (length ((nd :: level) :: lv) + f)%nat with (S (length lv + f)). rewrite <- Nat.add_succ_r.
  apply (IH (S f) _ _ _ _ Hup). cbn [leftmost_leaf snd].
  destruct (nodes_rep_elem m _ (inner_node nd) (so_nodes _ _ _ _ _ Hsp)) as (Hr & b0 & Hb0 & Hh0); [apply inner_node_elem; left |].
  cbn [inner_node nd_page nd_kind nd_tail nd_payloads] in *.
  apply triple_assoc. eapply (triple_bind _ _ _ _ _ n (fun _ => [])); [| done |].
  - eapply triple_mono; [eapply (triple_fetch_read _ _ _ b0 _ (Some (inner_tail nd))) | intros ? ? H; exact H | by intros m' ->];
      [done | by eapply node_holds_len |]. intros b' Hb'. pose proof (node_holds_body _ _ _ _ _ Hb' Hh0) as Hh'.
    rewrite (node_type_eq Hh'), (tail_raw_eq Hh'). reflexivity.
  - cbn beta. intros r m1 [-> ->]. exact Hk.
Qed.

Lemma leftmost_leaf_spec n m root ls lv fuel : btree_ok m root ls lv -> (length lv < fuel)%nat ->
  triple n [] m (leftmost_leaf fuel root) n (fun _ => [])
    (fun p m' => m' = m /\ exists l B, ls = l :: B /\ p = leaf_page l) [] (fun m' => m' = m).
Proof.
  intros Hb Hf. pose proof (btree_spine _ _ _ _ Hb) as Hsp. destruct ls as [| l B].
  { destruct (linked_head _ _ _ (bt_linked _ _ _ _ Hb)) as (? & ? & ?). done. }
  replace fuel with (length lv + S (fuel - length lv - 1))%nat by lia.
  eapply (leftmost_path _ _ _ _ _ _ _ _ (Nat.le_refl _)); [done | exact Hsp |]. cbn [leftmost_leaf snd].
  destruct (leaf_at _ _ [] l B _ Hb) as (Hr & b0 & Hb0 & Hh0). cbn [leaf_node nd_page nd_kind nd_tail nd_payloads] in *.
  apply triple_assoc. eapply (triple_bind _ _ _ _ _ n (fun _ => [])); [| done |].
  - eapply triple_mono; [eapply (triple_fetch_read _ _ _ b0 _ None) | intros ? ? H; exact H | by intros m' ->];
      [done | by eapply node_holds_len |]. intros b' Hb'. pose proof (node_holds_body _ _ _ _ _ Hb' Hh0) as Hh'.
    by rewrite (node_type_eq Hh').
  - cbn beta. intros r m1 [-> ->]. apply triple_ret; [done | done |]. split; [done |]. by exists l, B.
Qed.

(** ** [get] *)
Lemma first_page_leaf A l B m root lv : btree_ok m root (A ++ l :: B) lv -> forall p, first_page B None = Some p ->
  p <> leaf_page l /\ exists l' B', B = l' :: B' /\ p = leaf_page l'.
Proof.
  intros Hb p E. destruct B as [| l' B']; [done |]. injection E as <-. split; [| by exists l', B'].
  destruct (bt_nodes _ _ _ _ Hb) as [Hn _]. rewrite fmap_app, leaf_nodes_pages in Hn. apply NoDup_app in Hn as (Hn & _ & _).
  rewrite fmap_app in Hn. cbn in Hn. apply NoDup_app in Hn as (_ & _ & Hn). apply NoDup_cons in Hn as [Hn _]. set_solver.
Qed.

Definition matches (key : bytes) (es : list entry) : list Rid := (take_while (has_key key) (from_key key es)).*2.

Lemma get_loop_spec n m root lv key B : forall A l fuel g results, btree_ok m root (A ++ l :: B) lv -> (length B < fuel)%nat ->
  guard_page_id g = leaf_page l ->
  triple n [g] m (get_loop fuel key (leaf_page l) g results) n (fun _ => [])
    (fun r m' => m' = m /\ r = results ++ matches key (all_entries (l :: B))) [] (fun m' => m' = m).
Proof.
  induction B as [| l' B IH]; intros A l fuel g results Hb Hf Hg; (destruct fuel as [| fuel]; [cbn in Hf; lia |]); cbn [get_loop];
    destruct (leaf_at _ _ _ _ _ _ Hb) as (Hr & b0 & Hb0 & Hh0); cbn [leaf_node nd_page nd_kind nd_tail nd_payloads] in *;
    destruct (leaf_sorted _ _ _ _ _ _ Hb) as [Heo Hsk];
    (eapply (triple_guarding_read _ _ _ g b0); [left | by rewrite Hg | by eapply node_holds_len | done | |];
     [intros b' Hb'; pose proof (node_holds_body _ _ _ _ _ Hb' Hh0) as Hh'; rewrite (leaf_matches_eq Hh' Heo Hsk); reflexivity |]);
    cbn beta iota; unfold matches.
  - change (all_entries [l]) with (leaf_entries l ++ []). rewrite app_nil_r. cbn [first_page].
    assert (Hd : (if decide (Forall (fun e => has_key key e = true) (from_key key (leaf_entries l))) then None else None) = @None PageId)
      by (by destruct (decide _)).
    rewrite Hd. apply (triple_drop_one _ _ g []); [done | done |]. by apply triple_ret.
  - change (all_entries (l :: l' :: B)) with (leaf_entries l ++ all_entries (l' :: B)). rewrite from_key_app, take_while_app.
    cbn [first_page]. destruct (decide (Forall _ _)) as [Hall | Hno].
    + apply (triple_latch ReadGuard); [| done | done |].
      { cbn. rewrite Hg. destruct (first_page_leaf _ _ _ _ _ _ Hb (leaf_page l') eq_refl) as [Hne _]. set_solver. }
      intros g' Hg' _. apply (triple_drop_one _ _ g [g']); [done | apply Permutation_swap |].
      eapply triple_mono; [apply (IH (A ++ [l]) l' fuel g') | |]; [by rewrite <- app_assoc | cbn in Hf; lia | done | | done].
      cbn beta. intros r m' [-> ->]. split; [done |]. unfold matches. by rewrite fmap_app, app_assoc.
    + apply (triple_drop_one _ _ g []); [done | done |]. apply triple_ret; [done | done |]. by rewrite app_nil_r.
Qed.

(** The entries to the left of the leaf a key belongs to are below it. *)
Lemma left_below A l B x m root lv : btree_ok m root (A ++ l :: B) lv -> covers x (leaf_sep l, leaf_page l) (leaf_spine B) ->
  Forall (fun e => blt (sort_key e) x) (all_entries A).
Proof.
  intros Hb [Hle _]. cbn in Hle. pose proof (bt_sorted _ _ _ _ Hb) as Hs. rewrite items_middle in Hs. apply Forall_forall. intros e He.
  eapply blt_ble_trans; [| exact Hle]. eapply (StronglySorted_app_1_elem_of _ _ _ (Ent (sort_key e)) (Sep (leaf_sep l)) Hs); [| left].
  unfold all_entries in He. apply list_elem_of_bind in He as (l0 & He & Hl0). unfold items. apply list_elem_of_bind.
  exists l0. split; [| done]. unfold leaf_items. right. by apply (list_elem_of_fmap_2 (fun e => Ent (sort_key e))).
Qed.

Lemma btree_get_spec n m root ls lv key fuel : btree_ok m root ls lv -> (length lv < fuel)%nat -> (length ls <= fuel)%nat ->
  triple n [] m (btree_get fuel root key) n (fun _ => []) (fun r m' => m' = m /\ r = matches key (all_entries ls)) [] (fun m' => m' = m).
Proof.
  intros Hb Hf1 Hf2. unfold btree_get. eapply (triple_bind _ _ _ _ _ n (fun _ => [])); [| done |].
  - eapply triple_mono; [by eapply descend_to_leaf_spec | intros ? ? H; exact H | done].
  - cbn beta. intros [p path] ? (-> & A & l & B & -> & Hc & Ep). cbn in Ep. subst p.
    eapply (triple_bind _ _ _ _ _ n (fun g => [g])); [| done |].
    + eapply triple_mono; [apply (triple_fetch ReadGuard); set_solver | intros ? ? H; exact H | done].
    + cbn beta. intros g ? (-> & Hg & _).
      eapply triple_mono; [eapply (get_loop_spec n m root lv key B A l fuel g []); [done | rewrite length_app in Hf2; cbn in Hf2; lia | done] | | done].
      cbn beta. intros r m' [-> ->]. split; [done |]. unfold matches. do 2 f_equal. rewrite all_entries_app, from_key_app.
      assert (En : from_key key (all_entries A) = []); [| by rewrite En].
      apply filter_none, Forall_forall. intros e He Hble. pose proof (left_below _ _ _ _ _ _ _ Hb Hc) as Hl. rewrite Forall_forall in Hl.
      apply (blt_irrefl key). eapply ble_blt_trans; [exact Hble | by apply Hl].
Qed.
End lookups.

Definition beyond (after : option bytes) (e : entry) : Prop := match after with None => True | Some s => blt s (sort_key e) end.
#[global] Instance blt_dec a b : Decision (blt a b).
Proof. unfold blt. apply _. Defined.
#[global] Instance beyond_dec after e : Decision (beyond after e).
Proof. unfold beyond. destruct after; apply _. Defined.

(** Entries of a sorted list past a key. *)
Definition past (after : option bytes) (es : list entry) : list entry := filter (beyond after) es.

Lemma past_app after a b : past after (a ++ b) = past after a ++ past after b.
Proof. apply filter_app. Qed.
Lemma past_all after es : Forall (beyond after) es -> past after es = es.
Proof. apply filter_all. Qed.
Lemma past_none s es : Forall (fun e => ble (sort_key e) s) es -> past (Some s) es = [].
Proof.
  intros H. apply filter_none. eapply Forall_impl; [exact H |]. cbn. intros e Hle Hlt. by apply (blt_irrefl s), (blt_ble_trans _ (sort_key e)).
Qed.
(** Past the first of the entries that are past a key. *)
Lemma past_next after e rest es : StronglySorted blt (sort_key <$> es) -> past after es = e :: rest -> past (Some (sort_key e)) es = rest.
Proof.
  induction es as [| x es IH]; [done |]. cbn [fmap list_fmap]. intros [Hf Hs]%StronglySorted_cons. unfold past in *. rewrite filter_cons.
  destruct (decide (beyond after x)) as [Hx | Hx].
  - intros [= -> <-]. rewrite filter_cons_False by (cbn; apply blt_irrefl).
    assert (H1 : Forall (beyond (Some (sort_key e))) es).
    { apply Forall_forall. intros y Hy. rewrite Forall_forall in Hf. cbn. by apply Hf, list_elem_of_fmap_2. }
    assert (H2 : Forall (beyond after) es).
    { eapply Forall_impl; [exact H1 |]. cbn. intros y Hy. destruct after; [| done]. cbn in *. by eapply blt_trans. }
    by rewrite !filter_all.
  - intros E. rewrite filter_cons_False; [by apply IH |]. cbn. intros Hlt.
    assert (He : e ∈ es). { assert (He : e ∈ filter (beyond after) es) by (rewrite E; left). by apply list_elem_of_filter in He as [_ He]. }
    rewrite Forall_forall in Hf. apply (blt_irrefl (sort_key e)), (blt_trans _ (sort_key x)); [done |]. by apply Hf, list_elem_of_fmap_2.
Qed.

Section leaf_scan.
Context {b : bytes} {tail : option PageId} {es : list entry}.
Hypothesis Hb : node_holds b Leaf tail (leaf_payload <$> es).
Hypothesis He : Forall entry_ok es.
Hypothesis Hs : StronglySorted blt (sort_key <$> es).

Lemma slot_after_eq p after : exists k, slot_after b p (len es) after = Ok (Z.of_nat k) /\ drop k es = past after es /\ (k <= length es)%nat.
Proof.
  destruct after as [s |]; [| exists O; cbn; split_and!; [done | by rewrite past_all; [| apply Forall_forall] | lia]].
  cbn [slot_after]. rewrite (lower_bound_leaf_eq Hb He Hs). cbn [mbind outcome_bind]. set (k := lb s (sort_key <$> es)).
  pose proof (drop_lb_filter sort_key s es Hs) as Hd. fold k in Hd.
  assert (Hpast : past (Some s) es = filter (beyond (Some s)) (drop k es)).
  { rewrite Hd, list_filter_filter. apply list_filter_iff. intros e. cbn. split; [| tauto]. intros H. split; [done | by apply blt_ble]. }
  destruct (Z.ltb_spec (Z.of_nat k) (len es)) as [Hlt | Hge].
  - destruct (lookup_lt_is_Some_2 es k) as [e Hk]; [unfold len in *; lia |]. destruct (leaf_entry_at Hb He p k e Hk) as [-> Heo].
    cbn [mbind outcome_bind]. rewrite leaf_payload_sort_key by done. rewrite (drop_S _ _ _ Hk) in Hpast.
    assert (Hafter : Forall (beyond (Some (sort_key e))) (drop (S k) es)).
    { rewrite <- (take_drop_middle es k e Hk), fmap_app, fmap_cons in Hs. apply StronglySorted_app_1_r, StronglySorted_cons in Hs as [Hf _].
      apply Forall_forall. intros y Hy. rewrite Forall_forall in Hf. cbn. by apply Hf, list_elem_of_fmap_2. }
    assert (Hge : ble s (sort_key e)).
    { assert (Hin : e ∈ filter (fun y => ble s (sort_key y)) es) by (rewrite <- Hd, (drop_S _ _ _ Hk); left).
      by apply list_elem_of_filter in Hin as [Hin _]. }
    destruct (decide (sort_key e = s)) as [<- | Hne].
    + exists (S k). split_and!; [f_equal; lia | | unfold len in *; lia]. rewrite Hpast, filter_cons_False by (cbn; apply blt_irrefl).
      by rewrite filter_all.
    + exists k. split_and!; [done | | unfold len in *; lia]. rewrite Hpast, (drop_S _ _ _ Hk). symmetry. apply filter_all.
      assert (Hlt' : blt s (sort_key e)) by (apply ble_lt_eq in Hge as [| ->]; [done | congruence]).
      constructor; [done |]. eapply Forall_impl; [exact Hafter |]. cbn. intros y. by apply blt_trans.
  - assert (k <= length es)%nat.
    { unfold k, lb. rewrite <- (length_fmap sort_key es). clear. induction (sort_key <$> es) as [| y l IH]; cbn; [lia |].
      destruct (key_lt y s); lia. }
    exists k. split_and!; [done | | done]. rewrite Hpast, drop_ge by (unfold len in *; lia). done.
Qed.

Lemma scan_leaf_page_eq p after :
  match past after es with
  | [] => scan_leaf_page b p after = Ok (EndOfLeaf tail)
  | e :: _ => exists slot, scan_leaf_page b p after = Ok (LeafEntry slot e.1 (sort_key e) e.2)
  end.
Proof.
  unfold scan_leaf_page. rewrite (leaf_count Hb p). cbn [mbind outcome_bind].
  destruct (slot_after_eq p after) as (k & -> & Hd & Hk). cbn [mbind outcome_bind]. destruct (past after es) as [| e rest].
  - destruct (Z.leb_spec (len es) (Z.of_nat k)) as [_ | Hlt]; [by rewrite (tail_raw_eq Hb) |].
    apply (f_equal length) in Hd. rewrite length_drop in Hd. cbn in Hd. unfold len in *. lia.
  - assert (Hke : es !! k = Some e) by (by rewrite <- (Nat.add_0_r k), <- lookup_drop, Hd).
    pose proof (lookup_lt_Some _ _ _ Hke). destruct (Z.leb_spec (len es) (Z.of_nat k)); [unfold len in *; lia |].
    destruct (leaf_entry_at Hb He p k e Hke) as [-> Heo]. cbn [mbind outcome_bind].
    rewrite leaf_payload_rid, leaf_payload_key, leaf_payload_sort_key by done. by exists (Z.of_nat k).
Qed.
End leaf_scan.

(** ** Scans over the leaves *)

(** A scan at [page] that has returned everything up to [after] has [rest] left to return; [ahead] leaves
    are to the right of it. *)
Definition cursor (ls : list leaf) (ahead : nat) (page : PageId) (after : option bytes) (rest : list entry) : Prop :=
  exists A l B, ls = A ++ l :: B /\ ahead = length B /\ page = leaf_page l /\ rest = past after (all_entries (l :: B)).

(** What a scan of one leaf promises. *)
Definition scanned (ls : list leaf) (ahead : nat) (page : PageId) (after : option bytes) (rest : list entry) (r : LeafScan) : Prop :=
  match r with
  | LeafEntry _ key sk rid => exists rest', rest = (key, rid) :: rest' /\ sk = sort_key (key, rid) /\ cursor ls ahead page (Some sk) rest'
  | EndOfLeaf (Some next) => exists ahead', ahead = S ahead' /\ cursor ls ahead' next after rest
  | EndOfLeaf None => rest = []
  end.

Section scans.
Context {P : Type} `{!PageStore P, !PageStoreLaws P}.
Abbreviation E := Storage.Error.
Implicit Types (m : gmap PageId bytes).

Lemma suffix_sorted m root A l B lv : btree_ok m root (A ++ l :: B) lv -> StronglySorted blt (sort_key <$> all_entries (l :: B)).
Proof.
  intros Hb. pose proof (items_sorted_entries _ (bt_sorted _ _ _ _ Hb)) as Hs. rewrite all_entries_app, fmap_app in Hs.
  by apply StronglySorted_app_1_r in Hs.
Qed.

Lemma scan_leaf_result m root A l B lv after b : btree_ok m root (A ++ l :: B) lv ->
  node_holds b Leaf (first_page B None) (leaf_payload <$> leaf_entries l) ->
  exists r, scan_leaf_page b (leaf_page l) after = Ok r /\ scanned (A ++ l :: B) (length B) (leaf_page l) after (past after (all_entries (l :: B))) r.
Proof.
  intros Hb Hh. destruct (leaf_sorted _ _ _ _ _ _ Hb) as [Heo Hsk]. pose proof (scan_leaf_page_eq Hh Heo Hsk (leaf_page l) after) as H.
  pose proof (suffix_sorted _ _ _ _ _ _ Hb) as Hso. assert (Ep : past after (all_entries (l :: B)) = past after (leaf_entries l) ++ past after (all_entries B))
    by apply past_app.
  destruct (past after (leaf_entries l)) as [| e rest] eqn:El.
  - exists (EndOfLeaf (first_page B None)). split; [done |]. rewrite Ep. cbn [app]. destruct B as [| l' B]; [done |].
    exists (length B). split; [done |]. exists (A ++ [l]), l', B. by rewrite <- app_assoc.
  - destruct H as [sl ->]. eexists. split; [done |]. cbn [scanned]. exists (rest ++ past after (all_entries B)).
    rewrite <- (surjective_pairing e). split_and!; [done | done |]. exists A, l, B. split_and!; [done | done | done |].
    symmetry. by apply (past_next after e).
Qed.

Lemma scan_leaf_spec n m root ls lv ahead page after rest : btree_ok m root ls lv -> cursor ls ahead page after rest ->
  triple n [] m (scan_leaf page after) n (fun _ => []) (fun r m' => m' = m /\ scanned ls ahead page after rest r) [] (fun m' => m' = m).
Proof.
  intros Hb (A & l & B & -> & -> & -> & ->). destruct (leaf_at _ _ _ _ _ _ Hb) as (Hr & b0 & Hb0 & Hh0).
  cbn [leaf_node nd_page nd_kind nd_tail nd_payloads] in *. unfold scan_leaf.
  apply (keeps_guarded ReadGuard); [set_solver | done | done |]. intros g Hg Hm.
  apply (triple_read _ _ _ _ b0); [left | by rewrite Hg | by eapply node_holds_len |]. intros b' Hb'.
  destruct (scan_leaf_result _ _ _ _ _ _ after b' Hb (node_holds_body _ _ _ _ _ Hb' Hh0)) as (r & Er & Hscan).
  apply triple_lift; [done |]. by rewrite Er.
Qed.

Lemma leaf_for_start_spec n m root ls lv start fuel : btree_ok m root ls lv -> (length lv < fuel)%nat ->
  triple n [] m (leaf_for_start fuel root start) n (fun _ => [])
    (fun p m' => m' = m /\ exists ahead, (ahead < length ls)%nat /\ cursor ls ahead p start (past start (all_entries ls))) [] (fun m' => m' = m).
Proof.
  intros Hb Hf. destruct start as [x |]; cbn [leaf_for_start].
  - eapply (triple_bind _ _ _ _ _ n (fun _ => [])); [by eapply descend_to_leaf_spec | done |].
    cbn beta. intros [p path] ? (-> & A & l & B & -> & Hc & Ep). cbn in Ep. subst p. apply triple_ret; [done | done |]. split; [done |].
    exists (length B). split; [rewrite length_app; cbn; lia |].
    exists A, l, B. split_and!; [done | done | done |]. rewrite all_entries_app, past_app, past_none; [done |].
    eapply Forall_impl; [by eapply left_below |]. cbn. intros e. apply blt_ble.
  - eapply triple_mono; [by eapply leftmost_leaf_spec | | done]. cbn beta. intros p m' (-> & l & B & -> & ->). split; [done |].
    exists (length B). split; [cbn; lia |]. by exists [], l, B.
Qed.
End scans.

(** ** The iterator *)
Section iterator.
Context {P : Type} `{!PageStore P, !PageStoreLaws P}.
Abbreviation E := Storage.Error.
Implicit Types (m : gmap PageId bytes).

Definition left_to_scan (ls : list leaf) (it : BTreeRangeIterator) (rest : list entry) : Prop :=
  match range_state it with
  | NotStarted start => rest = past start (all_entries ls)
  | InLeaf page after => exists ahead, (ahead < length ls)%nat /\ cursor ls ahead page after rest
  | RangeDone => rest = []
  end.
Definition below_end (end_ : option bytes) (e : entry) : bool := negb (past_end end_ e.1).

(** What [next] promises. *)
Definition range_step n m (ls : list leaf) (end_ : option bytes) (rest : list entry)
    (r : option (outcome E (bytes * Rid)) * BTreeRangeIterator * P) : Prop :=
  let '(item, it, s) := r in
  stored n [] s m /\ range_end it = end_ /\
  match item with
  | Some (Ok e) => exists rest', rest = e :: rest' /\ below_end end_ e = true /\ left_to_scan ls it rest'
  | Some (Err _) => range_state it = RangeDone
  | Some Panic => False
  | None => range_state it = RangeDone /\ take_while (below_end end_) rest = []
  end.

Lemma range_next_done n m root ls end_ s fuel : stored n [] s m -> (0 < fuel)%nat ->
  range_step n m ls end_ [] (range_next fuel root (mkRange end_ RangeDone) s).
Proof. intros Hs Hf. destruct fuel; [lia |]. by cbn. Qed.

Lemma range_next_leaf n m root ls lv end_ ahead : forall page after rest s fuel, btree_ok m root ls lv -> cursor ls ahead page after rest ->
  (ahead < length ls)%nat -> (ahead + 2 <= fuel)%nat -> stored n [] s m ->
  range_step n m ls end_ rest (range_next fuel root (mkRange end_ (InLeaf page after)) s).
Proof.
  induction ahead as [ahead IH] using lt_wf_ind. intros page after rest s fuel Hb Hc Hlt Hf Hs. destruct fuel as [| fuel]; [lia |].
  cbn [range_next range_state range_end]. pose proof (scan_leaf_spec n m root ls lv ahead page after rest Hb Hc s Hs) as H.
  destruct (scan_leaf page after s) as [[r | e |] s']; [| | done].
  - destruct H as (m' & Hs' & -> & H). destruct r as [sl key sk rid | [next |]]; cbn [scanned] in H.
    + destruct H as (rest' & -> & -> & Hc'). destruct (past_end end_ key) eqn:Ep; cbn.
      * unfold below_end. cbn. by rewrite Ep.
      * unfold below_end. cbn. rewrite Ep. split_and!; [done | done |]. exists rest'. split_and!; [done | done |].
        exists ahead. by split.
    + destruct H as (ahead' & -> & Hc'). apply (IH ahead'); [lia | done | done | lia | lia | done].
    + subst rest. apply range_next_done; [done | lia].
  - by destruct H as (m' & Hs' & ->).
Qed.

Lemma range_next_spec n m root ls lv it rest s fuel : btree_ok m root ls lv -> left_to_scan ls it rest ->
  (length ls + 2 <= fuel)%nat -> (length lv + 2 <= fuel)%nat -> stored n [] s m ->
  range_step n m ls (range_end it) rest (range_next fuel root it s).
Proof.
  intros Hb Hl Hf1 Hf2 Hs. destruct it as [end_ st]. unfold left_to_scan in Hl. cbn [range_state range_end] in *.
  destruct st as [start | page after |].
  - subst rest. destruct fuel as [| fuel]; [lia |]. cbn [range_next range_state range_end].
    pose proof (leaf_for_start_spec n m root ls lv start fuel Hb ltac:(lia) s Hs) as H.
    destruct (leaf_for_start fuel root start s) as [[p | e |] s']; [| | done].
    + destruct H as (m' & Hs' & -> & ahead & Ha & Hc). apply (range_next_leaf n m root ls lv end_ ahead); [done | done | done | lia | done].
    + by destruct H as (m' & Hs' & ->).
  - destruct Hl as (ahead & Ha & Hc). apply (range_next_leaf n m root ls lv end_ ahead); [done | done | done | lia | done].
  - subst rest. apply range_next_done; [done | lia].
Qed.

(** The loop [for item in index.range_scan(start, end)], up to the first error. *)
Fixpoint range_collect (steps fuel : nat) (root : PageId) (it : BTreeRangeIterator) (s : P) : outcome E (list (bytes * Rid)) * P :=
  match steps with
  | O => (Panic, s)
  | S steps =>
      match range_next fuel root it s with
      | (None, _, s) => (Ok [], s)
      | (Some (Ok e), it, s) =>
          match range_collect steps fuel root it s with
          | (Ok l, s) => (Ok (e :: l), s)
          | r => r
          end
      | (Some (Err e), _, s) => (Err e, s)
      | (Some Panic, _, s) => (Panic, s)
      end
  end.

Lemma range_collect_spec n m root ls lv steps fuel rest : forall it s, btree_ok m root ls lv -> left_to_scan ls it rest ->
  (length ls + 2 <= fuel)%nat -> (length lv + 2 <= fuel)%nat -> stored n [] s m -> (length rest < steps)%nat ->
  match range_collect steps fuel root it s with
  | (Ok l, s') => l = take_while (below_end (range_end it)) rest /\ stored n [] s' m
  | (Err _, s') => stored n [] s' m
  | (Panic, _) => False
  end.
Proof.
  revert steps. induction rest as [| e0 rest IH]; intros steps it s Hb Hl Hf1 Hf2 Hs Hst; (destruct steps as [| steps]; [lia |]); cbn [range_collect];
    pose proof (range_next_spec n m root ls lv it _ s fuel Hb Hl Hf1 Hf2 Hs) as H;
    destruct (range_next fuel root it s) as [[[[e | e |] |] it'] s']; cbn [range_step] in H; destruct H as (Hs' & He & H); try done.
  - by destruct H as (? & ? & _).
  - destruct H as (rest' & [= -> ->] & Hbe & Hl'). cbn in Hst.
    pose proof (IH steps it' s' Hb Hl' Hf1 Hf2 Hs' ltac:(lia)) as H. rewrite He in H.
    destruct (range_collect steps fuel root it' s') as [[l | |] s'']; [| done | done].
    destruct H as [-> H]. cbn [take_while]. by rewrite Hbe.
  - destruct H as [_ H]. by rewrite H.
Qed.
End iterator.
