(* ===== verification/BtreeProps.v ===== *)
(** * The B-tree over the buffer pool

    The theorems about the index: it refines the sorted list of its entries; lookups and range scans are
    exact when no key is a proper prefix of another, and need not be otherwise; when a split fits. *)
From stdpp Require Import sorting.
From S2P Require Import Prelude Text Value Common Errors Memcomparable Page Slots Disk Dwb Replacer Buffer BufferInv BufferFlush BufferSpec BufferLaws StorageSpec.
From S2P Require Import BtreeNode Btree BtreePage BtreeWrites BtreeTree BtreeSpec BtreeInsert BtreeScan.

(** ** Keys that are not prefixes of each other *)
Definition prefix_free (ks : list bytes) : Prop := forall a b, a ∈ ks -> b ∈ ks -> a `prefix_of` b -> a = b.

Lemma lex_compare_app_diff a b s t : ~ a `prefix_of` b -> ~ b `prefix_of` a -> lex_compare (a ++ s) (b ++ t) = lex_compare a b.
Proof.
  revert b. induction a as [| x a IH]; intros b Ha Hb; [by destruct Ha; apply prefix_nil |].
  destruct b as [| y b]; [by destruct Hb; apply prefix_nil |]. cbn. destruct (byte_compare x y) eqn:E; [| done | done].
  apply byte_compare_eq in E as ->. apply IH; intros H; [apply Ha | apply Hb]; by apply prefix_cons.
Qed.

Lemma sort_key_order a b : ~ a.1 `prefix_of` b.1 -> ~ b.1 `prefix_of` a.1 -> blt (sort_key a) (sort_key b) -> blt a.1 b.1.
Proof. intros Ha Hb. unfold blt, sort_key. by rewrite lex_compare_app_diff. Qed.

Lemma ble_app a s : ble a (a ++ s).
Proof. unfold ble. induction a as [| x a IH]; cbn; [by destruct s |]. by rewrite (proj2 (byte_compare_eq x x) eq_refl). Qed.
Lemma key_below_sort_key e : blt e.1 (sort_key e).
Proof.
  destruct (proj1 (ble_lt_eq _ _) (ble_app e.1 (to_le 4 (page_id e.2) ++ to_le 2 (slot e.2)))) as [H | H]; [exact H |].
  apply (f_equal len) in H. rewrite len_app in H. fold (sort_key e) in H. pose proof (len_sort_key e) as E. unfold sort_key in E.
  rewrite len_app in E. lia.
Qed.

(** Among such keys the order of the sort keys is that of the keys. *)
Lemma sorted_keys es : prefix_free es.*1 -> StronglySorted blt (sort_key <$> es) -> StronglySorted (fun a b => ble a.1 b.1) es.
Proof.
  intros Hp Hs. induction es as [| e es IH]; [constructor |]. cbn in Hs. apply StronglySorted_cons in Hs as [Hf Hs].
  constructor; [apply IH; [intros a b Ha Hb; apply Hp; by right | done] |]. apply Forall_forall. intros x Hx.
  rewrite Forall_forall in Hf. specialize (Hf (sort_key x) (list_elem_of_fmap_2 _ _ _ Hx)).
  assert (H1 : e.1 ∈ (e :: es).*1) by left. assert (H2 : x.1 ∈ (e :: es).*1) by (right; by apply list_elem_of_fmap_2).
  destruct (decide (e.1 = x.1)) as [-> | Hne]; [apply ble_refl |]. apply blt_ble, (sort_key_order e x); [| | done].
  - intros H. apply Hne. by apply Hp.
  - intros H. apply Hne. symmetry. by apply Hp.
Qed.

Lemma take_while_filter {A} (R : relation A) (q : A -> bool) l : StronglySorted R l -> (forall x y, R x y -> q y = true -> q x = true) ->
  take_while q l = filter (fun x => q x = true) l.
Proof.
  intros Hs HR. induction Hs as [| x l Hs IH Hx]; [done |]. cbn [take_while]. rewrite filter_cons. destruct (q x) eqn:E.
  - rewrite decide_True by done. by rewrite IH.
  - rewrite decide_False by done. symmetry. apply filter_none, Forall_forall. intros y Hy Hq. rewrite Forall_forall in Hx.
    specialize (HR x y (Hx y Hy) Hq). congruence.
Qed.
Lemma sorted_filter {A} (R : relation A) (Q : A -> Prop) `{!forall x, Decision (Q x)} l : StronglySorted R l -> StronglySorted R (filter Q l).
Proof. apply sorted_sublist, sublist_filter. Qed.

Lemma key_above key e : (e.1 `prefix_of` key -> e.1 = key) -> (key `prefix_of` e.1 -> e.1 = key) -> ble key (sort_key e) -> ble key e.1.
Proof.
  intros H1 H2 Hle. destruct (decide (e.1 = key)) as [-> | Hne]; [apply ble_refl |]. unfold ble in *.
  rewrite <- (app_nil_r key) in Hle. unfold sort_key in Hle. rewrite lex_compare_app_diff in Hle; [done | by intros ?%H2 | by intros ?%H1].
Qed.
Lemma ble_antisym a b : ble a b -> ble b a -> a = b.
Proof. rewrite !ble_lt_eq. intros [H1 | ->] [H2 | H2]; try done. by destruct (blt_irrefl a); apply (blt_trans _ b). Qed.

(** A lookup finds the entries with the key. *)
Lemma matches_exact key es : prefix_free (key :: es.*1) -> StronglySorted blt (sort_key <$> es) ->
  matches key es = (filter (fun e => e.1 = key) es).*2.
Proof.
  intros Hp Hs. unfold matches. f_equal. pose proof (sorted_keys es ltac:(intros a b Ha Hb; apply Hp; by right) Hs) as Hk.
  assert (Hge : Forall (fun e => ble key (sort_key e) -> ble key e.1) es).
  { apply Forall_forall. intros e He. assert (Hin : e.1 ∈ key :: es.*1) by (right; by apply list_elem_of_fmap_2).
    apply key_above; intros H; [apply Hp; [done | left | done] | symmetry; apply Hp; [left | done | done]]. }
  rewrite (take_while_filter (fun a b => ble a.1 b.1 /\ ble key a.1)).
  - unfold from_key. rewrite list_filter_filter. apply list_filter_iff. intros e. unfold has_key. rewrite bool_decide_eq_true.
    split; [tauto |]. intros <-. split; [done | apply blt_ble, key_below_sort_key].
  - unfold from_key. clear Hs Hp. induction Hk as [| x l Hk IH Hx]; [constructor |]. rewrite filter_cons.
    apply Forall_cons in Hge as [Hg Hge]. destruct (decide (ble key (sort_key x))); [| by apply IH]. constructor; [by apply IH |].
    apply Forall_forall. intros y [_ Hy]%list_elem_of_filter. rewrite Forall_forall in Hx. split; [by apply Hx | by apply Hg].
  - unfold has_key. intros x y [Hxy Hkx] <-%bool_decide_eq_true. apply bool_decide_eq_true. by apply ble_antisym.
Qed.

(** A range scan finds the entries in the range. *)
Lemma range_exact es start end_ : prefix_free es.*1 -> StronglySorted blt (sort_key <$> es) ->
  take_while (below_end end_) (past start es) = filter (fun e => beyond start e /\ below_end end_ e = true) es.
Proof.
  intros Hp Hs. rewrite (take_while_filter (fun a b => ble a.1 b.1)).
  - unfold past. rewrite list_filter_filter. apply list_filter_iff. intros e. tauto.
  - by apply sorted_filter, sorted_keys.
  - unfold below_end. intros x y Hxy Hy. destruct end_ as [k |]; [| done]. cbn in *. apply negb_true_iff, key_le_false in Hy.
    apply negb_true_iff, key_le_false. by eapply ble_blt_trans.
Qed.

(** ** Splits and the size of a page *)
Lemma total_size_app a b : total_size (a ++ b) = total_size a + total_size b.
Proof. induction a as [| e a IH]; [done |]. cbn [app]. unfold total_size in *. cbn. rewrite IH. lia. Qed.
Lemma total_size_nonneg es : 0 <= total_size es.
Proof.
  induction es as [| e es IH]; [done |]. change (total_size (e :: es)) with (entry_size e + total_size es). pose proof (len_nonneg e). unfold entry_size, SLOT_SIZE. lia.
Qed.

(** The entry at which the running total reaches the target. *)
Lemma split_loop_spec target running i es j : split_loop target running i es = Some j ->
  exists a e b, es = a ++ e :: b /\ j = i + len a /\ (a = [] \/ running + total_size a < target) /\ target <= running + total_size a + entry_size e.
Proof.
  revert running i. induction es as [| e es IH]; intros running i; cbn [split_loop]; [done |].
  destruct (Z.leb_spec target (running + entry_size e)) as [Hle | Hlt].
  - intros [= <-]. exists [], e, es. cbn. split_and!; [done | unfold len; cbn; lia | by left | lia].
  - intros H. apply IH in H as (a & e' & b & -> & -> & Ha & Ht). exists (e :: a), e', b. cbn [app]. rewrite len_cons.
    change (total_size (e :: a)) with (entry_size e + total_size a). split_and!; [done | lia | | lia].
    right. destruct Ha as [-> | Ha]; [cbn; lia | lia].
Qed.
Lemma split_loop_none target running i es : split_loop target running i es = None -> es <> [] -> running + total_size es < target.
Proof.
  revert running i. induction es as [| e es IH]; intros running i; cbn [split_loop]; [done |].
  destruct (Z.leb_spec target (running + entry_size e)) as [Hle | Hlt]; [done |]. intros H _. change (total_size (e :: es)) with (entry_size e + total_size es).
  destruct es as [| e' es]; [cbn; lia |]. specialize (IH _ _ H ltac:(done)). lia.
Qed.

(** The balanced split point cuts at an entry: less than half before it, at least half with it. *)
Lemma balanced_split es : es <> [] -> exists a e b, es = a ++ e :: b /\ byte_balanced_split_point es = len a
  /\ (a = [] \/ total_size a < total_size es / 2) /\ total_size es / 2 <= total_size a + entry_size e.
Proof.
  intros Hne. unfold byte_balanced_split_point. destruct (split_loop (total_size es / 2) 0 0 es) as [j |] eqn:Ej.
  - apply split_loop_spec in Ej as (a & e & b & E & -> & Ha & Ht). exists a, e, b. cbn. unfold id. split_and!; [done | done | done | lia].
  - exfalso. apply split_loop_none in Ej; [| done]. pose proof (total_size_nonneg es). pose proof (Z.div_le_upper_bound (total_size es) 2 (total_size es)). lia.
Qed.

(** Largest entry, with its slot, of a leaf whose splits cannot fail. *)
Definition SPLITTABLE : Z := 1358.

Lemma len_nil_inv {A} (l : list A) : len l <= 0 -> l = [].
Proof. destruct l; [done |]. rewrite len_cons. pose proof (len_nonneg l). lia. Qed.
Lemma split_total es : total_size es - total_size es / 2 <= total_size es / 2 + 1.
Proof. pose proof (Z.div_mod (total_size es) 2). pose proof (Z.mod_pos_bound (total_size es) 2). lia. Qed.

Lemma leaf_split_fits es mid : total_size es <= PAGE_SIZE - HEADER_SIZE + SPLITTABLE -> Forall (fun e => entry_size e <= SPLITTABLE) es ->
  leaf_split_point es = Ok mid -> node_size (take (Z.to_nat mid) es) <= PAGE_SIZE /\ node_size (drop (Z.to_nat mid) es) <= PAGE_SIZE.
Proof.
  intros Ht Hs Hm. destruct (decide (es = [])) as [-> | Hne]; [rewrite take_nil, drop_nil; done |].
  destruct (balanced_split es Hne) as (a & e & b & -> & Ep & Ha & Hh). pose proof (split_total (a ++ e :: b)) as H2.
  assert (He : entry_size e <= SPLITTABLE). { rewrite Forall_forall in Hs. apply Hs. set_solver. }
  unfold leaf_split_point, clamp in Hm. rewrite Ep in Hm. set (T := total_size (a ++ e :: b)) in *.
  assert (HT : T = total_size a + entry_size e + total_size b).
  { unfold T. rewrite total_size_app. change (total_size (e :: b)) with (entry_size e + total_size b). lia. }
  pose proof (total_size_nonneg a). pose proof (total_size_nonneg b). unfold node_size. change PAGE_SIZE with 4096 in *.
  change HEADER_SIZE with 21 in *. unfold SPLITTABLE in *. rewrite len_app, len_cons in Hm.
  pose proof (len_nonneg a). pose proof (len_nonneg b).
  assert (HT2 : T / 2 <= 2716) by (pose proof (Z.mul_div_le T 2); lia).
  destruct (Z.ltb_spec (len a + (1 + len b) - 1) 1) as [| Hlen]; [done |].
  destruct (Z.ltb_spec (len a + 1) 1); [lia |]. destruct (Z.ltb_spec (len a + (1 + len b) - 1) (len a + 1)) as [Hb | Hb]; injection Hm as <-.
  - assert (b = []) as -> by (apply len_nil_inv; lia).
    change (len []) with 0. replace (Z.to_nat (len a + (1 + 0) - 1)) with (length a) by (unfold len; lia).
    rewrite take_app_length, drop_app_length. change (total_size [e]) with (entry_size e + 0). destruct Ha as [-> | Ha]; [cbn |]; lia.
  - replace (Z.to_nat (len a + 1)) with (length (a ++ [e])) by (rewrite length_app; unfold len; cbn; lia).
    rewrite (app_assoc a [e] b : a ++ e :: b = (a ++ [e]) ++ b), take_app_length, drop_app_length, total_size_app.
    change (total_size [e]) with (entry_size e + 0). destruct Ha as [-> | Ha]; [cbn in *; lia |]. lia.
Qed.

Lemma take_drop_at {A} (a : list A) x b : take (length a) (a ++ x :: b) = a /\ drop (S (length a)) (a ++ x :: b) = b.
Proof. rewrite take_app_length. split; [done |].
  replace (S (length a)) with (length (a ++ [x])) by (rewrite length_app; cbn; lia).
  by rewrite (app_assoc a [x] b : a ++ x :: b = (a ++ [x]) ++ b), drop_app_length.
Qed.

(** An entry in the middle goes up; neither side is larger than a page. *)
Lemma internal_split_fits es mid : total_size es <= 2 * (PAGE_SIZE - HEADER_SIZE) -> Forall (fun e => entry_size e <= PAGE_SIZE - HEADER_SIZE) es ->
  es <> [] -> internal_split_point es = Ok mid ->
  node_size (take (Z.to_nat mid) es) <= PAGE_SIZE /\ node_size (drop (S (Z.to_nat mid)) es) <= PAGE_SIZE.
Proof.
  intros Ht Hs Hne Hm. destruct (balanced_split es Hne) as (a & e & b & -> & Ep & Ha & Hh). pose proof (split_total (a ++ e :: b)) as H2.
  unfold internal_split_point in Hm. rewrite Ep in Hm. set (T := total_size (a ++ e :: b)) in *.
  assert (HT : T = total_size a + entry_size e + total_size b).
  { unfold T. rewrite total_size_app. change (total_size (e :: b)) with (entry_size e + total_size b). lia. }
  pose proof (total_size_nonneg a). pose proof (total_size_nonneg b). unfold node_size. change PAGE_SIZE with 4096 in *.
  change HEADER_SIZE with 21 in *. pose proof (len_nonneg a). pose proof (len_nonneg b).
  assert (HT2 : T / 2 <= 4075 /\ T - T / 2 <= 4075) by (pose proof (Z.div_mod T 2); pose proof (Z.mod_pos_bound T 2); lia).
  assert (Hmid : 21 + total_size a <= 4096 /\ 21 + total_size b <= 4096) by (destruct Ha as [-> | Ha]; [cbn in *; lia | lia]).
  destruct (take_drop_at a e b) as [Eta Edb]. pose proof (to_nat_len a) as Ela.
  destruct (Z.leb_spec 3 (len (a ++ e :: b))) as [Hge | Hlt]; rewrite len_app, len_cons in *.
  - unfold clamp in Hm. destruct (Z.ltb_spec (len a + (1 + len b) - 2) 1); [lia |].
    destruct (Z.ltb_spec (len a) 1) as [Hz | Hz]; [| destruct (Z.ltb_spec (len a + (1 + len b) - 2) (len a)) as [Hl | Hl]]; injection Hm as <-.
    + assert (a = []) as -> by (apply len_nil_inv; lia). apply Forall_cons in Hs as [He _]. destruct b as [| x b]; [change (len []) with 0 in *; lia |].
      change (total_size (x :: b)) with (entry_size x + total_size b) in *. pose proof (len_nonneg x).
      change (Z.to_nat 1) with 1%nat. cbn [app take drop]. change (total_size [e]) with (entry_size e + 0).
      unfold entry_size in Hmid. unfold SLOT_SIZE in Hmid. rewrite drop_0. lia.
    + assert (b = []) as -> by (apply len_nil_inv; lia). destruct (exists_last (l := a)) as (a' & x & ->); [by intros -> |].
      rewrite total_size_app in Hmid. change (total_size [x]) with (entry_size x + 0) in Hmid. pose proof (len_nonneg x).
      unfold entry_size at 1 in Hmid. unfold SLOT_SIZE in Hmid.
      replace (Z.to_nat (len (a' ++ [x]) + (1 + len []) - 2)) with (length a') by (rewrite len_app; unfold len; cbn; lia).
      rewrite <- app_assoc. cbn [app]. destruct (take_drop_at a' x [e]) as [-> ->]. apply Forall_app in Hs as [_ Hs]. apply Forall_cons in Hs as [He _].
      change (total_size [e]) with (entry_size e + 0). lia.
    + rewrite Ela, Eta, Edb. exact Hmid.
  - injection Hm as <-. rewrite Z.min_l by lia. rewrite Ela, Eta, Edb. exact Hmid.
Qed.

(** ** The operations of the index over the buffer pool *)
Inductive btree_op : Type :=
| BInsert (e : entry)
| BGet (key : bytes)
| BRange (start end_ : option bytes).
Inductive btree_result : Type :=
| BRoot (root : PageId)
| BRids (rids : list Rid)
| BEntries (es : list entry).

Definition btree_cost (op : btree_op) (height : nat) : nat := match op with BInsert _ => INSERT_COST height | _ => O end.
(** An entry is inserted once; the row id in it makes it unique. *)
Definition btree_op_ok (es : list entry) (op : btree_op) : Prop :=
  match op with BInsert e => entry_ok e /\ e ∉ es | _ => True end.

(** What the operations do to the sorted list of entries. *)
Definition btree_step (root : PageId) (es : list entry) (op : btree_op) (r : btree_result) (root' : PageId) (es' : list entry) : Prop :=
  match op with
  | BInsert e => r = BRoot root' /\ es' ≡ₚ e :: es
  | BGet key => r = BRids (matches key es) /\ root' = root /\ es' = es
  | BRange start end_ => r = BEntries (take_while (below_end end_) (past start es)) /\ root' = root /\ es' = es
  end.

Section pool.
Context {R : Type} `{!Replacer R, !ReplacerLaws R}.
Implicit Types (s : BufferPool R).

Definition run_btree_op (fuel : nat) (t : TxnId) (root : PageId) (op : btree_op) s : outcome Storage.Error btree_result * BufferPool R :=
  match op with
  | BInsert e => (root ← btree_insert fuel t root e.1 e.2; mret (BRoot root)) s
  | BGet key => (rids ← btree_get fuel root key; mret (BRids rids)) s
  | BRange start end_ =>
      (es ← (range_collect fuel fuel root (range_scan start end_) : M _ Storage.Error (list entry)); mret (BEntries es)) s
  end.

Definition btree_post n (root : PageId) (ls : list leaf) (lv : list (list inner)) s (op : btree_op)
    (r : outcome Storage.Error btree_result * BufferPool R) : Prop :=
  match r with
  | (Ok r, s') => pool_ok n [] s' /\ same_outside (tree_pages ls lv) (pool_pages s) (pool_pages s')
      /\ exists root' ls' lv', btree_ok (pool_pages s') root' ls' lv' /\ btree_step root (all_entries ls) op r root' (all_entries ls')
  | (Err _, s') => pool_ok n [] s' /\ same_outside (tree_pages ls lv) (pool_pages s) (pool_pages s')
  | (Panic, _) => False
  end.

Lemma btree_op_spec n s fuel t root ls lv op :
  pool_ok (btree_cost op (length lv) + n) [] s -> btree_ok (pool_pages s) root ls lv -> btree_op_ok (all_entries ls) op ->
  (length lv + length ls + length (all_entries ls) + 2 <= fuel)%nat ->
  btree_post n root ls lv s op (run_btree_op fuel t root op s).
Proof.
  intros Hok Hb Hop Hf. destruct op as [e | key | start end_]; cbn [run_btree_op btree_cost btree_op_ok] in *; unfold mbind, M_bind.
  - destruct Hop as [He Hnew]. replace fuel with (length lv + S (fuel - length lv - 1))%nat by lia.
    pose proof (triple_at _ s _ _ _ _ (btree_insert_spec n _ root ls lv e (fuel - length lv - 1) t Hb He Hnew) Hok) as H.
    destruct (btree_insert _ t root e.1 e.2 s) as [[root' | err |] s']; [| done | done].
    destruct H as (Hok' & ls' & lv' & Hb' & Hp & Hsame & _). split_and!; [done | done |]. by exists root', ls', lv'.
  - pose proof (triple_at _ s _ _ _ _ (btree_get_spec n _ root ls lv key fuel Hb ltac:(lia) ltac:(lia)) Hok) as H.
    destruct (btree_get fuel root key s) as [[rids | err |] s']; [| | done].
    + destruct H as (Hok' & Hm & ->). cbn. rewrite Hm. split_and!; [done | apply same_outside_refl |]. by exists root, ls, lv.
    + destruct H as (Hok' & Hm). cbn. rewrite Hm. split; [done | apply same_outside_refl].
  - assert (Hlen : (length (past start (all_entries ls)) < fuel)%nat).
    { unfold past. pose proof (length_filter (beyond start) (all_entries ls)). lia. }
    pose proof (range_collect_spec n (pool_pages s) root ls lv fuel fuel _ (range_scan start end_) s Hb eq_refl ltac:(lia) ltac:(lia)
      (conj Hok eq_refl) Hlen) as H.
    destruct (range_collect fuel fuel root (range_scan start end_) s) as [[es | err |] s']; [| | done].
    + destruct H as (-> & Hok' & Hm). cbn in Hm. cbn. rewrite Hm. split_and!; [done | apply same_outside_refl |]. by exists root, ls, lv.
    + destruct H as (Hok' & Hm). cbn in Hm. cbn. rewrite Hm. split; [done | apply same_outside_refl].
Qed.
End pool.

(** ** A tree to look at *)
Definition sample_tree : BufferPool LruKReplacer := (btree_create 1 sample_pool).2.
Lemma INSERT_COST_0 : Z.of_nat (INSERT_COST 0) <= 20000.
Proof. unfold INSERT_COST. rewrite PUSH_COST_eq. unfold REBUILD_COST, PAGE_SIZE. lia. Qed.
Lemma sample_tree_ok n : Z.of_nat n < 2 ^ 20 -> pool_ok n [] sample_tree /\ btree_ok (pool_pages sample_tree) 1 [mkLeaf [] 1 []] [].
Proof.
  intros Hn. pose proof (triple_at _ sample_pool _ _ _ _ (btree_create_spec n (pool_pages sample_pool) 1) (sample_pool_room (2 + n) ltac:(lia))) as H.
  assert (E : (btree_create 1 sample_pool).1 = Ok 1) by (vm_compute; reflexivity). unfold sample_tree.
  destruct (btree_create 1 sample_pool) as [o s]. cbn in E |- *. subst o. by destruct H as (H1 & _ & _ & H2).
Qed.
Definition sample_entry : entry := (str "k", mkRid 1 0).
Lemma sample_entry_ok : entry_ok sample_entry.
Proof. repeat split; vm_compute; congruence. Qed.

(** C12: The B-tree index over the buffer pool refines the sorted list of its entries (pairs of a key and
    a row id). From any pool that holds a tree, an insert yields a tree with exactly that entry added and
    returns its root, whether the leaf takes the entry or splits run up to a new root; [get] returns the
    row ids of the run of entries with the key from where the key sorts; iterating a range scan to its
    end returns the entries past the start up to the first key at or past the end, in order. Nothing
    panics, the loops end, all guards are dropped, and pages outside the tree keep their content, also
    when the operation fails. *)
Theorem btree_refines_entries {R} `{!Replacer R, !ReplacerLaws R} n (s : BufferPool R) fuel t root ls lv op :
  pool_ok (btree_cost op (length lv) + n) [] s -> btree_ok (pool_pages s) root ls lv -> btree_op_ok (all_entries ls) op ->
  (length lv + length ls + length (all_entries ls) + 2 <= fuel)%nat ->
  match run_btree_op fuel t root op s with
  | (Ok r, s') => pool_ok n [] s' /\ same_outside (tree_pages ls lv) (pool_pages s) (pool_pages s')
      /\ exists root' ls' lv', btree_ok (pool_pages s') root' ls' lv' /\ btree_step root (all_entries ls) op r root' (all_entries ls')
  | (Err _, s') => pool_ok n [] s' /\ same_outside (tree_pages ls lv) (pool_pages s) (pool_pages s')
  | (Panic, _) => False
  end.
Proof. intros Hok Hb Hop Hf. exact (btree_op_spec n s fuel t root ls lv op Hok Hb Hop Hf). Qed.

Lemma btree_refines_entries_witness : exists s' ls' lv',
  run_btree_op 3 1 1 (BInsert sample_entry) sample_tree = (Ok (BRoot 1), s')
  /\ btree_ok (pool_pages s') 1 ls' lv' /\ all_entries ls' ≡ₚ [sample_entry].
Proof.
  pose proof INSERT_COST_0 as Hc. destruct (sample_tree_ok (INSERT_COST 0 + 0) ltac:(lia)) as [Hok Hb].
  pose proof (btree_refines_entries 0 sample_tree 3 1 1 [mkLeaf [] 1 []] [] (BInsert sample_entry) Hok Hb
    (conj sample_entry_ok (not_elem_of_nil sample_entry)) ltac:(cbn; lia)) as H.
  assert (E : (run_btree_op 3 1 1 (BInsert sample_entry) sample_tree).1 = Ok (BRoot 1)) by (vm_compute; reflexivity).
  destruct (run_btree_op 3 1 1 (BInsert sample_entry) sample_tree) as [o s']. cbn in E. subst o.
  destruct H as (_ & _ & root' & ls' & lv' & H1 & H2 & H3). injection H2 as <-. exists s', ls', lv'. by split_and!.
Defined.

(** C34: Lookups are exact when keys are not proper prefixes of one another. [get] then returns exactly
    the row ids of the entries with the key, and a range scan exactly the entries whose sort key is past
    the start and whose key is before the end; every entry with a key from the start to before the end
    is among them. *)
Theorem btree_lookups_exact {R} `{!Replacer R, !ReplacerLaws R} n (s : BufferPool R) fuel root ls lv :
  pool_ok n [] s -> btree_ok (pool_pages s) root ls lv -> prefix_free (all_entries ls).*1 ->
  (length lv + length ls + length (all_entries ls) + 2 <= fuel)%nat ->
  (forall key, prefix_free (key :: (all_entries ls).*1) ->
     match btree_get fuel root key s with
     | (Ok rids, _) => rids = (filter (fun e => e.1 = key) (all_entries ls)).*2
     | (Err _, _) => True
     | (Panic, _) => False
     end)
  /\ (forall start end_,
     match range_collect fuel fuel root (range_scan start end_) s with
     | (Ok es, _) => es = filter (fun e => beyond start e /\ below_end end_ e = true) (all_entries ls)
         /\ (forall e, e ∈ all_entries ls -> from_option (fun a => ble a e.1) True start -> below_end end_ e = true -> e ∈ es)
     | (Err _, _) => True
     | (Panic, _) => False
     end).
Proof.
  intros Hok Hb Hp Hf. pose proof (items_sorted_entries _ (bt_sorted _ _ _ _ Hb)) as Hs. split.
  - intros key Hk. pose proof (btree_op_spec n s fuel 0 root ls lv (BGet key) Hok Hb I Hf) as H. cbn in H. unfold mbind, M_bind in H.
    destruct (btree_get fuel root key s) as [[rids | e |] s']; [| done | done]. destruct H as (_ & _ & ? & ? & ? & _ & [= ->] & _).
    by apply matches_exact.
  - intros start end_. pose proof (btree_op_spec n s fuel 0 root ls lv (BRange start end_) Hok Hb I Hf) as H. cbn in H. unfold mbind, M_bind in H.
    destruct (range_collect fuel fuel root _ s) as [[es | e |] s']; [| done | done]. destruct H as (_ & _ & ? & ? & ? & _ & [= ->] & _).
    rewrite range_exact by done. split; [done |]. intros e He Hst Hen. apply list_elem_of_filter. split; [| done]. split; [| done].
    destruct start as [a |]; [| done]. cbn in Hst |- *. eapply ble_blt_trans; [exact Hst | apply key_below_sort_key].
Qed.

Lemma btree_lookups_exact_witness : exists s', btree_get 3 1 (str "k") sample_tree = (Ok [], s').
Proof.
  destruct (sample_tree_ok 0 ltac:(lia)) as [Hok Hb].
  destruct (btree_lookups_exact 0 sample_tree 3 1 [mkLeaf [] 1 []] [] Hok Hb) as [H _];
    [intros a b Ha; inversion Ha | cbn; lia |].
  specialize (H (str "k")). assert (E : exists r, (btree_get 3 1 (str "k") sample_tree).1 = Ok r) by (eexists; vm_compute; reflexivity).
  destruct E as [r E]. destruct (btree_get 3 1 (str "k") sample_tree) as [o s']. cbn in E. subst o. exists s'.
  rewrite H; [reflexivity |]. intros a b ->%list_elem_of_singleton ->%list_elem_of_singleton _. reflexivity.
Defined.

(** Keys of a VARCHAR column, as the executor encodes them. *)
Definition varchar_key (v : bytes) : bytes := match encode_memcomparable (Value.Varchar v) [] with Ok k => k | _ => [] end.
(** The rows of 'a' and of 'ab', in an index of their column. *)
Definition two_varchars : BufferPool LruKReplacer :=
  ((root ← btree_insert 10 1 1 (varchar_key (str "a")) (mkRid 99 0);
    btree_insert 10 1 root (varchar_key (str "ab")) (mkRid 5 0)) sample_tree).2.


(** Splits and the size of a page. Splitting an internal node whose entries each fit in a page, and fit
    together in two, gives two nodes that fit. Splitting a leaf does so when no entry, with its slot,
    takes more than 1358 bytes. *)
Theorem splits_fit es mid :
  (total_size es <= 2 * (PAGE_SIZE - HEADER_SIZE) -> Forall (fun e => entry_size e <= PAGE_SIZE - HEADER_SIZE) es -> es <> [] ->
   internal_split_point es = Ok mid ->
   node_size (take (Z.to_nat mid) es) <= PAGE_SIZE /\ node_size (drop (S (Z.to_nat mid)) es) <= PAGE_SIZE)
  /\ (total_size es <= PAGE_SIZE - HEADER_SIZE + SPLITTABLE -> Forall (fun e => entry_size e <= SPLITTABLE) es ->
   leaf_split_point es = Ok mid -> node_size (take (Z.to_nat mid) es) <= PAGE_SIZE /\ node_size (drop (Z.to_nat mid) es) <= PAGE_SIZE).
Proof. split; [apply internal_split_fits | apply leaf_split_fits]. Qed.

Lemma splits_fit_witness :
  let es := [str "one"; str "two"; str "three"] in
  leaf_split_point es = Ok 2 /\ internal_split_point es = Ok 1
  /\ node_size (take 2 es) <= PAGE_SIZE /\ node_size (drop 2 es) <= PAGE_SIZE.
Proof.
  cbn zeta. split; [reflexivity |]. split; [reflexivity |].
  apply (proj2 (splits_fit [str "one"; str "two"; str "three"] 2));
    [vm_compute; congruence | repeat constructor; vm_compute; congruence | reflexivity].
Defined.

Definition long_key (n : Z) : bytes := replicate (Z.to_nat n) Byte.x61.
Definition three_long_keys : outcome Storage.Error PageId :=
  ((root ← btree_insert 10 1 1 (long_key 1488) (mkRid 9 0);
    root ← btree_insert 10 1 root (Byte.x62 :: long_key 1387) (mkRid 5 0);
    btree_insert 10 1 root (Byte.x61 :: Byte.x62 :: long_key 2586) (mkRid 5 0)) sample_tree).1.

