(* ===== verification/CatalogStore.v ===== *)
(** * Writing the catalog: crates/catalog/src/catalog.rs

    The operations of [Catalog] that go through the buffer pool: creating tables and indexes, moving the
    root of an index, and reading everything back. The state's [RwLock] and the [mutation] mutex are
    held for the length of an operation. *)
From stdpp Require Import sorting.
From S2P Require Import Prelude Text Value Common Errors Page Header Heap BtreeNode Btree Catalog.

Section catalog_store.
Context {P : Type} `{!PageStore P}.

(** The catalog and the pool its operations are called with. *)
Record CatSys : Type := mkCat { cat : CatalogState; cat_pool : P }.
Abbreviation MC := (M CatSys CatalogError).

(** [?] on a storage error *)
Definition on_store {A} (m : M P Storage.Error A) : MC A := fun s =>
  match m (cat_pool s) with
  | (Ok a, p) => (Ok a, mkCat (cat s) p)
  | (Err e, p) => (Err (CatalogStorage e), mkCat (cat s) p)
  | (Panic, p) => (Panic, mkCat (cat s) p)
  end.
Definition on_state (f : CatalogState -> CatalogState) : MC unit := modify (fun s => mkCat (f (cat s)) (cat_pool s)).

Definition with_catalog_first_page (p : PageId) (s : CatalogState) : CatalogState :=
  mkCatalog (tables_by_name s) (tables_by_id s) (next_table_id s) (Some p) (indexes_by_name s) (indexes_by_id s)
    (indexes_by_table s) (next_index_id s) (index_catalog_first_page s).
Definition with_index_catalog_first_page (p : PageId) (s : CatalogState) : CatalogState :=
  mkCatalog (tables_by_name s) (tables_by_id s) (next_table_id s) (catalog_first_page s) (indexes_by_name s) (indexes_by_id s)
    (indexes_by_table s) (next_index_id s) (Some p).

Definition ensure_catalog_heap (t : TxnId) : MC PageId :=
  known ← gets (fun s => catalog_first_page (cat s));
  match known with
  | Some p => mret p
  | None =>
      found ← on_store Header.catalog_first_page;
      match found with
      | Some p => _ ← on_state (with_catalog_first_page p); mret p
      | None =>
          p ← on_store (heap_create t);
          _ ← on_store (set_catalog_first_page t p);
          _ ← on_state (with_catalog_first_page p);
          mret p
      end
  end.
Definition ensure_index_catalog_heap (t : TxnId) : MC PageId :=
  known ← gets (fun s => index_catalog_first_page (cat s));
  match known with
  | Some p => mret p
  | None =>
      found ← on_store Header.index_catalog_first_page;
      match found with
      | Some p => _ ← on_state (with_index_catalog_first_page p); mret p
      | None =>
          p ← on_store (heap_create t);
          _ ← on_store (set_index_catalog_first_page t p);
          _ ← on_state (with_index_catalog_first_page p);
          mret p
      end
  end.

Definition create_table (fuel : nat) (t : TxnId) (name : bytes) (sch : Schema) : MC TableInfo :=
  st ← gets cat;
  match tables_by_name st !! name with
  | Some _ => throw (TableAlreadyExists name)
  | None =>
      let id := next_table_id st in
      first ← on_store (heap_create t);
      let info := mkTableInfo id name sch first in
      catalog_page ← ensure_catalog_heap t;
      _ ← on_store (insert_tuple fuel t catalog_page (encode_table_info info));
      _ ← on_state (insert_table info);
      mret info
  end.

Definition create_index_with_root (fuel : nat) (t : TxnId) (name : bytes) (table : TableId) (column : Z)
    (root : PageId) : MC IndexInfo :=
  st ← gets cat;
  match indexes_by_name st !! name with
  | Some _ => throw (IndexAlreadyExists name)
  | None =>
      let id := next_index_id st in
      let row := encode_index_row id name table column root in
      index_page ← ensure_index_catalog_heap t;
      rid ← on_store (insert_tuple fuel t index_page row);
      let info := mkIndexInfo id name table column rid (len row - 4) root in
      _ ← on_state (insert_index info);
      mret info
  end.
Definition create_index (fuel : nat) (t : TxnId) (name : bytes) (table : TableId) (column : Z) : MC IndexInfo :=
  root ← on_store (btree_create t);
  create_index_with_root fuel t name table column root.

(** Setting the root of an index in place, in the map that holds it. *)
Definition move_root (id : IndexId) (new_root : PageId) (s : CatalogState) : CatalogState :=
  match indexes_by_id s !! id with
  | None => s
  | Some name =>
      mkCatalog (tables_by_name s) (tables_by_id s) (next_table_id s) (catalog_first_page s)
        (alter (set_root_page_id new_root) name (indexes_by_name s)) (indexes_by_id s)
        (indexes_by_table s) (next_index_id s) (index_catalog_first_page s)
  end.
Definition no_index_catalog : CatalogError :=
  Corrupt (str "update_index_root_page called with no index catalog heap bootstrapped yet").
Definition update_index_root_page (t : TxnId) (id : IndexId) (new_root : PageId) : MC unit :=
  st ← gets cat;
  info ← lift (index_by_id st id);
  _ ← lift (ok_or (index_catalog_first_page st) no_index_catalog);
  _ ← on_store (update_tuple_in_place t (catalog_rid info) (root_page_id_offset info) (to_le 4 new_root));
  st ← gets cat;
  _ ← lift (index_by_id st id);
  on_state (move_root id new_root).

(** [for entry in heap.iter() { let (rid, bytes) = entry?; .. }]: what [f] makes of every row. *)
Fixpoint load_rows (steps fuel : nat) (f : Rid -> bytes -> CatalogState -> outcome CatalogError CatalogState)
    (it : TableIter) (fresh : CatalogState) : MC CatalogState := fun s =>
  match steps with
  | O => (Panic, s)
  | S steps =>
      let '(item, it, p) := iter_next fuel it (cat_pool s) in
      let s := mkCat (cat s) p in
      match item with
      | None => (Ok fresh, s)
      | Some (Ok (rid, row)) =>
          match f rid row fresh with
          | Ok fresh => load_rows steps fuel f it fresh s
          | Err e => (Err e, s)
          | Panic => (Panic, s)
          end
      | Some (Err e) => (Err (CatalogStorage e), s)
      | Some Panic => (Panic, s)
      end
  end.
Definition load_table (rid : Rid) (row : bytes) (fresh : CatalogState) : outcome CatalogError CatalogState :=
  info ← decode_table_info row; Ok (insert_table info fresh).
Definition load_index (rid : Rid) (row : bytes) (fresh : CatalogState) : outcome CatalogError CatalogState :=
  info ← decode_index_row row rid; Ok (insert_index info fresh).

Definition reload (steps fuel : nat) (t : TxnId) : MC unit :=
  catalog_page ← ensure_catalog_heap t;
  fresh ← load_rows steps fuel load_table (heap_iter catalog_page) (with_catalog_first_page catalog_page empty_catalog);
  found ← on_store Header.index_catalog_first_page;
  fresh ← match found with
          | Some index_page => load_rows steps fuel load_index (heap_iter index_page) (with_index_catalog_first_page index_page fresh)
          | None => mret fresh
          end;
  on_state (fun _ => fresh).

End catalog_store.
Arguments CatSys P : clear implicits.

(** [Catalog::open]: a new catalog, loaded. *)
Definition catalog_open {P} `{!PageStore P} (steps fuel : nat) (t : TxnId) : M P CatalogError CatalogState := fun p =>
  let '(r, s) := reload steps fuel t (mkCat empty_catalog p) in
  (_ ← r; Ok (cat s), cat_pool s).

(** The names in order. *)
Definition table_names (s : CatalogState) : list bytes := merge_sort ble (fst <$> map_to_list (tables_by_name s)).
