(* ===== verification/Executor.v ===== *)
(** * Executing plans: crates/executor, crates/engine/src/executor_factory.rs

    The operators of a physical plan, pulled one row at a time, and the loop of [EngineShared::run] that
    drains them. An operator is a value of [Executor.t]; [exec_init] and [exec_next] are the methods of
    the trait. An operator is dropped when a call fails, so a failed call returns no operator.

    A statement runs alone: nobody releases a lock while it waits, so a lock request that blocks ends
    at its deadline. [fuel] bounds the loops; running out of it reads as a panic. *)
From S2P Require Import Prelude Text Value Memcomparable Tuple Common Errors LockManager VersionStore TxnManager.
From S2P Require Import Catalog Planner Expression Page Heap BtreeNode Btree CatalogStore.

(** [From<TxnError>]: the lock manager's errors are those of the transaction crate. *)
Definition lock_error (e : LockError) : Txn.Error :=
  match e with
  | DeadlockVictim t => Txn.DeadlockVictim t
  | LockTimeout t => Txn.LockTimeout t
  | LockAfterUnlock t => Txn.LockAfterUnlock t
  end.

(** ** The operators' states *)
Record SeqScanExecutor : Type := mkSeqScan {
  seq_table_id : TableId;
  seq_column_types : list DataType.t;
  seq_current_page : option PageId;
  seq_next_slot : Z;
}.
Definition SeqScanExecutor_new (t : TableId) : SeqScanExecutor := mkSeqScan t [] None 0.

Record IndexScanExecutor : Type := mkIndexScan {
  is_index_id : IndexId;
  is_table_id : TableId;
  is_start : option bytes;
  is_end : option bytes;
  is_column_types : list DataType.t;
  is_table_first_page_id : option PageId;
  is_current_leaf : option PageId;
  is_next_after : option bytes;
}.
Definition IndexScanExecutor_new (i : IndexId) (t : TableId) (start endk : option bytes) : IndexScanExecutor :=
  mkIndexScan i t start endk [] None None None.

Record IndexTarget : Type := mkTarget { target_index_id : IndexId; target_column_index : Z; target_root : PageId }.
Record InsertExecutor : Type := mkInsert {
  ins_table_id : TableId;
  ins_rows : list (list BoundExpr.t);
  ins_first_page_id : option PageId;
  ins_done : bool;
}.
Definition InsertExecutor_new (t : TableId) (rows : list (list BoundExpr.t)) : InsertExecutor := mkInsert t rows None false.

(** [Box<dyn Executor>] *)
Module Executor.
Inductive t : Type :=
| OneRow (emitted : bool)
| SeqScan (x : SeqScanExecutor)
| IndexScan (x : IndexScanExecutor)
| Filter (predicate : BoundExpr.t) (child : t)
| Projection (expressions : list BoundExpr.t) (child : t)
| NestedLoopJoin (left right : t) (predicate : BoundExpr.t)
| Insert (x : InsertExecutor).
End Executor.

(** executor_factory.rs; the engine handles the other plans itself *)
Fixpoint build_executor (p : PhysicalPlan.t) : outcome Exec.Error Executor.t :=
  match p with
  | PhysicalPlan.OneRow => Ok (Executor.OneRow false)
  | PhysicalPlan.SeqScan t => Ok (Executor.SeqScan (SeqScanExecutor_new t))
  | PhysicalPlan.IndexScan i t s e => Ok (Executor.IndexScan (IndexScanExecutor_new i t s e))
  | PhysicalPlan.Filter pred input => child ← build_executor input; Ok (Executor.Filter pred child)
  | PhysicalPlan.Projection es input => child ← build_executor input; Ok (Executor.Projection es child)
  | PhysicalPlan.NestedLoopJoin l r pred =>
      l ← build_executor l; r ← build_executor r; Ok (Executor.NestedLoopJoin l r pred)
  | PhysicalPlan.Insert t rows => Ok (Executor.Insert (InsertExecutor_new t rows))
  | PhysicalPlan.CreateTable _ _ | PhysicalPlan.CreateIndex _ _ _ => Panic
  end.

Section executor.
Context {P : Type} `{!PageStore P}.

(** ** The context

    What [ExecutorContext] refers to; the transaction itself is not changed and is passed beside it. *)
Record XSys : Type := mkX {
  x_catalog : CatalogState;
  x_pool : P;
  x_locks : LockManager.State;
  x_versions : StoreState;
}.
Abbreviation MX := (M XSys Exec.Error).

Definition with_x_pool (p : P) (s : XSys) : XSys := mkX (x_catalog s) p (x_locks s) (x_versions s).
Definition with_x_locks (l : LockManager.State) (s : XSys) : XSys := mkX (x_catalog s) (x_pool s) l (x_versions s).
Definition with_x_versions (v : StoreState) (s : XSys) : XSys := mkX (x_catalog s) (x_pool s) (x_locks s) v.

(** [?] on the errors of the parts *)
Definition on_pages {A} (m : M P Storage.Error A) : MX A := fun s =>
  match m (x_pool s) with
  | (Ok a, p) => (Ok a, with_x_pool p s)
  | (Err e, p) => (Err (Exec.StorageError e), with_x_pool p s)
  | (Panic, p) => (Panic, with_x_pool p s)
  end.
Definition on_catalog {A} (m : M (CatSys P) CatalogError A) : MX A := fun s =>
  let '(r, c) := m (mkCat (x_catalog s) (x_pool s)) in
  (match r with Ok a => Ok a | Err e => Err (Exec.CatalogError e) | Panic => Panic end,
   mkX (cat c) (cat_pool c) (x_locks s) (x_versions s)).
Definition catalog_read {A} (f : CatalogState -> outcome CatalogError A) : MX A := fun s =>
  (match f (x_catalog s) with Ok a => Ok a | Err e => Err (Exec.CatalogError e) | Panic => Panic end, s).

(** [LockManager::acquire] as a whole: see above for what happens to a blocked request. *)
Definition acquire_lock (t : TxnId) (r : Resource) (mode : LockMode) : MX unit := fun s =>
  let '(a, l) := acquire (x_locks s) t r mode in
  let '(a, l) := match a with Blocked => acquire_timed_out l t | _ => (a, l) end in
  (match a with Refused e => Err (Exec.LockError (lock_error e)) | _ => Ok tt end, with_x_locks l s).

Definition column_types (table : TableInfo) : list DataType.t := data_type <$> columns (schema table).
Definition snapshot_isolation (txn : Transaction) : bool := bool_decide (isolation_level txn = SnapshotIsolation).
Definition decode_row (types : list DataType.t) (row : bytes) : outcome Exec.Error Tuple :=
  match Tuple.decode row types with Ok t => Ok t | Err e => Err (Exec.CorruptRow e) | Panic => Panic end.

(** Whether a row found by a scan is for [txn] to see; when it reads with locks, the row gets one. *)
Definition row_seen (txn : Transaction) (rid : Rid) : MX bool :=
  if snapshot_isolation txn then gets (fun s => is_visible_to (x_versions s) rid (txn_txn_id txn) (read_ts txn))
  else _ ← acquire_lock (txn_txn_id txn) (Row rid) Shared; mret true.

(** ** seq_scan.rs *)
Definition seq_scan_init (txn : Transaction) (x : SeqScanExecutor) : MX SeqScanExecutor :=
  table ← catalog_read (fun c => get_table_by_id c (seq_table_id x));
  _ ← (if snapshot_isolation txn then mret tt
       else acquire_lock (txn_txn_id txn) (Table (seq_table_id x)) Shared);
  mret (mkSeqScan (seq_table_id x) (column_types table) (Some (first_page_id table)) 0).

Fixpoint seq_scan_next (fuel : nat) (txn : Transaction) (x : SeqScanExecutor) : MX (option Tuple * SeqScanExecutor) :=
  match fuel with
  | O => lift Panic
  | S fuel =>
      match seq_current_page x with
      | None => mret (None, x)
      | Some p =>
          found ← on_pages (scan_page p (seq_next_slot x));
          match found with
          | ScanTuple slot row =>
              let x := mkSeqScan (seq_table_id x) (seq_column_types x) (Some p) (slot + 1) in
              seen ← row_seen txn (mkRid p slot);
              if seen : bool then tuple ← lift (decode_row (seq_column_types x) row); mret (Some tuple, x)
              else seq_scan_next fuel txn x
          | EndOfPage next => seq_scan_next fuel txn (mkSeqScan (seq_table_id x) (seq_column_types x) next 0)
          end
      end
  end.

(** ** index_scan.rs *)
Definition index_scan_init (fuel : nat) (txn : Transaction) (x : IndexScanExecutor) : MX IndexScanExecutor :=
  table ← catalog_read (fun c => get_table_by_id c (is_table_id x));
  _ ← (if snapshot_isolation txn then mret tt
       else acquire_lock (txn_txn_id txn) (Table (is_table_id x)) Shared);
  root ← catalog_read (fun c => index_root_page c (is_index_id x));
  leaf ← on_pages (leaf_for_start fuel root (is_start x));
  mret (mkIndexScan (is_index_id x) (is_table_id x) (is_start x) (is_end x) (column_types table)
          (Some (first_page_id table)) (Some leaf) (is_start x)).

Definition at_leaf (x : IndexScanExecutor) (leaf : option PageId) (after : option bytes) : IndexScanExecutor :=
  mkIndexScan (is_index_id x) (is_table_id x) (is_start x) (is_end x) (is_column_types x)
    (is_table_first_page_id x) leaf after.

Fixpoint index_scan_loop (fuel : nat) (txn : Transaction) (x : IndexScanExecutor) : MX (option Tuple * IndexScanExecutor) :=
  match fuel with
  | O => lift Panic
  | S fuel =>
      match is_current_leaf x with
      | None => mret (None, x)
      | Some leaf =>
          found ← on_pages (scan_leaf leaf (is_next_after x));
          match found with
          | LeafEntry _ key sort_key rid =>
              if past_end (is_end x) key then mret (None, at_leaf x None (Some sort_key))
              else
                let x := at_leaf x (Some leaf) (Some sort_key) in
                seen ← row_seen txn rid;
                if seen : bool then
                  row ← on_pages (get_tuple rid);
                  row ← lift (ok_or row (Exec.MissingRow rid));
                  tuple ← lift (decode_row (is_column_types x) row);
                  mret (Some tuple, x)
                else index_scan_loop fuel txn x
          | EndOfLeaf next => index_scan_loop fuel txn (at_leaf x next (is_next_after x))
          end
      end
  end.
Definition index_scan_next (fuel : nat) (txn : Transaction) (x : IndexScanExecutor) : MX (option Tuple * IndexScanExecutor) :=
  match is_table_first_page_id x with
  | None => throw Exec.NotInitialised
  | Some _ => index_scan_loop fuel txn x
  end.

(** ** insert.rs *)
Definition insert_init (txn : Transaction) (x : InsertExecutor) : MX InsertExecutor :=
  table ← catalog_read (fun c => get_table_by_id c (ins_table_id x));
  _ ← acquire_lock (txn_txn_id txn) (Table (ins_table_id x)) Exclusive;
  mret (mkInsert (ins_table_id x) (ins_rows x) (Some (first_page_id table)) (ins_done x)).

Definition targets_of (c : CatalogState) (table : TableId) : list IndexTarget :=
  (fun i => mkTarget (index_id i) (index_column_index i) (root_page_id i)) <$> indexes_for_table c table.

(** The key of a row in an index. *)
Definition index_key (tuple : Tuple) (column : Z) : outcome Exec.Error bytes :=
  value ← or_panic (index tuple column);
  match encode_memcomparable value [] with
  | Ok key => Ok key
  | Err e => Err (Exec.StorageError (Storage.UnorderableKey e))
  | Panic => Panic
  end.

(** One turn of the loop over the indexes; the target with the root the tree has afterwards. *)
Definition insert_target (fuel : nat) (txn : Transaction) (tuple : Tuple) (rid : Rid) (target : IndexTarget) : MX IndexTarget :=
  key ← lift (index_key tuple (target_column_index target));
  root_after ← on_pages (btree_insert fuel (txn_txn_id txn) (target_root target) key rid);
  if root_after =? target_root target then mret target
  else
    _ ← on_catalog (update_index_root_page (txn_txn_id txn) (target_index_id target) root_after);
    mret (mkTarget (target_index_id target) (target_column_index target) root_after).
Fixpoint insert_targets (fuel : nat) (txn : Transaction) (tuple : Tuple) (rid : Rid) (targets : list IndexTarget)
    : MX (list IndexTarget) :=
  match targets with
  | [] => mret []
  | target :: targets =>
      target ← insert_target fuel txn tuple rid target;
      targets ← insert_targets fuel txn tuple rid targets;
      mret (target :: targets)
  end.

(** One turn of the loop over the rows. *)
Definition insert_row (fuel : nat) (txn : Transaction) (first : PageId) (row : list BoundExpr.t) (targets : list IndexTarget)
    : MX (list IndexTarget) :=
  tuple ← lift (evaluate_all row []);
  rid ← on_pages (insert_tuple fuel (txn_txn_id txn) first (Tuple.encode tuple []));
  _ ← modify (fun s => with_x_versions (record_insert (txn_txn_id txn) rid (x_versions s)) s);
  _ ← acquire_lock (txn_txn_id txn) (Row rid) Exclusive;
  insert_targets fuel txn tuple rid targets.
Fixpoint insert_rows (fuel : nat) (txn : Transaction) (first : PageId) (rows : list (list BoundExpr.t)) (targets : list IndexTarget)
    (count : Z) : MX Z :=
  match rows with
  | [] => mret count
  | row :: rows =>
      targets ← insert_row fuel txn first row targets;
      insert_rows fuel txn first rows targets (count + 1)
  end.

Definition insert_next (fuel : nat) (txn : Transaction) (x : InsertExecutor) : MX (option Tuple * InsertExecutor) :=
  if ins_done x then mret (None, x)
  else
    first ← lift (ok_or (ins_first_page_id x) Exec.NotInitialised);
    targets ← gets (fun s => targets_of (x_catalog s) (ins_table_id x));
    count ← insert_rows fuel txn first (ins_rows x) targets 0;
    mret (Some [Value.BigInt count], mkInsert (ins_table_id x) (ins_rows x) (ins_first_page_id x) true).

(** ** The trait's methods

    filter.rs, projection.rs, one_row.rs; a join is not implemented. *)
Fixpoint exec_init (fuel : nat) (txn : Transaction) (x : Executor.t) : MX Executor.t :=
  match x with
  | Executor.OneRow _ => mret (Executor.OneRow false)
  | Executor.SeqScan x => x ← seq_scan_init txn x; mret (Executor.SeqScan x)
  | Executor.IndexScan x => x ← index_scan_init fuel txn x; mret (Executor.IndexScan x)
  | Executor.Filter pred child => child ← exec_init fuel txn child; mret (Executor.Filter pred child)
  | Executor.Projection es child => child ← exec_init fuel txn child; mret (Executor.Projection es child)
  | Executor.NestedLoopJoin _ _ _ => lift Panic
  | Executor.Insert x => x ← insert_init txn x; mret (Executor.Insert x)
  end.

Fixpoint exec_next (fuel : nat) (txn : Transaction) (x : Executor.t) : MX (option Tuple * Executor.t) :=
  match fuel with
  | O => lift Panic
  | S fuel =>
      match x with
      | Executor.OneRow true => mret (None, x)
      | Executor.OneRow false => mret (Some [], Executor.OneRow true)
      | Executor.SeqScan x => r ← seq_scan_next fuel txn x; mret (fst r, Executor.SeqScan (snd r))
      | Executor.IndexScan x => r ← index_scan_next fuel txn x; mret (fst r, Executor.IndexScan (snd r))
      | Executor.Filter pred child =>
          r ← exec_next fuel txn child;
          match fst r with
          | None => mret (None, Executor.Filter pred (snd r))
          | Some tuple =>
              v ← lift (evaluate pred tuple);
              if decide (v = Value.Boolean true) then mret (Some tuple, Executor.Filter pred (snd r))
              else exec_next fuel txn (Executor.Filter pred (snd r))
          end
      | Executor.Projection es child =>
          r ← exec_next fuel txn child;
          match fst r with
          | None => mret (None, Executor.Projection es (snd r))
          | Some tuple => values ← lift (evaluate_all es tuple); mret (Some values, Executor.Projection es (snd r))
          end
      | Executor.NestedLoopJoin _ _ _ => lift Panic
      | Executor.Insert x => r ← insert_next fuel txn x; mret (fst r, Executor.Insert (snd r))
      end
  end.

(** ** [EngineShared::run], from the plan on *)
Fixpoint drain (steps fuel : nat) (txn : Transaction) (x : Executor.t) : MX (list Tuple) :=
  match steps with
  | O => lift Panic
  | S steps =>
      r ← exec_next fuel txn x;
      match fst r with
      | None => mret []
      | Some tuple => rows ← drain steps fuel txn (snd r); mret (tuple :: rows)
      end
  end.
Definition run_plan (steps fuel : nat) (txn : Transaction) (p : PhysicalPlan.t) : MX (list Tuple) :=
  x ← lift (build_executor p);
  x ← exec_init fuel txn x;
  drain steps fuel txn x.
End executor.
Arguments XSys P : clear implicits.
