(* ===== verification/ExecutorReads.v ===== *)
(** * Queries

    What [exec_init], [exec_next] and the loop of [run] return for a query plan: the rows the plan
    denotes over the tables as the transaction sees them. *)
From stdpp Require Import sorting.
From S2P Require Import Prelude Text Value Memcomparable Tuple Common Errors LockManager VersionStore TxnManager.
From S2P Require Import Catalog Planner Expression OptimizerSpec Page Slots Heap HeapPage HeapSpec.
From S2P Require Import BtreeNode Btree BtreePage BtreeWrites BtreeTree BtreeSpec BtreeInsert BtreeScan CatalogStore Executor.

(** ** Locks nobody else wants *)
Definition alone (t : TxnId) (l : LockManager.State) : Prop := (t ∉ finished l) /\ (forall r, others l t r = []).

Lemma alone_conflicts t l r mode : alone t l -> conflicting_holders l r mode t = [].
Proof.
  intros [_ H]. specialize (H r). unfold conflicting_holders, others in *.
  rewrite filter_none; [done |]. apply Forall_forall. intros e He [Hne _].
  assert (Hin : e ∈ filter (fun e => e.1 <> t) (holders_of l r)) by (by apply list_elem_of_filter). rewrite H in Hin. by apply not_elem_of_nil in Hin.
Qed.
Lemma acquire_alone t l r mode : alone t l -> exists l', acquire l t r mode = (Granted, l') /\ alone t l'.
Proof.
  intros H. unfold acquire, acquire_iteration. rewrite decide_False by apply H.
  set (l0 := set_waiting (delete t (waiting_for l)) l). assert (H0 : alone t l0) by exact H.
  case_decide as Hh; [by exists l0 |]. rewrite alone_conflicts by done. rewrite decide_True by done.
  eexists. split; [done |]. split; [apply H0 |]. intros r'. unfold others, holders_of, grant. cbn.
  destruct (decide (r' = r)) as [-> | Hne].
  - rewrite lookup_insert_eq. cbn. rewrite filter_app, filter_cons_False, filter_nil, app_nil_r by naive_solver.
    apply filter_none, Forall_forall. intros e [H1 H2]%list_elem_of_filter. 
    pose proof (proj2 H0 r) as Hr. unfold others in Hr.
    assert (Hin : e ∈ filter (fun e => e.1 <> t) (holders_of l0 r)) by (by apply list_elem_of_filter). rewrite Hr in Hin. by apply not_elem_of_nil in Hin.
  - rewrite lookup_insert_ne by done. apply (proj2 H0 r').
Qed.

(** ** Computations that only read *)
Section reads.
Context {P : Type} `{!PageStore P, !PageStoreLaws P}.
Context (n : nat) (m : gmap PageId bytes) (c : CatalogState) (vs : StoreState) (txn : Transaction).
Abbreviation MX := (M (XSys P) Exec.Error).

(** The transaction reads a snapshot, or takes its locks without contention. *)
Definition uncontended (l : LockManager.State) : Prop := snapshot_isolation txn = true \/ alone (txn_txn_id txn) l.

Record reading (s : XSys P) : Prop := mkReading {
  rd_pages : stored n [] (x_pool s) m;
  rd_catalog : x_catalog s = c;
  rd_versions : x_versions s = vs;
  rd_locks : uncontended (x_locks s);
}.

(** [xreads e Q]: [e] changes no page, fails only as the storage does, and returns what satisfies [Q]. *)
Definition xreads {A} (e : MX A) (Q : A -> Prop) : Prop := forall s, reading s ->
  match e s with
  | (Ok a, s') => reading s' /\ Q a
  | (Err x, s') => reading s' /\ exists e, x = Exec.StorageError e
  | (Panic, _) => False
  end.

Lemma xreads_ret {A} (a : A) (Q : A -> Prop) : Q a -> xreads (mret a) Q.
Proof. by intros HQ s Hs. Qed.
Lemma xreads_lift {A} (o : outcome Exec.Error A) a (Q : A -> Prop) : o = Ok a -> Q a -> xreads (lift o) Q.
Proof. by intros -> HQ s Hs. Qed.
Lemma xreads_bind {A B} (e : MX A) (k : A -> MX B) Q1 Q : xreads e Q1 -> (forall a, Q1 a -> xreads (k a) Q) -> xreads (e ≫= k) Q.
Proof.
  intros He Hk s Hs. unfold mbind, M_bind. specialize (He s Hs). destruct (e s) as [[a | x |] s']; [| done | done].
  destruct He as [Hs' HQ]. by apply (Hk a HQ).
Qed.
Lemma xreads_mono {A} (e : MX A) (Q Q' : A -> Prop) : xreads e Q -> (forall a, Q a -> Q' a) -> xreads e Q'.
Proof. intros He HQ s Hs. specialize (He s Hs). destruct (e s) as [[a | x |] s']; naive_solver. Qed.

Lemma xreads_pages {A} (e : M P Storage.Error A) (Q : A -> Prop) :
  triple n [] m e n (fun _ => []) (fun a m' => m' = m /\ Q a) [] (fun m' => m' = m) -> xreads (on_pages e) Q.
Proof.
  intros He s [Hp H1 H2 H3]. specialize (He _ Hp). unfold on_pages. destruct (e (x_pool s)) as [[a | x |] p]; [| | done].
  - destruct He as (m' & Hs' & -> & HQ). by split.
  - destruct He as (m' & Hs' & ->). split; [by split | by exists x].
Qed.
Lemma xreads_catalog {A} (f : CatalogState -> outcome CatalogError A) a (Q : A -> Prop) : f c = Ok a -> Q a -> xreads (catalog_read f) Q.
Proof. intros Hf HQ s Hs. unfold catalog_read. rewrite (rd_catalog s Hs), Hf. by split. Qed.

Lemma xreads_lock r mode : snapshot_isolation txn = false -> xreads (acquire_lock (txn_txn_id txn) r mode) (fun _ => True).
Proof.
  intros Hsi s [H1 H2 H3 [H4 | H4]]; [congruence |]. unfold acquire_lock.
  destruct (acquire_alone _ _ r mode H4) as (l' & -> & Hl'). split; [| done]. split; [done.. |]. by right.
Qed.

(** ** What the transaction sees *)
Definition visible (rid : Rid) : bool :=
  negb (snapshot_isolation txn) || is_visible_to vs rid (txn_txn_id txn) (read_ts txn).

Lemma row_seen_spec rid : xreads (row_seen txn rid) (fun b => b = visible rid).
Proof.
  unfold row_seen, visible. destruct (snapshot_isolation txn) eqn:E; cbn [negb orb].
  - intros s Hs. cbn. rewrite (rd_versions s Hs). by split.
  - eapply xreads_bind; [by apply xreads_lock |]. intros _ _. by apply xreads_ret.
Qed.
Lemma table_lock_spec r : xreads (if snapshot_isolation txn then mret tt else acquire_lock (txn_txn_id txn) r Shared) (fun _ => True).
Proof. destruct (snapshot_isolation txn) eqn:E; [by apply xreads_ret | by apply xreads_lock]. Qed.

(** The rows a scan makes of the stored rows it comes by. *)
Fixpoint scan_rows (types : list DataType.t) (l : list (Rid * bytes)) : outcome Exec.Error (list Tuple) :=
  match l with
  | [] => Ok []
  | (rid, row) :: l =>
      if visible rid then tuple ← decode_row types row; rest ← scan_rows types l; Ok (tuple :: rest)
      else scan_rows types l
  end.

Lemma scan_rows_seen types rid row l rows : visible rid = true -> scan_rows types ((rid, row) :: l) = Ok rows ->
  exists tuple rest, decode_row types row = Ok tuple /\ scan_rows types l = Ok rest /\ rows = tuple :: rest.
Proof.
  intros Hv H. cbn in H. rewrite Hv in H. destruct (decode_row types row) as [tuple | |]; [| done..]. cbn in H.
  destruct (scan_rows types l) as [rest | |]; [| done..]. cbn in H. exists tuple, rest. by simplify_eq.
Qed.

(** What a call of [next] returns of the rows that are left: the first, and an operator with the others. *)
Definition pulled {X} (Y : X -> list Tuple -> Prop) (rows : list Tuple) (r : option Tuple * X) : Prop :=
  match rows with
  | [] => r.1 = None /\ Y r.2 []
  | row :: rows => r.1 = Some row /\ Y r.2 rows
  end.

(** ** Sequential scans *)

(** The stored rows ahead of a scan, and the pages to the end. *)
Definition seq_ahead (x : SeqScanExecutor) (l : list (Rid * bytes)) (pages : nat) : Prop :=
  match seq_current_page x with
  | None => l = [] /\ pages = O
  | Some p => exists (i : nat) ts rest, seq_next_slot x = Z.of_nat i /\ heap_rep m ((p, ts) :: rest)
      /\ l = page_list p (Z.of_nat i) (skipn i ts) ++ heap_list rest /\ pages = S (length rest)
  end.
Definition seq_yields (k : nat) (x : SeqScanExecutor) (rows : list Tuple) : Prop :=
  exists l pages, seq_ahead x l pages /\ scan_rows (seq_column_types x) l = Ok rows /\ (length l + pages < k)%nat.

(** Past the first live row of a page. *)
Lemma page_list_step p (i : nat) ts rid row rest : page_list p (Z.of_nat i) (skipn i ts) = (rid, row) :: rest ->
  exists j : nat, slot rid = Z.of_nat j /\ rid = mkRid p (slot rid) /\ rest = page_list p (Z.of_nat (S j)) (skipn (S j) ts).
Proof.
  remember (skipn i ts) as l eqn:El. revert i El. induction l as [| o l IH]; intros i El H; [done |].
  assert (Hl : l = skipn (S i) ts).
  { assert (Hi : ts !! i = Some o). { rewrite <- (Nat.add_0_r i), <- lookup_drop, <- El. done. }
    rewrite (drop_S _ _ _ Hi) in El. by injection El. }
  cbn in H. destruct o as [d |].
  - injection H as <- <- <-. exists i. cbn. split_and!; [done | done |]. subst l. by replace (Z.of_nat i + 1) with (Z.of_nat (S i)) by lia.
  - apply (IH (S i)); [done |]. by replace (Z.of_nat (S i)) with (Z.of_nat i + 1) by lia.
Qed.

Lemma seq_scan_next_spec k : forall fuel x rows, seq_yields k x rows -> (k <= fuel)%nat ->
  xreads (seq_scan_next fuel txn x) (pulled (seq_yields k) rows).
Proof.
  intros fuel x rows (l & pages & Ha & Hr & Hk) Hf. assert (Hb : (length l + pages < fuel)%nat) by lia. clear Hf.
  revert x l pages rows Ha Hr Hk Hb. induction fuel as [| fuel IH]; intros x l pages rows Ha Hr Hk Hb; [lia |].
  cbn [seq_scan_next]. unfold seq_ahead in Ha. destruct (seq_current_page x) as [p |] eqn:Ep.
  2: { destruct Ha as [-> ->]. cbn in Hr. injection Hr as <-. apply xreads_ret. split; [done |]. exists [], O.
       unfold seq_ahead. cbn [snd]. rewrite Ep. split_and!; [done | done | done | cbn in *; lia]. }
  destruct Ha as (i & ts & rest & Es & Hrep & -> & ->). rewrite Es.
  eapply xreads_bind.
  { apply (xreads_pages _ (fun r => r = match page_list p (Z.of_nat i) (skipn i ts) with
      | (rid, d) :: _ => ScanTuple (slot rid) d | [] => EndOfPage (next_of rest) end)).
    eapply triple_mono; [by apply (scan_page_spec n m p ts rest i) | intros r m' [-> ->]; done | done]. }
  cbn beta. intros r ->. destruct (page_list p (Z.of_nat i) (skipn i ts)) as [| [rid row] l'] eqn:El.
  - cbn [app] in *. apply (IH _ (heap_list rest) (length rest)); [| done | lia | lia].
    destruct rest as [| [p' ts'] rest]; cbn [next_of seq_ahead seq_current_page]; [done |].
    exists O, ts', rest. cbn [seq_next_slot]. destruct Hrep as (_ & _ & Hrest). split_and!; [done | done | by rewrite heap_list_cons | done].
  - destruct (page_list_step _ _ _ _ _ _ El) as (j & Ej & Erid & ->). rewrite <- Erid.
    eapply xreads_bind; [apply row_seen_spec |]. cbn beta. intros b ->.
    assert (Hahead : seq_ahead (mkSeqScan (seq_table_id x) (seq_column_types x) (Some p) (slot rid + 1))
      (page_list p (Z.of_nat (S j)) (skipn (S j) ts) ++ heap_list rest) (S (length rest))).
    { exists (S j), ts, rest. cbn [seq_next_slot]. split_and!; [rewrite Ej; lia | done..]. }
    cbn [app length] in *. destruct (visible rid) eqn:Ev.
    + destruct (scan_rows_seen _ _ _ _ _ Ev Hr) as (tuple & rows' & Hd & Hr' & ->). cbn [seq_column_types].
      eapply xreads_bind; [apply (xreads_lift _ tuple (fun t => t = tuple) Hd eq_refl) |]. intros ? ->. apply xreads_ret.
      split; [done |]. eexists _, _. split_and!; [exact Hahead | done | lia].
    + cbn in Hr. rewrite Ev in Hr. eapply IH; [exact Hahead | done | lia | lia].
Qed.

(** ** Index scans

    The entries of the tree ahead of a scan, up to the end of its range, and the rows they point at. *)
Definition points_at (ch : chain) (e : entry) (x : Rid * bytes) : Prop := x.1 = e.2 /\ heap_get ch e.2 = Some x.2.

Definition index_ahead (ls : list leaf) (x : IndexScanExecutor) (es : list entry) (leaves : nat) : Prop :=
  match is_current_leaf x with
  | None => es = [] /\ leaves = O
  | Some leaf => exists ahead, cursor ls ahead leaf (is_next_after x) es /\ leaves = S ahead
  end.
Definition index_yields (k : nat) (x : IndexScanExecutor) (rows : list Tuple) : Prop :=
  exists root ls lv first ch es leaves l, btree_ok m root ls lv /\ heap_ok m first ch /\ is_table_first_page_id x = Some first
    /\ index_ahead ls x es leaves /\ Forall2 (points_at ch) (take_while (below_end (is_end x)) es) l
    /\ scan_rows (is_column_types x) l = Ok rows /\ (length es + leaves < k)%nat.

Lemma fetch_row_spec first ch e x : heap_ok m first ch -> points_at ch e x ->
  xreads (on_pages (get_tuple e.2)) (fun r => r = Some x.2).
Proof.
  intros Hh [_ Hg]. assert (H : page_id e.2 ∈ ch.*1 /\ 0 <= slot e.2).
  { unfold heap_get in Hg. destruct (chain_page ch (page_id e.2)) as [ts |] eqn:Ec; [| done]. split; [by eapply chain_page_elem |].
    cbn in Hg. unfold index in Hg. destruct (Z.leb_spec 0 (slot e.2)); [done |]. done. }
  destruct H as [H1 H2]. apply xreads_pages. eapply triple_mono; [by apply (get_tuple_spec n m ch first e.2 Hh) | | done].
  cbn beta. intros r m' [-> ->]. split; [done | congruence].
Qed.

Lemma index_scan_next_spec k : forall fuel x rows, index_yields k x rows -> (k <= fuel)%nat ->
  xreads (index_scan_next fuel txn x) (pulled (index_yields k) rows).
Proof.
  intros fuel x rows (root & ls & lv & first & ch & es & leaves & l & Hb & Hh & Hi & Ha & Hl & Hr & Hk) Hf.
  unfold index_scan_next. rewrite Hi. assert (Hfu : (length es + leaves < fuel)%nat) by lia. clear Hf.
  revert x es leaves l rows Hi Ha Hl Hr Hk Hfu. induction fuel as [| fuel IH]; intros x es leaves l rows Hi Ha Hl Hr Hk Hfu; [lia |].
  assert (Hend : forall after k', (0 < k')%nat -> index_yields k' (at_leaf x None after) []).
  { intros after k' Hk'. exists root, ls, lv, first, ch, [], O, []. cbn. split_and!; [done.. | constructor | done | lia]. }
  cbn [index_scan_loop]. unfold index_ahead in Ha. destruct (is_current_leaf x) as [leaf |] eqn:Ep.
  2: { destruct Ha as [-> ->]. apply Forall2_nil_inv_l in Hl as ->. injection Hr as <-. apply xreads_ret. split; [done |].
       cbn [snd]. replace x with (at_leaf x None (is_next_after x)) by (destruct x; unfold at_leaf; cbn in *; congruence). apply Hend. lia. }
  destruct Ha as (ahead & Hc & ->). eapply xreads_bind.
  { apply xreads_pages. eapply triple_mono; [by eapply scan_leaf_spec | intros r m' H; exact H | done]. }
  cbn beta. intros [sl key sk rid | next] Hs; cbn [scanned] in Hs.
  - destruct Hs as (rest & -> & -> & Hc'). cbn [take_while below_end] in Hl. unfold below_end in Hl. cbn [fst] in Hl.
    destruct (past_end (is_end x) key) eqn:Epe; cbn [negb] in Hl.
    { apply Forall2_nil_inv_l in Hl as ->. injection Hr as <-. apply xreads_ret. split; [done |]. apply Hend. cbn in Hk. lia. }
    apply Forall2_cons_inv_l in Hl as ([rid' row] & l' & Hpt & Hl' & ->). pose proof Hpt as [Erid Hg]. cbn in Erid, Hg. subst rid'.
    eapply xreads_bind; [apply row_seen_spec |]. cbn beta. intros b ->. set (x' := at_leaf x (Some leaf) (Some (sort_key (key, rid)))).
    assert (Ha' : index_ahead ls x' rest (S ahead)) by (exists ahead; by split).
    cbn [length] in *. destruct (visible rid) eqn:Ev.
    + destruct (scan_rows_seen _ _ _ _ _ Ev Hr) as (tuple & rows' & Hd & Hr' & ->).
      eapply xreads_bind; [by apply (fetch_row_spec first ch (key, rid) (rid, row) Hh) |]. cbn beta. intros ? ->.
      eapply xreads_bind; [by apply (xreads_lift _ row (fun t => t = row)) |]. intros ? ->.
      eapply xreads_bind; [apply (xreads_lift _ tuple (fun t => t = tuple) Hd eq_refl) |]. intros ? ->. apply xreads_ret.
      split; [done |]. exists root, ls, lv, first, ch, rest, (S ahead), l'. split_and!; try done. lia.
    + cbn in Hr. rewrite Ev in Hr. eapply IH; [done | exact Ha' | done | done | lia | lia].
  - destruct next as [next |].
    + destruct Hs as (ahead' & -> & Hc'). eapply IH; [done | by exists ahead' | done | done | lia | lia].
    + subst es. eapply (IH _ [] O l); [done | done | done | done | cbn in *; lia | cbn in *; lia].
Qed.

(** ** Whole plans *)
Fixpoint yields (k : nat) (x : Executor.t) (rows : list Tuple) : Prop :=
  match x with
  | Executor.OneRow emitted => rows = (if emitted then [] else [[]]) /\ (0 < k)%nat
  | Executor.SeqScan x => exists k', seq_yields k' x rows /\ (k' < k)%nat
  | Executor.IndexScan x => exists k', index_yields k' x rows /\ (k' < k)%nat
  | Executor.Filter pred child => exists k' below, yields k' child below /\ filter_rows pred below = Ok rows /\ (k' + length below < k)%nat
  | Executor.Projection es child => exists k' below, yields k' child below /\ project_rows es below = Ok rows /\ (k' < k)%nat
  | Executor.NestedLoopJoin _ _ _ | Executor.Insert _ => False
  end.

Lemma filter_rows_cons pred row below rows : filter_rows pred (row :: below) = Ok rows ->
  exists v rest, evaluate pred row = Ok v /\ filter_rows pred below = Ok rest
    /\ rows = if decide (v = Value.Boolean true) then row :: rest else rest.
Proof.
  cbn. destruct (evaluate pred row) as [v | |]; [| done..]. cbn. destruct (filter_rows pred below) as [rest | |]; [| done..].
  intros [= <-]. by exists v, rest.
Qed.

Lemma project_rows_cons es row below rows : project_rows es (row :: below) = Ok rows ->
  exists out rest, evaluate_all es row = Ok out /\ project_rows es below = Ok rest /\ rows = out :: rest.
Proof.
  cbn. destruct (evaluate_all es row) as [out | |]; [| done..]. cbn. destruct (project_rows es below) as [rest | |]; [| done..].
  intros [= <-]. by exists out, rest.
Qed.

Lemma yields_mono k k' x rows : yields k x rows -> (k <= k')%nat -> yields k' x rows.
Proof. destruct x; cbn; intros Hy Hk; naive_solver lia. Qed.

Lemma exec_next_filter (next : Executor.t -> MX (option Tuple * Executor.t)) k k' pred child below rows :
  (forall k x rows, yields k x rows -> (k <= k')%nat -> xreads (next x) (pulled (yields k) rows)) ->
  yields k child below -> filter_rows pred below = Ok rows -> (k + length below <= k')%nat ->
  xreads (r ← next child;
          match fst r with
          | None => mret (None, Executor.Filter pred (snd r))
          | Some tuple =>
              v ← lift (evaluate pred tuple);
              if decide (v = Value.Boolean true) then mret (Some tuple, Executor.Filter pred (snd r))
              else next (Executor.Filter pred (snd r))
          end) (pulled (yields (S (k + length below))) rows).
Proof.
  intros IH Hc Hr Hk. eapply xreads_bind; [apply (IH k child below); [done | lia] |].
  intros [o child'] Hp. cbn [fst snd]. destruct below as [| row below]; destruct Hp as [Ho Hc']; cbn in Ho, Hc'; subst o.
  - injection Hr as <-. apply xreads_ret. split; [done |]. exists k, []. split_and!; [done | done | cbn; lia].
  - destruct (filter_rows_cons _ _ _ _ Hr) as (v & rest & Hv & Hrest & ->). cbn [length] in *.
    eapply xreads_bind; [apply (xreads_lift _ v (fun a => a = v) Hv eq_refl) |]. intros ? ->. case_decide as Hd.
    + apply xreads_ret. split; [done |]. exists k, below. split_and!; [done | done | lia].
    + eapply (xreads_mono _ (pulled (yields (k + S (length below))) rest)).
      { apply IH; [| lia]. exists k, below. split_and!; [done | done | lia]. }
      intros [o' x'] Hp. destruct rest as [| row' rest]; destruct Hp as [Ho Hy]; (split; [exact Ho |]); eapply yields_mono; (exact Hy || lia).
Qed.

Lemma exec_next_spec fuel : forall k x rows, yields k x rows -> (k <= fuel)%nat -> xreads (exec_next fuel txn x) (pulled (yields k) rows).
Proof.
  induction fuel as [| fuel IH]; intros k x rows Hy Hf.
  { destruct x; cbn in Hy; naive_solver lia. }
  destruct x as [emitted | x | x | pred child | es child | |]; cbn [exec_next yields] in *; try done.
  - destruct Hy as [-> Hk]. destruct emitted; apply xreads_ret; by split.
  - destruct Hy as (k' & Hy & Hk). eapply xreads_bind; [apply (seq_scan_next_spec k'); [done | lia] |].
    intros r Hr. apply xreads_ret. destruct rows, Hr as [-> Hr]; (split; [done |]); by exists k'.
  - destruct Hy as (k' & Hy & Hk). eapply xreads_bind; [apply (index_scan_next_spec k'); [done | lia] |].
    intros r Hr. apply xreads_ret. destruct rows, Hr as [-> Hr]; (split; [done |]); by exists k'.
  - destruct Hy as (k' & below & Hc & Hr & Hk).
    eapply xreads_mono; [eapply (exec_next_filter (exec_next fuel txn) k' fuel); [exact IH | done | done | lia] |].
    intros [o' x'] Hp. destruct rows as [| row' rows]; destruct Hp as [Ho Hy]; (split; [exact Ho |]); eapply yields_mono; (exact Hy || lia).
  - destruct Hy as (k' & below & Hc & Hr & Hk). eapply xreads_bind; [apply (IH k' child below); [done | lia] |].
    intros [o child'] Hp. cbn [fst snd]. destruct below as [| row below]; destruct Hp as [Ho Hc']; cbn in Ho, Hc'; subst o.
    + injection Hr as <-. apply xreads_ret. split; [done |]. by exists k', [].
    + destruct (project_rows_cons _ _ _ _ Hr) as (out & rest & Hv & Hrest & ->).
      eapply xreads_bind; [apply (xreads_lift _ out (fun a => a = out) Hv eq_refl) |]. intros ? ->.
      apply xreads_ret. split; [done |]. by exists k', below.
Qed.

Lemma drain_executor_spec k fuel rows : forall steps x, yields k x rows -> (k <= fuel)%nat -> (length rows < steps)%nat ->
  xreads (drain steps fuel txn x) (fun r => r = rows).
Proof.
  induction rows as [| row rows IH]; intros [| steps] x Hy Hf Hs; cbn in Hs; try lia; cbn [drain];
    (eapply xreads_bind; [by eapply exec_next_spec |]); intros [o x'] [Ho Hy']; cbn [fst snd] in *; subst o.
  - by apply xreads_ret.
  - eapply xreads_bind; [apply IH; [done | done | lia] |]. intros ? ->. by apply xreads_ret.
Qed.
End reads.
