(* ===== verification/Database.v ===== *)
(** * The database as a whole: tables, indexes and the catalog over one set of pages

    [Db] says which pages hold what; [db_ok] that the pages, the catalog in memory, its rows on the
    pages and the indexes agree. What changes one part leaves the others alone. *)
From stdpp Require Import sorting.
From S2P Require Import Prelude Text Value Memcomparable Tuple Common Errors Catalog Expression Page Slots Heap HeapPage HeapSpec.
From S2P Require Import BtreeNode Btree BtreePage BtreeWrites BtreeTree BtreeSpec BtreeInsert BtreeScan Executor.

Record Tree : Type := mkTree { tree_leaves : list leaf; tree_levels : list (list inner) }.
(** The pages of every table and every index, and of the two heaps of the catalog. *)
Record Db : Type := mkDb {
  db_tables : gmap TableId chain;
  db_indexes : gmap IndexId Tree;
  db_table_rows : chain;
  db_index_rows : chain;
}.

(** ** Parts and their pages *)
Inductive Part : Type := PHeader | PTable (t : TableId) | PIndex (i : IndexId) | PTableRows | PIndexRows.
#[global] Instance Part_eq_dec : EqDecision Part.
Proof. solve_decision. Defined.

Definition part_pages (d : Db) (p : Part) : list PageId :=
  match p with
  | PHeader => [0]
  | PTable t => (default [] (db_tables d !! t)).*1
  | PIndex i => match db_indexes d !! i with Some tr => tree_pages (tree_leaves tr) (tree_levels tr) | None => [] end
  | PTableRows => (db_table_rows d).*1
  | PIndexRows => (db_index_rows d).*1
  end.

(** Every part has its own pages. *)
Definition laid_out (m : gmap PageId bytes) (d : Db) : Prop :=
  (forall p q, q ∈ part_pages d p -> is_Some (m !! q))
  /\ (forall p p', p <> p' -> part_pages d p ## part_pages d p').

(** A change of one part, which may take new pages. *)
Lemma part_update m m' d d' p : laid_out m d -> (forall p', p' <> p -> part_pages d' p' = part_pages d p') ->
  fresh_or m (part_pages d p) (part_pages d' p) -> same_outside (part_pages d p) m m' ->
  (forall q, q ∈ part_pages d' p -> is_Some (m' !! q)) ->
  laid_out m' d' /\ (forall p' q, p' <> p -> q ∈ part_pages d p' -> m' !! q = m !! q).
Proof.
  intros [Hex Hap] Hother Hfr Hs Hnew.
  assert (Hk : forall p' q, p' <> p -> q ∈ part_pages d p' -> m' !! q = m !! q).
  { intros p' q Hp Hq. destruct (Hex p' q Hq) as [b Hb]. rewrite Hb. apply Hs; [done |]. intros Hin. by apply (Hap p' p Hp q). }
  assert (Hd : forall p', p' <> p -> part_pages d' p ## part_pages d p').
  { intros p' Hp q Hq Hq'. destruct (Hfr q Hq) as [Ho | Hn]; [by apply (Hap p' p Hp q) |]. destruct (Hex p' q Hq') as [b Hb]. congruence. }
  split; [| done]. split.
  - intros p' q Hq. destruct (decide (p' = p)) as [-> | Hp]; [by apply Hnew |]. rewrite Hother in Hq by done. rewrite (Hk p' q Hp Hq). by eapply Hex.
  - intros p1 p2 Hne. destruct (decide (p1 = p)) as [-> | H1], (decide (p2 = p)) as [-> | H2].
    + done.
    + rewrite (Hother p2) by done. by apply Hd.
    + rewrite (Hother p1) by done. intros q Hq Hq'. by apply (Hd p1 H1 q).
    + rewrite !Hother by done. by apply Hap.
Qed.

(** ** Rows *)
Definition decoded (types : list DataType.t) (x : Rid * bytes) : option (Rid * Tuple) :=
  match Tuple.decode x.2 types with Ok tuple => Some (x.1, tuple) | _ => None end.
Definition tuples (types : list DataType.t) (ch : chain) : list (Rid * Tuple) := omap (decoded types) (heap_list ch).
Definition key_of (column : Z) (tuple : Tuple) : bytes := match index_key tuple column with Ok k => k | _ => [] end.
Definition entry_of (column : Z) (x : Rid * Tuple) : entry := (key_of column x.2, x.1).

Lemma tuples_elem types ch x : x ∈ tuples types ch -> exists row, (x.1, row) ∈ heap_list ch /\ Tuple.decode row types = Ok x.2.
Proof.
  unfold tuples. intros ([rid row] & Hin & Hd)%list_elem_of_omap. unfold decoded in Hd. cbn in Hd.
  destruct (Tuple.decode row types) as [tuple | |] eqn:E; simplify_eq/=. by exists row.
Qed.

Definition table_ok (m : gmap PageId bytes) (info : TableInfo) (ch : chain) : Prop :=
  heap_ok m (first_page_id info) ch
  /\ Forall (fun x => exists tuple, Tuple.decode x.2 (column_types info) = Ok tuple) (heap_list ch).

(** An index with one entry for each of the rows [T]. *)
Record index_ok (m : gmap PageId bytes) (info : IndexInfo) (T : list (Rid * Tuple)) (tr : Tree) : Prop := {
  ix_tree : btree_ok m (root_page_id info) (tree_leaves tr) (tree_levels tr);
  ix_keys : Forall (fun x => exists k, index_key x.2 (index_column_index info) = Ok k) T;
  ix_entries : all_entries (tree_leaves tr) ≡ₚ entry_of (index_column_index info) <$> T;
}.

(** ** The catalog's heaps *)
Definition header_holds (b : bytes) (at_ : Z) (p : option PageId) : Prop := sub b at_ 4 = Some (to_le 4 (default u32_max p)).
Definition catalog_heap (m : gmap PageId bytes) (first : option PageId) (ch : chain) : Prop :=
  match first with Some first => heap_ok m first ch | None => ch = [] end.
Definition table_infos (c : CatalogState) : list TableInfo := (map_to_list (tables_by_name c)).*2.
Definition index_infos (c : CatalogState) : list IndexInfo := (map_to_list (indexes_by_name c)).*2.
Definition index_info_ok (info : IndexInfo) : Prop := wf_index_info info /\ root_page_id_offset info = len (index_row info) - 4.

(** ** The whole

    [lag i] are the rows of the table of index [i] that are not in the index yet: none but while a row
    is being inserted. *)
Record db_rep (lag : IndexId -> list (Rid * Tuple)) (m : gmap PageId bytes) (c : CatalogState) (d : Db) : Prop := {
  ok_catalog : catalog_ok c;
  ok_tables : forall t info, get_table_by_id c t = Ok info -> exists ch, db_tables d !! t = Some ch /\ table_ok m info ch;
  ok_indexes : forall i info, index_by_id c i = Ok info ->
    exists table ch tr T, get_table_by_id c (index_table_id info) = Ok table /\ db_tables d !! index_table_id info = Some ch
      /\ db_indexes d !! i = Some tr /\ tuples (column_types table) ch ≡ₚ lag i ++ T /\ index_ok m info T tr;
  ok_columns : forall i info table, index_by_id c i = Ok info -> get_table_by_id c (index_table_id info) = Ok table ->
    is_Some (index (column_types table) (index_column_index info));
  ok_header : exists b, m !! 0 = Some b /\ len b = PAGE_SIZE
    /\ header_holds b 24 (catalog_first_page c) /\ header_holds b 40 (index_catalog_first_page c);
  ok_table_heap : catalog_heap m (catalog_first_page c) (db_table_rows d);
  ok_table_rows : (heap_list (db_table_rows d)).*2 ≡ₚ encode_table_info <$> table_infos c;
  ok_index_heap : catalog_heap m (index_catalog_first_page c) (db_index_rows d);
  ok_index_rows : heap_list (db_index_rows d) ≡ₚ (fun i => (catalog_rid i, index_row i)) <$> index_infos c;
  ok_infos : Forall wf_table_info (table_infos c) /\ Forall index_info_ok (index_infos c);
  ok_layout : laid_out m d;
}.
Abbreviation db_ok := (db_rep (fun _ => [])).

Lemma index_ok_perm m info T T' tr : T ≡ₚ T' -> index_ok m info T tr -> index_ok m info T' tr.
Proof. intros Hp [H1 H2 H3]. split; [done | by rewrite <- Hp | by rewrite <- Hp]. Qed.
Lemma db_index m c d : db_ok m c d -> forall i info, index_by_id c i = Ok info ->
  exists table ch tr, get_table_by_id c (index_table_id info) = Ok table /\ db_tables d !! index_table_id info = Some ch
    /\ db_indexes d !! i = Some tr /\ index_ok m info (tuples (column_types table) ch) tr.
Proof.
  intros Hok i info Hi. destruct (ok_indexes _ _ _ _ Hok i info Hi) as (table & ch & tr & T & Ht & Hch & Htr & HT & Hix).
  exists table, ch, tr. split_and!; [done | done | done |]. by eapply index_ok_perm.
Qed.
