(* ===== verification/Queries.v ===== *)
(** * Queries over a database

    Running a query plan over a database returns the rows the plan denotes over the tables as the
    transaction sees them, through whichever indexes the optimizer chose. *)
From stdpp Require Import sorting.
From S2P Require Import Prelude Text Value Memcomparable Tuple Common Errors LockManager VersionStore TxnManager.
From S2P Require Import Catalog Planner Expression OptimizerSpec Page Slots Heap HeapPage HeapSpec.
From S2P Require Import BtreeNode Btree BtreePage BtreeWrites BtreeTree BtreeSpec BtreeInsert BtreeScan BtreeProps.
From S2P Require Import CatalogStore Executor ExecutorReads Database.

(** ** The tables as a transaction sees them *)
Section meaning.
Context (c : CatalogState) (d : Db) (vs : StoreState) (txn : Transaction).

Definition types_of (t : TableId) : list DataType.t := match get_table_by_id c t with Ok info => column_types info | _ => [] end.
Definition chain_of (t : TableId) : chain := default [] (db_tables d !! t).
Definition seen (x : Rid * Tuple) : Prop := visible vs txn x.1 = true.
#[global] Instance seen_dec x : Decision (seen x).
Proof. unfold seen. apply _. Defined.
Definition table_rows (t : TableId) : list Tuple := (filter seen (tuples (types_of t) (chain_of t))).*2.

Definition row_at (t : TableId) (rid : Rid) : option (Rid * Tuple) :=
  row ← heap_get (chain_of t) rid; decoded (types_of t) (rid, row).
Definition scanned_entries (i : IndexId) (s e : option bytes) : list entry :=
  match db_indexes d !! i with
  | Some tr => take_while (below_end e) (past s (all_entries (tree_leaves tr)))
  | None => []
  end.
Definition index_rows (i : IndexId) (t : TableId) (s e : option bytes) : list Tuple :=
  (filter seen (omap (fun x => row_at t x.2) (scanned_entries i s e))).*2.

(** The tables and indexes a query reads are in the catalog. *)
Fixpoint query_ok (p : LogicalPlan.t) : Prop :=
  match p with
  | LogicalPlan.OneRow => True
  | LogicalPlan.SeqScan t => exists info, get_table_by_id c t = Ok info
  | LogicalPlan.IndexScan i t _ _ => exists info, index_by_id c i = Ok info /\ index_table_id info = t
  | LogicalPlan.Filter _ input | LogicalPlan.Projection _ input => query_ok input
  | _ => False
  end.
End meaning.

Lemma scan_rows_tuples vs txn types l : Forall (fun x => exists tuple, Tuple.decode x.2 types = Ok tuple) l ->
  scan_rows vs txn types l = Ok (filter (seen vs txn) (omap (decoded types) l)).*2.
Proof.
  induction 1 as [| [rid row] l [tuple Hd] _ IH]; [done |]. cbn [scan_rows]. cbn in Hd. cbn [omap list_omap].
  unfold decoded at 1, decode_row. cbn [fst snd]. rewrite Hd. rewrite filter_cons.
  destruct (visible vs txn rid) eqn:Ev; [rewrite decide_True by exact Ev | rewrite decide_False by (unfold seen; cbn; congruence)]; by rewrite IH.
Qed.

(** ** Running a query plan *)

(** [b] is past the number of rows and pages of every table and index. *)
Definition db_size (d : Db) (b : nat) : Prop :=
  (forall t ch, db_tables d !! t = Some ch -> (length (heap_list ch) + length ch + 2 <= b)%nat)
  /\ (forall i tr, db_indexes d !! i = Some tr ->
       (length (all_entries (tree_leaves tr)) + length (tree_leaves tr) + length (tree_levels tr) + 2 <= b)%nat).
Fixpoint plan_nodes (p : LogicalPlan.t) : nat :=
  match p with LogicalPlan.Filter _ input | LogicalPlan.Projection _ input => S (plan_nodes input) | _ => 1 end.

(** The rows entries point at. *)
Definition fetched (ch : chain) (e : entry) : option (Rid * bytes) := (fun row => (e.2, row)) <$> heap_get ch e.2.

Lemma fetched_points ch es : Forall (fun e => is_Some (heap_get ch e.2)) es -> Forall2 (points_at ch) es (omap (fetched ch) es).
Proof.
  induction 1 as [| e es [row Hr] _ IH]; [constructor |]. cbn [omap list_omap]. unfold fetched at 1. rewrite Hr. cbn. constructor; [| done]. by split.
Qed.
Lemma fetched_rows c d t (es : list entry) : omap (decoded (types_of c t)) (omap (fetched (chain_of d t)) es) = omap (fun x : entry => row_at c d t x.2) es.
Proof.
  induction es as [| e es IH]; [done |]. cbn [omap list_omap]. unfold fetched at 1, row_at at 1.
  destruct (heap_get (chain_of d t) e.2) as [row |]; cbn; [| done]. by rewrite IH.
Qed.

Lemma length_take_while {A} (f : A -> bool) l : (length (take_while f l) <= length l)%nat.
Proof. induction l as [| x l IH]; cbn; [lia |]. destruct (f x); cbn; lia. Qed.
Lemma elem_of_take_while {A} (f : A -> bool) l x : x ∈ take_while f l -> x ∈ l.
Proof. induction l as [| y l IH]; cbn; [done |]. destruct (f y); set_solver. Qed.
Lemma length_omap {A B} (f : A -> option B) l : (length (omap f l) <= length l)%nat.
Proof. induction l as [| x l IH]; cbn; [lia |]. destruct (f x); cbn; lia. Qed.

Section queries.
Context {P : Type} `{!PageStore P, !PageStoreLaws P}.
Context (n : nat) (m : gmap PageId bytes) (c : CatalogState) (d : Db) (vs : StoreState) (txn : Transaction) (b : nat).
Hypothesis Hok : db_ok m c d.
Hypothesis Hsize : db_size d b.

Abbreviation trows := (table_rows c d vs txn).
Abbreviation irows := (index_rows c d vs txn).
Abbreviation xr := (xreads n m c vs txn).

Lemma table_rows_length t : (length (trows t) <= b)%nat.
Proof.
  unfold table_rows. rewrite length_fmap. etrans; [apply length_filter |]. etrans; [apply length_omap |]. unfold chain_of.
  destruct (db_tables d !! t) as [ch |] eqn:E; [| cbn; lia]. pose proof (proj1 Hsize t ch E). change (default [] (Some ch)) with ch. lia.
Qed.
Lemma scanned_entries_length i s e : (length (scanned_entries d i s e) <= b)%nat.
Proof.
  unfold scanned_entries. destruct (db_indexes d !! i) as [tr |] eqn:E; [| cbn; lia]. etrans; [apply length_take_while |].
  unfold past. etrans; [apply length_filter |]. pose proof (proj2 Hsize i tr E). lia.
Qed.
Lemma index_rows_length i t s e : (length (irows i t s e) <= b)%nat.
Proof.
  unfold index_rows. rewrite length_fmap. etrans; [apply length_filter |]. etrans; [apply length_omap |]. apply scanned_entries_length.
Qed.

Lemma seq_scan_init_spec t info : get_table_by_id c t = Ok info ->
  xr (seq_scan_init txn (SeqScanExecutor_new t)) (fun x => seq_yields m vs txn b x (trows t)).
Proof.
  intros Ht. destruct (ok_tables _ _ _ _ Hok t info Ht) as (ch & Hch & (Hne & Hhd & Hrep & Hnd) & Hdec). unfold seq_scan_init.
  eapply xreads_bind; [apply (xreads_catalog _ _ _ _ _ _ info (fun x => x = info)); done |]. intros ? ->.
  eapply xreads_bind; [apply table_lock_spec |]. intros _ _. apply xreads_ret.
  exists (heap_list ch), (length ch). split_and!.
  - cbn. destruct ch as [| [p ts] ch]; [done |]. cbn in Hhd. subst p. exists O, ts, ch. by rewrite heap_list_cons.
  - cbn. rewrite scan_rows_tuples by done. unfold table_rows, types_of, chain_of. by rewrite Ht, Hch.
  - pose proof (proj1 Hsize t ch Hch). lia.
Qed.

(** Every entry of an index points at a row. *)
Lemma entries_point i info tr e : index_by_id c i = Ok info -> db_indexes d !! i = Some tr -> e ∈ all_entries (tree_leaves tr) ->
  is_Some (heap_get (chain_of d (index_table_id info)) e.2).
Proof.
  intros Hi Htr He. destruct (db_index _ _ _ Hok i info Hi) as (table & ch & tr' & Ht & Hch & Htr' & Hix). simplify_eq.
  rewrite (ix_entries _ _ _ _ Hix) in He. apply list_elem_of_fmap in He as (x & -> & Hx). cbn.
  destruct (tuples_elem _ _ _ Hx) as (row & Hrow & _). destruct (ok_tables _ _ _ _ Hok _ _ Ht) as (ch' & Hch' & (_ & _ & _ & Hnd) & _). simplify_eq.
  unfold chain_of. rewrite Hch. cbn. apply heap_list_get in Hrow; [| done]. by exists row.
Qed.

Lemma index_scan_init_spec fuel i info s e : index_by_id c i = Ok info -> (b <= fuel)%nat ->
  xr (index_scan_init fuel txn (IndexScanExecutor_new i (index_table_id info) s e))
    (fun x => index_yields m vs txn b x (irows i (index_table_id info) s e)).
Proof.
  intros Hi Hf. destruct (db_index _ _ _ Hok i info Hi) as (table & ch & tr & Ht & Hch & Htr & Hix).
  destruct (ok_tables _ _ _ _ Hok _ _ Ht) as (ch' & Hch' & Hheap & Hdec). simplify_eq. pose proof (proj2 Hsize i tr Htr) as Hb.
  unfold index_scan_init. cbn [is_table_id is_index_id is_start is_end IndexScanExecutor_new].
  eapply xreads_bind; [apply (xreads_catalog _ _ _ _ _ _ table (fun x => x = table)); done |]. intros ? ->.
  eapply xreads_bind; [apply table_lock_spec |]. intros _ _.
  eapply xreads_bind; [apply (xreads_catalog _ _ _ _ _ _ (root_page_id info) (fun x => x = root_page_id info)); [unfold index_root_page; by rewrite Hi | done] |].
  intros ? ->. eapply xreads_bind.
  { apply xreads_pages. eapply triple_mono; [eapply leaf_for_start_spec; [apply (ix_tree _ _ _ _ Hix) | lia] | intros p m' H; exact H | done]. }
  cbn beta. intros leaf (ahead & Ha & Hc). apply xreads_ret.
  exists (root_page_id info), (tree_leaves tr), (tree_levels tr), (first_page_id table), ch, (past s (all_entries (tree_leaves tr))), (S ahead),
    (omap (fetched ch) (scanned_entries d i s e)). cbn [is_end is_column_types is_table_first_page_id].
  assert (Epast : scanned_entries d i s e = take_while (below_end e) (past s (all_entries (tree_leaves tr)))) by (unfold scanned_entries; by rewrite Htr).
  assert (Hpts : Forall (fun x => is_Some (heap_get ch x.2)) (scanned_entries d i s e)).
  { apply Forall_forall. intros x Hx. rewrite Epast in Hx. apply elem_of_take_while in Hx. apply list_elem_of_filter in Hx as [_ Hx].
    pose proof (entries_point i info tr x Hi Htr Hx) as Hp. unfold chain_of in Hp. by rewrite Hch in Hp. }
  split_and!; [apply (ix_tree _ _ _ _ Hix) | done | done | by exists ahead | rewrite <- Epast; by apply fetched_points | |].
  - rewrite scan_rows_tuples.
    + pose proof (fetched_rows c d (index_table_id info) (scanned_entries d i s e)) as Hfr.
      unfold index_rows. rewrite <- Hfr. unfold types_of, chain_of. by rewrite Ht, Hch.
    + apply Forall_forall. intros x (e0 & He0 & Hx)%list_elem_of_omap. unfold fetched in Hx.
      destruct (heap_get ch e0.2) as [row |] eqn:Eg; [| done]. cbn in Hx. simplify_eq. rewrite Forall_forall in Hdec.
      destruct Hheap as (_ & _ & _ & Hnd). apply (Hdec (e0.2, row)). by apply heap_list_get.
  - unfold past. pose proof (length_filter (beyond s) (all_entries (tree_leaves tr))). lia.
Qed.

Lemma filter_rows_length p rows out : filter_rows p rows = Ok out -> (length out <= length rows)%nat.
Proof. intros [_ ->]%filter_rows_ok. apply length_filter. Qed.
Lemma project_rows_length es rows : forall out, project_rows es rows = Ok out -> length out = length rows.
Proof.
  induction rows as [| row rows IH]; intros out H; [by injection H as <- |].
  destruct (project_rows_cons _ _ _ _ H) as (o & rest & _ & Hr & ->). cbn. by rewrite (IH rest Hr).
Qed.
Lemma denote_length p rows : (1 <= b)%nat -> denote trows irows p = Ok rows -> (length rows <= b)%nat.
Proof.
  intros Hb. revert rows. induction p as [| | | pred input IH | es input IH | | | |]; intros out H; cbn in H; try done.
  - injection H as <-. done.
  - injection H as <-. apply table_rows_length.
  - injection H as <-. apply index_rows_length.
  - destruct (denote trows irows input) as [below | |]; [| done..]. cbn in H. pose proof (filter_rows_length _ _ _ H). specialize (IH _ eq_refl). lia.
  - destruct (denote trows irows input) as [below | |]; [| done..]. cbn in H. pose proof (project_rows_length _ _ _ H). specialize (IH _ eq_refl). lia.
Qed.

Lemma exec_init_spec fuel p rows : query_ok c p -> denote trows irows p = Ok rows -> (1 <= b <= fuel)%nat ->
  exists x, build_executor (to_physical p) = Ok x
    /\ xr (exec_init fuel txn x) (fun x => yields m vs txn (plan_nodes p * S b) x rows).
Proof.
  intros Hq Hd Hb. revert rows Hd. induction p as [| t | i t s e | pred input IH | es input IH | | | |]; intros out Hd; cbn in Hq; try done; cbn in Hd.
  - eexists. split; [done |]. injection Hd as <-. apply xreads_ret. cbn. split; [done | lia].
  - eexists. split; [done |]. injection Hd as <-. destruct Hq as [info Hq]. cbn [exec_init].
    eapply xreads_bind; [apply (seq_scan_init_spec t info Hq) |]. intros x Hx. apply xreads_ret. exists b. split; [done | cbn; lia].
  - eexists. split; [done |]. injection Hd as <-. destruct Hq as (info & Hq & <-). cbn [exec_init].
    eapply xreads_bind; [apply (index_scan_init_spec fuel i info s e Hq); lia |]. intros x Hx. apply xreads_ret. exists b. split; [done | cbn; lia].
  - destruct (denote trows irows input) as [below | |] eqn:E; [| done..]. cbn in Hd. destruct (IH Hq below eq_refl) as (x & Hx & Hi).
    exists (Executor.Filter pred x). cbn [to_physical build_executor]. rewrite Hx. split; [done |]. cbn [exec_init].
    eapply xreads_bind; [exact Hi |]. intros x' Hx'. apply xreads_ret. eexists _, below. split_and!; [exact Hx' | done |].
    pose proof (denote_length input below ltac:(lia) E). cbn [plan_nodes]. lia.
  - destruct (denote trows irows input) as [below | |] eqn:E; [| done..]. cbn in Hd. destruct (IH Hq below eq_refl) as (x & Hx & Hi).
    exists (Executor.Projection es x). cbn [to_physical build_executor]. rewrite Hx. split; [done |]. cbn [exec_init].
    eapply xreads_bind; [exact Hi |]. intros x' Hx'. apply xreads_ret. eexists _, below. split_and!; [exact Hx' | done |]. cbn [plan_nodes]. lia.
Qed.

(** Running a query plan returns the rows it denotes. *)
Lemma run_plan_spec steps fuel p rows : query_ok c p -> denote trows irows p = Ok rows -> (1 <= b < steps)%nat -> (plan_nodes p * S b <= fuel)%nat ->
  xr (run_plan steps fuel txn (to_physical p)) (fun r => r = rows).
Proof.
  intros Hq Hd Hb Hf. assert (Hn : (1 <= plan_nodes p)%nat) by (destruct p; cbn; lia).
  destruct (exec_init_spec fuel p rows Hq Hd ltac:(nia)) as (x & Hx & Hi). unfold run_plan.
  eapply xreads_bind; [by apply (xreads_lift _ _ _ _ _ _ x (fun a => a = x)) |]. intros ? ->.
  eapply xreads_bind; [exact Hi |]. intros x' Hx'. eapply drain_executor_spec; [exact Hx' | done |].
  pose proof (denote_length p rows ltac:(lia) Hd). lia.
Qed.
End queries.

(** ** Index scans of the database keep the optimizer's contract *)

(** The indexed columns have a type whose keys are not prefixes of one another. *)
Definition fixed_width (ty : DataType.t) : bool := match ty with DataType.Varchar _ => false | _ => true end.
Definition fixed_width_keys (c : CatalogState) : Prop := forall i info table, index_by_id c i = Ok info ->
  get_table_by_id c (index_table_id info) = Ok table ->
  exists ty, index (column_types table) (index_column_index info) = Some ty /\ fixed_width ty = true.

Lemma encoded_length ty v k : fixed_width ty = true -> Value.has_type ty v = true -> encode_memcomparable v [] = Ok k ->
  exists tag rest, k = tag :: rest /\ (tag = NULL_TAG /\ rest = []
    \/ tag = VALUE_TAG /\ length rest = match ty with DataType.Boolean => 1 | DataType.Integer => 4 | _ => 8 end)%nat.
Proof.
  intros Hty Hv Ek. destruct v as [| x | x | x | x | x]; cbn in Ek.
  - injection Ek as <-. eexists _, _. split; [done |]. by left.
  - injection Ek as <-. eexists _, _. split; [done |]. right. by destruct ty.
  - injection Ek as <-. eexists _, _. split; [done |]. right. by destruct ty.
  - injection Ek as <-. eexists _, _. split; [done |]. right. by destruct ty.
  - destruct (F64.is_nan x); [done |]. injection Ek as <-. eexists _, _. split; [done |]. right. by destruct ty.
  - by destruct ty.
Qed.
Lemma fixed_width_prefix ty u v ku kv : fixed_width ty = true -> Value.has_type ty u = true -> Value.has_type ty v = true ->
  encode_memcomparable u [] = Ok ku -> encode_memcomparable v [] = Ok kv -> ku `prefix_of` kv -> ku = kv.
Proof.
  intros Hty Hu Hv Eu Ev [k Hk]. destruct (encoded_length _ _ _ Hty Hu Eu) as (tu & ru & -> & Htu).
  destruct (encoded_length _ _ _ Hty Hv Ev) as (tv & rv & -> & Htv). injection Hk as -> ->.
  assert (k = []) as ->; [| by rewrite app_nil_r]. apply length_zero_iff_nil. rewrite length_app in Htv.
  destruct Htu as [[-> ->] | [-> Htu]], Htv as [[Ht Hr] | [Ht Hr]]; try (vm_compute in Ht; discriminate Ht); cbn in *; try lia.
  by rewrite Hr.
Qed.

Lemma filter_fmap {A B} (f : A -> B) (Q : B -> Prop) `{!forall x, Decision (Q x)} (l : list A) :
  filter Q (f <$> l) = f <$> filter (fun x => Q (f x)) l.
Proof. induction l as [| x l IH]; [done |]. cbn [fmap list_fmap]. rewrite !filter_cons. case_decide; cbn; by rewrite IH. Qed.
Lemma filter_sublist_impl {A} (Q Q' : A -> Prop) `{!forall x, Decision (Q x), !forall x, Decision (Q' x)} (l : list A) :
  (forall x, x ∈ l -> Q x -> Q' x) -> filter Q l `sublist_of` filter Q' l.
Proof.
  induction l as [| x l IH]; intros Hi; [done |]. rewrite !filter_cons. specialize (IH ltac:(set_solver)). pose proof (Hi x ltac:(left)).
  repeat case_decide; [by apply sublist_skip | naive_solver | by apply sublist_cons | done].
Qed.
Lemma omap_fmap_some {A B C} (f : A -> option B) (g : C -> A) (h : C -> B) (l : list C) :
  (forall x, x ∈ l -> f (g x) = Some (h x)) -> omap f (g <$> l) = h <$> l.
Proof. induction l as [| x l IH]; intros H; [done |]. cbn. rewrite (H x) by left. f_equal. apply IH. set_solver. Qed.

Lemma index_for_column_by_id c t column info : catalog_ok c -> index_for_column c t column = Some info ->
  index_by_id c (index_id info) = Ok info /\ index_table_id info = t /\ index_column_index info = column.
Proof.
  intros H. unfold index_for_column. destruct (indexes_by_table c !! t) as [ids |] eqn:Et; [| done]. cbn.
  intros (id & Hid & Hf)%find_map_Some. destruct (index_of_table c H _ _ _ Et Hid) as (name & info' & Hb & Hm & Htt).
  rewrite Hb in Hf. cbn in Hf. rewrite Hm in Hf. cbn in Hf. destruct (Z.eqb_spec (index_column_index info') column); simplify_eq.
  destruct (index_of_name c H _ _ Hm) as (_ & Hbn & _). unfold index_by_id. rewrite Hbn. cbn. by rewrite Hm.
Qed.

Section contract.
Context (m : gmap PageId bytes) (c : CatalogState) (d : Db) (vs : StoreState) (txn : Transaction).
Hypothesis Hok : db_ok m c d.

(** A row of a table has values of the types of its columns. *)
Lemma tuples_row_ok types ch x : x ∈ tuples types ch -> row_ok types x.2.
Proof. intros (row & _ & Hd)%tuples_elem. pose proof (tuple_decode_sound row types) as H. by rewrite Hd in H. Qed.
Lemma table_rows_wf t : Forall (Forall Value.wf) (table_rows c d vs txn t).
Proof.
  apply Forall_forall. intros row (x & -> & Hx)%list_elem_of_fmap. apply list_elem_of_filter in Hx as [_ Hx]. by apply tuples_row_ok in Hx as [Hx _].
Qed.

Lemma row_at_tuples t info x : get_table_by_id c t = Ok info -> x ∈ tuples (types_of c t) (chain_of d t) -> row_at c d t x.1 = Some x.
Proof.
  intros Ht Hx. destruct (ok_tables _ _ _ _ Hok _ _ Ht) as (ch & Hch & (_ & _ & _ & Hnd) & _).
  destruct (tuples_elem _ _ _ Hx) as (row & Hrow & Hd). unfold row_at, chain_of in *. rewrite Hch in *.
  change (default [] (Some ch)) with ch in *. apply heap_list_get in Hrow; [| done]. rewrite Hrow. cbn. unfold decoded. cbn. rewrite Hd. by destruct x.
Qed.

Lemma index_keys_prefix_free i info table tr : fixed_width_keys c -> index_by_id c i = Ok info -> get_table_by_id c (index_table_id info) = Ok table ->
  db_indexes d !! i = Some tr -> prefix_free (all_entries (tree_leaves tr)).*1.
Proof.
  intros Hfw Hi Ht Htr. destruct (db_index _ _ _ Hok i info Hi) as (table' & ch & tr' & Ht' & Hch & Htr' & Hix). simplify_eq.
  destruct (Hfw i info table' Hi Ht') as (ty & Hty & Hw).
  assert (Hkey : forall k, k ∈ (all_entries (tree_leaves tr)).*1 -> exists v, Value.has_type ty v = true /\ encode_memcomparable v [] = Ok k).
  { intros k. rewrite (ix_entries _ _ _ _ Hix), <- list_fmap_compose. intros (x & -> & Hx)%list_elem_of_fmap. cbn.
    pose proof (ix_keys _ _ _ _ Hix) as Hk. rewrite Forall_forall in Hk. destruct (Hk x Hx) as [k Ek]. unfold key_of. rewrite Ek.
    destruct (tuples_row_ok _ _ _ Hx) as (_ & _ & Hf2). unfold index_key in Ek. unfold index in Hty, Ek.
    destruct (Z.leb_spec 0 (index_column_index info)); [| done]. destruct (Forall2_lookup_l _ _ _ _ _ Hf2 Hty) as (v & Hv & Hvt).
    rewrite Hv in Ek. cbn in Ek. exists v. split; [done |]. destruct (encode_memcomparable v []); by simplify_eq. }
  intros a b' Ha Hb. destruct (Hkey a Ha) as (u & Hu & Eu), (Hkey b' Hb) as (v & Hv & Ev). exact (fixed_width_prefix ty u v a b' Hw Hu Hv Eu Ev).
Qed.

(** The rows of an index scan: those of the table whose entries are in the range. *)
Definition in_range (s e : option bytes) (x : entry) : Prop := beyond s x /\ below_end e x = true.
#[local] Instance in_range_dec s e x : Decision (in_range s e x).
Proof. unfold in_range. apply _. Defined.

Lemma index_rows_eq i info s e : fixed_width_keys c -> index_by_id c i = Ok info ->
  index_rows c d vs txn i (index_table_id info) s e
  ≡ₚ (filter (seen vs txn) (filter (fun x => in_range s e (entry_of (index_column_index info) x))
        (tuples (types_of c (index_table_id info)) (chain_of d (index_table_id info))))).*2.
Proof.
  intros Hfw Hi. destruct (db_index _ _ _ Hok i info Hi) as (table & ch & tr & Ht & Hch & Htr & Hix). unfold index_rows. f_equiv. f_equiv.
  unfold scanned_entries. rewrite Htr. rewrite range_exact.
  2: { eapply index_keys_prefix_free; [exact Hfw | exact Hi | exact Ht | exact Htr]. }
  2: { exact (items_sorted_entries _ (bt_sorted _ _ _ _ (ix_tree _ _ _ _ Hix))). }
  change (fun e0 => beyond s e0 /\ below_end e e0 = true) with (in_range s e).
  set (col := index_column_index info). set (T := tuples _ _).
  assert (HT : all_entries (tree_leaves tr) ≡ₚ entry_of col <$> T).
  { pose proof (ix_entries _ _ _ _ Hix) as HE. unfold T, types_of, chain_of. rewrite Ht, Hch. exact HE. }
  rewrite HT, (filter_fmap (entry_of col) (in_range s e)).
  rewrite (omap_fmap_some _ _ id); [by rewrite list_fmap_id |]. intros x [_ Hx]%list_elem_of_filter. cbn.
  by eapply row_at_tuples.
Qed.

(** An entry whose key is within the bounds is in the range. *)
Lemma key_within_in_range s e column x : key_within column s e x.2 = true -> in_range s e (entry_of column x).
Proof.
  unfold key_within, in_range, entry_of, key_of, index_key. destruct (index x.2 column) as [v |]; [| done]. cbn.
  destruct (encode_memcomparable v []) as [k | |]; [| done..]. intros [Hs He]%andb_true_iff. split.
  - destruct s as [s |]; [| done]. cbn [beyond]. apply (ble_blt_trans _ k); [by apply lex_ge_spec | exact (key_below_sort_key (k, x.1))].
  - unfold below_end. cbn. destruct e as [e |]; [| done]. cbn. apply negb_true_iff in He. apply negb_true_iff, key_le_false.
    unfold lex_ge in He. unfold blt. by destruct (lex_compare k e).
Qed.

Lemma db_index_scan_contract : fixed_width_keys c -> index_scan_contract (table_rows c d vs txn) (index_rows c d vs txn) c.
Proof.
  intros Hfw t column info s e Hc. destruct (index_for_column_by_id _ _ _ _ (ok_catalog _ _ _ _ Hok) Hc) as (Hi & <- & <-).
  rewrite (index_rows_eq _ _ s e Hfw Hi). unfold table_rows. split.
  - rewrite (filter_fmap snd). apply fmap_submseteq. rewrite !list_filter_filter. apply sublist_submseteq, filter_sublist_impl.
    intros x _ [Hk Hs]. split; [done | by apply key_within_in_range].
  - apply fmap_submseteq, sublist_submseteq. rewrite list_filter_filter. apply filter_sublist_impl. by intros x _ [? _].
Qed.
End contract.
