(* ===== verification/DatabaseFrames.v ===== *)
(** * Changes of one part of the database

    A row added to a table, an entry to an index, a row to the catalog: each changes the pages of one
    part and keeps the others as they are. *)
From stdpp Require Import sorting.
From S2P Require Import Prelude Text Value Memcomparable Tuple Common Errors Catalog Expression Page Slots Heap HeapPage HeapSpec.
From S2P Require Import BtreeNode Btree BtreePage BtreeWrites BtreeTree BtreeSpec BtreeInsert BtreeScan CatalogStore Executor Database.

(** ** Pages that did not change *)
Lemma heap_ok_frame m m' first ch : heap_ok m first ch -> (forall q, q ∈ ch.*1 -> m' !! q = m !! q) -> heap_ok m' first ch.
Proof. intros (H1 & H2 & H3 & H4) Hq. split_and!; [done | done | by eapply heap_rep_frame | done]. Qed.
Lemma table_ok_frame m m' info ch : table_ok m info ch -> (forall q, q ∈ ch.*1 -> m' !! q = m !! q) -> table_ok m' info ch.
Proof. intros [H1 H2] Hq. split; [by eapply heap_ok_frame | done]. Qed.
Lemma catalog_heap_frame m m' first ch : catalog_heap m first ch -> (forall q, q ∈ ch.*1 -> m' !! q = m !! q) -> catalog_heap m' first ch.
Proof. destruct first; [apply heap_ok_frame | done]. Qed.

Lemma btree_ok_frame m m' root ls lv : btree_ok m root ls lv -> (forall q, q ∈ tree_pages ls lv -> m' !! q = m !! q) -> btree_ok m' root ls lv.
Proof.
  intros [[Hn Hf] H2 H3 H4 H5] Hq. split; [| done..]. split; [done |]. rewrite Forall_forall in Hf |- *. intros nd Hnd.
  destruct (Hf nd Hnd) as (Hr & b & Hb & Hh). split; [done |]. exists b. rewrite Hq; [done |]. unfold tree_pages.
  rewrite <- (leaf_nodes_pages ls None), <- inner_nodes_pages, <- fmap_app. by apply list_elem_of_fmap_2.
Qed.
Lemma btree_pages_stored m root ls lv q : btree_ok m root ls lv -> q ∈ tree_pages ls lv -> is_Some (m !! q).
Proof.
  intros [[Hn Hf] _ _ _ _] Hq. unfold tree_pages in Hq. rewrite <- (leaf_nodes_pages ls None), <- inner_nodes_pages, <- fmap_app in Hq.
  apply list_elem_of_fmap in Hq as (nd & -> & Hnd). rewrite Forall_forall in Hf. destruct (Hf nd Hnd) as (_ & b & Hb & _). by exists b.
Qed.
Lemma index_ok_frame m m' info T tr : index_ok m info T tr ->
  (forall q, q ∈ tree_pages (tree_leaves tr) (tree_levels tr) -> m' !! q = m !! q) -> index_ok m' info T tr.
Proof. intros [H1 H2 H3] Hq. split; [by eapply btree_ok_frame | done | done]. Qed.

Lemma heap_pages_stored m first ch q : heap_ok m first ch -> q ∈ ch.*1 -> is_Some (m !! q).
Proof. intros (_ & _ & H & _). by apply heap_rep_in_store. Qed.

(** ** Rows of a heap *)
Lemma heap_list_add ch ch' rid data : NoDup ch.*1 -> NoDup ch'.*1 -> heap_get ch rid = None ->
  (forall r, heap_get ch' r = if decide (r = rid) then Some data else heap_get ch r) -> heap_list ch' ≡ₚ (rid, data) :: heap_list ch.
Proof.
  intros Hn Hn' Hnone Hg. apply NoDup_Permutation.
  - eapply NoDup_fmap_1, heap_list_nodup, Hn'.
  - constructor; [| eapply NoDup_fmap_1, heap_list_nodup, Hn]. intros Hin%heap_list_get; [| done]. congruence.
  - intros [r d0]. rewrite elem_of_cons, !heap_list_get by done. rewrite Hg. case_decide as E.
    + subst r. split; [intros [= ->]; by left | intros [[= ->] | H]; [done | congruence]].
    + split; [by right | intros [[= -> _] | H]; done].
Qed.
Lemma heap_list_same ch ch' : NoDup ch.*1 -> NoDup ch'.*1 -> (forall r, heap_get ch' r = heap_get ch r) -> heap_list ch' ≡ₚ heap_list ch.
Proof.
  intros Hn Hn' Hg. apply NoDup_Permutation; [eapply NoDup_fmap_1, heap_list_nodup, Hn' | eapply NoDup_fmap_1, heap_list_nodup, Hn |].
  intros [r d]. by rewrite !heap_list_get, Hg.
Qed.
Lemma omap_perm {A B} (f : A -> option B) l l' : l ≡ₚ l' -> omap f l ≡ₚ omap f l'.
Proof.
  induction 1 as [| x l l' _ IH | x y l | l1 l2 l3 _ IH1 _ IH2]; cbn.
  - done.
  - destruct (f x); [by constructor | done].
  - destruct (f x), (f y); (done || constructor).
  - by etrans.
Qed.
Lemma tuples_add types ch ch' rid data tuple : heap_list ch' ≡ₚ (rid, data) :: heap_list ch -> Tuple.decode data types = Ok tuple ->
  tuples types ch' ≡ₚ (rid, tuple) :: tuples types ch.
Proof. intros Hp Hd. unfold tuples. rewrite (omap_perm _ _ _ Hp). cbn. unfold decoded at 1. cbn. by rewrite Hd. Qed.

(** ** The indexes of a table *)
Lemma indexes_for_table_elem c t info : catalog_ok c ->
  info ∈ indexes_for_table c t <-> index_by_id c (index_id info) = Ok info /\ index_table_id info = t.
Proof.
  intros H. unfold indexes_for_table, index_by_id. rewrite list_elem_of_omap. split.
  - intros (name & Hn & Hi). apply list_elem_of_omap in Hn as (id & Hid & Hn).
    destruct (indexes_by_table c !! t) as [ids |] eqn:Et; [| by apply not_elem_of_nil in Hid]. cbn in Hid.
    destruct (index_of_table c H t ids id Et Hid) as (name' & info' & Hb & Hm & Htt). simplify_eq.
    destruct (index_of_name c H _ _ Hi) as (_ & Hb' & _). rewrite Hb'. cbn. by rewrite Hi.
  - intros [Hi <-]. destruct (indexes_by_id c !! index_id info) as [name |] eqn:Eb; [| done]. cbn in Hi.
    destruct (indexes_by_name c !! name) as [info' |] eqn:En; [| done]. cbn in Hi. injection Hi as ->.
    exists name. split; [| done]. apply list_elem_of_omap. exists (index_id info). split; [| done].
    by destruct (index_of_name c H _ _ En) as (_ & _ & Hin).
Qed.
Lemma indexes_for_table_ids c t : catalog_ok c -> index_id <$> indexes_for_table c t = default [] (indexes_by_table c !! t).
Proof.
  intros H. unfold indexes_for_table. destruct (indexes_by_table c !! t) as [ids |] eqn:Et; [| done]. cbn [default from_option id].
  assert (Hall : Forall (fun i => exists name info, indexes_by_id c !! i = Some name /\ indexes_by_name c !! name = Some info /\ index_id info = i) ids).
  { apply Forall_forall. intros i Hi. destruct (index_of_table c H t ids i Et Hi) as (name & info & Hb & Hm & _). exists name, info.
    split_and!; [done | done |]. destruct (index_of_id c H _ _ Hb) as (_ & info' & Hm' & Hid). congruence. }
  clear Et. induction Hall as [| i ids (name & info & Hb & Hm & Hid) _ IH]; [done |]. cbn. rewrite Hb. cbn. rewrite Hm. cbn. by rewrite Hid, IH.
Qed.
Lemma indexes_for_table_once c t : catalog_ok c -> NoDup (index_id <$> indexes_for_table c t).
Proof.
  intros H. rewrite indexes_for_table_ids by done. destruct (indexes_by_table c !! t) as [ids |] eqn:E; [| constructor]. by eapply index_once.
Qed.

(** ** A row added to a table *)
Definition with_table (t : TableId) (ch : chain) (d : Db) : Db := mkDb (<[t := ch]> (db_tables d)) (db_indexes d) (db_table_rows d) (db_index_rows d).
Definition with_index (i : IndexId) (tr : Tree) (d : Db) : Db := mkDb (db_tables d) (<[i := tr]> (db_indexes d)) (db_table_rows d) (db_index_rows d).
Definition with_index_rows (ch : chain) (d : Db) : Db := mkDb (db_tables d) (db_indexes d) (db_table_rows d) ch.
Definition with_table_rows (ch : chain) (d : Db) : Db := mkDb (db_tables d) (db_indexes d) ch (db_index_rows d).

Lemma with_table_pages t ch d p : p <> PTable t -> part_pages (with_table t ch d) p = part_pages d p.
Proof. intros Hp. destruct p as [| t' | | |]; try done. cbn. rewrite lookup_insert_ne; [done | congruence]. Qed.
Lemma with_index_pages i tr d p : p <> PIndex i -> part_pages (with_index i tr d) p = part_pages d p.
Proof. intros Hp. destruct p as [| | i' | |]; try done. cbn. rewrite lookup_insert_ne; [done | congruence]. Qed.
Lemma with_index_rows_pages ch d p : p <> PIndexRows -> part_pages (with_index_rows ch d) p = part_pages d p.
Proof. by destruct p. Qed.
Lemma with_table_rows_pages ch d p : p <> PTableRows -> part_pages (with_table_rows ch d) p = part_pages d p.
Proof. by destruct p. Qed.

(** One row is missing in the indexes [todo]. *)
Definition lagging (todo : list IndexId) (x : Rid * Tuple) (i : IndexId) : list (Rid * Tuple) := if decide (i ∈ todo) then [x] else [].

Lemma header_frame (m m' : gmap PageId bytes) d p :
  (forall p' q, p' <> p -> q ∈ part_pages d p' -> m' !! q = m !! q) -> p <> PHeader -> m' !! 0 = m !! 0.
Proof. intros H Hp. apply (H PHeader 0); [done |]. cbn. set_solver. Qed.

Lemma db_insert_row m m' c d t info ch ch' rid data tuple :
  db_ok m c d -> get_table_by_id c t = Ok info -> db_tables d !! t = Some ch ->
  same_elsewhere ch m m' -> heap_get ch rid = None -> heap_ok m' (first_page_id info) ch' -> grows m ch ch' ->
  (forall r, heap_get ch' r = if decide (r = rid) then Some data else heap_get ch r) ->
  Tuple.decode data (column_types info) = Ok tuple ->
  db_rep (lagging (index_id <$> indexes_for_table c t) (rid, tuple)) m' c (with_table t ch' d).
Proof.
  intros Hok Ht Hch Hs Hnone Hh' [Hfr _] Hget Hd. destruct (ok_tables _ _ _ _ Hok t info Ht) as (? & ? & Hh & Hdec). simplify_eq.
  assert (Hp : heap_list ch' ≡ₚ (rid, data) :: heap_list ch).
  { apply heap_list_add; [apply Hh | apply Hh' | done | done]. }
  assert (Hpp : part_pages d (PTable t) = ch.*1) by (cbn; by rewrite Hch).
  assert (Hpp' : part_pages (with_table t ch' d) (PTable t) = ch'.*1) by (cbn; by rewrite lookup_insert_eq).
  destruct (part_update m m' d (with_table t ch' d) (PTable t) (ok_layout _ _ _ _ Hok)) as [Hlay Hkeep].
  { intros p Hne. by apply with_table_pages. }
  { by rewrite Hpp, Hpp'. }
  { by rewrite Hpp. }
  { rewrite Hpp'. intros q. by apply heap_pages_stored with (first_page_id info). }
  split; [apply Hok | | | apply Hok | | | apply Hok | | apply Hok | apply Hok | done].
  - intros t' info' Ht'. destruct (decide (t' = t)) as [-> | Hne].
    + assert (info' = info) as -> by congruence. exists ch'. cbn. rewrite lookup_insert_eq. split; [done |]. split; [done |]. rewrite Hp. constructor; [by exists tuple | done].
    + destruct (ok_tables _ _ _ _ Hok t' info' Ht') as (ch0 & Hch0 & Hok0). exists ch0. cbn. rewrite lookup_insert_ne by done. split; [done |].
      eapply table_ok_frame; [done |]. intros q Hq. apply (Hkeep (PTable t')); [congruence |]. cbn. by rewrite Hch0.
  - intros i ix Hi. destruct (ok_indexes _ _ _ _ Hok i ix Hi) as (table & ch0 & tr & T & Ht0 & Hch0 & Htr & HT & Hix).
    assert (Hix' : index_ok m' ix T tr).
    { eapply index_ok_frame; [done |]. intros q Hq. apply (Hkeep (PIndex i)); [done |]. cbn. by rewrite Htr. }
    assert (Hin : i ∈ index_id <$> indexes_for_table c t <-> index_table_id ix = t).
    { rewrite list_elem_of_fmap. split.
      - intros (ix' & -> & Hix2). apply indexes_for_table_elem in Hix2 as [Hi2 Hi3]; [| apply Hok]. congruence.
      - intros <-. exists ix. assert (Eid : index_id ix = i).
        { unfold index_by_id in Hi. destruct (indexes_by_id c !! i) as [name |] eqn:Eb; [| done]. cbn in Hi.
          destruct (index_of_id c (ok_catalog _ _ _ _ Hok) _ _ Eb) as (_ & ix' & Hm & Hid). rewrite Hm in Hi. by simplify_eq/=. }
        split; [done |]. apply indexes_for_table_elem; [apply Hok |]. by rewrite Eid. }
    unfold lagging. destruct (decide (index_table_id ix = t)) as [Et | Et].
    + rewrite Et in *. assert (table = info) as -> by congruence. assert (ch0 = ch) as -> by congruence. exists info, ch', tr, T. rewrite decide_True by (by apply Hin). cbn. rewrite lookup_insert_eq.
      split_and!; [done | done | done | | done]. rewrite (tuples_add _ _ _ _ _ _ Hp Hd). cbn in HT. by rewrite HT.
    + exists table, ch0, tr, T. rewrite decide_False by (by rewrite Hin). cbn. rewrite lookup_insert_ne by done. by split_and!.
  - destruct (ok_header _ _ _ _ Hok) as (b & Hb & Hr). exists b. split; [| done]. rewrite <- Hb.
    eapply header_frame; [exact Hkeep | done].
  - eapply catalog_heap_frame; [apply Hok |]. intros q Hq. by apply (Hkeep PTableRows).
  - eapply catalog_heap_frame; [apply Hok |]. intros q Hq. by apply (Hkeep PIndexRows).
Qed.

(** ** The root of an index *)
Lemma index_row_set_root info new : index_info_ok info -> in_u 32 new ->
  index_row (set_root_page_id new info) = splice (index_row info) (root_page_id_offset info) (to_le 4 new)
  /\ index_info_ok (set_root_page_id new info) /\ 0 <= root_page_id_offset info /\ root_page_id_offset info + 4 <= len (index_row info).
Proof.
  intros [Hwf Hoff] Hnew. destruct (index_row_root_last info new) as (front & E & E'). pose proof Hwf as (_ & _ & _ & Hr & _).
  rewrite !wrapu_wraps in * by (lia || done).
  assert (Hl : len front = root_page_id_offset info) by (rewrite Hoff, E, len_app, len_to_le; lia).
  assert (Hs : index_row (set_root_page_id new info) = splice (index_row info) (root_page_id_offset info) (to_le 4 new)).
  { rewrite E, <- Hl, splice_last by done. exact E'. }
  split_and!; [done | | | ].
  - split; [by destruct Hwf as (? & ? & ? & ? & ? & ?) |]. cbn [root_page_id_offset set_root_page_id]. rewrite Hoff, E, E', !len_app, !len_to_le. done.
  - rewrite <- Hl. apply len_nonneg.
  - rewrite E, len_app, len_to_le, Hl. lia.
Qed.

Section move_root.
Context (c : CatalogState) (Hc : catalog_ok c) (i : IndexId) (info : IndexInfo) (new : PageId).
Hypothesis Hi : index_by_id c i = Ok info.
Abbreviation c' := (move_root i new c).

Lemma index_by_id_name : indexes_by_id c !! i = Some (index_info_name info) /\ indexes_by_name c !! index_info_name info = Some info /\ index_id info = i.
Proof.
  unfold index_by_id in Hi. destruct (indexes_by_id c !! i) as [name |] eqn:Eb; [| done]. cbn in Hi.
  destruct (index_of_id c Hc _ _ Eb) as (_ & ix & Hm & Hid). rewrite Hm in Hi. cbn in Hi. injection Hi as ->.
  destruct (index_of_name c Hc _ _ Hm) as (-> & _ & _). done.
Qed.

Lemma move_root_names : indexes_by_name c' = <[index_info_name info := set_root_page_id new info]> (indexes_by_name c).
Proof.
  destruct index_by_id_name as (Hb & Hm & _). unfold move_root. rewrite Hb. cbn. apply map_eq. intros k.
  destruct (decide (k = index_info_name info)) as [-> | Hne]; [by rewrite lookup_alter_eq, lookup_insert_eq, Hm |].
  by rewrite lookup_alter_ne, lookup_insert_ne.
Qed.
Lemma move_root_maps : tables_by_name c' = tables_by_name c /\ tables_by_id c' = tables_by_id c /\ indexes_by_id c' = indexes_by_id c
  /\ indexes_by_table c' = indexes_by_table c /\ next_table_id c' = next_table_id c /\ next_index_id c' = next_index_id c
  /\ catalog_first_page c' = catalog_first_page c /\ index_catalog_first_page c' = index_catalog_first_page c.
Proof. unfold move_root. by destruct (indexes_by_id c !! i). Qed.

Lemma move_root_same : root_page_id info = new -> c' = c.
Proof.
  intros E. assert (Es : set_root_page_id new info = info) by (rewrite <- E; by destruct info).
  pose proof move_root_names as Hn. destruct index_by_id_name as (Hb & Hm & _). rewrite Es, insert_id in Hn by done.
  unfold move_root in *. rewrite Hb in *. cbn in Hn. rewrite Hn. by destruct c.
Qed.

Lemma move_root_by_id j : index_by_id c' j = if decide (j = i) then Ok (set_root_page_id new info) else index_by_id c j.
Proof.
  destruct index_by_id_name as (Hb & Hm & Hid). destruct move_root_maps as (_ & _ & Eb & _). unfold index_by_id at 1. rewrite Eb, move_root_names.
  case_decide as E.
  - subst j. rewrite Hb. cbn. by rewrite lookup_insert_eq.
  - unfold index_by_id. destruct (indexes_by_id c !! j) as [name |] eqn:Ej; [| done]. cbn. rewrite lookup_insert_ne; [done |].
    intros <-. destruct (index_of_id c Hc _ _ Ej) as (_ & ix & Hm' & Hid'). congruence.
Qed.
Lemma move_root_tables t : get_table_by_id c' t = get_table_by_id c t.
Proof. destruct move_root_maps as (E1 & E2 & _). unfold get_table_by_id, table_by_id. by rewrite E1, E2. Qed.
Lemma move_root_infos : exists rest, index_infos c ≡ₚ info :: rest /\ index_infos c' ≡ₚ set_root_page_id new info :: rest.
Proof.
  destruct index_by_id_name as (Hb & Hm & _). exists ((map_to_list (delete (index_info_name info) (indexes_by_name c))).*2). unfold index_infos.
  rewrite move_root_names. split.
  - by rewrite <- (map_to_list_delete (indexes_by_name c) _ _ Hm).
  - rewrite <- insert_delete_eq, map_to_list_insert by apply lookup_delete_eq. done.
Qed.
Lemma move_root_ok : catalog_ok c'.
Proof.
  destruct move_root_maps as (E1 & E2 & E3 & E4 & E5 & E6 & _). destruct index_by_id_name as (Hb & Hm & Hid).
  destruct (index_of_name c Hc _ _ Hm) as (_ & _ & Hin).
  destruct Hc as [H1 H2 H3 H4 H5 H6]. split; rewrite ?E1, ?E2, ?E3, ?E4, ?E5, ?E6, ?move_root_names; try done.
  - intros name ix. rewrite lookup_insert_Some. intros [[<- <-] | [Hne Hl]]; [| by apply H3]. cbn. by rewrite Hid in *.
  - intros id name Hl. destruct (H4 id name Hl) as [Hlt (ix & Hix & Hixid)]. split; [done |].
    destruct (decide (name = index_info_name info)) as [-> | Hne]; [| exists ix; by rewrite lookup_insert_ne].
    rewrite lookup_insert_eq. eexists. split; [done |]. cbn. congruence.
  - intros t ids id Ht Hids. destruct (H5 t ids id Ht Hids) as (name & ix & Hl & Hix & Htt). exists name.
    destruct (decide (name = index_info_name info)) as [-> | Hne]; [| exists ix; by rewrite lookup_insert_ne].
    rewrite lookup_insert_eq. eexists. split_and!; [done | done |]. cbn. congruence.
Qed.
End move_root.

(** A heap in which one row was replaced. *)
Lemma heap_list_set ch ch' rid old new rest : NoDup ch.*1 -> NoDup ch'.*1 -> heap_list ch ≡ₚ (rid, old) :: rest ->
  (forall r, heap_get ch' r = if decide (r = rid) then Some new else heap_get ch r) -> heap_list ch' ≡ₚ (rid, new) :: rest.
Proof.
  intros Hn Hn' Hp Hg. pose proof (heap_list_nodup ch Hn) as Hnd. rewrite Hp in Hnd. cbn in Hnd. apply NoDup_cons in Hnd as [Hnin Hnd].
  apply NoDup_Permutation.
  - eapply NoDup_fmap_1, heap_list_nodup, Hn'.
  - constructor; [| by eapply NoDup_fmap_1]. intros Hin. apply Hnin. by apply (list_elem_of_fmap_2 fst) in Hin.
  - intros [r d]. rewrite elem_of_cons, heap_list_get, Hg by done. case_decide as E.
    + subst r. split; [intros [= ->]; by left |]. intros [[= ->] | Hin]; [done |]. exfalso. apply Hnin. by apply (list_elem_of_fmap_2 fst) in Hin.
    + rewrite <- heap_list_get, Hp, elem_of_cons by done. naive_solver.
Qed.

Lemma index_id_of c i info : catalog_ok c -> index_by_id c i = Ok info -> index_id info = i.
Proof. intros Hc Hi. by destruct (index_by_id_name c Hc i info Hi) as (_ & _ & ?). Qed.
Lemma index_info_elem c i info : catalog_ok c -> index_by_id c i = Ok info -> info ∈ index_infos c.
Proof.
  intros Hc Hi. destruct (index_by_id_name c Hc i info Hi) as (_ & Hm & _). apply list_elem_of_fmap.
  exists (index_info_name info, info). split; [done |]. by apply elem_of_map_to_list.
Qed.

(** ** An entry added to an index

    The tree takes the entry, then the row of the index in the catalog the new root. *)
Section insert_entry.
Context (m m1 m2 : gmap PageId bytes) (c : CatalogState) (d : Db) (i : IndexId) (todo : list IndexId) (x : Rid * Tuple).
Context (info : IndexInfo) (tr tr' : Tree) (root : PageId) (rows : chain).
Hypothesis Hok : db_rep (lagging (i :: todo) x) m c d.
Hypothesis Htodo : i ∉ todo.
Hypothesis Hi : index_by_id c i = Ok info.
Hypothesis Htr : db_indexes d !! i = Some tr.
Hypothesis Hkey : exists k, index_key x.2 (index_column_index info) = Ok k.
Hypothesis Hs1 : same_outside (tree_pages (tree_leaves tr) (tree_levels tr)) m m1.
Hypothesis Hb1 : btree_ok m1 root (tree_leaves tr') (tree_levels tr').
Hypothesis He1 : all_entries (tree_leaves tr') ≡ₚ entry_of (index_column_index info) x :: all_entries (tree_leaves tr).
Hypothesis Hf1 : fresh_or m (tree_pages (tree_leaves tr) (tree_levels tr)) (tree_pages (tree_leaves tr') (tree_levels tr')).
Hypothesis Hroot : in_u 32 root.
Hypothesis Hs2 : same_elsewhere (db_index_rows d) m1 m2.
Hypothesis Hh2 : catalog_heap m2 (index_catalog_first_page c) rows.
Hypothesis Hp2 : rows.*1 = (db_index_rows d).*1.
Hypothesis Hg2 : forall r, heap_get rows r = if decide (r = catalog_rid info) then Some (index_row (set_root_page_id root info)) else heap_get (db_index_rows d) r.

Abbreviation c' := (move_root i root c).
Abbreviation d' := (with_index_rows rows (with_index i tr' d)).

Lemma insert_entry_layout : laid_out m2 d'
  /\ (forall p q, p <> PIndex i -> p <> PIndexRows -> q ∈ part_pages d p -> m2 !! q = m !! q)
  /\ (forall q, q ∈ tree_pages (tree_leaves tr') (tree_levels tr') -> m2 !! q = m1 !! q).
Proof.
  assert (Hpp : part_pages d (PIndex i) = tree_pages (tree_leaves tr) (tree_levels tr)) by (cbn; by rewrite Htr).
  assert (Hpp' : part_pages (with_index i tr' d) (PIndex i) = tree_pages (tree_leaves tr') (tree_levels tr')) by (cbn; by rewrite lookup_insert_eq).
  destruct (part_update m m1 d (with_index i tr' d) (PIndex i) (ok_layout _ _ _ _ Hok)) as [Hl1 Hk1].
  { intros p Hp. by apply with_index_pages. }
  { by rewrite Hpp, Hpp'. }
  { by rewrite Hpp. }
  { rewrite Hpp'. intros q. by apply (btree_pages_stored _ _ _ _ _ Hb1). }
  destruct (part_update m1 m2 (with_index i tr' d) d' PIndexRows Hl1) as [Hl2 Hk2].
  { intros p Hp. by apply with_index_rows_pages. }
  { cbn. rewrite Hp2. apply fresh_or_refl. }
  { exact Hs2. }
  { cbn. intros q Hq. destruct (index_catalog_first_page c) as [first |]; cbn in Hh2; [by eapply heap_pages_stored |].
    rewrite Hh2 in Hq. by apply not_elem_of_nil in Hq. }
  split_and!; [done | |].
  - intros p q H1 H2 Hq. rewrite (Hk2 p q H2); [by apply (Hk1 p) |]. by rewrite with_index_pages.
  - intros q Hq. apply (Hk2 (PIndex i)); [done |]. by rewrite Hpp'.
Qed.

Lemma insert_entry_indexes j info' : index_by_id c' j = Ok info' ->
  exists table ch tr0 T, get_table_by_id c' (index_table_id info') = Ok table /\ db_tables d' !! index_table_id info' = Some ch
    /\ db_indexes d' !! j = Some tr0 /\ tuples (column_types table) ch ≡ₚ lagging todo x j ++ T /\ index_ok m2 info' T tr0.
Proof.
  destruct insert_entry_layout as (_ & Hk & Hkt). intros Hj. rewrite (move_root_by_id c (ok_catalog _ _ _ _ Hok) i info root Hi) in Hj.
  destruct (decide (j = i)) as [-> | Hne].
  - injection Hj as <-. destruct (ok_indexes _ _ _ _ Hok i info Hi) as (table & ch & tr0 & T & Ht & Hch & Htr0 & HT & Hix).
    assert (tr0 = tr) as -> by congruence. cbn [set_root_page_id index_table_id]. exists table, ch, tr', (x :: T).
    rewrite move_root_tables. cbn. rewrite lookup_insert_eq. split_and!; [done | done | done | |].
    + unfold lagging in HT. rewrite decide_True in HT by left. unfold lagging. rewrite decide_False by done. done.
    + destruct Hix as [I1 I2 I3]. split; cbn [root_page_id set_root_page_id index_column_index].
      * eapply btree_ok_frame; [exact Hb1 | exact Hkt].
      * by constructor.
      * rewrite He1, I3. done.
  - destruct (ok_indexes _ _ _ _ Hok j info' Hj) as (table & ch & tr0 & T & Ht & Hch & Htr0 & HT & Hix).
    exists table, ch, tr0, T. rewrite move_root_tables. cbn. rewrite lookup_insert_ne by done. split_and!; [done | done | done | |].
    + unfold lagging in *. rewrite <- (decide_ext (j ∈ i :: todo) (j ∈ todo)) by set_solver. done.
    + eapply index_ok_frame; [done |]. intros q Hq. apply (Hk (PIndex j)); [congruence | done |]. cbn. by rewrite Htr0.
Qed.

Lemma db_insert_entry : db_rep (lagging todo x) m2 c' d'.
Proof.
  destruct insert_entry_layout as (Hlay & Hk & _). destruct (move_root_maps c i root) as (E1 & E2 & _ & _ & _ & _ & E7 & E8).
  pose proof (ok_catalog _ _ _ _ Hok) as Hc. destruct (move_root_infos c Hc i info root Hi) as (rest & P1 & P2).
  assert (Hinfo : index_info_ok info).
  { destruct (ok_infos _ _ _ _ Hok) as [_ Hf]. rewrite Forall_forall in Hf. eapply Hf, index_info_elem; done. }
  destruct (index_row_set_root info root Hinfo Hroot) as (_ & Hinfo' & _).
  split; [by eapply move_root_ok | | exact insert_entry_indexes | | | | | | | | done].
  - intros t ti. rewrite move_root_tables. intros Ht. destruct (ok_tables _ _ _ _ Hok t ti Ht) as (ch & Hch & Hto). exists ch. split; [done |].
    eapply table_ok_frame; [done |]. intros q Hq. apply (Hk (PTable t)); [done | done |]. cbn. by rewrite Hch.
  - intros j ix ti. rewrite (move_root_by_id c Hc i info root Hi), move_root_tables. case_decide as Ej; [| apply Hok].
    subst j. intros [= <-]. cbn. by eapply (ok_columns _ _ _ _ Hok).
  - rewrite E7, E8. destruct (ok_header _ _ _ _ Hok) as (b & Hb & Hr). exists b. split; [| done]. rewrite <- Hb. apply (Hk PHeader); [done | done |]. cbn. set_solver.
  - rewrite E7. eapply catalog_heap_frame; [apply Hok |]. intros q Hq. by apply (Hk PTableRows).
  - unfold table_infos. rewrite E1. apply Hok.
  - by rewrite E8.
  - rewrite P2. cbn. pose proof (ok_index_rows _ _ _ _ Hok) as Hrows. rewrite P1 in Hrows. cbn in Hrows.
    pose proof (ok_index_heap _ _ _ _ Hok) as Hh. destruct (index_catalog_first_page c) as [first |]; cbn in Hh.
    + eapply heap_list_set; [apply Hh | rewrite Hp2; apply Hh | exact Hrows |]. exact Hg2.
    + rewrite Hh in Hrows. apply Permutation_nil_l in Hrows. done.
  - destruct (ok_infos _ _ _ _ Hok) as [Hf1' Hf2]. unfold table_infos. rewrite E1. split; [done |]. rewrite P2. rewrite P1 in Hf2.
    apply Forall_cons in Hf2 as [_ Hf2]. by constructor.
Qed.
End insert_entry.
