(* ===== verification/Inserts.v ===== *)
(** * Inserting rows

    The INSERT operator over a database: every row goes to the heap of its table and to every index of
    it, and the database is consistent again after each row. *)
From stdpp Require Import sorting.
From S2P Require Import Prelude Text Value Memcomparable Tuple Common Errors LockManager VersionStore TxnManager.
From S2P Require Import Catalog Planner Expression Page Slots Heap HeapPage HeapSpec.
From S2P Require Import BtreeNode Btree BtreePage BtreeWrites BtreeTree BtreeSpec BtreeInsert BtreeScan BtreeProps.
From S2P Require Import CatalogStore Executor ExecutorReads Database Queries DatabaseFrames.

(** ** Computations that write *)
Section writes.
Context {P : Type} `{!PageStore P, !PageStoreLaws P} (txn : Transaction).
Abbreviation MX := (M (XSys P) Exec.Error).
Implicit Types (m : gmap PageId bytes) (c : CatalogState) (vs : StoreState).

Definition xstored (n : nat) m c vs (s : XSys P) : Prop :=
  stored n [] (x_pool s) m /\ x_catalog s = c /\ x_versions s = vs /\ alone (txn_txn_id txn) (x_locks s).
Definition xtriple {A} (n : nat) m c vs (e : MX A) (n' : nat) (Q : A -> gmap PageId bytes -> CatalogState -> StoreState -> Prop)
    (R : gmap PageId bytes -> Prop) : Prop :=
  forall s, xstored n m c vs s ->
  match e s with
  | (Ok a, s') => exists m' c' vs', xstored n' m' c' vs' s' /\ Q a m' c' vs'
  | (Err _, s') => exists m' c' vs', xstored n' m' c' vs' s' /\ R m'
  | (Panic, _) => False
  end.

Lemma xstored_le n n' m c vs s : xstored n m c vs s -> (n' <= n)%nat -> xstored n' m c vs s.
Proof. intros (H1 & H2) Hn. split; [by eapply stored_le | done]. Qed.

Lemma xtriple_bind {A B} n m c vs (e : MX A) (k : A -> MX B) n1 Q1 n2 Q R :
  xtriple n m c vs e n1 Q1 R -> (n2 <= n1)%nat -> (forall a m1 c1 vs1, Q1 a m1 c1 vs1 -> xtriple n1 m1 c1 vs1 (k a) n2 Q R) ->
  xtriple n m c vs (e ≫= k) n2 Q R.
Proof.
  intros He Hn Hk s Hs. unfold mbind, M_bind. specialize (He s Hs). destruct (e s) as [[a | x |] s']; [| | done].
  - destruct He as (m1 & c1 & vs1 & Hs1 & HQ). by apply (Hk a m1 c1 vs1 HQ).
  - destruct He as (m1 & c1 & vs1 & Hs1 & HR). exists m1, c1, vs1. split; [by eapply xstored_le | done].
Qed.
Lemma xtriple_mono {A} n m c vs (e : MX A) n' Q Q' (R R' : _ -> Prop) : xtriple n m c vs e n' Q R ->
  (forall a m' c' vs', Q a m' c' vs' -> Q' a m' c' vs') -> (forall m', R m' -> R' m') -> xtriple n m c vs e n' Q' R'.
Proof. intros He HQ HR s Hs. specialize (He s Hs). destruct (e s) as [[a | x |] s']; naive_solver. Qed.
Lemma xtriple_credits {A} n n0 m c vs (e : MX A) n' n1 Q R : xtriple n m c vs e n' Q R -> (n <= n0)%nat -> (n1 <= n')%nat ->
  xtriple n0 m c vs e n1 Q R.
Proof.
  intros He H1 H2 s Hs. specialize (He s (xstored_le _ _ _ _ _ _ Hs H1)). destruct (e s) as [[a | x |] s']; [| | done];
    destruct He as (m1 & c1 & vs1 & Hs1 & HQ); exists m1, c1, vs1; (split; [by eapply xstored_le | done]).
Qed.
Lemma xtriple_ret {A} n m c vs (a : A) n' (Q : A -> _ -> _ -> _ -> Prop) R : (n' <= n)%nat -> Q a m c vs -> xtriple n m c vs (mret a) n' Q R.
Proof. intros Hn HQ s Hs. exists m, c, vs. split; [by eapply xstored_le | done]. Qed.
Lemma xtriple_lift {A} n m c vs (o : outcome Exec.Error A) n' (Q : A -> _ -> _ -> _ -> Prop) (R : _ -> Prop) : (n' <= n)%nat ->
  match o with Ok a => Q a m c vs | Err _ => R m | Panic => False end -> xtriple n m c vs (lift o) n' Q R.
Proof.
  intros Hn HQ s Hs. unfold lift. destruct o; [| | done]; exists m, c, vs; (split; [by eapply xstored_le | done]).
Qed.
Lemma xtriple_pages {A} n m c vs (e : M P Storage.Error A) n' Q R : triple n [] m e n' (fun _ => []) Q [] R ->
  xtriple n m c vs (on_pages e) n' (fun a m' c' vs' => Q a m' /\ c' = c /\ vs' = vs) R.
Proof.
  intros He s (Hp & Hc & Hv & Hl). specialize (He _ Hp). unfold on_pages. destruct (e (x_pool s)) as [[a | x |] p]; [| | done].
  - destruct He as (m' & Hs' & HQ). by exists m', c, vs.
  - destruct He as (m' & Hs' & HR). by exists m', c, vs.
Qed.
Lemma xtriple_lock n m c vs r mode R : xtriple n m c vs (acquire_lock (txn_txn_id txn) r mode) n (fun _ m' c' vs' => m' = m /\ c' = c /\ vs' = vs) R.
Proof.
  intros s (Hp & Hc & Hv & Hl). unfold acquire_lock. destruct (acquire_alone _ _ r mode Hl) as (l' & -> & Hl'). by exists m, c, vs.
Qed.
Lemma xtriple_versions n m c vs (f : StoreState -> StoreState) R :
  xtriple n m c vs (modify (fun s => with_x_versions (f (x_versions s)) s)) n (fun _ m' c' vs' => m' = m /\ c' = c /\ vs' = f vs) R.
Proof. intros s (Hp & Hc & Hv & Hl). cbn. exists m, c, (f vs). split; [| done]. by rewrite <- Hv. Qed.

Lemma xtriple_stored {A} n m c vs (e : MX A) n' Q R : (forall s, xstored n m c vs s -> xtriple n m c vs e n' Q R) -> xtriple n m c vs e n' Q R.
Proof. intros He s Hs. by apply (He s Hs). Qed.

(** The row of an index gets a new root. *)
Lemma update_root_spec n m c vs t i info new first rows : index_by_id c i = Ok info -> index_info_ok info -> in_u 32 new ->
  index_catalog_first_page c = Some first -> heap_ok m first rows -> heap_get rows (catalog_rid info) = Some (index_row info) ->
  xtriple (1 + n) m c vs (on_catalog (update_index_root_page t i new)) n
    (fun _ m' c' vs' => c' = move_root i new c /\ vs' = vs /\ same_elsewhere rows m m' /\ exists rows',
       heap_ok m' first rows' /\ rows'.*1 = rows.*1
       /\ forall r, heap_get rows' r = if decide (r = catalog_rid info) then Some (index_row (set_root_page_id new info)) else heap_get rows r)
    (fun m' => m' = m).
Proof.
  intros Hi Hinfo Hnew Ef Hh Hg s (Hp & Hc & Hv & Hl). unfold on_catalog, update_index_root_page, mbind, M_bind, gets, lift.
  cbn [cat cat_pool]. rewrite Hc, Hi, Ef. cbn [ok_or]. destruct (index_row_set_root info new Hinfo Hnew) as (Erow & _ & Ho1 & Ho2).
  assert (Hsl : 0 <= slot (catalog_rid info)).
  { unfold heap_get in Hg. destruct (chain_page _ _); [| done]. cbn in Hg. unfold index in Hg. by destruct (Z.leb_spec 0 (slot (catalog_rid info))). }
  pose proof (update_tuple_spec n m t _ first (catalog_rid info) (index_row info) (root_page_id_offset info) (to_le 4 new) Hh Hg Hsl Ho1
    ltac:(rewrite len_to_le; lia) (x_pool s) Hp) as H.
  unfold on_store. cbn [cat cat_pool]. destruct (update_tuple_in_place t (catalog_rid info) _ _ (x_pool s)) as [[[] | e |] p]; [| | done].
  - destruct H as (m' & Hs' & Hsame & rows' & Hh' & Hpg & Hget). cbn [cat cat_pool]. rewrite Hi. unfold on_state, modify. cbn [cat cat_pool].
    exists m', (move_root i new c), vs. split; [by rewrite <- Hv |]. split_and!; [done | done | done |]. exists rows'.
    split_and!; [done | done |]. intros r. by rewrite Hget, Erow.
  - destruct H as (m' & Hs' & ->). exists m, c, vs. by split.
Qed.
End writes.

(** ** What a statement may touch *)
Lemma same_outside_grow r r1 m m1 m2 : same_outside r m m1 -> fresh_or m r r1 -> same_outside r1 m1 m2 -> same_outside r m m2.
Proof.
  intros H1 Hf H2 q b Hq Hn. apply H2; [by apply H1 |]. intros Hin. destruct (Hf q Hin); [done | congruence].
Qed.
Lemma fresh_or_grow r r1 r2 m m1 : same_outside r m m1 -> fresh_or m r r1 -> fresh_or m1 r1 r2 -> fresh_or m r r2.
Proof.
  intros H1 Hf H2 q Hq. destruct (H2 q Hq) as [Hin | Hn]; [by apply Hf |]. destruct (m !! q) as [b |] eqn:E; [| by right].
  destruct (decide (q ∈ r)) as [| Hout]; [by left |]. rewrite (H1 q b E Hout) in Hn. done.
Qed.

(** The pages of a table, of its indexes and of the index catalog. *)
Definition region (t : TableId) (ids : list IndexId) (d : Db) : list PageId :=
  part_pages d (PTable t) ++ (ids ≫= fun i => part_pages d (PIndex i)) ++ part_pages d PIndexRows.
Definition extends (t : TableId) (ids : list IndexId) (m : gmap PageId bytes) (d : Db) (m' : gmap PageId bytes) (d' : Db) : Prop :=
  same_outside (region t ids d) m m' /\ fresh_or m (region t ids d) (region t ids d').
Lemma extends_refl t ids m d : extends t ids m d m d.
Proof. split; [apply same_outside_refl | apply fresh_or_refl]. Qed.
Lemma extends_trans t ids m d m1 d1 m2 d2 : extends t ids m d m1 d1 -> extends t ids m1 d1 m2 d2 -> extends t ids m d m2 d2.
Proof. intros [H1 H2] [H3 H4]. split; [by eapply same_outside_grow | by eapply fresh_or_grow]. Qed.

Lemma region_table t ids d : part_pages d (PTable t) ⊆ region t ids d.
Proof. unfold region. set_solver. Qed.
Lemma region_index t ids d i : i ∈ ids -> part_pages d (PIndex i) ⊆ region t ids d.
Proof. intros Hi q Hq. unfold region. rewrite !elem_of_app, list_elem_of_bind. right. left. by exists i. Qed.
Lemma region_rows t ids d : part_pages d PIndexRows ⊆ region t ids d.
Proof. unfold region. set_solver. Qed.
(** A part that grew by new pages. *)
Lemma region_fresh t ids m d d' : (forall p q, q ∈ part_pages d' p -> p = PTable t \/ (exists i, i ∈ ids /\ p = PIndex i) \/ p = PIndexRows ->
  q ∈ part_pages d p \/ m !! q = None) -> fresh_or m (region t ids d) (region t ids d').
Proof.
  intros H q. unfold region. rewrite !elem_of_app, !list_elem_of_bind. intros [Hq | [(i & Hq & Hi) | Hq]].
  - destruct (H (PTable t) q Hq); [by left | tauto | by right].
  - destruct (H (PIndex i) q Hq); [right; left; by exists i | | by right]. left. right. left. by exists i.
  - destruct (H PIndexRows q Hq); [tauto | tauto | by right].
Qed.

Definition rid_ok (rid : Rid) : Prop := in_u 32 (page_id rid) /\ in_u 16 (slot rid).
Lemma heap_get_rid {P} `{!PageStore P, !PageStoreLaws P} n (p : P) m first ch rid row : stored n [] p m -> heap_ok m first ch ->
  heap_get ch rid = Some row -> rid_ok rid.
Proof.
  intros [Hs <-] (_ & _ & Hrep & _) Hg. unfold heap_get in Hg. destruct (chain_page ch (page_id rid)) as [ts |] eqn:Ec; [| done].
  destruct (chain_page_holds _ _ _ _ Hrep Ec) as (next & b & lo & slots & Hb & Hh & Ht). split.
  - pose proof (page_id_range _ _ _ _ _ Hs Hb). unfold in_u, u32_max in *. lia.
  - cbn in Hg. unfold index in Hg. destruct (Z.leb_spec 0 (slot rid)); [| done]. subst ts. rewrite list_lookup_fmap in Hg.
    destruct (slots !! Z.to_nat (slot rid)) as [x |] eqn:Ex; [| done]. apply lookup_lt_Some in Ex. pose proof (slots_bound _ _ _ _ Hh).
    unfold in_u, len in *. lia.
Qed.

(** A target of the INSERT operator is an index as the catalog has it. *)
Definition target_ok (c : CatalogState) (t : TableId) (tg : IndexTarget) : Prop :=
  exists info, index_by_id c (target_index_id tg) = Ok info /\ index_table_id info = t
    /\ target_column_index tg = index_column_index info /\ target_root tg = root_page_id info.

Lemma INSERT_COST_le h h' : (h <= h')%nat -> (INSERT_COST h <= INSERT_COST h')%nat.
Proof. intros H. unfold INSERT_COST. pose proof PUSH_COST_eq. nia. Qed.

Lemma tuples_nodup types ch : NoDup ch.*1 -> NoDup (tuples types ch).*1.
Proof.
  intros Hn. pose proof (heap_list_nodup ch Hn) as Hl. unfold tuples. induction (heap_list ch) as [| [r d] l IH]; [constructor |].
  cbn in Hl. apply NoDup_cons in Hl as [H1 H2]. cbn. unfold decoded at 1. cbn. destruct (Tuple.decode d types); cbn; [| by apply IH..].
  constructor; [| by apply IH]. intros (y & -> & Hy)%list_elem_of_fmap. apply H1. apply list_elem_of_omap in Hy as ([r' d'] & Hin & Hd).
  unfold decoded in Hd. cbn in Hd. destruct (Tuple.decode d' types); simplify_eq/=. by apply (list_elem_of_fmap_2 fst) in Hin.
Qed.

Lemma index_key_defined types tuple column : row_ok types tuple -> is_Some (index types column) -> index_key tuple column <> Panic.
Proof.
  intros (_ & _ & Hf) [ty Hty]. unfold index_key, index in *. destruct (Z.leb_spec 0 column); [| done].
  destruct (Forall2_lookup_l _ _ _ _ _ Hf Hty) as (v & -> & _). cbn. destruct v; cbn; try done. by destruct (F64.is_nan bits).
Qed.

Lemma spine_root_range m lower sp lv root : spine_ok m lower sp lv root -> page_range root.
Proof.
  revert lower sp. induction lv as [| level lv IH]; intros lower sp H.
  - destruct H as [Hl _ Ho _]. cbn in Hl. subst sp. by apply Forall_cons in Ho as [[_ Hr] _].
  - eapply IH, spine_up, H.
Qed.
Lemma btree_root_range m root ls lv : btree_ok m root ls lv -> page_range root.
Proof. intros H%btree_spine. by eapply spine_root_range. Qed.

(** The row of an index in the catalog. *)
Lemma index_row_stored lag m c d i info : db_rep lag m c d -> index_by_id c i = Ok info ->
  index_info_ok info /\ exists first, index_catalog_first_page c = Some first /\ heap_ok m first (db_index_rows d)
    /\ heap_get (db_index_rows d) (catalog_rid info) = Some (index_row info).
Proof.
  intros Hok Hi. pose proof (index_info_elem c i info (ok_catalog _ _ _ _ Hok) Hi) as Hin.
  destruct (ok_infos _ _ _ _ Hok) as [_ Hf]. rewrite Forall_forall in Hf. split; [by apply Hf |].
  assert (Hr : (catalog_rid info, index_row info) ∈ heap_list (db_index_rows d)).
  { rewrite (ok_index_rows _ _ _ _ Hok). by apply (list_elem_of_fmap_2 (fun i => (catalog_rid i, index_row i))). }
  pose proof (ok_index_heap _ _ _ _ Hok) as Hh. destruct (index_catalog_first_page c) as [first |]; cbn in Hh.
  - exists first. split_and!; [done | done |]. apply heap_list_get; [apply Hh | done].
  - rewrite Hh in Hr. by apply not_elem_of_nil in Hr.
Qed.
Lemma part_kept m m' d p p' q : laid_out m d -> same_outside (part_pages d p) m m' -> p' <> p -> q ∈ part_pages d p' -> m' !! q = m !! q.
Proof. intros [Hex Hap] Hs Hp Hq. destruct (Hex p' q Hq) as [b Hb]. rewrite Hb. apply Hs; [done |]. intros Hin. by apply (Hap p' p Hp q). Qed.

Section insert_target.
Context {P : Type} `{!PageStore P, !PageStoreLaws P} (txn : Transaction).
Context (t : TableId) (ids : list IndexId) (types : list DataType.t) (x : Rid * Tuple).
Hypothesis Hrid : rid_ok x.1.
Hypothesis Hrow : row_ok types x.2.
Implicit Types (m : gmap PageId bytes) (c : CatalogState) (vs : StoreState).

(** The tree of the index takes the entry, whether or not its root moves. *)
Lemma tree_insert_spec n m c d i todo info key h fuel : db_rep (lagging (i :: todo) x) m c d -> i ∈ ids -> i ∉ todo ->
  index_by_id c i = Ok info -> index_key x.2 (index_column_index info) = Ok key ->
  (forall tr, db_indexes d !! i = Some tr -> (length (tree_levels tr) <= h)%nat) -> (h < fuel)%nat ->
  triple (INSERT_COST h + n) [] m (btree_insert fuel (txn_txn_id txn) (root_page_id info) key x.1) n (fun _ => [])
    (fun root m' => exists tr tr', db_indexes d !! i = Some tr /\ same_outside (tree_pages (tree_leaves tr) (tree_levels tr)) m m'
       /\ btree_ok m' root (tree_leaves tr') (tree_levels tr')
       /\ all_entries (tree_leaves tr') ≡ₚ entry_of (index_column_index info) x :: all_entries (tree_leaves tr)
       /\ (length (tree_levels tr') <= S h)%nat
       /\ fresh_or m (tree_pages (tree_leaves tr) (tree_levels tr)) (tree_pages (tree_leaves tr') (tree_levels tr')))
    [] (same_outside (region t ids d) m).
Proof.
  intros Hok Hin Hnt Hi Hk Hh Hf. destruct (ok_indexes _ _ _ _ Hok i info Hi) as (table & ch & tr & T & Ht & Hch & Htr & HT & [Hb _ He]).
  specialize (Hh tr Htr). destruct (decide (len key <= MAX_KEY_SIZE)) as [Hle | Hgt].
  2: { eapply triple_credits; [eapply triple_mono; [apply (btree_insert_too_large n); lia | done |] | lia | lia]. intros m' ->. apply same_outside_refl. }
  assert (Hnew : (key, x.1) ∉ all_entries (tree_leaves tr)).
  { rewrite He. intros (y & Ey & Hy)%list_elem_of_fmap. injection Ey as _ Ey.
    destruct (ok_tables _ _ _ _ Hok _ _ Ht) as (ch' & Hch' & (_ & _ & _ & Hnd) & _). assert (ch' = ch) as -> by congruence.
    pose proof (tuples_nodup (column_types table) ch Hnd) as Hn. rewrite HT in Hn. unfold lagging in Hn. rewrite decide_True in Hn by left. cbn in Hn.
    apply NoDup_cons in Hn as [Hn _]. apply Hn. rewrite Ey. by apply (list_elem_of_fmap_2 fst) in Hy. }
  replace fuel with (length (tree_levels tr) + S (fuel - length (tree_levels tr) - 1))%nat by lia.
  pose proof (INSERT_COST_le _ _ Hh). eapply triple_credits; [eapply triple_mono | |].
  - apply (btree_insert_spec n m (root_page_id info) _ _ (key, x.1) _ (txn_txn_id txn) Hb); [| done]. split; [done | exact Hrid].
  - intros root m' (ls' & lv' & H1 & H2 & H3 & H4 & H5). exists tr, (mkTree ls' lv'). cbn [tree_leaves tree_levels].
    unfold entry_of, key_of. rewrite Hk. split_and!; [done | done | done | done | lia | done].
  - intros m' Hm. eapply same_outside_mono; [exact Hm |]. pose proof (region_index t ids d i Hin) as Hr. cbn in Hr. by rewrite Htr in Hr.
  - lia.
  - done.
Qed.

(** What the insertion of an entry leaves of the rest of the database. *)
Record entry_done (m m' : gmap PageId bytes) (d d' : Db) (i : IndexId) (h : nat) : Prop := {
  ed_tables : db_tables d' = db_tables d;
  ed_others : forall j, j <> i -> db_indexes d' !! j = db_indexes d !! j;
  ed_levels : forall tr, db_indexes d' !! i = Some tr -> (length (tree_levels tr) <= S h)%nat;
  ed_extends : extends t ids m d m' d';
}.

Lemma entry_extends m m1 m2 d i tr tr' rows : i ∈ ids -> db_indexes d !! i = Some tr ->
  same_outside (tree_pages (tree_leaves tr) (tree_levels tr)) m m1 ->
  fresh_or m (tree_pages (tree_leaves tr) (tree_levels tr)) (tree_pages (tree_leaves tr') (tree_levels tr')) ->
  same_elsewhere (db_index_rows d) m1 m2 -> rows.*1 = (db_index_rows d).*1 ->
  extends t ids m d m2 (with_index_rows rows (with_index i tr' d)).
Proof.
  intros Hin Htr H1 H2 H3 H4. pose proof (region_index t ids d i Hin) as Hr. cbn in Hr. rewrite Htr in Hr. split.
  - eapply same_outside_trans; [by eapply same_outside_mono |]. eapply same_outside_mono; [exact H3 | apply region_rows].
  - apply region_fresh. intros p q Hq Hp. destruct (decide (p = PIndex i)) as [-> | Hne].
    + cbn in Hq |- *. rewrite lookup_insert_eq in Hq. rewrite Htr. by apply H2.
    + left. destruct Hp as [-> | [(j & Hj & ->) | ->]].
      * done.
      * cbn in Hq |- *. rewrite lookup_insert_ne in Hq by congruence. done.
      * cbn in *. by rewrite <- H4.
Qed.

Lemma insert_target_spec n m c d vs tg todo h fuel : db_rep (lagging (target_index_id tg :: todo) x) m c d ->
  target_index_id tg ∈ ids -> target_index_id tg ∉ todo -> target_ok c t tg -> (exists info, get_table_by_id c t = Ok info /\ column_types info = types) ->
  (forall tr, db_indexes d !! target_index_id tg = Some tr -> (length (tree_levels tr) <= h)%nat) -> (h < fuel)%nat ->
  xtriple txn (INSERT_COST h + (1 + n)) m c vs (insert_target fuel txn x.2 x.1 tg) n
    (fun tg' m' c' vs' => vs' = vs /\ target_index_id tg' = target_index_id tg /\ target_ok c' t tg'
       /\ (exists root, c' = move_root (target_index_id tg) root c)
       /\ exists d', db_rep (lagging todo x) m' c' d' /\ entry_done m m' d d' (target_index_id tg) h)
    (same_outside (region t ids d) m).
Proof.
  intros Hok Hin Hnt (info & Hi & Htt & Hcol & Hroot) (ti & Hti & Htypes) Hh Hf. set (i := target_index_id tg) in *. unfold insert_target.
  pose proof (index_key_defined types x.2 (index_column_index info) Hrow) as Hdef. rewrite <- Htypes in Hdef.
  specialize (Hdef ltac:(eapply (ok_columns _ _ _ _ Hok); [exact Hi | by rewrite Htt])). rewrite Hcol, Hroot.
  eapply (xtriple_bind _ _ _ _ _ _ _ (INSERT_COST h + (1 + n)) (fun key m' c' vs' => index_key x.2 (index_column_index info) = Ok key /\ m' = m /\ c' = c /\ vs' = vs)).
  { apply xtriple_lift; [done |]. destruct (index_key x.2 (index_column_index info)); [done | apply same_outside_refl | done]. }
  { lia. }
  intros key ? ? ? (Hk & -> & -> & ->).
  eapply (xtriple_bind _ _ _ _ _ _ _ (1 + n)); [apply xtriple_pages; by apply (tree_insert_spec (1 + n) m c d i todo info key h fuel) | lia |].
  cbn beta. intros root m1 ? ? ((tr & tr' & Htr & Hs1 & Hb1 & He1 & Hl1 & Hf1) & -> & ->).
  assert (Hrange : in_u 32 root).
  { destruct (btree_root_range _ _ _ _ Hb1). unfold in_u. lia. }
  assert (Hnew : target_ok (move_root i root c) t (mkTarget i (index_column_index info) root)).
  { exists (set_root_page_id root info). cbn. rewrite (move_root_by_id c (ok_catalog _ _ _ _ Hok) i info root Hi), decide_True by done. done. }
  assert (Hfin : forall m2 rows, same_elsewhere (db_index_rows d) m1 m2 -> catalog_heap m2 (index_catalog_first_page c) rows -> rows.*1 = (db_index_rows d).*1 ->
    (forall r, heap_get rows r = if decide (r = catalog_rid info) then Some (index_row (set_root_page_id root info)) else heap_get (db_index_rows d) r) ->
    exists d', db_rep (lagging todo x) m2 (move_root i root c) d' /\ entry_done m m2 d d' i h).
  { intros m2 rows Hs2 Hh2 Hp2 Hg2. exists (with_index_rows rows (with_index i tr' d)). split.
    - eapply (db_insert_entry m m1 m2 c d i todo x info tr tr' root rows); try done. by eexists.
    - split; [done | | | by eapply entry_extends].
      + intros j Hj. cbn. by rewrite lookup_insert_ne.
      + cbn. rewrite lookup_insert_eq. by intros ? [= <-]. }
  destruct (index_row_stored _ _ _ _ _ _ Hok Hi) as (Hinfo & first & Ef & Hh0 & Hg0).
  assert (Hh1 : heap_ok m1 first (db_index_rows d)).
  { eapply heap_ok_frame; [exact Hh0 |]. intros q Hq. apply (part_kept m m1 d (PIndex i) PIndexRows q (ok_layout _ _ _ _ Hok)); [| done | done].
    cbn. by rewrite Htr. }
  rewrite Ef in Hfin. pose proof (region_index t ids d i Hin) as Hreg. cbn in Hreg. rewrite Htr in Hreg.
  destruct (Z.eqb_spec root (root_page_id info)) as [-> | Hne].
  - apply xtriple_ret; [lia |]. assert (Es : set_root_page_id (root_page_id info) info = info) by (by destruct info).
    destruct (Hfin m1 (db_index_rows d)) as (d' & Hd' & Hed); [apply same_outside_refl | done | done | |].
    { intros r. case_decide as Er; [| done]. subst r. by rewrite Es. }
    rewrite (move_root_same c (ok_catalog _ _ _ _ Hok) i info _ Hi eq_refl) in *.
    split_and!; [done | done | | exists (root_page_id info); by rewrite (move_root_same c (ok_catalog _ _ _ _ Hok) i info _ Hi eq_refl) | by exists d'].
    exists info. by split_and!.
  - eapply (xtriple_bind _ _ _ _ _ _ _ n).
    { eapply xtriple_mono; [by apply (update_root_spec txn n m1 c vs (txn_txn_id txn) i info root first (db_index_rows d)) | intros ? ? ? ? H; exact H |].
      intros m' ->. by eapply same_outside_mono. }
    { lia. }
    cbn beta. intros _ m2 ? ? (-> & -> & Hs2 & rows & Hh2 & Hp2 & Hg2). apply xtriple_ret; [lia |].
    split_and!; [done | done | done | by exists root | by apply (Hfin m2 rows)].
Qed.
End insert_target.

(** ** All the indexes of the table *)

(** The catalog after the roots of some indexes moved. *)
Definition same_tables (c c' : CatalogState) : Prop :=
  tables_by_name c' = tables_by_name c /\ (forall t, get_table_by_id c' t = get_table_by_id c t) /\ indexes_by_table c' = indexes_by_table c.
Lemma same_tables_move c i root : same_tables c (move_root i root c).
Proof. destruct (move_root_maps c i root) as (E1 & _ & _ & E4 & _). split_and!; [done | apply move_root_tables | done]. Qed.
Lemma same_tables_trans c1 c2 c3 : same_tables c1 c2 -> same_tables c2 c3 -> same_tables c1 c3.
Proof. intros (A1 & B1 & C1) (A2 & B2 & C2). split_and!; [congruence | intros t; by rewrite B2 | congruence]. Qed.

Definition levels_below (d : Db) (h : nat) : Prop := forall j tr, db_indexes d !! j = Some tr -> (length (tree_levels tr) <= h)%nat.

Section insert_rows.
Context {P : Type} `{!PageStore P, !PageStoreLaws P} (txn : Transaction).
Context (t : TableId) (ids : list IndexId) (types : list DataType.t).
Implicit Types (m : gmap PageId bytes) (c : CatalogState) (vs : StoreState).

Definition table_typed c : Prop := exists info, get_table_by_id c t = Ok info /\ column_types info = types.

Lemma insert_targets_spec x h fuel : rid_ok x.1 -> row_ok types x.2 -> (h < fuel)%nat -> forall targets n m c d vs,
  db_rep (lagging (target_index_id <$> targets) x) m c d -> NoDup (target_index_id <$> targets) ->
  Forall (fun tg => target_index_id tg ∈ ids /\ target_ok c t tg) targets -> table_typed c ->
  levels_below d (S h) -> (forall j tr, j ∈ target_index_id <$> targets -> db_indexes d !! j = Some tr -> (length (tree_levels tr) <= h)%nat) ->
  xtriple txn (length targets * (1 + INSERT_COST h) + n) m c vs (insert_targets fuel txn x.2 x.1 targets) n
    (fun targets' m' c' vs' => vs' = vs /\ target_index_id <$> targets' = target_index_id <$> targets
       /\ Forall (target_ok c' t) targets' /\ same_tables c c'
       /\ (forall j, j ∉ target_index_id <$> targets -> index_by_id c' j = index_by_id c j)
       /\ exists d', db_rep (lagging [] x) m' c' d' /\ db_tables d' = db_tables d /\ levels_below d' (S h) /\ extends t ids m d m' d')
    (same_outside (region t ids d) m).
Proof.
  intros Hrid Hrow Hf. induction targets as [| tg targets IH]; intros n m c d vs Hok Hnd Htg Htt Hlv Hlt; cbn [insert_targets].
  { apply xtriple_ret; [cbn; lia |]. split_and!; [done | done | constructor | by split_and! | done |]. exists d. split_and!; [done | done | done | apply extends_refl]. }
  cbn [fmap list_fmap] in *. apply NoDup_cons in Hnd as [Hni Hnd]. apply Forall_cons in Htg as [[Hin Hto] Htg].
  eapply (xtriple_bind _ _ _ _ _ _ _ (length targets * (1 + INSERT_COST h) + n)).
  { eapply xtriple_credits; [apply (insert_target_spec txn t ids types x Hrid Hrow (length targets * (1 + INSERT_COST h) + n) m c d vs tg _ h fuel Hok Hin Hni Hto Htt);
      [| done] | cbn [length]; lia | done]. intros tr Htr. eapply Hlt; [left | done]. }
  { lia. }
  cbn beta. intros tg' m1 c1 vs1 (-> & Eid & Hto' & (root & ->) & d1 & Hok1 & [Et Eo El Hex]).
  pose proof (same_tables_move c (target_index_id tg) root) as Hst.
  assert (Htg1 : Forall (fun tg0 => target_index_id tg0 ∈ ids /\ target_ok (move_root (target_index_id tg) root c) t tg0) targets).
  { rewrite Forall_forall in Htg |- *. intros tg0 H0. destruct (Htg tg0 H0) as [H1 (info0 & H2 & H3)]. split; [done |]. exists info0.
    destruct Hto as (info & Hi & _). rewrite (move_root_by_id c (ok_catalog _ _ _ _ Hok) _ info root Hi), decide_False; [done |].
    intros E. apply Hni. rewrite <- E. by apply list_elem_of_fmap_2. }
  assert (Htt1 : table_typed (move_root (target_index_id tg) root c)).
  { destruct Htt as (ti & H1 & H2). exists ti. by rewrite move_root_tables. }
  eapply (xtriple_bind _ _ _ _ _ _ _ n); [eapply xtriple_mono; [apply (IH n m1 _ d1 vs Hok1 Hnd Htg1 Htt1) | intros ? ? ? ? H; exact H |] | done |].
  - intros j tr Hj. destruct (decide (j = target_index_id tg)) as [-> | Hne]; [by apply El |]. rewrite Eo in Hj by done. by eapply Hlv.
  - intros j tr Hj Htr. rewrite Eo in Htr; [| by intros ->]. eapply Hlt; [by right | done].
  - intros m' Hm. destruct Hex as [H1 H2]. by eapply same_outside_grow.
  - cbn beta. intros targets' m2 c2 vs2 (-> & Eids & Htos & Hst2 & Hoth & d2 & Hok2 & Et2 & Hl2 & Hex2). apply xtriple_ret; [done |].
    split_and!; [done | cbn; by rewrite Eid, Eids | | by eapply same_tables_trans | |].
    + constructor; [| done]. destruct Hto' as (info' & Hi' & Hr'). exists info'. rewrite Hoth by (by rewrite Eid). by split.
    + intros j [H1 H2]%not_elem_of_cons. rewrite Hoth by done. destruct Hto as (info & Hi & _).
      by rewrite (move_root_by_id c (ok_catalog _ _ _ _ Hok) _ info root Hi), decide_False.
    + exists d2. split_and!; [done | congruence | done | by eapply extends_trans].
Qed.

(** ** One row *)
Lemma db_rep_lag lag lag' m c d : (forall i, lag' i = lag i) -> db_rep lag m c d -> db_rep lag' m c d.
Proof.
  intros Hl [H1 H2 H3 H4 H5 H6 H7 H8 H9 H10 H11]. split; try done. intros i info Hi. destruct (H3 i info Hi) as (table & ch & tr & T & HT).
  exists table, ch, tr, T. by rewrite Hl.
Qed.
Lemma encoded_nonempty tuple : tuple <> [] -> 0 < len (Tuple.encode tuple []).
Proof.
  intros Hne. rewrite tuple_encoded_size. change (len []) with 0. destruct tuple as [| v vs]; [done |]. rewrite len_cons.
  assert (Hd : 1 <= (1 + len vs + 7) / 8) by (apply Z.div_le_lower_bound; pose proof (len_nonneg vs); lia).
  match goal with |- context [foldr ?f 0 (v :: vs)] => enough (0 <= foldr f 0 (v :: vs)) by lia; generalize (v :: vs) end.
  clear. intros l. induction l as [| v l IH]; [done |]. cbn [foldr]. destruct v as [| | | | | w]; cbn; try lia. pose proof (len_nonneg w). lia.
Qed.
Lemma insert_tuple_too_large n m t' fuel first data : MAX_TUPLE_SIZE < len data ->
  triple n [] m (insert_tuple fuel t' first data) n (fun _ => []) (fun (_ : Rid) _ => False) [] (fun m' => m' = m).
Proof. intros H. unfold insert_tuple. rewrite (proj2 (Z.ltb_lt _ _) H). by apply triple_throw. Qed.
Lemma row_extends m m' d ch ch' : db_tables d !! t = Some ch -> same_elsewhere ch m m' -> grows m ch ch' -> extends t ids m d m' (with_table t ch' d).
Proof.
  intros Hch Hs [Hf _]. assert (Hpp : part_pages d (PTable t) = ch.*1) by (cbn; by rewrite Hch). split.
  - eapply same_outside_mono; [exact Hs |]. rewrite <- Hpp. apply region_table.
  - apply region_fresh. intros p q Hq _. destruct (decide (p = PTable t)) as [-> | Hne].
    + rewrite Hpp. cbn in Hq. rewrite lookup_insert_eq in Hq. by apply Hf.
    + left. by rewrite with_table_pages in Hq.
Qed.

Definition depth_below (d : Db) (h : nat) : Prop := (forall t' ch, db_tables d !! t' = Some ch -> (length ch <= h)%nat) /\ levels_below d h.
Definition row_cost (k h : nat) : nat := 6 + k * (1 + INSERT_COST h).

(** The table after rows were added. *)
Definition added (d d' : Db) (new : list (Rid * Tuple)) : Prop :=
  exists ch ch', db_tables d !! t = Some ch /\ db_tables d' = <[t := ch']> (db_tables d) /\ tuples types ch' ≡ₚ new ++ tuples types ch.
(** The indexes of the table, as the operator knows them. *)
Definition targets_ok c (targets : list IndexTarget) : Prop :=
  Forall (target_ok c t) targets /\ target_index_id <$> targets = ids /\ ids = index_id <$> indexes_for_table c t.

Lemma targets_ok_same c c' targets targets' : catalog_ok c -> catalog_ok c' -> same_tables c c' -> targets_ok c targets ->
  target_index_id <$> targets' = target_index_id <$> targets -> Forall (target_ok c' t) targets' -> targets_ok c' targets'.
Proof.
  intros Hc Hc' (_ & _ & E) (_ & H1 & H2) Hids Hf. split_and!; [done | congruence |].
  rewrite H2 at 1. by rewrite !indexes_for_table_ids, E.
Qed.

Lemma insert_row_spec n m c d vs row tuple targets info h fuel : db_ok m c d -> get_table_by_id c t = Ok info -> column_types info = types ->
  types <> [] -> evaluate_all row [] = Ok tuple -> row_ok types tuple -> targets_ok c targets -> depth_below d h -> (S h < fuel)%nat ->
  xtriple txn (row_cost (length targets) h + n) m c vs (insert_row fuel txn (first_page_id info) row targets) n
    (fun targets' m' c' vs' => same_tables c c' /\ targets_ok c' targets' /\ exists rid d', vs' = record_insert (txn_txn_id txn) rid vs
       /\ db_ok m' c' d' /\ depth_below d' (S h) /\ added d d' [(rid, tuple)] /\ extends t ids m d m' d')
    (same_outside (region t ids d) m).
Proof.
  intros Hok Ht Htypes Hne Hev Hrow Htg [Hdt Hdl] Hf. unfold insert_row, row_cost. rewrite Hev.
  destruct (ok_tables _ _ _ _ Hok t info Ht) as (ch & Hch & Hheap & Hdec). rewrite Htypes in Hdec.
  assert (Hpp : part_pages d (PTable t) = ch.*1) by (cbn; by rewrite Hch).
  assert (Hsub : ch.*1 ⊆ region t ids d) by (rewrite <- Hpp; apply region_table).
  eapply (xtriple_bind _ _ _ _ _ _ _ (row_cost (length targets) h + n) (fun a m' c' vs' => a = tuple /\ m' = m /\ c' = c /\ vs' = vs)).
  { by apply xtriple_lift. }
  { unfold row_cost. lia. }
  intros ? ? ? ? (-> & -> & -> & ->). set (data := Tuple.encode tuple []).
  assert (Hlen : 0 < len data).
  { apply encoded_nonempty. destruct Hrow as (_ & _ & Hf2). apply Forall2_length in Hf2. destruct types, tuple; done. }
  destruct (decide (len data <= MAX_TUPLE_SIZE)) as [Hfit | Hbig].
  2: { eapply (xtriple_bind _ _ _ _ _ _ _ (row_cost (length targets) h + n));
         [eapply xtriple_mono; [apply xtriple_pages, insert_tuple_too_large; lia | intros ? ? ? ? H; exact H |] | unfold row_cost; lia | by intros ? ? ? ? [[] _]].
       intros m' ->. apply same_outside_refl. }
  eapply (xtriple_bind _ _ _ _ _ _ _ (length targets * (1 + INSERT_COST h) + n)).
  { eapply xtriple_mono; [apply xtriple_pages, (insert_tuple_chain_spec (length targets * (1 + INSERT_COST h) + n) m (txn_txn_id txn) fuel (first_page_id info) ch data Hheap);
      [lia | specialize (Hdt t ch Hch); lia] | intros ? ? ? ? H; exact H |].
    intros m' (Hs & _). by eapply same_outside_mono. }
  { lia. }
  cbn beta. intros rid m1 ? ? ((Hs1 & Hnone & ch' & Hh' & Hgr & Hget) & -> & ->).
  eapply (xtriple_bind _ _ _ _ _ _ _ (length targets * (1 + INSERT_COST h) + n)); [apply (xtriple_versions txn _ m1 c vs (record_insert (txn_txn_id txn) rid)) | lia |].
  cbn beta. intros _ ? ? ? (-> & -> & ->).
  eapply (xtriple_bind _ _ _ _ _ _ _ (length targets * (1 + INSERT_COST h) + n)); [apply xtriple_lock | lia |].
  cbn beta. intros _ ? ? ? (-> & -> & ->). apply xtriple_stored. intros s (Hst & _).
  assert (Hrid : rid_ok rid) by (eapply heap_get_rid; [exact Hst | exact Hh' | rewrite Hget, decide_True by done; reflexivity]).
  assert (Hdata : Tuple.decode data types = Ok tuple) by (unfold data; rewrite <- (app_nil_r (Tuple.encode tuple [])); by apply decode_encode).
  pose proof (db_insert_row m m1 c d t info ch ch' rid data tuple Hok Ht Hch Hs1 Hnone Hh' Hgr Hget ltac:(by rewrite Htypes)) as Hok1.
  assert (Hex1 : extends t ids m d m1 (with_table t ch' d)) by (by eapply row_extends).
  destruct Htg as (Htg & Hids & Eids). rewrite <- Eids, <- Hids in Hok1.
  eapply xtriple_mono; [apply (insert_targets_spec (rid, tuple) h fuel Hrid Hrow ltac:(lia) targets n m1 c (with_table t ch' d) _ Hok1) | |].
  - rewrite Hids, Eids. apply indexes_for_table_once, Hok.
  - rewrite Forall_forall in Htg |- *. intros tg Hin. split; [rewrite <- Hids; by apply list_elem_of_fmap_2 | by apply Htg].
  - by exists info.
  - intros j tr Hj. specialize (Hdl j tr Hj). lia.
  - intros j tr _ Hj. by apply (Hdl j).
  - cbn beta. intros targets' m2 c2 vs2 (-> & Eids' & Hto & Hst2 & _ & d2 & Hok2 & Et2 & Hl2 & Hex2).
    split_and!; [done | eapply targets_ok_same; [apply Hok | apply Hok2 | done | by split_and! | done | done] |].
    exists rid, d2. split_and!; [done | by eapply db_rep_lag | | | by eapply extends_trans].
    + split; [| done]. intros t' ch0. rewrite Et2. cbn. rewrite lookup_insert_Some. intros [[<- <-] | [_ H0]].
      * destruct Hgr as [_ Hgr]. specialize (Hdt t ch Hch). lia.
      * specialize (Hdt t' ch0 H0). lia.
    + exists ch, ch'. split_and!; [done | done |]. eapply tuples_add; [| exact Hdata].
      apply heap_list_add; [apply Hheap | apply Hh' | done | done].
  - intros m' Hm. destruct Hex1 as [H1 H2]. by eapply same_outside_grow.
Qed.
(** ** All the rows *)
Fixpoint rows_cost (rows k h : nat) : nat := match rows with O => O | S rows => row_cost k h + rows_cost rows k (S h) end.
Definition record_all (tid : TxnId) (rids : list Rid) (vs : StoreState) : StoreState := fold_left (fun vs rid => record_insert tid rid vs) rids vs.

Lemma added_refl d ch : db_tables d !! t = Some ch -> added d d [].
Proof. intros Hch. exists ch, ch. split_and!; [done | by rewrite insert_id | done]. Qed.
Lemma added_trans d d1 d2 new1 new2 : added d d1 new1 -> added d1 d2 new2 -> added d d2 (new1 ++ new2).
Proof.
  intros (ch & ch1 & H1 & H2 & H3) (ch1' & ch2 & H4 & H5 & H6). rewrite H2, lookup_insert_eq in H4. injection H4 as <-.
  exists ch, ch2. split_and!; [done | by rewrite H5, H2, insert_insert_eq |]. rewrite H6, H3. rewrite !app_assoc. f_equiv. apply Permutation_app_comm.
Qed.

Lemma insert_rows_spec info fuel : column_types info = types -> types <> [] -> forall rows values n m c d vs targets count h,
  Forall2 (fun row tuple => evaluate_all row [] = Ok tuple /\ row_ok types tuple) rows values ->
  db_ok m c d -> get_table_by_id c t = Ok info -> targets_ok c targets -> depth_below d h -> (h + length rows < fuel)%nat ->
  xtriple txn (rows_cost (length rows) (length targets) h + n) m c vs (insert_rows fuel txn (first_page_id info) rows targets count) n
    (fun r m' c' vs' => r = count + len rows /\ same_tables c c' /\ exists new d', new.*2 = values /\ vs' = record_all (txn_txn_id txn) new.*1 vs
       /\ db_ok m' c' d' /\ added d d' new /\ extends t ids m d m' d' /\ depth_below d' (h + length rows))
    (same_outside (region t ids d) m).
Proof.
  intros Htypes Hne. induction rows as [| row rows IH]; intros values n m c d vs targets count h Hv Hok Ht Htg Hdp Hf; cbn [insert_rows rows_cost length] in *.
  { apply Forall2_nil_inv_l in Hv as ->. apply xtriple_ret; [lia |]. destruct (ok_tables _ _ _ _ Hok t info Ht) as (ch & Hch & _).
    split_and!; [unfold len; cbn; lia | by split_and! |]. exists [], d. split_and!; [done | done | done | by eapply added_refl | apply extends_refl | intros; rewrite Nat.add_0_r; by eapply Hdp..]. }
  apply Forall2_cons_inv_l in Hv as (tuple & values' & [Hev Hrow] & Hv & ->).
  eapply (xtriple_bind _ _ _ _ _ _ _ (rows_cost (length rows) (length targets) (S h) + n)).
  { rewrite <- Nat.add_assoc. by apply (insert_row_spec _ m c d vs row tuple targets info h fuel Hok Ht Htypes Hne Hev Hrow Htg Hdp ltac:(lia)). }
  { lia. }
  cbn beta. intros targets1 m1 c1 vs1 (Hst & Htg1 & rid & d1 & -> & Hok1 & Hdp1 & Had1 & Hex1).
  assert (Hlen : length targets1 = length targets).
  { destruct Htg as (_ & E1 & _), Htg1 as (_ & E2 & _). by rewrite <- (length_fmap target_index_id targets1), E2, <- E1, length_fmap. }
  rewrite <- Hlen. eapply xtriple_mono; [apply (IH values' n m1 c1 d1 _ targets1 (count + 1) (S h) Hv Hok1) | |].
  - destruct Hst as (_ & Hst & _). by rewrite Hst.
  - done.
  - done.
  - lia.
  - intros r m2 c2 vs2 (-> & Hst2 & new & d2 & Hn & -> & Hok2 & Had2 & Hex2 & Hdp2). split_and!; [rewrite len_cons; lia | by eapply same_tables_trans |].
    replace (h + S (length rows))%nat with (S h + length rows)%nat by lia.
    exists ((rid, tuple) :: new), d2. split; [cbn; by rewrite Hn |]. split; [done |]. split; [done |]. split; [by apply (added_trans d d1 d2 [(rid, tuple)] new) |]. split; [by eapply extends_trans | exact Hdp2].
  - intros m' Hm. destruct Hex1 as [H1 H2]. by eapply same_outside_grow.
Qed.
End insert_rows.

(** ** The statement *)
Section insert_statement.
Context {P : Type} `{!PageStore P, !PageStoreLaws P} (txn : Transaction).
Implicit Types (m : gmap PageId bytes) (c : CatalogState) (vs : StoreState).

Definition index_ids (c : CatalogState) (t : TableId) : list IndexId := index_id <$> indexes_for_table c t.
Lemma targets_of_ok c t : catalog_ok c -> targets_ok t (index_ids c t) c (targets_of c t).
Proof.
  intros Hc. unfold targets_of, index_ids. split_and!; [| by rewrite <- list_fmap_compose | done]. apply Forall_fmap, Forall_forall.
  intros info Hin. apply indexes_for_table_elem in Hin as [Hi Ht]; [| done]. exists info. by split_and!.
Qed.

Lemma insert_init_spec n m c vs t rows info R : get_table_by_id c t = Ok info ->
  xtriple txn n m c vs (insert_init txn (InsertExecutor_new t rows)) n
    (fun x m' c' vs' => x = mkInsert t rows (Some (first_page_id info)) false /\ m' = m /\ c' = c /\ vs' = vs) R.
Proof.
  intros Ht. unfold insert_init. eapply (xtriple_bind _ _ _ _ _ _ _ n (fun x m' c' vs' => x = info /\ m' = m /\ c' = c /\ vs' = vs)); [| done |].
  { intros s (Hp & Hc & Hv & Hl). unfold catalog_read. cbn [ins_table_id InsertExecutor_new]. rewrite Hc, Ht. by exists m, c, vs. }
  intros ? ? ? ? (-> & -> & -> & ->). eapply (xtriple_bind _ _ _ _ _ _ _ n); [apply xtriple_lock | done |].
  cbn beta. intros _ ? ? ? (-> & -> & ->). by apply xtriple_ret.
Qed.

(** What an INSERT of [values] promises. *)
Definition rows_inserted m c d vs t types (values : list Tuple) (h : nat) m' c' vs' : Prop :=
  same_tables c c' /\ exists new d', new.*2 = values /\ vs' = record_all (txn_txn_id txn) new.*1 vs /\ db_ok m' c' d'
    /\ added t types d d' new /\ extends t (index_ids c t) m d m' d' /\ depth_below d' (h + length values).

Section statement.
Context (m : gmap PageId bytes) (c : CatalogState) (d : Db) (vs : StoreState) (t : TableId) (info : TableInfo).
Context (rows : list (list BoundExpr.t)) (values : list Tuple) (h : nat).
Hypothesis Hok : db_ok m c d.
Hypothesis Ht : get_table_by_id c t = Ok info.
Hypothesis Hne : column_types info <> [].
Hypothesis Hv : Forall2 (fun row tuple => evaluate_all row [] = Ok tuple /\ row_ok (column_types info) tuple) rows values.
Hypothesis Hdp : depth_below d h.

Definition insert_cost : nat := rows_cost (length rows) (length (indexes_for_table c t)) h.

Lemma insert_next_spec n fuel : (h + length rows < fuel)%nat ->
  xtriple txn (insert_cost + n) m c vs (insert_next fuel txn (mkInsert t rows (Some (first_page_id info)) false)) n
    (fun r m' c' vs' => r = (Some [Value.BigInt (len rows)], mkInsert t rows (Some (first_page_id info)) true)
       /\ rows_inserted m c d vs t (column_types info) values h m' c' vs') (same_outside (region t (index_ids c t) d) m).
Proof.
  intros Hf. unfold insert_next. cbn [ins_done ins_first_page_id ins_table_id ins_rows ok_or].
  eapply (xtriple_bind _ _ _ _ _ _ _ (insert_cost + n) (fun x m' c' vs' => x = first_page_id info /\ m' = m /\ c' = c /\ vs' = vs)); [by apply xtriple_lift | lia |].
  intros ? ? ? ? (-> & -> & -> & ->).
  eapply (xtriple_bind _ _ _ _ _ _ _ (insert_cost + n) (fun x m' c' vs' => x = targets_of c t /\ m' = m /\ c' = c /\ vs' = vs)); [| lia |].
  { intros s (H1 & H2 & H3 & H4). cbn. exists m, c, vs. by rewrite H2. }
  intros ? ? ? ? (-> & -> & -> & ->). eapply (xtriple_bind _ _ _ _ _ _ _ n); [| done |].
  { unfold insert_cost. replace (length (indexes_for_table c t)) with (length (targets_of c t)) by (unfold targets_of; apply length_fmap).
    eapply (insert_rows_spec txn t (index_ids c t) (column_types info) info fuel eq_refl Hne rows values n m c d vs _ 0 h Hv Hok Ht); [| done | done].
    apply targets_of_ok, Hok. }
  cbn beta. intros r m' c' vs' (-> & Hins). rewrite Z.add_0_l. rewrite (Forall2_length _ _ _ Hv) in Hins. apply xtriple_ret; [done |]. by split.
Qed.

(** Running the plan of an INSERT statement adds its rows, each to the table and to all its indexes. *)
Lemma run_insert_spec n steps fuel : (h + length rows + 1 < fuel)%nat -> (1 < steps)%nat ->
  xtriple txn (insert_cost + n) m c vs (run_plan steps fuel txn (PhysicalPlan.Insert t rows)) n
    (fun r m' c' vs' => r = [[Value.BigInt (len rows)]] /\ rows_inserted m c d vs t (column_types info) values h m' c' vs')
    (same_outside (region t (index_ids c t) d) m).
Proof.
  intros Hf Hst. unfold run_plan. cbn [build_executor].
  eapply (xtriple_bind _ _ _ _ _ _ _ (insert_cost + n) (fun x m' c' vs' => x = Executor.Insert (InsertExecutor_new t rows) /\ m' = m /\ c' = c /\ vs' = vs)); [by apply xtriple_lift | lia |].
  intros ? ? ? ? (-> & -> & -> & ->). cbn [exec_init].
  eapply (xtriple_bind _ _ _ _ _ _ _ (insert_cost + n) (fun x m' c' vs' => x = Executor.Insert (mkInsert t rows (Some (first_page_id info)) false) /\ m' = m /\ c' = c /\ vs' = vs)); [| lia |].
  { eapply (xtriple_bind _ _ _ _ _ _ _ (insert_cost + n)); [by apply (insert_init_spec _ _ _ _ _ _ info) | done |].
    cbn beta. intros ? ? ? ? (-> & -> & -> & ->). by apply xtriple_ret. }
  intros ? ? ? ? (-> & -> & -> & ->). destruct steps as [| [| steps]]; [lia | lia |]. cbn [drain].
  destruct fuel as [| fuel]; [lia |]. cbn [exec_next].
  eapply (xtriple_bind _ _ _ _ _ _ _ n (fun r m' c' vs' => r = (Some [Value.BigInt (len rows)], Executor.Insert (mkInsert t rows (Some (first_page_id info)) true))
       /\ rows_inserted m c d vs t (column_types info) values h m' c' vs')); [| done |].
  { eapply (xtriple_bind _ _ _ _ _ _ _ n); [apply (insert_next_spec n fuel); lia | done |].
    cbn beta. intros r m' c' vs' [-> Hins]. apply xtriple_ret; [done |]. by split. }
  cbn beta. intros r m' c' vs' [-> Hins]. cbn [fst snd]. by apply xtriple_ret.
Qed.
End statement.
End insert_statement.

(** * What an INSERT changes for its transaction

    The rows added are seen by the transaction that added them, and no other row changes. *)
(** ** Visibility *)
Lemma record_insert_visible vs txn rid rid' : visible (record_insert (txn_txn_id txn) rid vs) txn rid' = (if decide (rid' = rid) then true else visible vs txn rid').
Proof.
  unfold visible, is_visible_to, record_insert. cbn [chains]. destruct (snapshot_isolation txn); cbn; [| by case_decide]. case_decide as E.
  - subst. rewrite lookup_insert_eq. apply bool_decide_eq_true. cbn. rewrite Z.eqb_refl. cbn. by eexists.
  - by rewrite lookup_insert_ne.
Qed.
Lemma record_all_visible txn rids : forall vs rid, visible (record_all (txn_txn_id txn) rids vs) txn rid = (if decide (rid ∈ rids) then true else visible vs txn rid).
Proof.
  induction rids as [| r rids IH]; intros vs rid; cbn [record_all fold_left]; [by rewrite decide_False by apply not_elem_of_nil |].
  change (fold_left _ rids ?v) with (record_all (txn_txn_id txn) rids v). rewrite IH, record_insert_visible.
  destruct (decide (rid ∈ rids)); [by rewrite decide_True by (by right) |]. destruct (decide (rid = r)) as [-> | Hne]; [by rewrite decide_True by left |].
  rewrite decide_False; [done |]. by intros [? | ?]%elem_of_cons.
Qed.

(** ** Rows of a table *)
Lemma tuples_page types ch x : NoDup ch.*1 -> x ∈ tuples types ch -> page_id x.1 ∈ ch.*1.
Proof.
  intros Hnd (row & Hin & _)%tuples_elem. apply heap_list_get in Hin; [| done]. unfold heap_get in Hin.
  destruct (chain_page ch (page_id x.1)) as [ts |] eqn:E; [| done]. by eapply chain_page_elem.
Qed.

Section inserted.
Context (m : gmap PageId bytes) (c : CatalogState) (d : Db) (vs : StoreState) (txn : Transaction) (t : TableId) (info : TableInfo) (values : list Tuple).
Context (m' : gmap PageId bytes) (c' : CatalogState) (d' : Db) (new : list (Rid * Tuple)).
Hypothesis Hok : db_ok m c d.
Hypothesis Hok' : db_ok m' c' d'.
Hypothesis Ht : get_table_by_id c t = Ok info.
Hypothesis Hc : same_tables c c'.
Hypothesis Hadd : added t (column_types info) d d' new.
Abbreviation vs' := (record_all (txn_txn_id txn) new.*1 vs).

Lemma inserted_same_seen x : x.1 ∉ new.*1 -> seen vs' txn x <-> seen vs txn x.
Proof using. intros Hx. unfold seen. by rewrite record_all_visible, decide_False. Qed.
Lemma filter_seen_same (l : list (Rid * Tuple)) : (forall x, x ∈ l -> x.1 ∉ new.*1) -> filter (seen vs' txn) l = filter (seen vs txn) l.
Proof using.
  induction l as [| x l IH]; intros H; [done |]. rewrite !filter_cons. rewrite IH by (intros y Hy; apply H; by right).
  pose proof (inserted_same_seen x (H x ltac:(left))). repeat case_decide; tauto.
Qed.

(** What the transaction sees of any table after it. *)
Lemma inserted_table_rows t' info' : get_table_by_id c t' = Ok info' ->
  table_rows c' d' vs' txn t' ≡ₚ (if decide (t' = t) then new.*2 else []) ++ table_rows c d vs txn t'.
Proof using Hok Hok' Ht Hc Hadd.
  intros Et'. destruct Hadd as (ch & ch' & Hch & Hd' & Htu). destruct Hc as (_ & Hby & _). unfold table_rows, types_of. rewrite Hby.
  assert (Ht' : get_table_by_id c' t = Ok info) by (by rewrite Hby).
  destruct (ok_tables _ _ _ _ Hok' t info Ht') as (ch1 & Hch1 & (_ & _ & _ & Hnd') & _). rewrite Hd', lookup_insert_eq in Hch1. injection Hch1 as <-.
  pose proof (tuples_nodup (column_types info) ch' Hnd') as Hnt. rewrite Htu, fmap_app in Hnt. apply NoDup_app in Hnt as (_ & Hdisj & _).
  destruct (decide (t' = t)) as [-> | Hne].
  - unfold chain_of. rewrite Ht, Hd', lookup_insert_eq, Hch. cbn [default]. change (default [] (Some ?x)) with x. rewrite Htu, filter_app, fmap_app. f_equiv.
    + f_equiv. apply Permutation_refl', filter_all, Forall_forall. intros x Hx. unfold seen. rewrite record_all_visible. by rewrite decide_True by (by apply list_elem_of_fmap_2).
    + f_equiv. apply Permutation_refl', filter_seen_same. intros x Hx Hn. apply (Hdisj _ Hn). by apply list_elem_of_fmap_2.
  - cbn [app]. unfold chain_of. rewrite Hd', lookup_insert_ne by done. rewrite Et'.
    f_equiv. apply Permutation_refl', filter_seen_same. intros x Hx Hn.
    destruct (ok_tables _ _ _ _ Hok' t' info' ltac:(by rewrite Hby)) as (ch2 & Hch2 & (_ & _ & _ & Hnd2) & _).
    pose proof Hch2 as Hch2'. rewrite Hd', lookup_insert_ne in Hch2' by done. rewrite Hch2' in Hx.
    apply list_elem_of_fmap in Hn as (y & Ey & Hy). assert (Hy' : y ∈ tuples (column_types info) ch') by (rewrite Htu; apply elem_of_app; by left).
    apply (proj2 (ok_layout _ _ _ _ Hok') (PTable t') (PTable t) ltac:(congruence) (page_id x.1)); cbn.
    + rewrite Hch2. by eapply tuples_page.
    + rewrite Hd', lookup_insert_eq, Ey. by eapply tuples_page.
Qed.
End inserted.
