(* ===== verification/CatalogSpec.v ===== *)
(** * Creating tables and indexes

    The catalog's own operations over a database: a table or an index that is created is in the catalog
    in memory and in its rows on the pages, whatever fails on the way leaves the database as it was. *)
From stdpp Require Import sorting.
From S2P Require Import Prelude Text Value Memcomparable Tuple Common Errors Page Header Slots Heap HeapPage HeapSpec.
From S2P Require Import BtreeNode Btree BtreePage BtreeWrites BtreeTree BtreeSpec BtreeInsert BtreeScan.
From S2P Require Import Catalog CatalogStore Executor Database DatabaseFrames Inserts.

(** ** Changes outside the database *)
Lemma db_frame lag m m' c d : db_rep lag m c d -> (forall p q, q ∈ part_pages d p -> m' !! q = m !! q) -> db_rep lag m' c d.
Proof.
  intros Hok Hk. split; [apply Hok | | | apply Hok | | | apply Hok | | apply Hok | apply Hok |].
  - intros t info Ht. destruct (ok_tables _ _ _ _ Hok t info Ht) as (ch & Hch & Hto). exists ch. split; [done |].
    eapply table_ok_frame; [done |]. intros q Hq. apply (Hk (PTable t)). cbn. by rewrite Hch.
  - intros i info Hi. destruct (ok_indexes _ _ _ _ Hok i info Hi) as (table & ch & tr & T & Ht & Hch & Htr & HT & Hix).
    exists table, ch, tr, T. split_and!; [done | done | done | done |]. eapply index_ok_frame; [done |]. intros q Hq. apply (Hk (PIndex i)). cbn. by rewrite Htr.
  - destruct (ok_header _ _ _ _ Hok) as (b & Hb & Hr). exists b. split; [| done]. rewrite <- Hb. apply (Hk PHeader). cbn. set_solver.
  - eapply catalog_heap_frame; [apply Hok |]. intros q Hq. by apply (Hk PTableRows).
  - eapply catalog_heap_frame; [apply Hok |]. intros q Hq. by apply (Hk PIndexRows).
  - destruct (ok_layout _ _ _ _ Hok) as [H1 H2]. split; [| done]. intros p q Hq. rewrite (Hk p q Hq). by eapply H1.
Qed.
Lemma db_subset lag m m' c d : db_rep lag m c d -> m ⊆ m' -> db_rep lag m' c d.
Proof.
  intros Hok Hs. eapply db_frame; [done |]. intros p q Hq. destruct (proj1 (ok_layout _ _ _ _ Hok) p q Hq) as [b Hb]. rewrite Hb. by eapply lookup_weaken.
Qed.

Section catalog_triples.
Context {P : Type} `{!PageStore P, !PageStoreLaws P}.
Abbreviation MC := (M (CatSys P) CatalogError).
Implicit Types (m : gmap PageId bytes) (c : CatalogState).

Definition ctriple {A} (n : nat) m c (e : MC A) (n' : nat) (Q : A -> gmap PageId bytes -> CatalogState -> Prop)
    (R : gmap PageId bytes -> CatalogState -> Prop) : Prop :=
  forall p, stored n [] p m ->
  match e (mkCat c p) with
  | (Ok a, s) => exists m', stored n' [] (cat_pool s) m' /\ Q a m' (cat s)
  | (Err _, s) => exists m', stored n' [] (cat_pool s) m' /\ R m' (cat s)
  | (Panic, _) => False
  end.

Lemma ctriple_bind {A B} n m c (e : MC A) (k : A -> MC B) n1 Q1 n2 Q R :
  ctriple n m c e n1 Q1 R -> (n2 <= n1)%nat -> (forall a m1 c1, Q1 a m1 c1 -> ctriple n1 m1 c1 (k a) n2 Q R) -> ctriple n m c (e ≫= k) n2 Q R.
Proof.
  intros He Hn Hk p Hp. unfold mbind, M_bind. specialize (He p Hp). destruct (e (mkCat c p)) as [[a | x |] s]; [| | done].
  - destruct He as (m1 & Hs & HQ). specialize (Hk a m1 (cat s) HQ (cat_pool s) Hs). by destruct s.
  - destruct He as (m1 & Hs & HR). exists m1. split; [by eapply stored_le | done].
Qed.
Lemma ctriple_mono {A} n m c (e : MC A) n' Q Q' (R R' : _ -> _ -> Prop) : ctriple n m c e n' Q R ->
  (forall a m' c', Q a m' c' -> Q' a m' c') -> (forall m' c', R m' c' -> R' m' c') -> ctriple n m c e n' Q' R'.
Proof. intros He HQ HR p Hp. specialize (He p Hp). destruct (e (mkCat c p)) as [[a | x |] s]; naive_solver. Qed.
Lemma ctriple_credits {A} n n0 m c (e : MC A) n' n1 Q R : ctriple n m c e n' Q R -> (n <= n0)%nat -> (n1 <= n')%nat -> ctriple n0 m c e n1 Q R.
Proof.
  intros He H1 H2 p Hp. specialize (He p (stored_le _ _ _ _ _ Hp H1)). destruct (e (mkCat c p)) as [[a | x |] s]; [| | done];
    destruct He as (m1 & Hs & HQ); exists m1; (split; [by eapply stored_le | done]).
Qed.
Lemma ctriple_ret {A} n m c (a : A) n' (Q : A -> _ -> _ -> Prop) R : (n' <= n)%nat -> Q a m c -> ctriple n m c (mret a) n' Q R.
Proof. intros Hn HQ p Hp. exists m. split; [by eapply stored_le | done]. Qed.
Lemma ctriple_throw {A} n m c e n' (Q : A -> _ -> _ -> Prop) (R : _ -> _ -> Prop) : (n' <= n)%nat -> R m c -> ctriple n m c (throw e) n' Q R.
Proof. intros Hn HR p Hp. exists m. split; [by eapply stored_le | done]. Qed.
Lemma ctriple_gets {A B} n m c (f : CatalogState -> A) (k : A -> MC B) n' Q R :
  ctriple n m c (k (f c)) n' Q R -> ctriple n m c (x ← gets (fun s => f (cat s)); k x) n' Q R.
Proof. intros Hk p Hp. exact (Hk p Hp). Qed.
Lemma ctriple_store {A} n m c (e : M P Storage.Error A) n' Q (R : _ -> Prop) : triple n [] m e n' (fun _ => []) Q [] R ->
  ctriple n m c (on_store e) n' (fun a m' c' => Q a m' /\ c' = c) (fun m' c' => R m' /\ c' = c).
Proof.
  intros He p Hp. specialize (He p Hp). unfold on_store. cbn [cat cat_pool]. destruct (e p) as [[a | x |] s]; [| | done];
    destruct He as (m' & Hs & HQ); exists m'; by split.
Qed.
Lemma ctriple_state n m c f R : ctriple n m c (on_state f) n (fun _ m' c' => m' = m /\ c' = f c) R.
Proof. intros p Hp. exists m. by split. Qed.

(** ** The header page *)
Lemma header_u32_spec n m at_ b o : m !! 0 = Some b -> len b = PAGE_SIZE -> 12 <= at_ <= 100 -> header_holds b at_ o -> (forall p, o = Some p -> 0 <= p < u32_max) ->
  keeps n [] m (header_u32 at_) n (fun r m' => m' = m /\ r = o) (fun m' => m' = m).
Proof.
  intros Hb Hl Ha Hh Ho. unfold header_u32. apply (keeps_guarded ReadGuard); [set_solver | done | done |]. intros g Hg Hm.
  eapply (triple_bind _ _ _ _ _ n); [eapply triple_mono; [apply (keeps_guard_page n [g] m g); left | intros ? ? H; exact H | done] | done |].
  cbn beta. intros b' m' (-> & Hb'). rewrite Hg, Hb in Hb'. injection Hb' as ->. apply triple_ret; [done | done |]. split; [done |].
  unfold header_holds in Hh. rewrite sub_clear_checksum in Hh by (lia || by apply len_clear_checksum_inv). rewrite (u32_at_sub _ _ _ Hh).
  destruct o as [q |]; cbn [default from_option id].
  - specialize (Ho q eq_refl). rewrite from_le_to_le_id by (unfold in_u, u32_max in *; lia). by rewrite (proj2 (Z.eqb_neq q u32_max)) by lia.
  - by rewrite from_le_to_le_id.
Qed.

Lemma set_header_spec n m t at_ new b : m !! 0 = Some b -> 12 <= at_ -> at_ + len new <= PAGE_SIZE ->
  keeps (1 + n) [] m (set_header t at_ new) n (fun _ m' => exists lsn, m' = <[0 := set_page_lsn lsn (splice b at_ new)]> m) (fun m' => m' = m).
Proof.
  intros Hb Ha Hl. unfold set_header. apply (keeps_guarded WriteGuard); [set_solver | lia | done |]. intros g Hg Hm.
  eapply triple_mono; [apply (keeps_write n [g] m t g b at_ new); [left | done | by rewrite Hg | done | done] | | done].
  cbn beta. intros _ m' [lsn ->]. rewrite Hg. by exists lsn.
Qed.
End catalog_triples.

Lemma header_write b lsn at_ p at' o : len b = PAGE_SIZE -> 12 <= at_ -> at_ + 4 <= PAGE_SIZE -> 12 <= at' ->
  header_holds (set_page_lsn lsn (splice b at_ (to_le 4 p))) at_ (Some p)
  /\ (at_ + 4 <= at' \/ at' + 4 <= at_ -> header_holds b at' o -> header_holds (set_page_lsn lsn (splice b at_ (to_le 4 p))) at' o).
Proof.
  intros Hl H1 H2 H3. assert (Hls : len (splice b at_ (to_le 4 p)) = PAGE_SIZE) by (rewrite len_splice; [done | lia | rewrite len_to_le; lia]).
  unfold header_holds. rewrite !sub_set_page_lsn by done. split.
  - cbn. pose proof (sub_splice_eq b at_ (to_le 4 p)) as H. rewrite len_to_le in H. apply H; lia.
  - intros Hd Hh. rewrite sub_splice_ne; [done | lia | rewrite len_to_le; lia | rewrite len_to_le; lia].
Qed.

(** ** The catalog's first pages *)

(** The catalog's first pages are pages. *)
Lemma catalog_pages_range {P} `{!PageStore P, !PageStoreLaws P} n (s : P) lag m c d : stored n [] s m -> db_rep lag m c d ->
  (forall p, catalog_first_page c = Some p -> 0 <= p < u32_max) /\ (forall p, index_catalog_first_page c = Some p -> 0 <= p < u32_max).
Proof.
  intros [Hs <-] Hok. assert (H : forall first ch p, catalog_heap (pages s) first ch -> first = Some p -> 0 <= p < u32_max).
  { intros first ch p Hh ->. cbn in Hh. destruct Hh as (Hne & Hhd & Hrep & _). destruct ch as [| [q ts] ch]; [done |]. cbn in Hhd. subst q.
    destruct Hrep as (_ & (b & lo & slots & Hb & _) & _). by eapply page_id_range. }
  split; intros p Hp; [exact (H _ _ p (ok_table_heap _ _ _ _ Hok) Hp) | exact (H _ _ p (ok_index_heap _ _ _ _ Hok) Hp)].
Qed.

Lemma catalog_ok_table_page c p : catalog_ok c -> catalog_ok (with_catalog_first_page p c).
Proof. intros [H1 H2 H3 H4 H5 H6]. by split. Qed.
Lemma catalog_ok_index_page c p : catalog_ok c -> catalog_ok (with_index_catalog_first_page p c).
Proof. intros [H1 H2 H3 H4 H5 H6]. by split. Qed.

Section first_pages.
Context (m m1 : gmap PageId bytes) (c : CatalogState) (d : Db) (p : PageId) (lsn : Lsn) (b : bytes).
Hypothesis Hok : db_ok m c d.
Hypothesis Hsub : m ⊆ m1.
Hypothesis Hfresh : m !! p = None.
Hypothesis Hheap : heap_ok m1 p [(p, [])].
Hypothesis Hb : m1 !! 0 = Some b.
Hypothesis Hlen : len b = PAGE_SIZE.

(** A header page with the first page of a new heap. *)
Abbreviation m2 at_ := (<[0 := set_page_lsn lsn (splice b at_ (to_le 4 p))]> m1).

Lemma header_in_m : m !! 0 = Some b.
Proof. destruct (ok_header _ _ _ _ Hok) as (b0 & Hb0 & _). pose proof (lookup_weaken _ _ _ _ Hb0 Hsub). congruence. Qed.
Lemma p_not_header : p <> 0.
Proof. intros ->. rewrite header_in_m in Hfresh. done. Qed.

Lemma first_page_layout at_ d' part : part <> PHeader -> (forall p', p' <> part -> part_pages d' p' = part_pages d p') -> part_pages d' part = [p] ->
  part_pages d part = [] -> laid_out (m2 at_) d' /\ (forall p' q, p' <> PHeader -> q ∈ part_pages d p' -> m2 at_ !! q = m !! q).
Proof.
  intros Hpart Ho Hn Hnil. destruct (part_update m m1 d d' part (ok_layout _ _ _ _ Hok)) as [Hl1 Hk1].
  { done. }
  { rewrite Hn. intros q ->%list_elem_of_singleton. by right. }
  { rewrite Hnil. intros q b0 Hq _. by eapply lookup_weaken. }
  { rewrite Hn. intros q ->%list_elem_of_singleton. apply (heap_pages_stored _ _ _ p Hheap). cbn. set_solver. }
  destruct (part_update m1 (m2 at_) d' d' PHeader Hl1) as [Hl2 Hk2].
  { done. }
  { apply fresh_or_refl. }
  { cbn. intros q b0 Hq Hnq. rewrite lookup_insert_ne by set_solver. done. }
  { cbn. intros q ->%list_elem_of_singleton. by rewrite lookup_insert_eq. }
  split; [done |]. intros p' q Hp' Hq. destruct (decide (p' = part)) as [-> | Hne].
  - rewrite Hnil in Hq. by apply not_elem_of_nil in Hq.
  - rewrite (Hk2 p' q Hp'); [by apply (Hk1 p') |]. by rewrite Ho.
Qed.

Lemma new_heap_kept at_ : heap_ok (m2 at_) p [(p, [])].
Proof.
  eapply heap_ok_frame; [exact Hheap |]. intros q ->%list_elem_of_singleton. rewrite lookup_insert_ne; [done |]. symmetry. apply p_not_header.
Qed.

Lemma first_table_page : catalog_first_page c = None ->
  db_ok (m2 24) (with_catalog_first_page p c) (with_table_rows [(p, [])] d)
  /\ (forall p' q, p' <> PHeader -> q ∈ part_pages d p' -> m2 24 !! q = m !! q).
Proof.
  intros Hnone. pose proof (ok_table_heap _ _ _ _ Hok) as Hrows. rewrite Hnone in Hrows. cbn in Hrows.
  destruct (first_page_layout 24 (with_table_rows [(p, [])] d) PTableRows) as [Hlay Hk]; [done | intros p' Hp'; by apply with_table_rows_pages | done | cbn; by rewrite Hrows |].
  split; [| done]. destruct (header_write b lsn 24 p 40 (index_catalog_first_page c) Hlen) as [Hw1 Hw2]; [lia | unfold PAGE_SIZE; lia | lia |].
  split; [apply catalog_ok_table_page, Hok | | | apply Hok | | | | | apply Hok | apply Hok | done].
  - intros t info Ht. destruct (ok_tables _ _ _ _ Hok t info Ht) as (ch & Hch & Hto). exists ch. split; [done |].
    eapply table_ok_frame; [done |]. intros q Hq. apply (Hk (PTable t)); [done |]. cbn. by rewrite Hch.
  - intros i info Hi. destruct (ok_indexes _ _ _ _ Hok i info Hi) as (table & ch & tr & T & Ht & Hch & Htr & HT & Hix).
    exists table, ch, tr, T. split_and!; [done | done | done | done |]. eapply index_ok_frame; [done |]. intros q Hq. apply (Hk (PIndex i)); [done |]. cbn. by rewrite Htr.
  - eexists. rewrite lookup_insert_eq. split_and!; [done | apply len_set_page_lsn; rewrite len_splice; [done | lia | rewrite len_to_le, Hlen; unfold PAGE_SIZE; lia] | done |].
    apply Hw2; [lia |]. destruct (ok_header _ _ _ _ Hok) as (b0 & Hb0 & _ & _ & Hh). rewrite header_in_m in Hb0. by injection Hb0 as ->.
  - apply new_heap_kept.
  - pose proof (ok_table_rows _ _ _ _ Hok) as Hr. rewrite Hrows in Hr. exact Hr.
  - cbn. eapply catalog_heap_frame; [apply Hok |]. intros q Hq. by apply (Hk PIndexRows).
Qed.
Lemma first_index_page : index_catalog_first_page c = None ->
  db_ok (m2 40) (with_index_catalog_first_page p c) (with_index_rows [(p, [])] d)
  /\ (forall p' q, p' <> PHeader -> q ∈ part_pages d p' -> m2 40 !! q = m !! q).
Proof.
  intros Hnone. pose proof (ok_index_heap _ _ _ _ Hok) as Hrows. rewrite Hnone in Hrows. cbn in Hrows.
  destruct (first_page_layout 40 (with_index_rows [(p, [])] d) PIndexRows) as [Hlay Hk]; [done | intros p' Hp'; by apply with_index_rows_pages | done | cbn; by rewrite Hrows |].
  split; [| done]. destruct (header_write b lsn 40 p 24 (catalog_first_page c) Hlen) as [Hw1 Hw2]; [lia | unfold PAGE_SIZE; lia | lia |].
  split; [apply catalog_ok_index_page, Hok | | | apply Hok | | | apply Hok | | | apply Hok | done].
  - intros t info Ht. destruct (ok_tables _ _ _ _ Hok t info Ht) as (ch & Hch & Hto). exists ch. split; [done |].
    eapply table_ok_frame; [done |]. intros q Hq. apply (Hk (PTable t)); [done |]. cbn. by rewrite Hch.
  - intros i info Hi. destruct (ok_indexes _ _ _ _ Hok i info Hi) as (table & ch & tr & T & Ht & Hch & Htr & HT & Hix).
    exists table, ch, tr, T. split_and!; [done | done | done | done |]. eapply index_ok_frame; [done |]. intros q Hq. apply (Hk (PIndex i)); [done |]. cbn. by rewrite Htr.
  - eexists. rewrite lookup_insert_eq. split_and!; [done | apply len_set_page_lsn; rewrite len_splice; [done | lia | rewrite len_to_le, Hlen; unfold PAGE_SIZE; lia] | | done].
    apply Hw2; [lia |]. destruct (ok_header _ _ _ _ Hok) as (b0 & Hb0 & _ & Hh & _). rewrite header_in_m in Hb0. by injection Hb0 as ->.
  - cbn. eapply catalog_heap_frame; [apply Hok |]. intros q Hq. by apply (Hk PTableRows).
  - apply new_heap_kept.
  - pose proof (ok_index_rows _ _ _ _ Hok) as Hr. rewrite Hrows in Hr. exact Hr.
Qed.
End first_pages.

(** ** Finding or making the catalog's heaps *)
Definition parts_kept (d : Db) (m m' : gmap PageId bytes) : Prop := forall p q, p <> PHeader -> q ∈ part_pages d p -> m' !! q = m !! q.
Definition table_heap_ready (d : Db) (m : gmap PageId bytes) (c : CatalogState) (p : PageId) (m' : gmap PageId bytes) (c' : CatalogState) : Prop :=
  c' = with_catalog_first_page p c /\ parts_kept d m m' /\ exists rows, db_ok m' c' (with_table_rows rows d) /\ heap_ok m' p rows
    /\ (length rows <= S (length (db_table_rows d)))%nat.
Definition index_heap_ready (d : Db) (m : gmap PageId bytes) (c : CatalogState) (p : PageId) (m' : gmap PageId bytes) (c' : CatalogState) : Prop :=
  c' = with_index_catalog_first_page p c /\ parts_kept d m m' /\ exists rows, db_ok m' c' (with_index_rows rows d) /\ heap_ok m' p rows
    /\ (length rows <= S (length (db_index_rows d)))%nat.
(** Nothing happened, but for pages nobody owns. *)
Definition untouched (d : Db) (m : gmap PageId bytes) (c : CatalogState) (m' : gmap PageId bytes) (c' : CatalogState) : Prop :=
  c' = c /\ parts_kept d m m' /\ db_ok m' c d.

Lemma untouched_refl d m c : db_ok m c d -> untouched d m c m c.
Proof. intros H. by split_and!. Qed.
Lemma untouched_subset d m c m' : db_ok m c d -> m ⊆ m' -> untouched d m c m' c.
Proof.
  intros Hok Hs. split_and!; [done | | by eapply db_subset]. intros p q _ Hq.
  destruct (proj1 (ok_layout _ _ _ _ Hok) p q Hq) as [b Hb]. rewrite Hb. by eapply lookup_weaken.
Qed.

Section ensure.
Context {P : Type} `{!PageStore P, !PageStoreLaws P}.
Implicit Types (m : gmap PageId bytes) (c : CatalogState).

Lemma ctriple_stored {A} n m c (e : M (CatSys P) CatalogError A) n' Q R : (forall p : P, stored n [] p m -> ctriple n m c e n' Q R) -> ctriple n m c e n' Q R.
Proof. intros He p Hp. by apply (He p Hp). Qed.

(** A heap is created and its first page put in the header. *)
Definition new_first_page m (at_ : Z) (p : PageId) m' : Prop :=
  exists m1 lsn b, m ⊆ m1 /\ m !! p = None /\ heap_ok m1 p [(p, [])] /\ m1 !! 0 = Some b /\ len b = PAGE_SIZE
    /\ m' = <[0 := set_page_lsn lsn (splice b at_ (to_le 4 p))]> m1.

Lemma new_catalog_heap_spec n m c c0 d t at_ f : db_ok m c0 d -> 12 <= at_ <= 100 ->
  ctriple (3 + n) m c (p ← on_store (heap_create t); _ ← on_store (set_header t at_ (to_le 4 p)); _ ← on_state (f p); mret p : M (CatSys P) CatalogError PageId) n
    (fun p m' c' => c' = f p c /\ new_first_page m at_ p m') (fun m' c' => c' = c /\ untouched d m c0 m' c0).
Proof.
  intros Hok Ha. eapply (ctriple_bind _ _ _ _ _ (1 + n)).
  { eapply ctriple_mono; [apply ctriple_store, (heap_create_spec (1 + n) m t) | intros ? ? ? H; exact H |]. intros m' c' [Hs ->]. split; [done |]. by apply untouched_subset. }
  { lia. }
  cbn beta. intros p m1 ? [(Hf & Hs & Hh) ->]. destruct (ok_header _ _ _ _ Hok) as (b & Hb & Hl & _). pose proof (lookup_weaken _ _ _ _ Hb Hs) as Hb1.
  eapply (ctriple_bind _ _ _ _ _ n).
  { eapply ctriple_mono; [apply ctriple_store, (set_header_spec n m1 t at_ (to_le 4 p) b Hb1); [lia | rewrite len_to_le; unfold PAGE_SIZE; lia] | intros ? ? ? H; exact H |].
    intros m' c' [-> ->]. split; [done |]. by apply untouched_subset. }
  { lia. }
  cbn beta. intros _ m2 ? [[lsn ->] ->]. eapply (ctriple_bind _ _ _ _ _ n); [apply ctriple_state | done |].
  cbn beta. intros _ ? ? [-> ->]. apply ctriple_ret; [done |]. split; [done |]. by exists m1, lsn, b.
Qed.

(** The pages are those of [c0]; the catalog in memory, [c], knows where its heap starts or has yet to look. *)
Lemma ensure_catalog_heap_gen n m c c0 d t : db_ok m c0 d -> catalog_first_page c = None \/ catalog_first_page c = catalog_first_page c0 ->
  ctriple (3 + n) m c (ensure_catalog_heap t : M (CatSys P) CatalogError PageId) n
    (fun p m' c' => c' = with_catalog_first_page p c /\ table_heap_ready d m c0 p m' (with_catalog_first_page p c0)) (fun m' c' => c' = c /\ untouched d m c0 m' c0).
Proof.
  intros Hok Hc. apply ctriple_stored. intros p0 Hp0. destruct (catalog_pages_range _ _ _ _ _ _ Hp0 Hok) as [Hr _].
  assert (Hready : forall p, catalog_first_page c0 = Some p -> table_heap_ready d m c0 p m (with_catalog_first_page p c0)).
  { intros p Ec. assert (Ecc : with_catalog_first_page p c0 = c0) by (destruct c0; cbn in *; by subst).
    pose proof (ok_table_heap _ _ _ _ Hok) as Hh. rewrite Ec in Hh. split_and!; [done | done |].
    exists (db_table_rows d). split_and!; [rewrite Ecc; by destruct d | done | lia]. }
  unfold ensure_catalog_heap. apply ctriple_gets. destruct (catalog_first_page c) as [p |] eqn:Ec.
  { apply ctriple_ret; [lia |]. destruct Hc as [? | Hc]; [done |]. split; [destruct c; cbn in *; by subst | by apply Hready]. }
  destruct (ok_header _ _ _ _ Hok) as (b & Hb & Hl & Hh & _).
  eapply (ctriple_bind _ _ _ _ _ (3 + n)).
  { eapply ctriple_mono; [apply ctriple_store, (header_u32_spec (3 + n) m 24 b (catalog_first_page c0) Hb Hl); [lia | done | done] | intros ? ? ? H; exact H |].
    intros m' c' [-> ->]. split; [done |]. by apply untouched_refl. }
  { lia. }
  cbn beta. intros ? ? ? [[-> ->] ->]. destruct (catalog_first_page c0) as [p |] eqn:Ec0.
  { eapply (ctriple_bind _ _ _ _ _ (3 + n)); [apply ctriple_state | lia |]. cbn beta. intros _ ? ? [-> ->]. apply ctriple_ret; [lia |]. split; [done | by apply Hready]. }
  eapply ctriple_mono; [apply (new_catalog_heap_spec n m c c0 d t 24 with_catalog_first_page Hok); lia | | done].
  intros p m' c' (-> & m1 & lsn & b1 & H1 & H2 & H3 & H4 & H5 & ->). split; [done |].
  destruct (first_table_page m m1 c0 d p lsn b1 Hok H1 H2 H3 H4 H5 Ec0) as [Hok' Hk]. split_and!; [done | done |].
  exists [(p, [])]. split_and!; [done | by apply (new_heap_kept m m1 c0 d p lsn b1) | cbn; lia].
Qed.
Lemma ensure_catalog_heap_spec n m c d t : db_ok m c d ->
  ctriple (3 + n) m c (ensure_catalog_heap t : M (CatSys P) CatalogError PageId) n (fun p => table_heap_ready d m c p) (untouched d m c).
Proof.
  intros Hok. eapply ctriple_mono; [apply (ensure_catalog_heap_gen n m c c d t Hok); by right | |].
  - by intros p m' c' [-> H].
  - by intros m' c' [-> H].
Qed.
Lemma ensure_index_catalog_heap_spec n m c d t : db_ok m c d ->
  ctriple (3 + n) m c (ensure_index_catalog_heap t : M (CatSys P) CatalogError PageId) n (fun p => index_heap_ready d m c p) (untouched d m c).
Proof.
  intros Hok. apply ctriple_stored. intros p0 Hp0. destruct (catalog_pages_range _ _ _ _ _ _ Hp0 Hok) as [_ Hr].
  unfold ensure_index_catalog_heap. apply ctriple_gets. destruct (index_catalog_first_page c) as [p |] eqn:Ec.
  { apply ctriple_ret; [lia |]. assert (Ecc : with_index_catalog_first_page p c = c) by (destruct c; cbn in *; by subst).
    pose proof (ok_index_heap _ _ _ _ Hok) as Hh. rewrite Ec in Hh. split_and!; [done | done |].
    exists (db_index_rows d). split_and!; [by destruct d | done | lia]. }
  destruct (ok_header _ _ _ _ Hok) as (b & Hb & Hl & _ & Hh). rewrite Ec in Hh.
  eapply (ctriple_bind _ _ _ _ _ (3 + n)).
  { eapply ctriple_mono; [apply ctriple_store, (header_u32_spec (3 + n) m 40 b None Hb Hl); [lia | done | done] | intros ? ? ? H; exact H |].
    intros m' c' [-> ->]. by apply untouched_refl. }
  { lia. }
  cbn beta. intros ? ? ? [[-> ->] ->]. eapply ctriple_mono; [apply (new_catalog_heap_spec n m c c d t 40 with_index_catalog_first_page Hok); lia | | by intros m' c' [-> H]].
  intros p m' c' (-> & m1 & lsn & b1 & H1 & H2 & H3 & H4 & H5 & ->).
  destruct (first_index_page m m1 c d p lsn b1 Hok H1 H2 H3 H4 H5 Ec) as [Hok' Hk]. split_and!; [done | done |].
  exists [(p, [])]. split_and!; [done | by apply (new_heap_kept m m1 c d p lsn b1) | cbn; lia].
Qed.
End ensure.

(** ** A new table *)

(** The catalog's maps and the pages they lead to. *)
Definition same_maps (c c' : CatalogState) : Prop :=
  tables_by_name c' = tables_by_name c /\ tables_by_id c' = tables_by_id c /\ indexes_by_name c' = indexes_by_name c
  /\ indexes_by_id c' = indexes_by_id c /\ indexes_by_table c' = indexes_by_table c
  /\ next_table_id c' = next_table_id c /\ next_index_id c' = next_index_id c.
Definition same_pages (c : CatalogState) (d d' : Db) : Prop :=
  (forall t info, get_table_by_id c t = Ok info -> db_tables d' !! t = db_tables d !! t)
  /\ (forall i info, index_by_id c i = Ok info -> db_indexes d' !! i = db_indexes d !! i).
(** What a statement that failed leaves: the same tables and indexes. *)
Definition unchanged (c : CatalogState) (d : Db) (m' : gmap PageId bytes) (c' : CatalogState) : Prop :=
  same_maps c c' /\ exists d', db_ok m' c' d' /\ same_pages c d d'.

Lemma unchanged_refl m c d : db_ok m c d -> unchanged c d m c.
Proof. intros H. split; [by split_and! |]. exists d. split; [done |]. by split. Qed.

Lemma fresh_id_not_found c : catalog_ok c -> forall info, get_table_by_id c (next_table_id c) <> Ok info.
Proof.
  intros Hc info. unfold get_table_by_id, table_by_id. destruct (tables_by_id c !! next_table_id c) as [name |] eqn:E; [| done].
  destruct (table_of_id c Hc _ _ E). lia.
Qed.

(** The pages of a table that is not in the catalog yet. *)
Lemma db_new_table m m' c d p : db_ok m c d -> m ⊆ m' -> m !! p = None -> heap_ok m' p [(p, [])] ->
  db_ok m' c (with_table (next_table_id c) [(p, [])] d) /\ same_pages c d (with_table (next_table_id c) [(p, [])] d).
Proof.
  intros Hok Hs Hp Hh. set (id := next_table_id c). pose proof (fresh_id_not_found c (ok_catalog _ _ _ _ Hok)) as Hid. fold id in Hid.
  pose proof (db_subset _ _ _ _ _ Hok Hs) as Hok'.
  assert (Hsp : same_pages c d (with_table id [(p, [])] d)).
  { split; [| done]. intros t info Ht. cbn. rewrite lookup_insert_ne; [done |]. intros <-. by apply (Hid info). }
  split; [| done]. destruct (part_update m m' d (with_table id [(p, [])] d) (PTable id) (ok_layout _ _ _ _ Hok)) as [Hlay _].
  { intros p' Hp'. by apply with_table_pages. }
  { cbn. rewrite lookup_insert_eq. cbn. intros q ->%list_elem_of_singleton. by right. }
  { intros q b Hq _. by eapply lookup_weaken. }
  { cbn. rewrite lookup_insert_eq. cbn. intros q ->%list_elem_of_singleton. apply (heap_pages_stored _ _ _ p Hh). cbn. set_solver. }
  split; [apply Hok' | | | apply Hok' | apply Hok' | apply Hok' | apply Hok' | apply Hok' | apply Hok' | apply Hok' | done].
  - intros t info Ht. rewrite (proj1 Hsp t info Ht). by apply (ok_tables _ _ _ _ Hok').
  - intros i info Hi. destruct (ok_indexes _ _ _ _ Hok' i info Hi) as (table & ch & tr & T & Ht & Hch & Htr & HT & Hix).
    exists table, ch, tr, T. rewrite (proj1 Hsp _ _ Ht). by split_and!.
Qed.

Section table_rows.
Context (m m' : gmap PageId bytes) (c : CatalogState) (d : Db) (first : PageId) (rows : chain).
Hypothesis Hok : db_ok m c d.
Hypothesis Hfirst : catalog_first_page c = Some first.
Hypothesis Hs : same_elsewhere (db_table_rows d) m m'.
Hypothesis Hh : heap_ok m' first rows.
Hypothesis Hgr : grows m (db_table_rows d) rows.

Lemma table_rows_layout : laid_out m' (with_table_rows rows d) /\ (forall p q, p <> PTableRows -> q ∈ part_pages d p -> m' !! q = m !! q).
Proof.
  destruct (part_update m m' d (with_table_rows rows d) PTableRows (ok_layout _ _ _ _ Hok)) as [Hlay Hk].
  { intros p Hp. by apply with_table_rows_pages. }
  { apply Hgr. }
  { exact Hs. }
  { cbn. intros q. by apply heap_pages_stored with first. }
  done.
Qed.

(** Rows of the table catalog that are those of [c'], a catalog with the tables of [c] and perhaps one more. *)
Lemma table_rows_change c' : catalog_ok c' -> catalog_first_page c' = Some first -> index_catalog_first_page c' = index_catalog_first_page c ->
  (forall i, index_by_id c' i = index_by_id c i) -> indexes_by_name c' = indexes_by_name c ->
  (forall t info, get_table_by_id c t = Ok info -> get_table_by_id c' t = Ok info) ->
  (forall t info, get_table_by_id c' t = Ok info -> get_table_by_id c t = Ok info \/ exists ch, db_tables d !! t = Some ch /\ table_ok m' info ch) ->
  (heap_list rows).*2 ≡ₚ encode_table_info <$> table_infos c' -> Forall wf_table_info (table_infos c') ->
  db_ok m' c' (with_table_rows rows d).
Proof.
  intros Hc' Hf' Hfi Hib Hin Ht1 Ht2 Hrows Hwf. destruct table_rows_layout as [Hlay Hk]. split; [done | | | | | | done | | | | done].
  - intros t info Ht. destruct (Ht2 t info Ht) as [Ht' | (ch & Hch & Hto)]; [| by exists ch].
    destruct (ok_tables _ _ _ _ Hok t info Ht') as (ch & Hch & Hto). exists ch. split; [done |].
    eapply table_ok_frame; [done |]. intros q Hq. apply (Hk (PTable t)); [done |]. cbn. by rewrite Hch.
  - intros i info. rewrite Hib. intros Hi. destruct (ok_indexes _ _ _ _ Hok i info Hi) as (table & ch & tr & T & Ht & Hch & Htr & HT & Hix).
    exists table, ch, tr, T. split_and!; [by apply Ht1 | done | done | done |]. eapply index_ok_frame; [done |]. intros q Hq. apply (Hk (PIndex i)); [done |]. cbn. by rewrite Htr.
  - intros i info table. rewrite Hib. intros Hi Ht. destruct (ok_indexes _ _ _ _ Hok i info Hi) as (table0 & _ & _ & _ & Ht0 & _).
    pose proof (Ht1 _ _ Ht0). assert (table0 = table) as -> by congruence. by eapply (ok_columns _ _ _ _ Hok).
  - rewrite Hf', Hfi, <- Hfirst. destruct (ok_header _ _ _ _ Hok) as (b & Hb & Hr). exists b. split; [| done]. rewrite <- Hb. apply (Hk PHeader); [done |]. cbn. set_solver.
  - by rewrite Hf'.
  - rewrite Hfi. eapply catalog_heap_frame; [apply Hok |]. intros q Hq. by apply (Hk PIndexRows).
  - unfold index_infos. rewrite Hin. apply Hok.
  - unfold index_infos. rewrite Hin. split; [done | apply Hok].
Qed.
End table_rows.

Lemma get_table_insert c info t : catalog_ok c -> tables_by_name c !! info_name info = None ->
  get_table_by_id (insert_table info c) t = if decide (t = table_id info) then Ok info else get_table_by_id c t.
Proof.
  intros Hc Hn. unfold get_table_by_id, table_by_id, insert_table. cbn [tables_by_id tables_by_name]. case_decide as E.
  - subst t. rewrite lookup_insert_eq. cbn. by rewrite lookup_insert_eq.
  - rewrite lookup_insert_ne by done. destruct (tables_by_id c !! t) as [name |] eqn:El; [| done]. cbn.
    destruct (table_of_id c Hc _ _ El) as (_ & info' & Hl & _). rewrite lookup_insert_ne; [done |]. congruence.
Qed.
Lemma table_infos_insert c info : tables_by_name c !! info_name info = None -> table_infos (insert_table info c) ≡ₚ info :: table_infos c.
Proof. intros Hn. unfold table_infos, insert_table. cbn [tables_by_name]. by rewrite map_to_list_insert. Qed.

(** What [create_table] did. *)
Definition table_created (c : CatalogState) (d : Db) (name : bytes) (sch : Schema) (info : TableInfo) (m' : gmap PageId bytes) (c' : CatalogState) : Prop :=
  tables_by_name c !! name = None /\ table_id info = next_table_id c /\ info_name info = name /\ schema info = sch
  /\ tables_by_name c' = <[name := info]> (tables_by_name c) /\ indexes_by_name c' = indexes_by_name c
  /\ (forall i, index_by_id c' i = index_by_id c i) /\ next_table_id c' = next_table_id c + 1 /\ next_index_id c' = next_index_id c
  /\ get_table_by_id c' (table_id info) = Ok info
  /\ exists d', db_ok m' c' d' /\ same_pages c d d' /\ db_tables d' !! table_id info = Some [(first_page_id info, [])].

Section create_table.
Context {P : Type} `{!PageStore P, !PageStoreLaws P}.
Implicit Types (m : gmap PageId bytes) (c : CatalogState).

(** The row of the catalog is stored and the table registered. *)
Lemma register_table m m' c d q rows rows' rid info : db_ok m c (with_table_rows rows d) -> catalog_first_page c = Some q ->
  tables_by_name c !! info_name info = None -> table_id info = next_table_id c -> 0 <= next_table_id c < u32_max -> wf_table_info info ->
  db_tables d !! table_id info = Some [(first_page_id info, [])] -> heap_ok m (first_page_id info) [(first_page_id info, [])] -> heap_ok m q rows ->
  same_elsewhere rows m m' -> heap_get rows rid = None -> heap_ok m' q rows' -> grows m rows rows' ->
  (forall r, heap_get rows' r = if decide (r = rid) then Some (encode_table_info info) else heap_get rows r) ->
  db_ok m' (insert_table info c) (with_table_rows rows' d).
Proof.
  intros Hok Hq Hn Hid Hnext Hwf Hpages Hheap Hrows Hs Hnone Hrows' Hgr Hget. pose proof (ok_catalog _ _ _ _ Hok) as Hc.
  destruct (table_rows_layout m m' c (with_table_rows rows d) q rows' Hok Hs Hrows' Hgr) as [_ Hk].
  apply (table_rows_change m m' c (with_table_rows rows d) q rows' Hok Hq Hs Hrows' Hgr (insert_table info c)).
  - by apply insert_table_ok.
  - done.
  - done.
  - done.
  - done.
  - intros t info' Ht. rewrite get_table_insert by done. case_decide as E; [| done]. subst t. rewrite Hid in Ht. by apply fresh_id_not_found in Ht.
  - intros t info'. rewrite get_table_insert by done. case_decide as E; [| by left]. intros [= <-]. subst t. right. eexists. split; [exact Hpages |].
    split; [| by apply Forall_nil]. eapply heap_ok_frame; [exact Hheap |]. intros p Hp. apply (Hk (PTable (table_id info))); [done |].
    cbn. by rewrite Hpages.
  - destruct Hrows as (_ & _ & _ & Hnd), Hrows' as (_ & _ & _ & Hnd'). rewrite (heap_list_add _ _ _ _ Hnd Hnd' Hnone Hget), table_infos_insert by done.
    cbn. constructor. apply Hok.
  - rewrite table_infos_insert by done. constructor; [done | apply Hok].
Qed.

(** The row could not be stored. *)
Lemma row_not_stored m m' c d q rows rows' : db_ok m c (with_table_rows rows d) -> catalog_first_page c = Some q -> heap_ok m q rows ->
  same_elsewhere rows m m' -> heap_ok m' q rows' -> grows m rows rows' -> (forall r, heap_get rows' r = heap_get rows r) ->
  db_ok m' c (with_table_rows rows' d).
Proof.
  intros Hok Hq Hrows Hs Hrows' Hgr Hget.
  apply (table_rows_change m m' c (with_table_rows rows d) q rows' Hok Hq Hs Hrows' Hgr c); try done; try apply Hok.
  - intros t info Ht. by left.
  - destruct Hrows as (_ & _ & _ & Hnd), Hrows' as (_ & _ & _ & Hnd'). rewrite (heap_list_same _ _ Hnd Hnd' Hget). apply Hok.
Qed.

(** Storing the row and registering the table, with the heap of the catalog at hand. *)
Lemma insert_table_row_spec n m c d q rows t fuel info : db_ok m c (with_table_rows rows d) -> catalog_first_page c = Some q ->
  tables_by_name c !! info_name info = None -> table_id info = next_table_id c -> 0 <= next_table_id c < u32_max -> wf_table_info info ->
  db_tables d !! table_id info = Some [(first_page_id info, [])] -> heap_ok m (first_page_id info) [(first_page_id info, [])] -> heap_ok m q rows ->
  (length rows < fuel)%nat ->
  ctriple (6 + n) m c (_ ← on_store (insert_tuple fuel t q (encode_table_info info)); _ ← on_state (insert_table info); mret info : M (CatSys P) CatalogError TableInfo) n
    (fun r m' c' => r = info /\ c' = insert_table info c /\ exists rows', db_ok m' c' (with_table_rows rows' d))
    (fun m' c' => c' = c /\ exists rows', db_ok m' c (with_table_rows rows' d)).
Proof.
  intros Hok Hq Hn Hid Hnext Hwf Hpages Hheap Hrows Hfuel.
  destruct (decide (len (encode_table_info info) <= MAX_TUPLE_SIZE)) as [Hfit | Hbig].
  2: { eapply (ctriple_bind _ _ _ _ _ (6 + n)); [eapply ctriple_mono; [apply ctriple_store, (insert_tuple_too_large (6 + n) m t fuel q); lia | intros ? ? ? H; exact H |] | lia | by intros ? ? ? [[] _]].
       intros m' c' [-> ->]. split; [done |]. by exists rows. }
  assert (Hne : 0 < len (encode_table_info info)) by by apply encoded_nonempty.
  eapply (ctriple_bind _ _ _ _ _ n).
  { eapply ctriple_mono; [apply ctriple_store, (insert_tuple_chain_spec n m t fuel q rows (encode_table_info info) Hrows); [lia | done] | intros ? ? ? H; exact H |].
    intros m' c' [(Hs & rows' & Hr' & Hgr & Hget) ->]. split; [done |]. exists rows'. by eapply row_not_stored. }
  { lia. }
  cbn beta. intros rid m' ? [(Hs & Hnone & rows' & Hr' & Hgr & Hget) ->].
  eapply (ctriple_bind _ _ _ _ _ n); [apply ctriple_state | done |]. cbn beta. intros _ ? ? [-> ->]. apply ctriple_ret; [done |].
  split_and!; [done | done |]. exists rows'. by eapply register_table.
Qed.

Lemma same_pages_rows c d d' rows : same_pages c d d' -> same_pages c d (with_table_rows rows d').
Proof. done. Qed.

Lemma create_table_spec n m c d t fuel name sch : db_ok m c d -> 0 <= next_table_id c < u32_max -> Utf8.valid name = true -> len name < 2 ^ 32 -> wf_schema sch ->
  (S (length (db_table_rows d)) < fuel)%nat ->
  ctriple (11 + n) m c (create_table fuel t name sch : M (CatSys P) CatalogError TableInfo) n (table_created c d name sch) (unchanged c d).
Proof.
  intros Hok Hnext Hv Hlen Hsch Hfuel. unfold create_table. apply (ctriple_gets _ _ _ (fun c => c)). destruct (tables_by_name c !! name) as [info |] eqn:En.
  { apply ctriple_throw; [lia |]. by apply (unchanged_refl m). }
  eapply (ctriple_bind _ _ _ _ _ (9 + n)).
  { eapply ctriple_mono; [apply ctriple_store, (heap_create_spec (9 + n) m t) | intros ? ? ? H; exact H |]. intros m' c' [Hs ->]. apply (unchanged_refl m'). by eapply db_subset. }
  { lia. }
  cbn beta. intros p m1 ? [(Hf & Hs & Hh) ->]. destruct (db_new_table m m1 c d p Hok Hs Hf Hh) as [Hok1 Hsp].
  set (d1 := with_table (next_table_id c) [(p, [])] d) in *. set (info := mkTableInfo (next_table_id c) name sch p).
  apply ctriple_stored. intros s1 [Hs1 Em1]. assert (Hp : 0 <= p < u32_max).
  { destruct (heap_pages_stored _ _ _ p Hh) as [b Hb]; [cbn; set_solver |]. rewrite <- Em1 in Hb. by eapply page_id_range. }
  eapply (ctriple_bind _ _ _ _ _ (6 + n)).
  { eapply ctriple_mono; [apply (ensure_catalog_heap_spec (6 + n) m1 c d1 t Hok1) | intros ? ? ? H; exact H |]. intros m' c' (-> & _ & Hok'). split; [by split_and! |]. by exists d1. }
  { lia. }
  cbn beta. intros q m2 ? (-> & Hk & rows & Hok2 & Hrows & Hlr). assert (Ht1 : db_tables d1 !! table_id info = Some [(p, [])]) by (cbn; by rewrite lookup_insert_eq).
  eapply ctriple_mono; [apply (insert_table_row_spec n m2 (with_catalog_first_page q c) d1 q rows t fuel info Hok2) | |]; try done.
  - split_and!; [unfold in_u, u32_max in *; cbn; lia | unfold in_u, u32_max in *; cbn; lia | done | done | done].
  - eapply heap_ok_frame; [exact Hh |]. intros r ->%list_elem_of_singleton. apply (Hk (PTable (next_table_id c))); [done |]. cbn. rewrite lookup_insert_eq. cbn. set_solver.
  - cbn in Hlr. lia.
  - intros r m' c' (-> & -> & rows' & Hok'). split_and!; [done.. | | done | |].
    + unfold insert_table. cbn. by rewrite next_id_bump.
    + rewrite get_table_insert; [by rewrite decide_True | apply Hok2 | done].
    + eexists. split_and!; [exact Hok' | by apply same_pages_rows | done].
  - intros m' c' (-> & rows' & Hok'). split; [by split_and! |]. eexists. split; [exact Hok' | by apply same_pages_rows].
Qed.
End create_table.

(** ** A new index *)
Lemma fresh_index_not_found c : catalog_ok c -> forall info, index_by_id c (next_index_id c) <> Ok info.
Proof.
  intros Hc info. unfold index_by_id. destruct (indexes_by_id c !! next_index_id c) as [name |] eqn:E; [| done].
  destruct (index_of_id c Hc _ _ E). lia.
Qed.

(** The pages of an index that is not in the catalog yet. *)
Lemma db_new_index m m' c d i tr : db_ok m c d -> (forall info, index_by_id c i <> Ok info) ->
  fresh_or m (part_pages d (PIndex i)) (tree_pages (tree_leaves tr) (tree_levels tr)) -> same_outside (part_pages d (PIndex i)) m m' ->
  (forall q, q ∈ tree_pages (tree_leaves tr) (tree_levels tr) -> is_Some (m' !! q)) ->
  db_ok m' c (with_index i tr d) /\ same_pages c d (with_index i tr d) /\ parts_kept (with_index i (mkTree [] []) d) m m'.
Proof.
  intros Hok Hi Hf Hs Hst.
  assert (Hsp : same_pages c d (with_index i tr d)).
  { split; [done |]. intros j info Hj. cbn. rewrite lookup_insert_ne; [done |]. intros <-. by apply (Hi info). }
  destruct (part_update m m' d (with_index i tr d) (PIndex i) (ok_layout _ _ _ _ Hok)) as [Hlay Hk].
  { intros p Hp. by apply with_index_pages. }
  { cbn. by rewrite lookup_insert_eq. }
  { exact Hs. }
  { cbn. by rewrite lookup_insert_eq. }
  assert (Hkeep : forall p q, q ∈ part_pages (with_index i (mkTree [] []) d) p -> m' !! q = m !! q).
  { intros p q Hq. destruct (decide (p = PIndex i)) as [-> | Hp]; [cbn in Hq; rewrite lookup_insert_eq in Hq; by apply not_elem_of_nil in Hq |].
    rewrite with_index_pages in Hq by done. by apply (Hk p). }
  split_and!; [| done | intros p q _ Hq; by apply (Hkeep p)].
  assert (Hok0 : db_ok m c (with_index i (mkTree [] []) d)).
  { split; [apply Hok | apply Hok | | apply Hok | apply Hok | apply Hok | apply Hok | apply Hok | apply Hok | apply Hok |].
    - intros j info Hj. destruct (ok_indexes _ _ _ _ Hok j info Hj) as (table & ch & tr0 & T & Ht & Hch & Htr & HT & Hix). exists table, ch, tr0, T. split_and!; [done | done | | done | done].
      cbn. rewrite lookup_insert_ne; [done |]. intros <-. by apply (Hi info).
    - destruct (ok_layout _ _ _ _ Hok) as [H1 H2].
      assert (Hsub : forall p q, q ∈ part_pages (with_index i (mkTree [] []) d) p -> q ∈ part_pages d p).
      { intros p q Hq. destruct (decide (p = PIndex i)) as [-> | Hp]; [cbn in Hq; rewrite lookup_insert_eq in Hq; by apply not_elem_of_nil in Hq | by rewrite with_index_pages in Hq]. }
      split; [intros p q Hq; by apply (H1 p), Hsub |]. intros p p' Hne q Hq Hq'. by apply (H2 p p' Hne q); apply Hsub. }
  pose proof (db_frame _ _ m' _ _ Hok0 Hkeep) as Hok1.
  split; [apply Hok1 | apply Hok1 | | apply Hok1 | apply Hok1 | apply Hok1 | apply Hok1 | apply Hok1 | apply Hok1 | apply Hok1 | done].
  intros j info Hj. destruct (ok_indexes _ _ _ _ Hok1 j info Hj) as (table & ch & tr0 & T & Ht & Hch & Htr & HT & Hix). exists table, ch, tr0, T. split_and!; [done | done | | done | done].
  cbn in Htr |- *. rewrite lookup_insert_ne in Htr |- *; [done | |]; intros <-; by apply (Hi info).
Qed.

Section index_rows.
Context (m m' : gmap PageId bytes) (c : CatalogState) (d : Db) (first : PageId) (rows : chain).
Hypothesis Hok : db_ok m c d.
Hypothesis Hfirst : index_catalog_first_page c = Some first.
Hypothesis Hs : same_elsewhere (db_index_rows d) m m'.
Hypothesis Hh : heap_ok m' first rows.
Hypothesis Hgr : grows m (db_index_rows d) rows.

Lemma index_rows_layout : laid_out m' (with_index_rows rows d) /\ (forall p q, p <> PIndexRows -> q ∈ part_pages d p -> m' !! q = m !! q).
Proof.
  destruct (part_update m m' d (with_index_rows rows d) PIndexRows (ok_layout _ _ _ _ Hok)) as [Hlay Hk].
  { intros p Hp. by apply with_index_rows_pages. }
  { apply Hgr. }
  { exact Hs. }
  { cbn. intros q. by apply heap_pages_stored with first. }
  done.
Qed.

(** Rows of the index catalog that are those of [c'], a catalog with the indexes of [c] and perhaps one more. *)
Lemma index_rows_change c' : catalog_ok c' -> index_catalog_first_page c' = Some first -> catalog_first_page c' = catalog_first_page c ->
  (forall t, get_table_by_id c' t = get_table_by_id c t) -> tables_by_name c' = tables_by_name c ->
  (forall i info, index_by_id c' i = Ok info -> index_by_id c i = Ok info \/ exists table ch tr, get_table_by_id c (index_table_id info) = Ok table
     /\ db_tables d !! index_table_id info = Some ch /\ db_indexes d !! i = Some tr /\ is_Some (index (column_types table) (index_column_index info))
     /\ index_ok m' info (tuples (column_types table) ch) tr) ->
  heap_list rows ≡ₚ (fun i => (catalog_rid i, index_row i)) <$> index_infos c' -> Forall index_info_ok (index_infos c') ->
  db_ok m' c' (with_index_rows rows d).
Proof.
  intros Hc' Hf' Hfi Hib Hin Hix Hrows Hwf. destruct index_rows_layout as [Hlay Hk]. split; [done | | | | | | | | done | | done].
  - intros t info. rewrite Hib. intros Ht. destruct (ok_tables _ _ _ _ Hok t info Ht) as (ch & Hch & Hto). exists ch. split; [done |].
    eapply table_ok_frame; [done |]. intros q Hq. apply (Hk (PTable t)); [done |]. cbn. by rewrite Hch.
  - intros i info Hi. destruct (Hix i info Hi) as [Hi' | (table & ch & tr & Ht & Hch & Htr & _ & Hio)].
    + destruct (ok_indexes _ _ _ _ Hok i info Hi') as (table & ch & tr & T & Ht & Hch & Htr & HT & Hio).
      exists table, ch, tr, T. rewrite Hib. split_and!; [done | done | done | done |]. eapply index_ok_frame; [done |]. intros q Hq. apply (Hk (PIndex i)); [done |]. cbn. by rewrite Htr.
    + exists table, ch, tr, (tuples (column_types table) ch). rewrite Hib. by split_and!.
  - intros i info table Hi. rewrite Hib. intros Ht. destruct (Hix i info Hi) as [Hi' | (table0 & ch & tr & Ht0 & _ & _ & Hcol & _)].
    + by eapply (ok_columns _ _ _ _ Hok).
    + by assert (table0 = table) as -> by congruence.
  - rewrite Hf', Hfi, <- Hfirst. destruct (ok_header _ _ _ _ Hok) as (b & Hb & Hr). exists b. split; [| done]. rewrite <- Hb. apply (Hk PHeader); [done |]. cbn. set_solver.
  - rewrite Hfi. eapply catalog_heap_frame; [apply Hok |]. intros q Hq. by apply (Hk PTableRows).
  - unfold table_infos. rewrite Hin. apply Hok.
  - by rewrite Hf'.
  - unfold table_infos. rewrite Hin. split; [apply Hok | done].
Qed.
End index_rows.

Lemma index_by_id_insert c info i : catalog_ok c -> indexes_by_name c !! index_info_name info = None ->
  index_by_id (insert_index info c) i = if decide (i = index_id info) then Ok info else index_by_id c i.
Proof.
  intros Hc Hn. unfold index_by_id, insert_index. cbn [indexes_by_id indexes_by_name]. case_decide as E.
  - subst i. rewrite lookup_insert_eq. cbn. by rewrite lookup_insert_eq.
  - rewrite lookup_insert_ne by done. destruct (indexes_by_id c !! i) as [name |] eqn:El; [| done]. cbn.
    destruct (index_of_id c Hc _ _ El) as (_ & info' & Hl & _). rewrite lookup_insert_ne; [done |]. congruence.
Qed.
Lemma index_infos_insert c info : indexes_by_name c !! index_info_name info = None -> index_infos (insert_index info c) ≡ₚ info :: index_infos c.
Proof. intros Hn. unfold index_infos, insert_index. cbn [indexes_by_name]. by rewrite map_to_list_insert. Qed.

(** What creating an index did: the index is registered for its table, its tree has the rows of the table. *)
Definition index_created (c : CatalogState) (d : Db) (name : bytes) (table : TableId) (column : Z) (info : IndexInfo) (m' : gmap PageId bytes)
    (c' : CatalogState) : Prop :=
  indexes_by_name c !! name = None /\ index_id info = next_index_id c /\ index_info_name info = name /\ index_table_id info = table /\ index_column_index info = column
  /\ indexes_by_name c' = <[name := info]> (indexes_by_name c) /\ tables_by_name c' = tables_by_name c
  /\ (forall t, get_table_by_id c' t = get_table_by_id c t) /\ next_index_id c' = next_index_id c + 1 /\ next_table_id c' = next_table_id c
  /\ index_by_id c' (index_id info) = Ok info /\ index_id info ∈ (index_id <$> indexes_for_table c' table)
  /\ exists d', db_ok m' c' d' /\ same_pages c d d'.

Section create_index.
Context {P : Type} `{!PageStore P, !PageStoreLaws P}.
Implicit Types (m : gmap PageId bytes) (c : CatalogState).
Context (m : gmap PageId bytes) (c : CatalogState) (d : Db) (name : bytes) (t : TableId) (column : Z) (root : PageId).
Context (table : TableInfo) (ch : chain) (tr : Tree).
Abbreviation id := (next_index_id c).
Abbreviation new_info rid := (mkIndexInfo id name t column rid (len (encode_index_row id name t column root) - 4) root).
Hypothesis Hnext : 0 <= next_index_id c < u32_max.
Hypothesis Hname : Utf8.valid name = true /\ len name < 2 ^ 32.
Hypothesis Hcol : 0 <= column < 2 ^ 31 /\ is_Some (index (column_types table) column).
Hypothesis Htable : get_table_by_id c t = Ok table.
Hypothesis Hch : db_tables d !! t = Some ch.
Hypothesis Htr : db_indexes d !! next_index_id c = Some tr.

Lemma register_index m' q rows rows' rid : db_ok m c (with_index_rows rows d) -> index_catalog_first_page c = Some q ->
  indexes_by_name c !! name = None -> in_u 32 t -> in_u 32 root -> index_ok m (new_info rid) (tuples (column_types table) ch) tr -> heap_ok m q rows ->
  same_elsewhere rows m m' -> heap_get rows rid = None -> heap_ok m' q rows' -> grows m rows rows' ->
  (forall r, heap_get rows' r = if decide (r = rid) then Some (encode_index_row id name t column root) else heap_get rows r) ->
  db_ok m' (insert_index (new_info rid) c) (with_index_rows rows' d).
Proof.
  intros Hok Hq Hn Ht Hroot Hix Hrows Hs Hnone Hrows' Hgr Hget. pose proof (ok_catalog _ _ _ _ Hok) as Hc. set (info := new_info rid) in *.
  destruct (index_rows_layout m m' c (with_index_rows rows d) q rows' Hok Hs Hrows' Hgr) as [_ Hk].
  apply (index_rows_change m m' c (with_index_rows rows d) q rows' Hok Hq Hs Hrows' Hgr (insert_index info c)).
  - by apply insert_index_ok.
  - done.
  - done.
  - done.
  - done.
  - intros i info'. rewrite index_by_id_insert by done. case_decide as E; [| by left]. intros [= <-]. subst i. right. exists table, ch, tr.
    split; [done |]. split; [done |]. split; [done |]. split; [apply Hcol |]. eapply index_ok_frame; [exact Hix |]. intros p Hp.
    apply (Hk (PIndex id)); [done |]. cbn. by rewrite Htr.
  - destruct Hrows as (_ & _ & _ & Hnd), Hrows' as (_ & _ & _ & Hnd'). rewrite (heap_list_add _ _ _ _ Hnd Hnd' Hnone Hget), index_infos_insert by done.
    cbn. constructor. apply Hok.
  - rewrite index_infos_insert by done. constructor; [| apply Hok]. split; [| done]. destruct Hname, Hcol as [Hcol' _].
    unfold wf_index_info, in_u, u32_max in *. cbn. split_and!; (done || lia).
Qed.
Lemma index_row_not_stored m' q rows rows' : db_ok m c (with_index_rows rows d) -> index_catalog_first_page c = Some q -> heap_ok m q rows ->
  same_elsewhere rows m m' -> heap_ok m' q rows' -> grows m rows rows' -> (forall r, heap_get rows' r = heap_get rows r) ->
  db_ok m' c (with_index_rows rows' d).
Proof.
  intros Hok Hq Hrows Hs Hrows' Hgr Hget.
  apply (index_rows_change m m' c (with_index_rows rows d) q rows' Hok Hq Hs Hrows' Hgr c); try done; try apply Hok.
  - intros i info Hi. by left.
  - destruct Hrows as (_ & _ & _ & Hnd), Hrows' as (_ & _ & _ & Hnd'). rewrite (heap_list_same _ _ Hnd Hnd' Hget). apply Hok.
Qed.
End create_index.

Lemma index_ok_info m info info' T tr : root_page_id info' = root_page_id info -> index_column_index info' = index_column_index info ->
  index_ok m info T tr -> index_ok m info' T tr.
Proof. intros Hr Hc [H1 H2 H3]. split; [by rewrite Hr | by rewrite Hc | by rewrite Hc]. Qed.

(** A tree with the rows of a table, not in the catalog yet. *)
Record index_built (m : gmap PageId bytes) (c : CatalogState) (d : Db) (t : TableId) (column : Z) (root : PageId) : Prop := {
  built_column : 0 <= column < 2 ^ 31;
  built_tree : exists table ch tr, get_table_by_id c t = Ok table /\ db_tables d !! t = Some ch /\ db_indexes d !! next_index_id c = Some tr
    /\ is_Some (index (column_types table) column)
    /\ index_ok m (mkIndexInfo (next_index_id c) [] t column (mkRid 0 0) 0 root) (tuples (column_types table) ch) tr;
}.

Section create_index_spec.
Context {P : Type} `{!PageStore P, !PageStoreLaws P}.
Implicit Types (m : gmap PageId bytes) (c : CatalogState).

Lemma insert_index_row_spec n m c d q rows t' fuel name t column root : db_ok m c (with_index_rows rows d) -> index_catalog_first_page c = Some q ->
  indexes_by_name c !! name = None -> 0 <= next_index_id c < u32_max -> Utf8.valid name = true -> len name < 2 ^ 32 -> in_u 32 t -> in_u 32 root ->
  index_built m c d t column root -> heap_ok m q rows -> (length rows < fuel)%nat ->
  let row := encode_index_row (next_index_id c) name t column root in
  ctriple (6 + n) m c (rid ← on_store (insert_tuple fuel t' q row);
    let info := mkIndexInfo (next_index_id c) name t column rid (len row - 4) root in _ ← on_state (insert_index info); mret info : M (CatSys P) CatalogError IndexInfo) n
    (fun r m' c' => (exists rid, r = mkIndexInfo (next_index_id c) name t column rid (len row - 4) root) /\ c' = insert_index r c /\ exists rows', db_ok m' c' (with_index_rows rows' d))
    (fun m' c' => c' = c /\ exists rows', db_ok m' c (with_index_rows rows' d)).
Proof.
  intros Hok Hq Hn Hnext Hv Hlen Ht Hroot [Hcol (table & ch & tr & Htable & Hch & Htr & Hcol' & Hix)] Hrows Hfuel row.
  destruct (decide (len row <= MAX_TUPLE_SIZE)) as [Hfit | Hbig].
  2: { eapply (ctriple_bind _ _ _ _ _ (6 + n)); [eapply ctriple_mono; [apply ctriple_store, (insert_tuple_too_large (6 + n) m t' fuel q); lia | intros ? ? ? H; exact H |] | lia | by intros ? ? ? [[] _]].
       intros m' c' [-> ->]. split; [done |]. by exists rows. }
  assert (Hne : 0 < len row) by by apply encoded_nonempty.
  eapply (ctriple_bind _ _ _ _ _ n).
  { eapply ctriple_mono; [apply ctriple_store, (insert_tuple_chain_spec n m t' fuel q rows row Hrows); [lia | done] | intros ? ? ? H; exact H |].
    intros m' c' [(Hs & rows' & Hr' & Hgr & Hget) ->]. split; [done |]. exists rows'. by eapply index_row_not_stored. }
  { lia. }
  cbn beta. intros rid m' ? [(Hs & Hnone & rows' & Hr' & Hgr & Hget) ->]. cbn zeta.
  eapply (ctriple_bind _ _ _ _ _ n); [apply ctriple_state | done |]. cbn beta. intros _ ? ? [-> ->]. apply ctriple_ret; [done |].
  split_and!; [by exists rid | done |]. exists rows'. eapply (register_index m c d name t column root table ch tr); try done.
  by eapply index_ok_info; [| | exact Hix].
Qed.

Lemma create_index_with_root_spec n m c d t' fuel name t column root : db_ok m c d -> 0 <= next_index_id c < u32_max -> Utf8.valid name = true -> len name < 2 ^ 32 ->
  in_u 32 t -> in_u 32 root -> index_built m c d t column root -> (S (length (db_index_rows d)) < fuel)%nat ->
  ctriple (9 + n) m c (create_index_with_root fuel t' name t column root : M (CatSys P) CatalogError IndexInfo) n (index_created c d name t column) (unchanged c d).
Proof.
  intros Hok Hnext Hv Hlen Ht Hroot Hb Hfuel. unfold create_index_with_root. apply (ctriple_gets _ _ _ (fun c => c)).
  destruct (indexes_by_name c !! name) as [info |] eqn:En.
  { apply ctriple_throw; [lia |]. by apply (unchanged_refl m). }
  eapply (ctriple_bind _ _ _ _ _ (6 + n)).
  { eapply ctriple_mono; [apply (ensure_index_catalog_heap_spec (6 + n) m c d t' Hok) | intros ? ? ? H; exact H |]. intros m' c' (-> & _ & Hok'). by apply (unchanged_refl m'). }
  { lia. }
  cbn beta. intros q m2 ? (-> & Hk & rows & Hok2 & Hrows & Hlr).
  eapply ctriple_mono; [apply (insert_index_row_spec n m2 (with_index_catalog_first_page q c) d q rows t' fuel name t column root Hok2) | |]; try done.
  - destruct Hb as [Hcol (table & ch & tr & Htable & Hch & Htr & Hcol' & Hix)]. split; [done |]. exists table, ch, tr. split_and!; try done.
    eapply index_ok_frame; [exact Hix |]. intros p Hp. apply (Hk (PIndex (next_index_id c))); [done |]. cbn. by rewrite Htr.
  - lia.
  - intros r m' c' ([rid ->] & -> & rows' & Hok'). split_and!; try done.
    + unfold insert_index. cbn. by rewrite next_id_bump.
    + rewrite index_by_id_insert; [by rewrite decide_True | apply Hok2 | done].
    + rewrite indexes_for_table_ids by apply Hok'. cbn. rewrite lookup_insert_eq. cbn. set_solver.
    + by eexists.
  - intros m' c' (-> & rows' & Hok'). split; [by split_and! |]. by eexists.
Qed.
End create_index_spec.
