(* ===== verification/CatalogReload.v ===== *)
(** * Reading the catalog back

    [reload] builds the catalog from the rows on the pages: whatever is in memory, what it leaves there is
    the catalog those rows describe. *)
From stdpp Require Import sorting.
From S2P Require Import Prelude Text Value Memcomparable Tuple Common Errors Page Header Slots Heap HeapPage HeapSpec.
From S2P Require Import BtreeNode Btree BtreePage BtreeWrites BtreeTree BtreeSpec BtreeInsert BtreeScan.
From S2P Require Import Catalog CatalogStore Executor Database DatabaseFrames Inserts CatalogSpec.

(** ** Reading rows *)
Fixpoint load_all (f : Rid -> bytes -> CatalogState -> outcome CatalogError CatalogState) (l : list (Rid * bytes)) (fresh : CatalogState) :
    outcome CatalogError CatalogState :=
  match l with
  | [] => Ok fresh
  | (rid, row) :: l => fresh ← f rid row fresh; load_all f l fresh
  end.

Section load.
Context {P : Type} `{!PageStore P, !PageStoreLaws P}.

Lemma load_rows_spec n m c f : forall l ch steps fuel it fresh r, heap_rep m ch -> current_page it = next_of ch -> buffered it ++ heap_list ch = l ->
  (length ch + 1 < fuel)%nat -> (length l < steps)%nat -> load_all f l fresh = Ok r ->
  ctriple n m c (load_rows steps fuel f it fresh : M (CatSys P) CatalogError CatalogState) n (fun r' m' c' => r' = r /\ m' = m /\ c' = c) (fun m' c' => m' = m /\ c' = c).
Proof.
  intros l. induction l as [| [rid row] l IH]; intros ch steps fuel it fresh r Hrep Hat Hl Hf Hk Hr p Hp; (destruct steps as [| steps]; [lia |]);
    cbn [load_rows cat cat_pool]; pose proof (iter_next_spec n m ch Hrep fuel it p Hp Hat Hf) as Hx;
    destruct (iter_next fuel it p) as [[[[[rid' row'] | x |] |] it'] p']; try done; try (by exists m).
  - destruct Hx as (_ & ch' & _ & _ & _ & E). congruence.
  - destruct Hx as [_ Hp']. exists m. split; [done |]. cbn in Hr. by injection Hr as ->.
  - destruct Hx as (Hp' & ch' & Hat' & Hrep' & Hlen & E). rewrite Hl in E. injection E as <- <- E.
    cbn in Hr. destruct (f rid row fresh) as [fresh' | |] eqn:Ef; [| done | done]. cbn in Hr.
    apply suffix_length in Hlen. apply (IH ch' steps fuel it' fresh' r Hrep' Hat'); [done | lia | cbn in Hk; lia | done | done].
  - destruct Hx as [E _]. congruence.
Qed.
End load.

(** ** The catalog the rows describe *)
Lemma load_tables infos : Forall wf_table_info infos -> forall l fresh, l.*2 = encode_table_info <$> infos ->
  load_all load_table l fresh = Ok (foldl (fun s i => insert_table i s) fresh infos).
Proof.
  induction 1 as [| i infos Hi _ IH]; intros [| [rid row] l] fresh; try done. rewrite !fmap_cons. intros E.
  pose proof (f_equal head E) as Er%(inj Some). pose proof (f_equal tail E) as Hl. cbn [snd tail] in Er, Hl.
  assert (Ei : load_table rid row fresh = Ok (insert_table i fresh)) by (unfold load_table; by rewrite Er, decode_table_info_encode).
  cbn [load_all]. rewrite Ei. by apply IH.
Qed.
Lemma load_indexes infos : Forall index_info_ok infos -> forall l fresh, l = (fun i => (catalog_rid i, index_row i)) <$> infos ->
  load_all load_index l fresh = Ok (foldl (fun s i => insert_index i s) fresh infos).
Proof.
  induction 1 as [| i infos [Hi Ho] _ IH]; intros l fresh ->; [done |].
  assert (Ei : load_index (catalog_rid i) (index_row i) fresh = Ok (insert_index i fresh)).
  { unfold load_index. rewrite decode_index_row_encode by done. cbn [mbind outcome_bind]. rewrite <- Ho. by destruct i. }
  cbn [fmap list_fmap load_all]. rewrite Ei. by apply IH.
Qed.

Section fold_tables.
Implicit Types (infos : list TableInfo) (s : CatalogState).
Abbreviation add_tables := (foldl (fun s i => insert_table i s)).

Lemma add_tables_ok infos : forall s, catalog_ok s -> NoDup (info_name <$> infos) -> NoDup (table_id <$> infos) ->
  Forall (fun i => 0 <= table_id i < u32_max) infos ->
  (forall i, i ∈ infos -> tables_by_name s !! info_name i = None /\ tables_by_id s !! table_id i = None) -> catalog_ok (add_tables s infos).
Proof.
  induction infos as [| i infos IH]; intros s Hs Hn Hid Hb Hfresh; [done |]. apply NoDup_cons in Hn as [Hni Hn]. apply NoDup_cons in Hid as [Hii Hid].
  apply Forall_cons in Hb as [Hbi Hb]. destruct (Hfresh i) as [Hf1 Hf2]; [left |]. cbn. apply IH; [by apply add_table_ok | done | done | done |].
  intros j Hj. destruct (Hfresh j) as [H1 H2]; [by right |]. cbn. rewrite !lookup_insert_ne; [done | |]; intros E.
  - apply Hii. rewrite E. by apply list_elem_of_fmap_2.
  - apply Hni. rewrite E. by apply list_elem_of_fmap_2.
Qed.
Lemma add_tables_names infos : forall s, tables_by_name (add_tables s infos) = foldl (fun names i => <[info_name i := i]> names) (tables_by_name s) infos.
Proof. induction infos as [| i infos IH]; intros s; [done |]. cbn. by rewrite IH. Qed.
Lemma add_tables_rest infos : forall s, indexes_by_name (add_tables s infos) = indexes_by_name s /\ indexes_by_id (add_tables s infos) = indexes_by_id s
  /\ catalog_first_page (add_tables s infos) = catalog_first_page s /\ index_catalog_first_page (add_tables s infos) = index_catalog_first_page s.
Proof. induction infos as [| i infos IH]; intros s; [done |]. cbn. by destruct (IH (insert_table i s)) as (-> & -> & -> & ->). Qed.
End fold_tables.

Section fold_indexes.
Implicit Types (infos : list IndexInfo) (s : CatalogState).
Abbreviation add_indexes := (foldl (fun s i => insert_index i s)).

Lemma add_indexes_ok infos : forall s, catalog_ok s -> NoDup (index_info_name <$> infos) -> NoDup (index_id <$> infos) ->
  Forall (fun i => 0 <= index_id i < u32_max) infos ->
  (forall i, i ∈ infos -> indexes_by_name s !! index_info_name i = None /\ indexes_by_id s !! index_id i = None) -> catalog_ok (add_indexes s infos).
Proof.
  induction infos as [| i infos IH]; intros s Hs Hn Hid Hb Hfresh; [done |]. apply NoDup_cons in Hn as [Hni Hn]. apply NoDup_cons in Hid as [Hii Hid].
  apply Forall_cons in Hb as [Hbi Hb]. destruct (Hfresh i) as [Hf1 Hf2]; [left |]. cbn. apply IH; [by apply add_index_ok | done | done | done |].
  intros j Hj. destruct (Hfresh j) as [H1 H2]; [by right |]. cbn. rewrite !lookup_insert_ne; [done | |]; intros E.
  - apply Hii. rewrite E. by apply list_elem_of_fmap_2.
  - apply Hni. rewrite E. by apply list_elem_of_fmap_2.
Qed.
Lemma add_indexes_names infos : forall s, indexes_by_name (add_indexes s infos) = foldl (fun names i => <[index_info_name i := i]> names) (indexes_by_name s) infos.
Proof. induction infos as [| i infos IH]; intros s; [done |]. cbn. by rewrite IH. Qed.
Lemma add_indexes_rest infos : forall s, tables_by_name (add_indexes s infos) = tables_by_name s
  /\ catalog_first_page (add_indexes s infos) = catalog_first_page s /\ index_catalog_first_page (add_indexes s infos) = index_catalog_first_page s.
Proof. induction infos as [| i infos IH]; intros s; [done |]. cbn. by destruct (IH (insert_index i s)) as (-> & -> & ->). Qed.
End fold_indexes.

(** A map rebuilt from its values, in any order. *)
Lemma rebuild_map {A} (key : A -> bytes) (names : gmap bytes A) (l : list A) : (forall name x, names !! name = Some x -> key x = name) ->
  l ≡ₚ (map_to_list names).*2 -> foldl (fun m x => <[key x := x]> m) ∅ l = names /\ NoDup (key <$> l).
Proof.
  intros Hkey Hl. assert (Hk : key <$> (map_to_list names).*2 = (map_to_list names).*1).
  { rewrite <- list_fmap_compose. apply list_fmap_ext. intros i [name x] Hx%list_elem_of_lookup_2. apply elem_of_map_to_list in Hx. by apply Hkey in Hx. }
  assert (Hnd : NoDup (key <$> l)) by (rewrite Hl, Hk; apply NoDup_fst_map_to_list). split; [| done].
  assert (Hgen : forall l (m : gmap bytes A), NoDup (key <$> l) -> foldl (fun m x => <[key x := x]> m) m l = list_to_map ((fun x => (key x, x)) <$> l) ∪ m).
  { clear. intros l. induction l as [| x l IH]; intros m Hn; cbn; [by rewrite (left_id_L ∅ _) |]. rewrite fmap_cons in Hn. apply NoDup_cons in Hn as [Hx Hn].
    rewrite IH by done. rewrite <- insert_union_l, <- insert_union_r; [done |]. apply not_elem_of_list_to_map_1.
    rewrite <- list_fmap_compose. exact Hx. }
  rewrite Hgen by done. rewrite (right_id_L ∅ (∪)). rewrite <- (list_to_map_to_list names) at 1. apply list_to_map_proper.
  - rewrite <- list_fmap_compose. exact Hnd.
  - rewrite Hl, <- list_fmap_compose. rewrite <- (list_fmap_id (map_to_list names)) at 2. apply reflexive_eq, list_fmap_ext.
    intros i [name x] Hx%list_elem_of_lookup_2. apply elem_of_map_to_list in Hx. cbn. by rewrite (Hkey _ _ Hx).
Qed.

(** ** The same database under another catalog *)
Lemma table_by_id_iff c t info : catalog_ok c -> get_table_by_id c t = Ok info <-> tables_by_name c !! info_name info = Some info /\ table_id info = t.
Proof.
  intros Hc. unfold get_table_by_id, table_by_id. split.
  - destruct (tables_by_id c !! t) as [name |] eqn:E; [| done]. cbn. destruct (table_of_id c Hc _ _ E) as (_ & info' & Hl & Hi). rewrite Hl. intros [= <-].
    destruct (table_of_name c Hc _ _ Hl) as [-> _]. done.
  - intros [Hl <-]. destruct (table_of_name c Hc _ _ Hl) as [_ ->]. cbn. by rewrite Hl.
Qed.
Lemma index_by_id_iff c i info : catalog_ok c -> index_by_id c i = Ok info <-> indexes_by_name c !! index_info_name info = Some info /\ index_id info = i.
Proof.
  intros Hc. unfold index_by_id. split.
  - destruct (indexes_by_id c !! i) as [name |] eqn:E; [| done]. cbn. destruct (index_of_id c Hc _ _ E) as (_ & info' & Hl & Hi). rewrite Hl. intros [= <-].
    destruct (index_of_name c Hc _ _ Hl) as [-> _]. done.
  - intros [Hl <-]. destruct (index_of_name c Hc _ _ Hl) as (_ & -> & _). cbn. by rewrite Hl.
Qed.

Lemma db_same_catalog lag m c c' d : db_rep lag m c d -> catalog_ok c' -> tables_by_name c' = tables_by_name c -> indexes_by_name c' = indexes_by_name c ->
  catalog_first_page c' = catalog_first_page c -> index_catalog_first_page c' = index_catalog_first_page c -> db_rep lag m c' d.
Proof.
  intros Hok Hc' Ht Hi Hf Hif. pose proof (ok_catalog _ _ _ _ Hok) as Hc.
  assert (Et : forall t info, get_table_by_id c' t = Ok info <-> get_table_by_id c t = Ok info) by (intros t info; by rewrite !table_by_id_iff, Ht).
  assert (Ei : forall i info, index_by_id c' i = Ok info <-> index_by_id c i = Ok info) by (intros i info; by rewrite !index_by_id_iff, Hi).
  split; [done | | | | rewrite Hf, Hif; apply Hok | rewrite Hf; apply Hok | unfold table_infos; rewrite Ht; apply Hok | rewrite Hif; apply Hok
    | unfold index_infos; rewrite Hi; apply Hok | unfold table_infos, index_infos; rewrite Ht, Hi; apply Hok | apply Hok].
  - intros t info Hinfo%Et. by apply (ok_tables _ _ _ _ Hok).
  - intros i info Hinfo%Ei. destruct (ok_indexes _ _ _ _ Hok i info Hinfo) as (table & ch & tr & T & Htab & Hr). exists table, ch, tr, T.
    split; [by apply Et | done].
  - intros i info table Hinfo%Ei Htab%Et. by eapply (ok_columns _ _ _ _ Hok).
Qed.

(** ** Reload *)
Lemma infos_facts c : catalog_ok c -> (forall infos, infos ≡ₚ table_infos c -> next_table_id c <= u32_max -> Forall wf_table_info infos ->
    foldl (fun names i => <[info_name i := i]> names) ∅ infos = tables_by_name c /\ NoDup (info_name <$> infos) /\ NoDup (table_id <$> infos)
    /\ Forall (fun i => 0 <= table_id i < u32_max) infos)
  /\ (forall infos, infos ≡ₚ index_infos c -> next_index_id c <= u32_max -> Forall index_info_ok infos ->
    foldl (fun names i => <[index_info_name i := i]> names) ∅ infos = indexes_by_name c /\ NoDup (index_info_name <$> infos) /\ NoDup (index_id <$> infos)
    /\ Forall (fun i => 0 <= index_id i < u32_max) infos).
Proof.
  intros Hc. split; intros infos Hp Hn Hwf.
  - destruct (rebuild_map info_name (tables_by_name c) infos) as [H1 H2]; [intros name x Hx; by apply (table_of_name c Hc) | done |].
    assert (Hel : forall i, i ∈ infos -> tables_by_id c !! table_id i = Some (info_name i)).
    { intros i Hi. rewrite Hp in Hi. apply list_elem_of_fmap in Hi as ([name x] & -> & Hx%elem_of_map_to_list). cbn. by destruct (table_of_name c Hc _ _ Hx) as [-> ->]. }
    split_and!; [done | done | |].
    + apply NoDup_fmap_2_strong; [| by eapply NoDup_fmap_1]. intros x y Hx Hy E. apply Hel in Hx as Hx', Hy as Hy'. rewrite E in Hx'.
      assert (info_name x = info_name y) as En by congruence. apply list_elem_of_lookup in Hx as [i Hi], Hy as [j Hj].
      assert (i = j) as -> by (eapply (NoDup_lookup _ i j (info_name x) H2); rewrite list_lookup_fmap; [by rewrite Hi | by rewrite Hj, En]). congruence.
    + apply Forall_forall. intros i Hi. rewrite Forall_forall in Hwf. destruct (Hwf i Hi) as [[Hlo _] _]. destruct (table_of_id c Hc _ _ (Hel i Hi)). lia.
  - destruct (rebuild_map index_info_name (indexes_by_name c) infos) as [H1 H2]; [intros name x Hx; by apply (index_of_name c Hc) | done |].
    assert (Hel : forall i, i ∈ infos -> indexes_by_id c !! index_id i = Some (index_info_name i)).
    { intros i Hi. rewrite Hp in Hi. apply list_elem_of_fmap in Hi as ([name x] & -> & Hx%elem_of_map_to_list). cbn. by destruct (index_of_name c Hc _ _ Hx) as (-> & -> & _). }
    split_and!; [done | done | |].
    + apply NoDup_fmap_2_strong; [| by eapply NoDup_fmap_1]. intros x y Hx Hy E. apply Hel in Hx as Hx', Hy as Hy'. rewrite E in Hx'.
      assert (index_info_name x = index_info_name y) as En by congruence. apply list_elem_of_lookup in Hx as [i Hi], Hy as [j Hj].
      assert (i = j) as -> by (eapply (NoDup_lookup _ i j (index_info_name x) H2); rewrite list_lookup_fmap; [by rewrite Hi | by rewrite Hj, En]). congruence.
    + apply Forall_forall. intros i Hi. rewrite Forall_forall in Hwf. destruct (Hwf i Hi) as [[[Hlo _] _] _]. destruct (index_of_id c Hc _ _ (Hel i Hi)). lia.
Qed.

Lemma empty_catalog_ok : catalog_ok empty_catalog.
Proof. apply built_ok, built_empty. Qed.

(** Rows of tables and of indexes, loaded into a fresh catalog. *)
Lemma loaded_ok m c d trows irows p ip : db_ok m c d -> next_table_id c <= u32_max -> next_index_id c <= u32_max ->
  heap_list (db_table_rows d) = trows -> heap_list (db_index_rows d) = irows -> catalog_first_page c = Some p -> index_catalog_first_page c = ip ->
  exists s, load_all load_table trows (with_catalog_first_page p empty_catalog) = Ok s
    /\ forall s0, s0 = match ip with Some q => with_index_catalog_first_page q s | None => s end ->
       exists c', load_all load_index irows s0 = Ok c' /\ db_ok m c' d /\ tables_by_name c' = tables_by_name c /\ indexes_by_name c' = indexes_by_name c.
Proof.
  intros Hok Hnt Hni Etr Eir Ep Eip. destruct (infos_facts c (ok_catalog _ _ _ _ Hok)) as [Hft Hfi]. destruct (ok_infos _ _ _ _ Hok) as [Hwt Hwi].
  pose proof (ok_table_rows _ _ _ _ Hok) as Hrt. rewrite Etr in Hrt. apply Permutation_map_inv in Hrt as (ti & Eti & Hti).
  pose proof (ok_index_rows _ _ _ _ Hok) as Hri. rewrite Eir in Hri. apply Permutation_map_inv in Hri as (ii & Eii & Hii).
  assert (Hwt' : Forall wf_table_info ti) by by rewrite <- Hti. assert (Hwi' : Forall index_info_ok ii) by by rewrite <- Hii.
  destruct (Hft ti) as (Hn1 & Hn2 & Hn3 & Hn4); [by symmetry | done | done |]. destruct (Hfi ii) as (Hj1 & Hj2 & Hj3 & Hj4); [by symmetry | done | done |].
  set (s1 := with_catalog_first_page p empty_catalog). set (s := foldl (fun s i => insert_table i s) s1 ti).
  assert (Hs : catalog_ok s) by (apply add_tables_ok; [apply catalog_ok_table_page, empty_catalog_ok | done | done | done | done]).
  destruct (add_tables_rest ti s1) as (R1 & R2 & R3 & R4). fold s in R1, R2, R3, R4.
  exists s. split; [by apply load_tables |]. intros s0 Es0.
  assert (H0 : catalog_ok s0 /\ tables_by_name s0 = tables_by_name c /\ indexes_by_name s0 = ∅ /\ indexes_by_id s0 = ∅ /\ catalog_first_page s0 = Some p /\ index_catalog_first_page s0 = ip).
  { assert (tables_by_name s = tables_by_name c) by (unfold s; by rewrite add_tables_names). subst s0.
    destruct ip as [q |]; [| by split_and!]. split_and!; try done. by apply catalog_ok_index_page. }
  destruct H0 as (H1 & H2 & H3 & H4 & H5 & H6). destruct (add_indexes_rest ii s0) as (Q1 & Q2 & Q3).
  eexists. split; [by apply load_indexes |].
  assert (Hnames : indexes_by_name (foldl (fun s i => insert_index i s) s0 ii) = indexes_by_name c) by (by rewrite add_indexes_names, H3).
  split_and!; [| by rewrite Q1 | done]. eapply db_same_catalog; [done | | by rewrite Q1 | done | by rewrite Q2, H5 | by rewrite Q3, H6].
  apply add_indexes_ok; [done | done | done | done |]. intros i _. by rewrite H3, H4, !lookup_empty.
Qed.

(** What [reload] leaves: the tables and the indexes of [c0], whose rows are on the pages. *)
Definition reloaded (c0 : CatalogState) (d : Db) (m' : gmap PageId bytes) (c' : CatalogState) : Prop :=
  tables_by_name c' = tables_by_name c0 /\ indexes_by_name c' = indexes_by_name c0 /\ exists d', db_ok m' c' d' /\ same_pages c0 d d'.
(** If it fails, it changed neither the catalog in memory nor the one on the pages. *)
Definition not_reloaded (c c0 : CatalogState) (d : Db) (m' : gmap PageId bytes) (c' : CatalogState) : Prop :=
  same_maps c c' /\ exists c1, unchanged c0 d m' c1.

Section reload.
Context {P : Type} `{!PageStore P, !PageStoreLaws P}.

Lemma heap_iter_at m first ch : heap_ok m first ch -> heap_rep m ch /\ current_page (heap_iter first) = next_of ch /\ buffered (heap_iter first) ++ heap_list ch = heap_list ch.
Proof.
  intros (Hne & Hhd & Hrep & _). split_and!; [done | | done]. destruct ch as [| [q ts] ch]; [done |]. cbn in Hhd |- *. by rewrite Hhd.
Qed.

Lemma reload_spec n m c c0 d t steps fuel : db_ok m c0 d -> catalog_first_page c = None \/ catalog_first_page c = catalog_first_page c0 ->
  next_table_id c0 <= u32_max -> next_index_id c0 <= u32_max ->
  (length (table_infos c0) < steps)%nat -> (length (index_infos c0) < steps)%nat ->
  (length (db_table_rows d) + 2 < fuel)%nat -> (length (db_index_rows d) + 1 < fuel)%nat ->
  ctriple (3 + n) m c (reload steps fuel t : M (CatSys P) CatalogError unit) n (fun _ => reloaded c0 d) (not_reloaded c c0 d).
Proof.
  intros Hok Hc Hnt Hni Hst1 Hst2 Hf1 Hf2. unfold reload. eapply (ctriple_bind _ _ _ _ _ n).
  { eapply ctriple_mono; [apply (ensure_catalog_heap_gen n m c c0 d t Hok Hc) | intros ? ? ? H; exact H |].
    intros m' c' (-> & _ & _ & Hok'). split; [by split_and! |]. exists c0. by apply (unchanged_refl m'). }
  { lia. }
  cbn beta. intros p m1 ? (-> & _ & Hk & rows & Hok1 & Hrows & Hlr). set (c1 := with_catalog_first_page p c0) in *. set (d1 := with_table_rows rows d) in *.
  assert (Hbad : not_reloaded c c0 d m1 (with_catalog_first_page p c)).
  { split; [by split_and! |]. exists c1. split; [by split_and! |]. by exists d1. }
  destruct (loaded_ok m1 c1 d1 _ _ p _ Hok1 Hnt Hni eq_refl eq_refl eq_refl eq_refl) as (s & Hs & Hidx). cbn [db_table_rows db_index_rows d1 with_table_rows index_catalog_first_page c1 with_catalog_first_page] in Hs, Hidx.
  destruct (heap_iter_at _ _ _ Hrows) as (Hrep & Hat & Hbuf).
  eapply (ctriple_bind _ _ _ _ _ n).
  { eapply ctriple_mono; [apply (load_rows_spec n m1 _ load_table _ rows steps fuel _ _ s Hrep Hat Hbuf) | intros ? ? ? H; exact H | by intros m' c' [-> ->]].
    - lia.
    - pose proof (ok_table_rows _ _ _ _ Hok1) as Hr%Permutation_length. rewrite !length_fmap in Hr. unfold d1 in Hr. cbn [db_table_rows with_table_rows] in Hr.
      rewrite Hr. exact Hst1.
    - exact Hs. }
  { done. }
  cbn beta. intros ? ? ? (-> & -> & ->). destruct (ok_header _ _ _ _ Hok1) as (b & Hb & Hl & _ & Hh).
  eapply (ctriple_bind _ _ _ _ _ n).
  { apply ctriple_stored. intros p0 Hp0. destruct (catalog_pages_range _ _ _ _ _ _ Hp0 Hok1) as [_ Hr].
    eapply ctriple_mono; [apply ctriple_store, (header_u32_spec n m1 40 b (index_catalog_first_page c0) Hb Hl); [lia | exact Hh | exact Hr] | intros ? ? ? H; exact H |].
    by intros m' c' [-> ->]. }
  { done. }
  cbn beta. intros ? ? ? [[-> ->] ->]. destruct (Hidx _ eq_refl) as (c' & Hload & Hok' & Ht' & Hi').
  pose proof (ok_index_heap _ _ _ _ Hok1) as Hih. cbn [index_catalog_first_page c1 with_catalog_first_page db_index_rows d1 with_table_rows] in Hih.
  eapply (ctriple_bind _ _ _ _ _ n (fun r m' c'' => r = c' /\ m' = m1 /\ c'' = with_catalog_first_page p c)).
  { destruct (index_catalog_first_page c0) as [q |]; cbn in Hih.
    - destruct (heap_iter_at _ _ _ Hih) as (Hrep' & Hat' & Hbuf').
      eapply ctriple_mono; [apply (load_rows_spec n m1 _ load_index _ (db_index_rows d) steps fuel _ _ c' Hrep' Hat' Hbuf') | done | by intros m' c'' [-> ->]].
      + lia.
      + pose proof (ok_index_rows _ _ _ _ Hok) as Hr%Permutation_length. rewrite !length_fmap in Hr. rewrite Hr. exact Hst2.
      + exact Hload.
    - apply ctriple_ret; [done |]. rewrite Hih in Hload. cbn in Hload. by injection Hload as <-. }
  { done. }
  cbn beta. intros ? ? ? (-> & -> & ->). eapply ctriple_mono; [apply ctriple_state | | intros ? ? H; exact H]. intros _ ? ? [-> ->].
  split_and!; [done | done |]. by exists d1.
Qed.
End reload.
