(* ===== verification/Recovery.v ===== *)
(** * Recovery and checkpoints: crates/storage/src/recovery.rs, crates/txn/src/checkpoint.rs

    Restoring torn pages from the double-write buffer, the three passes over the log after a crash -
    analysis, redo and undo - and the undo of one transaction that a rollback runs as well. [fuel] bounds
    the loops over the log; running out of it reads as a panic. *)
From S2P Require Import Prelude Text Value Common Errors WalRecord LockManager VersionStore TxnManager Replacer Device SegmentStore Log Page Header Disk Dwb Buffer.

(** ** The double-write buffer *)

(** The database file and the double-write buffer, before there is a pool. *)
Definition Files : Type := DiskManager * DoubleWriteBuffer.
Definition of_disk {A} (c : M DiskManager Storage.Error A) : M Files Storage.Error A := fun s =>
  let '(o, d) := c s.1 in (o, (d, s.2)).
Definition of_dwb {A} (c : M DoubleWriteBuffer Storage.Error A) : M Files Storage.Error A := fun s =>
  let '(o, w) := c s.2 in (o, (s.1, w)).

Definition all_zero (b : bytes) : bool := forallb (fun x => Z_of_byte x =? 0) b.

(** One entry of the batch: was the page restored? *)
Definition restore_entry (entries : list (PageId * Z)) (index : Z) (e : PageId * Z) : M Files Storage.Error bool :=
  slot ← of_dwb (read_slot index);
  let actual_crc := crc32 slot in
  if negb (actual_crc =? e.2) then
    if existsb (fun other => other.2 =? actual_crc) entries then throw (Storage.DoubleWriteRestoreFailed e.1) else mret false
  else if all_zero slot then mret false
  else fun s =>
    match of_disk (read_page_unchecked e.1) s with
    | (Ok real_page, s) => if checksum_ok real_page then (Ok false, s) else (_ ← of_disk (write_page e.1 slot); mret true) s
    | (Err (Storage.PageNotFound _), s) => (Ok false, s)
    | (Err err, s) => (Err err, s)
    | (Panic, s) => (Panic, s)
    end.
Fixpoint restore_entries (entries rest : list (PageId * Z)) (index : Z) : M Files Storage.Error (list PageId) :=
  match rest with
  | [] => mret []
  | e :: rest =>
      restored ← restore_entry entries index e;
      more ← restore_entries entries rest (index + 1);
      mret (match restored with true => e.1 :: more | false => more end)
  end.
Fixpoint check_restored (pages : list PageId) : M Files Storage.Error unit :=
  match pages with
  | [] => mret tt
  | p :: pages =>
      b ← of_disk (read_page_unchecked p);
      if checksum_ok b then check_restored pages else throw (Storage.DoubleWriteRestoreFailed p)
  end.
Definition recover_double_write : M Files Storage.Error unit :=
  batch ← of_dwb read_batch;
  match batch with
  | None => mret tt
  | Some entries =>
      restored_pages ← restore_entries entries entries 0;
      _ ← of_disk disk_sync;
      _ ← check_restored restored_pages;
      of_dwb clear_batch
  end.

(** ** Analysis *)

(** The transactions seen, with their last LSN and whether they committed, and the pages that may be
    older on disk than the log, each from an LSN on. *)
Record Analysis : Type := mkAnalysis { att : gmap TxnId (Lsn * bool); dpt : gmap PageId Lsn }.

Definition load_snapshot (snap_att : list (TxnId * Lsn)) (snap_dpt : list (PageId * Lsn)) (a : Analysis) : Analysis :=
  mkAnalysis (fold_left (fun m x => <[x.1 := (x.2, false)]> m) snap_att (att a)) (fold_left (fun m x => <[x.1 := x.2]> m) snap_dpt (dpt a)).

(** [att.entry(..).and_modify(|entry| entry.0 = lsn).or_insert((lsn, false))] *)
Definition note_txn (t : TxnId) (lsn : Lsn) (m : gmap TxnId (Lsn * bool)) : gmap TxnId (Lsn * bool) :=
  <[t := match m !! t with Some e => (lsn, e.2) | None => (lsn, false) end]> m.
(** [dpt.entry(..).or_insert(lsn)] *)
Definition note_page (p : PageId) (lsn : Lsn) (m : gmap PageId Lsn) : gmap PageId Lsn :=
  match m !! p with Some _ => m | None => <[p := lsn]> m end.

Definition analyze (r : LoggedRecord) (a : Analysis) : outcome Storage.Error Analysis :=
  if txn_id r =? CHECKPOINT_TXN then Ok a else
  match kind r with
  | EndTxn => Ok (mkAnalysis (delete (txn_id r) (att a)) (dpt a))
  | Commit => Ok (mkAnalysis (<[txn_id r := (lsn r, true)]> (att a)) (dpt a))
  | Update p _ _ _ | Clr p _ _ _ | AllocPage p => Ok (mkAnalysis (note_txn (txn_id r) (lsn r) (att a)) (note_page p (lsn r) (dpt a)))
  | Begin => Ok (mkAnalysis (<[txn_id r := (lsn r, false)]> (att a)) (dpt a))
  | Abort => Ok (mkAnalysis (note_txn (txn_id r) (lsn r) (att a)) (dpt a))
  | CheckpointBegin | CheckpointEnd _ _ => Panic
  end.

Definition losers (a : Analysis) : list (TxnId * Lsn) :=
  omap (fun x : TxnId * (Lsn * bool) => if x.2.2 then None else Some (x.1, x.2.1)) (map_to_list (att a)).
Definition min_recovery_lsn (a : Analysis) : option Lsn :=
  match snd <$> map_to_list (dpt a) with [] => None | x :: l => Some (fold_left Z.min l x) end.

Section recovery.
Context {R : Type} `{!Replacer R}.
Abbreviation MP := (M (BufferPool R) Storage.Error).

(** ** Loops over the log *)
Definition log_iter_from (from : Lsn) : MP LogIterator := on_log (Log.iter_from from).
Definition log_next (fuel : nat) (it : LogIterator) : MP (option LoggedRecord * LogIterator) := fun s =>
  match Log.next fuel it (store (log_manager s)) with
  | None => (Panic, s)
  | Some (r, it, st) => (Ok (r, it), with_log (set_store st (log_manager s)) s)
  end.
(** [for record in iter { .. }]: the body says whether to go on. *)
Fixpoint log_loop {A} (fuel : nat) (body : LoggedRecord -> A -> MP (A * bool)) (it : LogIterator) (acc : A) : MP A :=
  match fuel with
  | O => lift Panic
  | S fuel =>
      '(r, it) ← log_next (S fuel) it;
      match r with
      | None => mret acc
      | Some r => '(acc, go) ← body r acc; match go with true => log_loop fuel body it acc | false => mret acc end
      end
  end.

(** ** Undo *)
Fixpoint undo_loop (fuel : nat) (t : TxnId) (cursor : option Lsn) : MP unit :=
  match cursor with
  | None => mret tt
  | Some lsn =>
      match fuel with
      | O => lift Panic
      | S fuel =>
          found ← read_log_at lsn;
          match found with
          | None => mret tt
          | Some r =>
              match kind r with
              | Update p offset before _ =>
                  clr_lsn ← append_log t (Clr p offset before (default 0 (prev_lsn r)));
                  _ ← stamp_write p offset before clr_lsn;
                  undo_loop fuel t (prev_lsn r)
              | Clr _ _ _ undo_next_lsn => undo_loop fuel t (if undo_next_lsn =? 0 then None else Some undo_next_lsn)
              | Begin => undo_loop fuel t None
              | _ => undo_loop fuel t (prev_lsn r)
              end
          end
      end
  end.
Definition undo_transaction (fuel : nat) (t : TxnId) (from : Lsn) : MP unit :=
  _ ← undo_loop fuel t (Some from);
  _ ← append_log t Abort;
  _ ← append_log t EndTxn;
  mret tt.
Fixpoint undo_losers (fuel : nat) (l : list (TxnId * Lsn)) : MP unit :=
  match l with
  | [] => mret tt
  | (t, lsn) :: l => _ ← undo_transaction fuel t lsn; undo_losers fuel l
  end.

(** ** Redo *)
Definition redo (r : LoggedRecord) : MP unit :=
  match kind r with
  | Update p offset _ after | Clr p offset after _ =>
      on_page ← page_lsn_on p;
      if on_page <? lsn r then stamp_write p offset after (lsn r) else mret tt
  | AllocPage p => ensure_page_allocated p
  | _ => mret tt
  end.

(** ** The whole *)
Definition read_snapshot (r : LoggedRecord) (a : Analysis) : MP (Analysis * bool) :=
  mret (if negb (txn_id r =? CHECKPOINT_TXN) then (a, true) else
        match kind r with CheckpointEnd snap_att snap_dpt => (load_snapshot snap_att snap_dpt a, false) | _ => (a, true) end).

Definition max_txn_id : MP (option TxnId) := gets (fun s => Log.max_txn_id (log_manager s)).

Definition recover (fuel : nat) : MP (option TxnId) :=
  checkpoint ← last_checkpoint_lsn;
  let start := default HEADER_LEN checkpoint in
  it ← log_iter_from start;
  a ← log_loop fuel read_snapshot it (mkAnalysis ∅ ∅);
  it ← log_iter_from start;
  a ← log_loop fuel (fun r a => a ← lift (analyze r a); mret (a, true)) it a;
  _ ← match min_recovery_lsn a with
      | None => mret tt
      | Some from =>
          it ← log_iter_from from;
          log_loop fuel (fun r _ => _ ← redo r; mret (tt, true)) it tt
      end;
  _ ← undo_losers fuel (losers a);
  _ ← flush_log_all;
  _ ← pool_flush_all;
  _ ← pool_sync;
  max_txn_id.

(** ** What the transaction manager calls *)
Definition pool_ops (fuel : nat) : PoolOps (BufferPool R).
Proof.
  refine {| TxnManager.append_log := Buffer.append_log; flush_log := fun lsn => on_log (Log.flush lsn);
            last_lsn := fun s t => last_lsn_for t (log_manager s); TxnManager.undo_transaction := undo_transaction fuel |}.
  intros t k p. by eexists _, _.
Defined.
End recovery.

(** * Checkpoints: crates/txn/src/checkpoint.rs

    A checkpoint notes the active transactions and the dirty pages in the log, puts its LSN into the
    header page under a transaction of its own, and drops the log nobody needs any more. *)
Record PendingCheckpoint : Type := mkPendingCheckpoint { checkpoint_begin_lsn : Lsn; truncate_bound : option Z }.

(** [iter().min()] *)
Definition minimum (l : list Z) : option Z := match l with [] => None | x :: l => Some (fold_left Z.min l x) end.

Section checkpoint.
Context {R : Type} `{!Replacer R} (fuel : nat).
#[local] Instance checkpoint_ops : PoolOps (BufferPool R) := pool_ops fuel.
Abbreviation MT := (M (Sys (BufferPool R)) Txn.Error).

Definition write_checkpoint_record : MT PendingCheckpoint :=
  begin_lsn ← on_pool (Buffer.append_log CHECKPOINT_TXN CheckpointBegin);
  att ← gets active_snapshot;
  dpt ← gets (fun s => dirty_page_table (pool s));
  let dpt_min := minimum dpt.*2 in
  _ ← on_pool (Buffer.append_log CHECKPOINT_TXN (CheckpointEnd att dpt));
  _ ← on_pool flush_log_all;
  header_txn ← begin ReadCommitted;
  _ ← on_pool (set_last_checkpoint_lsn header_txn begin_lsn);
  _ ← commit header_txn;
  att_min ← gets (fun s => earliest_active_begin_lsn (mgr s));
  mret (mkPendingCheckpoint begin_lsn (minimum (omap (fun bound => bound) [dpt_min; att_min; Some begin_lsn]))).

Definition finish_checkpoint (pending : PendingCheckpoint) : MT Lsn :=
  _ ← on_pool (flush_page 0);
  _ ← on_pool pool_sync;
  _ ← match truncate_bound pending with
      | Some bound => on_pool (truncate_log_below bound)
      | None => mret tt
      end;
  mret (checkpoint_begin_lsn pending).

Definition write_checkpoint : MT Lsn :=
  pending ← write_checkpoint_record;
  finish_checkpoint pending.
End checkpoint.
