(* ===== verification/Journal.v ===== *)
(** * The pages and the log together

    With a log whose device does not fail, the pages of the buffer pool are what the records of the log since
    a transaction began make of the pages at that point, when no other transaction has logged anything since:
    the pool is an instance of the interface of Page.v whose invariant says so. The undo of the transaction
    then puts the bodies of all pages back. *)
From S2P Require Import Prelude Text Value Common Errors WalRecord Replacer Device SegmentStore Log LogInv.
From S2P Require Import Page Disk Dwb Buffer BufferInv BufferFlush BufferSpec BufferLaws Recovery.

(** ** The records in the log *)
Definition log_is (l : LogManager) (bid base : Z) (rs : list LoggedRecord) : Prop :=
  quiet (store l) /\ exists gs act buf, log_inv l bid base gs act buf /\ all_records gs act buf = rs.
(** Nothing was logged, though it may have been flushed. *)
Definition log_same (l l' : LogManager) : Prop :=
  last_lsn_by_txn l' = last_lsn_by_txn l /\ next_lsn l' = next_lsn l /\ forall bid base rs, log_is l bid base rs -> log_is l' bid base rs.

Lemma log_same_refl l : log_same l l.
Proof. by split. Qed.
Lemma log_same_trans l1 l2 l3 : log_same l1 l2 -> log_same l2 l3 -> log_same l1 l3.
Proof. intros (E1 & F1 & H1) (E2 & F2 & H2). split_and!; [congruence.. | auto]. Qed.

(** ** Calls that log nothing *)
Lemma then_ok {S E A B} (m : M S E A) (k : A -> M S E B) s a s' : m s = (Ok a, s') -> (m ≫= k) s = k a s'.
Proof. intros H. unfold mbind, M_bind. by rewrite H. Qed.
Lemma then_err {S E A B} (m : M S E A) (k : A -> M S E B) s e s' : m s = (Err e, s') -> (m ≫= k) s = (Err e, s').
Proof. intros H. unfold mbind, M_bind. by rewrite H. Qed.
Definition untouched {S B E A} (f : S -> B) (m : M S E A) : Prop := forall s, f (m s).2 = f s.
Lemma untouched_bind {S B E A C} (f : S -> B) (m : M S E A) (k : A -> M S E C) : untouched f m -> (forall a, untouched f (k a)) -> untouched f (m ≫= k).
Proof. intros Hm Hk s. specialize (Hm s). unfold mbind, M_bind. destruct (m s) as [[a | e |] s1]; cbn [snd] in *; [by rewrite (Hk a s1) | done..]. Qed.

Definition ends (l : LogManager) : gmap TxnId Lsn * Lsn := (last_lsn_by_txn l, next_lsn l).
Lemma flush_ends up : untouched ends (Log.flush up).
Proof.
  assert (Hs : forall A (c : M Store Storage.Error A), untouched ends (on_store c)) by (intros A c s; unfold on_store; by destruct (c (store s))).
  assert (Hg : forall A (g : LogManager -> A), untouched ends (gets g : M LogManager Storage.Error A)) by done.
  assert (Hr : untouched ends roll_segment).
  { unfold roll_segment. repeat (apply untouched_bind; [auto | intros ?]). done. }
  unfold Log.flush. apply untouched_bind; [auto | intros durable]. destruct (up <? durable); [done |].
  do 4 (apply untouched_bind; [auto | intros ?]). apply untouched_bind; [auto | intros _]. apply untouched_bind; [done | intros _].
  do 2 (apply untouched_bind; [auto | intros ?]). destruct (_ <=? _); [| done]. intros s. unfold ignore_error. specialize (Hr s). by destruct (roll_segment s) as [[]].
Qed.
Lemma flush_same up l : log_same l (Log.flush up l).2.
Proof.
  pose proof (flush_ends up l) as [= E1 E2]. split; [done |]. split; [done |]. clear E1 E2.
  intros bid base rs (Hq & gs & act & buf & Hi & <-). destruct (Z.ltb_spec up (durable_lsn l)) as [Hlt | Hge].
  - unfold Log.flush, mbind, M_bind, gets. destruct (Z.ltb_spec up (durable_lsn l)); [| lia]. split; [done |]. by exists gs, act, buf.
  - pose proof (flush_inv l bid base gs act buf up Hi Hge (quiet_calls_work 3 _ Hq)) as H. destruct (Log.flush up l) as [o l'].
    destruct H as (((gs' & act' & H1 & H2) & _) & _ & H3). destruct (H3 Hq) as (_ & Hq' & _). split; [done |]. by exists gs', act', [].
Qed.
Lemma flush_all_same l : log_same l (Log.flush_all l).2.
Proof. unfold Log.flush_all, mbind, M_bind, gets. destruct (buffer l); [apply log_same_refl | apply flush_same]. Qed.

Section silent.
Context {R : Type} `{!Replacer R}.
Abbreviation Pool := (BufferPool R).
(** The log has the same records and the pool as many frames. *)
Definition alike (p p' : Pool) : Prop := log_same (log_manager p) (log_manager p') /\ length (frames p') = length (frames p).
Definition silent {E A} (m : M Pool E A) : Prop := forall p, alike p (m p).2.

Lemma alike_refl p : alike p p.
Proof. split; [apply log_same_refl | done]. Qed.
Lemma alike_trans p1 p2 p3 : alike p1 p2 -> alike p2 p3 -> alike p1 p3.
Proof. intros [H1 E1] [H2 E2]. split; [by eapply log_same_trans | congruence]. Qed.
Lemma silent_bind {E A B} (m : M Pool E A) (k : A -> M Pool E B) : silent m -> (forall a, silent (k a)) -> silent (m ≫= k).
Proof.
  intros Hm Hk p. specialize (Hm p). unfold mbind, M_bind. destruct (m p) as [[a | e |] p1]; cbn [snd] in *; [| done..]. eapply alike_trans; [exact Hm | apply Hk].
Qed.
Lemma silent_ret {E A} (a : A) : silent (mret a : M Pool E A).
Proof. intros p. apply alike_refl. Qed.
Lemma silent_lift {E A} (o : outcome E A) : silent (lift o).
Proof. intros p. apply alike_refl. Qed.
Lemma silent_throw {E A} (e : E) : silent (throw e : M Pool E A).
Proof. intros p. apply alike_refl. Qed.
Lemma silent_gets {E A} (f : Pool -> A) : silent (gets f : M Pool E A).
Proof. intros p. apply alike_refl. Qed.
Lemma silent_modify {E} (f : Pool -> Pool) : (forall p, log_manager (f p) = log_manager p) -> (forall p, length (frames (f p)) = length (frames p)) ->
  silent (modify f : M Pool E unit).
Proof. intros Hf Hn p. split; cbn; [rewrite Hf; apply log_same_refl | apply Hn]. Qed.
Lemma silent_finally {E A} (m : M Pool E A) after : silent m -> silent after -> silent (finally m after).
Proof.
  intros Hm Ha p. specialize (Hm p). unfold finally. destruct (m p) as [r p1]. specialize (Ha p1). destruct (after p1) as [r' p2]. by eapply alike_trans.
Qed.
Lemma silent_handle {E A} (m : M Pool E A) (h : E -> M Pool E A) : silent m -> (forall e, silent (h e)) ->
  silent (fun p => match m p with (Err e, p) => h e p | r => r end).
Proof.
  intros Hm Hh p. specialize (Hm p). destruct (m p) as [[a | e |] p1]; cbn [snd] in *; [done | | done]. eapply alike_trans; [exact Hm | apply Hh].
Qed.
Lemma silent_on_disk {A} (c : M DiskManager Storage.Error A) : silent (on_disk c : M Pool _ A).
Proof. intros p. unfold on_disk. destruct (c (disk_manager p)). split; [apply log_same_refl | done]. Qed.
Lemma silent_on_double_write {A} (c : M DoubleWriteBuffer Storage.Error A) : silent (on_double_write c : M Pool _ A).
Proof. intros p. unfold on_double_write. destruct (c (dwb p)). split; [apply log_same_refl | done]. Qed.
Lemma silent_on_index f : silent (on_index f : M Pool _ unit).
Proof. by apply silent_modify. Qed.
Lemma silent_on_replacer f : silent (on_replacer f : M Pool _ unit).
Proof. by apply silent_modify. Qed.
Lemma silent_frame_at f : silent (frame_at f : M Pool _ Frame).
Proof. intros p. apply alike_refl. Qed.
Lemma silent_set_frame f x : silent (set_frame f x : M Pool _ unit).
Proof. apply silent_modify; [done |]. intros p. apply length_insert. Qed.
Lemma silent_flush_log up : silent (on_log (Log.flush up) : M Pool _ unit).
Proof. intros p. unfold on_log. pose proof (flush_same up (log_manager p)) as H. destruct (Log.flush up (log_manager p)). by split. Qed.
End silent.
Create HintDb silent.
#[export] Hint Resolve silent_ret silent_lift silent_throw silent_gets silent_finally silent_on_disk silent_on_double_write
  silent_on_index silent_on_replacer silent_frame_at silent_set_frame silent_flush_log : silent.
(** Through the binds and the branches of a call to the calls it makes. *)
Ltac still := intros; lazymatch goal with
  | |- silent (mbind _ _) => apply silent_bind; [still | still]
  | |- silent (match ?x with _ => _ end) => destruct x; still
  | |- silent (finally _ _) => apply silent_finally; still
  | |- silent (modify _) => apply silent_modify; reflexivity
  | _ => auto with silent nocore
  end.

Section pool.
Context {R : Type} `{!Replacer R}.
Abbreviation Pool := (BufferPool R).
Abbreviation MP := (M Pool Storage.Error).

Lemma pin_locked_silent f : silent (pin_locked f : MP unit).
Proof. unfold pin_locked. still. Qed.
Lemma unpin_frame_silent f : silent (unpin_frame f : MP unit).
Proof. unfold unpin_frame. apply silent_bind; [still | intros x]. destruct (pin_count x =? 0); [still |]. apply silent_bind; [still | intros _]. destruct (_ =? 0); [| still]. still. Qed.
Lemma read_guard_silent p f : silent (read_guard p f : MP PageGuard).
Proof. unfold read_guard, read_lock. still. Qed.
Lemma write_guard_silent p f : silent (write_guard p f : MP PageGuard).
Proof. unfold write_guard, write_lock. still. Qed.
#[local] Hint Resolve pin_locked_silent unpin_frame_silent read_guard_silent write_guard_silent : silent.
Lemma pool_drop_guard_silent g : silent (pool_drop_guard g : MP unit).
Proof. unfold pool_drop_guard. still. Qed.
Lemma pin_if_cached_silent p : silent (pin_if_cached p : MP _).
Proof. unfold pin_if_cached. apply silent_bind; [still | intros ix]. destruct (decide _); [still |]. destruct (page_table ix !! p); still. Qed.
Lemma snapshot_silent pages : silent (snapshot pages : MP _).
Proof. induction pages as [| [f p] pages IH]; cbn [snapshot]; [still |]. apply silent_bind; [unfold read_lock; still | intros x]. still. Qed.
Lemma write_pages_silent pages : silent (write_pages pages : MP _).
Proof. induction pages as [| p pages IH]; cbn [write_pages]; still. Qed.
Lemma mark_clean_silent pages : silent (mark_clean pages : MP _).
Proof. induction pages as [| [f x] pages IH]; cbn [mark_clean]; [still |]. apply silent_bind; [unfold write_lock; still | intros y]. still. Qed.
Lemma write_in_place_silent snap : silent (write_in_place snap : MP _).
Proof.
  apply (silent_handle _ (fun e p => (Err e, with_poisoned true p))); [| intros e p; split; [apply log_same_refl | done]].
  apply silent_bind; [apply write_pages_silent | still].
Qed.
#[local] Hint Resolve pin_if_cached_silent snapshot_silent mark_clean_silent write_in_place_silent : silent.
Lemma flush_pages_before_silent pages deadline : silent (flush_pages_before pages deadline : MP unit).
Proof.
  unfold flush_pages_before, begin_flush, end_flush, flush_leased. still.
Qed.
#[local] Hint Resolve flush_pages_before_silent : silent.
Lemma write_back_silent f v : silent (write_back f v : MP unit).
Proof. apply (silent_handle _ (fun e => _ ← abort_eviction f v; throw e)); [still | unfold abort_eviction; still]. Qed.
Lemma choose_victim_silent : silent (choose_victim : MP _).
Proof. intros p. unfold choose_victim. destruct (if flush_in_flight p then _ else _). destruct (match _ with Some f => _ | None => _ end). split; [apply log_same_refl | done]. Qed.
#[local] Hint Resolve write_back_silent choose_victim_silent : silent.
Lemma take_frame_silent : silent (take_frame : MP _).
Proof.
  unfold take_frame. apply silent_bind; [unfold pop_free; still | intros [f |]; [still |]]. apply silent_bind; [still | intros [f |]]; still.
Qed.
#[local] Hint Resolve take_frame_silent : silent.
Lemma acquire_free_frame_silent : silent (acquire_free_frame : MP _).
Proof. unfold acquire_free_frame. apply silent_bind; [still | intros [f v]]. apply silent_bind; [still | intros _]. destruct v; [unfold complete_eviction |]; still. Qed.
Lemma try_install_silent f p x d : silent (try_install f p x d : MP _).
Proof. unfold try_install. apply silent_bind; [still | intros ix]. destruct (page_table ix !! p); unfold release_owned_frame, write_lock; still. Qed.
#[local] Hint Resolve acquire_free_frame_silent try_install_silent : silent.
Lemma read_into_silent f p : silent (read_into f p : MP _).
Proof.
  intros s. unfold read_into. pose proof (silent_on_disk (Disk.read_page p) s) as H. destruct (on_disk _ s) as [[b | e |] s1]; cbn [snd] in H; [| | done].
  - eapply alike_trans; [exact H | apply try_install_silent].
  - eapply alike_trans; [exact H |]. assert (H1 : silent (_ ← release_owned_frame f; throw e : MP FrameId)) by (unfold release_owned_frame; still). apply H1.
Qed.
#[local] Hint Resolve read_into_silent : silent.
Lemma fetch_frame_silent p : silent (fetch_frame p : MP _).
Proof.
  unfold fetch_frame. apply silent_bind; [still | intros [f |]; [still |]]. apply silent_bind; [| intros [f |]; [still |]].
  - unfold claim_load. do 2 (apply silent_bind; [still | intros ?]). destruct (decide _); [still |]. destruct (page_table _ !! p); [still |]. destruct (decide _); still.
  - apply silent_finally; [unfold load_page; still | still].
Qed.
#[local] Hint Resolve fetch_frame_silent : silent.
Lemma pool_fetch_page_silent p : silent (pool_fetch_page p : MP _).
Proof. unfold pool_fetch_page. still. Qed.
Lemma flush_page_silent p : silent (flush_page p : MP unit).
Proof. unfold flush_page, flush_pages. still. Qed.
Lemma pool_fetch_page_read_silent p : silent (pool_fetch_page_read p : MP _).
Proof. unfold pool_fetch_page_read. still. Qed.
End pool.
#[export] Hint Resolve pool_drop_guard_silent pool_fetch_page_silent pool_fetch_page_read_silent acquire_free_frame_silent try_install_silent write_guard_silent : silent.

(** ** What the records make of the pages *)
Lemma log_is_append l bid base rs n t k :
  log_is l bid base rs -> in_u 64 t -> kind_ok k -> record_len (appended l t k) <= MAX_RECORD -> log_room (S n) l ->
  log_is (Log.append t k l).2 bid base (rs ++ [appended l t k]).
Proof.
  intros (Hq & gs & act & buf & Hi & <-) Ht Hk Hlen (_ & _ & Hroom). unfold MAX_RECORD in *.
  destruct (append_inv l bid base gs act buf t k Hi Ht Hk) as (_ & H1 & H2).
  - unfold record_len in Hlen. lia.
  - rewrite len_encode_record. lia.
  - split; [by rewrite H2 |]. exists gs, act, (buf ++ [appended l t k]). split; [exact H1 | apply all_records_snoc].
Qed.

(** [changed m0 rs m]: the changes of [rs] turn the pages [m0] into [m], which may have more pages. *)
Inductive changed (m0 : gmap PageId bytes) : list LoggedRecord -> gmap PageId bytes -> Prop :=
| changed_refl : changed m0 [] m0
| changed_grow rs m m' : changed m0 rs m -> m ⊆ m' -> changed m0 rs m'
| changed_alloc rs m r : changed m0 rs m -> (exists p, kind r = AllocPage p) -> changed m0 (rs ++ [r]) m
| changed_update rs m r p off before after b : changed m0 rs m -> kind r = Update p off before after -> m !! p = Some b ->
    12 <= off -> off + len after <= PAGE_SIZE -> sub b off (len after) = Some before ->
    changed m0 (rs ++ [r]) (<[p := set_page_lsn (lsn r) (splice b off after)]> m).

(** No other transaction has logged anything since [start]. *)
Definition lone (t : TxnId) (start : Lsn) (l : LogManager) : Prop :=
  forall t' lsn, last_lsn_by_txn l !! t' = Some lsn -> start <= lsn -> t' = t.
(** The log since [start] is the transaction [t] from its beginning, and its changes made [m] from [m0]. *)
Definition journal (t : TxnId) (start : Lsn) (m0 : gmap PageId bytes) (l : LogManager) (m : gmap PageId bytes) : Prop :=
  exists bid base pre first post, log_is l bid base (pre ++ first :: post) /\ lsn first = start /\ kind first = Begin
    /\ Forall (fun r => txn_id r = t) (first :: post) /\ changed m0 post m.

Lemma log_same_lone t start l l' : log_same l l' -> lone t start l <-> lone t start l'.
Proof. intros (E & _). unfold lone. by rewrite E. Qed.
Lemma journal_same t start m0 l l' m : log_same l l' -> journal t start m0 l m -> journal t start m0 l' m.
Proof. intros (_ & _ & H) (bid & base & pre & first & post & Hl & Hj). exists bid, base, pre, first, post. auto. Qed.
Lemma journal_grow t start m0 l m m' : journal t start m0 l m -> m ⊆ m' -> journal t start m0 l m'.
Proof. intros (bid & base & pre & first & post & H1 & H2 & H3 & H4 & H5) Hm. exists bid, base, pre, first, post. split_and!; try done. by eapply changed_grow. Qed.

Lemma lone_append t start t' k l : start <= next_lsn l -> lone t start (Log.append t' k l).2 -> t' = t /\ lone t start l.
Proof.
  intros Hs Hl. assert (t' = t) as ->.
  { apply (Hl t' (next_lsn l)); [| done]. cbn. by rewrite lookup_insert_eq. }
  split; [done |]. intros t' lsn Hlsn Hge. destruct (decide (t' = t)) as [-> | Hne]; [done |]. apply (Hl t' lsn); [| done]. cbn. by rewrite lookup_insert_ne.
Qed.

(** Logging a record of the transaction. *)
Lemma journal_append t start m0 l m n k m' :
  journal t start m0 l m -> in_u 64 t -> kind_ok k -> record_len (appended l t k) <= MAX_RECORD -> log_room (S n) l ->
  (forall rs, changed m0 rs m -> changed m0 (rs ++ [appended l t k]) m') ->
  journal t start m0 (Log.append t k l).2 m'.
Proof.
  intros (bid & base & pre & first & post & H1 & H2 & H3 & H4 & H5) Ht Hk Hlen Hroom Hc.
  exists bid, base, pre, first, (post ++ [appended l t k]). split_and!; try done.
  - rewrite app_comm_cons, app_assoc. by eapply log_is_append.
  - rewrite app_comm_cons. apply Forall_app. split; [done | by constructor].
  - by apply Hc.
Qed.

Section laws.
Context {R : Type} `{!Replacer R, !ReplacerLaws R}.
Abbreviation Pool := (BufferPool R).
Context (t : TxnId) (start : Lsn) (m0 : gmap PageId bytes) (N : nat) (Ht : in_u 64 t).

(** The pool, of [N] frames, while [t], which began at [start] with the pages [m0], is running. *)
Definition journal_ok (n : nat) (gs : list PageGuard) (s : Pool) : Prop :=
  pool_ok n gs s /\ length (frames s) = N /\ start <= next_lsn (log_manager s)
  /\ (lone t start (log_manager s) -> journal t start m0 (log_manager s) (pool_pages s)).

Lemma journal_ok_silent n gs n' gs' (s s' : Pool) :
  journal_ok n gs s -> pool_ok n' gs' s' -> pool_pages s' = pool_pages s -> alike s s' -> journal_ok n' gs' s'.
Proof.
  intros (_ & Hf & Hs & Hj) Hok Hp [Hl Hf']. pose proof Hl as (_ & E & _). split_and!; [done | by rewrite Hf' | by rewrite E |].
  intros Hlone%(log_same_lone _ _ _ _ Hl). rewrite Hp. eapply journal_same; [exact Hl | auto].
Qed.
Lemma journal_ok_le n n' gs s : journal_ok n gs s -> (n' <= n)%nat -> journal_ok n' gs s.
Proof. intros (H1 & H2) Hn. split; [by eapply pool_ok_le | done]. Qed.
Lemma journal_ok_perm n gs gs' s : gs ≡ₚ gs' -> journal_ok n gs s -> journal_ok n gs' s.
Proof. intros Hp (H1 & H2). split; [by eapply pool_ok_perm | done]. Qed.

Lemma journal_fetch_spec mode n gs (s : Pool) p : journal_ok n gs s -> p ∉ guard_page_id <$> gs ->
  match match mode with ReadGuard => pool_fetch_page_read p s | WriteGuard => pool_fetch_page p s end with
  | (Ok g, s') => guard_page_id g = p /\ guard_mode g = mode /\ journal_ok n (g :: gs) s' /\ pool_pages s' = pool_pages s
  | (Err _, s') => journal_ok n gs s' /\ pool_pages s' = pool_pages s
  | (Panic, _) => False
  end.
Proof.
  intros Hj Hp. pose proof (pool_fetch_spec mode n gs s p (proj1 Hj) Hp) as H.
  assert (Hl : alike s (match mode with ReadGuard => pool_fetch_page_read p s | WriteGuard => pool_fetch_page p s end).2)
    by (destruct mode; [apply pool_fetch_page_read_silent | apply pool_fetch_page_silent]).
  destruct (match mode with ReadGuard => _ | WriteGuard => _ end) as [[g | e |] s']; [| | done].
  - destruct H as (? & ? & H1 & H2). split_and!; try done. by eapply journal_ok_silent.
  - destruct H as (H1 & H2). split_and!; try done. by eapply journal_ok_silent.
Qed.

Lemma journal_write_spec n gs (s : Pool) t' g b off new :
  journal_ok (S n) gs s -> g ∈ gs -> guard_mode g = WriteGuard ->
  pool_pages s !! guard_page_id g = Some b -> 12 <= off -> off + len new <= PAGE_SIZE ->
  match pool_guard_write t' g off new s with
  | (Ok _, s') => journal_ok n gs s' /\ exists lsn,
      pool_pages s' = <[guard_page_id g := set_page_lsn lsn (splice b off new)]> (pool_pages s)
  | (Err _, s') => journal_ok n gs s' /\ pool_pages s' = pool_pages s
  | (Panic, _) => False
  end.
Proof.
  intros (Hok & Hf & Hs & Hj) Hg _ Hb Ho Hn. pose proof (pool_page_range _ _ _ _ _ Hok Hb) as Hr.
  destruct (pool_write_run n gs s t' g b off new Hok Hg Hb Ho Hn) as (before & log & s' & Hsub & Hlen & Ea & -> & El & Ef & H1 & H2).
  split; [| by eexists]. pose proof (pi_log _ _ _ _ _ (po_inv _ _ _ Hok)) as Hroom.
  destruct (log_append_spec n t' _ (log_manager s) Hroom Hlen) as (log' & Ea' & _ & Hlt & _). assert (log' = log) as -> by congruence.
  split_and!; [done | by rewrite Ef | rewrite El; lia |]. rewrite El. replace log with (Log.append t' (Update (guard_page_id g) off before new) (log_manager s)).2 by (by rewrite Ea).
  intros [-> Hlone]%lone_append; [| done]. eapply journal_append; [by apply Hj | done | | exact Hlen | exact Hroom |].
  - assert (len before = len new) as Hlb by (apply sub_Some in Hsub as (? & ? & ? & ->); unfold len in *; rewrite length_take, length_drop; lia).
    pose proof (len_nonneg new). unfold kind_ok, in_u, u32_max, PAGE_SIZE in *. rewrite Hlb. lia.
  - intros rs Hc. rewrite H2. by eapply changed_update.
Qed.

(** Allocating a page logs at most the allocation. *)
Lemma new_page_log t' n gs (s : Pool) : pool_ok (S n) gs s ->
  alike s (pool_new_page t' s).2
  \/ exists p, 0 < p < 2 ^ 32 /\ alike (with_log (Log.append t' (AllocPage p) (log_manager s)).2 s) (pool_new_page t' s).2.
Proof.
  intros Hok. pose proof (allocated n gs s Hok) as Ha.
  assert (Hk : forall p lsn, silent (f ← acquire_free_frame; f ← try_install f p (mkPage p zero_page) (Some lsn); write_guard p f : M Pool _ _)).
  { intros p lsn. apply silent_bind; [apply acquire_free_frame_silent | intros f]. apply silent_bind; [apply try_install_silent | intros f'; apply write_guard_silent]. }
  destruct (allocate_page (disk_manager s)) as [o d] eqn:E. assert (Es : (on_disk allocate_page : M Pool _ _) s = (o, with_disk d s)) by (unfold on_disk; by rewrite E).
  unfold pool_new_page. destruct o as [p | e |]; [| left; rewrite (then_err _ _ _ _ _ Es); split; [apply log_same_refl | done] | done].
  rewrite (then_ok _ _ _ _ _ Es). right. exists p. split; [apply Ha |]. apply (Hk p (next_lsn (log_manager s)) (with_log _ (with_disk d s))).
Qed.

Lemma journal_grown n n' gs gs' (s s' : Pool) t' :
  journal_ok (S n) gs s -> pool_ok n' gs' s' -> pool_pages s ⊆ pool_pages s' ->
  alike s s' \/ (exists p, 0 < p < 2 ^ 32 /\ alike (with_log (Log.append t' (AllocPage p) (log_manager s)).2 s) s') ->
  journal_ok n' gs' s'.
Proof.
  intros (Hok & Hf & Hs & Hj) Hok' Hsub [[Hl Hf'] | (p & Hp & [Hl Hf'])]; pose proof Hl as (_ & E & _); (split; [done |]; split; [by rewrite Hf' |]).
  - split; [by rewrite E |]. intros Hlone%(log_same_lone _ _ _ _ Hl). eapply journal_same; [exact Hl | eapply journal_grow; [| exact Hsub]; auto].
  - pose proof (pi_log _ _ _ _ _ (po_inv _ _ _ Hok)) as Hroom. pose proof (alloc_record_len (next_lsn (log_manager s)) (last_lsn_by_txn (log_manager s) !! t') t' p) as Hlen.
    destruct (log_append_spec n t' (AllocPage p) (log_manager s) Hroom Hlen) as (log & Ea & _ & Hlt & _). rewrite Ea in E. cbn in E. split; [lia |].
    intros Hlone%(log_same_lone _ _ _ _ Hl). apply lone_append in Hlone as [-> Hlone]; [| done]. eapply journal_same; [exact Hl |].
    eapply journal_append; [by apply Hj | done | unfold kind_ok, in_u; lia | exact Hlen | exact Hroom |].
    intros rs Hc. apply changed_alloc; [by eapply changed_grow | by eexists].
Qed.

Lemma journal_new_page_spec n gs (s : Pool) t' : journal_ok (S n) gs s ->
  match pool_new_page t' s with
  | (Ok g, s') => guard_mode g = WriteGuard /\ 0 < guard_page_id g < 2 ^ 32
      /\ pool_pages s !! guard_page_id g = None /\ pool_pages s' !! guard_page_id g = Some zero_page
      /\ pool_pages s ⊆ pool_pages s' /\ journal_ok n (g :: gs) s'
  | (Err _, s') => journal_ok n gs s' /\ pool_pages s ⊆ pool_pages s'
  | (Panic, _) => False
  end.
Proof.
  intros Hj. pose proof (pool_new_page_spec n gs s t' (proj1 Hj)) as H. pose proof (new_page_log t' n gs s (proj1 Hj)) as Hl.
  destruct (pool_new_page t' s) as [[g | e |] s']; [| | done].
  - destruct H as (? & ? & ? & ? & ? & ?). split_and!; try done; [lia | lia | by eapply journal_grown].
  - destruct H as (? & ?). split; [by eapply journal_grown | done].
Qed.

Lemma journal_drop_spec n gs (s : Pool) g : journal_ok n (g :: gs) s ->
  exists s', pool_drop_guard g s = (Ok tt, s') /\ journal_ok n gs s' /\ pool_pages s' = pool_pages s.
Proof.
  intros Hj. destruct (pool_drop_spec n gs s g (proj1 Hj)) as (s' & E & H1 & H2). exists s'. split_and!; try done.
  pose proof (pool_drop_guard_silent g s) as Hl. rewrite E in Hl. by eapply journal_ok_silent.
Qed.

Definition journal_laws : PageStoreLaws Pool.
Proof.
  refine {| pages := pool_pages; store_ok := journal_ok; store_ok_le := journal_ok_le; store_ok_perm := journal_ok_perm;
    fetch_spec := journal_fetch_spec; write_spec := journal_write_spec; new_page_spec := journal_new_page_spec; drop_spec := journal_drop_spec |}.
  - intros n gs s p b (H & _). by eapply pool_page_size.
  - intros n gs s p b (H & _). by eapply pool_page_range.
  - intros n gs s g (H & _). by apply (pool_guard_page_spec n gs).
Defined.
End laws.

(** ** The bytes of a page below its header *)
Definition body (b : bytes) : bytes := drop 12 b.
(** The pages of [m] are in [m'], but for their headers. *)
Definition same_bodies (m m' : gmap PageId bytes) : Prop := forall p b, m !! p = Some b -> exists b', m' !! p = Some b' /\ len b' = len b /\ body b' = body b.

Lemma same_bodies_refl m : same_bodies m m.
Proof. intros p b H. by exists b. Qed.
Lemma same_bodies_trans m1 m2 m3 : same_bodies m1 m2 -> same_bodies m2 m3 -> same_bodies m1 m3.
Proof. intros H1 H2 p b (b' & Hb' & <- & <-)%H1. by apply H2. Qed.
Lemma same_bodies_sub m m' : m ⊆ m' -> same_bodies m m'.
Proof. intros H p b Hp. exists b. split; [by eapply lookup_weaken | done]. Qed.

Lemma body_splice b off new : 12 <= off -> 12 <= len b -> body (splice b off new) = splice (body b) (off - 12) new.
Proof.
  intros Ho Hb. assert (Ht : len (firstn 12 b) = 12) by (unfold len in *; rewrite length_take; lia).
  unfold body. rewrite <- (take_drop 12 b) at 1. rewrite splice_skip by lia. rewrite Ht. rewrite drop_app_length'; [done | unfold len in Ht; lia].
Qed.
Lemma body_set_page_lsn l b : len b = PAGE_SIZE -> body (set_page_lsn l b) = body b.
Proof.
  intros Hb. unfold set_page_lsn, splice, body. pose proof (len_to_le 8 l) as Hl. unfold PAGE_SIZE, len in *.
  rewrite app_assoc, drop_app_ge; rewrite length_app, length_take; [| lia]. rewrite drop_drop. f_equal. lia.
Qed.
Lemma len_written l b off new : 12 <= off -> off + len new <= len b -> len (set_page_lsn l (splice b off new)) = len b.
Proof.
  intros Ho Hn. pose proof (len_nonneg new). assert (E : len (splice b off new) = len b) by (apply len_splice; lia).
  unfold set_page_lsn. rewrite len_splice; rewrite ?len_to_le, ?E; lia.
Qed.
Lemma splice_back {A} (b new before : list A) off : sub b off (len new) = Some before -> splice (splice b off new) off before = b.
Proof.
  intros (H1 & H2 & H3 & ->)%sub_Some. unfold splice, len in *. rewrite Nat2Z.id.
  assert (Hl : length (firstn (length new) (drop (Z.to_nat off) b)) = length new) by (rewrite length_take, length_drop; lia). rewrite Hl.
  rewrite take_app_length' by (rewrite length_take; lia).
  rewrite (app_assoc (firstn (Z.to_nat off) b) new), drop_app_length' by (rewrite length_app, length_take; lia).
  by rewrite <- drop_drop, take_drop, take_drop.
Qed.
Lemma sub_body b off n x : 12 <= off -> 12 <= len b -> sub b off n = Some x -> sub (body b) (off - 12) n = Some x.
Proof.
  intros Ho Hb (H1 & H2 & H3 & ->)%sub_Some. apply sub_Some. unfold body, len in *. rewrite length_drop. split_and!; try lia.
  rewrite drop_drop. do 2 f_equal. lia.
Qed.
(** Writing back what was there before a change. *)
Lemma body_undone b b' l l' off after before : len b = PAGE_SIZE -> len b' = PAGE_SIZE -> 12 <= off -> off + len after <= PAGE_SIZE ->
  sub b off (len after) = Some before -> body b' = body (set_page_lsn l (splice b off after)) ->
  body (set_page_lsn l' (splice b' off before)) = body b.
Proof.
  intros Hb Hb' Ho Hn Hs E. pose proof (len_nonneg after). assert (Hlb : len before = len after)
    by (apply sub_Some in Hs as (? & ? & ? & ->); unfold len in *; rewrite length_take, length_drop; lia).
  assert (12 <= PAGE_SIZE) by (unfold PAGE_SIZE; lia). rewrite body_set_page_lsn in E by (rewrite len_splice; lia). rewrite body_set_page_lsn by (rewrite len_splice; lia).
  rewrite body_splice, E, body_splice by lia. eapply splice_back, sub_body; [lia | lia | done].
Qed.

(** ** The records of a transaction, from the last *)
Lemma changed_nil m0 m : changed m0 [] m -> m0 ⊆ m.
Proof.
  intros H. remember [] as rs eqn:E. induction H as [| rs m m' _ IH Hs | rs m r | rs m r]; [done | | by destruct rs..]. by etrans; [apply IH |].
Qed.
Lemma changed_snoc m0 rs r m : changed m0 (rs ++ [r]) m ->
  exists m1, changed m0 rs m1 /\ ((exists p, kind r = AllocPage p) /\ m1 ⊆ m
    \/ exists p off before after b, kind r = Update p off before after /\ m1 !! p = Some b /\ 12 <= off /\ off + len after <= PAGE_SIZE
         /\ sub b off (len after) = Some before /\ <[p := set_page_lsn (lsn r) (splice b off after)]> m1 ⊆ m).
Proof.
  intros H. remember (rs ++ [r]) as rs' eqn:E. revert rs r E. induction H as [| rs' m m' _ IH Hs | rs' m r' Hc _ Hk | rs' m r' p off before after b Hc _ Hk Hb Ho Hn Hsub]; intros rs r E.
  - by destruct rs.
  - destruct (IH rs r E) as (m1 & H1 & [[H2 H3] | (p & off & before & after & b & H2 & H3 & H4 & H5 & H6 & H7)]); exists m1; split; try done.
    + left. split; [done | by etrans].
    + right. exists p, off, before, after, b. split_and!; try done. by etrans.
  - apply app_inj_tail in E as [-> ->]. exists m. split; [done | left]. done.
  - apply app_inj_tail in E as [-> ->]. exists m. split; [done | right]. by exists p, off, before, after, b.
Qed.
(** Among records of one transaction each links to the one before. *)
Lemma prev_of l bid base pre first todo r done t :
  log_is l bid base (pre ++ ((first :: todo) ++ [r]) ++ done) -> Forall (fun r => txn_id r = t) ((first :: todo) ++ [r]) ->
  prev_lsn r = lsn <$> last (first :: todo).
Proof.
  intros (_ & gs & act & buf & Hi & E) [Ht [Hr _]%Forall_cons]%Forall_app. pose proof (inv_prevs _ _ _ _ _ _ Hi) as Hp. rewrite E in Hp.
  specialize (Hp (pre ++ first :: todo) r done ltac:(by rewrite <- !app_assoc)). rewrite Hr in Hp. unfold links in Hp.
  replace (last_of t (pre ++ first :: todo)) with (lsn <$> last (first :: todo)) in Hp; [by destruct (last (first :: todo)) eqn:El; [| by apply last_None in El] |].
  unfold last_of. rewrite filter_app, last_app. rewrite (filter_all _ (first :: todo)) by done. by destruct (last (first :: todo)) eqn:El; [| by apply last_None in El].
Qed.

Lemma log_same_cache c l : log_same l (set_cache c l).
Proof.
  split; [done |]. split; [done |]. intros bid base rs (Hq & gs & act & buf & Hi & E). split; [done |]. exists gs, act, buf. split; [| done].
  destruct Hi. by constructor.
Qed.
Lemma clr_record_len l pv t p off new undo : len new <= PAGE_SIZE -> record_len (mkLogged l pv t (Clr p off new undo)) <= MAX_RECORD.
Proof.
  intros. unfold record_len, encode_body, MAX_RECORD. cbn [WalRecord.kind encode_payload].
  unfold put_len_prefixed. autorewrite with len. cbn. unfold PAGE_SIZE in *. lia.
Qed.
(** The record at an LSN of the log is read. *)
Lemma log_is_read l bid base rs r : log_is l bid base rs -> r ∈ rs -> exists c, Log.read_at (lsn r) l = (Ok (Some r), set_cache c l).
Proof. intros (Hq & gs & act & buf & Hi & <-) Hr. by eapply read_at_inv. Qed.
Lemma log_is_ok l bid base rs r : log_is l bid base rs -> r ∈ rs -> record_ok r.
Proof. intros (_ & gs & act & buf & Hi & <-) Hr. pose proof (inv_ok _ _ _ _ _ _ Hi) as H. by eapply Forall_forall in H. Qed.

Section undo.
Context {R : Type} `{!Replacer R, !ReplacerLaws R}.
Abbreviation Pool := (BufferPool R).
Implicit Types s : Pool.

(** ** The calls of the loop *)
Lemma read_log_ok n s bid base rs r : pool_ok n [] s -> log_is (log_manager s) bid base rs -> r ∈ rs ->
  exists s', read_log_at (lsn r) s = (Ok (Some r), s') /\ pool_ok n [] s' /\ pool_pages s' = pool_pages s /\ alike s s'.
Proof.
  intros Hok Hl Hr. destruct (log_is_read _ _ _ _ _ Hl Hr) as (c & E). exists (with_log (set_cache c (log_manager s)) s).
  unfold read_log_at, on_log. rewrite E. split; [done |]. split; [| split; [done | split; [apply log_same_cache | done]]].
  apply (logged_ok n); [done | apply (pi_log _ _ _ _ _ (po_inv _ _ _ Hok)) | done | done].
Qed.
Lemma append_log_ok n s bid base rs t k : pool_ok (S n) [] s -> log_is (log_manager s) bid base rs -> in_u 64 t -> kind_ok k ->
  record_len (appended (log_manager s) t k) <= MAX_RECORD ->
  exists s', Buffer.append_log t k s = (Ok (next_lsn (log_manager s)), s') /\ pool_ok n [] s' /\ pool_pages s' = pool_pages s
    /\ log_is (log_manager s') bid base (rs ++ [appended (log_manager s) t k]) /\ 0 < next_lsn (log_manager s) < next_lsn (log_manager s') /\ frames s' = frames s.
Proof.
  intros Hok Hl Ht Hk Hlen. pose proof (pi_log _ _ _ _ _ (po_inv _ _ _ Hok)) as Hroom. pose proof Hroom as [Hpos _].
  destruct (log_append_spec n t k _ Hroom Hlen) as (log & E & H1 & H2 & _). exists (with_log log s). unfold append_log, on_log. rewrite E.
  split; [done |]. split; [apply (logged_ok (S n)); [done | done | lia | lia] |]. split; [done |].
  pose proof (log_is_append _ _ _ _ n t k Hl Ht Hk Hlen Hroom) as H. rewrite E in H. split; [exact H |]. split; [done | done].
Qed.
Lemma stamp_write_ok n s p off new l b :
  pool_ok n [] s -> pool_pages s !! p = Some b -> 12 <= off -> off + len new <= PAGE_SIZE -> 0 < l < next_lsn (log_manager s) ->
  match stamp_write p off new l s with
  | (Ok _, s') => pool_ok n [] s' /\ pool_pages s' = <[p := set_page_lsn l (splice b off new)]> (pool_pages s) /\ alike s s'
  | (Err _, s') => pool_ok n [] s' /\ length (frames s') = length (frames s)
  | (Panic, _) => False
  end.
Proof.
  intros Hok Hb Ho Hn Hl. unfold stamp_write. cbn [fetch_page pool_store]. pose proof (pool_fetch_spec WriteGuard n [] s p Hok ltac:(set_solver)) as H.
  pose proof (pool_fetch_page_silent p s) as Hf. destruct (pool_fetch_page p s) as [[g | e |] s1] eqn:E; [| rewrite (then_err _ _ _ _ _ E); split; [apply H | apply Hf] | done].
  rewrite (then_ok _ _ _ _ _ E). destruct H as (Hg & _ & H1 & H2). cbn [snd] in Hf. pose proof Hf as [(_ & Hnx & _) _].
  destruct (guard_frame _ _ _ g H1 ltac:(set_solver)) as (_ & x & Hx & Hpf & Hpp). pose proof (pf_len _ _ _ _ _ Hpf) as Hlen.
  assert (b = clear_checksum (data (page x))) as -> by congruence.
  destruct (stamped_ok n [g] s1 g x off new l H1 ltac:(set_solver) Hx Ho Hn ltac:(lia)) as [G1 G2].
  assert (Ec : (b ← guard_page g; _ ← lift (or_panic (sub b off (len new))); stamp_frame (guard_frame_id g) off new l) s1 = (Ok tt, stamped (guard_frame_id g) x off new l s1)).
  { unfold mbind at 1, M_bind at 1. cbn [guard_page pool_store]. unfold pool_guard_page, mbind at 1, M_bind at 1, frame_at. rewrite Hx. cbn [or_panic mret M_ret].
    unfold mbind at 1, M_bind at 1. destruct (sub (data (page x)) off (len new)) eqn:Hs; [| apply sub_None in Hs; pose proof (len_nonneg new); lia].
    cbn [or_panic lift]. unfold stamp_frame, mbind, M_bind, frame_at. by rewrite Hx. }
  unfold with_guard. rewrite Ec. cbn [drop_guard pool_store]. destruct (pool_drop_spec n [] _ g G1) as (s2 & E2 & D1 & D2).
  pose proof (pool_drop_guard_silent g (stamped (guard_frame_id g) x off new l s1)) as Hd. rewrite E2 in Hd |- *. split; [done |]. split; [by rewrite D2, G2, H2, Hg |].
  eapply alike_trans; [exact Hf |]. destruct Hd as [Hd1 Hd2]. split; [exact Hd1 |]. cbn [snd] in Hd2. rewrite Hd2. apply length_insert.
Qed.

(** ** The loop *)
Lemma undone_bodies m m1 m2 p b l l' off before after b' :
  m1 !! p = Some b -> 12 <= off -> off + len after <= PAGE_SIZE -> sub b off (len after) = Some before ->
  <[p := set_page_lsn l (splice b off after)]> m1 ⊆ m -> same_bodies m m2 -> m2 !! p = Some b' -> len b' = PAGE_SIZE ->
  same_bodies m1 (<[p := set_page_lsn l' (splice b' off before)]> m2).
Proof.
  intros Hb Ho Hn Hs Hm Hsame Hb' Hlen. assert (Hr : 12 <= len b /\ off + len after <= len b /\ len before = len after).
  { pose proof (len_nonneg after). apply sub_Some in Hs as (? & ? & ? & ->). unfold len in *. rewrite length_take, length_drop. lia. }
  assert (Hw : len (set_page_lsn l (splice b off after)) = len b)
    by (apply len_written; lia).
  destruct (Hsame p (set_page_lsn l (splice b off after))) as (x & Hx & Hxl & Hxb); [eapply lookup_weaken; [by rewrite lookup_insert_eq | done] |].
  assert (x = b') as -> by congruence. assert (12 <= PAGE_SIZE) by (unfold PAGE_SIZE; lia). pose proof (len_nonneg after).
  intros q c Hq. destruct (decide (q = p)) as [-> | Hne].
  - assert (c = b) as -> by congruence. eexists. rewrite lookup_insert_eq. split; [done |]. split.
    + rewrite len_written; lia.
    + eapply body_undone; [lia | done | done | done | done | exact Hxb].
  - rewrite lookup_insert_ne by done. apply Hsame. eapply lookup_weaken; [| exact Hm]. by rewrite lookup_insert_ne.
Qed.

(** What the undo leaves. *)
Definition undone (n N : nat) (bid base : Z) (m0 : gmap PageId bytes) (r : outcome Storage.Error unit * Pool) : Prop :=
  match r with
  | (Ok _, s') => pool_ok n [] s' /\ same_bodies m0 (pool_pages s') /\ (exists rs, log_is (log_manager s') bid base rs) /\ length (frames s') = N
  | (Err _, s') => pool_ok n [] s' /\ length (frames s') = N
  | (Panic, _) => False
  end.

Lemma undo_loop_ok t bid base pre first m0 : in_u 64 t -> kind first = Begin -> forall todo after n fuel s m1,
  pool_ok (length todo + n) [] s -> log_is (log_manager s) bid base (pre ++ (first :: todo) ++ after) ->
  Forall (fun r => txn_id r = t) (first :: todo) -> changed m0 todo m1 -> same_bodies m1 (pool_pages s) -> (length todo < fuel)%nat ->
  undone n (length (frames s)) bid base m0 (undo_loop fuel t (lsn <$> last (first :: todo)) s).
Proof.
  intros Ht Hfirst. induction todo as [| r todo IH] using rev_ind; intros after n fuel s m1 Hok Hl Htx Hc Hsame Hfuel.
  - destruct fuel as [| fuel]; [cbn in Hfuel; lia |]. cbn [last fmap option_fmap option_map undo_loop].
    destruct (read_log_ok _ s bid base _ first Hok Hl ltac:(set_solver)) as (s1 & E1 & H1 & H2 & [(_ & _ & H3) H4]). rewrite (then_ok _ _ _ _ _ E1), Hfirst.
    destruct fuel; (split; [exact H1 |]; split; [rewrite H2; eapply same_bodies_trans; [| exact Hsame]; by apply same_bodies_sub, changed_nil |]; split; [eexists; apply H3, Hl | exact H4]).
  - destruct fuel as [| fuel]; [lia |]. rewrite length_app in Hok, Hfuel. cbn [length] in Hok, Hfuel. rewrite app_comm_cons in Hl, Htx |- *.
    rewrite last_snoc. cbn [fmap option_fmap option_map undo_loop].
    destruct (read_log_ok _ s bid base _ r Hok Hl ltac:(set_solver)) as (s1 & E1 & H1 & H2 & [(_ & _ & H3) H4]). rewrite (then_ok _ _ _ _ _ E1).
    assert (Hprev : prev_lsn r = lsn <$> last (first :: todo)) by (by eapply prev_of).
    apply changed_snoc in Hc as (m2 & Hc & [[[p Hk] Hm] | (p & off & before & new & b & Hk & Hb & Ho & Hn & Hsub & Hm)]); rewrite Hk.
    + rewrite Hprev, <- H4. rewrite <- (app_assoc _ [r] after) in Hl. eapply (IH ([r] ++ after)); [| by apply H3 | by apply Forall_app in Htx as [? _] | exact Hc | | lia].
      * eapply pool_ok_le; [exact H1 | lia].
      * rewrite H2. eapply same_bodies_trans; [by apply same_bodies_sub | done].
    + pose proof (log_is_ok _ _ _ _ r Hl ltac:(set_solver)) as (_ & _ & Hkind & Hpl & _). rewrite Hk in Hkind.
      assert (Hlb : len before = len new) by (apply sub_Some in Hsub as (? & ? & ? & ->); unfold len in *; rewrite length_take, length_drop; pose proof (len_nonneg new); lia).
      destruct (append_log_ok (length todo + n) s1 bid base _ t (Clr p off before (default 0 (prev_lsn r))) ltac:(eapply pool_ok_le; [exact H1 | lia]) ltac:(by apply H3) Ht)
        as (s2 & E2 & A1 & A2 & A3 & A4 & A5).
      { destruct Hkind as (? & ? & ? & ?). split_and!; try done. destruct (prev_lsn r) as [q |] eqn:Eq; [by apply (Hpl q) | by unfold in_u; cbn]. }
      { apply clr_record_len. lia. }
      rewrite (then_ok _ _ _ _ _ E2).
      destruct (Hsame p (set_page_lsn (lsn r) (splice b off new))) as (b' & Hb' & _); [eapply lookup_weaken; [by rewrite lookup_insert_eq | exact Hm] |].
      rewrite <- H2, <- A2 in Hb'. pose proof (stamp_write_ok _ s2 p off before _ b' A1 Hb' Ho ltac:(lia) A4) as Hst.
      destruct (stamp_write p off before (next_lsn (log_manager s1)) s2) as [[[] | e |] s3] eqn:E3; [| rewrite (then_err _ _ _ _ _ E3); destruct Hst as [Hst Hsn]; split; [eapply pool_ok_le; [exact Hst | lia] | by rewrite Hsn, A5, H4] | done].
      rewrite (then_ok _ _ _ _ _ E3), Hprev. destruct Hst as (S1 & S2 & [(_ & _ & S3) S4]). replace (length (frames s)) with (length (frames s3)) by (by rewrite S4, A5, H4). rewrite <- !app_assoc in A3.
      eapply IH; [exact S1 | apply S3, A3 | by apply Forall_app in Htx as [? _] | exact Hc | | lia].
      rewrite S2, A2, H2. eapply undone_bodies; [exact Hb | exact Ho | exact Hn | exact Hsub | exact Hm | exact Hsame | by rewrite <- H2, <- A2 |].
      exact (pool_page_size _ _ _ _ _ A1 Hb').
Qed.

(** The bytes logged since the transaction began bound the records. *)
Lemma journal_length l bid base pre first post : log_is l bid base (pre ++ first :: post) -> MIN_RECORD_LEN * (len post + 1) <= next_lsn l - lsn first.
Proof.
  intros (_ & gs & act & buf & Hi & E). pose proof (all_records_end _ _ _ _ _ _ Hi) as Hend. pose proof (inv_lsns _ _ _ _ _ _ Hi) as Hl. rewrite E in Hend, Hl.
  apply lsns_from_lookup in Hl. rewrite enc_all_app, enc_all_cons, !len_app in Hend. pose proof (len_encode_record_min first).
  enough (MIN_RECORD_LEN * len post <= len (enc_all post)) by lia.
  clear. induction post as [| r post IH]; [done |]. rewrite enc_all_cons, len_app, len_cons. pose proof (len_encode_record_min r). lia.
Qed.

Lemma undo_transaction_ok t start m0 n k fuel s :
  pool_ok (k + S (S n)) [] s -> journal t start m0 (log_manager s) (pool_pages s) -> in_u 64 t -> next_lsn (log_manager s) - start <= MIN_RECORD_LEN * Z.of_nat k -> (k <= fuel)%nat ->
  exists lsn, last_lsn_for t (log_manager s) = Some lsn /\
  match undo_transaction fuel t lsn s with
  | (Ok _, s') => pool_ok n [] s' /\ same_bodies m0 (pool_pages s') /\ (exists bid base rs, log_is (log_manager s') bid base rs) /\ length (frames s') = length (frames s)
  | (Err _, s') => pool_ok n [] s' /\ length (frames s') = length (frames s)
  | (Panic, _) => False
  end.
Proof.
  intros Hok (bid & base & pre & first & post & Hl & <- & Hb & Htx & Hc) Ht Hk Hfuel. pose proof (journal_length _ _ _ _ _ _ Hl) as Hlen. unfold len, MIN_RECORD_LEN in *.
  destruct (last (first :: post)) as [r |] eqn:Elast; [| by apply last_None in Elast]. exists (lsn r). split.
  { destruct Hl as (_ & gs & act & buf & Hi & E). pose proof (inv_last _ _ _ _ _ _ Hi t) as Hi2. unfold links in Hi2. unfold last_lsn_for.
    rewrite E in Hi2. unfold last_of in Hi2. rewrite filter_app, last_app, (filter_all _ (first :: post)), Elast in Hi2 by done. exact Hi2. }
  assert (Hu : undone (S (S n)) (length (frames s)) bid base m0 (undo_loop fuel t (lsn <$> last (first :: post)) s)).
  { eapply (undo_loop_ok t bid base pre first m0 Ht Hb post []); [eapply pool_ok_le; [exact Hok | lia] | by rewrite app_nil_r | done | done | apply same_bodies_refl | lia]. }
  rewrite Elast in Hu. cbn [fmap option_fmap option_map] in Hu.
  unfold undo_transaction. destruct (undo_loop fuel t (Some (lsn r)) s) as [[[] | e |] s1] eqn:E1; [| rewrite (then_err _ _ _ _ _ E1); split; [eapply pool_ok_le; [apply Hu | lia] | apply Hu] | done].
  rewrite (then_ok _ _ _ _ _ E1). destruct Hu as (H1 & H2 & [rs H3] & H4).
  destruct (append_log_ok _ s1 bid base rs t Abort H1 H3 Ht I ltac:(by unfold record_len, MAX_RECORD)) as (s2 & E2 & A1 & A2 & A3 & _ & A4). rewrite (then_ok _ _ _ _ _ E2).
  destruct (append_log_ok _ s2 bid base _ t EndTxn A1 A3 Ht I ltac:(by unfold record_len, MAX_RECORD)) as (s3 & E3 & B1 & B2 & B3 & _ & B4). rewrite (then_ok _ _ _ _ _ E3).
  split; [exact B1 |]. split; [by rewrite B2, A2 |]. split; [by eexists _, _, _ | by rewrite B4, A4].
Qed.
End undo.
