(* ===== verification/Parameters.v ===== *)
(** * Statement parameters: crates/planner/src/parameters.rs

    The types of [$1], [$2], ... as far as their context tells, and the replacement of parameters by
    values before a statement is bound. *)
From S2P Require Import Prelude Text Value Common SqlParser Catalog Planner.

(** ** Inference *)

(** [BTreeMap<u32, Option<DataType>>] *)
Abbreviation ParamTypes := (gmap Z (option DataType.t)).

(** The first type that is known stays. *)
Definition record (index : Z) (data_type : option DataType.t) (types : ParamTypes) : ParamTypes :=
  match types !! index with
  | Some (Some d) => types
  | Some None | None => <[index := data_type]> types
  end.

Definition column_type (e : Expr.t) (s : option Schema) (table_scope : option bytes) : option DataType.t :=
  match e with
  | Expr.Column table name =>
      s ← s;
      if match table with Some qualifier => bool_decide (table_scope <> Some qualifier) | None => false end then None
      else i ← column_index s name; c ← index (columns s) i; Some (data_type c)
  | _ => None
  end.

Fixpoint collect_expr (e : Expr.t) (s : option Schema) (table_scope : option bytes) (types : ParamTypes) : ParamTypes :=
  match e with
  | Expr.Param index => record index None types
  | Expr.Literal _ | Expr.Column _ _ | Expr.SessionContext _ => types
  | Expr.UnaryOp _ e => collect_expr e s table_scope types
  | Expr.IsNull e _ => collect_expr e s table_scope types
  | Expr.BinaryOp l _ r =>
      (* collect_binary *)
      let types := match l with
                   | Expr.Param index => record index (column_type r s table_scope) types
                   | _ => collect_expr l s table_scope types
                   end in
      match r with
      | Expr.Param index => record index (column_type l s table_scope) types
      | _ => collect_expr r s table_scope types
      end
  end.

Definition known_table (c : CatalogState) (name : bytes) : outcome PlannerError TableInfo :=
  match get_table c name with
  | Ok t => Ok t
  | Err _ => Err (UnknownTable name)
  | Panic => Panic
  end.

Definition collect_item (s : option Schema) (table_scope : option bytes) (types : ParamTypes) (item : SelectItem) : ParamTypes :=
  match item with ItemExpr e => collect_expr e s table_scope types | Wildcard => types end.
Definition collect_select (select : SelectStatement) (c : CatalogState) (types : ParamTypes) : outcome PlannerError ParamTypes :=
  table ← match from select with
          | Some r => t ← known_table c (table_name r); Ok (Some t)
          | None => Ok None
          end;
  let s := schema <$> table in
  let table_scope := (fun r => default (table_name r) (alias r)) <$> from select in
  let types := fold_left (collect_item s table_scope) (items select) types in
  Ok (match where_clause select with Some e => collect_expr e s table_scope types | None => types end).

Fixpoint collect_insert_row (row : list (Expr.t * Z)) (s : Schema) (types : ParamTypes) : outcome PlannerError ParamTypes :=
  match row with
  | [] => Ok types
  | (Expr.Param index, col_index) :: row =>
      column ← or_panic (Prelude.index (columns s) col_index);
      collect_insert_row row s (record index (Some (data_type column)) types)
  | (e, _) :: row => collect_insert_row row s (collect_expr e None None types)
  end.
Fixpoint collect_insert_rows (values : list (list Expr.t)) (targets : list Z) (s : Schema) (types : ParamTypes) : outcome PlannerError ParamTypes :=
  match values with
  | [] => Ok types
  | row :: values => types ← collect_insert_row (zip row targets) s types; collect_insert_rows values targets s types
  end.
Definition collect_insert (insert : InsertStatement) (c : CatalogState) (types : ParamTypes) : outcome PlannerError ParamTypes :=
  table ← known_table c (SqlParser.insert_table insert);
  let s := schema table in
  target_indices ←
    (if decide (insert_columns insert = []) then Ok (seqZ 0 (len (columns s)))
     else mapM (fun name => ok_or (column_index s name) (UnknownColumn name)) (insert_columns insert));
  collect_insert_rows (SqlParser.values insert) target_indices s types.

Fixpoint collect_statement (statement : Statement.t) (c : CatalogState) (types : ParamTypes) : outcome PlannerError ParamTypes :=
  match statement with
  | Statement.Select s => collect_select s c types
  | Statement.Insert s => collect_insert s c types
  | Statement.CreateTable _ | Statement.CreateIndex _ => Ok types
  | Statement.Explain _ inner => collect_statement inner c types
  | Statement.Begin | Statement.Commit | Statement.Rollback => Ok types
  end.

(** [for index in 1..=max { .. }] *)
Fixpoint finalize_from (n : nat) (index : Z) (types : ParamTypes) : outcome PlannerError (list (option DataType.t)) :=
  match n with
  | O => Ok []
  | S n =>
      match types !! index with
      | Some d => rest ← finalize_from n (index + 1) types; Ok (d :: rest)
      | None => Err (UndefinedParameter index)
      end
  end.
Definition max_key (types : ParamTypes) : option Z :=
  match fst <$> map_to_list types with [] => None | x :: l => Some (fold_left Z.max l x) end.
Definition finalize (types : ParamTypes) : outcome PlannerError (list (option DataType.t)) :=
  match max_key types with None => Ok [] | Some max => finalize_from (Z.to_nat max) 1 types end.

Definition infer_parameter_types (statement : Statement.t) (c : CatalogState) : outcome PlannerError (list (option DataType.t)) :=
  types ← collect_statement statement c ∅;
  finalize types.

(** ** Substitution *)
Fixpoint scan_expr (e : Expr.t) (max : Z) : Z :=
  match e with
  | Expr.Param index => if max <? index then index else max
  | Expr.Literal _ | Expr.Column _ _ | Expr.SessionContext _ => max
  | Expr.UnaryOp _ e | Expr.IsNull e _ => scan_expr e max
  | Expr.BinaryOp l _ r => scan_expr r (scan_expr l max)
  end.
Definition scan_item (max : Z) (item : SelectItem) : Z := match item with ItemExpr e => scan_expr e max | Wildcard => max end.
Definition scan_exprs (max : Z) (es : list Expr.t) : Z := fold_left (fun max e => scan_expr e max) es max.
Fixpoint scan_statement (statement : Statement.t) (max : Z) : Z :=
  match statement with
  | Statement.Select s =>
      let max := fold_left scan_item (items s) max in
      match where_clause s with Some e => scan_expr e max | None => max end
  | Statement.Insert s => fold_left scan_exprs (SqlParser.values s) max
  | Statement.CreateTable _ | Statement.CreateIndex _ => max
  | Statement.Explain _ inner => scan_statement inner max
  | Statement.Begin | Statement.Commit | Statement.Rollback => max
  end.
Definition max_parameter_index (statement : Statement.t) : Z := scan_statement statement 0.

Section substitute.
Context (vs : list Value.t).

(** [values[(index - 1) as usize]]: out of range panics. *)
Fixpoint substitute_expr (e : Expr.t) : outcome PlannerError Expr.t :=
  match e with
  | Expr.Param index => v ← or_panic (Prelude.index vs (index - 1)); Ok (Expr.Literal v)
  | Expr.Literal v => Ok (Expr.Literal v)
  | Expr.SessionContext name => Ok (Expr.SessionContext name)
  | Expr.Column table name => Ok (Expr.Column table name)
  | Expr.BinaryOp l op r => l ← substitute_expr l; r ← substitute_expr r; Ok (Expr.BinaryOp l op r)
  | Expr.UnaryOp op e => e ← substitute_expr e; Ok (Expr.UnaryOp op e)
  | Expr.IsNull e negated => e ← substitute_expr e; Ok (Expr.IsNull e negated)
  end.
Definition substitute_item (item : SelectItem) : outcome PlannerError SelectItem :=
  match item with Wildcard => Ok Wildcard | ItemExpr e => e ← substitute_expr e; Ok (ItemExpr e) end.
Definition substitute_select (select : SelectStatement) : outcome PlannerError SelectStatement :=
  its ← mapM substitute_item (items select);
  w ← match where_clause select with Some e => e ← substitute_expr e; Ok (Some e) | None => Ok None end;
  Ok (mkSelect its (from select) w).
Definition substitute_insert (insert : InsertStatement) : outcome PlannerError InsertStatement :=
  rows ← mapM (fun row => mapM substitute_expr row) (SqlParser.values insert);
  Ok (mkInsert (SqlParser.insert_table insert) (insert_columns insert) rows).
Fixpoint substitute_statement (statement : Statement.t) : outcome PlannerError Statement.t :=
  match statement with
  | Statement.Select s => s ← substitute_select s; Ok (Statement.Select s)
  | Statement.Insert s => s ← substitute_insert s; Ok (Statement.Insert s)
  | Statement.CreateTable s => Ok (Statement.CreateTable s)
  | Statement.CreateIndex s => Ok (Statement.CreateIndex s)
  | Statement.Explain verbose inner => inner ← substitute_statement inner; Ok (Statement.Explain verbose inner)
  | Statement.Begin => Ok Statement.Begin
  | Statement.Commit => Ok Statement.Commit
  | Statement.Rollback => Ok Statement.Rollback
  end.

Definition substitute_parameters (statement : Statement.t) : outcome PlannerError Statement.t :=
  let expected := max_parameter_index statement in
  if negb (expected =? len vs) then Err (ParameterCountMismatch expected (len vs))
  else substitute_statement statement.
End substitute.

(** ** The parameters of a statement *)
Fixpoint expr_params (e : Expr.t) : list Z :=
  match e with
  | Expr.Param index => [index]
  | Expr.Literal _ | Expr.Column _ _ | Expr.SessionContext _ => []
  | Expr.UnaryOp _ e | Expr.IsNull e _ => expr_params e
  | Expr.BinaryOp l _ r => expr_params l ++ expr_params r
  end.
Definition item_params (item : SelectItem) : list Z := match item with ItemExpr e => expr_params e | Wildcard => [] end.
Fixpoint statement_params (statement : Statement.t) : list Z :=
  match statement with
  | Statement.Select s => (items s ≫= item_params) ++ match where_clause s with Some e => expr_params e | None => [] end
  | Statement.Insert s => SqlParser.values s ≫= fun row => row ≫= expr_params
  | Statement.Explain _ inner => statement_params inner
  | _ => []
  end.

(** [m] is the largest of [l] and [a]. *)
Definition max_of (l : list Z) (a : Z) : Z := fold_left Z.max l a.
Lemma max_of_app l k a : max_of (l ++ k) a = max_of k (max_of l a).
Proof. apply fold_left_app. Qed.
Lemma max_of_ge l : forall a, a <= max_of l a.
Proof. induction l as [| x l IH]; intros a; [done |]. cbn. specialize (IH (Z.max a x)). unfold max_of in IH. lia. Qed.
Lemma max_of_elem l x : forall a, x ∈ l -> x <= max_of l a.
Proof.
  induction l as [| y l IH]; intros a; [by intros ?%not_elem_of_nil |]. cbn. intros [-> | Hx]%elem_of_cons; [| by apply IH].
  pose proof (max_of_ge l (Z.max a y)). unfold max_of in H. lia.
Qed.
Lemma max_of_in l : forall a, max_of l a = a \/ max_of l a ∈ l.
Proof.
  induction l as [| x l IH]; intros a; [by left |]. cbn. destruct (IH (Z.max a x)) as [E | E]; [| right; by right].
  unfold max_of in E. rewrite E. destruct (Z.max_spec a x) as [[_ ->] | [_ ->]]; [right; left | by left].
Qed.
Lemma max_of_iff l m : 0 <= m -> (forall x, x ∈ l -> x <= m) -> (m = 0 \/ m ∈ l) -> max_of l 0 = m.
Proof.
  intros H0 Hall Hin. pose proof (max_of_ge l 0). destruct (max_of_in l 0) as [E | E].
  - rewrite E. destruct Hin as [| Hin]; [done |]. pose proof (max_of_elem l m 0 Hin). lia.
  - specialize (Hall _ E). destruct Hin as [-> | Hin]; [lia |]. pose proof (max_of_elem l m 0 Hin). lia.
Qed.

Lemma scan_expr_max e : forall a, scan_expr e a = max_of (expr_params e) a.
Proof.
  induction e as [| | | l IHl op r IHr | op e IH | e IH neg | index]; intros a; cbn [scan_expr expr_params]; try done.
  - by rewrite max_of_app, IHl, IHr.
  - cbn. destruct (Z.ltb_spec a index); lia.
Qed.
Lemma fold_scan {A} (f : Z -> A -> Z) (g : A -> list Z) (l : list A) : (forall x a, f a x = max_of (g x) a) -> forall a, fold_left f l a = max_of (l ≫= g) a.
Proof. intros Hf. induction l as [| x l IH]; intros a; [done |]. cbn [fold_left mbind list_bind]. by rewrite max_of_app, Hf, IH. Qed.
Lemma max_parameter_index_max st : max_parameter_index st = max_of (statement_params st) 0.
Proof.
  unfold max_parameter_index. generalize 0. induction st as [s | s | | | | | | verbose inner IH]; intros a; cbn [scan_statement statement_params]; try done.
  - rewrite max_of_app, (fold_scan scan_item item_params) by (intros [| e] b; [done | apply scan_expr_max]).
    destruct (where_clause s) as [e |]; [apply scan_expr_max | done].
  - apply fold_scan. intros row b. apply fold_scan. intros e b'. apply scan_expr_max.
Qed.

(** ** Substitution leaves no parameter *)
Lemma index_some {A} (l : list A) i : 0 <= i < len l -> is_Some (Prelude.index l i).
Proof. intros [H1 H2]. unfold Prelude.index. rewrite (proj2 (Z.leb_le 0 i) H1). apply lookup_lt_is_Some_2. unfold len in H2. lia. Qed.

Section substitution.
Context (vs : list Value.t).
Abbreviation in_range := (Forall (fun i => 1 <= i <= len vs)).

Lemma substitute_expr_ok e : in_range (expr_params e) -> exists e', substitute_expr vs e = Ok e' /\ expr_params e' = [].
Proof.
  induction e as [v | name | table name | l IHl op r IHr | op e IH | e IH neg | index]; cbn [expr_params substitute_expr]; intros H;
    try (by eexists).
  - apply Forall_app in H as [Hl Hr]. destruct (IHl Hl) as (l' & -> & El), (IHr Hr) as (r' & -> & Er). cbn. eexists. split; [done |]. cbn. by rewrite El, Er.
  - destruct (IH H) as (e' & -> & E). cbn. by eexists.
  - destruct (IH H) as (e' & -> & E). cbn. by eexists.
  - apply Forall_cons in H as [H _]. destruct (index_some vs (index - 1)) as [v ->]; [lia |]. cbn. by eexists.
Qed.

Lemma mapM_ok {A B} (f : A -> outcome PlannerError B) (params : A -> list Z) (params' : B -> list Z) (l : list A) :
  (forall x, in_range (params x) -> exists y, f x = Ok y /\ params' y = []) -> in_range (l ≫= params) ->
  exists l', mapM f l = Ok l' /\ l' ≫= params' = [].
Proof.
  intros Hf. induction l as [| x l IH]; intros H; [by exists [] |]. cbn [mbind list_bind] in H. apply Forall_app in H as [Hx Hl].
  destruct (Hf x Hx) as (y & Ey & Py), (IH Hl) as (l' & El & Pl). exists (y :: l'). cbn [mapM]. rewrite Ey. cbn. rewrite El. cbn. split; [done |].
  cbn [mbind list_bind]. by rewrite Py, Pl.
Qed.

Lemma substitute_statement_ok st : in_range (statement_params st) -> exists st', substitute_statement vs st = Ok st' /\ statement_params st' = [].
Proof.
  induction st as [s | s | | | | | | verbose inner IH]; cbn [statement_params substitute_statement]; intros H; try (by eexists).
  - apply Forall_app in H as [Hi Hw]. unfold substitute_select.
    destruct (mapM_ok (substitute_item vs) item_params item_params (items s)) as (its & Ei & Pi); [| done |].
    { intros [| e] He; [by eexists |]. destruct (substitute_expr_ok e He) as (e' & Ee & Pe). eexists. cbn. rewrite Ee. by split. }
    rewrite Ei. cbn. destruct (where_clause s) as [e |]; cbn.
    + destruct (substitute_expr_ok e Hw) as (e' & -> & Pe). cbn. eexists. split; [done |]. cbn. by rewrite Pi, Pe.
    + eexists. split; [done |]. cbn. by rewrite Pi.
  - unfold substitute_insert.
    destruct (mapM_ok (fun row => mapM (substitute_expr vs) row) (fun row => row ≫= expr_params) (fun row => row ≫= expr_params) (SqlParser.values s)) as (rows & Er & Pr); [| done |].
    { intros row Hr. apply (mapM_ok (substitute_expr vs) expr_params); [| done]. intros e He. by apply substitute_expr_ok. }
    rewrite Er. cbn. by eexists.
  - destruct (IH H) as (st' & -> & P). cbn. by eexists.
Qed.
End substitution.

(** ** Inference finds every parameter *)
Lemma record_dom index d types : dom (record index d types) = {[index]} ∪ dom types.
Proof. unfold record. destruct (types !! index) as [[d' |] |] eqn:E; [| by rewrite dom_insert_L..]. apply elem_of_dom_2 in E. set_solver. Qed.
Lemma collect_expr_dom e s sc : forall types, dom (collect_expr e s sc types) = list_to_set (expr_params e) ∪ dom types.
Proof.
  assert (H0 : forall types : ParamTypes, dom types = list_to_set [] ∪ dom types) by (intros; by rewrite list_to_set_nil, (left_id_L ∅ (∪))).
  assert (H1 : forall i d (types : ParamTypes), dom (record i d types) = list_to_set [i] ∪ dom types).
  { intros. by rewrite record_dom, list_to_set_cons, list_to_set_nil, (right_id_L ∅ (∪)). }
  induction e as [| | | l IHl op r IHr | op e IH | e IH neg | index]; intros types; cbn [collect_expr expr_params]; try apply H0; try apply IH; try apply H1.
  assert (Hl : forall d types, dom (match l with Expr.Param index => record index d types | _ => collect_expr l s sc types end) = list_to_set (expr_params l) ∪ dom types).
  { intros d types'. destruct l; first [apply IHl | apply H1]. }
  assert (Hr : forall d types, dom (match r with Expr.Param index => record index d types | _ => collect_expr r s sc types end) = list_to_set (expr_params r) ∪ dom types).
  { intros d types'. destruct r; first [apply IHr | apply H1]. }
  rewrite Hr, Hl, list_to_set_app_L, (assoc_L (∪)). f_equal. apply (comm_L (∪)).
Qed.
Lemma fold_collect_dom {A} (f : ParamTypes -> A -> ParamTypes) (g : A -> list Z) (l : list A) :
  (forall x types, dom (f types x) = list_to_set (g x) ∪ dom types) -> forall types, dom (fold_left f l types) = list_to_set (l ≫= g) ∪ dom types.
Proof.
  intros Hf. induction l as [| x l IH]; intros types; [set_solver |]. cbn [fold_left mbind list_bind]. rewrite IH, Hf, list_to_set_app_L. set_solver.
Qed.

(** No row of an INSERT has more values than the statement has columns. *)
Fixpoint rows_fit (st : Statement.t) (c : CatalogState) : Prop :=
  match st with
  | Statement.Insert s => forall table, get_table c (SqlParser.insert_table s) = Ok table ->
      Forall (fun row => len row <= len (if decide (insert_columns s = []) then column_name <$> columns (schema table) else insert_columns s)) (SqlParser.values s)
  | Statement.Explain _ inner => rows_fit inner c
  | _ => True
  end.

Lemma collect_insert_row_dom s : forall row types types', collect_insert_row row s types = Ok types' ->
  dom types' = list_to_set (row.*1 ≫= expr_params) ∪ dom types.
Proof.
  induction row as [| [e i] row IH]; intros types types'; [intros [= <-]; set_solver |]. cbn [fmap list_fmap mbind list_bind fst].
  rewrite list_to_set_app_L. destruct e; cbn [collect_insert_row];
    try (intros H; apply IH in H; rewrite H, collect_expr_dom; set_solver).
  destruct (Prelude.index (columns s) i) as [col |]; [| done]. cbn. intros H. apply IH in H. rewrite H, record_dom. set_solver.
Qed.
Lemma collect_insert_rows_dom s targets : forall values types types', Forall (fun row => len row <= len targets) values ->
  collect_insert_rows values targets s types = Ok types' -> dom types' = list_to_set (values ≫= fun row => row ≫= expr_params) ∪ dom types.
Proof.
  induction values as [| row values IH]; intros types types' Hf; [intros [= <-]; set_solver |]. apply Forall_cons in Hf as [Hr Hf].
  cbn [collect_insert_rows mbind list_bind]. destruct (collect_insert_row (zip row targets) s types) as [types1 | |] eqn:E; [| done | done]. cbn.
  intros H. apply IH in H; [| done]. apply collect_insert_row_dom in E. rewrite fst_zip in E by (unfold len in Hr; lia).
  rewrite H, E, list_to_set_app_L. set_solver.
Qed.
Lemma mapM_length {A B} (f : A -> outcome PlannerError B) : forall l l', mapM f l = Ok l' -> length l' = length l.
Proof.
  induction l as [| x l IH]; intros l'; [by intros [= <-] |]. cbn [mapM]. destruct (f x); [| done | done]. cbn. destruct (mapM f l) as [k | |] eqn:E; [| done | done].
  cbn. intros [= <-]. cbn. by rewrite (IH k).
Qed.

Lemma collect_statement_dom c st : forall types types', rows_fit st c -> collect_statement st c types = Ok types' ->
  dom types' = list_to_set (statement_params st) ∪ dom types.
Proof.
  induction st as [s | s | | | | | | verbose inner IH]; intros types types' Hfit; cbn [collect_statement statement_params];
    try (intros [= <-]; set_solver); [| | by apply IH].
  - unfold collect_select. destruct (match from s with Some r => _ | None => _ end) as [table | |]; [| done | done]. cbn. intros [= <-].
    set (sc := (fun r => _) <$> from s). rewrite list_to_set_app_L.
    assert (Hi : forall types, dom (fold_left (collect_item (schema <$> table) sc) (items s) types) = list_to_set (items s ≫= item_params) ∪ dom types).
    { apply fold_collect_dom. intros [| e] ty; [set_solver |]. apply collect_expr_dom. }
    destruct (where_clause s) as [e |]; [rewrite collect_expr_dom, Hi | rewrite Hi]; set_solver.
  - unfold collect_insert, known_table. cbn in Hfit. destruct (get_table c (SqlParser.insert_table s)) as [table | |]; [| done | done]. cbn.
    specialize (Hfit table eq_refl). destruct (decide (insert_columns s = [])) as [E | E].
    + cbn. apply collect_insert_rows_dom. eapply Forall_impl; [exact Hfit |]. cbn. intros row. unfold len. rewrite length_seqZ, length_fmap. lia.
    + destruct (mapM _ (insert_columns s)) as [targets | |] eqn:Em; [| done | done]. cbn. apply collect_insert_rows_dom.
      eapply Forall_impl; [exact Hfit |]. cbn. intros row. unfold len. by rewrite (mapM_length _ _ _ Em).
Qed.

Lemma finalize_from_spec types : forall n i tys, finalize_from n i types = Ok tys -> length tys = n /\ forall j, i <= j < i + Z.of_nat n -> j ∈ dom types.
Proof.
  induction n as [| n IH]; intros i tys; cbn [finalize_from]; [intros [= <-]; split; [done | lia] |].
  destruct (types !! i) as [d |] eqn:E; [| done]. destruct (finalize_from n (i + 1) types) as [rest | |] eqn:Ef; [| done | done]. cbn. intros [= <-].
  destruct (IH _ _ Ef) as [Hl Hj]. split; [cbn; by rewrite Hl |]. intros j Hj'. destruct (decide (j = i)) as [-> | Hne]; [by apply elem_of_dom_2 in E |]. apply Hj. lia.
Qed.
Lemma max_key_spec types m : max_key types = Some m -> m ∈ dom types /\ forall x, x ∈ dom types -> x <= m.
Proof.
  unfold max_key. assert (Hk : forall x, x ∈ dom types <-> x ∈ (map_to_list types).*1).
  { intros x. rewrite elem_of_dom, list_elem_of_fmap. split.
    - intros [v Hv]. exists (x, v). split; [done |]. by apply elem_of_map_to_list.
    - intros ([y v] & -> & Hv%elem_of_map_to_list). by exists v. }
  destruct ((map_to_list types).*1) as [| x l]; [done |]. intros [= <-]. change (fold_left Z.max l x) with (max_of l x). split.
  - apply Hk. destruct (max_of_in l x) as [-> | H]; [left | by right].
  - intros y Hy%Hk. apply elem_of_cons in Hy as [-> | Hy]; [apply max_of_ge | by apply max_of_elem].
Qed.
Lemma max_key_none types : max_key types = None -> dom types = ∅.
Proof.
  unfold max_key. destruct (map_to_list types) as [| [x v] l] eqn:E; [| done]. intros _. apply map_to_list_empty_iff in E as ->. apply dom_empty_L.
Qed.

(** The types inferred are those of [$1] to the last parameter, each of which occurs. *)
Lemma infer_length c st tys : rows_fit st c -> Forall (fun i => 1 <= i) (statement_params st) -> infer_parameter_types st c = Ok tys ->
  len tys = max_parameter_index st /\ forall i, i ∈ statement_params st <-> 1 <= i <= len tys.
Proof.
  intros Hfit H1 H. unfold infer_parameter_types in H. destruct (collect_statement st c ∅) as [types | |] eqn:E; [| done | done]. cbn in H.
  apply (collect_statement_dom c st ∅ types Hfit) in E. rewrite dom_empty_L, (right_id_L ∅ (∪)) in E.
  assert (Hin : forall x, x ∈ statement_params st <-> x ∈ dom types) by (intros x; rewrite E; set_solver). rewrite Forall_forall in H1.
  unfold finalize in H. destruct (max_key types) as [m |] eqn:Em.
  - destruct (max_key_spec _ _ Em) as [Hm Hle]. destruct (finalize_from_spec _ _ _ _ H) as [Hl Hj]. assert (1 <= m) by (by apply H1, Hin).
    assert (El : len tys = m) by (unfold len; lia). rewrite El. split.
    + symmetry. rewrite max_parameter_index_max. apply max_of_iff; [lia | intros x Hx; by apply Hle, Hin | right; by apply Hin].
    + intros x. split; [intros Hx; split; [by apply H1 | by apply Hle, Hin] |]. intros Hx. apply Hin, Hj. lia.
  - injection H as <-. apply max_key_none in Em. assert (Hnil : statement_params st = []).
    { destruct (statement_params st) as [| x l] eqn:El; [done |]. exfalso. specialize (Hin x). rewrite Em in Hin. set_solver. }
    rewrite max_parameter_index_max, Hnil. split; [done |]. intros x. unfold len. cbn [length]. split; [set_solver | lia].
Qed.


(** [SELECT * FROM users WHERE id = $1] *)
Definition sample_query : Statement.t :=
  Statement.Select (mkSelect [Wildcard] (Some (mkTableRef (str "users") None))
    (Some (Expr.BinaryOp (Expr.Column None (str "id")) BinaryOperator.Eq (Expr.Param 1)))).
