(* ===== verification/Explain.v ===== *)
(** * EXPLAIN: crates/planner/src/explain.rs, and [output_columns] and [render] of logical_plan.rs and physical_plan.rs

    A plan as lines of text: one per node, indented by its depth, with names for ids and SQL for
    expressions and index bounds. How a double prints ([f64]'s [Display]) is a parameter. *)
From S2P Require Import Prelude Text Value Memcomparable Common SqlParser Catalog Planner.

Definition ColumnList : Type := list (bytes * option DataType.t).

(** [strings.join(sep)] and [s.repeat(n)] *)
Fixpoint join (sep : bytes) (l : list bytes) : bytes :=
  match l with
  | [] => []
  | [x] => x
  | x :: l => x ++ sep ++ join sep l
  end.
Definition indent_of (depth : nat) : bytes := concat (replicate depth (str "  ")).

(** ** Names *)
Section names.
Context (c : CatalogState).

Definition table_name (t : TableId) : bytes :=
  match get_table_by_id c t with Ok info => info_name info | _ => str "<table " ++ fmt_u t ++ str ">" end.
Definition find_index (i : IndexId) (t : TableId) : option IndexInfo :=
  find_map (fun info => if index_id info =? i then Some info else None) (indexes_for_table c t).
Definition index_name (i : IndexId) (t : TableId) : bytes :=
  match find_index i t with Some info => index_info_name info | None => str "<index " ++ fmt_u i ++ str ">" end.
Definition explain_column_name (t : TableId) (column_index : Z) : bytes :=
  match match get_table_by_id c t with Ok info => column_name <$> index (columns (schema info)) column_index | _ => None end with
  | Some name => name
  | None => str "<column " ++ fmt_u column_index ++ str ">"
  end.
Definition table_columns (t : TableId) : ColumnList :=
  match get_table_by_id c t with Ok info => (fun col => (column_name col, Some (data_type col))) <$> columns (schema info) | _ => [] end.
End names.

Definition positional (position : Z) : bytes := str "column" ++ fmt_u (position + 1).
Definition projected_column (e : BoundExpr.t) (input_cols : ColumnList) (position : Z) : bytes * option DataType.t :=
  match e with
  | BoundExpr.ColumnRef i d => (match index input_cols i with Some x => x.1 | None => positional position end, Some d)
  | BoundExpr.Literal v => (positional position, Value.data_type v)
  | BoundExpr.SessionContext name v => (SessionContextName.column_name name, Value.data_type v)
  | BoundExpr.BinaryOp _ _ _ d | BoundExpr.UnaryOp _ _ d => (positional position, Some d)
  | BoundExpr.IsNull _ _ => (positional position, Some DataType.Boolean)
  end.
Definition projected_columns (es : list BoundExpr.t) (input_cols : ColumnList) : ColumnList :=
  imap (fun position e => projected_column e input_cols (Z.of_nat position)) es.

(** ** Lines *)
Definition format_data_type (d : DataType.t) : bytes :=
  match d with
  | DataType.Boolean => str "BOOLEAN"
  | DataType.Integer => str "INTEGER"
  | DataType.BigInt => str "BIGINT"
  | DataType.Double => str "DOUBLE"
  | DataType.Varchar n => if n =? u32_max then str "TEXT" else str "VARCHAR(" ++ fmt_u n ++ str ")"
  end.
Definition cols_line (cols : ColumnList) : bytes := str "cols=[" ++ join (str ", ") cols.*1 ++ str "]".
Definition verbose_cols_line (cols : ColumnList) : bytes :=
  str "cols=[" ++ join (str ", ") ((fun x => x.1 ++ str ":" ++ match x.2 with Some d => format_data_type d | None => str "NULL" end) <$> cols) ++ str "]".
Definition push_verbose_line (out : list bytes) (depth : nat) (parts : list bytes) : list bytes :=
  match parts with [] => out | _ => out ++ [indent_of (depth + 1) ++ join (str " ") parts] end.
(** [if verbose { push_verbose_line(..) }] *)
Definition verbose_line (verbose : bool) (out : list bytes) (depth : nat) (parts : list bytes) : list bytes :=
  if verbose then push_verbose_line out depth parts else out.

Definition op_symbol (op : BinaryOperator.t) : bytes :=
  match op with
  | BinaryOperator.Eq => str "=" | BinaryOperator.NotEq => str "<>" | BinaryOperator.Lt => str "<" | BinaryOperator.LtEq => str "<="
  | BinaryOperator.Gt => str ">" | BinaryOperator.GtEq => str ">=" | BinaryOperator.And => str "AND" | BinaryOperator.Or => str "OR"
  | BinaryOperator.Plus => str "+" | BinaryOperator.Minus => str "-" | BinaryOperator.Multiply => str "*" | BinaryOperator.Divide => str "/"
  end.
Definition hex (bs : bytes) : bytes :=
  join (str " ") ((fun b => [hex_digit (Z.shiftr (Z_of_byte b) 4); hex_digit (Z.land (Z_of_byte b) 15)]) <$> bs).

(** ** Expressions and index bounds *)
Section explain.
Context (fmt_double : Z -> bytes).

Definition quote : byte := byte_of_Z 39.
Definition render_value (v : Value.t) : bytes :=
  match v with
  | Value.Null => str "NULL"
  | Value.Boolean b => if b then str "TRUE" else str "FALSE"
  | Value.Integer v | Value.BigInt v => fmt_i v
  | Value.Double bits => fmt_double bits
  | Value.Varchar s => [quote] ++ (s ≫= fun b => if decide (b = quote) then [quote; quote] else [b]) ++ [quote]
  end.

Fixpoint render_expr (e : BoundExpr.t) (cols : ColumnList) : bytes :=
  let wrapped e :=
    match e with
    | BoundExpr.BinaryOp _ _ _ _ | BoundExpr.UnaryOp _ _ _ | BoundExpr.IsNull _ _ => str "(" ++ render_expr e cols ++ str ")"
    | BoundExpr.Literal _ | BoundExpr.ColumnRef _ _ | BoundExpr.SessionContext _ _ => render_expr e cols
    end in
  match e with
  | BoundExpr.Literal v => render_value v
  | BoundExpr.SessionContext name _ => SessionContextName.column_name name
  | BoundExpr.ColumnRef i _ => match index cols i with Some x => x.1 | None => str "col" ++ fmt_u i end
  | BoundExpr.UnaryOp op e _ => match op with UnaryOperator.Not => str "NOT " ++ wrapped e | UnaryOperator.Negate => str "-" ++ wrapped e end
  | BoundExpr.BinaryOp l op r _ => wrapped l ++ str " " ++ op_symbol op ++ str " " ++ wrapped r
  | BoundExpr.IsNull e negated => wrapped e ++ str " IS " ++ (if negated then str "NOT " else []) ++ str "NULL"
  end.

Definition is_successor (start endk : bytes) : bool :=
  (len endk =? len start + 1) && bool_decide (take (length start) endk = start)
  && match endk !! length start with Some b => Z_of_byte b =? 0 | None => false end.

Definition decode_bound (bs : bytes) (d : DataType.t) : option (Value.t * bool) :=
  match decode_memcomparable bs d with
  | Ok (v, consumed) =>
      if len bs - consumed =? 0 then Some (v, false)
      else if (len bs - consumed =? 1) && match index bs consumed with Some b => Z_of_byte b =? 0 | None => false end then Some (v, true)
      else None
  | _ => None
  end.

Definition bound_part (name : bytes) (d : DataType.t) (with_sentinel without : bytes) (bound : option bytes) : option (list bytes) :=
  match bound with
  | None => Some []
  | Some bs => '(v, has_sentinel) ← decode_bound bs d; Some [name ++ str " " ++ (if has_sentinel : bool then with_sentinel else without) ++ str " " ++ render_value v]
  end.
Definition render_index_cond_inner (c : CatalogState) (i : IndexId) (t : TableId) (start endk : option bytes) : option bytes :=
  info ← find_index c i t;
  table ← match get_table_by_id c t with Ok table => Some table | _ => None end;
  column ← index (columns (schema table)) (index_column_index info);
  let name := column_name column in
  let range :=
    lo ← bound_part name (data_type column) (str ">") (str ">=") start;
    hi ← bound_part name (data_type column) (str "<=") (str "<") endk;
    Some (join (str " AND ") (lo ++ hi)) in
  match start, endk with
  | None, None => Some (str "(no bounds)")
  | Some s, Some e =>
      if is_successor s e then
        match decode_memcomparable s (data_type column) with Ok (v, _) => Some (name ++ str " = " ++ render_value v) | _ => None end
      else range
  | _, _ => range
  end.
Definition render_index_cond (c : CatalogState) (i : IndexId) (t : TableId) (start endk : option bytes) : bytes :=
  default (str "<undecodable>") (render_index_cond_inner c i t start endk).

(** ** Nodes both kinds of plan have *)
Section nodes.
Context (c : CatalogState) (verbose : bool) (depth : nat) (out : list bytes).

Definition render_one_row : list bytes := verbose_line verbose (out ++ [indent_of depth ++ str "One Row"]) depth [verbose_cols_line []].
Definition render_seq_scan (t : TableId) : list bytes :=
  verbose_line verbose (out ++ [indent_of depth ++ str "Seq Scan  table=" ++ table_name c t]) depth
    [verbose_cols_line (table_columns c t); str "table_id=" ++ fmt_u t].
Definition hex_part (label : bytes) (bound : option bytes) : list bytes := match bound with Some bs => [label ++ str "=0x" ++ hex bs] | None => [] end.
Definition render_index_scan (i : IndexId) (t : TableId) (start endk : option bytes) : list bytes :=
  verbose_line verbose
    (out ++ [indent_of depth ++ str "Index Scan  table=" ++ table_name c t ++ str " index=" ++ index_name c i t;
             indent_of depth ++ str "  Index Cond: " ++ render_index_cond c i t start endk]) depth
    ([verbose_cols_line (table_columns c t); str "table_id=" ++ fmt_u t ++ str " index_id=" ++ fmt_u i]
     ++ hex_part (str "start") start ++ hex_part (str "end") endk).
Definition render_filter (label : bytes) (pred : BoundExpr.t) (cols : ColumnList) : list bytes :=
  verbose_line verbose (out ++ [indent_of depth ++ label ++ render_expr pred cols]) depth [verbose_cols_line cols].
Definition render_projection (output_cols : ColumnList) : list bytes :=
  verbose_line verbose (out ++ [indent_of depth ++ str "Projection  " ++ cols_line output_cols]) depth [verbose_cols_line output_cols].
Definition render_insert (t : TableId) (row_count : Z) : list bytes :=
  verbose_line verbose (out ++ [indent_of depth ++ str "Insert  table=" ++ table_name c t ++ str " rows=" ++ fmt_u row_count]) depth [str "table_id=" ++ fmt_u t].
Definition render_create_table (name : bytes) (cols : list BoundColumnDef) : list bytes :=
  out ++ [indent_of depth ++ str "Create Table  table=" ++ name ++ str " cols=["
          ++ join (str ", ") ((fun col => def_name col ++ str " " ++ format_data_type (def_type col)) <$> cols) ++ str "]"].
Definition render_create_index (name : bytes) (t : TableId) (column_index : Z) : list bytes :=
  verbose_line verbose (out ++ [indent_of depth ++ str "Create Index  index=" ++ name ++ str " table=" ++ table_name c t ++ str " column=" ++ explain_column_name c t column_index])
    depth [str "table_id=" ++ fmt_u t].
End nodes.

(** ** logical_plan.rs *)
Fixpoint output_columns (c : CatalogState) (p : LogicalPlan.t) : ColumnList :=
  match p with
  | LogicalPlan.SeqScan t | LogicalPlan.IndexScan _ t _ _ => table_columns c t
  | LogicalPlan.Filter _ input => output_columns c input
  | LogicalPlan.Projection es input => projected_columns es (output_columns c input)
  | LogicalPlan.Join l r _ => output_columns c l ++ output_columns c r
  | _ => []
  end.
Fixpoint render_logical (c : CatalogState) (verbose : bool) (p : LogicalPlan.t) (depth : nat) (out : list bytes) : list bytes :=
  match p with
  | LogicalPlan.OneRow => render_one_row verbose depth out
  | LogicalPlan.SeqScan t => render_seq_scan c verbose depth out t
  | LogicalPlan.IndexScan i t s e => render_index_scan c verbose depth out i t s e
  | LogicalPlan.Filter pred input =>
      render_logical c verbose input (depth + 1) (render_filter verbose depth out (str "Filter  ") pred (output_columns c input))
  | LogicalPlan.Projection es input =>
      render_logical c verbose input (depth + 1) (render_projection verbose depth out (projected_columns es (output_columns c input)))
  | LogicalPlan.Join l r pred =>
      let out := render_filter verbose depth out (str "Nested Loop  ") pred (output_columns c l ++ output_columns c r) in
      render_logical c verbose r (depth + 1) (render_logical c verbose l (depth + 1) out)
  | LogicalPlan.Insert t rows => render_insert c verbose depth out t (len rows)
  | LogicalPlan.CreateTable name cols => render_create_table depth out name cols
  | LogicalPlan.CreateIndex name t column_index => render_create_index c verbose depth out name t column_index
  end.
Definition explain_logical (p : LogicalPlan.t) (c : CatalogState) (verbose : bool) : list bytes := render_logical c verbose p 0 [].

(** ** physical_plan.rs *)
Fixpoint physical_output_columns (c : CatalogState) (p : PhysicalPlan.t) : ColumnList :=
  match p with
  | PhysicalPlan.SeqScan t | PhysicalPlan.IndexScan _ t _ _ => table_columns c t
  | PhysicalPlan.Filter _ input => physical_output_columns c input
  | PhysicalPlan.Projection es input => projected_columns es (physical_output_columns c input)
  | PhysicalPlan.NestedLoopJoin l r _ => physical_output_columns c l ++ physical_output_columns c r
  | _ => []
  end.
Fixpoint render_physical (c : CatalogState) (verbose : bool) (p : PhysicalPlan.t) (depth : nat) (out : list bytes) : list bytes :=
  match p with
  | PhysicalPlan.OneRow => render_one_row verbose depth out
  | PhysicalPlan.SeqScan t => render_seq_scan c verbose depth out t
  | PhysicalPlan.IndexScan i t s e => render_index_scan c verbose depth out i t s e
  | PhysicalPlan.Filter pred input =>
      render_physical c verbose input (depth + 1) (render_filter verbose depth out (str "Filter  ") pred (physical_output_columns c input))
  | PhysicalPlan.Projection es input =>
      render_physical c verbose input (depth + 1) (render_projection verbose depth out (projected_columns es (physical_output_columns c input)))
  | PhysicalPlan.NestedLoopJoin l r pred =>
      let out := render_filter verbose depth out (str "Nested Loop  ") pred (physical_output_columns c l ++ physical_output_columns c r) in
      render_physical c verbose r (depth + 1) (render_physical c verbose l (depth + 1) out)
  | PhysicalPlan.Insert t rows => render_insert c verbose depth out t (len rows)
  | PhysicalPlan.CreateTable name cols => render_create_table depth out name cols
  | PhysicalPlan.CreateIndex name t column_index => render_create_index c verbose depth out name t column_index
  end.
Definition explain_physical (p : PhysicalPlan.t) (c : CatalogState) (verbose : bool) : list bytes := render_physical c verbose p 0 [].
End explain.

(** ** The two renderings agree *)
Lemma physical_columns c p : physical_output_columns c (to_physical p) = output_columns c p.
Proof.
  induction p as [| | | pred input IH | es input IH | l IHl r IHr pred | | |]; cbn [to_physical physical_output_columns output_columns]; try done.
  - by rewrite IH.
  - by rewrite IHl, IHr.
Qed.
Lemma render_physical_logical fmt_double c verbose p : forall depth out,
  render_physical fmt_double c verbose (to_physical p) depth out = render_logical fmt_double c verbose p depth out.
Proof.
  induction p as [| | | pred input IH | es input IH | l IHl r IHr pred | | |]; intros depth out; cbn [to_physical render_physical render_logical]; try done.
  - by rewrite physical_columns, IH.
  - by rewrite physical_columns, IH.
  - by rewrite !physical_columns, IHl, IHr.
Qed.

(** ** Index conditions *)

(** A key of a fixed-width type is decoded whatever follows it. *)
Lemma decode_key_app v d k rest : Value.wf v -> Value.has_type d v = true -> is_Some (DataType.fixed_width d) -> encode_memcomparable v [] = Ok k ->
  decode_memcomparable (k ++ rest) d = Ok (key_canonical v, len k).
Proof.
  intros Hv Hd Hw Hk. destruct v; destruct d; try discriminate Hd; try (by destruct Hw);
    cbn [encode_memcomparable app] in Hk; simplify_outcome; try reflexivity;
    unfold decode_memcomparable; cbn [app]; rewrite ?decide_False by (by vm_compute).
  - by destruct b.
  - rewrite read_be_u32_app.
    + unfold SIGN_BIT_32. rewrite (flip_sign 31), (unflip_sign 31) by (lia || done). done.
    + unfold SIGN_BIT_32. rewrite (flip_sign 31) by (lia || done). destruct Hv. unfold in_u. lia.
  - rewrite read_be_u64_app.
    + unfold SIGN_BIT_64. rewrite (flip_sign 63), (unflip_sign 63) by (lia || done). done.
    + unfold SIGN_BIT_64. rewrite (flip_sign 63) by (lia || done). destruct Hv. unfold in_u. lia.
  - destruct (F64.is_nan bits) eqn:En; [done |]. simplify_outcome. cbn [app].
    rewrite decide_False, decide_False by (by vm_compute).
    rewrite read_be_u64_app by (by apply order_preserving_bits_range).
    pose proof (decode_double_bits bits Hv En) as Hdec. cbv zeta in Hdec |- *. by rewrite Hdec.
Qed.

Lemma decode_bound_key v d k : Value.wf v -> Value.has_type d v = true -> is_Some (DataType.fixed_width d) -> encode_memcomparable v [] = Ok k ->
  decode_bound k d = Some (key_canonical v, false) /\ decode_bound (successor k) d = Some (key_canonical v, true).
Proof.
  intros Hv Hd Hw Hk. unfold decode_bound, successor. split.
  - pose proof (decode_key_app v d k [] Hv Hd Hw Hk) as H. rewrite app_nil_r in H. rewrite H. by rewrite Z.sub_diag.
  - rewrite (decode_key_app v d k _ Hv Hd Hw Hk). rewrite len_app. change (len [byte_of_Z 0]) with 1. replace (len k + 1 - len k) with 1 by lia. cbn [Z.eqb].
    unfold Prelude.index. rewrite (proj2 (Z.leb_le 0 (len k)) (len_nonneg k)), to_nat_len. rewrite lookup_app_r by lia. by rewrite Nat.sub_diag.
Qed.
Lemma is_successor_key k : is_successor k (successor k) = true.
Proof.
  unfold is_successor, successor. rewrite len_app. change (len [byte_of_Z 0]) with 1. rewrite Z.eqb_refl, take_app_length, bool_decide_eq_true_2 by done.
  by rewrite lookup_app_r, Nat.sub_diag by done.
Qed.

(** The operators an index scan is made of. *)
Definition range_op (op : BinaryOperator.t) : bool :=
  match op with BinaryOperator.Eq | BinaryOperator.Lt | BinaryOperator.LtEq | BinaryOperator.Gt | BinaryOperator.GtEq => true | _ => false end.

(** C39: EXPLAIN reports what an index scan looks for. The bounds the optimizer makes of a comparison of an indexed
    column with a constant are printed as that comparison, for every type of column but VARCHAR; the
    constant is printed as its key decodes, -0.0 as 0.0. *)
Theorem explain_index_condition fmt_double c i t info table column op v k :
  find_index c i t = Some info -> get_table_by_id c t = Ok table -> index (columns (schema table)) (index_column_index info) = Some column ->
  range_op op = true -> Value.wf v -> Value.has_type (data_type column) v = true -> is_Some (DataType.fixed_width (data_type column)) ->
  encode_memcomparable v [] = Ok k ->
  let '(s, e) := candidates op k in
  render_index_cond fmt_double c i t s e = column_name column ++ str " " ++ op_symbol op ++ str " " ++ render_value fmt_double (key_canonical v).
Proof.
  intros Hi Ht Hc Hop Hv Hd Hw Hk. destruct (decode_bound_key v (data_type column) k Hv Hd Hw Hk) as [H1 H2].
  unfold render_index_cond, render_index_cond_inner. rewrite Hi. cbn [mbind option_bind]. rewrite Ht. cbn [mbind option_bind]. rewrite Hc. cbn [mbind option_bind].
  destruct op; try discriminate Hop; cbn [candidates].
  - rewrite is_successor_key. pose proof (decode_key_app v _ k [] Hv Hd Hw Hk) as H. rewrite app_nil_r in H. by rewrite H.
  - unfold bound_part. by rewrite H1.
  - unfold bound_part. by rewrite H2.
  - unfold bound_part. by rewrite H2.
  - unfold bound_part. by rewrite H1.
Qed.


Lemma explain_index_condition_witness :
  let '(s, e) := candidates BinaryOperator.Gt [VALUE_TAG; byte_of_Z 128; byte_of_Z 0; byte_of_Z 0; byte_of_Z 7] in
  render_index_cond (fun _ => []) sample_catalog 0 0 s e = str "id > 7".
Proof.
  apply (explain_index_condition (fun _ => []) sample_catalog 0 0 sample_index sample_table (mkColumn (str "id") DataType.Integer false) BinaryOperator.Gt
           (Value.Integer 7)); try reflexivity; [vm_compute; done | by eexists].
Defined.
