(* ===== verification/SqlRender.v ===== *)
(** * Syntax errors as text: crates/sql/src/error.rs

    What a client is shown: the message, the line of the statement it is about and a caret. How a token
    prints ([{:?}] of its own debug text) is a parameter. *)
From S2P Require Import Prelude Text Value SqlLexer.

Section render.
Context (debug_found : Tok.t -> bytes).

Definition apostrophe : bytes := [byte_of_Z 39].
Definition sql_error_to_string (e : SqlError) : bytes :=
  match e with
  | UnexpectedChar ch offset => str "unexpected character " ++ apostrophe ++ ch ++ apostrophe ++ str " at offset " ++ fmt_u offset
  | UnterminatedString offset => str "unterminated string literal starting at offset " ++ fmt_u offset
  | UnexpectedToken expected found offset =>
      str "unexpected token " ++ debug_found found ++ str " at offset " ++ fmt_u offset ++ str ", expected " ++ expected
  | UnexpectedEof expected => str "unexpected end of input, expected " ++ expected
  | InvalidNumericLiteral text offset => str "invalid numeric literal " ++ apostrophe ++ text ++ apostrophe ++ str " at offset " ++ fmt_u offset
  | InvalidParameter text offset =>
      str "invalid parameter " ++ apostrophe ++ text ++ apostrophe ++ str " at offset " ++ fmt_u offset ++ str ": expected $1, $2, ..."
  | ExplainOfTransactionControl offset =>
      str "EXPLAIN cannot be used with BEGIN, COMMIT, or ROLLBACK at offset " ++ fmt_u offset ++ str ": they have no plan"
  | NestedExplain offset => str "EXPLAIN cannot be nested at offset " ++ fmt_u offset
  | WildcardWithoutFrom offset => str "SELECT * with no FROM clause is not valid at offset " ++ fmt_u offset
  | UndefinedFunction name offset => str "undefined function: " ++ name ++ str " at offset " ++ fmt_u offset
  end.

Definition newline : byte := byte_of_Z 10.
(** [&source[from..to]]: off a character boundary it panics. *)
Definition boundary (source : bytes) (i : nat) : bool := match source !! i with Some b => negb (Utf8.cont b) | None => true end.
Definition slice_str (source : bytes) (from to : nat) : outcome SqlError bytes :=
  if boundary source from && boundary source to && (from <=? to)%nat && (to <=? length source)%nat then Ok (take (to - from) (drop from source)) else Panic.

(** [rfind('\n').map_or(0, |i| i + 1)] and [find('\n')] *)
Definition after_last_newline (s : bytes) : nat :=
  match list_find (fun b => b = newline) (reverse s) with Some (i, _) => length s - i | None => 0 end.
Definition first_newline (s : bytes) : option nat := fst <$> list_find (fun b => b = newline) s.
(** [chars().count()] *)
Definition char_count (s : bytes) : nat := length (filter (fun b => Utf8.cont b = false) s).

Definition render (e : SqlError) (source : bytes) : outcome SqlError bytes :=
  let offset := Z.to_nat (Z.min (sql_error_offset e source) (len source)) in
  before ← slice_str source 0 offset;
  after ← slice_str source offset (length source);
  let line_start := after_last_newline before in
  let line_end := match first_newline after with Some i => offset + i | None => length source end%nat in
  line ← slice_str source line_start line_end;
  upto ← slice_str source line_start offset;
  Ok (sql_error_to_string e ++ [newline] ++ line ++ [newline] ++ replicate (char_count upto) (byte_of_Z 32) ++ str "^").
End render.
