(* ===== verification/Selects.v ===== *)
(** * What a SELECT means

    The rows of a bound SELECT over the tables as a transaction sees them: those of its table that
    satisfy the condition, each with the values of the output columns. The plan made for the statement
    denotes them, and the plan the optimizer makes of it denotes them in some order. *)
From stdpp Require Import sorting.
From S2P Require Import Prelude Text Value Memcomparable Tuple Common Errors LockManager VersionStore TxnManager SqlParser.
From S2P Require Import Catalog Planner Expression BinderSpec OptimizerSpec Page Slots Heap HeapPage HeapSpec.
From S2P Require Import BtreeNode Btree BtreePage BtreeWrites BtreeTree BtreeSpec BtreeInsert BtreeScan BtreeProps.
From S2P Require Import CatalogStore Executor ExecutorReads Database Queries.

(** ** Literals of bound expressions *)
Lemma bind_unary_op_literals op x y : bind_unary_op op x = Ok y -> bound_literals_wf x.1 -> bound_literals_wf y.1.
Proof.
  destruct x as [e t]. unfold bind_unary_op. destruct op; [destruct t as [d |]; [case_decide |] | destruct t as [d |]; [cbn; destruct (is_numeric d) |]];
    cbn; try done; intros [= <-]; done.
Qed.
Lemma coerce_literal_wf v ty name v' : coerce_literal_to_column v ty name = Ok v' -> Value.wf v -> Value.wf v'.
Proof. intros H Hv. pose proof (coerce_literal_ok v ty name Hv) as Hk. by rewrite H in Hk. Qed.
Lemma coerce_comparison_literals x y s x' y' : coerce_comparison_operands x y s = Ok (x', y') ->
  bound_literals_wf x.1 -> bound_literals_wf y.1 -> bound_literals_wf x'.1 /\ bound_literals_wf y'.1.
Proof.
  destruct x as [e t], y as [e' t']. unfold coerce_comparison_operands. cbn [fst snd]. intros H H1 H2.
  destruct e as [v | i ty | | | |]; try (by simplify_eq); destruct e' as [v' | i' ty' | | | |]; try (by simplify_eq).
  - destruct (Prelude.index (columns s) i') as [col |]; [| done]. cbn in H. destruct (coerce_literal_to_column v ty' (column_name col)) as [w | |] eqn:E; [| done..].
    cbn in H. simplify_eq. split; [| done]. by eapply coerce_literal_wf.
  - destruct (Prelude.index (columns s) i) as [col |]; [| done]. cbn in H. destruct (coerce_literal_to_column v' ty (column_name col)) as [w | |] eqn:E; [| done..].
    cbn in H. simplify_eq. split; [done |]. by eapply coerce_literal_wf.
Qed.
Lemma bind_binary_op_literals op x y s z : bind_binary_op op x y s = Ok z -> bound_literals_wf x.1 -> bound_literals_wf y.1 -> bound_literals_wf z.1.
Proof.
  unfold bind_binary_op. intros H H1 H2. destruct (coerce_comparison_operands x y s) as [[[l lt] [r rt]] | |] eqn:E; [| done..]. cbn in H.
  destruct (coerce_comparison_literals _ _ _ _ _ E H1 H2) as [Hl Hr].
  assert (Hz : z.1 = BoundExpr.BinaryOp l op r DataType.Boolean); [| rewrite Hz; by split].
  destruct op; first [discriminate H | destruct (check_boolean _ lt); [| discriminate H..]; cbn in H; destruct (check_boolean _ rt); [| discriminate H..] |
    destruct (match lt with Some _ => _ | None => _ end) as [[] | |]; [| discriminate H..]]; cbn in H; by injection H as <-.
Qed.
Lemma bind_expr_literals b e s scope : literals_wf e -> forall x, bind_expr b e s scope = Ok x -> bound_literals_wf x.1.
Proof.
  induction e as [v | name | table name | l IHl op r IHr | op e IH | e IH neg | index]; intros Hl x; cbn [bind_expr].
  - by intros [= <-].
  - by intros [= <-].
  - destruct (match table with Some q => _ | None => _ end); [| done..]. cbn. destruct (column_index s name); [| done]. cbn.
    destruct (Prelude.index (columns s) z); [| done]. cbn. by intros [= <-].
  - destruct Hl as [Hl Hr]. destruct (bind_expr b l s scope) as [l' | |]; [| done..]. cbn. destruct (bind_expr b r s scope) as [r' | |]; [| done..].
    cbn. intros H. eapply bind_binary_op_literals; [exact H | by apply IHl | by apply IHr].
  - destruct (bind_expr b e s scope) as [e' | |]; [| done..]. cbn. intros H. eapply bind_unary_op_literals; [exact H | by apply IH].
  - destruct (bind_expr b e s scope) as [[e' t] | |]; [| done..]. cbn. intros [= <-]. by apply (IH Hl (e', t)).
  - done.
Qed.

Lemma bind_select_literals b s q : statement_literals_wf (Statement.Select s) -> bind_select b s = Ok q ->
  forall p, predicate q = Some p -> bound_literals_wf p.
Proof.
  intros [_ Hw] H p Hp. unfold bind_select in H. destruct (match from s with Some r => _ | None => _ end) as [table | |]; [| done..]. cbn in H.
  destruct (bind_items _ _ _ _ _) as [o | |]; [| done..]. cbn in H. destruct (bind_where _ _ _ _) as [w | |] eqn:Ew; [| done..]. cbn in H.
  injection H as <-. cbn in Hp. subst w. unfold bind_where in Ew. destruct (where_clause s) as [e |]; [| done].
  destruct (bind_expr b e _ _) as [[e' t] | |] eqn:Ee; [| done..]. cbn in Ew. pose proof (bind_expr_literals _ _ _ _ Hw _ Ee) as He'. cbn in He'.
  repeat (match type of Ew with context [match ?x with _ => _ end] => destruct x end; cbn in Ew); try discriminate Ew; by injection Ew as <-.
Qed.

(** ** The rows of a SELECT *)
Section select.
Context (m : gmap PageId bytes) (c : CatalogState) (d : Db) (vs : StoreState) (txn : Transaction).
Hypothesis Hok : db_ok m c d.
Abbreviation trows := (table_rows c d vs txn).
Abbreviation irows := (index_rows c d vs txn).

Definition source_rows (q : BoundSelect) : list Tuple := match select_table_id q with Some t => trows t | None => [[]] end.
Definition chosen (q : BoundSelect) (row : Tuple) : bool := match predicate q with Some p => satisfies p row | None => true end.
Definition output_row (q : BoundSelect) (row : Tuple) : Tuple := match evaluate_all (projections q) row with Ok t => t | _ => [] end.
Definition select_rows (q : BoundSelect) : list Tuple := output_row q <$> filter (fun row => chosen q row = true) (source_rows q).

Lemma sees_by_id t s : sees c (Some t) s -> exists info, get_table_by_id c t = Ok info /\ schema info = s.
Proof.
  intros (name & info & Hn & <- & <-). exists info. split; [| done]. pose proof (ok_catalog _ _ _ _ Hok) as Hc. unfold get_table in Hn.
  destruct (tables_by_name c !! name) as [x |] eqn:E; [| done]. injection Hn as ->. destruct (table_of_name c Hc _ _ E) as [Hname Hid].
  unfold get_table_by_id, table_by_id. rewrite Hid. cbn. by rewrite E.
Qed.
Lemma table_rows_of t s : sees c (Some t) s -> Forall (row_of s) (trows t).
Proof.
  intros (info & Hi & <-)%sees_by_id. apply Forall_forall. intros row (x & -> & Hx)%list_elem_of_fmap. apply list_elem_of_filter in Hx as [_ Hx].
  apply tuples_row_ok in Hx as (Hw & _ & Ht). split; [done |]. unfold types_of, column_types in Ht. rewrite Hi in Ht. by apply Forall2_fmap_l in Ht.
Qed.
Lemma source_rows_of q s : sees c (select_table_id q) s -> Forall (row_of s) (source_rows q).
Proof.
  unfold source_rows. destruct (select_table_id q) as [t |]; [apply table_rows_of |]. intros ->. constructor; [| constructor]. split; constructor.
Qed.

Lemma evaluate_all_ok s row es ts : row_of s row -> Forall2 (sound s) es ts -> exists tuple, evaluate_all es row = Ok tuple.
Proof.
  intros Hr. induction 1 as [| e t es ts He _ [tuple IH]]; [by exists [] |]. destruct (He row Hr) as (v & Ev & _). exists (v :: tuple). cbn. by rewrite Ev, IH.
Qed.
Lemma project_rows_ok s es ts rows : Forall (row_of s) rows -> Forall2 (sound s) es ts ->
  project_rows es rows = Ok ((fun row => match evaluate_all es row with Ok t => t | _ => [] end) <$> rows).
Proof.
  intros Hrows Hes. induction Hrows as [| row rows Hr _ IH]; [done |]. cbn [project_rows fmap list_fmap]. destruct (evaluate_all_ok s row es ts Hr Hes) as [t ->].
  cbn. by rewrite IH.
Qed.

(** The plan of a SELECT denotes its rows. *)
Lemma select_denotes q p : select_ok c q -> plan (BoundStatement.Select q) = Ok p -> query_ok c p /\ denote trows irows p = Ok (select_rows q).
Proof.
  intros (s & Hs & Hes & _ & Hp) [= <-]. pose proof (source_rows_of q s Hs) as Hrows.
  set (scan := match select_table_id q with Some t => LogicalPlan.SeqScan t | None => LogicalPlan.OneRow end).
  assert (Hscan : query_ok c scan /\ denote trows irows scan = Ok (source_rows q)).
  { unfold scan, source_rows. destruct (select_table_id q) as [t |]; [| done]. split; [| done]. destruct (sees_by_id t s Hs) as (info & Hi & _). by exists info. }
  assert (Hin : query_ok c (match predicate q with Some p => LogicalPlan.Filter p scan | None => scan end)
    /\ denote trows irows (match predicate q with Some p => LogicalPlan.Filter p scan | None => scan end)
       = Ok (filter (fun row => chosen q row = true) (source_rows q))).
  { unfold chosen. destruct (predicate q) as [w |].
    - split; [apply Hscan |]. cbn [denote]. rewrite (proj2 Hscan). cbn. apply filter_rows_ok. split; [| done]. eapply Forall_impl; [exact Hrows |].
      intros row Hr. destruct (Hp w eq_refl row Hr) as (v & Hv & _). by exists v.
    - split; [apply Hscan |]. rewrite (proj2 Hscan). f_equal. symmetry. apply filter_all. by apply Forall_true. }
  destruct Hin as [H1 H2]. split; [exact H1 |]. cbn [denote]. rewrite H2. cbn. unfold select_rows, output_row. eapply project_rows_ok; [| exact Hes].
  apply Forall_forall. intros row [_ Hr]%list_elem_of_filter. by eapply Forall_forall in Hr; [| exact Hrows].
Qed.

(** ** The optimized plan *)
Lemma index_scan_rule_query_ok p : query_ok c p -> query_ok c (index_scan_rule p c).
Proof.
  intros Hq. destruct p as [| | | pred input | | | | |]; try exact Hq. destruct input as [| t | | | | | | |]; try exact Hq. cbn [index_scan_rule].
  destruct (index_scan_bounds pred t c) as [[[i s] e] |] eqn:E; [| exact Hq]. cbn [query_ok]. unfold index_scan_bounds in E.
  destruct (find_map _ _) as [[col id] |] eqn:Ef; [| done]. cbn in E. destruct (fold_left _ _ _) as [s' e']. injection E as <- <- <-.
  apply find_map_Some in Ef as (conj & _ & Hf). destruct (column_and_literal conj) as [[[ci op] v] |]; [| done]. cbn in Hf.
  destruct (index_for_column c t ci) as [info |] eqn:Ei; [| done]. cbn in Hf. injection Hf as _ <-.
  destruct (index_for_column_by_id _ _ _ _ (ok_catalog _ _ _ _ Hok) Ei) as (H1 & H2 & _). by exists info.
Qed.
Lemma index_scan_rule_nodes p : plan_nodes (index_scan_rule p c) = plan_nodes p.
Proof.
  destruct p as [| | | pred input | | | | |]; try done. destruct input as [| t | | | | | | |]; try done. cbn [index_scan_rule].
  by destruct (index_scan_bounds pred t c) as [[[i s] e] |].
Qed.
Lemma optimize_query_ok p : query_ok c p -> query_ok c (optimize [index_scan_rule] p c) /\ plan_nodes (optimize [index_scan_rule] p c) = plan_nodes p.
Proof.
  induction p as [| | | pred input IH | es input IH | | | |]; intros Hq; cbn [optimize fold_left]; try (by split).
  - destruct (IH Hq) as [H1 H2]. split; [by apply index_scan_rule_query_ok |]. rewrite index_scan_rule_nodes. cbn. by rewrite H2.
  - destruct (IH Hq) as [H1 H2]. split; [exact H1 |]. cbn. by rewrite H2.
Qed.

(** The optimizer's plan denotes the rows of the SELECT, in some order. *)
Lemma optimized_select q p : fixed_width_keys c -> select_ok c q -> (forall w, predicate q = Some w -> bound_literals_wf w) ->
  plan (BoundStatement.Select q) = Ok p ->
  query_ok c (optimize [index_scan_rule] p c) /\ (plan_nodes (optimize [index_scan_rule] p c) <= 3)%nat
  /\ exists rows, denote trows irows (optimize [index_scan_rule] p c) = Ok rows /\ rows ≡ₚ select_rows q.
Proof.
  intros Hfw Hq Hl Hp. destruct (select_denotes q p Hq Hp) as [H1 H2]. destruct (optimize_query_ok p H1) as [H3 H4]. split; [done |]. split.
  { rewrite H4. injection Hp as <-. destruct (predicate q), (select_table_id q); cbn; lia. }
  destruct (optimize_ok trows irows c p) with (rows := select_rows q) as (rows & Hr & Hperm); [by apply (db_index_scan_contract m) | | | done |].
  { intros t. apply (table_rows_wf c d vs txn t). }
  - injection Hp as <-. destruct (predicate q) as [w |] eqn:Ew, (select_table_id q); cbn; try done; split; try done; by apply Hl.
  - exists rows. split; [done |]. by rewrite Hperm.
Qed.
End select.
