(* ===== verification/Engine.v ===== *)
(** * The engine: crates/engine/src/runtime.rs, result_set.rs, statement_description.rs, database.rs

    Sessions and their transactions, the statements they run, checkpoints, and the messages the engine
    thread dispatches. A job of the worker pool runs to its end before the next: what interleaves are the
    statements of the sessions. Clocks are arguments; spans, metrics and log lines are left out. The
    texts the standard library prints ([{:?}] of tokens and values, doubles) are a parameter. *)
From S2P Require Import Prelude Text Value Memcomparable Tuple Common Errors WalRecord LockManager VersionStore TxnManager.
From S2P Require Import SqlLexer SqlParser SqlRender Catalog Planner Parameters Explain Expression.
From S2P Require Import Replacer Device SegmentStore Log Page Header Disk Dwb Buffer Recovery Heap BtreeNode Btree CatalogStore Executor.

(** ** Errors *)
Record Texts : Type := mkTexts {
  debug_found : Tok.t -> bytes;
  fmt_double : Z -> bytes;
  exec_text : Exec.Error -> bytes;
  row_text : TupleError -> bytes;
}.

Section errors.
Context (T : Texts).

(** catalog/src/error.rs, planner/src/error.rs and executor/src/error.rs: [impl From<..> for common::Error] *)
Definition of_catalog_error (e : CatalogError) : Db.Error :=
  match e with
  | TableAlreadyExists name => Db.DuplicateTable name
  | TableNotFound name => Db.UndefinedTable name
  | IndexAlreadyExists name => Db.DuplicateIndex name
  | IndexNotFound name => Db.UndefinedIndex name
  | ColumnNotFound table column => Db.UndefinedColumn (table ++ str "." ++ column)
  | CatalogStorage e => of_storage_error e
  | Corrupt detail => Db.DataCorrupted detail
  | CorruptRow e => Db.DataCorrupted (row_text T e)
  end.
Definition of_planner_error (e : PlannerError) : Db.Error :=
  match e with
  | UnknownTable name => Db.UndefinedTable name
  | UnknownColumn name => Db.UndefinedColumn name
  | UndefinedParameter index => Db.UndefinedParameter index
  | ColumnCountMismatch expected found => Db.ColumnCountMismatch expected found
  | ParameterCountMismatch expected found => Db.ParameterCountMismatch expected found
  | TypeMismatch detail => Db.DatatypeMismatch detail
  | AmbiguousColumn name => Db.AmbiguousColumn name
  | LiteralOutOfRange column value d => Db.NumericValueOutOfRange column value (fmt_type d)
  end.
Definition of_exec_error (e : Exec.Error) : Db.Error :=
  match e with
  | Exec.ColumnOutOfBounds _ _ | Exec.NotOperand _ | Exec.NegateOperand _ | Exec.AndOrOperand _ | Exec.CompareOperands _
  | Exec.NotInitialised => Db.DatatypeMismatch (exec_text T e)
  | Exec.CorruptRow _ | Exec.MissingRow _ => Db.DataCorrupted (exec_text T e)
  | Exec.NotSupported detail => Db.NotSupported detail
  | Exec.StorageError e => of_storage_error e
  | Exec.CatalogError e => of_catalog_error e
  | Exec.LockError e => Txn.into_db e
  end.

Definition syntax_error {A} (e : SqlError) (sql : bytes) : outcome Db.Error A :=
  match e with
  | SqlLexer.UndefinedFunction name _ => Err (Db.UndefinedFunction name)
  | _ => match render (debug_found T) e sql with
         | Ok message => Err (Db.Syntax message (sql_error_offset e sql))
         | _ => Panic
         end
  end.
Definition parsed (sql : bytes) : outcome Db.Error Statement.t :=
  match parse_sql sql with
  | Ok st => Ok st
  | Err e => syntax_error e sql
  | Panic => Panic
  end.
End errors.

(** [map_err(Error::from)] *)
Definition map_err {E E' A} (f : E -> E') (o : outcome E A) : outcome E' A :=
  match o with Ok a => Ok a | Err e => Err (f e) | Panic => Panic end.

(** ** result_set.rs and statement_description.rs *)
Module ResultSet.
Inductive t : Type :=
| Rows (columns : list bytes) (column_types : list (option DataType.t)) (rows : list Tuple)
| RowsAffected (count : Z)
| RolledBack.
End ResultSet.
Record StatementDescription : Type := mkDescription { param_types : list (option DataType.t); described_columns : list (bytes * option DataType.t) }.

(** ** Sessions *)
Inductive TxnSlot : Type := SlotNone | SlotActive (t : TxnId) | SlotAborted (t : TxnId) | SlotTimedOut.
Definition slot_txn_id (s : TxnSlot) : option TxnId :=
  match s with SlotNone | SlotTimedOut => None | SlotActive t | SlotAborted t => Some t end.
Record SessionState : Type := mkSessionState { txn_slot : TxnSlot; next_stmt_id : Z; idle_since : option Z }.
Definition SessionState_new : SessionState := mkSessionState SlotNone 1 None.
Definition set_slot (s : TxnSlot) (x : SessionState) : SessionState := mkSessionState s (next_stmt_id x) (idle_since x).

(** [SessionContext::new] *)
Definition SessionContext_new (database : bytes) : SessionContext :=
  mkSession database (str "public") (str "postgres") (str "PostgreSQL 15.0 (simple_rdbms 0.1.0)").

Record CheckpointState : Type := mkCheckpointState { bytes_at_last_checkpoint : Z; checkpoints_written : Z; engine_wide_flushes : Z }.

Section engine.
Context {R : Type} `{!Replacer R} (T : Texts) (fuel : nat).
#[local] Instance engine_ops : PoolOps (BufferPool R) := pool_ops fuel.

(** ** [EngineShared] *)
Record EngineShared : Type := mkShared {
  e_catalog : CatalogState;
  e_pool : BufferPool R;
  e_txns : TransactionManager;
  e_checkpoint : CheckpointState;
  checkpoint_byte_threshold : Z;
  idle_in_transaction_timeout : Z;
  session_context : SessionContext;
}.
Abbreviation ME := (M EngineShared Db.Error).

Definition with_parts (c : CatalogState) (p : BufferPool R) (x : TransactionManager) (s : EngineShared) : EngineShared :=
  mkShared c p x (e_checkpoint s) (checkpoint_byte_threshold s) (idle_in_transaction_timeout s) (session_context s).
Definition with_checkpoint (k : CheckpointState) (s : EngineShared) : EngineShared :=
  mkShared (e_catalog s) (e_pool s) (e_txns s) k (checkpoint_byte_threshold s) (idle_in_transaction_timeout s) (session_context s).

(** [?] on the errors of the parts *)
Definition on_storage {A} (m : M (BufferPool R) Storage.Error A) : ME A := fun s =>
  let '(r, p) := m (e_pool s) in (map_err of_storage_error r, with_parts (e_catalog s) p (e_txns s) s).
Definition on_txns {A} (m : M (Sys (BufferPool R)) Txn.Error A) : ME A := fun s =>
  let '(r, y) := m (mkSys (e_txns s) (e_pool s)) in (map_err Txn.into_db r, with_parts (e_catalog s) (pool y) (mgr y) s).
Definition on_the_catalog {A} (m : M (CatSys (BufferPool R)) CatalogError A) : ME A := fun s =>
  let '(r, y) := m (mkCat (e_catalog s) (e_pool s)) in (map_err (of_catalog_error T) r, with_parts (cat y) (cat_pool y) (e_txns s) s).
(** What an executor context refers to: the catalog, the pool, the lock manager and the version store. *)
Definition on_executor {A} (m : M (XSys (BufferPool R)) Exec.Error A) : ME A := fun s =>
  let '(r, y) := m (mkX (e_catalog s) (e_pool s) (lock_manager (e_txns s)) (version_store (e_txns s))) in
  (map_err (of_exec_error T) r,
   with_parts (x_catalog y) (x_pool y) (set_versions (x_versions y) (set_locks (x_locks y) (e_txns s))) s).
(** [let _ = m;] *)
Definition ignored {S E A} (m : M S E A) : M S E unit := fun s =>
  match m s with (Panic, s) => (Panic, s) | (_, s) => (Ok tt, s) end.

(** ** Checkpoints *)
Definition record_checkpoint_written : ME unit :=
  modify (fun s => let k := e_checkpoint s in
    with_checkpoint (mkCheckpointState (bytes_at_last_checkpoint k) (wrapu 64 (checkpoints_written k + 1)) (engine_wide_flushes k)) s).
Definition record_engine_wide_flush : ME unit :=
  modify (fun s => let k := e_checkpoint s in
    with_checkpoint (mkCheckpointState (bytes_at_last_checkpoint k) (checkpoints_written k) (wrapu 64 (engine_wide_flushes k + 1))) s).
Definition log_bytes_appended (s : EngineShared) : Z := bytes_appended (log_manager (e_pool s)).

Definition checkpoint_and_flush : ME unit :=
  pending ← on_txns (write_checkpoint_record fuel);
  _ ← on_txns (finish_checkpoint pending);
  _ ← record_checkpoint_written;
  _ ← record_engine_wide_flush;
  _ ← on_storage flush_log_all;
  _ ← on_storage pool_flush_all;
  on_storage pool_sync.

Definition best_effort_flush : ME unit :=
  poisoned ← gets (fun s => flush_poisoned (e_pool s));
  match poisoned with
  | true => mret tt
  | false =>
      _ ← record_engine_wide_flush;
      _ ← ignored (on_storage flush_log_all);
      ignored (on_storage pool_flush_all)
  end.

Definition maybe_checkpoint : ME unit := fun s =>
  if flush_poisoned (e_pool s) then (Ok tt, s)
  else if wrapu 64 (log_bytes_appended s - bytes_at_last_checkpoint (e_checkpoint s)) <? checkpoint_byte_threshold s then (Ok tt, s)
  else
    match on_txns (pending ← write_checkpoint_record fuel; finish_checkpoint pending) s with
    | (Ok _, s) =>
        (_ ← modify (fun s => let k := e_checkpoint s in
               with_checkpoint (mkCheckpointState (log_bytes_appended s) (checkpoints_written k) (engine_wide_flushes k)) s);
         record_checkpoint_written) s
    | (Err _, s) => (Ok tt, s)
    | (Panic, s) => (Panic, s)
    end.

(** ** Transactions *)
Definition reload_catalog : ME unit :=
  reload_txn ← on_txns (begin SnapshotIsolation);
  _ ← on_the_catalog (reload fuel fuel reload_txn);
  on_txns (commit reload_txn).
Definition commit_txn (t : TxnId) : ME unit := on_txns (commit t).
Definition abort_txn (t : TxnId) : ME unit := on_txns (pending ← begin_abort t; undo_then_finish pending).

(** ** Statements *)
Definition run (p : PhysicalPlan.t) (t : TxnId) : ME (list Tuple) :=
  found ← gets (fun s => active (e_txns s) !! t);
  txn ← lift (ok_or found (Txn.into_db (Txn.UnknownTransaction t)));
  on_executor (run_plan fuel fuel txn p).

Definition lock_table_exclusive (t : TxnId) (table : TableId) : ME unit := on_executor (acquire_lock t (Table table) Exclusive).

(** The loop of [build_index] over the rows of the table, each of which may move the root of the tree. *)
Definition add_row (t : TxnId) (types : list DataType.t) (column : Z) (root : PageId) (rid : Rid) (row : bytes) : ME PageId :=
  tuple ← lift (map_err (fun e => Db.DataCorrupted (row_text T e)) (Tuple.decode row types));
  value ← lift (or_panic (index tuple column));
  key ← lift (map_err (fun e => of_storage_error (Storage.UnorderableKey e)) (encode_memcomparable value []));
  on_storage (btree_insert fuel t root key rid).
Fixpoint index_all (steps : nat) (t : TxnId) (types : list DataType.t) (column : Z) (it : TableIter) (root : PageId) : ME PageId := fun s =>
  match steps with
  | O => (Panic, s)
  | S steps =>
      let '(item, it, p) := iter_next fuel it (e_pool s) in
      let s := with_parts (e_catalog s) p (e_txns s) s in
      match item with
      | None => (Ok root, s)
      | Some (Ok (rid, row)) => (root ← add_row t types column root rid row; index_all steps t types column it root) s
      | Some (Err e) => (Err (of_storage_error e), s)
      | Some Panic => (Panic, s)
      end
  end.
Definition build_index (t : TxnId) (table : TableId) (column : Z) : ME PageId :=
  c ← gets e_catalog;
  info ← lift (map_err (of_catalog_error T) (get_table_by_id c table));
  root ← on_storage (btree_create t);
  index_all fuel t (Executor.column_types info) column (heap_iter (first_page_id info)) root.

(** The count an INSERT reports: the first value of the first row, if it is a [BigInt]. *)
Definition inserted_count (rows : list Tuple) : Z :=
  match rows with ((Value.BigInt count :: _) :: _) => wrapu 64 count | _ => 0 end.

Definition execute_bound (bound : BoundStatement.t) (t : TxnId) : ME ResultSet.t :=
  match bound with
  | BoundStatement.CreateTable create =>
      let sch := mkSchema ((fun col => mkColumn (def_name col) (def_type col) (def_nullable col)) <$> created_columns create) in
      _ ← on_the_catalog (CatalogStore.create_table fuel t (created_table create) sch);
      mret (ResultSet.RowsAffected 0)
  | BoundStatement.Insert insert =>
      p ← lift (map_err of_planner_error (plan (BoundStatement.Insert insert)));
      rows ← run (to_physical p) t;
      mret (ResultSet.RowsAffected (inserted_count rows))
  | BoundStatement.Select select =>
      logical ← lift (map_err of_planner_error (plan (BoundStatement.Select select)));
      c ← gets e_catalog;
      rows ← run (to_physical (optimize [index_scan_rule] logical c)) t;
      mret (ResultSet.Rows (column_names select) (Planner.column_types select) rows)
  | BoundStatement.CreateIndex create =>
      _ ← lock_table_exclusive t (created_on create);
      root ← build_index t (created_on create) (created_column create);
      _ ← on_the_catalog (create_index_with_root fuel t (created_index create) (created_on create) (created_column create) root);
      mret (ResultSet.RowsAffected 0)
  | BoundStatement.Explain _ _ => lift Panic
  end.

(** ** Sessions' statements

    The state of a statement: the shared part and the session it runs in. *)
Abbreviation MS := (M (EngineShared * SessionState) Db.Error).
Definition shared {A} (m : ME A) : MS A := fun s => let '(r, e) := m s.1 in (r, (e, s.2)).
Definition slot_to (x : TxnSlot) : MS unit := modify (fun s => (s.1, set_slot x s.2)).

Definition handle_begin : MS ResultSet.t :=
  slot ← gets (fun s => txn_slot s.2);
  match slot_txn_id slot with
  | Some _ => throw Db.NestedTransaction
  | None =>
      t ← shared (on_txns (begin SnapshotIsolation));
      _ ← slot_to (SlotActive t);
      mret (ResultSet.RowsAffected 0)
  end.

Definition handle_commit : MS ResultSet.t :=
  slot ← gets (fun s => txn_slot s.2);
  match slot with
  | SlotNone | SlotTimedOut => throw (Db.NoActiveTransaction (str "COMMIT"))
  | SlotAborted t =>
      _ ← shared (abort_txn t);
      _ ← shared reload_catalog;
      _ ← slot_to SlotNone;
      _ ← shared maybe_checkpoint;
      mret ResultSet.RolledBack
  | SlotActive t =>
      _ ← shared (commit_txn t);
      _ ← slot_to SlotNone;
      _ ← shared maybe_checkpoint;
      mret (ResultSet.RowsAffected 0)
  end.

Definition handle_rollback : MS ResultSet.t :=
  slot ← gets (fun s => txn_slot s.2);
  t ← lift (ok_or (slot_txn_id slot) (Db.NoActiveTransaction (str "ROLLBACK")));
  _ ← shared (abort_txn t);
  _ ← shared reload_catalog;
  _ ← slot_to SlotNone;
  _ ← shared maybe_checkpoint;
  mret (ResultSet.RowsAffected 0).

Definition handle_explain (statement : Statement.t) : ME ResultSet.t :=
  c ← gets e_catalog;
  ctx ← gets session_context;
  bound ← lift (map_err of_planner_error (bind (mkBinder c ctx) statement));
  match bound with
  | BoundStatement.Explain verbose inner =>
      logical ← lift (map_err of_planner_error (plan inner));
      let optimized := optimize [index_scan_rule] logical c in
      let physical := to_physical optimized in
      let lines := (if verbose then [str "Logical plan:"] ++ explain_logical (fmt_double T) optimized c verbose ++ [str "Physical plan:"] else [])
                   ++ explain_physical (fmt_double T) physical c verbose in
      mret (ResultSet.Rows [str "QUERY PLAN"] [Some (DataType.Varchar u32_max)] ((fun line => [Value.Varchar line]) <$> lines))
  | _ => lift Panic
  end.

Definition txn_for_statement : MS (TxnId * bool) :=
  slot ← gets (fun s => txn_slot s.2);
  match slot with
  | SlotActive t => mret (t, false)
  | SlotAborted _ => throw Db.TransactionAborted
  | SlotNone | SlotTimedOut => t ← shared (on_txns (begin SnapshotIsolation)); mret (t, true)
  end.

(** Binding and executing, as one result. *)
Definition bind_and_execute (statement : Statement.t) (t : TxnId) : ME ResultSet.t :=
  c ← gets e_catalog;
  ctx ← gets session_context;
  bound ← lift (map_err of_planner_error (bind (mkBinder c ctx) statement));
  execute_bound bound t.
(** What follows a statement's result: an autocommitted transaction ends with it, an open one is aborted by an error. *)
Definition settle (t : TxnId) (autocommit : bool) (m : MS ResultSet.t) : MS ResultSet.t := fun s =>
  match m s with
  | (Ok r, s) =>
      if autocommit then (_ ← shared (commit_txn t); _ ← shared maybe_checkpoint; mret r) s else (Ok r, s)
  | (Err e, s) =>
      if autocommit then (_ ← shared (ignored (abort_txn t)); _ ← shared (ignored reload_catalog); throw e) s
      else (_ ← slot_to (SlotAborted t); throw e) s
  | (Panic, s) => (Panic, s)
  end.
Definition execute_non_control_statement (statement : Statement.t) : MS ResultSet.t :=
  x ← txn_for_statement;
  settle x.1 x.2 (shared (bind_and_execute statement x.1)).

Definition execute_impl (sql : bytes) (params : list Value.t) : MS ResultSet.t :=
  slot ← gets (fun s => txn_slot s.2);
  match slot with
  | SlotTimedOut => _ ← slot_to SlotNone; throw Db.IdleInTransactionTimeout
  | _ =>
      statement ← lift (parsed T sql);
      statement ← lift (match params with [] => Ok statement | _ => map_err of_planner_error (substitute_parameters params statement) end);
      match statement with
      | Statement.Begin => handle_begin
      | Statement.Commit => handle_commit
      | Statement.Rollback => handle_rollback
      | Statement.Explain _ _ => shared (handle_explain statement)
      | other => execute_non_control_statement other
      end
  end.

Definition bump_stmt_id (x : SessionState) : SessionState := mkSessionState (txn_slot x) (wrapu 64 (next_stmt_id x + 1)) (idle_since x).
(** A session with an open transaction is idle from the end of its last statement on. *)
Definition set_idle (now : Z) (x : SessionState) : SessionState :=
  mkSessionState (txn_slot x) (next_stmt_id x) (match slot_txn_id (txn_slot x) with Some _ => Some now | None => None end).
Definition execute_with_params (now : Z) (sql : bytes) (params : list Value.t) : MS ResultSet.t := fun s =>
  let s := (s.1, bump_stmt_id s.2) in
  match (if flush_poisoned (e_pool s.1) then (Err Db.FlushPoisoned, s) else execute_impl sql params s) with
  | (Panic, s) => (Panic, s)
  | (r, s) => (r, (s.1, set_idle now s.2))
  end.
Definition execute (now : Z) (sql : bytes) : MS ResultSet.t := execute_with_params now sql [].

(** ** Describing statements *)
Definition dummy_value_for_describe (d : option DataType.t) : Value.t :=
  match d with
  | Some DataType.Integer => Value.Integer 0
  | Some DataType.BigInt => Value.BigInt 0
  | Some DataType.Double => Value.Double F64.zero
  | Some DataType.Boolean => Value.Boolean false
  | Some (DataType.Varchar _) | None => Value.Varchar []
  end.
Definition describe (sql : bytes) : ME StatementDescription :=
  statement ← lift (parsed T sql);
  c ← gets e_catalog;
  ctx ← gets session_context;
  param_types ← lift (map_err of_planner_error (infer_parameter_types statement c));
  substituted ← lift (map_err of_planner_error (substitute_parameters (dummy_value_for_describe <$> param_types) statement));
  match substituted with
  | Statement.Select select =>
      bound ← lift (map_err of_planner_error (bind (mkBinder c ctx) (Statement.Select select)));
      match bound with
      | BoundStatement.Select select => mret (mkDescription param_types (zip (column_names select) (Planner.column_types select)))
      | _ => lift Panic
      end
  | _ => mret (mkDescription param_types [])
  end.

(** ** Ends of sessions *)
Definition expire_idle_session (now : Z) : MS unit :=
  x ← gets snd;
  timeout ← gets (fun s => idle_in_transaction_timeout s.1);
  match slot_txn_id (txn_slot x), idle_since x with
  | Some t, Some since =>
      if decide (now - since < timeout) then mret tt
      else
        _ ← shared (ignored (abort_txn t));
        _ ← shared (ignored reload_catalog);
        modify (fun s => (s.1, mkSessionState SlotTimedOut (next_stmt_id s.2) None))
  | _, _ => mret tt
  end.
Definition disconnect_session (x : SessionState) : ME unit :=
  match slot_txn_id (txn_slot x) with
  | Some t => _ ← ignored (abort_txn t); ignored reload_catalog
  | None => mret tt
  end.

Definition table_schema (name : bytes) (s : EngineShared) : outcome Db.Error Schema :=
  map_err (of_catalog_error T) (info ← get_table (e_catalog s) name; Ok (schema info)).
End engine.
Arguments EngineShared R : clear implicits.
