(* ===== verification/EngineSpec.v ===== *)
(** * Transactions and statements over a database

    [begin] only appends to the log: no page changes.

    What [execute_bound] does to a database that is consistent: a SELECT returns its rows and changes
    nothing, an INSERT adds its rows, CREATE TABLE and CREATE INDEX add a table and an index; the
    database is consistent after each. *)
From stdpp Require Import sorting.
From S2P Require Import Prelude Text Value Memcomparable Tuple Common Errors WalRecord LockManager VersionStore TxnManager.
From S2P Require Import SqlLexer SqlParser SqlRender Catalog Planner Parameters Explain Expression BinderSpec OptimizerSpec.
From S2P Require Import Replacer Device SegmentStore Log Page Header Disk Dwb Slots Heap HeapPage HeapSpec Buffer BufferInv BufferFlush BufferSpec BufferLaws StorageSpec.
From S2P Require Import BtreeNode Btree BtreePage BtreeWrites BtreeTree BtreeSpec BtreeInsert BtreeScan BtreeProps.
From S2P Require Import CatalogStore Executor ExecutorReads Database Queries DatabaseFrames Inserts CatalogSpec Selects Recovery Engine.

(** ** Building an index: no page that was there before changes, so a build that fails leaves the database as it was *)
(** ** A tree under construction *)
Record building (m : gmap PageId bytes) (col : Z) (m' : gmap PageId bytes) (root : PageId) (tr : Tree) (T : list (Rid * Tuple)) : Prop := {
  bd_kept : m ⊆ m';
  bd_new : forall q, q ∈ tree_pages (tree_leaves tr) (tree_levels tr) -> m !! q = None;
  bd_tree : btree_ok m' root (tree_leaves tr) (tree_levels tr);
  bd_keys : Forall (fun x => exists k, index_key x.2 col = Ok k) T;
  bd_entries : all_entries (tree_leaves tr) ≡ₚ entry_of col <$> T;
  bd_levels : (length (tree_levels tr) <= length T)%nat;
}.

Lemma subset_outside m m' m1 ps : m ⊆ m' -> (forall q, q ∈ ps -> m !! q = None) -> same_outside ps m' m1 -> m ⊆ m1.
Proof.
  intros Hs Hn Ho. apply map_subseteq_spec. intros q b Hq. apply Ho; [by eapply lookup_weaken |]. intros Hin. by rewrite (Hn q Hin) in Hq.
Qed.
Lemma building_insert m col m' root tr T x k root' m1 : building m col m' root tr T -> index_key x.2 col = Ok k ->
  inserted (tree_leaves tr) (tree_levels tr) (k, x.1) m' root' m1 -> exists tr', building m col m1 root' tr' (x :: T).
Proof.
  intros [H1 H2 H3 H4 H5 H6] Hk (ls & lv & I1 & I2 & I3 & I4 & I5). exists (mkTree ls lv). split; cbn [tree_leaves tree_levels].
  - by eapply subset_outside.
  - intros q Hq. destruct (I5 q Hq) as [Ho | Hn]; [by apply H2 |]. destruct (m !! q) as [b |] eqn:E; [| done]. by rewrite (lookup_weaken _ _ _ _ E H1) in Hn.
  - done.
  - constructor; [by exists k | done].
  - rewrite I2, H5. cbn. unfold entry_of, key_of at 2. by rewrite Hk.
  - cbn. lia.
Qed.

Section build.
Context {P : Type} `{!PageStore P, !PageStoreLaws P}.
Implicit Types (m : gmap PageId bytes).

Lemma building_step n m col m' root tr T x k t fuel h : building m col m' root tr T -> index_key x.2 col = Ok k -> rid_ok x.1 -> x.1 ∉ T.*1 ->
  (length T <= h)%nat -> (h < fuel)%nat ->
  triple (INSERT_COST h + n) [] m' (btree_insert fuel t root k x.1 : M P Storage.Error PageId) n (fun _ => [])
    (fun root' m1 => exists tr', building m col m1 root' tr' (x :: T)) [] (fun m1 => m ⊆ m1).
Proof.
  intros Hb Hk Hrid Hnew HT Hf. pose proof Hb as [H1 H2 H3 H4 H5 H6]. destruct (decide (len k <= MAX_KEY_SIZE)) as [Hle | Hgt].
  2: { eapply triple_credits; [eapply triple_mono; [apply (btree_insert_too_large n); lia | done |] | lia | lia]. by intros m1 ->. }
  replace fuel with (length (tree_levels tr) + S (fuel - length (tree_levels tr) - 1))%nat by lia.
  pose proof (INSERT_COST_le (length (tree_levels tr)) h ltac:(lia)). eapply triple_credits; [eapply triple_mono | |].
  - apply (btree_insert_spec n m' root _ _ (k, x.1) _ t H3); [split; [done | exact Hrid] |]. rewrite H5. intros (y & Ey & Hy)%list_elem_of_fmap.
    injection Ey as _ Ey. apply Hnew. rewrite Ey. by apply list_elem_of_fmap_2.
  - intros root' m1 Hi. by eapply building_insert.
  - intros m1 Hm1. by eapply subset_outside.
  - lia.
  - done.
Qed.
End build.

Section loop.
Context {R : Type} `{!Replacer R, !PageStoreLaws (BufferPool R)} (T0 : Texts) (fuel : nat) (t : TxnId) (col : Z) (m : gmap PageId bytes) (info : TableInfo) (ch : chain).
Hypothesis Htable : table_ok m info ch.
Hypothesis Hcol : is_Some (index (column_types info) col).
Implicit Types (s : EngineShared R).

(** What of the engine a build leaves alone. *)
Definition rest_same s s' : Prop := s' = with_parts (e_catalog s) (e_pool s') (e_txns s) s.
Lemma rest_same_trans s s1 s2 : rest_same s s1 -> rest_same s1 s2 -> rest_same s s2.
Proof. unfold rest_same. intros -> ->. done. Qed.
Lemma on_storage_same {A} (e : M (BufferPool R) Storage.Error A) s : rest_same s (on_storage e s).2.
Proof. unfold on_storage, rest_same. by destruct (e (e_pool s)). Qed.

Lemma chain_kept m' q : m ⊆ m' -> q ∈ ch.*1 -> m' !! q = m !! q.
Proof using Htable.
  intros Hs Hq. destruct Htable as [Hh _]. destruct (heap_pages_stored _ _ _ q Hh Hq) as [b Hb]. rewrite Hb. by eapply lookup_weaken.
Qed.

(** One row: its key goes into the tree. *)
Lemma index_row_step n h m' root tr T x row s : stored (INSERT_COST h + n) [] (e_pool s) m' -> building m col m' root tr T ->
  (x, row) ∈ heap_list ch -> x ∉ T.*1 -> (length T <= h)%nat -> (h < fuel)%nat ->
  match add_row T0 fuel t (column_types info) col root x row s with
  | (Ok root', s') => rest_same s s' /\ exists m1 tr' tuple, decoded (column_types info) (x, row) = Some (x, tuple)
      /\ stored n [] (e_pool s') m1 /\ building m col m1 root' tr' ((x, tuple) :: T)
  | (Err e, s') => rest_same s s' /\ exists m1, stored n [] (e_pool s') m1 /\ m ⊆ m1
  | (Panic, _) => False
  end.
Proof using Htable Hcol.
  intros Hst Hb Hx Hnew HT Hf. destruct Htable as [Hheap Hdec]. rewrite Forall_forall in Hdec. destruct (Hdec _ Hx) as [tuple Htu]. cbn in Htu.
  unfold add_row. unfold mbind at 1, M_bind at 1. rewrite Htu. cbn [map_err lift]. unfold mbind at 1, M_bind at 1.
  pose proof (tuple_decode_sound row (column_types info)) as Hrow. rewrite Htu in Hrow.
  pose proof (index_key_defined (column_types info) tuple col Hrow Hcol) as Hk. unfold index_key in Hk.
  destruct (index tuple col) as [v |] eqn:Ev; [| done]. cbn in Hk |- *. unfold mbind at 1, M_bind at 1.
  destruct (encode_memcomparable v []) as [k | e |] eqn:Ek; [| | done]; cbn [map_err lift].
  - assert (Hik : index_key tuple col = Ok k) by (unfold index_key; rewrite Ev; cbn; by rewrite Ek).
    assert (Hrid : rid_ok x).
    { apply (heap_get_rid (INSERT_COST h + n) (e_pool s) m' (first_page_id info) ch x row Hst).
      - eapply heap_ok_frame; [exact Hheap |]. intros q. apply chain_kept, Hb.
      - apply heap_list_get; [by destruct Hheap as (_ & _ & _ & ?) | done]. }
    pose proof (building_step n m col m' root tr T (x, tuple) k t fuel h Hb Hik Hrid Hnew HT Hf (e_pool s) Hst) as Hins. cbn [fst snd] in Hins.
    pose proof (on_storage_same (btree_insert fuel t root k x) s) as Hsame. unfold on_storage in *.
    destruct (btree_insert fuel t root k x (e_pool s)) as [[root' | e |] p]; [| | done]; cbn [map_err snd] in *; (split; [done |]).
    + destruct Hins as (m1 & Hs1 & tr' & Hb1). exists m1, tr', tuple. unfold decoded. cbn. by rewrite Htu.
    + destruct Hins as (m1 & Hs1 & Hsub). by exists m1.
  - split; [by destruct s |]. exists m'. split; [eapply stored_le; [exact Hst | lia] | apply Hb].
Qed.

Lemma heap_rep_suffix m' c c' : heap_rep m' c -> c' `suffix_of` c -> heap_rep m' c'.
Proof. intros H [pre ->]. induction pre as [| [p ts] pre IH]; [done |]. apply IH. by destruct H as (_ & _ & ?). Qed.

(** [l] is what the loop has left to read of the heap, [T] what the tree has. *)
Lemma index_all_spec h n : (h < fuel)%nat -> (length ch + 1 < fuel)%nat -> forall l T ch' it m' root tr s steps,
  stored (length l * INSERT_COST h + n) [] (e_pool s) m' -> building m col m' root tr T ->
  ch' `suffix_of` ch -> current_page it = next_of ch' -> buffered it ++ heap_list ch' = l ->
  (forall y, y ∈ l -> y ∈ heap_list ch) -> NoDup (l.*1 ++ T.*1) -> (length l + length T <= h)%nat -> (length l < steps)%nat ->
  match index_all T0 fuel steps t (column_types info) col it root s with
  | (Ok root', s') => rest_same s s' /\ exists m1 tr' T', stored n [] (e_pool s') m1 /\ building m col m1 root' tr' T'
      /\ T' ≡ₚ omap (decoded (column_types info)) l ++ T
  | (Err _, s') => rest_same s s' /\ exists m1, stored n [] (e_pool s') m1 /\ m ⊆ m1
  | (Panic, _) => False
  end.
Proof using Htable Hcol.
  intros Hh Hfl l. induction l as [| [x row] l IH]; intros T ch' it m' root tr s steps Hst Hb Hsuf Hat Hl Hin Hnd HT Hsteps;
    (destruct steps as [| steps]; [cbn in Hsteps; lia |]); cbn [index_all];
    assert (Hrep : heap_rep m' ch') by (eapply heap_rep_suffix; [eapply heap_rep_frame; [apply Htable |]; intros q; apply chain_kept, Hb | exact Hsuf]);
    pose proof (suffix_length _ _ Hsuf);
    pose proof (iter_next_spec _ m' ch' Hrep fuel it (e_pool s) Hst Hat ltac:(lia)) as Hx;
    destruct (iter_next fuel it (e_pool s)) as [[[[y | y |] |] it'] p]; try contradiction Hx.
  - destruct Hx as (_ & c' & _ & _ & _ & E). congruence.
  - split; [reflexivity |]. exists m'. split; [exact Hx | apply Hb].
  - destruct Hx as [_ Hp]. split; [reflexivity |]. exists m', tr, T. split; [exact Hp | split; [exact Hb | reflexivity]].
  - destruct Hx as (Hp & c' & Hat' & _ & Hsuf' & E). rewrite Hl in E. assert (y = (x, row) /\ l = buffered it' ++ heap_list c') as [-> Hl'] by (split; congruence).
    cbn [fmap list_fmap fst app] in Hnd. apply NoDup_cons in Hnd as [Hx Hnd]. cbn [length] in *. 
    rewrite Nat.mul_succ_l, (Nat.add_comm _ (INSERT_COST h)), <- Nat.add_assoc in Hp. set (s1 := with_parts (e_catalog s) p (e_txns s) s).
    pose proof (index_row_step (length l * INSERT_COST h + n) h m' root tr T x row s1 Hp Hb ltac:(apply Hin; left)
                  ltac:(intros Hxt; apply Hx, elem_of_app; by right) ltac:(lia) Hh) as Hstep.
    unfold mbind at 1, M_bind at 1. assert (Hs1 : rest_same s s1) by reflexivity.
    destruct (add_row T0 fuel t (column_types info) col root x row s1) as [[root' | e |] s2]; [| | contradiction Hstep].
    + destruct Hstep as (Hsame & m1 & tr' & tuple & Hd & Hs2 & Hb').
      specialize (IH ((x, tuple) :: T) c' it' m1 root' tr' s2 steps Hs2 Hb' ltac:(by etrans) Hat' (eq_sym Hl') ltac:(intros z Hz; apply Hin; by right)).
      assert (Hnd' : NoDup (l.*1 ++ ((x, tuple) :: T).*1)).
      { cbn [fmap list_fmap fst]. rewrite <- Permutation_middle. by constructor. }
      specialize (IH Hnd' ltac:(cbn [length]; lia) ltac:(lia)). destruct (index_all _ _ _ _ _ _ _ _ _) as [[root2 | e |] s3]; [| | contradiction IH].
      * destruct IH as (Hs3 & m3 & tr3 & T3 & H1 & H2 & H3). split; [exact (rest_same_trans _ _ _ (rest_same_trans _ _ _ Hs1 Hsame) Hs3) |]. exists m3, tr3, T3. split; [exact H1 | split; [exact H2 |]].
        rewrite H3. cbn [omap list_omap]. rewrite Hd. by rewrite <- Permutation_middle.
      * destruct IH as (Hs3 & m3 & H1 & H2). split; [exact (rest_same_trans _ _ _ (rest_same_trans _ _ _ Hs1 Hsame) Hs3) |]. exists m3. by split.
    + destruct Hstep as (Hsame & m1 & Hs2 & Hm1). split; [exact (rest_same_trans _ _ _ Hs1 Hsame) |]. exists m1. split; [eapply stored_le; [exact Hs2 | lia] | exact Hm1].
  - split; [reflexivity |]. exists m'. split; [eapply stored_le; [exact Hx | lia] | apply Hb].
  - destruct Hx as [E _]. congruence.
Qed.
End loop.

Section build_index.
Context {R : Type} `{!Replacer R, !PageStoreLaws (BufferPool R)} (T0 : Texts) (fuel : nat).
Implicit Types (s : EngineShared R).

(** Log records a build of an index over [rows] rows may write. *)
Definition build_cost (rows : nat) : nat := 2 + rows * INSERT_COST rows.

Lemma build_index_spec n m d s t tid info ch col :
  stored (build_cost (length (heap_list ch)) + n) [] (e_pool s) m -> db_ok m (e_catalog s) d ->
  get_table_by_id (e_catalog s) tid = Ok info -> db_tables d !! tid = Some ch -> is_Some (index (column_types info) col) -> 0 <= col < 2 ^ 31 ->
  (length (heap_list ch) + length ch + 1 < fuel)%nat ->
  match build_index T0 fuel t tid col s with
  | (Ok root, s') => rest_same s s' /\ in_u 32 root /\ exists m' d', stored n [] (e_pool s') m' /\ db_ok m' (e_catalog s) d'
      /\ same_pages (e_catalog s) d d' /\ db_index_rows d' = db_index_rows d /\ index_built m' (e_catalog s) d' tid col root
  | (Err _, s') => rest_same s s' /\ exists m', stored n [] (e_pool s') m' /\ db_ok m' (e_catalog s) d
  | (Panic, _) => False
  end.
Proof.
  intros Hst Hok Ht Hch Hcol Hrange Hf. set (N := length (heap_list ch)) in *. unfold build_index. unfold mbind at 1, M_bind at 1, gets.
  unfold mbind at 1, M_bind at 1. rewrite Ht. cbn [map_err lift]. unfold mbind at 1, M_bind at 1.
  assert (Htable : table_ok m info ch) by (destruct (ok_tables _ _ _ _ Hok _ _ Ht) as (ch' & Hch' & ?); congruence).
  pose proof (btree_create_spec (N * INSERT_COST N + n) m t (e_pool s) Hst) as Hc. pose proof (on_storage_same (btree_create t) s) as Hsame.
  unfold on_storage in *. destruct (btree_create t (e_pool s)) as [[root | e |] p]; [| | done]; cbn [map_err snd] in *.
  2: { destruct Hc as (m' & Hp & Hm). split; [done |]. exists m'. split; [eapply stored_le; [exact Hp | lia] |]. eapply db_subset; [exact Hok |].
    apply map_subseteq_spec. intros q b Hq. apply Hm; [done | by apply not_elem_of_nil]. }
  destruct Hc as (m1 & Hp & Hnew & Hm1 & Hb). set (s1 := with_parts (e_catalog s) p (e_txns s) s) in *.
  assert (Hb1 : building m col m1 root (mkTree [mkLeaf [] root []] []) []).
  { split; cbn [tree_leaves tree_levels]; try done.
    - apply map_subseteq_spec. intros q b Hq. apply Hm1; [done | by apply not_elem_of_nil].
    - intros q Hq. unfold tree_pages in Hq. cbn in Hq. apply list_elem_of_singleton in Hq as ->. done. }
  destruct Htable as [Hheap Hdec]. pose proof Hheap as (Hne & Hhd & Hrep & Hnd).
  pose proof (index_all_spec T0 fuel t col m info ch ltac:(by split) Hcol N n ltac:(lia) ltac:(lia) (heap_list ch) [] ch (heap_iter (first_page_id info)) m1 root
                _ s1 fuel Hp Hb1 ltac:(done)) as Hall.
  assert (Hiter : current_page (heap_iter (first_page_id info)) = next_of ch).
  { destruct ch as [| [q ts] ch]; [done |]. cbn in Hhd |- *. congruence. }
  specialize (Hall Hiter eq_refl ltac:(done) ltac:(cbn [fmap list_fmap]; rewrite app_nil_r; by apply heap_list_nodup) ltac:(cbn; lia) ltac:(unfold N in *; lia)).
  destruct (index_all _ _ _ _ _ _ _ _ _) as [[root' | e |] s2]; [| | done].
  - destruct Hall as (Hs2 & m2 & tr & T & Hst2 & Hbd & HT). rewrite app_nil_r in HT. pose proof Hbd as [K1 K2 K3 K4 K5 K6].
    split; [exact (rest_same_trans _ _ _ Hsame Hs2) |]. split; [destruct (btree_root_range _ _ _ _ K3); unfold in_u; lia |].
    destruct (db_new_index m m2 (e_catalog s) d (next_index_id (e_catalog s)) tr Hok (fresh_index_not_found _ (ok_catalog _ _ _ _ Hok))) as (H1 & H2 & _).
    + intros q Hq. right. by apply K2.
    + intros q b Hq _. by eapply lookup_weaken.
    + intros q Hq. by eapply btree_pages_stored.
    + eexists m2, _. split; [exact Hst2 |]. split; [exact H1 |]. split; [exact H2 |]. split; [done |]. split; [done |]. exists info, ch, tr. cbn [db_tables db_indexes with_index].
      split; [done |]. split; [done |]. split; [by rewrite lookup_insert_eq |]. split; [done |]. apply (index_ok_perm _ _ T); [exact HT |].
      by split.
  - destruct Hall as (Hs2 & m2 & Hst2 & Hm2). split; [exact (rest_same_trans _ _ _ Hsame Hs2) |]. exists m2. split; [done |]. by eapply db_subset.
Qed.
End build_index.

(** ** Beginning transactions *)
Section pool.
Context {R : Type} `{!Replacer R, !ReplacerLaws R}.
Implicit Types (p : BufferPool R).

Lemma small_record_len l pv t k : k = Begin \/ k = Commit \/ k = EndTxn -> record_len (mkLogged l pv t k) <= MAX_RECORD.
Proof. intros [-> | [-> | ->]]; unfold record_len, encode_body, MAX_RECORD; cbn [WalRecord.kind encode_payload]; autorewrite with len; cbn; lia. Qed.

Lemma pool_append_log n p t k : pool_ok (S n) [] p -> k = Begin \/ k = Commit \/ k = EndTxn ->
  exists p', append_log t k p = (Ok (next_lsn (log_manager p)), p') /\ pool_ok n [] p' /\ pool_pages p' = pool_pages p
    /\ next_lsn (log_manager p) < next_lsn (log_manager p') /\ flush_poisoned p' = flush_poisoned p.
Proof.
  intros Hok Hk. pose proof Hok as [Hi Hfl Hld Hn1 Hn2]. unfold append_log, on_log.
  destruct (log_append_spec n t k (log_manager p) (pi_log _ _ _ _ _ Hi) (small_record_len _ _ _ _ Hk)) as (log & -> & Hroom & Hlt & _).
  destruct (logged_inv _ _ _ (S n) n p log Hi Hroom ltac:(lia) ltac:(lia)) as [H1 H2]. eexists. split; [done |]. by split_and!.
Qed.
Lemma pool_flush_log n p lsn : pool_ok n [] p -> lsn < next_lsn (log_manager p) ->
  match on_log (Log.flush lsn) p with
  | (Ok _, p') | (Err _, p') => pool_ok n [] p' /\ pool_pages p' = pool_pages p /\ flush_poisoned p' = flush_poisoned p
  | (Panic, _) => False
  end.
Proof.
  intros Hok Hlt. pose proof Hok as [Hi Hfl Hld Hn1 Hn2]. unfold on_log. pose proof (log_flush_spec n lsn (log_manager p) (pi_log _ _ _ _ _ Hi) Hlt) as Hf.
  destruct (Log.flush lsn (log_manager p)) as [[u | e |] log]; [| | done]; destruct Hf as (Hroom & Hnx & _);
    destruct (logged_inv _ _ _ n n p log Hi Hroom ltac:(lia) ltac:(lia)) as [H1 H2]; by split_and!.
Qed.
End pool.

Section txns.
Context {R : Type} `{!Replacer R, !ReplacerLaws R} (fuel : nat).
Implicit Types (s : EngineShared R).
#[local] Instance txn_ops : PoolOps (BufferPool R) := pool_ops fuel.

(** A transaction begins with a record in the log and a snapshot of the present. *)
Lemma begin_spec n s : pool_ok (S n) [] (e_pool s) ->
  let t := next_txn_id (e_txns s) in
  let txn := Transaction_new t SnapshotIsolation (next_lsn (log_manager (e_pool s))) (next_ts (e_txns s)) in
  exists p', on_txns (begin SnapshotIsolation) s
    = (Ok t, with_parts (e_catalog s) p' (mkManager (<[t := txn]> (active (e_txns s))) (wrapu 64 (t + 1)) (lock_manager (e_txns s)) (version_store (e_txns s))
         (wrapu 64 (next_ts (e_txns s) + 1))) s)
    /\ pool_ok n [] p' /\ pool_pages p' = pool_pages (e_pool s) /\ flush_poisoned p' = flush_poisoned (e_pool s).
Proof.
  intros Hok. cbv zeta. destruct (pool_append_log n (e_pool s) (next_txn_id (e_txns s)) Begin Hok ltac:(by left)) as (p' & Ha & H1 & H2 & _ & H3). exists p'.
  split; [| done]. unfold on_txns, begin, next_timestamp, on_mgr, on_pool. unfold mbind, M_bind, gets, modify. cbn [mgr pool].
  unfold TxnManager.append_log, txn_ops, pool_ops, mret, M_ret. cbn [pool mgr next_ts next_txn_id bump_ts bump_txn_id]. rewrite Ha. done.
Qed.
End txns.

(** ** Statements *)
Section statements.
Context {R : Type} `{!Replacer R, !PageStoreLaws (BufferPool R)} (T : Texts) (fuel : nat).
Abbreviation Shared := (EngineShared R).
Implicit Types (s : Shared) (m : gmap PageId bytes).

(** The part of the engine's state a statement runs on. *)
Definition xsys s : XSys (BufferPool R) := mkX (e_catalog s) (e_pool s) (lock_manager (e_txns s)) (version_store (e_txns s)).

(** A query changes nothing but locks and the buffer pool's frames. *)
Record read_only (n : nat) m s s' : Prop := {
  ro_pages : stored n [] (e_pool s') m;
  ro_catalog : e_catalog s' = e_catalog s;
  ro_versions : version_store (e_txns s') = version_store (e_txns s);
  ro_active : active (e_txns s') = active (e_txns s);
  ro_context : session_context s' = session_context s;
}.

Lemma run_ok p t txn s : active (e_txns s) !! t = Some txn -> run T fuel p t s = on_executor T (run_plan fuel fuel txn p) s.
Proof. intros Ht. unfold run, mbind, M_bind, gets, lift. by rewrite Ht. Qed.

Section query.
Context (n : nat) (m : gmap PageId bytes) (d : Db) (b : nat) (t : TxnId) (txn : Transaction) (s : Shared).
Hypothesis Hst : stored n [] (e_pool s) m.
Hypothesis Hok : db_ok m (e_catalog s) d.
Hypothesis Ht : active (e_txns s) !! t = Some txn.
Hypothesis Hlocks : uncontended txn (lock_manager (e_txns s)).
Hypothesis Hsize : db_size d b.
Hypothesis Hb : (1 <= b)%nat.
Hypothesis Hfuel : (3 * S b <= fuel)%nat.

Lemma execute_select_spec q : fixed_width_keys (e_catalog s) -> select_ok (e_catalog s) q -> (forall w, predicate q = Some w -> bound_literals_wf w) ->
  match execute_bound T fuel (BoundStatement.Select q) t s with
  | (Ok r, s') => read_only n m s s'
      /\ exists rows, r = ResultSet.Rows (column_names q) (Planner.column_types q) rows
           /\ rows ≡ₚ select_rows (e_catalog s) d (version_store (e_txns s)) txn q
  | (Err e, s') => read_only n m s s' /\ exists x, e = of_storage_error x
  | (Panic, _) => False
  end.
Proof using Hst Hok Ht Hlocks Hsize Hb Hfuel.
  intros Hfw Hq Hl. destruct (plan (BoundStatement.Select q)) as [p | |] eqn:Ep; [| discriminate Ep..].
  destruct (optimized_select m (e_catalog s) d (version_store (e_txns s)) txn Hok q p Hfw Hq Hl Ep) as (H1 & H2 & rows & Hrows & Hperm).
  cbn [execute_bound]. rewrite Ep. unfold mbind at 1, M_bind at 1. cbn [map_err lift]. unfold mbind at 1, M_bind at 1. cbn [gets].
  unfold mbind at 1, M_bind at 1. rewrite (run_ok _ t txn) by done. unfold on_executor. fold (xsys s).
  pose proof (run_plan_spec n m (e_catalog s) d (version_store (e_txns s)) txn b Hok Hsize fuel fuel _ _ H1 Hrows ltac:(nia) ltac:(nia) (xsys s)) as Hr.
  specialize (Hr ltac:(by split)). destruct (run_plan _ _ _ _ _) as [[rs | e |] y]; [| | done].
  - destruct Hr as [[H3 H4 H5 _] ->]. split; [by split |]. by eexists.
  - destruct Hr as [[H3 H4 H5 _] (x & ->)]. split; [by split |]. by exists x.
Qed.
End query.

(** ** Statements that write *)

(** What a statement leaves alone of the transactions: all but the locks and the versions. *)
Definition same_txns s s' : Prop :=
  active (e_txns s') = active (e_txns s) /\ next_txn_id (e_txns s') = next_txn_id (e_txns s) /\ next_ts (e_txns s') = next_ts (e_txns s)
  /\ session_context s' = session_context s.

Section write.
Context (n : nat) (m : gmap PageId bytes) (d : Db) (t : TxnId) (txn : Transaction) (s : Shared).
Hypothesis Hok : db_ok m (e_catalog s) d.
Hypothesis Ht : active (e_txns s) !! t = Some txn.
Hypothesis Hid : txn_txn_id txn = t.
Hypothesis Hlocks : alone t (lock_manager (e_txns s)).

(** An INSERT of [values] into a table. *)
Lemma execute_insert_spec q info values h : get_table_by_id (e_catalog s) (insert_table_id q) = Ok info -> column_types info <> [] ->
  Forall2 (fun row tuple => evaluate_all row [] = Ok tuple /\ row_ok (column_types info) tuple) (rows q) values -> len (rows q) < 2 ^ 64 ->
  depth_below d h -> (h + length (rows q) + 1 < fuel)%nat ->
  stored (insert_cost (e_catalog s) (insert_table_id q) (rows q) h + n) [] (e_pool s) m ->
  match execute_bound T fuel (BoundStatement.Insert q) t s with
  | (Ok r, s') => r = ResultSet.RowsAffected (len (rows q)) /\ same_txns s s' /\ alone t (lock_manager (e_txns s'))
      /\ exists m', stored n [] (e_pool s') m'
           /\ rows_inserted txn m (e_catalog s) d (version_store (e_txns s)) (insert_table_id q) (column_types info) values h m' (e_catalog s') (version_store (e_txns s'))
  | (Err _, s') => same_txns s s' /\ exists m', stored n [] (e_pool s') m' /\ same_outside (region (insert_table_id q) (index_ids (e_catalog s) (insert_table_id q)) d) m m'
  | (Panic, _) => False
  end.
Proof using Hok Ht Hid Hlocks.
  intros Hi Hne Hv Hlen Hdp Hf Hst. cbn [execute_bound plan map_err lift]. unfold mbind at 1, M_bind at 1, lift. unfold mbind at 1, M_bind at 1.
  cbn [to_physical]. rewrite (run_ok _ t txn) by done. unfold on_executor. fold (xsys s).
  pose proof (run_insert_spec txn m (e_catalog s) d (version_store (e_txns s)) (insert_table_id q) info (rows q) values h Hok Hi Hne Hv Hdp n fuel fuel Hf ltac:(lia) (xsys s)) as Hr.
  assert (Hx : xstored txn (insert_cost (e_catalog s) (insert_table_id q) (rows q) h + n) m (e_catalog s) (version_store (e_txns s)) (xsys s)).
  { split; [exact Hst |]. cbn. by rewrite Hid. }
  specialize (Hr Hx). destruct (run_plan _ _ _ _ _) as [[rs | e |] y]; [| | done].
  - destruct Hr as (m' & c' & vs' & (H1 & <- & <- & H4) & -> & Hins). cbn. unfold wrapu. rewrite Z.mod_small by (split; [apply len_nonneg | done]).
    split; [done |]. split; [done |]. split; [by rewrite <- Hid |]. exists m'. by split.
  - destruct Hr as (m' & c' & vs' & (H1 & H2 & H3 & H4) & HR). split; [done |]. exists m'. by split.
Qed.

(** CREATE TABLE. *)
Lemma execute_create_table_spec q : let sch := mkSchema ((fun col => mkColumn (def_name col) (def_type col) (def_nullable col)) <$> created_columns q) in
  0 <= next_table_id (e_catalog s) < u32_max -> Utf8.valid (created_table q) = true -> len (created_table q) < 2 ^ 32 -> wf_schema sch ->
  (S (length (db_table_rows d)) < fuel)%nat -> stored (11 + n) [] (e_pool s) m ->
  match execute_bound T fuel (BoundStatement.CreateTable q) t s with
  | (Ok r, s') => r = ResultSet.RowsAffected 0 /\ e_txns s' = e_txns s /\ session_context s' = session_context s
      /\ exists m' info, stored n [] (e_pool s') m' /\ table_created (e_catalog s) d (created_table q) sch info m' (e_catalog s')
  | (Err _, s') => e_txns s' = e_txns s /\ exists m', stored n [] (e_pool s') m' /\ unchanged (e_catalog s) d m' (e_catalog s')
  | (Panic, _) => False
  end.
Proof using Hok.
  intros sch H1 H2 H3 H4 H5 Hst. cbn [execute_bound]. fold sch. unfold mbind at 1, M_bind at 1, on_the_catalog.
  pose proof (create_table_spec n m (e_catalog s) d t fuel (created_table q) sch Hok H1 H2 H3 H4 H5 (e_pool s) Hst) as Hc.
  destruct (CatalogStore.create_table fuel t (created_table q) sch (mkCat (e_catalog s) (e_pool s))) as [[info | e |] y]; [| | done]; cbn [map_err].
  - destruct Hc as (m' & Hs' & Hc). split; [done |]. split; [done |]. split; [done |]. by exists m', info.
  - destruct Hc as (m' & Hs' & Hc). split; [done |]. by exists m'.
Qed.

Lemma same_pages_trans c d1 d2 d3 : same_pages c d1 d2 -> same_pages c d2 d3 -> same_pages c d1 d3.
Proof using. intros [A1 A2] [B1 B2]. split; [intros i info Hi; by rewrite (B1 _ _ Hi), (A1 _ _ Hi) | intros i info Hi; by rewrite (B2 _ _ Hi), (A2 _ _ Hi)]. Qed.

(** CREATE INDEX. *)
Lemma execute_create_index_spec q info ch : let c := e_catalog s in
  get_table_by_id c (created_on q) = Ok info -> db_tables d !! created_on q = Some ch -> is_Some (index (column_types info) (created_column q)) ->
  0 <= created_column q < 2 ^ 31 -> in_u 32 (created_on q) -> 0 <= next_index_id c < u32_max -> Utf8.valid (created_index q) = true -> len (created_index q) < 2 ^ 32 ->
  (length (heap_list ch) + length ch + length (db_index_rows d) + 1 < fuel)%nat ->
  stored (build_cost (length (heap_list ch)) + (9 + n)) [] (e_pool s) m ->
  match execute_bound T fuel (BoundStatement.CreateIndex q) t s with
  | (Ok r, s') => r = ResultSet.RowsAffected 0 /\ same_txns s s' /\ version_store (e_txns s') = version_store (e_txns s) /\ alone t (lock_manager (e_txns s'))
      /\ exists m' d1 index, stored n [] (e_pool s') m' /\ same_pages c d d1 /\ index_created c d1 (created_index q) (created_on q) (created_column q) index m' (e_catalog s')
  | (Err _, s') => same_txns s s' /\ exists m', stored n [] (e_pool s') m' /\ unchanged c d m' (e_catalog s')
  | (Panic, _) => False
  end.
Proof using Hok Hlocks.
  intros c Hi Hch Hcol Hcr Htr Hnext Hv Hl Hf Hst. cbn [execute_bound]. unfold mbind at 1, M_bind at 1, lock_table_exclusive, on_executor, acquire_lock.
  cbn [x_locks with_x_locks]. destruct (acquire_alone t (lock_manager (e_txns s)) (Table (created_on q)) Exclusive Hlocks) as (l' & -> & Hal).
  cbn [map_err]. unfold mbind at 1, M_bind at 1. set (s1 := with_parts _ _ _ s).
  assert (E1 : e_catalog s1 = c /\ e_pool s1 = e_pool s /\ same_txns s s1 /\ version_store (e_txns s1) = version_store (e_txns s) /\ alone t (lock_manager (e_txns s1))) by done.
  clearbody s1. destruct E1 as (Ec & Ep & Et & Evs & Eal). rewrite <- Ep in Hst. unfold c in *. rewrite <- Ec in *.
  pose proof (build_index_spec T fuel (9 + n) m d s1 t (created_on q) info ch (created_column q) Hst Hok Hi Hch Hcol Hcr ltac:(lia)) as Hb.
  destruct (build_index T fuel t (created_on q) (created_column q) s1) as [[root | e |] s2]; [| | done].
  2: { destruct Hb as (Hs2 & m' & H1 & H2). unfold rest_same in Hs2. rewrite Hs2. cbn. split; [done |]. exists m'.
    split; [eapply stored_le; [exact H1 | lia] |]. by apply (unchanged_refl m'). }
  destruct Hb as (Hs2 & Hroot & m1 & d1 & Hst1 & Hok1 & Hsp & Hrows & Hbuilt).
  assert (E2 : e_catalog s2 = e_catalog s1 /\ e_txns s2 = e_txns s1 /\ session_context s2 = session_context s1) by (unfold rest_same in Hs2; by rewrite Hs2).
  destruct E2 as (Ec2 & Et2 & Ex2). unfold mbind at 1, M_bind at 1, on_the_catalog.
  pose proof (create_index_with_root_spec n m1 (e_catalog s1) d1 t fuel (created_index q) (created_on q) (created_column q) root Hok1 Hnext Hv Hl Htr Hroot Hbuilt
                ltac:(rewrite Hrows; lia) (e_pool s2) Hst1) as Hc. rewrite Ec2.
  destruct (create_index_with_root _ _ _ _ _ _ _) as [[index | e |] y]; [| | done]; cbn [map_err].
  - destruct Hc as (m' & Hs' & Hc). split; [done |]. unfold same_txns. cbn. rewrite Et2, Ex2. split; [exact Et |]. split; [done |]. split; [done |].
    exists m', d1, index. done.
  - destruct Hc as (m' & Hs' & [Hsm (d2 & Hd2 & Hsp2)]). unfold same_txns. cbn. rewrite Et2, Ex2. split; [exact Et |]. exists m'. split; [done |]. split; [done |].
    exists d2. split; [done |]. by eapply same_pages_trans.
Qed.
End write.
End statements.
