(* ===== verification/Sessions.v ===== *)
(** * Statements of a session

    What the text of a statement does in a session with an open transaction: parsing, binding, planning,
    optimizing and executing it. *)
From stdpp Require Import sorting.
From S2P Require Import Prelude Text Value Memcomparable Tuple Common Errors WalRecord LockManager VersionStore TxnManager.
From S2P Require Import SqlLexer SqlParser SqlParserSpec SqlRender Catalog Planner Parameters Explain Expression BinderSpec OptimizerSpec.
From S2P Require Import Replacer Device SegmentStore Log Page Header Disk Dwb Slots Heap HeapPage HeapSpec Buffer BufferInv BufferFlush BufferSpec BufferLaws StorageSpec.
From S2P Require Import BtreeNode Btree BtreePage BtreeWrites BtreeTree BtreeSpec BtreeInsert BtreeScan BtreeProps.
From S2P Require Import CatalogStore Executor ExecutorReads Database Queries DatabaseFrames Inserts CatalogSpec CatalogReload Selects Recovery Engine EngineSpec.

(** ** Literals of parsed statements *)
Lemma wf_expr_literals e : wf_expr e = true -> literals_wf e.
Proof.
  induction e as [v | | | l IHl op r IHr | op e IH | e IH neg |]; cbn; try done.
  - destruct v; cbn; try done; intros [H1%Z.leb_le H2%Z.ltb_lt]%andb_true_iff; unfold in_s, in_u; lia.
  - intros [[H1 _]%andb_true_iff H2]%andb_true_iff. auto.
Qed.
Lemma wf_simple_literals st : wf_simple st = true -> statement_literals_wf st.
Proof.
  destruct st as [s | s | | | | | |]; cbn; try done.
  - intros [[H1 _]%andb_true_iff H3]%andb_true_iff. split; [| destruct (where_clause s); [by apply wf_expr_literals | done]].
    unfold wf_items in H1. destruct (SqlParser.items s) as [| i l]; [done |].
    assert (Hf : i = Wildcard /\ l = [] \/ forallb wf_item (i :: l) = true) by (destruct i, l; auto).
    destruct Hf as [[-> ->] | Hf]; [by repeat constructor |]. apply Forall_forall. intros [| e] He; [done |].
    rewrite forallb_forall in Hf. apply wf_expr_literals, (Hf (ItemExpr e)). by apply list_elem_of_In.
  - intros [_ H]%andb_true_iff. rewrite forallb_forall in H. apply Forall_forall. intros row Hr. apply Forall_forall. intros e He.
    apply list_elem_of_In, H, andb_true_iff in Hr as [_ Hr]. rewrite forallb_forall in Hr. by apply wf_expr_literals, Hr, list_elem_of_In.
Qed.
Lemma parse_sql_literals sql st : Utf8.valid sql = true -> parse_sql sql = Ok st -> statement_literals_wf st.
Proof.
  intros Hv Hp. pose proof (parse_sql_wf sql Hv) as H. rewrite Hp in H. destruct st as [| | | | | | | v inner]; try (by apply wf_simple_literals); try done.
  cbn in H |- *. destruct inner; try done; by apply wf_simple_literals in H.
Qed.

Section sessions.
Context {R : Type} `{!Replacer R, !PageStoreLaws (BufferPool R)} (T : Texts) (fuel : nat).
Abbreviation Shared := (EngineShared R).
Implicit Types (s : Shared) (x : SessionState).

(** A statement in an open transaction: its result, after which the transaction is open still, or aborted. *)
Lemma execute_open now sql st bound t s x : parse_sql sql = Ok st -> bind (mkBinder (e_catalog s) (session_context s)) st = Ok bound ->
  match bound with BoundStatement.Explain _ _ => False | _ => True end -> flush_poisoned (e_pool s) = false -> txn_slot x = SlotActive t ->
  execute T fuel now sql (s, x) =
    match execute_bound T fuel bound t s with
    | (Ok r, s') => (Ok r, (s', set_idle now (bump_stmt_id x)))
    | (Err e, s') => (Err e, (s', set_idle now (set_slot (SlotAborted t) (bump_stmt_id x))))
    | (Panic, s') => (Panic, (s', bump_stmt_id x))
    end.
Proof.
  intros Hp Hb Hk Hf Ht. unfold execute, execute_with_params. cbn [fst snd]. rewrite Hf. unfold execute_impl. unfold mbind at 1, M_bind at 1, gets. cbn [snd bump_stmt_id txn_slot].
  rewrite Ht. unfold mbind at 1, M_bind at 1, parsed. rewrite Hp. cbn [lift]. unfold mbind at 1, M_bind at 1. cbn [lift].
  assert (Hs : (match st with Statement.Begin => handle_begin fuel | Statement.Commit => handle_commit T fuel | Statement.Rollback => handle_rollback T fuel
     | Statement.Explain _ _ => shared (handle_explain T st) | other => execute_non_control_statement T fuel other end) (s, bump_stmt_id x)
     = execute_non_control_statement T fuel st (s, bump_stmt_id x)).
  { destruct st; try done. cbn in Hb. destruct (bind _ st) as [i | |]; [| done..]. cbn in Hb. by injection Hb as <-. }
  rewrite Hs. clear Hs. unfold execute_non_control_statement, txn_for_statement. unfold mbind, M_bind at 1, gets, M_bind at 1. cbn [snd bump_stmt_id txn_slot]. rewrite Ht.
  cbn [mret M_ret fst snd]. unfold settle, shared, bind_and_execute. unfold mbind, M_bind, gets, lift. cbn [fst snd]. rewrite Hb. cbn [map_err].
  destruct (execute_bound T fuel bound t s) as [[r | e |] s']; done.
Qed.

(** A session whose transaction [txn] is open. *)
Record open_session s x (t : TxnId) (txn : Transaction) : Prop := {
  os_slot : txn_slot x = SlotActive t;
  os_active : active (e_txns s) !! t = Some txn;
  os_id : txn_txn_id txn = t;
  os_snapshot : snapshot_isolation txn = true;
  os_context : session_ok (session_context s);
  os_flush : flush_poisoned (e_pool s) = false;
}.
(** What the statement's text binds to. *)
Definition denotes s (sql : bytes) (bound : BoundStatement.t) : Prop :=
  Utf8.valid sql = true /\ exists st, parse_sql sql = Ok st /\ bind (mkBinder (e_catalog s) (session_context s)) st = Ok bound.

Lemma denotes_ok s sql bound : session_ok (session_context s) -> denotes s sql bound -> bound_ok (e_catalog s) bound.
Proof.
  intros Hc (Hv & st & Hp & Hb). pose proof (binder_ok (mkBinder (e_catalog s) (session_context s)) st Hc) as H. rewrite Hb in H.
  apply H; [| by eapply parse_sql_literals]. pose proof (parse_sql_wf sql Hv) as Hw. rewrite Hp in Hw.
  destruct st as [| | | | | | | v inner]; try done. cbn in Hw |- *. by destruct inner.
Qed.
Lemma denotes_select_literals s sql q : denotes s sql (BoundStatement.Select q) -> forall w, predicate q = Some w -> bound_literals_wf w.
Proof.
  intros (Hv & st & Hp & Hb). pose proof (parse_sql_literals sql st Hv Hp) as Hl.
  destruct st; cbn in Hb; try discriminate Hb;
    [| destruct (bind_insert _ _); discriminate Hb | destruct (bind_create_index _ _); discriminate Hb | destruct (bind _ _); discriminate Hb].
  destruct (bind_select _ _) as [q' | |] eqn:Eq; [| discriminate Hb..]. injection Hb as ->. by eapply bind_select_literals.
Qed.


(** ** INSERT *)
Lemma mapM_evaluate_all row es tuple : mapM (fun e => evaluate e row) es = Ok tuple -> evaluate_all es row = Ok tuple.
Proof.
  revert tuple. induction es as [| e es IH]; intros tuple; [done |]. cbn [mapM evaluate_all]. destruct (evaluate e row); [| done..]. cbn.
  destruct (mapM _ es) as [vs | |]; [| done..]. cbn. intros [= <-]. by rewrite (IH vs eq_refl).
Qed.
Lemma insert_values c q info m d : db_ok m c d -> insert_ok c q -> get_table_by_id c (insert_table_id q) = Ok info ->
  exists values, Forall2 (fun row tuple => evaluate_all row [] = Ok tuple /\ row_of (schema info) tuple) (rows q) values.
Proof.
  intros Hok (sch & Hs & Hr) Hi. destruct (sees_by_id m c d Hok _ _ Hs) as (info' & Hi' & <-). rewrite Hi in Hi'. injection Hi' as <-.
  induction Hr as [| row rows (tuple & Ht & Hrow) _ (values & IH)]; [by exists [] |]. exists (tuple :: values). constructor; [| done].
  split; [by apply mapM_evaluate_all | done].
Qed.

(** The values of an INSERT are short enough to be encoded. *)
Definition values_fit (q : BoundInsert) : Prop := Forall (fun row => forall tuple, evaluate_all row [] = Ok tuple -> Forall (fun v => Tuple.fits v = true) tuple) (rows q).


(** ** CREATE TABLE *)
Definition created_schema (q : BoundCreateTable) : Schema := mkSchema ((fun col => mkColumn (def_name col) (def_type col) (def_nullable col)) <$> created_columns q).

(** Every table that was there is there, with the rows it had. *)
Definition tables_kept (c : CatalogState) (d : Db) (c' : CatalogState) (d' : Db) : Prop := forall t' info', get_table_by_id c t' = Ok info' ->
  get_table_by_id c' t' = Ok info' /\ forall vs txn, table_rows c' d' vs txn t' = table_rows c d vs txn t'.

Lemma same_pages_kept c d c' d' : (forall t' info', get_table_by_id c t' = Ok info' -> get_table_by_id c' t' = Ok info') -> same_pages c d d' -> tables_kept c d c' d'.
Proof.
  intros Hc [Hp _] t' info' Ht. split; [by apply Hc |]. intros vs txn. unfold table_rows, types_of, chain_of. by rewrite Ht, (Hc _ _ Ht), (Hp _ _ Ht).
Qed.
Lemma unchanged_kept m m' c d c' : db_ok m c d -> unchanged c d m' c' -> exists d', db_ok m' c' d' /\ tables_kept c d c' d'.
Proof.
  intros Hok [(Hm & _) (d' & Hok' & Hsp)]. exists d'. split; [done |]. apply same_pages_kept; [| done]. intros t' info'.
  rewrite !table_by_id_iff by (by eapply ok_catalog). by rewrite Hm.
Qed.

(** C8: CREATE TABLE adds an empty table with the columns given, and keeps all others with their rows; when it fails
    (the name is taken, or the storage fails) the database is consistent with the tables and rows it had. It never
    panics. *)
Theorem sql_create_table now sql q t txn s x n m d : denotes s sql (BoundStatement.CreateTable q) -> open_session s x t txn ->
  db_ok m (e_catalog s) d -> 0 <= next_table_id (e_catalog s) < u32_max -> Utf8.valid (created_table q) = true -> len (created_table q) < 2 ^ 32 ->
  wf_schema (created_schema q) -> (S (length (db_table_rows d)) < fuel)%nat -> stored (11 + n) [] (e_pool s) m ->
  match execute T fuel now sql (s, x) with
  | (Ok r, (s', x')) => r = ResultSet.RowsAffected 0 /\ txn_slot x' = SlotActive t
      /\ exists m' d' info, stored n [] (e_pool s') m' /\ db_ok m' (e_catalog s') d' /\ tables_kept (e_catalog s) d (e_catalog s') d'
           /\ get_table (e_catalog s') (created_table q) = Ok info /\ schema info = created_schema q
           /\ forall vs, table_rows (e_catalog s') d' vs txn (table_id info) = []
  | (Err _, (s', x')) => txn_slot x' = SlotAborted t
      /\ exists m' d', stored n [] (e_pool s') m' /\ db_ok m' (e_catalog s') d' /\ tables_kept (e_catalog s) d (e_catalog s') d'
  | (Panic, _) => False
  end.
Proof.
  intros Hd [H1 H2 H3 H4 H5 H6] Hok Hn Hv Hl Hw Hf Hst.
  destruct Hd as (Hu & st & Hp & Hbd). rewrite (execute_open now sql st _ t s x Hp Hbd I H6 H1).
  pose proof (execute_create_table_spec T fuel n m d t s Hok q Hn Hv Hl Hw Hf Hst) as H.
  destruct (execute_bound T fuel (BoundStatement.CreateTable q) t s) as [[r | e |] s']; [| | done].
  - destruct H as (-> & _ & _ & m' & info & Hs' & Hc). split; [done |]. split; [done |].
    destruct Hc as (Hnone & Hid & Hname & Hsch & Htn & Hin & Hix & Hnx & _ & Hget & d' & Hok' & Hsp & Hch). exists m', d', info. split; [done |]. split; [done |].
    pose proof (ok_catalog _ _ _ _ Hok) as Hc0. pose proof (ok_catalog _ _ _ _ Hok') as Hc1. split; [| split; [| split; [done |]]].
    + apply same_pages_kept; [| done]. intros t' info' Ht. apply table_by_id_iff; [done |]. apply table_by_id_iff in Ht as [Ht <-]; [| done].
      split; [| done]. rewrite Htn, lookup_insert_ne; [done |]. intros E. rewrite <- E in Ht. congruence.
    + unfold get_table. by rewrite Htn, lookup_insert_eq.
    + intros vs. unfold table_rows, chain_of. rewrite Hch. cbn. unfold tuples. done.
  - destruct H as (_ & m' & Hs' & Hun). split; [done |]. destruct (unchanged_kept _ _ _ _ _ Hok Hun) as (d' & H7 & H8). by exists m', d'.
Qed.

(** ** CREATE INDEX *)
(** C4: CREATE INDEX over a table with any number of rows builds a tree with one entry for each, registers it in the
    catalog and keeps every table with its rows; when it fails the database is consistent with the tables,
    rows and indexes it had. It never panics. *)
Theorem sql_create_index now sql q t txn s x n m d info ch : denotes s sql (BoundStatement.CreateIndex q) -> open_session s x t txn ->
  alone t (lock_manager (e_txns s)) -> db_ok m (e_catalog s) d ->
  get_table_by_id (e_catalog s) (created_on q) = Ok info -> db_tables d !! created_on q = Some ch ->
  0 <= created_column q < 2 ^ 31 -> in_u 32 (created_on q) -> 0 <= next_index_id (e_catalog s) < u32_max ->
  Utf8.valid (created_index q) = true -> len (created_index q) < 2 ^ 32 ->
  (length (heap_list ch) + length ch + length (db_index_rows d) + 1 < fuel)%nat ->
  stored (build_cost (length (heap_list ch)) + (9 + n)) [] (e_pool s) m ->
  match execute T fuel now sql (s, x) with
  | (Ok r, (s', x')) => r = ResultSet.RowsAffected 0 /\ txn_slot x' = SlotActive t
      /\ exists m' d' ix, stored n [] (e_pool s') m' /\ db_ok m' (e_catalog s') d' /\ tables_kept (e_catalog s) d (e_catalog s') d'
           /\ index_by_id (e_catalog s') (index_id ix) = Ok ix /\ index_info_name ix = created_index q
           /\ index_table_id ix = created_on q /\ index_column_index ix = created_column q
           /\ index_id ix ∈ (index_id <$> indexes_for_table (e_catalog s') (created_on q))
  | (Err _, (s', x')) => txn_slot x' = SlotAborted t
      /\ exists m' d', stored n [] (e_pool s') m' /\ db_ok m' (e_catalog s') d' /\ tables_kept (e_catalog s) d (e_catalog s') d'
  | (Panic, _) => False
  end.
Proof.
  intros Hd [H1 H2 H3 H4 H5 H6] Hal Hok Hi Hch Hcol Ht Hn Hv Hl Hf Hst. pose proof (denotes_ok _ _ _ H5 Hd) as (sch & Hs & Hc).
  destruct (sees_by_id m _ d Hok _ _ Hs) as (info' & Hi' & <-). rewrite Hi in Hi'. injection Hi' as <-.
  assert (Hc' : is_Some (index (column_types info) (created_column q))).
  { unfold column_types, index in *. destruct (0 <=? created_column q); [| done]. rewrite list_lookup_fmap. destruct Hc as [col ->]. by eexists. }
  destruct Hd as (Hu & st & Hp & Hbd). rewrite (execute_open now sql st _ t s x Hp Hbd I H6 H1).
  pose proof (execute_create_index_spec T fuel n m d t s Hok Hal q info ch Hi Hch Hc' Hcol Ht Hn Hv Hl Hf Hst) as H.
  destruct (execute_bound T fuel (BoundStatement.CreateIndex q) t s) as [[r | e |] s']; [| | done].
  - destruct H as (-> & _ & _ & _ & m' & d1 & ix & Hs' & Hsp & Hx). split; [done |]. split; [done |].
    destruct Hx as (_ & _ & Hname & Htab & Hcl & _ & _ & Hby & _ & _ & Hget & Hin & d' & Hok' & Hsp'). exists m', d', ix.
    split; [done |]. split; [done |]. split; [| by split_and!]. apply same_pages_kept; [intros t' info'; by rewrite Hby | by eapply same_pages_trans].
  - destruct H as (_ & m' & Hs' & Hun). split; [done |]. destruct (unchanged_kept _ _ _ _ _ Hok Hun) as (d' & H7 & H8). by exists m', d'.
Qed.
End sessions.
