(* ===== verification/EngineProps.v ===== *)
(** * SQL statements over a database: the theorems

    What the statements of an open transaction return and do to the database, whatever faults the
    devices have, with a small database on which they are applied. *)
From stdpp Require Import sorting.
From S2P Require Import Prelude Text Value Memcomparable Tuple Common Errors WalRecord LockManager VersionStore TxnManager.
From S2P Require Import SqlLexer SqlParser SqlParserSpec SqlRender Catalog Planner Parameters Explain Expression BinderSpec OptimizerSpec.
From S2P Require Import Replacer Device SegmentStore Log Page Header Disk Dwb Slots Heap HeapPage HeapSpec Buffer BufferInv BufferFlush BufferSpec BufferLaws StorageSpec.
From S2P Require Import BtreeNode Btree BtreePage BtreeWrites BtreeTree BtreeSpec BtreeInsert BtreeScan BtreeProps.
From S2P Require Import CatalogStore Executor ExecutorReads Database Queries DatabaseFrames Inserts CatalogSpec CatalogReload Selects Recovery.
From S2P Require Import Engine EngineSpec Sessions.

(** ** A new database *)
Definition empty_db : Db := mkDb ∅ ∅ [] [].
Lemma empty_db_ok m b : m !! 0 = Some b -> len b = PAGE_SIZE -> header_holds b 24 None -> header_holds b 40 None -> db_ok m empty_catalog empty_db.
Proof.
  intros Hb Hlen H1 H2. assert (Hp : forall p q, q ∈ part_pages empty_db p -> p = PHeader /\ q = 0).
  { intros [| t | i | |] q; cbn; try (by rewrite lookup_empty; intros ?%not_elem_of_nil); try (by intros ?%not_elem_of_nil). by intros ->%list_elem_of_singleton. }
  split; try done; try (by exists b).
  split; [intros p q [_ ->]%Hp; by rewrite Hb |]. intros p p' Hne q [-> _]%Hp [-> _]%Hp. done.
Qed.

(** What the catalog does not know of may be forgotten. *)
Definition is_table (c : CatalogState) (t : TableId) : bool := match get_table_by_id c t with Ok _ => true | _ => false end.
Definition is_index (c : CatalogState) (i : IndexId) : bool := match index_by_id c i with Ok _ => true | _ => false end.
Definition known (c : CatalogState) (d : Db) : Db :=
  mkDb (filter (fun x => is_table c x.1 = true) (db_tables d)) (filter (fun x => is_index c x.1 = true) (db_indexes d)) (db_table_rows d) (db_index_rows d).

Lemma known_table c d t info : get_table_by_id c t = Ok info -> db_tables (known c d) !! t = db_tables d !! t.
Proof.
  intros Ht. cbn. destruct (db_tables d !! t) as [ch |] eqn:E.
  - apply map_lookup_filter_Some. split; [done |]. unfold is_table. cbn. by rewrite Ht.
  - apply map_lookup_filter_None. by left.
Qed.
Lemma known_index c d i info : index_by_id c i = Ok info -> db_indexes (known c d) !! i = db_indexes d !! i.
Proof.
  intros Hi. cbn. destruct (db_indexes d !! i) as [tr |] eqn:E.
  - apply map_lookup_filter_Some. split; [done |]. unfold is_index. cbn. by rewrite Hi.
  - apply map_lookup_filter_None. by left.
Qed.
Lemma known_tables_Some c d t ch : db_tables (known c d) !! t = Some ch -> db_tables d !! t = Some ch /\ exists info, get_table_by_id c t = Ok info.
Proof. intros [H1 H2]%map_lookup_filter_Some. split; [done |]. unfold is_table in H2. cbn in H2. destruct (get_table_by_id c t) as [info | |]; [by exists info | done..]. Qed.
Lemma known_indexes_Some c d i tr : db_indexes (known c d) !! i = Some tr -> db_indexes d !! i = Some tr /\ exists info, index_by_id c i = Ok info.
Proof. intros [H1 H2]%map_lookup_filter_Some. split; [done |]. unfold is_index in H2. cbn in H2. destruct (index_by_id c i) as [info | |]; [by exists info | done..]. Qed.

Lemma known_pages c d p q : q ∈ part_pages (known c d) p -> q ∈ part_pages d p.
Proof.
  destruct p as [| t | i | |]; try done.
  - cbn [part_pages]. destruct (db_tables (known c d) !! t) as [ch |] eqn:E; [| by intros ?%not_elem_of_nil]. apply known_tables_Some in E as [-> _]. done.
  - cbn [part_pages]. destruct (db_indexes (known c d) !! i) as [tr |] eqn:E; [| by intros ?%not_elem_of_nil]. apply known_indexes_Some in E as [-> _]. done.
Qed.
Lemma known_ok m c d : db_ok m c d -> db_ok m c (known c d).
Proof.
  intros Hok. destruct (ok_layout _ _ _ _ Hok) as [L1 L2].
  split; [apply Hok | | | apply Hok | apply Hok | apply Hok | apply Hok | apply Hok | apply Hok | apply Hok |].
  - intros t info Ht. rewrite (known_table c d t info Ht). by apply Hok.
  - intros i info Hi. destruct (ok_indexes _ _ _ _ Hok i info Hi) as (table & ch & tr & T & Ht & H). rewrite (known_index c d i info Hi). exists table, ch, tr, T.
    by rewrite (known_table c d _ table Ht).
  - split; [intros p q Hq; by eapply L1, known_pages |]. intros p p' Hne q Hq Hq'. by eapply (L2 p p' Hne q); eapply known_pages.
Qed.

(** ** A small database *)
Definition sample_texts : Texts := mkTexts (fun _ => []) (fun _ => []) (fun _ => []) (fun _ => []).
Definition sample_fuel : nat := 100.
Definition opened : EngineShared LruKReplacer :=
  mkShared empty_catalog sample_pool (TransactionManager_new None) (mkCheckpointState 0 0 0) (4 * 1024 * 1024) 60000 (SessionContext_new (str "test")).
(** After BEGIN: transaction 0 is open. *)
Definition begun : EngineShared LruKReplacer := (on_txns (@begin _ (pool_ops sample_fuel) SnapshotIsolation) opened).2.
Definition sample_txn : Transaction := Transaction_new 0 SnapshotIsolation 16 0.
Definition sample_session : SessionState := mkSessionState (SlotActive 0) 2 None.
Definition run_sql (sql : bytes) (s : EngineShared LruKReplacer) : outcome Db.Error ResultSet.t * (EngineShared LruKReplacer * SessionState) :=
  execute sample_texts sample_fuel 0 sql (s, sample_session).

Definition create_users : bytes := str "CREATE TABLE users (id INTEGER, name TEXT)".
Definition insert_users : bytes := str "INSERT INTO users VALUES (1, 'ann'), (2, 'bob')".
Definition index_users : bytes := str "CREATE INDEX users_id ON users (id)".
Definition select_users : bytes := str "SELECT name FROM users WHERE id = 2".
Definition with_users : EngineShared LruKReplacer := (run_sql create_users begun).2.1.
Definition with_rows : EngineShared LruKReplacer := (run_sql insert_users with_users).2.1.
Definition with_an_index : EngineShared LruKReplacer := (run_sql index_users with_rows).2.1.

(** The header page of a new file. *)
#[global] Instance header_holds_dec b at_ p : Decision (header_holds b at_ p).
Proof. unfold header_holds. apply _. Defined.
Definition no_catalog (o : option bytes) : bool :=
  match o with Some b => (len b =? PAGE_SIZE) && bool_decide (header_holds b 24 None) && bool_decide (header_holds b 40 None) | None => false end.
Lemma no_catalog_true o : no_catalog o = true -> exists b, o = Some b /\ len b = PAGE_SIZE /\ header_holds b 24 None /\ header_holds b 40 None.
Proof.
  destruct o as [b |]; [| done]. cbn. intros [[H1%Z.eqb_eq H2%bool_decide_eq_true]%andb_true_iff H3%bool_decide_eq_true]%andb_true_iff. by exists b.
Qed.
Lemma sample_header : no_catalog (pool_pages sample_pool !! 0) = true.
Proof. vm_compute. reflexivity. Qed.
Lemma opened_ok : db_ok (pool_pages sample_pool) empty_catalog empty_db.
Proof. destruct (no_catalog_true _ sample_header) as (b & H1 & H2 & H3 & H4). exact (empty_db_ok _ b H1 H2 H3 H4). Qed.
Lemma sample_context_ok : session_ok (SessionContext_new (str "test")).
Proof. intros []; vm_compute; reflexivity. Qed.
Lemma nobody_holds t : alone t (lock_manager (TransactionManager_new None)).
Proof. split; [apply not_elem_of_empty | done]. Qed.
(** Log records enough for all statements. *)
Definition room : nat := build_cost 2.
Lemma room_small : Z.of_nat room < 2 ^ 20.
Proof. unfold room, build_cost, INSERT_COST. rewrite PUSH_COST_eq. unfold REBUILD_COST, PAGE_SIZE. lia. Qed.
Lemma room_eq : build_cost 2 = room.
Proof. exact eq_refl. Qed.
#[local] Opaque room.
Lemma begun_ok : stored (50 + room) [] (e_pool begun) (pool_pages sample_pool) /\ db_ok (pool_pages sample_pool) (e_catalog begun) empty_db
  /\ open_session begun sample_session 0 sample_txn /\ alone 0 (lock_manager (e_txns begun)).
Proof.
  destruct (begin_spec sample_fuel (50 + room) opened) as (p' & E & H1 & H2 & H3); [apply sample_pool_room; pose proof room_small; lia |].
  unfold begun. unfold txn_ops in E. rewrite E. clear E. assert (Hlsn : next_lsn (log_manager (e_pool opened)) = 16) by (vm_compute; reflexivity). rewrite Hlsn.
  assert (Hf : flush_poisoned (e_pool opened) = false) by (vm_compute; reflexivity).
  split; [exact (conj H1 H2) |]. split; [exact opened_ok |]. split; [| exact (nobody_holds 0)].
  constructor; [exact eq_refl | apply (lookup_insert_eq (M := gmap Z)) | exact eq_refl | exact eq_refl | exact sample_context_ok | exact (eq_trans H3 Hf)].
Qed.

(** The session goes on. *)
Lemma open_session_next (s s' : EngineShared LruKReplacer) x t txn : open_session s x t txn -> active (e_txns s') = active (e_txns s) -> session_context s' = session_context s ->
  flush_poisoned (e_pool s') = false -> open_session s' x t txn.
Proof. intros [] E1 E2 E3. constructor; [assumption | by rewrite E1 | assumption | assumption | by rewrite E2 | exact E3]. Qed.

(** The statements' texts denote what they should. *)
Definition bound_of (s : EngineShared LruKReplacer) (sql : bytes) : option BoundStatement.t :=
  match parse_sql sql with
  | Ok st => match bind (mkBinder (e_catalog s) (session_context s)) st with Ok b => Some b | _ => None end
  | _ => None
  end.
Lemma bound_of_denotes s sql bound : Utf8.valid sql = true -> bound_of s sql = Some bound -> denotes s sql bound.
Proof.
  unfold bound_of. intros Hv H. split; [done |]. destruct (parse_sql sql) as [st | |]; [| done..]. exists st. split; [done |].
  destruct (bind _ st); [| done..]. by injection H as <-.
Qed.
Lemma run_sql_ok s sql bound r : denotes s sql bound -> match bound with BoundStatement.Explain _ _ => False | _ => True end -> flush_poisoned (e_pool s) = false ->
  (run_sql sql s).1 = Ok r -> execute_bound sample_texts sample_fuel bound 0 s = (Ok r, (run_sql sql s).2.1).
Proof.
  intros (_ & st & Hp & Hb) Hk Hf. unfold run_sql. rewrite (execute_open sample_texts sample_fuel 0 sql st bound 0 s sample_session Hp Hb Hk Hf eq_refl).
  by destruct (execute_bound _ _ _ _ _) as [[r' | |] s']; cbn; [intros [= <-] | done | done].
Qed.

Lemma with_users_run : (run_sql create_users begun).2.1 = with_users.
Proof. exact eq_refl. Qed.
Lemma with_rows_run : (run_sql insert_users with_users).2.1 = with_rows.
Proof. exact eq_refl. Qed.
#[local] Opaque begun with_users with_rows with_an_index.
Definition users_create : BoundCreateTable :=
  mkBoundCreateTable (str "users") [mkBoundColumnDef (str "id") DataType.Integer true; mkBoundColumnDef (str "name") (DataType.Varchar u32_max) true].
Lemma create_users_denotes : denotes begun create_users (BoundStatement.CreateTable users_create).
Proof. apply bound_of_denotes; vm_compute; reflexivity. Qed.

Lemma fixed_tables c d n : (forall t ch, db_tables (known c d) !! t = Some ch -> (length ch <= n)%nat) -> indexes_by_id c = ∅ -> depth_below (known c d) n.
Proof.
  intros Ht Hi. split; [exact Ht |]. intros i tr [_ [info H]]%known_indexes_Some. unfold index_by_id in H. by rewrite Hi, lookup_empty in H.
Qed.
Lemma single_table c t : tables_by_id c = {[ 0 := str "users" ]} -> is_table c t = true -> t = 0.
Proof.
  intros Hc. unfold is_table, get_table_by_id, table_by_id. rewrite Hc. destruct (decide (t = 0)) as [-> | Hne]; [done |]. by rewrite lookup_singleton_ne.
Qed.

Definition users : TableInfo :=
  mkTableInfo 0 (str "users") (mkSchema [mkColumn (str "id") DataType.Integer true; mkColumn (str "name") (DataType.Varchar u32_max) true]) 1.
Lemma users_schema_wf : wf_schema (created_schema users_create).
Proof. split_and!; [repeat constructor; vm_compute; done | by vm_compute | by vm_compute]. Qed.
Lemma only_users c d t ch : tables_by_id c = {[ 0 := str "users" ]} -> db_tables (known c d) !! t = Some ch -> t = 0.
Proof. intros Hc (_ & info & Hi)%known_tables_Some. apply (single_table c t Hc). unfold is_table. by rewrite Hi. Qed.

(** Whatever more is known of the pool. *)
Section users.
Context {L : PageStoreLaws (BufferPool LruKReplacer)}.
Lemma with_users_under : stored (50 + room) [] (e_pool begun) (pool_pages sample_pool) -> exists m d, stored (30 + room) [] (e_pool with_users) m /\ db_ok m (e_catalog with_users) d
  /\ open_session with_users sample_session 0 sample_txn /\ alone 0 (lock_manager (e_txns with_users))
  /\ db_tables d !! 0 = Some [(1, [])] /\ depth_below d 1.
Proof.
  intros Hst. destruct begun_ok as (_ & Hok & Hses & Hal).
  pose proof (execute_create_table_spec sample_texts sample_fuel (30 + room) (pool_pages sample_pool) empty_db 0 begun Hok users_create) as H. cbv zeta in H.
  fold (created_schema users_create) in H. assert (Hn : next_table_id (e_catalog begun) = 0) by (vm_compute; reflexivity). rewrite Hn in H.
  specialize (H ltac:(unfold u32_max; lia) eq_refl ltac:(by vm_compute) users_schema_wf ltac:(unfold sample_fuel; cbn; lia) ltac:(eapply stored_le; [exact Hst | lia])).
  assert (Hr : (run_sql create_users begun).1 = Ok (ResultSet.RowsAffected 0)) by (vm_compute; reflexivity).
  pose proof (run_sql_ok begun create_users _ _ create_users_denotes I (os_flush _ _ _ _ Hses) Hr) as He. rewrite with_users_run in He. rewrite He in H.
  destruct H as (_ & Etx & Ectx & m' & info & Hst' & Hc). destruct Hc as (_ & Hid & _ & _ & Htn & _ & _ & _ & _ & Hget & d' & Hok' & Hsp & Hch).
  rewrite Hid, Hn in *. assert (Hu : get_table_by_id (e_catalog with_users) 0 = Ok users) by (vm_compute; reflexivity). rewrite Hu in Hget. injection Hget as <-.
  exists m', (known (e_catalog with_users) d'). split; [done |]. split; [by apply known_ok |]. rewrite Etx. split; [| split; [done |]].
  { apply (open_session_next begun); [exact Hses | by rewrite Etx | exact Ectx |]. vm_compute. reflexivity. }
  assert (Hk : db_tables (known (e_catalog with_users) d') !! 0 = Some [(1, [])]) by (by rewrite (known_table _ _ _ users)). split; [done |].
  apply fixed_tables; [| vm_compute; reflexivity]. intros t ch Ht.
  assert (t = 0) as -> by (eapply only_users; [| exact Ht]; vm_compute; reflexivity). rewrite Hk in Ht. by injection Ht as <-.
Qed.
End users.
Lemma with_users_ok : exists m d, stored (30 + room) [] (e_pool with_users) m /\ db_ok m (e_catalog with_users) d
  /\ open_session with_users sample_session 0 sample_txn /\ alone 0 (lock_manager (e_txns with_users))
  /\ db_tables d !! 0 = Some [(1, [])] /\ depth_below d 1.
Proof. apply with_users_under, begun_ok. Qed.

(** ** Rows *)
Definition literals (row : Tuple) : list BoundExpr.t := BoundExpr.Literal <$> row.
Definition users_rows : list Tuple := [[Value.Integer 1; Value.Varchar (str "ann")]; [Value.Integer 2; Value.Varchar (str "bob")]].
Definition users_insert : BoundInsert := mkBoundInsert 0 (literals <$> users_rows).
Lemma insert_users_denotes : denotes with_users insert_users (BoundStatement.Insert users_insert).
Proof. apply bound_of_denotes; vm_compute; reflexivity. Qed.
Lemma users_found : get_table_by_id (e_catalog with_users) 0 = Ok users /\ get_table_by_id (e_catalog with_rows) 0 = Ok users.
Proof. split; vm_compute; reflexivity. Qed.
Lemma users_cost : insert_cost (e_catalog with_users) 0 (rows users_insert) 1 = 12%nat.
Proof. vm_compute. reflexivity. Qed.
Lemma users_rows_ok : Forall2 (fun row tuple => evaluate_all row [] = Ok tuple /\ row_ok (column_types users) tuple) (rows users_insert) users_rows.
Proof.
  assert (H : forall i name, in_s 32 i -> Utf8.valid name = true -> Tuple.fits (Value.Varchar name) = true -> row_ok (column_types users) [Value.Integer i; Value.Varchar name]).
  { intros i name Hi Hv Hf. split_and!; repeat (apply Forall_cons_2 || apply Forall2_cons_2 || apply Forall_nil_2 || apply Forall2_nil_2); done. }
  repeat (apply Forall2_cons_2 || apply Forall2_nil_2); (split; [reflexivity | apply H; by vm_compute]).
Qed.
Lemma tuples_count types ch : Forall (fun x => exists tuple, Tuple.decode x.2 types = Ok tuple) (heap_list ch) -> length (tuples types ch) = length (heap_list ch).
Proof.
  unfold tuples. induction 1 as [| x l (tuple & Hx) _ IH]; [done |]. cbn. unfold decoded at 1. rewrite Hx. cbn. by rewrite IH.
Qed.

Lemma with_rows_ok : exists m d ch, stored (18 + room) [] (e_pool with_rows) m /\ db_ok m (e_catalog with_rows) d
  /\ open_session with_rows sample_session 0 sample_txn /\ alone 0 (lock_manager (e_txns with_rows))
  /\ db_tables d !! 0 = Some ch /\ length (heap_list ch) = 2%nat /\ (length ch <= 3)%nat
  /\ table_rows (e_catalog with_rows) d (version_store (e_txns with_rows)) sample_txn 0 ≡ₚ users_rows.
Proof.
  destruct with_users_ok as (m & d & Hst & Hok & Hses & Hal & Hch & Hdp), users_found as [Hu Hu'].
  pose proof (execute_insert_spec sample_texts sample_fuel (18 + room) m d 0 sample_txn with_users Hok (os_active _ _ _ _ Hses) eq_refl Hal users_insert users users_rows 1) as H.
  change (insert_table_id users_insert) with 0 in H. rewrite users_cost in H.
  specialize (H Hu ltac:(discriminate) users_rows_ok ltac:(by vm_compute) Hdp ltac:(unfold sample_fuel; cbn; lia) ltac:(eapply stored_le; [exact Hst | lia])).
  assert (Hr : (run_sql insert_users with_users).1 = Ok (ResultSet.RowsAffected 2)) by (vm_compute; reflexivity).
  pose proof (run_sql_ok with_users insert_users _ _ insert_users_denotes I (os_flush _ _ _ _ Hses) Hr) as He. rewrite with_rows_run in He. rewrite He in H.
  destruct H as (_ & (Eact & _ & _ & Ectx) & Hal' & m' & Hst' & Hsame & new & d' & Hnew & Hvs & Hok' & Hadd & _ & Hdp' & _).
  pose proof (inserted_table_rows m (e_catalog with_users) d (version_store (e_txns with_users)) sample_txn 0 users m' (e_catalog with_rows) d' new Hok Hok' Hu Hsame Hadd 0 users Hu) as Hrows.
  destruct Hadd as (ch0 & ch & Hch0 & Hd' & Htu). rewrite Hch in Hch0. injection Hch0 as <-.
  assert (Hch' : db_tables d' !! 0 = Some ch) by (rewrite Hd'; apply lookup_insert_eq).
  destruct (ok_tables _ _ _ _ Hok' 0 users Hu') as (ch1 & Hch1 & _ & Hdec). rewrite Hch' in Hch1. injection Hch1 as <-.
  exists m', d', ch. split; [done |]. split; [done |]. split; [| split; [done |]; split; [done |]].
  { apply (open_session_next with_users); [exact Hses | exact Eact | exact Ectx |]. vm_compute. reflexivity. }
  split; [rewrite <- (tuples_count (column_types users)) by done; rewrite Htu, length_app, <- (length_fmap snd new), Hnew; reflexivity |].
  split; [by apply (Hdp' 0) |]. rewrite Hvs, Hrows, Hnew, decide_True by reflexivity. unfold table_rows, chain_of. rewrite Hch. by rewrite app_nil_r.
Qed.

(** ** The theorems at work *)
(** On the new database CREATE TABLE succeeds. *)
Lemma sql_create_table_witness : exists s', run_sql create_users begun = (Ok (ResultSet.RowsAffected 0), s')
  /\ exists m' d' info, db_ok m' (e_catalog s'.1) d' /\ get_table (e_catalog s'.1) (str "users") = Ok info
       /\ schema info = created_schema users_create /\ forall vs, table_rows (e_catalog s'.1) d' vs sample_txn (table_id info) = [].
Proof.
  destruct begun_ok as (Hst & Hok & Hses & Hal). assert (Hn : next_table_id (e_catalog begun) = 0) by (vm_compute; reflexivity).
  pose proof (sql_create_table sample_texts sample_fuel 0 create_users users_create 0 sample_txn begun sample_session (30 + room) (pool_pages sample_pool) empty_db
    create_users_denotes Hses Hok ltac:(rewrite Hn; unfold u32_max; lia) eq_refl ltac:(by vm_compute) users_schema_wf ltac:(unfold sample_fuel; cbn; lia)
    ltac:(eapply stored_le; [exact Hst | lia])) as H.
  assert (Hr : (run_sql create_users begun).1 = Ok (ResultSet.RowsAffected 0)) by (vm_compute; reflexivity). fold (run_sql create_users begun) in H.
  destruct (run_sql create_users begun) as [r [s' x']]. cbn [fst] in Hr. rewrite Hr in H |- *. destruct H as (_ & _ & m' & d' & info & _ & H1 & _ & H2 & H3 & H4).
  exists (s', x'). split; [reflexivity |]. exists m', d', info. exact (conj H1 (conj H2 (conj H3 H4))).
Defined.


(** An index over the two rows. *)
Definition users_index : BoundCreateIndex := mkBoundCreateIndex (str "users_id") 0 0.
Lemma index_users_denotes : denotes with_rows index_users (BoundStatement.CreateIndex users_index).
Proof. apply bound_of_denotes; vm_compute; reflexivity. Qed.
Lemma no_indexes_yet m c d : db_ok m c d -> Catalog.index_catalog_first_page c = None -> db_index_rows d = [].
Proof. intros Hok Hc. pose proof (ok_index_heap _ _ _ _ Hok) as H. by rewrite Hc in H. Qed.
Lemma sql_create_index_witness : exists s', run_sql index_users with_rows = (Ok (ResultSet.RowsAffected 0), s')
  /\ exists m' d' ix, db_ok m' (e_catalog s'.1) d' /\ index_by_id (e_catalog s'.1) (index_id ix) = Ok ix /\ index_info_name ix = str "users_id".
Proof.
  destruct with_rows_ok as (m & d & ch & Hst & Hok & Hses & Hal & Hch & Hcount & Hlen & _), users_found as [_ Hu].
  assert (Hn : next_index_id (e_catalog with_rows) = 0) by (vm_compute; reflexivity).
  assert (Hno : db_index_rows d = []) by (eapply no_indexes_yet; [exact Hok | vm_compute; reflexivity]).
  pose proof (sql_create_index sample_texts sample_fuel 0 index_users users_index 0 sample_txn with_rows sample_session 9 m d users ch
    index_users_denotes Hses Hal Hok) as H. change (created_on users_index) with 0 in H. change (created_column users_index) with 0 in H.
  specialize (H Hu Hch). specialize (H ltac:(lia)). specialize (H ltac:(unfold in_u; lia)). rewrite Hn, Hcount, Hno, room_eq in H.
  specialize (H ltac:(unfold u32_max; lia) eq_refl). specialize (H ltac:(by vm_compute)). specialize (H ltac:(unfold sample_fuel; cbn; lia)).
  specialize (H ltac:(eapply stored_le; [exact Hst | lia])).
  assert (Hr : (run_sql index_users with_rows).1 = Ok (ResultSet.RowsAffected 0)) by (vm_compute; reflexivity). fold (run_sql index_users with_rows) in H.
  destruct (run_sql index_users with_rows) as [r [s' x']]. cbn [fst] in Hr. rewrite Hr in H |- *. destruct H as (_ & _ & m' & d' & ix & _ & H1 & _ & H2 & H3 & _).
  exists (s', x'). split; [reflexivity |]. exists m', d', ix. exact (conj H1 (conj H2 H3)).
Defined.

(** A query with a condition. *)
Definition users_select : BoundSelect :=
  mkBoundSelect (Some 0) [BoundExpr.ColumnRef 1 (DataType.Varchar u32_max)] [str "name"] [Some (DataType.Varchar u32_max)]
    (Some (BoundExpr.BinaryOp (BoundExpr.ColumnRef 0 DataType.Integer) BinaryOperator.Eq (BoundExpr.Literal (Value.Integer 2)) DataType.Boolean)).
Lemma select_users_denotes : denotes with_rows select_users (BoundStatement.Select users_select).
Proof. apply bound_of_denotes; vm_compute; reflexivity. Qed.
Lemma no_indexes : indexes_by_id (e_catalog with_rows) = ∅.
Proof. vm_compute. reflexivity. Qed.
Lemma no_index c i info : indexes_by_id c = ∅ -> index_by_id c i <> Ok info.
Proof. intros Hc. unfold index_by_id. by rewrite Hc, lookup_empty. Qed.
Lemma with_rows_size d ch : db_tables d !! 0 = Some ch -> length (heap_list ch) = 2%nat -> (length ch <= 3)%nat -> db_size (known (e_catalog with_rows) d) 10.
Proof.
  intros Hch Hcount Hlen. split; [| intros i tr [_ [info Hi]]%known_indexes_Some; by apply no_index in Hi; [| exact no_indexes]].
  intros t0 ch0 Ht. assert (t0 = 0) as -> by (eapply only_users; [| exact Ht]; vm_compute; reflexivity).
  rewrite (known_table (e_catalog with_rows) d 0 users), Hch in Ht by apply users_found. injection Ht as <-. lia.
Qed.
