(* ===== verification/Runtime.v ===== *)
(** * Opening a database and the engine thread: crates/engine/src/runtime.rs, database.rs, worker_pool.rs

    The messages of the engine thread are handled one after another, and a job that a message gives the
    worker pool runs to its end before the next message. A job that panics ends its worker thread and drops
    its reply channel; without workers no job runs. The clock and the order in which a tick visits the
    sessions are arguments. *)
From S2P Require Import Prelude Text Value Tuple Common Errors WalRecord LockManager VersionStore TxnManager.
From S2P Require Import Catalog Planner Replacer Device SegmentStore Log Page Disk Dwb Buffer Recovery CatalogStore Executor Engine.

(** ** [DbConfig::database_name]: the stem of the file's name *)
Fixpoint split_path (path component : bytes) : list bytes :=
  match path with
  | [] => [rev component]
  | b :: path => if Z_of_byte b =? 47 then rev component :: split_path path [] else split_path path (b :: component)
  end.
Definition file_name (path : bytes) : option bytes :=
  name ← last (filter (fun c => c <> [] /\ c <> str ".") (split_path path []));
  if bool_decide (name = str "..") then None else Some name.
(** What comes before the last dot, unless that is nothing. *)
Definition file_stem (path : bytes) : option bytes :=
  name ← file_name path;
  match list_find (fun b => Z_of_byte b = 46) (rev name) with
  | Some (i, _) => match firstn (length name - S i)%nat name with [] => Some name | stem => Some stem end
  | None => Some name
  end.
Definition database_name (path : bytes) : bytes :=
  match file_stem path with Some (b :: stem) => b :: stem | _ => str "postgres" end.

Section runtime.
Context (T : Texts) (fuel : nat).
Abbreviation Pool := (BufferPool LruKReplacer).
Abbreviation Shared := (EngineShared LruKReplacer).

Definition REPLACER_K : Z := 2.
Definition WORKER_POOL_SIZE : nat := 8.

(** ** [EngineShared::open] *)
Definition open_catalog (highest : option TxnId) (p : Pool) : outcome Db.Error (TransactionManager * CatalogState) * Pool :=
  match @begin Pool (pool_ops fuel) SnapshotIsolation (mkSys (TransactionManager_new highest) p) with
  | (Ok t, y) =>
      match catalog_open fuel fuel t (pool y) with
      | (Ok c, p) =>
          match @commit Pool (pool_ops fuel) t (mkSys (mgr y) p) with
          | (Ok _, y) => (Ok (mgr y, c), pool y)
          | (Err e, y) => (Err (Txn.into_db e), pool y)
          | (Panic, y) => (Panic, pool y)
          end
      | (Err e, p) => (Err (of_catalog_error T e), p)
      | (Panic, p) => (Panic, p)
      end
  | (Err e, y) => (Err (Txn.into_db e), pool y)
  | (Panic, y) => (Panic, pool y)
  end.
Definition recovered_pool (config : DbConfig) (frame_wait_timeout : Z) (debug : bool) (files : Files) (log : LogManager) : Pool :=
  pool_new files.1 files.2 log (buffer_pool_size config) (lru_k_new REPLACER_K) frame_wait_timeout debug.
Definition open (config : DbConfig) (db_path : bytes) (debug : bool) (disk : DiskManager) (dwb : DoubleWriteBuffer) (log : LogManager)
    : outcome Db.Error Shared :=
  match recover_double_write (disk, dwb) with
  | (Ok _, files) =>
      match recover fuel (recovered_pool config 30000 debug files log) with
      | (Ok highest, p) =>
          match open_catalog highest p with
          | (Ok (txns, c), p) =>
              Ok (mkShared c p txns (mkCheckpointState (bytes_appended (log_manager p)) 0 0) (Common.checkpoint_byte_threshold config)
                    (idle_in_transaction_timeout_ms config) (SessionContext_new (database_name db_path)))
          | (Err e, _) => Err e
          | (Panic, _) => Panic
          end
      | (Err e, _) => Err (of_storage_error e)
      | (Panic, _) => Panic
      end
  | (Err e, _) => Err (of_storage_error e)
  | (Panic, _) => Panic
  end.

(** ** The engine thread *)
Definition SessionId : Type := Z.
Inductive EngineMessage : Type :=
| Connect
| Execute (session_id : SessionId) (sql : bytes)
| ExecuteWithParams (session_id : SessionId) (sql : bytes) (params : list Value.t)
| Describe (sql : bytes)
| TableNames
| TableSchema (name : bytes)
| Checkpoint
| BestEffortFlush
| Disconnect (session_id : SessionId).
(** What the requester receives. *)
Inductive Reply : Type :=
| Connected (session_id : SessionId)
| Executed (r : outcome Db.Error ResultSet.t)
| Described (r : outcome Db.Error StatementDescription)
| Names (names : list bytes)
| SchemaOf (r : outcome Db.Error Schema)
| Checkpointed (r : outcome Db.Error unit)
| Flushed
| NoReply.

Record EngineState : Type := mkEngine {
  engine_shared : Shared;
  sessions : gmap SessionId SessionState;
  next_session_id : Z;
  workers : nat;
}.
Definition engine_unavailable : Db.Error := Db.EngineUnavailable (str "the engine thread's reply channel is closed").
Definition unknown_session (session_id : SessionId) : Db.Error :=
  Db.UnknownSession (str "session " ++ fmt_u session_id ++ str " may have already disconnected").

(** [worker_pool.submit]: what the job replies and the state after it. *)
Definition submit {A} (job : M Shared Db.Error A) (s : EngineState) : outcome Db.Error A * EngineState :=
  match workers s with
  | O => (Err engine_unavailable, s)
  | S n =>
      match job (engine_shared s) with
      | (Panic, x) => (Err engine_unavailable, mkEngine x (sessions s) (next_session_id s) n)
      | (r, x) => (r, mkEngine x (sessions s) (next_session_id s) (S n))
      end
  end.
Definition submit_in {A} (session_id : SessionId) (x : SessionState) (job : M (Shared * SessionState) Db.Error A) (s : EngineState)
    : outcome Db.Error A * EngineState :=
  match workers s with
  | O => (Err engine_unavailable, s)
  | S n =>
      match job (engine_shared s, x) with
      | (Panic, y) => (Err engine_unavailable, mkEngine y.1 (<[session_id := y.2]> (sessions s)) (next_session_id s) n)
      | (r, y) => (r, mkEngine y.1 (<[session_id := y.2]> (sessions s)) (next_session_id s) (S n))
      end
  end.

Definition connect (s : EngineState) : SessionId * EngineState :=
  (next_session_id s,
   mkEngine (engine_shared s) (<[next_session_id s := SessionState_new]> (sessions s)) (wrapu 64 (next_session_id s + 1)) (workers s)).
Definition dispatch_execute_with_params (now : Z) (session_id : SessionId) (sql : bytes) (params : list Value.t) (s : EngineState)
    : outcome Db.Error ResultSet.t * EngineState :=
  match sessions s !! session_id with
  | None => (Err (unknown_session session_id), s)
  | Some x => submit_in session_id x (execute_with_params T fuel now sql params) s
  end.
Definition dispatch_execute (now : Z) (session_id : SessionId) (sql : bytes) (s : EngineState) : outcome Db.Error ResultSet.t * EngineState :=
  match sessions s !! session_id with
  | None => (Err (unknown_session session_id), s)
  | Some x => submit_in session_id x (execute T fuel now sql) s
  end.
Definition disconnect (session_id : SessionId) (s : EngineState) : EngineState :=
  match sessions s !! session_id with
  | None => s
  | Some x =>
      (submit (disconnect_session T fuel x) (mkEngine (engine_shared s) (delete session_id (sessions s)) (next_session_id s) (workers s))).2
  end.

Definition dispatch_message (now : Z) (m : EngineMessage) (s : EngineState) : Reply * EngineState :=
  match m with
  | Connect => let '(session_id, s) := connect s in (Connected session_id, s)
  | Execute session_id sql => let '(r, s) := dispatch_execute now session_id sql s in (Executed r, s)
  | ExecuteWithParams session_id sql params => let '(r, s) := dispatch_execute_with_params now session_id sql params s in (Executed r, s)
  | Describe sql => let '(r, s) := submit (describe T sql) s in (Described r, s)
  | TableNames => (Names (table_names (e_catalog (engine_shared s))), s)
  | TableSchema name => (SchemaOf (table_schema T name (engine_shared s)), s)
  | Checkpoint => let '(r, s) := submit (checkpoint_and_flush fuel) s in (Checkpointed r, s)
  | BestEffortFlush => (Flushed, (submit best_effort_flush s).2)
  | Disconnect session_id => (NoReply, disconnect session_id s)
  end.

Definition overdue (now : Z) (s : EngineState) (x : SessionState) : bool :=
  bool_decide (is_Some (slot_txn_id (txn_slot x))) &&
  match idle_since x with Some since => idle_in_transaction_timeout (engine_shared s) <=? now - since | None => false end.
(** [expire_idle_transaction], over the sessions in the given order *)
Fixpoint tick (now : Z) (order : list SessionId) (s : EngineState) : EngineState :=
  match order with
  | [] => s
  | session_id :: order =>
      match sessions s !! session_id with
      | Some x => tick now order (if overdue now s x then (submit_in session_id x (expire_idle_session T fuel now) s).2 else s)
      | None => tick now order s
      end
  end.

(** ** [EngineHandle::spawn] *)
Definition spawn (config : DbConfig) (db_path : bytes) (debug : bool) (disk : DiskManager) (dwb : DoubleWriteBuffer) (log : LogManager)
    : outcome Db.Error EngineState :=
  shared ← open config db_path debug disk dwb log;
  Ok (mkEngine shared ∅ 1 WORKER_POOL_SIZE).

(** ** [EngineHandle], [SessionHandle] and [Database]

    A request is answered by the message's reply; the engine thread runs as long as there is a handle. *)
Definition EngineHandle_connect (now : Z) (s : EngineState) : outcome Db.Error SessionId * EngineState :=
  match dispatch_message now Connect s with (Connected session_id, s) => (Ok session_id, s) | (_, s) => (Err engine_unavailable, s) end.
Definition SessionHandle_execute (now : Z) (session_id : SessionId) (sql : bytes) (s : EngineState) : outcome Db.Error ResultSet.t * EngineState :=
  match dispatch_message now (Execute session_id sql) s with (Executed r, s) => (r, s) | (_, s) => (Err engine_unavailable, s) end.
Definition SessionHandle_execute_with_params (now : Z) (session_id : SessionId) (sql : bytes) (params : list Value.t) (s : EngineState)
    : outcome Db.Error ResultSet.t * EngineState :=
  match dispatch_message now (ExecuteWithParams session_id sql params) s with (Executed r, s) => (r, s) | (_, s) => (Err engine_unavailable, s) end.
Definition SessionHandle_describe (now : Z) (sql : bytes) (s : EngineState) : outcome Db.Error StatementDescription * EngineState :=
  match dispatch_message now (Describe sql) s with (Described r, s) => (r, s) | (_, s) => (Err engine_unavailable, s) end.
Definition SessionHandle_table_names (now : Z) (s : EngineState) : outcome Db.Error (list bytes) * EngineState :=
  match dispatch_message now TableNames s with (Names names, s) => (Ok names, s) | (_, s) => (Err engine_unavailable, s) end.
Definition SessionHandle_table_schema (now : Z) (name : bytes) (s : EngineState) : outcome Db.Error Schema * EngineState :=
  match dispatch_message now (TableSchema name) s with (SchemaOf r, s) => (r, s) | (_, s) => (Err engine_unavailable, s) end.
Definition SessionHandle_checkpoint_and_flush (now : Z) (s : EngineState) : outcome Db.Error unit * EngineState :=
  match dispatch_message now Checkpoint s with (Checkpointed r, s) => (r, s) | (_, s) => (Err engine_unavailable, s) end.
Definition SessionHandle_drop (now : Z) (session_id : SessionId) (s : EngineState) : EngineState := (dispatch_message now (Disconnect session_id) s).2.
Definition EngineHandle_drop (now : Z) (s : EngineState) : EngineState := (dispatch_message now BestEffortFlush s).2.

(** A handle of [Database]: its session and the database's name. *)
Record Database : Type := mkDatabase { session : SessionId; db_name : bytes }.
Definition Database_open (now : Z) (config : DbConfig) (db_path : bytes) (debug : bool) (disk : DiskManager) (dwb : DoubleWriteBuffer) (log : LogManager)
    : outcome Db.Error (Database * EngineState) :=
  engine ← spawn config db_path debug disk dwb log;
  match EngineHandle_connect now engine with
  | (Ok session_id, s) => Ok (mkDatabase session_id (database_name db_path), s)
  | (Err e, _) => Err e
  | (Panic, _) => Panic
  end.
Definition Database_connect (now : Z) (db : Database) (s : EngineState) : outcome Db.Error Database * EngineState :=
  match EngineHandle_connect now s with
  | (Ok session_id, s) => (Ok (mkDatabase session_id (db_name db)), s)
  | (Err e, s) => (Err e, s)
  | (Panic, s) => (Panic, s)
  end.
Definition Database_execute (now : Z) (db : Database) (sql : bytes) := SessionHandle_execute now (session db) sql.
Definition Database_execute_with_params (now : Z) (db : Database) (sql : bytes) (params : list Value.t) :=
  SessionHandle_execute_with_params now (session db) sql params.
(** [close] consumes the handle, which is dropped when it returns. *)
Definition Database_close (now : Z) (db : Database) (s : EngineState) : outcome Db.Error unit * EngineState :=
  let '(r, s) := SessionHandle_checkpoint_and_flush now s in (r, SessionHandle_drop now (session db) s).
Definition Database_table_names (now : Z) (s : EngineState) : list bytes * EngineState :=
  let '(r, s) := SessionHandle_table_names now s in (match r with Ok names => names | _ => [] end, s).
End runtime.
