(* ===== verification/SessionsOwn.v ===== *)
(** * Sessions and their transactions

    How many transactions an operation of the engine begins, what it does to a session's slot, and that no
    two sessions ever share a transaction. *)
From S2P Require Import Prelude Text Value Memcomparable Tuple Common Errors WalRecord LockManager VersionStore TxnManager.
From S2P Require Import SqlLexer SqlParser SqlRender Catalog Planner Parameters Explain Expression.
From S2P Require Import Replacer Device SegmentStore Log Page Header Disk Dwb Slots Heap Btree Buffer StorageSpec.
From S2P Require Import Recovery CatalogStore Executor Engine Runtime.

(** ** Operations that begin transactions

    [m] begins at most [k] transactions: the counter of ids, which [ids] reads, moves up by at most [k]. *)
Section grows.
Context {S E : Type} (ids : S -> Z).
Definition grows {A} (k : Z) (m : M S E A) : Prop := forall s, 0 <= ids s -> ids s + k < 2 ^ 64 -> ids s <= ids (m s).2 <= ids s + k.

Lemma grows_ret {A} k (a : A) : 0 <= k -> grows k (mret a : M S E A).
Proof. intros Hk s _ _. cbn. lia. Qed.
Lemma grows_lift {A} k (o : outcome E A) : 0 <= k -> grows k (lift o).
Proof. intros Hk s _ _. cbn. lia. Qed.
Lemma grows_throw {A} k e : 0 <= k -> grows k (throw e : M S E A).
Proof. intros Hk s _ _. cbn. lia. Qed.
Lemma grows_gets {A} k (f : S -> A) : 0 <= k -> grows k (gets f : M S E A).
Proof. intros Hk s _ _. cbn. lia. Qed.
Lemma grows_modify k (f : S -> S) : 0 <= k -> (forall s, ids (f s) = ids s) -> grows k (modify f : M S E unit).
Proof. intros Hk Hf s _ _. cbn. rewrite Hf. lia. Qed.
Lemma grows_bind {A B} k k' (m : M S E A) (f : A -> M S E B) : 0 <= k -> 0 <= k' -> grows k m -> (forall a, grows k' (f a)) -> grows (k + k') (a ← m; f a).
Proof.
  intros Hk Hk' Hm Hf s H0 Hs. specialize (Hm s H0 ltac:(lia)). unfold mbind, M_bind. destruct (m s) as [[a | e |] s1]; cbn [snd] in *; [| lia..].
  specialize (Hf a s1 ltac:(lia) ltac:(lia)). lia.
Qed.
Lemma grows_bind_0 {A B} k (m : M S E A) (f : A -> M S E B) : 0 <= k -> grows 0 m -> (forall a, grows k (f a)) -> grows k (a ← m; f a).
Proof. intros. by apply (grows_bind 0 k). Qed.
Lemma grows_weaken {A} k k' (m : M S E A) : k <= k' -> grows k m -> grows k' m.
Proof. intros Hk Hm s H0 Hs. specialize (Hm s H0 ltac:(lia)). lia. Qed.
Lemma grows_ignored {A} k (m : M S E A) : grows k m -> grows k (ignored m).
Proof. intros Hm s H0 Hs. specialize (Hm s H0 Hs). unfold ignored. by destruct (m s) as [[a | e |] s1]. Qed.
End grows.
Create HintDb grows.
#[export] Hint Extern 0 (0 <= _) => lia : grows.
#[export] Hint Resolve grows_ret grows_lift grows_throw grows_gets grows_modify grows_bind_0 grows_ignored : grows.
Ltac grow := intros; repeat (match goal with |- grows _ _ (match ?x with _ => _ end) => destruct x | |- grows _ _ (if ?x then _ else _) => destruct x end); auto 20 with grows.

Section manager.
Context {R : Type} `{!Replacer R} (fuel : nat).
#[local] Instance growing_ops : PoolOps (BufferPool R) := pool_ops fuel.
Abbreviation sys_ids := (fun s : Sys (BufferPool R) => next_txn_id (mgr s)).

Lemma on_pool_grows {A} (m : M (BufferPool R) Storage.Error A) : grows sys_ids 0 (on_pool m).
Proof. intros s _ _. unfold on_pool. destruct (m (pool s)) as [[] p]; cbn; lia. Qed.
Lemma on_mgr_grows f : (forall m, next_txn_id (f m) = next_txn_id m) -> grows sys_ids 0 (on_mgr f : M (Sys (BufferPool R)) _ _).
Proof. intros Hf. apply grows_modify; [lia |]. intros s. apply Hf. Qed.
#[local] Hint Resolve on_pool_grows on_mgr_grows : grows.
Lemma next_timestamp_grows : grows sys_ids 0 (next_timestamp : M (Sys (BufferPool R)) _ _).
Proof. unfold next_timestamp. grow. Qed.
#[local] Hint Resolve next_timestamp_grows : grows.

(** [begin] gives the next id. *)
Lemma begin_next level (s : Sys (BufferPool R)) : 0 <= sys_ids s -> sys_ids s + 1 < 2 ^ 64 ->
  sys_ids (begin level s).2 = sys_ids s + 1 /\ forall t, (begin level s).1 = Ok t -> t = sys_ids s.
Proof.
  intros H0 Hs. unfold begin, next_timestamp, on_mgr, on_pool, mbind, M_bind, gets, modify, mret, M_ret. cbn [fst snd mgr pool].
  assert (E : wrapu 64 (next_txn_id (mgr s) + 1) = next_txn_id (mgr s) + 1) by (unfold wrapu; rewrite Z.mod_small; lia).
  destruct (TxnManager.append_log _ _ _) as [[lsn | e |] p]; cbn; rewrite E; (split; [done |]); [| done..]. by intros t [= <-].
Qed.
Lemma begin_grows level : grows sys_ids 1 (begin level : M (Sys (BufferPool R)) _ _).
Proof. intros s H0 Hs. destruct (begin_next level s H0 Hs) as [E _]. rewrite E. lia. Qed.
Lemma commit_grows t : grows sys_ids 0 (commit t : M (Sys (BufferPool R)) _ _).
Proof. unfold commit. apply grows_bind_0; [lia | grow |]. intros [x |]; [| grow]. destruct (decide _); [grow |]. grow. Qed.
Lemma begin_abort_grows t : grows sys_ids 0 (begin_abort t : M (Sys (BufferPool R)) _ _).
Proof. unfold begin_abort. apply grows_bind_0; [lia | grow |]. intros [x |]; [| grow]. destruct (decide _); [grow |]. grow. Qed.
Lemma undo_then_finish_grows p : grows sys_ids 0 (undo_then_finish p : M (Sys (BufferPool R)) _ _).
Proof.
  assert (Hu : grows sys_ids 0 (undo p : M (Sys (BufferPool R)) _ _)) by (unfold undo; grow).
  assert (Hf : grows sys_ids 0 (finish_abort p : M (Sys (BufferPool R)) _ _)) by (unfold finish_abort; apply grows_bind_0; [lia | grow |]; intros []; grow).
  intros s H0 Hs. specialize (Hu s H0 Hs). unfold undo_then_finish. destruct (undo p s) as [[u | e |] s1]; cbn [snd] in *.
  - specialize (Hf s1 ltac:(cbn in *; lia) ltac:(cbn in *; lia)). cbn beta in *. lia.
  - cbn in *. lia.
  - cbn in *. lia.
Qed.
Lemma write_checkpoint_record_grows : grows sys_ids 1 (write_checkpoint_record fuel : M (Sys (BufferPool R)) _ _).
Proof.
  unfold write_checkpoint_record. do 5 (apply grows_bind_0; [lia | grow | intros ?]). apply (grows_bind _ 1 0); [lia | lia | apply begin_grows |].
  intros t. apply grows_bind_0; [lia | grow | intros ?]. apply grows_bind_0; [lia | apply commit_grows | intros ?]. grow.
Qed.
Lemma finish_checkpoint_grows pending : grows sys_ids 0 (finish_checkpoint pending : M (Sys (BufferPool R)) _ _).
Proof. unfold finish_checkpoint. do 2 (apply grows_bind_0; [lia | grow | intros ?]). apply grows_bind_0; [lia | grow | grow]. Qed.
End manager.
#[export] Hint Resolve on_pool_grows on_mgr_grows : grows.

(** ** The engine's operations *)
Section engine.
Context {R : Type} `{!Replacer R} (T : Texts) (fuel : nat).
Abbreviation ids := (fun s : EngineShared R => next_txn_id (e_txns s)).

Lemma on_storage_grows {A} (m : M (BufferPool R) Storage.Error A) : grows ids 0 (on_storage m).
Proof. intros s _ _. unfold on_storage. destruct (m (e_pool s)). cbn. lia. Qed.
Lemma on_the_catalog_grows {A} (m : M (CatSys (BufferPool R)) CatalogError A) : grows ids 0 (on_the_catalog T m).
Proof. intros s _ _. unfold on_the_catalog. destruct (m _). cbn. lia. Qed.
Lemma on_executor_grows {A} (m : M (XSys (BufferPool R)) Exec.Error A) : grows ids 0 (on_executor T m).
Proof. intros s _ _. unfold on_executor. destruct (m _). cbn. lia. Qed.
Lemma on_txns_grows {A} k (m : M (Sys (BufferPool R)) Txn.Error A) : grows (fun s => next_txn_id (mgr s)) k m -> grows ids k (on_txns m).
Proof. intros Hm s H0 Hs. specialize (Hm (mkSys (e_txns s) (e_pool s)) H0 Hs). unfold on_txns. destruct (m _). cbn in *. lia. Qed.
#[local] Hint Resolve on_storage_grows on_the_catalog_grows on_executor_grows on_txns_grows commit_grows finish_checkpoint_grows : grows.

Lemma run_grows p t : grows ids 0 (run T fuel p t).
Proof. unfold run. grow. Qed.
Lemma index_all_grows steps t types column : forall it root, grows ids 0 (index_all T fuel steps t types column it root).
Proof.
  induction steps as [| steps IH]; intros it root s H0 Hs; [cbn; lia |]. cbn [index_all]. destruct (iter_next fuel it (e_pool s)) as [[item it'] p].
  set (s1 := with_parts _ _ _ s). assert (E : ids s1 = ids s) by done. clearbody s1. destruct item as [[[rid row] | e |] |]; cbn [snd]; try (cbn in *; lia).
  assert (Hb : grows ids 0 (root ← add_row T fuel t types column root rid row; index_all T fuel steps t types column it' root)).
  { apply grows_bind_0; [lia | unfold add_row; grow | intros ?; apply IH]. }
  specialize (Hb s1). cbn in *. lia.
Qed.
Lemma build_index_grows t table column : grows ids 0 (build_index T fuel t table column).
Proof. unfold build_index. do 3 (apply grows_bind_0; [lia | grow | intros ?]). apply index_all_grows. Qed.
Lemma lock_table_exclusive_grows t table : grows ids 0 (lock_table_exclusive (R := R) T t table).
Proof. apply on_executor_grows. Qed.
#[local] Hint Resolve run_grows build_index_grows lock_table_exclusive_grows : grows.
Lemma execute_bound_grows bound t : grows ids 0 (execute_bound T fuel bound t).
Proof. destruct bound; cbn [execute_bound]; grow. Qed.
Lemma bind_and_execute_grows st t : grows ids 0 (bind_and_execute T fuel st t).
Proof. unfold bind_and_execute. do 3 (apply grows_bind_0; [lia | grow | intros ?]). apply execute_bound_grows. Qed.
Lemma handle_explain_grows st : grows ids 0 (handle_explain (R := R) T st).
Proof.
  unfold handle_explain. do 3 (apply grows_bind_0; [lia | grow | intros ?]). match goal with |- grows _ _ (match ?b with _ => _ end) => destruct b end; grow.
Qed.
Lemma reload_catalog_grows : grows ids 1 (reload_catalog T fuel).
Proof.
  unfold reload_catalog. apply (grows_bind _ 1 0); [lia | lia | apply on_txns_grows, begin_grows | intros t]. apply grows_bind_0; [lia | grow | grow].
Qed.
Lemma abort_txn_grows t : grows ids 0 (abort_txn fuel t).
Proof. apply on_txns_grows, grows_bind_0; [lia | apply begin_abort_grows | intros ?; apply undo_then_finish_grows]. Qed.
Lemma maybe_checkpoint_grows : grows ids 1 (maybe_checkpoint fuel).
Proof.
  intros s H0 Hs. unfold maybe_checkpoint. destruct (flush_poisoned _); [cbn; lia |]. destruct (_ <? _); [cbn; lia |].
  match goal with |- context [on_txns ?m s] => assert (Hc : grows ids 1 (on_txns m)) end.
  { apply on_txns_grows, (grows_bind _ 1 0); [lia | lia | apply write_checkpoint_record_grows | intros ?; apply finish_checkpoint_grows]. }
  specialize (Hc s H0 Hs). destruct (on_txns _ s) as [[l | e |] s1]; cbn [snd] in Hc; cbn beta in Hc; [exact Hc | cbn; lia..].
Qed.
Lemma record_checkpoint_written_grows : grows ids 0 (record_checkpoint_written (R := R)).
Proof. by apply grows_modify. Qed.
Lemma record_engine_wide_flush_grows : grows ids 0 (record_engine_wide_flush (R := R)).
Proof. by apply grows_modify. Qed.
#[local] Hint Resolve record_checkpoint_written_grows record_engine_wide_flush_grows : grows.
Lemma checkpoint_and_flush_grows : grows ids 1 (checkpoint_and_flush fuel).
Proof.
  unfold checkpoint_and_flush. apply (grows_bind _ 1 0); [lia | lia | apply on_txns_grows, write_checkpoint_record_grows | intros ?].
  apply grows_bind_0; [lia | apply on_txns_grows, finish_checkpoint_grows | grow].
Qed.
Lemma best_effort_flush_grows : grows ids 0 (best_effort_flush (R := R)).
Proof. unfold best_effort_flush. apply grows_bind_0; [lia | grow | intros []; grow]. Qed.
Lemma describe_grows sql : grows ids 0 (describe (R := R) T sql).
Proof.
  unfold describe. do 5 (apply grows_bind_0; [lia | grow | intros ?]). match goal with |- grows _ _ (match ?b with _ => _ end) => destruct b end; try (grow; fail).
  apply grows_bind_0; [lia | grow | intros []; grow].
Qed.
Lemma disconnect_session_grows x : grows ids 1 (disconnect_session T fuel x).
Proof.
  unfold disconnect_session. destruct (slot_txn_id _); [| grow]. apply grows_bind_0; [lia | apply grows_ignored, abort_txn_grows | intros ?].
  apply grows_ignored, reload_catalog_grows.
Qed.

(** ** Statements of a session

    The transaction in the slot stays, goes, or is a new one. *)
Definition slot_from (lo hi : Z) (x x' : SessionState) : Prop :=
  slot_txn_id (txn_slot x') = slot_txn_id (txn_slot x) \/ slot_txn_id (txn_slot x') = None
  \/ exists t, slot_txn_id (txn_slot x') = Some t /\ lo <= t < hi.
Definition steps {A} (k : Z) (m : M (EngineShared R * SessionState) Db.Error A) : Prop := forall s x, 0 <= ids s -> ids s + k < 2 ^ 64 ->
  ids s <= ids (m (s, x)).2.1 <= ids s + k /\ slot_from (ids s) (ids (m (s, x)).2.1) x (m (s, x)).2.2.

Lemma slot_from_refl lo hi x : slot_from lo hi x x.
Proof. by left. Qed.
Lemma slot_from_trans lo mid hi x y z : lo <= mid <= hi -> slot_from lo mid x y -> slot_from mid hi y z -> slot_from lo hi x z.
Proof.
  unfold slot_from. intros Hm H1 [-> | [-> | (t & -> & Ht)]]; [| right; by left | right; right; exists t; split; [done | lia]].
  destruct H1 as [-> | [-> | (t & -> & Ht)]]; [by left | right; by left | right; right; exists t; split; [done | lia]].
Qed.
Lemma steps_bind {A B} k k' (m : M _ _ A) (f : A -> M _ _ B) : 0 <= k -> 0 <= k' -> steps k m -> (forall a, steps k' (f a)) -> steps (k + k') (a ← m; f a).
Proof.
  intros Hk Hk' Hm Hf s x H0 Hs. destruct (Hm s x H0 ltac:(lia)) as [H1 H2]. unfold mbind, M_bind. destruct (m (s, x)) as [[a | e |] [s1 x1]]; cbn [fst snd] in *.
  - destruct (Hf a s1 x1 ltac:(lia) ltac:(lia)) as [H3 H4]. split; [lia |]. eapply slot_from_trans; [| exact H2 | exact H4]. lia.
  - split; [lia | done].
  - split; [lia | done].
Qed.
Lemma steps_bind_0 {A B} k (m : M _ _ A) (f : A -> M _ _ B) : 0 <= k -> steps 0 m -> (forall a, steps k (f a)) -> steps k (a ← m; f a).
Proof. intros. by apply (steps_bind 0 k). Qed.
Lemma steps_shared {A} k (m : M (EngineShared R) Db.Error A) : grows ids k m -> steps k (shared m).
Proof. intros Hm s x H0 Hs. specialize (Hm s H0 Hs). unfold shared. cbn [fst snd]. destruct (m s) as [r s1]. split; [done | apply slot_from_refl]. Qed.
Lemma steps_none : steps 0 (slot_to SlotNone : M (EngineShared R * SessionState) _ _).
Proof. intros s x _ _. cbn. split; [lia |]. right. by left. Qed.
Lemma steps_pure {A} k (o : outcome Db.Error A) : 0 <= k -> steps k (lift o).
Proof. intros Hk s x _ _. cbn. split; [lia | apply slot_from_refl]. Qed.
Lemma steps_gets {A} (f : _ -> A) : steps 0 (gets f).
Proof. intros s x _ _. cbn. split; [lia | apply slot_from_refl]. Qed.

(** The ends of a transaction. *)
Lemma steps_ending t (r : ResultSet.t) : steps 2 (_ ← shared (abort_txn fuel t); _ ← shared (reload_catalog T fuel); _ ← slot_to SlotNone; _ ← shared (maybe_checkpoint fuel); lift (Ok r)).
Proof.
  apply steps_bind_0; [lia | apply steps_shared, abort_txn_grows | intros _]. apply (steps_bind 1 1); [lia | lia | apply steps_shared, reload_catalog_grows | intros _].
  apply steps_bind_0; [lia | apply steps_none | intros _]. apply (steps_bind 1 0); [lia | lia | apply steps_shared, maybe_checkpoint_grows | intros _]. by apply steps_pure.
Qed.
Lemma handle_rollback_steps : steps 2 (handle_rollback T fuel).
Proof.
  unfold handle_rollback. apply steps_bind_0; [lia | apply steps_gets | intros slot]. apply steps_bind_0; [lia | by apply steps_pure | intros t]. apply steps_ending.
Qed.
Lemma handle_commit_steps : steps 2 (handle_commit T fuel).
Proof.
  unfold handle_commit. apply steps_bind_0; [lia | apply steps_gets | intros slot]. destruct slot as [| t | t |]; [by apply (steps_pure 2 (Err _)) | | apply steps_ending | by apply (steps_pure 2 (Err _))].
  apply steps_bind_0; [lia | apply steps_shared, on_txns_grows, commit_grows | intros _]. apply steps_bind_0; [lia | apply steps_none | intros _].
  apply (steps_bind 1 1); [lia | lia | apply steps_shared, maybe_checkpoint_grows | intros _]. by apply (steps_pure 1 (Ok _)).
Qed.

Definition step_ok (k : Z) (s : EngineShared R) (x : SessionState) (y : EngineShared R * SessionState) : Prop :=
  ids s <= ids y.1 <= ids s + k /\ slot_from (ids s) (ids y.1) x y.2.
Lemma steps_at {A} k (m : M _ _ A) s x : steps k m -> 0 <= ids s -> ids s + k < 2 ^ 64 -> step_ok k s x (m (s, x)).2.
Proof. intros Hm H0 Hs. by apply Hm. Qed.
Lemma step_ok_trans k k' s x s1 x1 y : step_ok k s x (s1, x1) -> step_ok k' s1 x1 y -> step_ok (k + k') s x y.
Proof. intros [H1 H2] [H3 H4]. cbn [fst snd] in *. split; [lia |]. eapply slot_from_trans; [| exact H2 | exact H4]. lia. Qed.

Lemma handle_begin_steps : steps 1 (handle_begin fuel).
Proof.
  intros s x H0 Hs. change (step_ok 1 s x (handle_begin fuel (s, x)).2). unfold handle_begin, mbind at 1, M_bind at 1, gets. cbn [snd].
  destruct (slot_txn_id (txn_slot x)) eqn:Ex; [split; [cbn; lia | apply slot_from_refl] |].
  unfold shared, mbind, M_bind. cbn [fst snd]. unfold on_txns.
  destruct (begin_next fuel SnapshotIsolation (mkSys (e_txns s) (e_pool s)) H0 Hs) as [H1 H2].
  unfold growing_ops, engine_ops in *. destruct (begin _ _) as [[t | e |] y]; cbn [map_err fst snd] in *;
    [| split; [cbn in *; lia | apply slot_from_refl]..].
  specialize (H2 t eq_refl). split; [cbn in *; lia |]. right. right. exists t. split; [done | cbn in *; lia].
Qed.

(** A statement's transaction ends with it, or is the one in the slot. *)
Lemma settle_steps t auto (job : M (EngineShared R) Db.Error ResultSet.t) s x : grows ids 0 job -> (auto = false -> slot_txn_id (txn_slot x) = Some t) ->
  0 <= ids s -> ids s + 1 < 2 ^ 64 -> step_ok 1 s x (settle T fuel t auto (shared job) (s, x)).2.
Proof.
  intros Hj Hx H0 Hs. unfold settle. pose proof (steps_at 0 _ s x (steps_shared 0 _ Hj) H0 ltac:(lia)) as H1.
  destruct (shared job (s, x)) as [[r | e |] [s1 x1]] eqn:Es; cbn [snd] in H1.
  - destruct auto; [| cbn; destruct H1 as [H1 H2]; split; [cbn in *; lia | done]]. eapply (step_ok_trans 0 1); [exact H1 |]. destruct H1 as [H1 _]. cbn [fst] in H1.
    apply steps_at; [| cbn in *; lia | cbn in *; lia]. apply steps_bind_0; [lia | apply steps_shared, on_txns_grows, commit_grows | intros _].
    apply (steps_bind 1 0); [lia | lia | apply steps_shared, maybe_checkpoint_grows | intros _]. by apply (steps_pure 0 (Ok _)).
  - destruct auto.
    + eapply (step_ok_trans 0 1); [exact H1 |]. destruct H1 as [H1 _]. cbn [fst] in H1.
      apply steps_at; [| cbn in *; lia | cbn in *; lia]. apply steps_bind_0; [lia | apply steps_shared, grows_ignored, abort_txn_grows | intros _].
      apply (steps_bind 1 0); [lia | lia | apply steps_shared, grows_ignored, reload_catalog_grows | intros _]. by apply (steps_pure 0 (Err _)).
    + change (step_ok 1 s x (s1, set_slot (SlotAborted t) x1)). destruct H1 as [H1 _]. split; [cbn in *; lia |]. left. cbn. by rewrite Hx.
  - cbn. destruct H1 as [H1 H2]. split; [cbn in *; lia | done].
Qed.
Lemma execute_non_control_statement_steps st : steps 2 (execute_non_control_statement T fuel st).
Proof.
  intros s x H0 Hs. change (step_ok 2 s x (execute_non_control_statement T fuel st (s, x)).2). unfold execute_non_control_statement, txn_for_statement.
  pose proof (bind_and_execute_grows st) as Hj. unfold mbind at 1, M_bind at 1. unfold mbind at 1, M_bind at 1, gets. cbn [snd].
  assert (Hauto : step_ok 2 s x ((t ← shared (on_txns (@begin _ (pool_ops fuel) SnapshotIsolation)); settle T fuel t true (shared (bind_and_execute T fuel st t))) (s, x)).2).
  { unfold mbind, M_bind. pose proof (steps_at 1 _ s x (steps_shared 1 _ (on_txns_grows 1 _ (begin_grows fuel SnapshotIsolation))) H0 ltac:(lia)) as H1.
    destruct (shared _ (s, x)) as [[t | e |] [s1 x1]]; cbn [snd] in H1 |- *;
      [| destruct H1 as [H1 H2]; split; [cbn [fst snd] in *; lia | done] | destruct H1 as [H1 H2]; split; [cbn [fst snd] in *; lia | done]].
    apply (step_ok_trans 1 1 s x s1 x1); [exact H1 |]. destruct H1 as [H1 _]. cbn [fst] in H1. apply settle_steps; [apply Hj | done | cbn in *; lia | cbn in *; lia]. }
  destruct (txn_slot x) as [| t | t |] eqn:Ex.
  - unfold mbind, M_bind in Hauto |- *. by destruct (shared _ (s, x)) as [[t | e |] y].
  - cbn. assert (H1 : step_ok 1 s x (settle T fuel t false (shared (bind_and_execute T fuel st t)) (s, x)).2).
    { apply settle_steps; [apply Hj | by rewrite Ex | done | lia]. }
    destruct H1 as [H1 H2]. split; [lia | done].
  - cbn. split; [cbn; lia | apply slot_from_refl].
  - unfold mbind, M_bind in Hauto |- *. by destruct (shared _ (s, x)) as [[t | e |] y].
Qed.
Lemma steps_weaken {A} k k' (m : M (EngineShared R * SessionState) Db.Error A) : k <= k' -> steps k m -> steps k' m.
Proof. intros Hk Hm s x H0 Hs. destruct (Hm s x H0 ltac:(lia)) as [H1 H2]. split; [lia | done]. Qed.
Lemma execute_impl_steps sql params : steps 2 (execute_impl T fuel sql params).
Proof.
  unfold execute_impl. apply steps_bind_0; [lia | apply steps_gets | intros slot].
  destruct slot; try (apply steps_bind_0; [lia | by apply steps_pure | intros st]; apply steps_bind_0; [lia | by apply steps_pure | intros st']; destruct st';
    first [apply execute_non_control_statement_steps | apply handle_commit_steps | apply handle_rollback_steps
          | apply (steps_weaken 1); [lia | apply handle_begin_steps] | apply (steps_weaken 0); [lia | apply steps_shared, handle_explain_grows]]).
  apply steps_bind_0; [lia | apply steps_none | intros _]. by apply (steps_pure 2 (Err _)).
Qed.
Lemma execute_with_params_steps now sql params : steps 2 (execute_with_params T fuel now sql params).
Proof.
  intros s x H0 Hs. change (step_ok 2 s x (execute_with_params T fuel now sql params (s, x)).2). unfold execute_with_params. cbn [fst snd].
  destruct (flush_poisoned (e_pool s)); [cbn; split; [cbn; lia | by left] |].
  destruct (execute_impl_steps sql params s (bump_stmt_id x) H0 Hs) as [H1 H2]. destruct (execute_impl T fuel sql params (s, bump_stmt_id x)) as [[r | e |] [s1 x1]]; by split.
Qed.
Lemma expire_idle_session_steps now : steps 1 (expire_idle_session T fuel now).
Proof.
  unfold expire_idle_session. do 2 (apply steps_bind_0; [lia | apply steps_gets | intros ?]). destruct (slot_txn_id _) as [t |]; [| by apply (steps_pure 1 (Ok _))].
  destruct (idle_since _); [| by apply (steps_pure 1 (Ok _))]. destruct (decide _); [by apply (steps_pure 1 (Ok _)) |].
  apply steps_bind_0; [lia | apply steps_shared, grows_ignored, abort_txn_grows | intros _].
  apply (steps_bind 1 0); [lia | lia | apply steps_shared, grows_ignored, reload_catalog_grows | intros _].
  intros s x _ _. cbn. split; [lia |]. right. by left.
Qed.
End engine.

(** ** The engine thread *)
Section runtime.
Context (T : Texts) (fuel : nat).
Implicit Types (s : EngineState).

Definition txn_ids s : Z := next_txn_id (e_txns (engine_shared s)).
(** The transaction a session is in. *)
Definition session_txn s (i : SessionId) : option TxnId := x ← sessions s !! i; slot_txn_id (txn_slot x).
Record owned s : Prop := {
  owned_begun : forall i t, session_txn s i = Some t -> t < txn_ids s;
  owned_apart : forall i j t, session_txn s i = Some t -> session_txn s j = Some t -> i = j;
}.

(** What the engine thread does: it handles a message, or looks for idle transactions. *)
Inductive event : Type := Message (now : Z) (m : EngineMessage) | Tick (now : Z) (order : list SessionId).
Definition handle s (e : event) : EngineState :=
  match e with Message now m => (dispatch_message T fuel now m s).2 | Tick now order => tick T fuel now order s end.
(** How many transactions it may begin. *)
Definition event_cost (e : event) : Z := match e with Message _ _ => 2 | Tick _ order => len order end.

Definition advances (k : Z) s s' : Prop := (0 <= txn_ids s -> txn_ids s + k < 2 ^ 64 -> txn_ids s <= txn_ids s' <= txn_ids s + k /\ (owned s -> owned s')).
Lemma advances_refl k s : 0 <= k -> advances k s s.
Proof. intros Hk H0 Hs. split; [lia | done]. Qed.
Lemma advances_trans k k' s1 s2 s3 : 0 <= k -> 0 <= k' -> advances k s1 s2 -> advances k' s2 s3 -> advances (k + k') s1 s3.
Proof. intros Hk Hk' H1 H2 H0 Hs. destruct (H1 H0 ltac:(lia)) as [H3 H4]. destruct (H2 ltac:(lia) ltac:(lia)) as [H5 H6]. split; [lia | auto]. Qed.
Lemma advances_weaken k k' s s' : k <= k' -> advances k s s' -> advances k' s s'.
Proof. intros Hk H H0 Hs. destruct (H H0 ltac:(lia)). split; [lia | done]. Qed.

(** No session's transaction changes. *)
Lemma advances_same k s s' : 0 <= k -> (0 <= txn_ids s -> txn_ids s + k < 2 ^ 64 -> txn_ids s <= txn_ids s' <= txn_ids s + k) ->
  (forall i t, session_txn s' i = Some t -> session_txn s i = Some t) -> advances k s s'.
Proof.
  intros Hk Hn Hx H0 Hs. specialize (Hn H0 Hs). split; [done |]. intros [H1 H2]. split; [intros i t Hi%Hx%H1; lia |]. intros i j t Hi%Hx Hj%Hx. by eapply H2.
Qed.
(** One session's transaction stays, goes or is new. *)
Lemma advances_session k s s' i x x' : 0 <= k -> sessions s !! i = Some x -> sessions s' = <[i := x']> (sessions s) ->
  (0 <= txn_ids s -> txn_ids s + k < 2 ^ 64 -> txn_ids s <= txn_ids s' <= txn_ids s + k /\ slot_from (txn_ids s) (txn_ids s') x x') -> advances k s s'.
Proof.
  intros Hk Hx E Hst H0 Hs. destruct (Hst H0 Hs) as [Hn Hf]. split; [done |]. intros [H1 H2].
  assert (Hi : session_txn s i = slot_txn_id (txn_slot x)) by (unfold session_txn; by rewrite Hx).
  assert (Hi' : session_txn s' i = slot_txn_id (txn_slot x')) by (unfold session_txn; by rewrite E, lookup_insert_eq).
  assert (Hj : forall j, j <> i -> session_txn s' j = session_txn s j) by (intros j Hne; unfold session_txn; by rewrite E, lookup_insert_ne).
  assert (Hlt : forall j t, session_txn s' j = Some t -> session_txn s j = Some t \/ j = i /\ txn_ids s <= t < txn_ids s').
  { intros j t Ht. destruct (decide (j = i)) as [-> | Hne]; [| left; by rewrite <- Hj]. rewrite Hi' in Ht.
    destruct Hf as [E1 | [E1 | (t' & E1 & Ht')]]; [left; congruence | congruence |]. right. split; [done |]. rewrite E1 in Ht. by injection Ht as <-. }
  split; [intros j t [Ht%H1 | [_ Ht]]%Hlt; lia |].
  intros j j' t [Ht | [-> Ht]]%Hlt [Ht' | [-> Ht']]%Hlt; [by eapply H2 | apply H1 in Ht; lia | apply H1 in Ht'; lia | done].
Qed.

Lemma submit_advances {A} k (job : M (EngineShared LruKReplacer) Db.Error A) s : 0 <= k -> grows (fun e : EngineShared LruKReplacer => next_txn_id (e_txns e)) k job -> advances k s (submit job s).2.
Proof.
  intros Hk Hj. unfold submit. destruct (workers s) as [| n]; [by apply advances_refl |]. specialize (Hj (engine_shared s)).
  apply advances_same; [done | |]; destruct (job (engine_shared s)) as [[a | e |] y]; done.
Qed.
Lemma submit_in_advances {A} k i x (job : M (EngineShared LruKReplacer * SessionState) Db.Error A) s : 0 <= k -> sessions s !! i = Some x -> steps k job -> advances k s (submit_in i x job s).2.
Proof.
  intros Hk Hx Hj. unfold submit_in. destruct (workers s) as [| n]; [by apply advances_refl |]. specialize (Hj (engine_shared s) x).
  destruct (job (engine_shared s, x)) as [[a | e |] [y z]]; (eapply advances_session; [done | exact Hx | reflexivity | exact Hj]).
Qed.
Lemma dispatch_execute_advances now i sql s : advances 2 s (dispatch_execute T fuel now i sql s).2.
Proof.
  unfold dispatch_execute. destruct (sessions s !! i) as [x |] eqn:E; [| by apply advances_refl]. apply submit_in_advances; [lia | done | apply execute_with_params_steps].
Qed.
Lemma dispatch_execute_with_params_advances now i sql params s : advances 2 s (dispatch_execute_with_params T fuel now i sql params s).2.
Proof.
  unfold dispatch_execute_with_params. destruct (sessions s !! i) as [x |] eqn:E; [| by apply advances_refl]. apply submit_in_advances; [lia | done | apply execute_with_params_steps].
Qed.
Lemma session_txn_deleted s i j : session_txn (mkEngine (engine_shared s) (delete i (sessions s)) (next_session_id s) (workers s)) j = if decide (j = i) then None else session_txn s j.
Proof. unfold session_txn. cbn. destruct (decide (j = i)) as [-> | Hne]; [by rewrite lookup_delete_eq | by rewrite lookup_delete_ne]. Qed.
Lemma disconnect_advances i s : advances 1 s (disconnect T fuel i s).
Proof.
  unfold disconnect. destruct (sessions s !! i) as [x |]; [| by apply advances_refl]. eapply (advances_trans 0 1); [lia | lia | | apply submit_advances; [lia | apply disconnect_session_grows]].
  apply advances_same; [lia | unfold txn_ids; cbn; lia |]. intros j t. rewrite session_txn_deleted. by destruct (decide (j = i)).
Qed.
Lemma connect_advances s : advances 0 s (connect s).2.
Proof.
  apply advances_same; [lia | unfold txn_ids; cbn; lia |]. intros j t. unfold session_txn, connect. cbn. destruct (decide (j = next_session_id s)) as [-> | Hne]; [by rewrite lookup_insert_eq | by rewrite lookup_insert_ne].
Qed.
Lemma dispatch_message_advances now m s : advances 2 s (dispatch_message T fuel now m s).2.
Proof.
  destruct m; cbn [dispatch_message].
  - eapply (advances_weaken 0); [lia | apply connect_advances].
  - pose proof (dispatch_execute_advances now session_id sql s). by destruct (dispatch_execute _ _ _ _ _ _).
  - pose proof (dispatch_execute_with_params_advances now session_id sql params s). by destruct (dispatch_execute_with_params _ _ _ _ _ _ _).
  - assert (H : advances 2 s (submit (describe T sql) s).2) by (apply submit_advances; [lia |]; eapply grows_weaken; [| apply describe_grows]; lia). by destruct (submit _ s).
  - by apply advances_refl.
  - by apply advances_refl.
  - assert (H : advances 2 s (submit (checkpoint_and_flush fuel) s).2) by (apply submit_advances; [lia |]; eapply grows_weaken; [| apply checkpoint_and_flush_grows]; lia). by destruct (submit _ s).
  - apply submit_advances; [lia |]. eapply grows_weaken; [| apply best_effort_flush_grows]. lia.
  - eapply (advances_weaken 1); [lia | apply disconnect_advances].
Qed.
Lemma tick_advances now order s : advances (len order) s (tick T fuel now order s).
Proof.
  revert s. induction order as [| i order IH]; intros s; [by apply advances_refl |]. cbn [tick]. rewrite len_cons. pose proof (len_nonneg order).
  eapply (advances_trans 1 (len order) s (match sessions s !! i with Some x => if overdue now s x then (submit_in i x (expire_idle_session T fuel now) s).2 else s | None => s end)); [lia | lia | |].
  - destruct (sessions s !! i) as [x |] eqn:E; [| by apply advances_refl]. destruct (overdue now s x); [| by apply advances_refl].
    apply submit_in_advances; [lia | done | apply expire_idle_session_steps].
  - destruct (sessions s !! i); apply IH.
Qed.

Definition run_events (events : list event) s : EngineState := fold_left handle events s.
Fixpoint events_cost (events : list event) : Z := match events with [] => 0 | e :: events => event_cost e + events_cost events end.
Lemma event_cost_nonneg e : 0 <= event_cost e.
Proof. destruct e; [done | apply len_nonneg]. Qed.
Lemma events_cost_nonneg events : 0 <= events_cost events.
Proof. induction events as [| e events IH]; [done |]. cbn [events_cost]. pose proof (event_cost_nonneg e). lia. Qed.
Lemma run_events_advances events : forall s, advances (events_cost events) s (run_events events s).
Proof.
  induction events as [| e events IH]; intros s; [by apply advances_refl |]. cbn [events_cost].
  eapply advances_trans; [apply event_cost_nonneg | apply events_cost_nonneg | | apply IH]. destruct e; [apply dispatch_message_advances | apply tick_advances].
Qed.

(** C9: No two sessions are ever in the same transaction. Whatever messages the engine thread handles after the database
    is opened, in whatever order, with whatever statements, errors, panics, disconnects and expired
    transactions: the transaction of a session is one that was begun, and no other session's. *)
Theorem sessions_own_transactions config db_path debug disk dwb log s events : spawn T fuel config db_path debug disk dwb log = Ok s ->
  0 <= txn_ids s -> txn_ids s + events_cost events < 2 ^ 64 -> let s' := run_events events s in
  forall i t, session_txn s' i = Some t -> t < txn_ids s' /\ forall j, session_txn s' j = Some t -> i = j.
Proof.
  cbv zeta. unfold spawn. intros Hs H0 Hroom i t Hi. destruct (open _ _ _ _ _ _ _ _) as [e | |]; [| discriminate Hs..]. injection Hs as <-.
  destruct (run_events_advances events _ H0 Hroom) as [_ [H1 H2]].
  { split; intros j; unfold session_txn; cbn [sessions]; by rewrite lookup_empty. }
  split; [by apply (H1 i) | intros j Hj; by eapply H2].
Qed.
End runtime.

(** ** A database at work: a new database, opened, with two sessions that talk to its engine thread *)
(** ** A new database *)
Definition no_texts : Texts := mkTexts (fun _ => []) (fun _ => []) (fun _ => []) (fun _ => []).
Definition engine_fuel : nat := 1000.
Definition sample_config : DbConfig := mkDbConfig 4096 8 (4 * 1024 * 1024) 4 100 5000 60000.
Abbreviation sample_spawn :=
  (spawn no_texts engine_fuel sample_config (str "/tmp/test.db") true sample_disk (mkDwb (sample_device (5 * PAGE_SIZE)) 4) sample_log).
Lemma spawned {A} (f : EngineState -> A) a : (s ← sample_spawn; Ok (f s)) = Ok a -> exists s, sample_spawn = Ok s /\ f s = a.
Proof. destruct sample_spawn as [s | |]; [| discriminate..]. intros E. exists s. split; [reflexivity |]. by injection E as <-. Qed.

Fixpoint replies (messages : list EngineMessage) (s : EngineState) : list Reply :=
  match messages with
  | [] => []
  | m :: messages => let '(r, s) := dispatch_message no_texts engine_fuel 0 m s in r :: replies messages s
  end.
Definition done_ : Reply := Executed (Ok (ResultSet.RowsAffected 0)).
Definition undefined (r : Reply) : bool := match r with Executed (Err (Db.UndefinedTable _)) => true | _ => false end.

(** Two sessions, each with a transaction of its own. *)
Definition two_begin : list event := [Message 0 Connect; Message 0 Connect; Message 0 (Execute 1 (str "BEGIN")); Message 0 (Execute 2 (str "BEGIN")); Tick 5 [1; 2]].
Definition two_sessions (s : EngineState) : option TxnId * option TxnId * Z :=
  let s' := run_events no_texts engine_fuel two_begin s in (session_txn s' 1, session_txn s' 2, txn_ids s).
Lemma two_sessions_begun : (s ← sample_spawn; Ok (two_sessions s)) = Ok (Some 1, Some 2, 1).
Proof. vm_compute. reflexivity. Qed.
Lemma sessions_own_transactions_witness : exists s, sample_spawn = Ok s /\
  let s' := run_events no_texts engine_fuel two_begin s in
  session_txn s' 1 = Some 1 /\ session_txn s' 2 = Some 2 /\ 1 < txn_ids s' /\ forall j, session_txn s' j = Some 1 -> 1 = j.
Proof.
  destruct (spawned two_sessions _ two_sessions_begun) as (s & Hs & E). unfold two_sessions in E. apply pair_equal_spec in E as [[H1 H2]%pair_equal_spec Hn].
  exists s. split; [exact Hs |]. cbv zeta. split; [exact H1 |]. split; [exact H2 |].
  eapply (sessions_own_transactions no_texts engine_fuel _ _ _ _ _ _ s two_begin Hs); [rewrite Hn; lia | rewrite Hn; reflexivity | exact H1].
Defined.

(** The two sessions' messages. *)
Definition create_and_rollback : list EngineMessage :=
  [Connect; Connect; Execute 1 (str "BEGIN"); Execute 1 (str "CREATE TABLE a (id INT)"); Execute 2 (str "CREATE TABLE b (id INT)");
   Execute 2 (str "INSERT INTO b VALUES (7)"); Execute 2 (str "SELECT id FROM b"); Execute 1 (str "ROLLBACK"); TableNames; Execute 2 (str "SELECT id FROM b")].

