(* ===== verification/Rollback.v ===== *)
(** * Rolling back

    ROLLBACK of a transaction that ran alone since it began leaves the database it found. *)
From stdpp Require Import sorting.
From S2P Require Import Prelude Text Value Memcomparable Tuple Common Errors WalRecord LockManager VersionStore TxnManager.
From S2P Require Import SqlLexer SqlParser SqlParserSpec SqlRender Catalog Planner Parameters Explain Expression BinderSpec OptimizerSpec.
From S2P Require Import Replacer Device SegmentStore Log LogInv LogReopen Page Header Disk Dwb Slots Heap HeapPage HeapSpec Buffer BufferInv BufferFlush BufferSpec BufferLaws BufferDurable StorageSpec.
From S2P Require Import BtreeNode Btree BtreePage BtreeWrites BtreeTree BtreeSpec BtreeInsert BtreeScan BtreeProps.
From S2P Require Import CatalogStore Executor ExecutorReads Database Queries DatabaseFrames Inserts CatalogSpec CatalogReload Selects Recovery.
From S2P Require Import Engine EngineSpec Sessions EngineProps Journal.

(** ** A database whose pages have the same bodies *)
Section bodies.
Context (m m' : gmap PageId bytes) (Hlen : forall p b, m !! p = Some b -> len b = PAGE_SIZE) (Hm : same_bodies m m').

Lemma bodies_lookup p b : m !! p = Some b -> exists b', m' !! p = Some b' /\ same_body b b'.
Proof using Hlen Hm. intros Hp. pose proof (Hlen _ _ Hp) as Hl. destruct (Hm p b Hp) as (b' & Hb' & Hl' & E). exists b'. split; [done |]. split_and!; [done | by rewrite Hl' | done]. Qed.
Lemma bodies_page_holds p ts next : page_holds m p ts next -> page_holds m' p ts next.
Proof using Hlen Hm.
  intros (b & lo & slots & Hb & Hh & Ht). destruct (bodies_lookup p b Hb) as (b' & Hb' & Hsame). exists b', lo, slots. split; [done |].
  pose proof Hsame as (_ & Hl & _). assert (Hs : forall off n, 12 <= off -> sub b' off n = sub b off n) by (intros; symmetry; by apply same_body_sub).
  destruct Hh as [Ha Hc Hu Hn Hr Hd]. pose proof (len_nonneg slots). split.
  - destruct Ha as [_ Hhd Hroom Hin Hst]. split; [| by rewrite Hs by lia.. | done | done]. split; [done.. |]. intros i x Hi. rewrite Hs; [by apply Hst |].
    unfold Heap.HEADER_SIZE, SLOT_SIZE in *. lia.
  - rewrite <- Ht. apply list_fmap_ext. intros i x Hi. unfold slot_tuple, slot_content. destruct (slot_lookup_range _ _ Ha Hi) as (Hlo & _ & _).
    pose proof (slots_room _ _ _ _ Ha). rewrite Hs; [done |]. unfold Heap.HEADER_SIZE, SLOT_SIZE in *. lia.
Qed.
Lemma bodies_heap_rep ch : heap_rep m ch -> heap_rep m' ch.
Proof using Hlen Hm. induction ch as [| [p ts] ch IH]; [done |]. intros (H1 & H2 & H3). split_and!; [done | by apply bodies_page_holds | auto]. Qed.
Lemma bodies_heap_ok first ch : heap_ok m first ch -> heap_ok m' first ch.
Proof using Hlen Hm. intros (H1 & H2 & H3 & H4). split_and!; [done | done | by apply bodies_heap_rep | done]. Qed.
Lemma bodies_catalog_heap first ch : catalog_heap m first ch -> catalog_heap m' first ch.
Proof using Hlen Hm. destruct first as [p |]; [apply bodies_heap_ok | done]. Qed.
Lemma bodies_btree_ok root ls lv : btree_ok m root ls lv -> btree_ok m' root ls lv.
Proof using Hlen Hm.
  intros [[Hnd Hn] ? ? ? ?]. split; try done. split; [done |]. eapply Forall_impl; [exact Hn |]. intros nd [Hr (b & Hb & Hh)]. split; [done |].
  destruct (bodies_lookup _ b Hb) as (b' & Hb' & Hsame). exists b'. split; [done | by eapply node_holds_body].
Qed.
Lemma bodies_index_ok info T tr : index_ok m info T tr -> index_ok m' info T tr.
Proof using Hlen Hm. intros [H1 H2 H3]. split; [by apply bodies_btree_ok | done | done]. Qed.
(** So it is the same database. *)
Lemma bodies_db_ok lag c d : db_rep lag m c d -> db_rep lag m' c d.
Proof using Hlen Hm.
  intros Hok. destruct (ok_layout _ _ _ _ Hok) as [L1 L2].
  split; [apply Hok | | | apply Hok | | apply bodies_catalog_heap, Hok | apply Hok | apply bodies_catalog_heap, Hok | apply Hok | apply Hok |].
  - intros t info Ht. destruct (ok_tables _ _ _ _ Hok t info Ht) as (ch & Hch & H1 & H2). exists ch. split; [done |]. split; [by apply bodies_heap_ok | done].
  - intros i info Hi. destruct (ok_indexes _ _ _ _ Hok i info Hi) as (table & ch & tr & T & H1 & H2 & H3 & H4 & H5). exists table, ch, tr, T. split_and!; try done. by apply bodies_index_ok.
  - destruct (ok_header _ _ _ _ Hok) as (b & Hb & Hl & H1 & H2). destruct (bodies_lookup 0 b Hb) as (b' & Hb' & Hsame). exists b'. split; [done |].
    split; [apply Hsame |]. unfold header_holds in *. by rewrite <- !(same_body_sub b b') by (done || lia).
  - split; [| done]. intros p q Hq. destruct (L1 p q Hq) as [b Hb]. destruct (bodies_lookup q b Hb) as (b' & Hb' & _). by exists b'.
Qed.
End bodies.

(** ** Calls that change no page *)
Section calls.
Context {R : Type} `{!Replacer R, !ReplacerLaws R}.
Abbreviation Pool := (BufferPool R).
Implicit Types p : Pool.

(** The same pages in as many frames, with room for [n] more records. *)
Definition kept (n : nat) p p' : Prop := pool_ok n [] p' /\ pool_pages p' = pool_pages p /\ length (frames p') = length (frames p).

Lemma kept_refl n p : pool_ok n [] p -> kept n p p.
Proof. intros H. split; [exact H | done]. Qed.
Lemma kept_trans n n' p1 p2 p3 : kept n p1 p2 -> kept n' p2 p3 -> kept n' p1 p3.
Proof. intros (_ & H1 & H2) (H3 & H4 & H5). split; [done | split; congruence]. Qed.
Lemma kept_le n n' p p' : kept n p p' -> (n' <= n)%nat -> kept n' p p'.
Proof. intros (H1 & H2 & H3) Hn. split; [by eapply pool_ok_le | done]. Qed.

(** A record of up to [j] times the size a page's record may have. *)
Lemma append_kept j n p t k : pool_ok (j + n) [] p -> record_len (appended (log_manager p) t k) <= Z.of_nat j * MAX_RECORD ->
  exists p', Buffer.append_log t k p = (Ok (next_lsn (log_manager p)), p') /\ kept n p p' /\ next_lsn (log_manager p) < next_lsn (log_manager p').
Proof.
  intros Hok Hlen. pose proof (pi_log _ _ _ _ _ (po_inv _ _ _ Hok)) as (Hr1 & Hr2 & Hr3).
  set (log := (Log.append t k (log_manager p)).2). exists (with_log log p). split; [done |]. pose proof (len_encode_body_min (appended (log_manager p) t k)) as Hmin.
  assert (E : next_lsn log = next_lsn (log_manager p) + record_len (appended (log_manager p) t k)).
  { unfold log. cbn. fold (appended (log_manager p) t k). rewrite len_encode_record. unfold wrapu. rewrite Z.mod_small; [done |]. unfold record_len, MAX_RECORD in *. lia. }
  assert (Hlt : next_lsn (log_manager p) < next_lsn log) by (rewrite E; unfold record_len; lia).
  split; [| exact Hlt]. split; [| done]. apply (logged_ok (j + n)); [done | | lia | lia]. unfold log_room. rewrite E. cbn. unfold MAX_RECORD, record_len in *. lia.
Qed.
Lemma append_small n p t k : pool_ok (S n) [] p -> k = Begin \/ k = Commit \/ k = EndTxn \/ k = CheckpointBegin ->
  exists p', Buffer.append_log t k p = (Ok (next_lsn (log_manager p)), p') /\ kept n p p' /\ next_lsn (log_manager p) < next_lsn (log_manager p').
Proof.
  intros Hok Hk. apply (append_kept 1); [done |]. unfold appended. destruct Hk as [-> | [-> | [-> | ->]]]; by unfold record_len, MAX_RECORD.
Qed.
Lemma flush_kept n p up : pool_ok n [] p -> match (on_log (Log.flush up) : M Pool _ _) p with (Ok _, p') | (Err _, p') => kept n p p' | (Panic, _) => False end.
Proof.
  intros Hok. unfold on_log. pose proof (log_flush_gen n up (log_manager p) (pi_log _ _ _ _ _ (po_inv _ _ _ Hok))) as Hf.
  destruct (Log.flush up (log_manager p)) as [[u | e |] log]; [| | done]; destruct Hf as (H1 & H2 & _);
    (split; [apply (logged_ok n); [done | done | lia | done] | done]).
Qed.
Lemma flush_all_kept n p : pool_ok n [] p -> match (flush_log_all : M Pool _ _) p with (Ok _, p') | (Err _, p') => kept n p p' | (Panic, _) => False end.
Proof.
  intros Hok. unfold flush_log_all. pose proof (flush_kept n p (next_lsn (log_manager p)) Hok) as H. unfold on_log, Log.flush_all in *. unfold mbind, M_bind, gets.
  destruct (buffer (log_manager p)); [by destruct p; apply kept_refl | exact H].
Qed.
Lemma sync_kept n p : pool_ok n [] p -> match (pool_sync : M Pool _ _) p with (Ok _, p') | (Err _, p') => kept n p p' | (Panic, _) => False end.
Proof.
  intros [Hi Hfl Hld Hn1 Hn2]. unfold pool_sync, on_disk. assert (Hsync : match disk_sync (disk_manager p) with (Ok _, d2) | (Err _, d2) => same_disk (disk_manager p) d2 | (Panic, _) => False end).
  { unfold disk_sync, on_device, sync_all. destruct (disk_manager p) as [[c fs] ps nx ex]. cbn. by destruct (next_fault fs) as [[] ?]. }
  destruct (disk_sync (disk_manager p)) as [[[] | e |] d]; [| | done]; destruct (pool_inv_read _ _ _ _ _ _ Hi Hsync) as [H1 H2]; (split; [by split | done]).
Qed.
(** Dropping segments of the log. *)
Lemma truncate_kept n p bound : pool_ok n [] p -> match (truncate_log_below bound : M Pool _ _) p with (Ok _, p') | (Err _, p') => kept n p p' | (Panic, _) => False end.
Proof.
  intros Hok. unfold truncate_log_below, on_log.
  assert (Hk : forall l', next_lsn l' = next_lsn (log_manager p) -> durable_lsn l' = durable_lsn (log_manager p) -> kept n p (with_log l' p)).
  { intros l' E1 E2. split; [| done]. apply (logged_ok n); [done | | lia | done]. pose proof (pi_log _ _ _ _ _ (po_inv _ _ _ Hok)) as Hroom. unfold log_room in *. by rewrite E1, E2. }
  unfold truncate_below, mbind, M_bind, gets, modify. destruct (keep_from _ _ _) as [| k]; [by apply Hk |].
  pose proof (remove_all_spec (meta_id <$> firstn (S k) (sealed (log_manager p))) (drop_sealed (S k) (log_manager p))) as Hr.
  destruct (remove_all _ _) as [[u | e |] l']; [| | by destruct Hr as (_ & [] & _)]; destruct Hr as (-> & _); by apply Hk.
Qed.
End calls.

(** ** The size of a checkpoint *)
Lemma omap_le {A B} (f : A -> option B) l : (length (omap f l) <= length l)%nat.
Proof. induction l as [| x l IH]; [done |]. cbn. destruct (f x); cbn; lia. Qed.
Lemma concat_fixed {A} (f : A -> bytes) k l : (forall x, len (f x) = k) -> len (concat (f <$> l)) = k * len l.
Proof. intros Hf. induction l as [| x l IH]; [cbn; unfold len; cbn; lia |]. rewrite fmap_cons. cbn [concat]. rewrite len_app, IH, Hf, len_cons. lia. Qed.
Lemma checkpoint_record_len l pv t att dpt : record_len (mkLogged l pv t (CheckpointEnd att dpt)) = 45 + 16 * len att + 12 * len dpt.
Proof.
  unfold record_len, encode_body. cbn [WalRecord.kind encode_payload]. autorewrite with len. rewrite (concat_fixed _ 16), (concat_fixed _ 12); [cbn; lia | |]; intros x; autorewrite with len; cbn; lia.
Qed.
(** The records' room for a checkpoint of [A] transactions and [N] frames. *)
Definition checkpoint_room (A N : nat) : nat := S (Z.to_nat ((45 + 16 * Z.of_nat A + 12 * Z.of_nat N) / MAX_RECORD)).

(** ** Transactions *)
Section txns.
Context {R : Type} `{!Replacer R, !ReplacerLaws R} (fuel : nat).
#[local] Instance rollback_ops : PoolOps (BufferPool R) := pool_ops fuel.
Abbreviation Pool := (BufferPool R).
Abbreviation MSys := (M (Sys Pool) Txn.Error).
Implicit Types (p : Pool) (s : Sys Pool).

Lemma on_pool_ok {A} (c : M Pool Storage.Error A) s a p' : c (pool s) = (Ok a, p') -> (on_pool c : MSys A) s = (Ok a, mkSys (mgr s) p').
Proof. intros E. unfold on_pool. by rewrite E. Qed.
Lemma on_pool_err {A} (c : M Pool Storage.Error A) s e p' : c (pool s) = (Err e, p') -> (on_pool c : MSys A) s = (Err (Txn.Storage e), mkSys (mgr s) p').
Proof. intros E. unfold on_pool. by rewrite E. Qed.

(** A new transaction, alone at the end of the log. *)
Lemma begin_journal n p bid base rs t : pool_ok (S n) [] p -> log_is (log_manager p) bid base rs -> in_u 64 t ->
  exists p', Buffer.append_log t Begin p = (Ok (next_lsn (log_manager p)), p') /\ kept n p p'
    /\ journal_ok t (next_lsn (log_manager p)) (pool_pages p) (length (frames p)) n [] p' /\ lone t (next_lsn (log_manager p)) (log_manager p').
Proof.
  intros Hok Hl Ht. destruct (append_log_ok n p bid base rs t Begin Hok Hl Ht I ltac:(by unfold record_len, MAX_RECORD)) as (p' & E & H1 & H2 & H3 & H4 & H5).
  exists p'. split; [done |]. split; [split; [done |]; split; [done | by rewrite H5] |]. split.
  - split; [done |]. split; [by rewrite H5 |]. split; [lia |]. intros _. rewrite H2. exists bid, base, rs, (appended (log_manager p) t Begin), []. split; [exact H3 |].
    split; [done |]. split; [done |]. split; [by constructor |]. constructor.
  - intros t' l Hl' Hge. destruct (decide (t' = t)) as [-> | Hne]; [done |]. exfalso. unfold Buffer.append_log, on_log in E. cbn in E.
    injection E as <-. cbn in Hl'. rewrite lookup_insert_ne in Hl' by done. destruct Hl as (_ & gs & act & buf & Hi & _). pose proof (links_range _ _ _ _ _ _ _ _ Hi Hl'). lia.
Qed.
Lemma begin_run level s p' : Buffer.append_log (next_txn_id (mgr s)) Begin (pool s) = (Ok (next_lsn (log_manager (pool s))), p') ->
  let t := next_txn_id (mgr s) in
  (begin level : MSys _) s = (Ok t, mkSys (mkManager (<[t := Transaction_new t level (next_lsn (log_manager (pool s))) (next_ts (mgr s))]> (active (mgr s))) (wrapu 64 (t + 1))
    (lock_manager (mgr s)) (version_store (mgr s)) (wrapu 64 (next_ts (mgr s) + 1))) p').
Proof.
  intros E. unfold begin, next_timestamp, on_mgr, on_pool. unfold mbind, M_bind, gets, modify. cbn [mgr pool].
  unfold TxnManager.append_log, rollback_ops, pool_ops, mret, M_ret. cbn [pool mgr next_ts next_txn_id bump_ts bump_txn_id]. by rewrite E.
Qed.

Lemma commit_ok n s t x : active (mgr s) !! t = Some x -> TxnManager.state x = Growing -> pool_ok (2 + n) [] (pool s) ->
  match (commit t : MSys _) s with
  | (Ok _, s') => kept n (pool s) (pool s') /\ active (mgr s') = delete t (active (mgr s)) /\ next_txn_id (mgr s') = next_txn_id (mgr s)
  | (Err _, s') => kept n (pool s) (pool s') /\ mgr s' = mgr s
  | (Panic, _) => False
  end.
Proof.
  intros Hx Hst Hok. unfold commit. unfold mbind at 1, M_bind at 1, gets. rewrite Hx, Hst. destruct (decide (Growing = Aborted)) as [? | _]; [done |].
  destruct (append_small (S n) (pool s) t Commit Hok ltac:(auto)) as (p1 & E1 & K1 & _). rewrite (then_ok _ _ _ _ _ (on_pool_ok _ _ _ _ E1)).
  pose proof (flush_kept (S n) p1 (next_lsn (log_manager (pool s))) (proj1 K1)) as Hf. set (l := next_lsn (log_manager (pool s))) in *.
  destruct (on_log (Log.flush l) p1) as [[u | e |] p2] eqn:E2; [| | done].
  2: { rewrite (then_err _ _ _ _ _ (on_pool_err (@TxnManager.flush_log _ rollback_ops l) (mkSys (mgr s) p1) e p2 E2)). split; [eapply kept_le; [by eapply kept_trans | lia] | done]. }
  rewrite (then_ok _ _ _ _ _ (on_pool_ok (@TxnManager.flush_log _ rollback_ops l) (mkSys (mgr s) p1) u p2 E2)).
  destruct (append_small n p2 t EndTxn (proj1 Hf) ltac:(auto)) as (p3 & E3 & K3 & _).
  unfold next_timestamp, on_mgr, mbind, M_bind, gets, modify, mret, M_ret. cbn [pool mgr].
  rewrite (on_pool_ok (@TxnManager.append_log _ rollback_ops t EndTxn) (mkSys _ p2) _ p3 E3).
  split; [| done]. eapply kept_trans; [by eapply kept_trans | exact K3].
Qed.

(** The pages have the bodies of [m0] again, in a pool of as many frames whose log is sound. *)
Definition restored (n : nat) (m0 : gmap PageId bytes) (N : nat) p : Prop :=
  pool_ok n [] p /\ same_bodies m0 (pool_pages p) /\ (exists bid base rs, log_is (log_manager p) bid base rs) /\ length (frames p) = N.

Lemma abort_ok n k s t x m0 N : active (mgr s) !! t = Some x -> TxnManager.state x = Growing -> in_u 64 t ->
  journal_ok t (begin_lsn x) m0 N (k + S (S n)) [] (pool s) -> lone t (begin_lsn x) (log_manager (pool s)) ->
  next_lsn (log_manager (pool s)) - begin_lsn x <= MIN_RECORD_LEN * Z.of_nat k -> (k <= fuel)%nat ->
  match (pending ← begin_abort t; undo_then_finish pending : MSys _) s with
  | (Ok _, s') => restored n m0 N (pool s') /\ active (mgr s') = delete t (active (mgr s)) /\ next_txn_id (mgr s') = next_txn_id (mgr s)
  | (Err _, s') => pool_ok n [] (pool s') /\ active (mgr s') = active (mgr s)
  | (Panic, _) => False
  end.
Proof.
  intros Hx Hst Ht (Hok & HN & _ & Hj) Hlone Hk Hfuel.
  destruct (undo_transaction_ok t (begin_lsn x) m0 n k fuel (pool s) Hok (Hj Hlone) Ht Hk Hfuel) as (l & El & Hu).
  set (m1 := set_active (<[t := set_state Aborted x]> (active (mgr s))) (mgr s)).
  assert (Eb : (begin_abort t : MSys _) s = (Ok (mkPending t (Some l)), mkSys m1 (pool s))).
  { unfold begin_abort, mbind, M_bind, gets, on_mgr, modify, mret, M_ret. rewrite Hx, Hst. destruct (decide (Growing = Aborted)) as [? | _]; [done |].
    cbn. by rewrite El. }
  rewrite (then_ok _ _ _ _ _ Eb). unfold undo_then_finish, TxnManager.undo. cbn [pending_last_lsn pending_txn_id].
  destruct (undo_transaction fuel t l (pool s)) as [[u | e |] p'] eqn:Eu; [| | done].
  - rewrite (on_pool_ok (@TxnManager.undo_transaction _ rollback_ops t l) (mkSys m1 (pool s)) u p' Eu).
    unfold finish_abort, mbind, M_bind, gets, on_mgr, modify. cbn [pending_txn_id mgr pool m1 set_active active]. rewrite lookup_insert_eq. cbn.
    destruct Hu as (U1 & U2 & U3 & U4). split; [split_and!; [done | done | done | by rewrite U4] |]. split; [| done]. by rewrite delete_insert_eq.
  - rewrite (on_pool_err (@TxnManager.undo_transaction _ rollback_ops t l) (mkSys m1 (pool s)) e p' Eu). cbn. split; [apply Hu |].
    rewrite alter_insert_eq. apply insert_id. rewrite Hx. destruct x as [a b c d f]. cbn in Hst |- *. by rewrite Hst.
Qed.

(** ** Checkpoints *)
Abbreviation cost s := (checkpoint_room (base.size (active (mgr s))) (length (frames (pool s)))).
(** The header page may have another LSN of the last checkpoint. *)
Definition checkpointed (m m' : gmap PageId bytes) : Prop :=
  m' = m \/ exists b lsn l, m !! 0 = Some b /\ m' = <[0 := set_page_lsn lsn (splice b 32 (to_le 8 l))]> m.
(** The transactions but for the checkpoint's own. *)
Definition others_same s s' : Prop := forall t, t <> next_txn_id (mgr s) -> active (mgr s') !! t = active (mgr s) !! t.

Lemma end_record_fits s t : record_len (appended (log_manager (pool s)) t (CheckpointEnd (active_snapshot s) (dirty_page_table (pool s)))) <= Z.of_nat (cost s) * MAX_RECORD.
Proof.
  unfold appended. rewrite checkpoint_record_len. unfold checkpoint_room.
  assert (H1 : len (active_snapshot s) <= Z.of_nat (base.size (active (mgr s)))).
  { unfold active_snapshot, len. pose proof (omap_le (fun t => pair t <$> last_lsn (pool s) t) (fst <$> map_to_list (active (mgr s)))) as H. rewrite length_fmap, length_map_to_list in H. lia. }
  assert (H2 : len (dirty_page_table (pool s)) <= Z.of_nat (length (frames (pool s)))).
  { unfold dirty_page_table, dirty_frames, len. rewrite length_fmap. etrans; [apply inj_le, omap_le |]. rewrite length_imap, length_zip_with. lia. }
  set (x := 45 + 16 * Z.of_nat (base.size (active (mgr s))) + 12 * Z.of_nat (length (frames (pool s)))).
  pose proof (Z.div_mod x MAX_RECORD ltac:(done)) as Hd. pose proof (Z.mod_pos_bound x MAX_RECORD ltac:(done)) as Hm. assert (0 <= x / MAX_RECORD) by (apply Z.div_pos; [lia | done]).
  rewrite Nat2Z.inj_succ, Z2Nat.id by done. unfold MAX_RECORD in *. lia.
Qed.

Definition checkpoint_post {A} (n : nat) s (r : outcome Txn.Error A * Sys Pool) : Prop :=
  match r with
  | (Ok _, s') | (Err _, s') => pool_ok n [] (pool s') /\ checkpointed (pool_pages (pool s)) (pool_pages (pool s')) /\ others_same s s'
  | (Panic, _) => False
  end.
Lemma checkpoint_post_kept {A} n n' s s' (o : outcome Txn.Error A) p' : o <> Panic -> kept n' (pool s) p' -> (n <= n')%nat -> mgr s' = mgr s -> pool s' = p' -> checkpoint_post n s (o, s').
Proof.
  intros Ho (H1 & H2 & _) Hn E1 E2. assert (H : pool_ok n [] (pool s') /\ checkpointed (pool_pages (pool s)) (pool_pages (pool s')) /\ others_same s s').
  { rewrite E2. split; [by eapply pool_ok_le |]. split; [left; done |]. intros t _. by rewrite E1. }
  by destruct o.
Qed.

Lemma header_stamp_ok n p t l b : pool_ok (S n) [] p -> pool_pages p !! 0 = Some b ->
  match (set_last_checkpoint_lsn t l : M Pool _ _) p with
  | (Ok _, p') => pool_ok n [] p' /\ exists lsn, pool_pages p' = <[0 := set_page_lsn lsn (splice b 32 (to_le 8 l))]> (pool_pages p)
  | (Err _, p') => pool_ok n [] p' /\ pool_pages p' = pool_pages p
  | (Panic, _) => False
  end.
Proof.
  intros Hok Hb. pose proof (set_header_spec n (pool_pages p) t 32 (to_le 8 l) b Hb ltac:(lia) ltac:(rewrite len_to_le; unfold PAGE_SIZE; lia) p (conj Hok eq_refl)) as H.
  unfold set_last_checkpoint_lsn. destruct (set_header t 32 (to_le 8 l) p) as [[u | e |] p']; [| | done].
  - destruct H as (m' & [H1 H2] & lsn & H3). split; [done |]. exists lsn. exact (eq_trans H2 H3).
  - destruct H as (m' & [H1 H2] & H3). split; [done | exact (eq_trans H2 H3)].
Qed.

(** The header's transaction: begun, the header stamped, committed. *)
Lemma header_txn_ok n s b l {A} (k : TxnId -> MSys A) : pool_ok (4 + n) [] (pool s) -> pool_pages (pool s) !! 0 = Some b ->
  (forall t s', checkpoint_post n s (Ok tt, s') -> checkpoint_post n s (k t s')) ->
  checkpoint_post n s ((t ← begin ReadCommitted; _ ← on_pool (set_last_checkpoint_lsn t l); _ ← commit t; k t) s).
Proof.
  intros Hok Hb Hk. destruct (append_small (3 + n) (pool s) (next_txn_id (mgr s)) Begin Hok ltac:(auto)) as (p1 & E1 & K1 & _).
  pose proof (begin_run ReadCommitted s p1 E1) as Eb. cbv zeta in Eb. rewrite (then_ok _ _ _ _ _ Eb). clear Eb. set (t := next_txn_id (mgr s)) in *.
  match goal with |- checkpoint_post n s (_ (mkSys ?m p1)) => set (m1 := m) end. destruct K1 as (K1 & K2 & _).
  assert (Ho1 : forall p, others_same s (mkSys m1 p)) by (intros p t' Ht'; cbn; by rewrite lookup_insert_ne).
  rewrite <- K2 in Hb. pose proof (header_stamp_ok (2 + n) p1 t l b K1 Hb) as Hh.
  destruct (set_last_checkpoint_lsn t l p1) as [[u | e |] p2] eqn:E2; [| | done].
  2: { rewrite (then_err _ _ _ _ _ (on_pool_err _ (mkSys m1 p1) e p2 E2)). split; [eapply pool_ok_le; [apply Hh | lia] |]. split; [left; exact (eq_trans (proj2 Hh) K2) | apply Ho1]. }
  rewrite (then_ok _ _ _ _ _ (on_pool_ok _ (mkSys m1 p1) u p2 E2)). destruct Hh as (H1 & lsn & H2). cbn [mgr].
  assert (Hc : checkpointed (pool_pages (pool s)) (pool_pages p2)) by (right; exists b, lsn, l; by rewrite H2, <- K2).
  pose proof (commit_ok n (mkSys m1 p2) t _ (lookup_insert_eq _ _ _) eq_refl H1) as Hcm.
  destruct (commit t (mkSys m1 p2)) as [[u' | e |] s3] eqn:E3; [| | done].
  - rewrite (then_ok _ _ _ _ _ E3). destruct Hcm as ((C1 & C2 & _) & C3 & _). apply Hk. split; [done |]. split; [by rewrite C2 |].
    intros t' Ht'. rewrite C3. cbn. rewrite lookup_delete_ne by done. by rewrite lookup_insert_ne.
  - rewrite (then_err _ _ _ _ _ E3). destruct Hcm as ((C1 & C2 & _) & C3). split; [done |]. split; [by rewrite C2 |]. intros t' Ht'. rewrite C3. by apply Ho1.
Qed.

Lemma checkpoint_post_step {A B} n s s1 (m : MSys A) (k : A -> MSys B) : checkpoint_post n s (m s1) -> (forall a s', checkpoint_post n s (Ok tt, s') -> checkpoint_post n s (k a s')) ->
  checkpoint_post n s ((m ≫= k) s1).
Proof. intros Hm Hk. unfold mbind, M_bind. destruct (m s1) as [[a | e |] s2]; [by apply Hk | exact Hm | done]. Qed.
(** A call on the pool that changes no page. *)
Lemma checkpoint_post_pool {A} n s s1 (c : M Pool Storage.Error A) : checkpoint_post n s (Ok tt, s1) ->
  (match c (pool s1) with (Ok _, p') | (Err _, p') => kept n (pool s1) p' | (Panic, _) => False end) -> checkpoint_post n s ((on_pool c : MSys A) s1).
Proof.
  intros (H1 & H2 & H3) Hc. unfold on_pool. destruct (c (pool s1)) as [[a | e |] p']; [| | done]; destruct Hc as (C1 & C2 & _); (split; [done |]; split; [cbn; by rewrite C2 | exact H3]).
Qed.

Lemma checkpoint_post_from {A} n s s1 (r : outcome Txn.Error A * Sys Pool) : pool_pages (pool s1) = pool_pages (pool s) -> mgr s1 = mgr s -> checkpoint_post n s1 r -> checkpoint_post n s r.
Proof. intros E1 E2. unfold checkpoint_post, others_same. by rewrite E1, E2. Qed.

Lemma checkpoint_record_ok n s b : pool_ok (S (cost s + (4 + n))) [] (pool s) -> pool_pages (pool s) !! 0 = Some b ->
  checkpoint_post n s ((write_checkpoint_record fuel : MSys _) s).
Proof.
  intros Hok Hb. destruct (append_small _ (pool s) CHECKPOINT_TXN CheckpointBegin Hok ltac:(auto)) as (p1 & E1 & K & _).
  unfold write_checkpoint_record. change (@checkpoint_ops R Replacer0 fuel) with rollback_ops. rewrite (then_ok _ _ _ _ _ (on_pool_ok _ _ _ _ E1)).
  set (s1 := mkSys (mgr s) p1). rewrite (then_ok (gets active_snapshot) _ s1 (active_snapshot s1) s1 eq_refl).
  rewrite (then_ok (gets (fun s => dirty_page_table (pool s))) _ s1 (dirty_page_table (pool s1)) s1 eq_refl).
  assert (K1 : pool_ok (cost s1 + (4 + n)) [] p1) by (unfold s1; cbn [mgr pool]; rewrite (proj2 (proj2 K)); apply K).
  destruct (append_kept (cost s1) (4 + n) p1 CHECKPOINT_TXN _ K1 (end_record_fits s1 CHECKPOINT_TXN)) as (p2 & E2 & L & _). rewrite (then_ok _ _ _ _ _ (on_pool_ok _ s1 _ _ E2)).
  pose proof (flush_all_kept (4 + n) p2 (proj1 L)) as Hf. destruct (flush_log_all p2) as [[u | e |] p3] eqn:E3; [| | done];
    pose proof (kept_trans _ _ _ _ _ K (kept_trans _ _ _ _ _ L Hf)) as Hk.
  2: { rewrite (then_err _ _ _ _ _ (on_pool_err _ (mkSys (mgr s1) p2) e p3 E3)). apply (checkpoint_post_kept n (4 + n) s _ _ p3); [done | exact Hk | lia | done | done]. }
  rewrite (then_ok _ _ _ _ _ (on_pool_ok _ (mkSys (mgr s1) p2) u p3 E3)). destruct Hk as (Hk1 & Hk2 & _).
  apply (checkpoint_post_from n s (mkSys (mgr s1) p3)); [exact Hk2 | done |]. rewrite <- Hk2 in Hb.
  apply (header_txn_ok n (mkSys (mgr s1) p3) b); [exact Hk1 | exact Hb |]. intros t s' Hs'. exact Hs'.
Qed.
Lemma finish_checkpoint_ok n s s1 pending : checkpoint_post n s (Ok tt, s1) -> checkpoint_post n s ((finish_checkpoint pending : MSys _) s1).
Proof.
  intros H. unfold finish_checkpoint. apply checkpoint_post_step.
  { apply checkpoint_post_pool; [done |]. pose proof (flush_page_step n [] (pool s1) 0 (proj1 H) ltac:(set_solver)) as Hf. pose proof (flush_page_silent 0 (pool s1)) as [_ Hn].
    destruct (flush_page 0 (pool s1)) as [[u | e |] p']; [| | done]; destruct Hf as (F1 & F2 & _); (split; [exact F1 | split; [exact F2 | exact Hn]]). }
  intros _ s2 H2. apply checkpoint_post_step; [apply checkpoint_post_pool; [done | apply sync_kept, H2] |]. intros _ s3 H3.
  apply checkpoint_post_step; [| intros _ s4 H4; exact H4]. destruct (truncate_bound pending) as [bound |]; [| exact H3]. apply checkpoint_post_pool; [done | apply truncate_kept, H3].
Qed.
Lemma checkpoint_ok n s b : pool_ok (S (cost s + (4 + n))) [] (pool s) -> pool_pages (pool s) !! 0 = Some b ->
  checkpoint_post n s ((pending ← write_checkpoint_record fuel; finish_checkpoint pending : MSys _) s).
Proof. intros Hok Hb. apply checkpoint_post_step; [by eapply checkpoint_record_ok |]. intros pending s'. apply finish_checkpoint_ok. Qed.
End txns.

(** ** The header of a database *)
Lemma header_db_ok m c d b : db_ok m c d -> len b = PAGE_SIZE -> header_holds b 24 (Catalog.catalog_first_page c) -> header_holds b 40 (Catalog.index_catalog_first_page c) -> db_ok (<[0 := b]> m) c d.
Proof.
  intros Hok Hlen H1 H2. destruct (part_update m (<[0 := b]> m) d d PHeader (ok_layout _ _ _ _ Hok)) as [Hl Hk].
  { done. }
  { apply fresh_or_refl. }
  { cbn. intros q b0 Hq Hnq. rewrite lookup_insert_ne by set_solver. done. }
  { cbn. intros q ->%list_elem_of_singleton. by rewrite lookup_insert_eq. }
  split; [apply Hok | | | apply Hok | | | apply Hok | | apply Hok | apply Hok | exact Hl].
  - intros t info Ht. destruct (ok_tables _ _ _ _ Hok t info Ht) as (ch & Hch & Hto). exists ch. split; [done |].
    eapply table_ok_frame; [done |]. intros q Hq. apply (Hk (PTable t)); [done |]. cbn. by rewrite Hch.
  - intros i info Hi. destruct (ok_indexes _ _ _ _ Hok i info Hi) as (table & ch & tr & T & Ht & Hch & Htr & HT & Hix).
    exists table, ch, tr, T. split_and!; [done | done | done | done |]. eapply index_ok_frame; [done |]. intros q Hq. apply (Hk (PIndex i)); [done |]. cbn. by rewrite Htr.
  - exists b. by rewrite lookup_insert_eq.
  - eapply catalog_heap_frame; [apply Hok |]. intros q Hq. by apply (Hk PTableRows).
  - eapply catalog_heap_frame; [apply Hok |]. intros q Hq. by apply (Hk PIndexRows).
Qed.
Lemma checkpointed_db_ok m m' c d : db_ok m c d -> checkpointed m m' -> db_ok m' c d.
Proof.
  intros Hok [-> | (b & lsn & l & Hb & ->)]; [done |]. destruct (ok_header _ _ _ _ Hok) as (b0 & Hb0 & Hlen & H1 & H2). assert (b0 = b) as -> by congruence.
  assert (Hl : len (splice b 32 (to_le 8 l)) = PAGE_SIZE) by (rewrite len_splice; rewrite ?len_to_le, ?Hlen; unfold PAGE_SIZE; lia).
  assert (Hs : forall at_ o, at_ = 24 \/ at_ = 40 -> header_holds b at_ o -> header_holds (set_page_lsn lsn (splice b 32 (to_le 8 l))) at_ o).
  { intros at_ o Ha Hh. unfold header_holds in *. rewrite sub_set_page_lsn by (done || lia). rewrite sub_splice_ne; [done | lia | rewrite len_to_le, Hlen; unfold PAGE_SIZE; lia | rewrite len_to_le; lia]. }
  apply header_db_ok; [done | by apply len_set_page_lsn | apply Hs; auto | apply Hs; auto].
Qed.

(** ** The engine *)
Section engine.
Context {R : Type} `{!Replacer R, !ReplacerLaws R} (T : Texts) (fuel : nat).
#[local] Existing Instance rollback_ops.
Abbreviation Shared := (EngineShared R).
Implicit Types (s : Shared) (x : SessionState).
Abbreviation ckpt s := (checkpoint_room (base.size (active (e_txns s))) (length (frames (e_pool s)))).

Lemma maybe_checkpoint_ok n s d : pool_ok (S (ckpt s + (4 + n))) [] (e_pool s) -> db_ok (pool_pages (e_pool s)) (e_catalog s) d ->
  exists s', maybe_checkpoint fuel s = (Ok tt, s') /\ pool_ok n [] (e_pool s') /\ e_catalog s' = e_catalog s /\ db_ok (pool_pages (e_pool s')) (e_catalog s) d
    /\ forall t, t <> next_txn_id (e_txns s) -> active (e_txns s') !! t = active (e_txns s) !! t.
Proof.
  intros Hok Hdb. assert (Hsame : pool_ok n [] (e_pool s)) by (eapply pool_ok_le; [exact Hok | lia]).
  unfold maybe_checkpoint. destruct (flush_poisoned (e_pool s)); [by exists s |]. destruct (_ <? _); [by exists s |]. destruct (ok_header _ _ _ _ Hdb) as (b & Hb & _).
  pose proof (checkpoint_ok fuel n (mkSys (e_txns s) (e_pool s)) b Hok Hb) as H. unfold on_txns.
  destruct ((pending ← write_checkpoint_record fuel; finish_checkpoint pending) (mkSys (e_txns s) (e_pool s))) as [[l | e |] y]; [| | done];
    destruct H as (H1 & H2 & H3); (eexists; split; [done |]; split; [exact H1 |]; split; [done |]; split; [by eapply checkpointed_db_ok | exact H3]).
Qed.

(** The catalog [c0] and the tables of [d0] can be read back in the steps allowed. *)
Record reloadable (c0 : CatalogState) (d0 : Db) : Prop := {
  re_tables : next_table_id c0 <= u32_max;
  re_indexes : next_index_id c0 <= u32_max;
  re_fuel : (length (table_infos c0) < fuel)%nat /\ (length (index_infos c0) < fuel)%nat
    /\ (length (db_table_rows d0) + 2 < fuel)%nat /\ (length (db_index_rows d0) + 1 < fuel)%nat;
}.

Lemma reload_catalog_ok n s c0 d0 bid base rs :
  pool_ok (6 + n) [] (e_pool s) -> log_is (log_manager (e_pool s)) bid base rs -> in_u 64 (next_txn_id (e_txns s)) -> db_ok (pool_pages (e_pool s)) c0 d0 -> reloadable c0 d0 ->
  Catalog.catalog_first_page (e_catalog s) = None \/ Catalog.catalog_first_page (e_catalog s) = Catalog.catalog_first_page c0 ->
  match reload_catalog T fuel s with
  | (Ok _, s') => pool_ok n [] (e_pool s') /\ length (frames (e_pool s')) = length (frames (e_pool s)) /\ reloaded c0 d0 (pool_pages (e_pool s')) (e_catalog s')
      /\ active (e_txns s') = delete (next_txn_id (e_txns s)) (active (e_txns s)) /\ next_txn_id (e_txns s') = wrapu 64 (next_txn_id (e_txns s) + 1)
  | (Err _, s') => pool_ok n [] (e_pool s') /\ exists c1, reloaded c0 d0 (pool_pages (e_pool s')) c1
  | (Panic, _) => False
  end.
Proof.
  intros Hok Hl Ht Hdb [Hn1 Hn2 (F1 & F2 & F3 & F4)] Hfirst. set (t := next_txn_id (e_txns s)) in *.
  destruct (begin_journal (5 + n) (e_pool s) bid base rs t Hok Hl Ht) as (p1 & E1 & K1 & J1 & _). pose proof (begin_run fuel SnapshotIsolation (mkSys (e_txns s) (e_pool s)) p1 E1) as Eb.
  cbv zeta in Eb. cbn [mgr pool] in Eb. fold t in Eb. unfold reload_catalog. change (@engine_ops R Replacer0 fuel) with (@rollback_ops R Replacer0 fuel). unfold mbind at 1, M_bind at 1, on_txns at 1. rewrite Eb. clear Eb. cbn [map_err pool mgr].
  match goal with |- context [with_parts (e_catalog s) p1 ?m s] => set (m1 := m) end. unfold mbind at 1, M_bind at 1, on_the_catalog. cbn [e_catalog e_pool with_parts].
  set (laws := journal_laws t (next_lsn (log_manager (e_pool s))) (pool_pages (e_pool s)) (length (frames (e_pool s))) Ht).
  pose proof (@reload_spec (BufferPool R) _ laws (2 + n) (pool_pages (e_pool s)) (e_catalog s) c0 d0 t fuel fuel Hdb Hfirst Hn1 Hn2 F1 F2 F3 F4 p1 (conj J1 (proj1 (proj2 K1)))) as Hr.
  destruct (reload fuel fuel t (mkCat (e_catalog s) p1)) as [[u | e |] y]; [| | done]; destruct Hr as (m' & [Hst Hm'] & Hr); cbn [map_err]; cbn in Hm'; destruct Hst as (Hok2 & HN & _).
  2: { cbn. split; [eapply pool_ok_le; [exact Hok2 | lia] |]. destruct Hr as [_ (c1 & (H1 & _ & H2 & _) & H3)]. exists c1. rewrite Hm'. by split_and!. }
  cbn [e_pool e_txns e_catalog with_parts cat cat_pool]. unfold on_txns. cbn [e_pool e_txns e_catalog with_parts].
  pose proof (commit_ok fuel n (mkSys m1 (cat_pool y)) t _ (lookup_insert_eq _ _ _) eq_refl Hok2) as Hc.
  destruct (commit t (mkSys m1 (cat_pool y))) as [[u' | e |] z]; [| | done]; destruct Hc as ((C1 & C2 & C3) & C4); cbn [map_err e_pool e_txns e_catalog with_parts]; cbn [pool] in C2, C3.
  - destruct C4 as [C4 C5]. split; [done |]. split; [by rewrite C3 |]. split; [rewrite C2, Hm'; exact Hr |]. split; [| exact C5]. rewrite C4. cbn. by rewrite delete_insert_eq.
  - split; [done |]. exists (cat y). rewrite C2, Hm'. exact Hr.
Qed.

(** ** BEGIN and ROLLBACK *)
(** The statements that control transactions. *)
Lemma execute_control now sql st s x : parse_sql sql = Ok st -> flush_poisoned (e_pool s) = false -> txn_slot x <> SlotTimedOut ->
  match st with Statement.Begin | Statement.Commit | Statement.Rollback => True | _ => False end ->
  execute T fuel now sql (s, x) =
    match (match st with Statement.Begin => handle_begin fuel | Statement.Commit => handle_commit T fuel | _ => handle_rollback T fuel end) (s, bump_stmt_id x) with
    | (Panic, y) => (Panic, y)
    | (r, y) => (r, (y.1, set_idle now y.2))
    end.
Proof.
  intros Hp Hf Hx Hst. unfold execute, execute_with_params. cbn [fst snd]. rewrite Hf. unfold execute_impl. unfold mbind at 1, M_bind at 1, gets. cbn [snd bump_stmt_id txn_slot].
  destruct (txn_slot x) eqn:Ex; try done; (unfold mbind at 1, M_bind at 1, parsed; rewrite Hp; cbn [lift]; unfold mbind at 1, M_bind at 1; cbn [lift]; by destruct st).
Qed.

(** What has been so since BEGIN: [m0] were the pages, and [t] alone has logged. *)
Definition since_begin (n : nat) (t : TxnId) (txn : Transaction) (m0 : gmap PageId bytes) s : Prop :=
  active (e_txns s) !! t = Some txn /\ TxnManager.state txn = Growing /\ 0 <= t < next_txn_id (e_txns s)
  /\ journal_ok t (begin_lsn txn) m0 (length (frames (e_pool s))) n [] (e_pool s) /\ lone t (begin_lsn txn) (log_manager (e_pool s)).

(** BEGIN opens a transaction whose changes can be undone from the log. *)
Lemma sql_begin_ok now sql s x n bid base rs : parse_sql sql = Ok Statement.Begin -> flush_poisoned (e_pool s) = false -> txn_slot x = SlotNone ->
  pool_ok (S n) [] (e_pool s) -> log_is (log_manager (e_pool s)) bid base rs -> 0 <= next_txn_id (e_txns s) -> next_txn_id (e_txns s) + 1 < 2 ^ 64 ->
  exists s' x', execute T fuel now sql (s, x) = (Ok (ResultSet.RowsAffected 0), (s', x'))
    /\ let t := next_txn_id (e_txns s) in let txn := Transaction_new t SnapshotIsolation (next_lsn (log_manager (e_pool s))) (next_ts (e_txns s)) in
       txn_slot x' = SlotActive t /\ e_catalog s' = e_catalog s /\ pool_pages (e_pool s') = pool_pages (e_pool s) /\ since_begin n t txn (pool_pages (e_pool s)) s'.
Proof.
  intros Hp Hf Hx Hok Hl Ht0 Ht1. assert (Ht : in_u 64 (next_txn_id (e_txns s))) by (unfold in_u; lia).
  destruct (begin_journal n (e_pool s) bid base rs _ Hok Hl Ht) as (p1 & E1 & K1 & J1 & L1). pose proof (begin_run fuel SnapshotIsolation (mkSys (e_txns s) (e_pool s)) p1 E1) as Eb.
  cbv zeta in Eb. cbn [mgr pool] in Eb. rewrite (execute_control now sql Statement.Begin) by (rewrite ?Hx; done). unfold handle_begin. change (@engine_ops R Replacer0 fuel) with (@rollback_ops R Replacer0 fuel).
  unfold mbind, M_bind, gets. cbn [snd bump_stmt_id txn_slot]. rewrite Hx. cbn [slot_txn_id]. unfold shared, on_txns. cbn [fst]. rewrite Eb. eexists _, _. split; [done |].
  cbv zeta. split; [done |]. split; [done |]. split; [apply K1 |]. split; [cbn; by rewrite lookup_insert_eq |]. split; [done |].
  split; [| split; [| exact L1]].
  - cbn. unfold wrapu. rewrite Z.mod_small; lia.
  - rewrite <- (proj2 (proj2 K1)) in J1. exact J1.
Qed.

(** *** What ROLLBACK runs *)
Lemma abort_txn_ok n k s t txn m0 : since_begin (k + S (S n)) t txn m0 s -> next_txn_id (e_txns s) < 2 ^ 64 -> next_lsn (log_manager (e_pool s)) - begin_lsn txn <= MIN_RECORD_LEN * Z.of_nat k -> (k <= fuel)%nat ->
  match abort_txn fuel t s with
  | (Ok _, s') => restored n m0 (length (frames (e_pool s))) (e_pool s') /\ active (e_txns s') = delete t (active (e_txns s))
      /\ next_txn_id (e_txns s') = next_txn_id (e_txns s) /\ e_catalog s' = e_catalog s
  | (Err _, s') => pool_ok n [] (e_pool s') /\ active (e_txns s') = active (e_txns s)
  | (Panic, _) => False
  end.
Proof.
  intros (Ha & Hst & Ht & Hj & Hlone) Hn Hk Hf. assert (Ht64 : in_u 64 t) by (unfold in_u; lia).
  pose proof (abort_ok fuel n k (mkSys (e_txns s) (e_pool s)) t txn m0 _ Ha Hst Ht64 Hj Hlone Hk Hf) as H. unfold abort_txn, on_txns. change (@engine_ops R Replacer0 fuel) with (@rollback_ops R Replacer0 fuel).
  destruct ((pending ← begin_abort t; undo_then_finish pending) (mkSys (e_txns s) (e_pool s))) as [[u | e |] y]; [| | done]; cbn [map_err]; [| exact H].
  destruct H as (H1 & H2 & H3). by split_and!.
Qed.
Lemma restored_db_ok n m0 N p c0 d0 : restored n m0 N p -> db_ok m0 c0 d0 -> db_ok (pool_pages p) c0 d0.
Proof.
  intros (H1 & H2 & _) Hdb. eapply bodies_db_ok; [| exact H2 | exact Hdb]. intros q b Hq. destruct (H2 q b Hq) as (b' & Hb' & <- & _). by eapply pool_page_size.
Qed.
Lemma reloaded_kept m c0 d0 m' c' : db_ok m c0 d0 -> reloaded c0 d0 m' c' -> exists d', db_ok m' c' d' /\ tables_kept c0 d0 c' d'.
Proof.
  intros Hok (Hn & _ & d' & Hok' & Hsp). exists d'. split; [done |]. apply same_pages_kept; [| done]. intros t' info'.
  rewrite !table_by_id_iff by (by eapply ok_catalog). by rewrite Hn.
Qed.
Lemma checkpoint_room_le A A' N : (A' <= A)%nat -> (checkpoint_room A' N <= checkpoint_room A N)%nat.
Proof. intros H. unfold checkpoint_room. apply le_n_S, Z2Nat.inj_le; [apply Z.div_pos; [lia | done].. | apply Z.div_le_mono; [done | lia]]. Qed.

Definition rolled_back (n : nat) (r : ResultSet.t) (t : TxnId) (txn : Transaction) (c0 : CatalogState) (d0 : Db) (y : outcome Db.Error ResultSet.t * (Shared * SessionState)) : Prop :=
  match y with
  | (Ok r', (s', x')) => r' = r /\ txn_slot x' = SlotNone /\ active (e_txns s') !! t = None
      /\ tables_by_name (e_catalog s') = tables_by_name c0 /\ indexes_by_name (e_catalog s') = indexes_by_name c0
      /\ exists m' d', stored n [] (e_pool s') m' /\ db_ok m' (e_catalog s') d' /\ tables_kept c0 d0 (e_catalog s') d'
  | (Err _, (s', x')) => exists m', stored n [] (e_pool s') m'
      /\ (active (e_txns s') !! t = Some txn \/ exists c' d', db_ok m' c' d' /\ tables_by_name c' = tables_by_name c0 /\ tables_kept c0 d0 c' d')
  | (Panic, _) => False
  end.

Lemma roll_back_ok r t txn s x n k m0 c0 d0 :
  since_begin (k + (13 + ckpt s + n)) t txn m0 s -> next_txn_id (e_txns s) + 1 < 2 ^ 64 -> next_lsn (log_manager (e_pool s)) - begin_lsn txn <= MIN_RECORD_LEN * Z.of_nat k -> (k <= fuel)%nat ->
  db_ok m0 c0 d0 -> reloadable c0 d0 -> Catalog.catalog_first_page (e_catalog s) = None \/ Catalog.catalog_first_page (e_catalog s) = Catalog.catalog_first_page c0 ->
  rolled_back n r t txn c0 d0 ((_ ← shared (abort_txn fuel t); _ ← shared (reload_catalog T fuel); _ ← slot_to SlotNone; _ ← shared (maybe_checkpoint fuel); mret r) (s, x)).
Proof.
  intros Hs Hid Hk Hf Hdb Hre Hfirst. pose proof Hs as (Ha & _ & Ht & _). replace (k + (13 + ckpt s + n))%nat with (k + S (S (6 + S (ckpt s + (4 + n)))))%nat in Hs by lia.
  pose proof (abort_txn_ok (6 + S (ckpt s + (4 + n))) k s t txn m0 Hs ltac:(lia) Hk Hf) as H1. unfold mbind at 1, M_bind at 1, shared at 1. cbn [fst snd].
  destruct (abort_txn fuel t s) as [[u | e |] s1]; [| | done].
  2: { destruct H1 as [H1 H2]. exists (pool_pages (e_pool s1)). split; [split; [eapply pool_ok_le; [exact H1 | lia] | done] |]. left. by rewrite H2. }
  destruct H1 as (Hr & Ea & En & Ec). pose proof (restored_db_ok _ _ _ _ _ _ Hr Hdb) as Hdb1. destruct Hr as (R1 & _ & (bid & base & rs & R3) & R4).
  rewrite <- Ec in Hfirst. pose proof (reload_catalog_ok (S (ckpt s + (4 + n))) s1 c0 d0 bid base rs R1 R3 ltac:(unfold in_u; lia) Hdb1 Hre Hfirst) as H2.
  unfold mbind at 1, M_bind at 1, shared at 1. cbn [fst snd]. destruct (reload_catalog T fuel s1) as [[u' | e |] s2]; [| | done].
  2: { destruct H2 as (H2 & c1 & H3). exists (pool_pages (e_pool s2)). split; [split; [eapply pool_ok_le; [exact H2 | lia] | done] |]. right.
    destruct (reloaded_kept _ _ _ _ _ Hdb H3) as (d' & D1 & D2). exists c1, d'. split; [done |]. split; [apply H3 | done]. }
  destruct H2 as (P1 & P2 & P3 & P4 & P5). destruct (reloaded_kept _ _ _ _ _ Hdb P3) as (d' & D1 & D2).
  assert (Hroom : (ckpt s2 <= ckpt s)%nat).
  { rewrite P2, R4. apply checkpoint_room_le. rewrite P4, Ea. etrans; apply map_subseteq_size, delete_subseteq. }
  destruct (maybe_checkpoint_ok n s2 d' ltac:(eapply pool_ok_le; [exact P1 | lia]) D1) as (s3 & E3 & Q1 & Q2 & Q3 & Q4).
  unfold mbind, M_bind, slot_to, modify, shared. cbn [fst snd]. rewrite E3. cbn. split; [done |]. split; [done |]. split.
  { rewrite Q4; [rewrite P4, Ea | rewrite P5, En; unfold wrapu; rewrite Z.mod_small; lia]. apply lookup_delete_None. right. by rewrite lookup_delete_eq. }
  rewrite Q2. destruct P3 as (N1 & N2 & _). split; [done |]. split; [done |]. exists (pool_pages (e_pool s3)), d'. by split_and!.
Qed.

(** C3: ROLLBACK undoes its transaction, and so does COMMIT when a statement has failed. In a session whose transaction, since it began, is the only one that
    has logged anything, whatever its statements have done to the pages: the catalog and every table and index are as they
    were at BEGIN, with the same rows, and the transaction is gone; a checkpoint that becomes due changes none of this. When the storage fails, either
    the transaction is still open, or the pages hold the database of BEGIN. It never panics. The first page of the catalog must not have
    been taken by the transaction itself. *)
Theorem sql_rollback now sql st r t txn s x n k m0 c0 d0 : parse_sql sql = Ok st -> flush_poisoned (e_pool s) = false ->
  st = Statement.Rollback /\ slot_txn_id (txn_slot x) = Some t /\ r = ResultSet.RowsAffected 0
    \/ st = Statement.Commit /\ txn_slot x = SlotAborted t /\ r = ResultSet.RolledBack ->
  since_begin (k + (13 + ckpt s + n)) t txn m0 s -> next_txn_id (e_txns s) + 1 < 2 ^ 64 -> next_lsn (log_manager (e_pool s)) - begin_lsn txn <= MIN_RECORD_LEN * Z.of_nat k -> (k <= fuel)%nat ->
  db_ok m0 c0 d0 -> reloadable c0 d0 -> Catalog.catalog_first_page (e_catalog s) = None \/ Catalog.catalog_first_page (e_catalog s) = Catalog.catalog_first_page c0 ->
  match execute T fuel now sql (s, x) with
  | (Ok r', (s', x')) => r' = r /\ txn_slot x' = SlotNone /\ active (e_txns s') !! t = None
      /\ tables_by_name (e_catalog s') = tables_by_name c0 /\ indexes_by_name (e_catalog s') = indexes_by_name c0
      /\ exists m' d', stored n [] (e_pool s') m' /\ db_ok m' (e_catalog s') d' /\ tables_kept c0 d0 (e_catalog s') d'
  | (Err _, (s', x')) => exists m', stored n [] (e_pool s') m'
      /\ (active (e_txns s') !! t = Some txn \/ exists c' d', db_ok m' c' d' /\ tables_by_name c' = tables_by_name c0 /\ tables_kept c0 d0 c' d')
  | (Panic, _) => False
  end.
Proof.
  intros Hp Hf Hst Hs Hid Hk Hfuel Hdb Hre Hfirst. pose proof (roll_back_ok r t txn s (bump_stmt_id x) n k m0 c0 d0 Hs Hid Hk Hfuel Hdb Hre Hfirst) as H.
  assert (Hslot : txn_slot x <> SlotTimedOut) by (destruct Hst as [(_ & E & _) | (_ & E & _)]; [by intros E'; rewrite E' in E | by rewrite E]).
  assert (Hctl : match st with Statement.Begin | Statement.Commit | Statement.Rollback => True | _ => False end) by (by destruct Hst as [[-> _] | [-> _]]).
  rewrite (execute_control now sql st s x Hp Hf Hslot Hctl).
  assert (E : (match st with Statement.Begin => handle_begin fuel | Statement.Commit => handle_commit T fuel | _ => handle_rollback T fuel end) (s, bump_stmt_id x)
     = (_ ← shared (abort_txn fuel t); _ ← shared (reload_catalog T fuel); _ ← slot_to SlotNone; _ ← shared (maybe_checkpoint fuel); mret r) (s, bump_stmt_id x)).
  { destruct Hst as [(-> & E & ->) | (-> & E & ->)].
    - unfold handle_rollback. unfold mbind at 1, M_bind at 1, gets. cbn [snd bump_stmt_id txn_slot]. unfold mbind at 1, M_bind at 1. by rewrite E.
    - unfold handle_commit. unfold mbind at 1, M_bind at 1, gets. cbn [snd bump_stmt_id txn_slot]. by rewrite E. }
  rewrite E. clear E. match type of H with rolled_back _ _ _ _ _ _ ?y => destruct y as [[r' | e |] [s' x']] end; [exact H | exact H | done].
Qed.
End engine.

(** ** A rollback at work

    A second session begins a transaction, inserts rows into the table [users] and rolls back. *)
Definition lone_check (t : TxnId) (start : Lsn) (l : LogManager) : bool :=
  forallb (fun x : TxnId * Lsn => (x.1 =? t) || (x.2 <? start)) (map_to_list (last_lsn_by_txn l)).
Lemma lone_check_true t start l : lone_check t start l = true -> lone t start l.
Proof.
  unfold lone_check. rewrite forallb_forall. intros H t' lsn Hl Hge. apply elem_of_map_to_list, list_elem_of_In, H in Hl.
  cbn in Hl. apply orb_true_iff in Hl as [->%Z.eqb_eq | Hl%Z.ltb_lt]; [done | lia].
Qed.
(** The pages of a chain are different pages of the file. *)
Lemma chain_short n m first ch (p : BufferPool LruKReplacer) : pool_ok n [] p -> pool_pages p = m -> heap_ok m first ch ->
  Z.of_nat (length ch) * PAGE_SIZE <= len (content (device (disk_manager p))).
Proof.
  intros Hok <- (_ & _ & Hrep & Hnd). set (K := len (content (device (disk_manager p))) / PAGE_SIZE).
  assert (Hin : forall q, q ∈ ch.*1 -> q ∈ seqZ 0 K).
  { intros q Hq. destruct (heap_rep_in_store _ _ _ Hrep Hq) as [b Hb]. destruct (pool_page_in_file _ _ _ _ _ Hok Hb) as [H1 H2].
    apply elem_of_seqZ. split; [done |]. unfold K. apply Z.lt_le_trans with (q + 1); [lia |]. apply Z.div_le_lower_bound; [done | lia]. }
  pose proof (submseteq_length _ _ (NoDup_submseteq _ _ Hnd Hin)) as Hl. rewrite length_fmap, length_seqZ in Hl.
  pose proof (Z.mul_div_le (len (content (device (disk_manager p)))) PAGE_SIZE ltac:(done)) as Hd. fold K in Hd.
  assert (0 <= K) by (apply Z.div_pos; [apply len_nonneg | done]). unfold PAGE_SIZE in *. lia.
Qed.

Definition begin_sql : bytes := str "BEGIN".
Definition rollback_sql : bytes := str "ROLLBACK".
Definition run_in (sql : bytes) (x : SessionState) (s : EngineShared LruKReplacer) : outcome Db.Error ResultSet.t * (EngineShared LruKReplacer * SessionState) :=
  execute sample_texts sample_fuel 0 sql (s, x).
Definition idle_session : SessionState := mkSessionState SlotNone 2 None.
Definition second_session : SessionState := mkSessionState (SlotActive 1) 3 (Some 0).
Definition second_begun : EngineShared LruKReplacer := (run_in begin_sql idle_session with_users).2.1.
Definition second_rows : EngineShared LruKReplacer := (run_in insert_users second_session second_begun).2.1.

Lemma begun_journal : journal_ok 0 16 (pool_pages sample_pool) 2 (50 + room) [] (e_pool begun).
Proof.
  pose proof (sample_pool_room (S (50 + room))) as Hok. specialize (Hok ltac:(pose proof room_small; lia)).
  destruct (begin_journal (50 + room) sample_pool 0 HEADER_LEN [] 0 Hok) as (p' & E & _ & J & _); [| unfold in_u; lia |].
  - split; [reflexivity |]. exists [], [], []. split; [apply (fresh_log_inv 65536) | done].
  - assert (Eb : e_pool begun = p').
    { unfold begun, on_txns. pose proof (begin_run sample_fuel SnapshotIsolation (mkSys (e_txns opened) sample_pool) p' E) as Eb. cbv zeta in Eb.
      change (@pool_ops LruKReplacer lru_k_replacer sample_fuel) with (@rollback_ops LruKReplacer lru_k_replacer sample_fuel). change (e_pool opened) with sample_pool. rewrite Eb. reflexivity. }
    rewrite Eb. assert (E1 : next_lsn (log_manager sample_pool) = 16) by (vm_compute; reflexivity). assert (E2 : length (frames sample_pool) = 2%nat) by (vm_compute; reflexivity).
    rewrite E1, E2 in J. exact J.
Qed.
Lemma room_large : (100 <= room)%nat.
Proof. unfold room, build_cost, INSERT_COST. rewrite PUSH_COST_eq. unfold REBUILD_COST, PAGE_SIZE. lia. Qed.
Lemma zero_u64 : in_u 64 0.
Proof. unfold in_u. lia. Qed.
Lemma one_u64 : in_u 64 1.
Proof. unfold in_u. lia. Qed.
Lemma second_begun_run : (run_in begin_sql idle_session with_users).2.1 = second_begun.
Proof. exact eq_refl. Qed.
Lemma second_rows_run : (run_in insert_users second_session second_begun).2.1 = second_rows.
Proof. exact eq_refl. Qed.
#[local] Opaque begun with_users room second_begun second_rows.

Definition second_txn : Transaction := Transaction_new 1 SnapshotIsolation 645 1.
(** The database the second transaction finds. *)
Definition found (n : nat) (m : gmap PageId bytes) (d : Db) (s : EngineShared LruKReplacer) : Prop :=
  db_ok m (e_catalog with_users) d /\ depth_below d 1 /\ (length (db_table_rows d) <= 3)%nat /\ since_begin n 1 second_txn m s.
Lemma with_users_log : exists m d, pool_ok (30 + room) [] (e_pool with_users) /\ pool_pages (e_pool with_users) = m /\ db_ok m (e_catalog with_users) d
  /\ depth_below d 1 /\ exists bid base rs, log_is (log_manager (e_pool with_users)) bid base rs.
Proof.
  pose proof (@with_users_under (journal_laws 0 16 (pool_pages sample_pool) 2 zero_u64)) as H.
  specialize (H (conj begun_journal (proj2 (proj1 begun_ok)))). destruct H as (m & d & [(H1 & _ & _ & H2) H3] & H4 & _ & _ & _ & H5).
  assert (Hl : lone 0 16 (log_manager (e_pool with_users))) by (apply lone_check_true; vm_compute; reflexivity).
  destruct (H2 Hl) as (bid & base & pre & first & post & Hlog & _). exists m, d. split; [exact H1 |]. split; [exact H3 |]. split; [exact H4 |]. split; [exact H5 |].
  exists bid, base, (pre ++ first :: post). exact Hlog.
Qed.
Lemma second_begun_ok : exists m d, found (29 + room) m d second_begun /\ pool_pages (e_pool second_begun) = m /\ e_catalog second_begun = e_catalog with_users.
Proof.
  destruct with_users_log as (m & d & Hok & Hm & Hdb & Hdp & bid & base & rs & Hlog).
  assert (Hf : flush_poisoned (e_pool with_users) = false) by (vm_compute; reflexivity).
  assert (En : next_txn_id (e_txns with_users) = 1) by (vm_compute; reflexivity).
  destruct (sql_begin_ok sample_texts sample_fuel 0 begin_sql with_users idle_session (29 + room) bid base rs eq_refl Hf eq_refl Hok Hlog ltac:(rewrite En; lia) ltac:(rewrite En; lia))
    as (s' & x' & E & H). cbv zeta in H. rewrite En in H.
  assert (E1 : next_lsn (log_manager (e_pool with_users)) = 645) by (vm_compute; reflexivity). assert (E2 : next_ts (e_txns with_users) = 1) by (vm_compute; reflexivity). rewrite E1, E2 in H.
  destruct H as (_ & Hc & Hp & Hs). pose proof second_begun_run as Er. unfold run_in in Er. rewrite E in Er. cbn [fst snd] in Er. subst s'. rewrite Hm in Hp, Hs.
  exists m, d. split; [| split; [exact Hp | exact Hc]]. split; [exact Hdb |]. split; [exact Hdp |]. split; [| exact Hs].
  pose proof (ok_table_heap _ _ _ _ Hdb) as Hh. assert (Ef : Catalog.catalog_first_page (e_catalog with_users) = Some 2) by (vm_compute; reflexivity). rewrite Ef in Hh. cbn in Hh.
  pose proof (chain_short _ _ _ _ _ Hok Hm Hh) as Hl. assert (El : len (content (device (disk_manager (e_pool with_users)))) = 3 * PAGE_SIZE) by (vm_compute; reflexivity).
  rewrite El in Hl. unfold PAGE_SIZE in Hl. lia.
Qed.

Lemma second_rows_ok : exists m d, found (17 + room) m d second_rows.
Proof.
  destruct second_begun_ok as (m & d & (Hdb & Hdp & Hlen & Ha & Hst & Ht & Hj & Hlone) & Hm & Hc).
  pose proof (@execute_insert_spec LruKReplacer _ (journal_laws 1 645 m (length (frames (e_pool second_begun))) one_u64) sample_texts sample_fuel (17 + room) m d 1 second_txn second_begun) as H.
  rewrite Hc in H. specialize (H Hdb Ha eq_refl).
  assert (El : lock_manager (e_txns second_begun) = lock_manager (TransactionManager_new None)) by (vm_compute; reflexivity). rewrite El in H. specialize (H (nobody_holds 1) users_insert users users_rows 1%nat).
  change (insert_table_id users_insert) with 0 in H. rewrite users_cost in H.
  specialize (H (proj1 users_found)). specialize (H ltac:(discriminate)). specialize (H users_rows_ok). specialize (H ltac:(vm_compute; reflexivity)). specialize (H Hdp). specialize (H ltac:(unfold sample_fuel; cbn; lia)). specialize (H (conj Hj Hm)).
  assert (Hden : denotes second_begun insert_users (BoundStatement.Insert users_insert)) by (apply bound_of_denotes; vm_compute; reflexivity). destruct Hden as (_ & st & Hp & Hb).
  assert (Hf : flush_poisoned (e_pool second_begun) = false) by (vm_compute; reflexivity).
  pose proof (execute_open sample_texts sample_fuel 0 insert_users st _ 1 second_begun second_session Hp Hb I Hf eq_refl) as He.
  assert (Hr : (run_in insert_users second_session second_begun).1 = Ok (ResultSet.RowsAffected 2)) by (vm_compute; reflexivity).
  pose proof second_rows_run as Es. unfold run_in in Hr, Es. rewrite He in Hr, Es. destruct (execute_bound _ _ _ _ second_begun) as [[r | e |] s']; [| discriminate Hr..].
  cbn [fst snd] in Es. subst s'. destruct H as (_ & (Eact & Enx & _) & _ & m' & [Hj' _] & _). exists m, d. split; [exact Hdb |]. split; [exact Hdp |]. split; [exact Hlen |].
  split; [rewrite Eact; exact Ha |]. split; [exact Hst |]. split; [rewrite Enx; exact Ht |]. split; [| apply lone_check_true; vm_compute; reflexivity].
  pose proof Hj' as (_ & HN & _). rewrite <- HN in Hj'. rewrite HN in Hj' |- *. exact Hj'.
Qed.

(** The second transaction is rolled back: the table is as it was. *)
Lemma sql_rollback_witness : exists s', run_in rollback_sql second_session second_rows = (Ok (ResultSet.RowsAffected 0), s')
  /\ txn_slot s'.2 = SlotNone /\ active (e_txns s'.1) !! 1 = None /\ tables_by_name (e_catalog s'.1) = tables_by_name (e_catalog with_users)
  /\ exists m d m' d', db_ok m (e_catalog with_users) d /\ db_ok m' (e_catalog s'.1) d' /\ tables_kept (e_catalog with_users) d (e_catalog s'.1) d'.
Proof.
  destruct second_rows_ok as (m & d & Hdb & Hdp & Hlen & Hs). assert (Hf : flush_poisoned (e_pool second_rows) = false) by (vm_compute; reflexivity).
  assert (En : next_txn_id (e_txns second_rows) = 2) by (vm_compute; reflexivity). assert (El : next_lsn (log_manager (e_pool second_rows)) = 1068) by (vm_compute; reflexivity).
  assert (Ec : checkpoint_room (base.size (active (e_txns second_rows))) (length (frames (e_pool second_rows))) = 1%nat) by (vm_compute; reflexivity).
  assert (Hre : reloadable sample_fuel (e_catalog with_users) d).
  { assert (Hti : length (table_infos (e_catalog with_users)) = 1%nat) by (vm_compute; reflexivity). assert (Hii : length (index_infos (e_catalog with_users)) = 0%nat) by (vm_compute; reflexivity).
    assert (Hn : next_table_id (e_catalog with_users) = 1 /\ next_index_id (e_catalog with_users) = 0) by (vm_compute; split; reflexivity). destruct Hn as [Hn1 Hn2].
    assert (Hir : db_index_rows d = []) by (eapply no_indexes_yet; [exact Hdb | vm_compute; reflexivity]).
    split; [rewrite Hn1; unfold u32_max; lia | rewrite Hn2; unfold u32_max; lia |]. rewrite Hti, Hii, Hir. unfold sample_fuel. cbn [length]. lia. }
  pose proof (sql_rollback sample_texts sample_fuel 0 rollback_sql Statement.Rollback (ResultSet.RowsAffected 0) 1 second_txn second_rows second_session 5 12 m (e_catalog with_users) d
    eq_refl Hf (or_introl (conj eq_refl (conj eq_refl eq_refl)))) as H. rewrite Ec, En, El in H.
  specialize (H ltac:(destruct Hs as (S1 & S2 & S3 & S4 & S5); split; [exact S1 |]; split; [exact S2 |]; split; [exact S3 |]; split; [eapply journal_ok_le; [exact S4 | pose proof room_large; lia] | exact S5])).
  specialize (H ltac:(lia) ltac:(change (begin_lsn second_txn) with 645; unfold MIN_RECORD_LEN; lia) ltac:(unfold sample_fuel; lia) Hdb Hre ltac:(right; vm_compute; reflexivity)). fold (run_in rollback_sql second_session second_rows) in H.
  assert (Hr : (run_in rollback_sql second_session second_rows).1 = Ok (ResultSet.RowsAffected 0)) by (vm_compute; reflexivity).
  destruct (run_in rollback_sql second_session second_rows) as [r [s' x']]. cbn [fst] in Hr. rewrite Hr in H |- *. destruct H as (_ & H1 & H2 & H3 & _ & m' & d' & _ & H5 & H6).
  exists (s', x'). split; [reflexivity |]. split; [exact H1 |]. split; [exact H2 |]. split; [exact H3 |]. exists m, d, m', d'. exact (conj Hdb (conj H5 H6)).
Defined.
